(* ===== verification/_CoqProject ===== *)
-Q . S2P
Prelude.v
Context.v
Serialization.v
Conversion.v
MemoryModel.v
PageIndex.v
Memory.v
MemoryLogic.v
MemoryInv.v
MemoryTotal.v
MemorySpec.v
MemoryAtomic.v
MemoryProperties.v
MemoryFrame.v
MemoryHistory.v
Transaction.v
TransactionInv.v
TransactionHistory.v
TransactionWorld.v
TransactionCommit.v
Stripes.v
StripeProperties.v
CommitRace.v
Blink.v
X64Engine.v
X64EngineProperties.v
X64EngineSlices.v
I386Memory.v
I386Engine.v
I386EngineProperties.v
Pe.v
PeInvariant.v
PeProperties.v
Target.v
TargetProperties.v
Loader.v
LoaderProperties.v
Control.v
Dynarmic.v
Arm64ecEngine.v
Arm64ecEngineLogic.v
Arm64ecEngineProperties.v
Hybrid.v
HybridRecord.v
HybridLogic.v
HybridProperties.v
Wine.v
WineLogic.v
WineCalls.v
WineWorld.v
WineProperties.v
