(* ===== verification/Prelude.v ===== *)
(** A verification development for SharpWine's GEM layer: the part of the
    runtime, in C under src/gem and include/metalsharp/gem, that keeps the guest
    CPU state, the guest address space and the ARM64X images from which
    translated code runs.

    ** The program

    A Windows thread is one [struct gem_thread_context].  Its memory is one
    [struct gem_memory], a sparse map of 4 KiB pages with reservations,
    protections, guard pages, aliases and copy-on-write; the engines read and
    write it through public calls and, for x64, through optimistic transactions.
    An ARM64X image is parsed from untrusted bytes, materialised in guest
    memory, and asked which addresses hold ARM64EC and which hold x64 code.

    ** The files

    Guest CPU state:
    - Context: [gem_thread_context], [gem_i386_context] (context.c,
      i386_context.c);
    - Serialization: the wire format of a context (context_serialization.c),
      with its round trips;
    - Conversion: ARM64EC and x64 views of one context (context_conversion.c),
      with their round trips.

    Guest address space (memory.c):
    - MemoryModel: the data, the state-and-error monad and the primitive steps;
      Memory: every [*_locked] operation and public call;
    - PageIndex: the page nodes, their list and hash chains, as a refinement of
      the finite map that MemoryModel uses for the page table;
    - MemoryLogic: the ownership invariant [st] (reference counts are exact, the
      layout of the reservations) and a Hoare logic; MemoryInv: every operation
      keeps it; MemoryTotal: every sequence of calls returns;
    - MemorySpec and MemoryProperties: contents under aliasing and
      copy-on-write, reservations, guard pages, the KUSER pages;
      MemoryAtomic: failed calls change nothing; MemoryFrame: isolation;
      MemoryHistory: what an unchanged generation promises;
    - Transaction: [gem_memory_transaction_*]; TransactionInv,
      TransactionHistory, TransactionWorld: any number of transactions mixed with
      ordinary calls keep reference counts exact, and what a transaction read is
      still there when it finishes; TransactionCommit: what a commit writes, and
      that a failed one writes nothing;
    - Stripes: which lock stripes a call takes, the stripe lock, and threads that
      run the lock operations of their calls; StripeProperties: mutual exclusion
      and the absence of deadlock; CommitRace: a window that the stripes leave.
      Stripes and Memory meet as follows: a call holds the metadata lock
      throughout (a commit aside, whose two halves Transaction keeps apart), so
      that one public call is one step of Memory;
    - I386Memory: the 4 GiB facade (i386_memory.c).

    ARM64X images:
    - Pe: the parser and its queries (pe_arm64x.c); PeInvariant and
      PeProperties: no read outside the buffer, what a parsed image satisfies,
      exact queries;
    - Target and TargetProperties: target resolution, the checker contract and
      descriptors (arm64ec_target.c);
    - Loader and LoaderProperties: materialisation at the preferred base
      (pe_arm64x_loader.c).

    Engines that execute x86:
    - Blink: the third-party emulator as a class; a call into it is the tree of
      the callbacks it makes ([blink_run]), run by [run_blink];
    - X64Engine, X64EngineProperties, X64EngineSlices: x64_engine.c and
      x64_blink.c, one transaction per instruction; what a run guarantees
      whatever the emulator does, and that a run can be cut into slices;
    - I386Engine, I386EngineProperties: i386_engine.c and i386_blink.c with the
      table of operations between them (class [I386OpsOk]), the replay of
      conflicting batches, and the end of every run.

    The engine that executes ARM64EC:
    - Control: function bodies with a state, early returns and loops that may
      not end, with their weakest preconditions;
    - Dynarmic: the third-party recompiler as a class, a call into it again the
      tree of the callbacks it makes;
    - Arm64ecEngine: arm64ec_engine.c and arm64ec_dynarmic.cpp, over an opaque
      object that the boundary broker owns; Arm64ecEngineLogic: the invariants
      of a run and a rule for each of its parts; Arm64ecEngineProperties: what a
      run guarantees whatever the recompiler and the broker do.

    The coordinator of a thread that crosses between ARM64EC and x64:
    - Hybrid: hybrid_runtime.c over the two engines, which run in its own state:
      the boundary broker that both call, the records that stand in for return
      addresses on the x64 stack, the two transition frames, and the stateful
      run ([gem_hybrid_runtime_run]);
    - HybridRecord: a record changes one stack slot and nothing else, and the
      value it replaced comes back;
    - HybridLogic: the frames of a run form a stack with exact counters, a rule
      for each of the run's steps, and the measure that each round lowers;
    - HybridProperties: what a run guarantees whatever the emulator and the
      recompiler do, how a runtime starts, and a concrete crossing.

    The bridge to Wine, on top of everything else:
    - Wine: wine_bridge.c - a process with its memory, images, routing and
      threads, the calls that change them, and both runs.  A run is cut into
      rounds at its callbacks and slices, and [wine_step] interleaves the rounds
      of any number of host threads with calls, callbacks and nested runs;
    - WineLogic: what each engine does to a thread, and a rule for each part of
      a round; WineCalls: the well-formed process, kept by every other call;
      WineWorld: the same for every legal event, with the run locks exactly held
      by the runs on the stacks of the host threads;
    - WineProperties: safety of every history, exclusive runs, what a run
      reports, how far it can go, registration, and what a callback must not do.

    ** Conventions

    Definitions carry the names of the code.  An unsigned integer is a [Z] and
    wraps where the code can; a pointer that may be NULL is an option; an output
    parameter is part of the result.  Code that can meet undefined behaviour
    returns [Fault] there (a NULL or dead pointer, a read outside a buffer), and
    [abort()] is an error of its own, so a theorem that an operation returns [Ok]
    excludes both.  What the platform decides is a parameter: which allocations
    succeed and what uninitialised memory holds (classes [Platform] and
    [Allocator]), the answers of [mach_vm_region], the CFG policy callback, the
    addresses of backings.

    Loops are structural where they can be.  Fuel appears in three places, each
    with a theorem that it suffices: the search of [reserve_locked] (one more
    than the number of pages), the walks of PageIndex (one more than the number
    of nodes), and the redirection chain (the code's own hop limit).  A fourth
    is the run loop of the i386 engine, which may retry a conflicting batch: the
    budget and the number of conflicts suffice ([i386_run_ends]).  The segment
    loop of the ARM64EC engine (SVC-trap delivery) has fuel too, but it may
    really go on for ever, since a broker can resume without an instruction
    retiring: its outcome [None] is that case, and [arm64ec_run_contract] says
    that no other delivery has it.
    The loop of [gem_hybrid_runtime_run] has fuel as well: with a delivery that
    is not SVC-trap, 4 * budget + 4 rounds suffice, because a round spends budget
    or is one of at most four crossings between two instructions
    ([hybrid_run_contract]).

    An atomic flag is its value together with what other threads store before
    each of the coming exchanges.

    ** Not modelled

    The creation and destruction of locks, their Windows variants, errors that
    [pthread_mutex_lock] returns, and the statistics of lock waits; the four
    one-shot runs of hybrid_runtime.c (round trip, callback, return, nested),
    which compose the same steps as the stateful run in one fixed order each;
    diagnostics that only forward to the emulator; the emulators themselves
    (third-party instruction semantics), the macOS file-descriptor shim, build
    files, Wine patches, probes and tests.  A round of a Wine run is one step:
    the calls of other host threads come before or after it, as the runtime lock
    makes them do, but for an asynchronous stop, whose flags the engines read
    from the list of what arrives.  An ARM64X image is registered from host
    memory, whose bytes are an argument of the call.

    This file holds what the others share: fixed-width integers, C's bit
    operators in a scope of their own, the [result] monad with its rules,
    automation for boolean guards, and little-endian bytes. *)
From stdpp Require Export base list list_numbers gmap option numbers strings.
From Stdlib Require Export ZArith Lia.
Global Open Scope Z_scope.

(** ** Fixed-width unsigned integers, kept as [Z] *)

Definition UINT8_MAX : Z := 255.
Definition UINT16_MAX : Z := 65535.
Definition UINT32_MAX : Z := 4294967295.
Definition UINT64_MAX : Z := 18446744073709551615.
Definition SIZE_MAX : Z := UINT64_MAX.

(** The conversion to a w-bit unsigned type: C keeps the low w bits. *)
Definition wrap8 (x : Z) : Z := x mod 2 ^ 8.
Definition wrap16 (x : Z) : Z := x mod 2 ^ 16.
Definition wrap32 (x : Z) : Z := x mod 2 ^ 32.
Definition wrap64 (x : Z) : Z := x mod 2 ^ 64.

Definition is_u8 (x : Z) : Prop := 0 <= x < 2 ^ 8.
Definition is_u16 (x : Z) : Prop := 0 <= x < 2 ^ 16.
Definition is_u32 (x : Z) : Prop := 0 <= x < 2 ^ 32.
Definition is_u64 (x : Z) : Prop := 0 <= x < 2 ^ 64.

#[export] Instance is_u8_dec x : Decision (is_u8 x).
Proof. unfold is_u8; apply _. Defined.
#[export] Instance is_u16_dec x : Decision (is_u16 x).
Proof. unfold is_u16; apply _. Defined.
#[export] Instance is_u32_dec x : Decision (is_u32 x).
Proof. unfold is_u32; apply _. Defined.
#[export] Instance is_u64_dec x : Decision (is_u64 x).
Proof. unfold is_u64; apply _. Defined.

(** ** C's bit operators *)

Declare Scope gem_scope.
Delimit Scope gem_scope with gem.
Notation "x '.&' y" := (Z.land x y) (at level 40, left associativity) : gem_scope.
Notation "x '.|' y" := (Z.lor x y) (at level 50, left associativity) : gem_scope.
Notation "x '.^' y" := (Z.lxor x y) (at level 45, left associativity) : gem_scope.
(** [x .&~ y] is C's [x & ~y] on unsigned operands of one width. *)
Notation "x '.&~' y" := (Z.ldiff x y) (at level 40, left associativity) : gem_scope.
Notation "x '<<.' n" := (Z.shiftl x n) (at level 39, left associativity) : gem_scope.
Notation "x '>>.' n" := (Z.shiftr x n) (at level 39, left associativity) : gem_scope.
Global Open Scope gem_scope.

(** [(x & m) != 0]. *)
Definition has_bits (x m : Z) : bool := negb ((x .& m) =? 0).

(** [bit b n] is the mask [1 << n] when [b] holds and 0 otherwise. *)
Definition bit_if (b : bool) (n : Z) : Z := if b then 1 <<. n else 0.

(** ** Results of C code: a value, an error code, or undefined behaviour *)

(** [Fault] stands for what the C standard leaves undefined: a read outside a
    buffer, a NULL dereference, or a call of [abort]. *)
Inductive result (E A : Type) : Type :=
  | Ok (a : A)
  | Err (e : E)
  | Fault.
Arguments Ok {_ _} _.
Arguments Err {_ _} _.
Arguments Fault {_ _}.

#[export] Instance result_ret {E} : MRet (result E) := fun A a => Ok a.
#[export] Instance result_bind {E} : MBind (result E) := fun A B f r =>
  match r with Ok a => f a | Err e => Err e | Fault => Fault end.

(** [if (!cond) return e;] *)
Definition require {E} (cond : bool) (e : E) : result E unit :=
  if cond then Ok tt else Err e.

(** Replace every error code of [r]: [if (status != OK) return e;]. *)
Definition map_err {E E' A} (f : E -> E') (r : result E A) : result E' A :=
  match r with Ok a => Ok a | Err e => Err (f e) | Fault => Fault end.

Definition no_fault {E A} (r : result E A) : Prop :=
  match r with Fault => False | _ => True end.

Lemma result_bind_Ok {E A B} (r : result E A) (f : A -> result E B) (b : B) :
  (r ≫= f) = Ok b <-> exists a, r = Ok a /\ f a = Ok b.
Proof.
  split; [destruct r; cbn; try discriminate; eauto|].
  by intros (a & -> & ?).
Qed.

Lemma result_bind_Err {E A B} (r : result E A) (f : A -> result E B) (e : E) :
  (r ≫= f) = Err e <-> r = Err e \/ exists a, r = Ok a /\ f a = Err e.
Proof.
  split.
  - destruct r as [a|e'|]; cbn; [eauto| |discriminate]. intros [= ->]. by left.
  - by intros [-> | (a & -> & ?)].
Qed.

Lemma no_fault_bind {E A B} (r : result E A) (f : A -> result E B) :
  no_fault r -> (forall a, r = Ok a -> no_fault (f a)) -> no_fault (r ≫= f).
Proof. destruct r; cbn; eauto. Qed.

Lemma no_fault_require {E} (c : bool) (e : E) : no_fault (require c e).
Proof. by destruct c. Qed.

Lemma no_fault_map_err {E E' A} (f : E -> E') (r : result E A) :
  no_fault r -> no_fault (map_err f r).
Proof. by destruct r. Qed.

Lemma require_Ok {E} (c : bool) (e : E) (u : unit) : require c e = Ok u <-> c = true.
Proof. destruct c, u; cbn; split; congruence. Qed.

Lemma map_err_Ok {E E' A} (f : E -> E') (r : result E A) (a : A) :
  map_err f r = Ok a <-> r = Ok a.
Proof. destruct r; cbn; split; congruence. Qed.

(** [r] does not fault, and what it returns satisfies [P]. *)
Definition safe {E A} (P : A -> Prop) (r : result E A) : Prop :=
  match r with Ok a => P a | Err _ => True | Fault => False end.

Lemma safe_bind {E A B} (P : A -> Prop) (Q : B -> Prop) (r : result E A) (f : A -> result E B) :
  safe P r -> (forall a, P a -> safe Q (f a)) -> safe Q (r ≫= f).
Proof. destruct r; cbn; eauto. Qed.

Lemma safe_weaken {E A} (P Q : A -> Prop) (r : result E A) :
  safe P r -> (forall a, P a -> Q a) -> safe Q r.
Proof. destruct r; cbn; eauto. Qed.

Lemma safe_require {E} (c : bool) (e : E) : safe (fun _ => c = true) (require c e).
Proof. by destruct c. Qed.

Lemma safe_map_err {E E' A} (P : A -> Prop) (f : E -> E') (r : result E A) :
  safe P r -> safe P (map_err f r).
Proof. by destruct r. Qed.

Lemma safe_no_fault {E A} (P : A -> Prop) (r : result E A) : safe P r -> no_fault r.
Proof. by destruct r. Qed.

(** ** Automation *)

Create HintDb gem.
Create Rewrite HintDb gem_ok.
#[export] Hint Resolve no_fault_require no_fault_map_err : gem.
#[export] Hint Rewrite @result_bind_Ok @require_Ok @map_err_Ok : gem_ok.

(** Turn the boolean guards of the code into arithmetic facts. *)
Ltac bool_to_Z :=
  repeat match goal with
  | H : (_ && _) = true |- _ => apply andb_true_iff in H; destruct H
  | H : (_ || _) = false |- _ => apply orb_false_iff in H; destruct H
  | H : negb _ = true |- _ => apply negb_true_iff in H
  | H : negb _ = false |- _ => apply negb_false_iff in H
  | H : (_ <=? _) = true |- _ => apply Z.leb_le in H
  | H : (_ <=? _) = false |- _ => apply Z.leb_gt in H
  | H : (_ <? _) = true |- _ => apply Z.ltb_lt in H
  | H : (_ <? _) = false |- _ => apply Z.ltb_ge in H
  | H : (_ =? _) = true |- _ => apply Z.eqb_eq in H
  | H : (_ =? _) = false |- _ => apply Z.eqb_neq in H
  end.

(** Open every hypothesis saying that a sequence of [result] steps succeeded. *)
Ltac run_ok H :=
  repeat first
    [ rewrite result_bind_Ok in H; let a := fresh "v" in let E := fresh "E" in
      destruct H as (a & E & H); run_ok E
    | rewrite require_Ok in H
    | rewrite map_err_Ok in H ];
  subst; bool_to_Z.

(** ** Little-endian bytes *)

(** The n low bytes of [v], least significant first. *)
Fixpoint le_bytes (n : nat) (v : Z) : list Z :=
  match n with
  | O => []
  | S n => wrap8 v :: le_bytes n (v >>. 8)
  end.

(** The number a little-endian byte string spells. *)
Fixpoint le_value (bs : list Z) : Z :=
  match bs with
  | [] => 0
  | b :: bs => b + 256 * le_value bs
  end.

Lemma length_le_bytes n v : length (le_bytes n v) = n.
Proof. revert v; induction n; intros; cbn; auto. Qed.

Lemma le_bytes_u8 n v : Forall is_u8 (le_bytes n v).
Proof.
  revert v; induction n; intros; constructor; auto.
  apply Z.mod_pos_bound; lia.
Qed.

Lemma le_value_bytes n v : le_value (le_bytes n v) = v mod 2 ^ (8 * Z.of_nat n).
Proof.
  revert v; induction n as [|n IH]; intros v; cbn [le_bytes le_value].
  - by rewrite Z.mod_1_r.
  - rewrite IH, Z.shiftr_div_pow2 by lia. unfold wrap8.
    replace (8 * Z.of_nat (S n)) with (8 + 8 * Z.of_nat n) by lia.
    rewrite Z.pow_add_r by lia. rewrite Z.rem_mul_r; [|lia|apply Z.pow_pos_nonneg; lia].
    change 256 with (2 ^ 8). lia.
Qed.

Lemma le_value_bound bs :
  Forall is_u8 bs -> 0 <= le_value bs < 2 ^ (8 * Z.of_nat (length bs)).
Proof.
  induction 1 as [|b bs Hb _ IH]; cbn [le_value length]; [done|].
  unfold is_u8 in Hb.
  replace (8 * Z.of_nat (S (length bs))) with (8 + 8 * Z.of_nat (length bs)) by lia.
  rewrite Z.pow_add_r by lia. lia.
Qed.

Lemma le_bytes_value bs : Forall is_u8 bs -> le_bytes (length bs) (le_value bs) = bs.
Proof.
  induction 1 as [|b bs Hb Hbs IH]; cbn [le_value length le_bytes]; [done|].
  unfold is_u8 in Hb. pose proof (le_value_bound bs Hbs).
  f_equal.
  - unfold wrap8. change 256 with (2 ^ 8). rewrite Z.mul_comm, Z.mod_add by lia.
    apply Z.mod_small; lia.
  - rewrite Z.shiftr_div_pow2 by lia. change 256 with (2 ^ 8).
    rewrite Z.mul_comm, Z.div_add by lia. rewrite Z.div_small by lia.
    by rewrite Z.add_0_l.
Qed.

(** A value below a shifted one: [|] and [+] agree. *)
Lemma lor_shift_add b v k : 0 <= k -> 0 <= b < 2 ^ k -> b .| (v <<. k) = b + 2 ^ k * v.
Proof.
  intros Hk Hb. pose proof (Z.add_lor_land b (v <<. k)) as Hadd.
  assert (b .& (v <<. k) = 0) as Hland.
  { apply Z.bits_inj'; intros i Hi. rewrite Z.land_spec, Z.bits_0.
    destruct (decide (i < k)).
    - rewrite Z.shiftl_spec_low by lia. by rewrite andb_false_r.
    - rewrite <- (Z.mod_small b (2 ^ k)) by lia.
      by rewrite Z.mod_pow2_bits_high by lia. }
  rewrite Hland, Z.shiftl_mul_pow2 in Hadd by lia.
  rewrite Z.shiftl_mul_pow2 by lia. lia.
Qed.
