(* ===== verification/Context.v ===== *)
(** Context: the canonical guest CPU state.

    [struct gem_thread_context] with [gem_context_initialize],
    [gem_context_is_valid] and [gem_stop_reason_name]
    (include/metalsharp/gem/context.h, src/gem/context.c), then
    [struct gem_i386_context] (include/metalsharp/gem/i386_context.h,
    src/gem/i386_context.c).  A C array
    is a list of the array's length, a NULL pointer is [None], a union is the
    list of its 32-bit words. *)
From S2P Require Import Prelude.

(** ** The enums *)

Inductive gem_stop_reason : Type :=
  | GEM_STOP_NONE
  | GEM_STOP_SYSCALL
  | GEM_STOP_ARCH_TRANSITION
  | GEM_STOP_HOST_RETURN
  | GEM_STOP_MEMORY_FAULT
  | GEM_STOP_WINDOWS_EXCEPTION
  | GEM_STOP_ASYNC_REQUEST
  | GEM_STOP_UNSUPPORTED_INSTRUCTION
  | GEM_STOP_BUDGET_EXPIRED
  | GEM_STOP_INVARIANT_VIOLATION.

#[export] Instance gem_stop_reason_eq_dec : EqDecision gem_stop_reason.
Proof. solve_decision. Defined.

Definition stop_value (r : gem_stop_reason) : Z :=
  match r with
  | GEM_STOP_NONE => 0
  | GEM_STOP_SYSCALL => 1
  | GEM_STOP_ARCH_TRANSITION => 2
  | GEM_STOP_HOST_RETURN => 3
  | GEM_STOP_MEMORY_FAULT => 4
  | GEM_STOP_WINDOWS_EXCEPTION => 5
  | GEM_STOP_ASYNC_REQUEST => 6
  | GEM_STOP_UNSUPPORTED_INSTRUCTION => 7
  | GEM_STOP_BUDGET_EXPIRED => 8
  | GEM_STOP_INVARIANT_VIOLATION => 9
  end.

(** [enum gem_isa]; the context stores it as a [uint32_t]. *)
Definition GEM_ISA_INVALID : Z := 0.
Definition GEM_ISA_ARM64EC : Z := 1.
Definition GEM_ISA_X64 : Z := 2.

Definition GEM_CONTEXT_LAYOUT_VERSION : Z := 1.
Definition GEM_CONTEXT_SERIALIZATION_VERSION : Z := 1.
Definition GEM_THREAD_CONTEXT_SIZE_V1 : Z := 720.
Definition GEM_THREAD_CONTEXT_EXPECTED_SIZE : Z := GEM_THREAD_CONTEXT_SIZE_V1.

Record gem_u128 : Type := U128 { lo : Z; hi : Z }.

#[export] Instance gem_u128_eq_dec : EqDecision gem_u128.
Proof. solve_decision. Defined.

Definition u128_zero : gem_u128 := U128 0 0.
#[export] Instance gem_u128_inhabited : Inhabited gem_u128 := populate u128_zero.

(** A vector as its C type holds it. *)
Definition u128_typed (v : gem_u128) : gem_u128 := U128 (wrap64 (lo v)) (wrap64 (hi v)).
Definition is_u128 (v : gem_u128) : Prop := is_u64 (lo v) /\ is_u64 (hi v).
#[export] Instance is_u128_dec v : Decision (is_u128 v).
Proof. unfold is_u128; apply _. Defined.

(** The name table of [gem_stop_reason_name]; the argument is the enum's
    integer, converted to [unsigned int] before the bounds test. *)
Definition stop_reason_names : list string :=
  ["none"; "syscall"; "architecture-transition"; "host-return"; "memory-fault";
   "windows-exception"; "async-request"; "unsupported"; "budget-expired";
   "invariant-violation"]%string.

Definition gem_stop_reason_name (reason : Z) : string :=
  if Z.of_nat (length stop_reason_names) <=? wrap32 reason then "invalid"%string
  else stop_reason_names !!! Z.to_nat (wrap32 reason).

(** ** The ARM64EC/x64 thread context *)

Record gem_thread_context : Type := ThreadContext {
  c_layout_version : Z;
  c_context_size : Z;
  c_x : list Z;
  c_sp : Z;
  c_pc : Z;
  c_nzcv : Z;
  c_fpcr : Z;
  c_fpsr : Z;
  c_reserved0 : Z;
  c_v : list gem_u128;
  c_x64_rflags : Z;
  c_x64_mxcsr : Z;
  c_x64_fcw : Z;
  c_x64_fsw : Z;
  c_x87 : list gem_u128;
  c_teb : Z;
  c_original_x64_sp : Z;
  c_transition_cookie : Z;
  c_isa : Z;
  c_stop_reason : Z }.

#[export] Instance gem_thread_context_eq_dec : EqDecision gem_thread_context.
Proof. solve_decision. Defined.

(** [context->x[i]]. *)
Definition xreg (c : gem_thread_context) (i : nat) : Z := c_x c !!! i.

(** The ranges the C types give every field. *)
Definition context_wf (c : gem_thread_context) : Prop :=
  is_u32 (c_layout_version c) /\ is_u32 (c_context_size c) /\
  length (c_x c) = 31%nat /\ Forall is_u64 (c_x c) /\
  is_u64 (c_sp c) /\ is_u64 (c_pc c) /\
  is_u32 (c_nzcv c) /\ is_u32 (c_fpcr c) /\ is_u32 (c_fpsr c) /\ is_u32 (c_reserved0 c) /\
  length (c_v c) = 16%nat /\ Forall is_u128 (c_v c) /\
  is_u64 (c_x64_rflags c) /\ is_u32 (c_x64_mxcsr c) /\
  is_u16 (c_x64_fcw c) /\ is_u16 (c_x64_fsw c) /\
  length (c_x87 c) = 8%nat /\ Forall is_u128 (c_x87 c) /\
  is_u64 (c_teb c) /\ is_u64 (c_original_x64_sp c) /\ is_u64 (c_transition_cookie c) /\
  is_u32 (c_isa c) /\ is_u32 (c_stop_reason c).

#[export] Instance context_wf_dec c : Decision (context_wf c).
Proof. unfold context_wf; apply _. Defined.

(** [memset(context, 0, sizeof( *context))] and the five stores that follow. *)
Definition gem_context_initialize (teb isa : Z) : gem_thread_context :=
  ThreadContext GEM_CONTEXT_LAYOUT_VERSION GEM_THREAD_CONTEXT_EXPECTED_SIZE
    (<[18%nat := teb]> (replicate 31 0)) 0 0 0 0 0 0 (replicate 16 u128_zero)
    0 0 0 0 (replicate 8 u128_zero) teb 0 0 (wrap32 isa) 0.

Definition gem_context_is_valid (context : option gem_thread_context) : bool :=
  match context with
  | None => false
  | Some c =>
    if negb (c_layout_version c =? GEM_CONTEXT_LAYOUT_VERSION)
       || negb (c_context_size c =? GEM_THREAD_CONTEXT_EXPECTED_SIZE)
       || (c_teb c =? 0) || negb (xreg c 18 =? c_teb c)
    then false
    else (c_isa c =? GEM_ISA_ARM64EC) || (c_isa c =? GEM_ISA_X64)
  end.

(** ** The PE32 context *)

Record gem_i386_context : Type := I386Context {
  i_layout_version : Z;
  i_context_size : Z;
  i_gpr : list Z;
  i_eip : Z;
  i_eflags : Z;
  i_segment : list Z;
  i_segment_base : list Z;
  i_segment_limit : list Z;
  i_segment_attributes : list Z;
  i_xmm : list gem_u128;
  i_x87 : list gem_u128;
  i_mxcsr : Z;
  i_fcw : Z;
  i_fsw : Z;
  i_ftw : Z;
  i_fop : Z;
  i_teb : Z;
  i_reserved0 : Z;
  i_transition_cookie : Z;
  i_stop_reason : Z;
  (** the union of [uint32_t reserved[5]] and [x87_environment], as its words *)
  i_union : list Z }.

#[export] Instance gem_i386_context_eq_dec : EqDecision gem_i386_context.
Proof. solve_decision. Defined.

(** The members of [struct gem_i386_x87_environment], read out of the union's
    little-endian words at the offsets the header asserts (428, 432, 436, 438
    and 440 of the structure). *)
Definition i386_x87_fip (c : gem_i386_context) : Z := i_union c !!! 0%nat.
Definition i386_x87_fdp (c : gem_i386_context) : Z := i_union c !!! 1%nat.
Definition i386_x87_fcs (c : gem_i386_context) : Z := wrap16 (i_union c !!! 2%nat).
Definition i386_x87_fds (c : gem_i386_context) : Z := wrap16 ((i_union c !!! 2%nat) >>. 16).
Definition i386_x87_reserved (c : gem_i386_context) : list Z :=
  [i_union c !!! 3%nat; i_union c !!! 4%nat].

Definition GEM_I386_CONTEXT_LAYOUT_VERSION_V1 : Z := 1.
Definition GEM_I386_CONTEXT_LAYOUT_VERSION_V2 : Z := 2.
Definition GEM_I386_CONTEXT_LAYOUT_VERSION : Z := GEM_I386_CONTEXT_LAYOUT_VERSION_V2.
Definition GEM_I386_CONTEXT_SIZE_V1 : Z := 448.
Definition GEM_I386_CONTEXT_SIZE_V2 : Z := 448.
Definition GEM_I386_EFLAGS_REQUIRED : Z := 2.

Definition gem_i386_context_initialize (teb : Z) : gem_i386_context :=
  I386Context GEM_I386_CONTEXT_LAYOUT_VERSION GEM_I386_CONTEXT_SIZE_V2
    (replicate 8 0) 0 GEM_I386_EFLAGS_REQUIRED (replicate 6 0) (replicate 6 0)
    (replicate 6 0) (replicate 6 0) (replicate 8 u128_zero) (replicate 8 u128_zero)
    0x1f80 0x037f 0 0 0 teb 0 0 0 (replicate 5 0).

Definition gem_i386_context_is_valid (context : option gem_i386_context) : bool :=
  match context with
  | None => false
  | Some c =>
    if (negb (i_layout_version c =? GEM_I386_CONTEXT_LAYOUT_VERSION_V1) &&
        negb (i_layout_version c =? GEM_I386_CONTEXT_LAYOUT_VERSION_V2))
       || negb (i_context_size c =? GEM_I386_CONTEXT_SIZE_V1) || (i_teb c =? 0)
       || negb (has_bits (i_eflags c) GEM_I386_EFLAGS_REQUIRED)
       || negb (i_reserved0 c =? 0)
    then false
    else if negb (forallb (fun w => w =? 0)
                    (if i_layout_version c =? GEM_I386_CONTEXT_LAYOUT_VERSION_V1
                     then i_union c else i386_x87_reserved c))
    then false
    else i_stop_reason c <=? stop_value GEM_STOP_INVARIANT_VIOLATION
  end.

(** ** Properties *)

Lemma gem_context_is_valid_spec c :
  gem_context_is_valid (Some c) = true <->
  c_layout_version c = 1 /\ c_context_size c = 720 /\ c_teb c <> 0 /\
  xreg c 18 = c_teb c /\ (c_isa c = GEM_ISA_ARM64EC \/ c_isa c = GEM_ISA_X64).
Proof.
  unfold gem_context_is_valid, GEM_CONTEXT_LAYOUT_VERSION, GEM_THREAD_CONTEXT_EXPECTED_SIZE,
    GEM_THREAD_CONTEXT_SIZE_V1.
  split.
  - intros H. case_match eqn:E; [done|]. bool_to_Z.
    apply orb_true_iff in H as [H|H]; bool_to_Z; auto 10.
  - intros (-> & -> & Ht & -> & Hi).
    rewrite !Z.eqb_refl, (proj2 (Z.eqb_neq _ _) Ht). cbn.
    apply orb_true_iff. destruct Hi as [-> | ->]; auto.
Qed.

Lemma gem_context_initialize_wf teb isa :
  is_u64 teb -> context_wf (gem_context_initialize teb isa).
Proof.
  intros Ht. unfold context_wf, gem_context_initialize; cbn.
  assert (is_u32 (wrap32 isa)) by (apply Z.mod_pos_bound; lia).
  assert (is_u64 0) by done. assert (is_u32 0) by done. assert (is_u16 0) by done.
  assert (is_u128 u128_zero) by done.
  split_and!; first [done | assumption | by repeat (constructor; auto)].
Qed.

(** Initialisation yields a valid context exactly for a non-zero TEB and one of
    the two instruction sets. *)
Lemma gem_context_initialize_valid teb isa :
  gem_context_is_valid (Some (gem_context_initialize teb isa)) = true <->
  teb <> 0 /\ (wrap32 isa = GEM_ISA_ARM64EC \/ wrap32 isa = GEM_ISA_X64).
Proof.
  rewrite gem_context_is_valid_spec. unfold gem_context_initialize, xreg; cbn. tauto.
Qed.

Lemma gem_i386_context_initialize_valid teb :
  gem_i386_context_is_valid (Some (gem_i386_context_initialize teb)) = true <-> teb <> 0.
Proof.
  unfold gem_i386_context_is_valid; cbn. destruct (Z.eqb_spec teb 0); cbn; naive_solver.
Qed.

Lemma gem_stop_reason_name_value r :
  gem_stop_reason_name (stop_value r) = stop_reason_names !!! Z.to_nat (stop_value r).
Proof. by destruct r. Qed.

#[export] Hint Resolve gem_context_initialize_wf : gem.
