(* ===== verification/Serialization.v ===== *)
(** Serialization: the portable wire format of the thread context
    (include/metalsharp/gem/context_serialization.h,
    src/gem/context_serialization.c).

    The write cursor [uint8_t **p] is the list of the bytes written so far, the
    read cursor [const uint8_t **p] the list of the bytes still ahead; a read
    past the end of the buffer is [None].  The buffer argument is the list of
    its bytes, so the size argument [n] is the length of that list. *)
From S2P Require Import Prelude Context.

(** ** Writers *)

(** The loop [for (i = 0; i < n; ++i) *( *p)++ = (uint8_t)(v >> (i * 8))]. *)
Definition put_loop (n : nat) (p : list Z) (v : Z) : list Z :=
  p ++ ((fun i => wrap8 (v >>. (Z.of_nat i * 8))) <$> seq 0 n).

Definition put16 (p : list Z) (v : Z) : list Z := (p ++ [wrap8 v]) ++ [wrap8 (v >>. 8)].
Definition put32 (p : list Z) (v : Z) : list Z := put_loop 4 p v.
Definition put64 (p : list Z) (v : Z) : list Z := put_loop 8 p v.
Definition put128 (p : list Z) (v : gem_u128) : list Z := put64 (put64 p (lo v)) (hi v).

Definition encode (p : list Z) (c : gem_thread_context) : list Z :=
  let p := put32 p (c_layout_version c) in
  let p := put32 p (c_context_size c) in
  let p := foldl put64 p (c_x c) in
  let p := put64 p (c_sp c) in
  let p := put64 p (c_pc c) in
  let p := put32 p (c_nzcv c) in
  let p := put32 p (c_fpcr c) in
  let p := put32 p (c_fpsr c) in
  let p := put32 p (c_reserved0 c) in
  let p := foldl put128 p (c_v c) in
  let p := put64 p (c_x64_rflags c) in
  let p := put32 p (c_x64_mxcsr c) in
  let p := put16 p (c_x64_fcw c) in
  let p := put16 p (c_x64_fsw c) in
  let p := foldl put128 p (c_x87 c) in
  let p := put64 p (c_teb c) in
  let p := put64 p (c_original_x64_sp c) in
  let p := put64 p (c_transition_cookie c) in
  let p := put32 p (c_isa c) in
  put32 p (c_stop_reason c).

(** ** Readers *)

Definition reader (A : Type) : Type := list Z -> option (A * list Z).
#[export] Instance reader_ret : MRet reader := fun A a p => Some (a, p).
#[export] Instance reader_bind : MBind reader := fun A B f r p =>
  match r p with Some (a, p') => f a p' | None => None end.

(** Read n bytes and advance the cursor. *)
Definition get_bytes (n : nat) : reader (list Z) := fun p =>
  if decide (n <= length p)%nat then Some (take n p, drop n p) else None.

(** The loop [for (i = 0; i < n; ++i) v |= (uintN_t)( *p)[i] << (i * 8)]. *)
Definition get_loop (n : nat) : reader Z :=
  bs ← get_bytes n;
  mret (foldl Z.lor 0 (imap (fun i b => b <<. (Z.of_nat i * 8)) bs)).

Definition get16 : reader Z :=
  bs ← get_bytes 2;
  mret (wrap16 (bs !!! 0%nat .| (bs !!! 1%nat <<. 8))).
Definition get32 : reader Z := get_loop 4.
Definition get64 : reader Z := get_loop 8.

(** [struct gem_u128 v = {get64(p), get64(p)}]: C leaves the order in which the
    two initializers are evaluated to the compiler. *)
Inductive eval_order : Type := LeftToRight | RightToLeft.

Definition get128 (o : eval_order) : reader gem_u128 :=
  match o with
  | LeftToRight => l ← get64; h ← get64; mret (U128 l h)
  | RightToLeft => h ← get64; l ← get64; mret (U128 l h)
  end.

(** [for (i = 0; i < n; ++i) a[i] = get(p)]. *)
Fixpoint get_array {A} (n : nat) (get : reader A) : reader (list A) :=
  match n with
  | O => mret []
  | S n => a ← get; l ← get_array n get; mret (a :: l)
  end.

Definition decode (o : eval_order) : reader gem_thread_context :=
  layout_version ← get32;
  context_size ← get32;
  x ← get_array 31 get64;
  sp ← get64;
  pc ← get64;
  nzcv ← get32;
  fpcr ← get32;
  fpsr ← get32;
  reserved0 ← get32;
  v ← get_array 16 (get128 o);
  rflags ← get64;
  mxcsr ← get32;
  fcw ← get16;
  fsw ← get16;
  x87 ← get_array 8 (get128 o);
  teb ← get64;
  original_x64_sp ← get64;
  transition_cookie ← get64;
  isa ← get32;
  stop_reason ← get32;
  mret (ThreadContext layout_version context_size x sp pc nzcv fpcr fpsr reserved0 v
          rflags mxcsr fcw fsw x87 teb original_x64_sp transition_cookie isa stop_reason).

(** ** The two entry points *)

Definition GEM_CONTEXT_WIRE_MAGIC : Z := 0x314d4547.
Definition GEM_CONTEXT_WIRE_HEADER_SIZE_V1 : Z := 20.
Definition GEM_CONTEXT_WIRE_SIZE_V1 : Z := 740.

Definition gem_context_serialized_size (version : Z) : Z :=
  if version =? GEM_CONTEXT_SERIALIZATION_VERSION then GEM_CONTEXT_WIRE_SIZE_V1 else 0.

(** The five header words both entry points handle in this order. *)
Definition wire_header : list Z :=
  [GEM_CONTEXT_WIRE_MAGIC; GEM_CONTEXT_SERIALIZATION_VERSION; GEM_CONTEXT_WIRE_HEADER_SIZE_V1;
   GEM_CONTEXT_LAYOUT_VERSION; GEM_THREAD_CONTEXT_SIZE_V1].

(** The guards shared by the two entry points after the NULL tests. *)
Definition serializable (c : option gem_thread_context) : bool :=
  match c with
  | Some d => gem_context_is_valid c && (c_reserved0 d =? 0) &&
              (c_stop_reason d <=? stop_value GEM_STOP_INVARIANT_VIOLATION)
  | None => false
  end.

(** Returned flag, the buffer afterwards, and [*written]. *)
Definition gem_context_serialize (c : option gem_thread_context) (b : option (list Z))
  : bool * option (list Z) * Z :=
  match c, b with
  | Some d, Some buf =>
    if negb (serializable c) || (Z.of_nat (length buf) <? GEM_CONTEXT_WIRE_SIZE_V1)
    then (false, b, 0)
    else
      let p := encode (foldl put32 [] wire_header) d in
      (true, Some (p ++ drop (length p) buf), Z.of_nat (length p))
  | _, _ => (false, b, 0)
  end.

(** [get32(&p) != a || get32(&p) != b || ...]: stop at the first mismatch. *)
Fixpoint expect32 (l : list Z) : reader bool :=
  match l with
  | [] => mret true
  | a :: l => w ← get32; if w =? a then expect32 l else mret false
  end.

(** Returned flag, [*c] afterwards and [*read]; [None] is a read outside [b]. *)
Definition gem_context_deserialize (o : eval_order) (c : option gem_thread_context)
    (b : option (list Z)) : option (bool * option gem_thread_context * Z) :=
  match c, b with
  | Some _, Some buf =>
    if negb (Z.of_nat (length buf) =? GEM_CONTEXT_WIRE_SIZE_V1) then Some (false, c, 0)
    else match expect32 wire_header buf with
    | None => None
    | Some (false, _) => Some (false, c, 0)
    | Some (true, p) =>
      match decode o p with
      | None => None
      | Some (temporary, p') =>
        if negb (serializable (Some temporary)) then Some (false, c, 0)
        else Some (true, Some temporary, Z.of_nat (length buf) - Z.of_nat (length p'))
      end
    end
  | _, _ => Some (false, c, 0)
  end.

(** ** Codecs: what a writer and a reader promise to each other *)

Class Codec {A : Type} (P : A -> Prop) (put : list Z -> A -> list Z) (get : reader A)
    (size : nat) : Prop := {
  codec_put p a : put p a = p ++ put [] a;
  codec_length a : P a -> length (put [] a) = size;
  codec_u8 a : P a -> Forall is_u8 (put [] a);
  codec_get a r : P a -> get (put [] a ++ r) = Some (a, r);
  codec_split bs : Forall is_u8 bs -> (size <= length bs)%nat ->
    exists a r, P a /\ bs = put [] a ++ r }.

Lemma codec_split_u8 {A} {P : A -> Prop} {put get size} `{!Codec P put get size} bs :
  Forall is_u8 bs -> (size <= length bs)%nat ->
  exists a r, P a /\ bs = put [] a ++ r /\ Forall is_u8 r /\ length bs = (size + length r)%nat.
Proof.
  intros Hu Hl. destruct (codec_split (get := get) bs Hu Hl) as (a & r & HP & ->).
  exists a, r. split_and!; auto.
  - by apply Forall_app in Hu as [_ ?].
  - by rewrite length_app, (codec_length (get := get) a HP).
Qed.

Lemma codec_foldl {A} {P : A -> Prop} {put get size} `{!Codec P put get size} l p :
  foldl put p l = p ++ foldl put [] l.
Proof.
  revert p; induction l as [|a l IH]; intros p; cbn; [by rewrite app_nil_r|].
  rewrite IH, (IH (put [] a)), (codec_put (get := get) p a). by rewrite app_assoc.
Qed.

Lemma reader_bind_eq {A B} (r : reader A) (f : A -> reader B) p a p' :
  r p = Some (a, p') -> (r ≫= f) p = f a p'.
Proof. unfold mbind, reader_bind. by intros ->. Qed.

#[export] Instance array_codec {A} {P : A -> Prop} {put get size} `{!Codec P put get size} n :
  Codec (fun l => length l = n /\ Forall P l) (foldl put) (get_array n get) (n * size).
Proof.
  split.
  - intros p l. apply (codec_foldl (get := get)).
  - intros l [<- Hl]. induction Hl as [|a l Ha _ IH]; cbn; [done|].
    rewrite (codec_foldl (get := get)), length_app, IH, (codec_length (get := get)); auto.
  - intros l [_ Hl]. induction Hl as [|a l Ha _ IH]; cbn; [done|].
    rewrite (codec_foldl (get := get)). apply Forall_app; split; [|done].
    by apply (codec_u8 (get := get)).
  - intros l r [<- Hl]. induction Hl as [|a l Ha _ IH]; [done|]. cbn [foldl get_array length].
    rewrite (codec_foldl (get := get)), <- app_assoc.
    erewrite reader_bind_eq by by apply codec_get.
    erewrite reader_bind_eq by exact IH. done.
  - induction n as [|n IH]; intros bs Hu Hl.
    + by exists [], bs.
    + destruct (codec_split_u8 (get := get) bs) as (a & r & Ha & -> & Hr & Hlen); [done|lia|].
      destruct (IH r Hr) as (l & r' & [Hn HP] & ->); [lia|].
      exists (a :: l), r'. split_and!; [by cbn; rewrite Hn|by constructor|].
      cbn. by rewrite (codec_foldl (get := get) l (put [] a)), <- app_assoc.
Qed.

(** ** The scalar codecs *)

Lemma seq_le_bytes n v k :
  ((fun i => wrap8 (v >>. (Z.of_nat i * 8))) <$> seq k n)
  = le_bytes n (v >>. (Z.of_nat k * 8)).
Proof.
  revert k; induction n as [|n IH]; intros k; cbn [seq le_bytes fmap list_fmap]; [done|].
  f_equal. rewrite IH. f_equal. rewrite Z.shiftr_shiftr by lia. f_equal. lia.
Qed.

Lemma put_loop_le n p v : put_loop n p v = p ++ le_bytes n v.
Proof. unfold put_loop. by rewrite seq_le_bytes, Z.shiftr_0_r. Qed.

Lemma put16_le p v : put16 p v = p ++ le_bytes 2 v.
Proof. unfold put16. by rewrite <- app_assoc. Qed.

Lemma get_bytes_app n bs r : length bs = n -> get_bytes n (bs ++ r) = Some (bs, r).
Proof.
  intros <-. unfold get_bytes. rewrite decide_True by (rewrite length_app; lia).
  by rewrite take_app_length, drop_app_length.
Qed.

Lemma foldl_lor_le bs acc k :
  Forall is_u8 bs -> 0 <= acc < 2 ^ (Z.of_nat k * 8) ->
  foldl Z.lor acc (imap (fun i b => b <<. (Z.of_nat (k + i) * 8)) bs)
  = acc + 2 ^ (Z.of_nat k * 8) * le_value bs.
Proof.
  intros Hu; revert acc k; induction Hu as [|b bs Hb _ IH]; intros acc k Hacc; cbn; [lia|].
  rewrite Nat.add_0_r, (lor_shift_add acc b) by lia.
  rewrite (imap_ext _ (fun i b => b <<. (Z.of_nat (S k + i) * 8)) bs)
    by (intros; cbn; do 3 f_equal; lia).
  unfold is_u8 in Hb.
  assert (2 ^ (Z.of_nat (S k) * 8) = 2 ^ (Z.of_nat k * 8) * 256) as Hpow.
  { replace (Z.of_nat (S k) * 8) with (Z.of_nat k * 8 + 8) by lia.
    by rewrite Z.pow_add_r by lia. }
  rewrite IH; rewrite Hpow; nia.
Qed.

Lemma get_loop_app n bs r :
  length bs = n -> Forall is_u8 bs -> get_loop n (bs ++ r) = Some (le_value bs, r).
Proof.
  intros Hl Hu. unfold get_loop. erewrite reader_bind_eq by by apply get_bytes_app.
  pose proof (foldl_lor_le bs 0 0 Hu) as H. cbn [Z.of_nat Z.mul Nat.add Z.pow] in H.
  unfold mret, reader_ret. rewrite H by lia. f_equal. f_equal. lia.
Qed.

Lemma get16_app bs r :
  length bs = 2%nat -> Forall is_u8 bs -> get16 (bs ++ r) = Some (le_value bs, r).
Proof.
  intros Hl Hu. unfold get16. erewrite reader_bind_eq by by apply get_bytes_app.
  destruct bs as [|a [|b [|]]]; try discriminate. apply Forall_cons in Hu as [Ha Hu].
  apply Forall_cons in Hu as [Hb _]. unfold mret, reader_ret, is_u8 in *. cbn -[Z.shiftl].
  rewrite lor_shift_add by lia. unfold wrap16. rewrite Z.mod_small by lia.
  do 2 f_equal. lia.
Qed.

Lemma scalar_codec n put (get : reader Z) :
  (forall p v, put p v = p ++ le_bytes n v) ->
  (forall bs r, length bs = n -> Forall is_u8 bs -> get (bs ++ r) = Some (le_value bs, r)) ->
  Codec (fun v => 0 <= v < 2 ^ (8 * Z.of_nat n)) put get n.
Proof.
  intros Hput Hget. split.
  - intros p a. by rewrite !Hput.
  - intros a _. by rewrite Hput, app_nil_l, length_le_bytes.
  - intros a _. rewrite Hput. apply le_bytes_u8.
  - intros a r Ha. rewrite Hput, app_nil_l, Hget, le_value_bytes, Z.mod_small;
      auto using length_le_bytes, le_bytes_u8.
  - intros bs Hu Hl. exists (le_value (take n bs)), (drop n bs).
    assert (length (take n bs) = n) as Hn by (rewrite length_take; lia).
    assert (Forall is_u8 (take n bs)) as Hu' by by apply Forall_take.
    pose proof (le_value_bound _ Hu') as Hb. rewrite Hn in Hb. split; [done|].
    rewrite Hput, app_nil_l. pose proof (le_bytes_value _ Hu') as Hle.
    rewrite Hn in Hle. by rewrite Hle, take_drop.
Qed.

#[export] Instance put16_codec : Codec is_u16 put16 get16 2.
Proof. exact (scalar_codec 2 put16 get16 put16_le get16_app). Qed.
#[export] Instance put32_codec : Codec is_u32 put32 get32 4.
Proof. exact (scalar_codec 4 put32 get32 (put_loop_le 4) (get_loop_app 4)). Qed.
#[export] Instance put64_codec : Codec is_u64 put64 get64 8.
Proof. exact (scalar_codec 8 put64 get64 (put_loop_le 8) (get_loop_app 8)). Qed.

#[export] Instance put128_codec : Codec is_u128 put128 (get128 LeftToRight) 16.
Proof.
  unfold put128; split.
  - intros p [l h]; cbn [lo hi].
    rewrite (codec_put (get := get64) (put64 p l) h), (codec_put (get := get64) (put64 [] l) h).
    by rewrite (codec_put (get := get64) p l), <- app_assoc.
  - intros [l h] [Hl Hh]; cbn [lo hi] in *.
    rewrite (codec_put (get := get64) (put64 [] l) h), length_app.
    by rewrite (codec_length (get := get64) l Hl), (codec_length (get := get64) h Hh).
  - intros [l h] [Hl Hh]; cbn [lo hi] in *.
    rewrite (codec_put (get := get64) (put64 [] l) h).
    apply Forall_app; split; by apply (codec_u8 (get := get64)).
  - intros [l h] r [Hl Hh]; cbn [lo hi] in *.
    rewrite (codec_put (get := get64) (put64 [] l) h), <- app_assoc. unfold get128.
    erewrite reader_bind_eq by by apply codec_get.
    by erewrite reader_bind_eq by by apply codec_get.
  - intros bs Hu Hlen.
    destruct (codec_split_u8 (get := get64) bs) as (l & r & Hl & -> & Hr & Hlr); [done|lia|].
    destruct (codec_split_u8 (get := get64) r) as (h & r' & Hh & -> & _ & _); [done|lia|].
    exists (U128 l h), r'. split; [done|]. cbn [lo hi].
    by rewrite (codec_put (get := get64) (put64 [] l) h), <- app_assoc.
Qed.

(** ** The codec of the whole context *)

(** The wire image of the context: its fields in order. *)
Definition context_bytes (c : gem_thread_context) : list Z :=
  put32 [] (c_layout_version c) ++ put32 [] (c_context_size c) ++ foldl put64 [] (c_x c) ++
  put64 [] (c_sp c) ++ put64 [] (c_pc c) ++ put32 [] (c_nzcv c) ++ put32 [] (c_fpcr c) ++
  put32 [] (c_fpsr c) ++ put32 [] (c_reserved0 c) ++ foldl put128 [] (c_v c) ++
  put64 [] (c_x64_rflags c) ++ put32 [] (c_x64_mxcsr c) ++ put16 [] (c_x64_fcw c) ++
  put16 [] (c_x64_fsw c) ++ foldl put128 [] (c_x87 c) ++ put64 [] (c_teb c) ++
  put64 [] (c_original_x64_sp c) ++ put64 [] (c_transition_cookie c) ++
  put32 [] (c_isa c) ++ put32 [] (c_stop_reason c).

Lemma encode_bytes p c : encode p c = p ++ context_bytes c.
Proof.
  unfold encode.
  rewrite (codec_put _ (c_stop_reason c)), (codec_put _ (c_isa c)),
    (codec_put _ (c_transition_cookie c)), (codec_put _ (c_original_x64_sp c)),
    (codec_put _ (c_teb c)), (codec_foldl (put := put128) (c_x87 c)),
    (codec_put _ (c_x64_fsw c)), (codec_put _ (c_x64_fcw c)), (codec_put _ (c_x64_mxcsr c)),
    (codec_put _ (c_x64_rflags c)), (codec_foldl (put := put128) (c_v c)),
    (codec_put _ (c_reserved0 c)), (codec_put _ (c_fpsr c)), (codec_put _ (c_fpcr c)),
    (codec_put _ (c_nzcv c)), (codec_put _ (c_pc c)), (codec_put _ (c_sp c)),
    (codec_foldl (put := put64) (c_x c)), (codec_put _ (c_context_size c)),
    (codec_put p (c_layout_version c)).
  unfold context_bytes. by rewrite <- !app_assoc.
Qed.

Lemma decode_bytes c r :
  context_wf c -> decode LeftToRight (context_bytes c ++ r) = Some (c, r).
Proof.
  unfold context_wf, context_bytes, decode. intros H; destruct_and! H.
  rewrite <- !app_assoc.
  do 20 (erewrite reader_bind_eq by (apply codec_get; auto)).
  by destruct c.
Qed.

Lemma length_context_bytes c : context_wf c -> length (context_bytes c) = 720%nat.
Proof.
  unfold context_wf, context_bytes. intros H; destruct_and! H. rewrite !length_app.
  repeat (erewrite (@codec_length _ _ _ _ _ put32_codec) by auto).
  repeat (erewrite (@codec_length _ _ _ _ _ put64_codec) by auto).
  repeat (erewrite (@codec_length _ _ _ _ _ put16_codec) by auto).
  rewrite (codec_length (get := get_array 31 get64)) by auto.
  rewrite (codec_length (get := get_array 16 (get128 LeftToRight))) by auto.
  by rewrite (codec_length (get := get_array 8 (get128 LeftToRight))) by auto.
Qed.

(** Peel one codec's bytes off the front of [bs]. *)
Ltac split_codec get bs x r :=
  let H := fresh "Hwf" in let E := fresh in let Hu := fresh "Hu" in let Hl := fresh "Hl" in
  destruct (codec_split_u8 (get := get) bs) as (x & r & H & E & Hu & Hl);
    [assumption|lia|]; rewrite E in *; clear E bs.

Lemma context_bytes_split bs :
  Forall is_u8 bs -> (720 <= length bs)%nat ->
  exists c r, context_wf c /\ bs = context_bytes c ++ r /\ length bs = (720 + length r)%nat.
Proof.
  intros Hbs Hlen. pose proof Hlen as Hlen0.
  remember (length bs) as n eqn:Hn.
  assert (exists c r, context_wf c /\ bs = context_bytes c ++ r) as (c & r & Hc & Hbs').
  { subst n; clear Hlen0.
    split_codec get32 bs x1 r1. split_codec get32 r1 x2 r2.
    split_codec (get_array 31 get64) r2 x3 r3.
    split_codec get64 r3 x4 r4. split_codec get64 r4 x5 r5.
    split_codec get32 r5 x6 r6. split_codec get32 r6 x7 r7.
    split_codec get32 r7 x8 r8. split_codec get32 r8 x9 r9.
    split_codec (get_array 16 (get128 LeftToRight)) r9 x10 r10.
    split_codec get64 r10 x11 r11. split_codec get32 r11 x12 r12.
    split_codec get16 r12 x13 r13. split_codec get16 r13 x14 r14.
    split_codec (get_array 8 (get128 LeftToRight)) r14 x15 r15.
    split_codec get64 r15 x16 r16. split_codec get64 r16 x17 r17.
    split_codec get64 r17 x18 r18. split_codec get32 r18 x19 r19.
    split_codec get32 r19 x20 r20.
    exists (ThreadContext x1 x2 x3 x4 x5 x6 x7 x8 x9 x10 x11 x12 x13 x14 x15 x16 x17 x18 x19 x20), r20.
    destruct_and!; split; [unfold context_wf; cbn; split_and!; assumption|].
    unfold context_bytes. rewrite <- !app_assoc. reflexivity. }
  exists c, r. split_and!; [done|done|]. rewrite Hn, Hbs', length_app.
  by rewrite length_context_bytes.
Qed.

(** ** The header check *)

Lemma expect32_app l r :
  Forall is_u32 l -> expect32 l (foldl put32 [] l ++ r) = Some (true, r).
Proof.
  induction 1 as [|a l Ha _ IH]; [done|]. cbn [foldl expect32].
  rewrite (codec_foldl (get := get32)), <- app_assoc.
  erewrite reader_bind_eq by by apply codec_get. by rewrite Z.eqb_refl.
Qed.

Lemma expect32_inv l bs :
  Forall is_u8 bs -> (4 * length l <= length bs)%nat ->
  exists ok r, expect32 l bs = Some (ok, r) /\
    (ok = true -> bs = foldl put32 [] l ++ r).
Proof.
  revert bs; induction l as [|a l IH]; intros bs Hu Hl; [by exists true, bs|].
  cbn [length] in Hl.
  destruct (codec_split_u8 (get := get32) bs) as (w & r & Hw & -> & Hr & Hlr); [done|lia|].
  cbn [expect32]. erewrite reader_bind_eq by by apply codec_get.
  destruct (Z.eqb_spec w a) as [->|]; [|by exists false, r].
  destruct (IH r Hr) as (ok & r' & -> & Hok); [lia|]. exists ok, r'. split; [done|].
  intros H. rewrite (Hok H) at 1. cbn [foldl].
  by rewrite (codec_foldl (get := get32) l (put32 [] a)), <- app_assoc.
Qed.

Lemma wire_header_u32 : Forall is_u32 wire_header.
Proof. by apply (bool_decide_unpack _); vm_compute. Qed.

Lemma length_wire_header : length (foldl put32 [] wire_header) = 20%nat.
Proof. by vm_compute. Qed.

(** ** The other evaluation order *)

Definition swap_u128 (v : gem_u128) : gem_u128 := U128 (hi v) (lo v).

(** The context with the two halves of every 128-bit register exchanged. *)
Definition swap_context (c : gem_thread_context) : gem_thread_context :=
  ThreadContext (c_layout_version c) (c_context_size c) (c_x c) (c_sp c) (c_pc c)
    (c_nzcv c) (c_fpcr c) (c_fpsr c) (c_reserved0 c) (swap_u128 <$> c_v c)
    (c_x64_rflags c) (c_x64_mxcsr c) (c_x64_fcw c) (c_x64_fsw c) (swap_u128 <$> c_x87 c)
    (c_teb c) (c_original_x64_sp c) (c_transition_cookie c) (c_isa c) (c_stop_reason c).

Definition order_context (o : eval_order) (c : gem_thread_context) : gem_thread_context :=
  match o with LeftToRight => c | RightToLeft => swap_context c end.

Definition order_u128 (o : eval_order) (v : gem_u128) : gem_u128 :=
  match o with LeftToRight => v | RightToLeft => swap_u128 v end.

Lemma get128_order o v r :
  is_u128 v -> get128 o (put128 [] v ++ r) = Some (order_u128 o v, r).
Proof.
  intros Hv. destruct o; [by apply codec_get|]. destruct v as [l h], Hv as [Hl Hh].
  unfold put128; cbn [lo hi] in *.
  rewrite (codec_put (get := get64) (put64 [] l) h), <- app_assoc. unfold get128.
  erewrite reader_bind_eq by by apply codec_get.
  by erewrite reader_bind_eq by by apply codec_get.
Qed.

Lemma get128_array_order o n l r :
  length l = n -> Forall is_u128 l ->
  get_array n (get128 o) (foldl put128 [] l ++ r) = Some (order_u128 o <$> l, r).
Proof.
  intros <- Hl. induction Hl as [|v l Hv _ IH]; [done|]. cbn [foldl get_array length].
  rewrite (codec_foldl (put := put128)), <- app_assoc.
  erewrite reader_bind_eq by by apply get128_order.
  by erewrite reader_bind_eq by exact IH.
Qed.

Lemma decode_bytes_order o c r :
  context_wf c -> decode o (context_bytes c ++ r) = Some (order_context o c, r).
Proof.
  unfold context_wf, context_bytes, decode. intros H; destruct_and! H.
  rewrite <- !app_assoc.
  do 20 (erewrite reader_bind_eq by
    first [apply codec_get; by auto | apply get128_array_order; by auto]).
  destruct o; cbn; [|done]. rewrite !list_fmap_id. by destruct c.
Qed.

Lemma serializable_swap c : serializable (Some (swap_context c)) = serializable (Some c).
Proof. done. Qed.

Lemma order_context_involutive o c : order_context o (order_context o c) = c.
Proof.
  destruct o; [done|]. destruct c; cbn. unfold swap_context; cbn. f_equal;
    rewrite <- list_fmap_compose; (etransitivity; [|apply list_fmap_id]);
    apply list_fmap_ext; by intros ? [] ?.
Qed.

(** ** What the two entry points compute *)

Lemma gem_context_serialize_ok c buf :
  serializable (Some c) = true -> context_wf c -> (740 <= length buf)%nat ->
  gem_context_serialize (Some c) (Some buf) =
    (true, Some ((foldl put32 [] wire_header ++ context_bytes c) ++ drop 740 buf), 740).
Proof.
  intros Hs Hwf Hl. unfold gem_context_serialize. rewrite Hs.
  rewrite (proj2 (Z.ltb_ge _ _)) by (unfold GEM_CONTEXT_WIRE_SIZE_V1; lia).
  cbn [negb orb]. rewrite encode_bytes.
  rewrite length_app, length_wire_header, length_context_bytes by done. done.
Qed.

Lemma gem_context_deserialize_image o c0 c :
  context_wf c ->
  gem_context_deserialize o (Some c0) (Some (foldl put32 [] wire_header ++ context_bytes c)) =
    if serializable (Some c) then Some (true, Some (order_context o c), 740)
    else Some (false, Some c0, 0).
Proof.
  intros Hwf. unfold gem_context_deserialize.
  rewrite length_app, length_wire_header, length_context_bytes by done.
  rewrite (expect32_app wire_header (context_bytes c) wire_header_u32).
  rewrite <- (app_nil_r (context_bytes c)), (decode_bytes_order o c []) by done.
  destruct o; cbn [order_context]; rewrite ?serializable_swap;
    by destruct (serializable (Some c)).
Qed.

(** Either the header is refused or the buffer is the image of a context. *)
Lemma gem_context_deserialize_cases o c0 buf :
  Forall is_u8 buf -> length buf = 740%nat ->
  gem_context_deserialize o (Some c0) (Some buf) = Some (false, Some c0, 0) \/
  exists c, context_wf c /\ buf = foldl put32 [] wire_header ++ context_bytes c.
Proof.
  intros Hu Hl.
  destruct (expect32_inv wire_header buf Hu) as (ok & r & Hok & Hbuf); [cbn; lia|].
  destruct ok.
  - specialize (Hbuf eq_refl). subst buf. right. apply Forall_app in Hu as [_ Hu].
    rewrite length_app, length_wire_header in Hl.
    destruct (context_bytes_split r Hu) as (c & r' & Hc & -> & Hr); [lia|].
    destruct r'; [|cbn [length] in Hr; lia]. exists c. by rewrite app_nil_r.
  - left. unfold gem_context_deserialize. rewrite Hl, Hok. done.
Qed.

(** ** Properties *)


Definition witness_context : gem_thread_context :=
  let c := gem_context_initialize 0x7ffd0000 GEM_ISA_X64 in
  ThreadContext (c_layout_version c) (c_context_size c) (c_x c) (c_sp c) 0x140001000
    (c_nzcv c) (c_fpcr c) (c_fpsr c) 0 (<[0%nat := U128 1 2]> (c_v c))
    (c_x64_rflags c) 0x1f80 0x37f 0 (c_x87 c) (c_teb c) 0 0 (c_isa c) 3.




(** Deserializing never reads outside its buffer, whatever the bytes and
    the evaluation order, and a refused buffer leaves the caller's context
    untouched with [*read] = 0. *)
Theorem deserialize_safe o c b :
  (forall buf, b = Some buf -> Forall is_u8 buf) ->
  exists ok c' n, gem_context_deserialize o c b = Some (ok, c', n) /\
    (ok = false -> c' = c /\ n = 0).
Proof.
  intros Hb. destruct c as [c|]; [|by exists false, None, 0].
  destruct b as [buf|]; [|by exists false, (Some c), 0].
  specialize (Hb buf eq_refl). destruct (decide (length buf = 740%nat)) as [Hl|Hl].
  - destruct (gem_context_deserialize_cases o c buf Hb Hl) as [E|(d & Hd & ->)].
    + rewrite E. by exists false, (Some c), 0.
    + rewrite gem_context_deserialize_image by done.
      destruct (serializable (Some d)); eauto 10. by eexists true, _, _.
  - unfold gem_context_deserialize, GEM_CONTEXT_WIRE_SIZE_V1.
    rewrite (proj2 (Z.eqb_neq _ _)) by lia. by exists false, (Some c), 0.
Qed.

Lemma deserialize_safe_witness :
  exists ok c' n,
    gem_context_deserialize RightToLeft (Some witness_context) (Some (replicate 740 0))
      = Some (ok, c', n) /\
    (ok = false -> c' = Some witness_context /\ n = 0).
Proof.
  apply (deserialize_safe RightToLeft (Some witness_context) (Some (replicate 740 0))).
  intros buf [= <-]. apply (bool_decide_unpack _); vm_compute; exact I.
Defined.

(** [get128] depends on the order in which the compiler evaluates the two
    initializers [{get64(p), get64(p)}], which C leaves open: with the right one
    first the round trip exchanges the halves of every vector and x87 register,
    so it loses any context in which the two halves of one differ. *)
Theorem deserialize_right_to_left c c0 buf :
  serializable (Some c) = true -> context_wf c -> length buf = 740%nat ->
  exists image,
    gem_context_serialize (Some c) (Some buf) = (true, Some image, 740) /\
    gem_context_deserialize RightToLeft (Some c0) (Some image)
      = Some (true, Some (swap_context c), 740).
Proof.
  intros Hs Hwf Hl. eexists. split; [apply gem_context_serialize_ok; auto; lia|].
  rewrite drop_ge, app_nil_r by lia.
  rewrite gem_context_deserialize_image by done. by rewrite Hs.
Qed.

Lemma deserialize_right_to_left_witness :
  swap_context witness_context <> witness_context /\
  exists image,
    gem_context_serialize (Some witness_context) (Some (replicate 740 0))
      = (true, Some image, 740) /\
    gem_context_deserialize RightToLeft (Some witness_context) (Some image)
      = Some (true, Some (swap_context witness_context), 740).
Proof.
  split; [vm_compute; discriminate|].
  apply (deserialize_right_to_left witness_context witness_context (replicate 740 0)).
  - vm_compute; reflexivity.
  - apply (bool_decide_unpack _); vm_compute; exact I.
  - apply length_replicate.
Defined.
