(* ===== verification/Conversion.v ===== *)
(** Conversion: the x64 view of a thread context
    (include/metalsharp/gem/context_conversion.h,
    src/gem/context_conversion.c).

    Flags and floating-point control words are translated bit by bit; the
    register files are copied in the order of [enum gem_x64_gpr].  An output
    pointer that may be NULL is an option; a function that writes through a
    pointer returns the value left there. *)
From S2P Require Import Prelude Context.

(** ** Flags *)

Definition RFLAGS_NZCV_MASK : Z := 0x8c1.
Definition NZCV_MASK : Z := 0xf0000000.
Definition FPCR_MXCSR_MASK : Z :=
  (((0x1f <<. 8) .| (1 <<. 15)) .| (3 <<. 22)) .| (1 <<. 24).
Definition FPSR_MXCSR_MASK : Z := 0x9f.

Inductive gem_arithmetic_mode : Type :=
  | GEM_ARITHMETIC_LOGICAL
  | GEM_ARITHMETIC_ADD
  | GEM_ARITHMETIC_SUBTRACT.

#[export] Instance gem_arithmetic_mode_eq_dec : EqDecision gem_arithmetic_mode.
Proof. solve_decision. Defined.

(** [if (b) result |= 1 << n;] *)
Definition set_if (b : bool) (n : Z) (result : Z) : Z :=
  if b then result .| (1 <<. n) else result.

Definition gem_rflags_from_nzcv_for_arithmetic (nzcv preserved_rflags : Z)
    (mode : gem_arithmetic_mode) : Z :=
  let result := preserved_rflags .&~ RFLAGS_NZCV_MASK in
  let result := set_if (xorb (has_bits nzcv (1 <<. 29))
                             (bool_decide (mode = GEM_ARITHMETIC_SUBTRACT))) 0 result in
  let result := set_if (has_bits nzcv (1 <<. 30)) 6 result in
  let result := set_if (has_bits nzcv (1 <<. 31)) 7 result in
  set_if (has_bits nzcv (1 <<. 28)) 11 result.

Definition gem_rflags_from_nzcv (nzcv preserved_rflags : Z) : Z :=
  gem_rflags_from_nzcv_for_arithmetic nzcv preserved_rflags GEM_ARITHMETIC_LOGICAL.

Definition gem_nzcv_from_rflags_for_arithmetic (rflags preserved_nzcv : Z)
    (mode : gem_arithmetic_mode) : Z :=
  let result := preserved_nzcv .&~ NZCV_MASK in
  let result := set_if (xorb (has_bits rflags (1 <<. 0))
                             (bool_decide (mode = GEM_ARITHMETIC_SUBTRACT))) 29 result in
  let result := set_if (has_bits rflags (1 <<. 6)) 30 result in
  let result := set_if (has_bits rflags (1 <<. 7)) 31 result in
  set_if (has_bits rflags (1 <<. 11)) 28 result.

Definition gem_nzcv_from_rflags (rflags preserved_nzcv : Z) : Z :=
  gem_nzcv_from_rflags_for_arithmetic rflags preserved_nzcv GEM_ARITHMETIC_LOGICAL.

(** ** Floating-point control and status *)

Definition arm_status : list Z := [0; 7; 1; 2; 3; 4].
Definition x86_status : list Z := [0; 1; 2; 3; 4; 5].

(** [i == 1 ? 15 : 8 + (i > 1 ? i - 1 : i)] *)
Definition arm_enable (i : Z) : Z :=
  if i =? 1 then 15 else 8 + (if 1 <? i then i - 1 else i).

Definition swap_round (r : Z) : Z := if r =? 1 then 2 else if r =? 2 then 1 else r.

Definition gem_mxcsr_from_fp (fpcr fpsr : Z) : Z :=
  let result := foldl (fun result i =>
      set_if (has_bits fpsr (1 <<. (arm_status !!! i))) (x86_status !!! i) result)
    0 (seq 0 6) in
  let result := foldl (fun result i =>
      set_if (negb (has_bits fpcr (1 <<. arm_enable (Z.of_nat i)))) (7 + Z.of_nat i) result)
    result (seq 0 6) in
  let arm_round := (fpcr >>. 22) .& 3 in
  let x86_round := swap_round arm_round in
  let result := result .| (x86_round <<. 13) in
  result .| (((fpcr >>. 24) .& 1) <<. 15).

(** [Some (fpcr, fpsr)] when the function returns true. *)
Definition gem_fp_from_mxcsr_checked (mxcsr : Z) : option (Z * Z) :=
  if has_bits mxcsr (1 <<. 6) then None
  else
    let '(control, status) := foldl (fun '(control, status) i =>
        (set_if (negb (has_bits mxcsr (1 <<. (7 + Z.of_nat i)))) (arm_enable (Z.of_nat i)) control,
         set_if (has_bits mxcsr (1 <<. (x86_status !!! i))) (arm_status !!! i) status))
      (0, 0) (seq 0 6) in
    let x86_round := (mxcsr >>. 13) .& 3 in
    let arm_round := swap_round x86_round in
    let control := control .| (arm_round <<. 22) in
    let control := control .| (((mxcsr >>. 15) .& 1) <<. 24) in
    Some (control, status).

(** [*fpcr] and [*fpsr] afterwards, given their values before. *)
Definition gem_fp_from_mxcsr (mxcsr : Z) (before : Z * Z) : Z * Z :=
  match gem_fp_from_mxcsr_checked mxcsr with Some r => r | None => before end.

(** ** The x64 view *)

Record gem_x64_context : Type := X64Context {
  x_gpr : list Z;
  x_rip : Z;
  x_rflags : Z;
  x_mxcsr : Z;
  x_fcw : Z;
  x_fsw : Z;
  x_xmm : list gem_u128;
  x_x87 : list gem_u128;
  x_teb : Z }.

#[export] Instance gem_x64_context_eq_dec : EqDecision gem_x64_context.
Proof. solve_decision. Defined.

Definition GEM_X64_RAX : nat := 0.
Definition GEM_X64_RCX : nat := 1.
Definition GEM_X64_RDX : nat := 2.
Definition GEM_X64_RBX : nat := 3.
Definition GEM_X64_RSP : nat := 4.
Definition GEM_X64_RBP : nat := 5.
Definition GEM_X64_RSI : nat := 6.
Definition GEM_X64_RDI : nat := 7.
Definition GEM_X64_R8 : nat := 8.
Definition GEM_X64_R9 : nat := 9.
Definition GEM_X64_R10 : nat := 10.
Definition GEM_X64_R11 : nat := 11.
Definition GEM_X64_R12 : nat := 12.
Definition GEM_X64_R13 : nat := 13.
Definition GEM_X64_R14 : nat := 14.
Definition GEM_X64_R15 : nat := 15.
Definition GEM_X64_GPR_COUNT : nat := 16.

Definition x64_wf (s : gem_x64_context) : Prop :=
  length (x_gpr s) = GEM_X64_GPR_COUNT /\ Forall is_u64 (x_gpr s) /\
  is_u64 (x_rip s) /\ is_u64 (x_rflags s) /\ is_u32 (x_mxcsr s) /\
  is_u16 (x_fcw s) /\ is_u16 (x_fsw s) /\
  length (x_xmm s) = 16%nat /\ Forall is_u128 (x_xmm s) /\
  length (x_x87 s) = 8%nat /\ Forall is_u128 (x_x87 s) /\ is_u64 (x_teb s).

#[export] Instance x64_wf_dec s : Decision (x64_wf s).
Proof. unfold x64_wf, GEM_X64_GPR_COUNT; apply _. Defined.

(** The sixteen stores to [destination->gpr], over the zeroed array. *)
Definition gpr_from_context (c : gem_thread_context) : list Z :=
  let gpr := replicate GEM_X64_GPR_COUNT 0 in
  let gpr := <[GEM_X64_RAX := xreg c 8]> gpr in
  let gpr := <[GEM_X64_RCX := xreg c 0]> gpr in
  let gpr := <[GEM_X64_RDX := xreg c 1]> gpr in
  let gpr := <[GEM_X64_RBX := xreg c 27]> gpr in
  let gpr := <[GEM_X64_RSP := c_sp c]> gpr in
  let gpr := <[GEM_X64_RBP := xreg c 29]> gpr in
  let gpr := <[GEM_X64_RSI := xreg c 25]> gpr in
  let gpr := <[GEM_X64_RDI := xreg c 26]> gpr in
  let gpr := <[GEM_X64_R8 := xreg c 2]> gpr in
  let gpr := <[GEM_X64_R9 := xreg c 3]> gpr in
  let gpr := <[GEM_X64_R10 := xreg c 4]> gpr in
  let gpr := <[GEM_X64_R11 := xreg c 5]> gpr in
  let gpr := <[GEM_X64_R12 := xreg c 19]> gpr in
  let gpr := <[GEM_X64_R13 := xreg c 20]> gpr in
  let gpr := <[GEM_X64_R14 := xreg c 21]> gpr in
  <[GEM_X64_R15 := xreg c 22]> gpr.

(** The fifteen stores to [x] that the x64 registers determine, and the store
    of the TEB to [x[18]]. *)
Definition x_from_gpr (gpr : list Z) (teb : Z) (x : list Z) : list Z :=
  let x := <[8%nat := gpr !!! GEM_X64_RAX]> x in
  let x := <[0%nat := gpr !!! GEM_X64_RCX]> x in
  let x := <[1%nat := gpr !!! GEM_X64_RDX]> x in
  let x := <[27%nat := gpr !!! GEM_X64_RBX]> x in
  let x := <[29%nat := gpr !!! GEM_X64_RBP]> x in
  let x := <[25%nat := gpr !!! GEM_X64_RSI]> x in
  let x := <[26%nat := gpr !!! GEM_X64_RDI]> x in
  let x := <[2%nat := gpr !!! GEM_X64_R8]> x in
  let x := <[3%nat := gpr !!! GEM_X64_R9]> x in
  let x := <[4%nat := gpr !!! GEM_X64_R10]> x in
  let x := <[5%nat := gpr !!! GEM_X64_R11]> x in
  let x := <[19%nat := gpr !!! GEM_X64_R12]> x in
  let x := <[20%nat := gpr !!! GEM_X64_R13]> x in
  let x := <[21%nat := gpr !!! GEM_X64_R14]> x in
  let x := <[22%nat := gpr !!! GEM_X64_R15]> x in
  <[18%nat := teb]> x.

(** [has_destination] says that the output pointer is not NULL; [None] is the
    answer false, which leaves the output untouched. *)
Definition gem_context_x64_materialize (source : option gem_thread_context)
    (has_destination : bool) : option gem_x64_context :=
  match source with
  | None => None
  | Some c =>
    if negb (gem_context_is_valid source) || negb (c_isa c =? GEM_ISA_X64)
       || negb has_destination
    then None
    else Some (X64Context (gpr_from_context c) (c_pc c) (c_x64_rflags c) (c_x64_mxcsr c)
                 (c_x64_fcw c) (c_x64_fsw c) (c_v c) (c_x87 c) (c_teb c))
  end.

(** The local [result] of [gem_context_x64_commit]. *)
Definition x64_commit_result (s : gem_x64_context) (d : gem_thread_context)
  : gem_thread_context :=
  ThreadContext (c_layout_version d) (c_context_size d)
    (x_from_gpr (x_gpr s) (c_teb d) (c_x d)) (x_gpr s !!! GEM_X64_RSP) (x_rip s)
    (c_nzcv d) (c_fpcr d) (c_fpsr d) (c_reserved0 d) (x_xmm s)
    (x_rflags s) (x_mxcsr s) (x_fcw s) (x_fsw s) (x_x87 s) (c_teb d)
    (c_original_x64_sp d) (c_transition_cookie d) (c_isa d) (c_stop_reason d).

Definition gem_context_x64_commit (source : option gem_x64_context)
    (destination : option gem_thread_context) : bool * option gem_thread_context :=
  match source, destination with
  | Some s, Some d =>
    if negb (gem_context_is_valid destination) || negb (c_isa d =? GEM_ISA_X64)
       || negb (x_teb s =? c_teb d)
    then (false, destination)
    else
      let result := x64_commit_result s d in
      if negb (gem_context_is_valid (Some result)) then (false, destination)
      else (true, Some result)
  | _, _ => (false, destination)
  end.

Definition gem_context_arm64ec_to_x64 (source : option gem_thread_context)
    (has_destination : bool) : option gem_x64_context :=
  match source with
  | None => None
  | Some c =>
    if negb (gem_context_is_valid source) || negb (c_isa c =? GEM_ISA_ARM64EC)
       || negb has_destination
    then None
    else Some (X64Context (gpr_from_context c) (c_pc c)
                 (gem_rflags_from_nzcv (c_nzcv c) (c_x64_rflags c))
                 (gem_mxcsr_from_fp (c_fpcr c) (c_fpsr c))
                 (c_x64_fcw c) (c_x64_fsw c) (c_v c) (c_x87 c) (c_teb c))
  end.

(** The stores of [gem_context_x64_to_arm64ec] into an accepted destination. *)
Definition x64_to_arm64ec_result (s : gem_x64_context) (d : gem_thread_context)
  : gem_thread_context :=
  let '(converted_fpcr, converted_fpsr) := gem_fp_from_mxcsr (x_mxcsr s) (0, 0) in
  ThreadContext (c_layout_version d) (c_context_size d)
    (x_from_gpr (x_gpr s) (c_teb d) (c_x d)) (x_gpr s !!! GEM_X64_RSP) (x_rip s)
    (gem_nzcv_from_rflags (x_rflags s) (c_nzcv d))
    ((c_fpcr d .&~ FPCR_MXCSR_MASK) .| converted_fpcr)
    ((c_fpsr d .&~ FPSR_MXCSR_MASK) .| converted_fpsr)
    (c_reserved0 d) (x_xmm s) (x_rflags s) (x_mxcsr s) (x_fcw s) (x_fsw s) (x_x87 s)
    (c_teb d) (c_original_x64_sp d) (c_transition_cookie d) GEM_ISA_ARM64EC (c_stop_reason d).

Definition gem_context_x64_to_arm64ec (source : option gem_x64_context)
    (destination : option gem_thread_context) : bool * option gem_thread_context :=
  match source, destination with
  | Some s, Some d0 =>
    if (x_teb s =? 0) || negb (bool_decide (is_Some (gem_fp_from_mxcsr_checked (x_mxcsr s))))
    then (false, destination)
    else if gem_context_is_valid destination && negb (c_isa d0 =? GEM_ISA_ARM64EC)
    then (false, destination)
    else
      let d := if negb (gem_context_is_valid destination)
               then gem_context_initialize (x_teb s) GEM_ISA_ARM64EC else d0 in
      if negb (c_teb d =? x_teb s) then (false, Some d)
      else (true, Some (x64_to_arm64ec_result s d))
  | _, _ => (false, destination)
  end.

(** ** Bits *)

Lemma testbit_bit n i : 0 <= n -> Z.testbit (1 <<. n) i = (n =? i).
Proof. intros Hn. by rewrite Z.shiftl_1_l, Z.pow2_bits_eqb. Qed.

Lemma testbit_set_if b n r i :
  0 <= n -> Z.testbit (set_if b n r) i = Z.testbit r i || (b && (n =? i)).
Proof.
  intros Hn. destruct b; cbn [set_if andb].
  - by rewrite Z.lor_spec, testbit_bit.
  - by rewrite orb_false_r.
Qed.

Lemma has_bits_bit x n : 0 <= n -> has_bits x (1 <<. n) = Z.testbit x n.
Proof.
  intros Hn. unfold has_bits. destruct (Z.testbit x n) eqn:E.
  - apply negb_true_iff, Z.eqb_neq. intros H.
    apply (f_equal (fun v => Z.testbit v n)) in H.
    rewrite Z.land_spec, testbit_bit, Z.eqb_refl, E, Z.bits_0 in H by done. discriminate.
  - apply negb_false_iff, Z.eqb_eq. apply Z.bits_inj'. intros i Hi.
    rewrite Z.land_spec, testbit_bit, Z.bits_0 by done.
    destruct (Z.eqb_spec n i) as [<-|]; [by rewrite E|apply andb_false_r].
Qed.

Lemma RFLAGS_NZCV_MASK_bits :
  RFLAGS_NZCV_MASK = (((1 <<. 0) .| (1 <<. 6)) .| (1 <<. 7)) .| (1 <<. 11).
Proof. done. Qed.

Lemma NZCV_MASK_bits : NZCV_MASK = (((1 <<. 28) .| (1 <<. 29)) .| (1 <<. 30)) .| (1 <<. 31).
Proof. done. Qed.

(** Decide the comparisons of two constants. *)
Ltac eqb_constants :=
  repeat match goal with
  | |- context [?a =? ?b] =>
      lazymatch eval vm_compute in (a =? b) with
      | true => change (a =? b) with true
      | false => change (a =? b) with false
      end
  end; cbn [andb orb negb xorb].

(** Split on whether the bit index is one of the constants it is compared to. *)
Ltac bit_cases :=
  repeat match goal with
  | |- context [?n =? ?i] => is_var i; destruct (Z.eqb_spec n i) as [<-|?]; eqb_constants
  end; rewrite ?andb_false_r, ?andb_true_r, ?orb_false_r, ?orb_true_r.

Ltac bit_simpl :=
  rewrite ?has_bits_bit by lia;
  repeat (progress rewrite ?testbit_set_if, ?Z.ldiff_spec, ?Z.land_spec, ?Z.lor_spec, ?testbit_bit, ?Z.bits_0
            by lia).

Lemma rflags_from_nzcv_bits nzcv p mode i :
  Z.testbit (gem_rflags_from_nzcv_for_arithmetic nzcv p mode) i =
    if i =? 0 then xorb (Z.testbit nzcv 29) (bool_decide (mode = GEM_ARITHMETIC_SUBTRACT))
    else if i =? 6 then Z.testbit nzcv 30
    else if i =? 7 then Z.testbit nzcv 31
    else if i =? 11 then Z.testbit nzcv 28
    else Z.testbit p i.
Proof.
  unfold gem_rflags_from_nzcv_for_arithmetic. rewrite RFLAGS_NZCV_MASK_bits. bit_simpl.
  rewrite !(Z.eqb_sym i). by bit_cases.
Qed.

Lemma nzcv_from_rflags_bits rflags p mode i :
  Z.testbit (gem_nzcv_from_rflags_for_arithmetic rflags p mode) i =
    if i =? 29 then xorb (Z.testbit rflags 0) (bool_decide (mode = GEM_ARITHMETIC_SUBTRACT))
    else if i =? 30 then Z.testbit rflags 6
    else if i =? 31 then Z.testbit rflags 7
    else if i =? 28 then Z.testbit rflags 11
    else Z.testbit p i.
Proof.
  unfold gem_nzcv_from_rflags_for_arithmetic. rewrite NZCV_MASK_bits. bit_simpl.
  rewrite !(Z.eqb_sym i). by bit_cases.
Qed.

Lemma xorb_twice a b : xorb (xorb a b) b = a.
Proof. by destruct a, b. Qed.

(** Replace the flags of [p] selected by [mask] by those of [x]. *)
Definition merge (mask x p : Z) : Z := (x .& mask) .| (p .&~ mask).

Lemma merge_bits mask x p i :
  Z.testbit (merge mask x p) i = if Z.testbit mask i then Z.testbit x i else Z.testbit p i.
Proof.
  unfold merge. bit_simpl. destruct (Z.testbit mask i);
  by rewrite ?andb_true_r, ?andb_false_r, ?orb_false_r.
Qed.

Lemma merge_self mask x : merge mask x x = x.
Proof. apply Z.bits_inj'; intros i _. rewrite merge_bits. by destruct (Z.testbit mask i). Qed.

Lemma nzcv_rflags_nzcv nzcv p q mode :
  gem_nzcv_from_rflags_for_arithmetic
    (gem_rflags_from_nzcv_for_arithmetic nzcv p mode) q mode = merge NZCV_MASK nzcv q.
Proof.
  apply Z.bits_inj'; intros i _.
  rewrite nzcv_from_rflags_bits, !rflags_from_nzcv_bits, merge_bits, NZCV_MASK_bits.
  bit_simpl. eqb_constants. rewrite !(Z.eqb_sym i), xorb_twice. by bit_cases.
Qed.

Lemma rflags_nzcv_rflags rflags p q mode :
  gem_rflags_from_nzcv_for_arithmetic
    (gem_nzcv_from_rflags_for_arithmetic rflags p mode) q mode = merge RFLAGS_NZCV_MASK rflags q.
Proof.
  apply Z.bits_inj'; intros i _.
  rewrite rflags_from_nzcv_bits, !nzcv_from_rflags_bits, merge_bits, RFLAGS_NZCV_MASK_bits.
  bit_simpl. eqb_constants. rewrite !(Z.eqb_sym i), xorb_twice. by bit_cases.
Qed.

(** ** Floating point *)

Lemma swap_round_testbit x i :
  0 <= i -> Z.testbit (swap_round (x .& 3)) i =
    if i =? 0 then Z.testbit x 1 else if i =? 1 then Z.testbit x 0 else false.
Proof.
  intros Hi.
  assert (x .& 3 = Z.b2z (Z.testbit x 0) + 2 * Z.b2z (Z.testbit x 1)) as ->.
  { change 3 with (Z.ones 2). rewrite Z.land_ones by lia.
    rewrite !Z.testbit_spec' by lia. change (2 ^ 0) with 1. change (2 ^ 1) with 2.
    rewrite Z.div_1_r. change (2 ^ 2) with (2 * 2). rewrite Z.rem_mul_r by lia. lia. }
  destruct (Z.testbit x 0), (Z.testbit x 1); cbn -[Z.testbit];
    destruct i as [|[p|p|]|p]; try lia; try done; by destruct p.
Qed.

Lemma land1_shift_testbit x k i :
  Z.testbit ((x .& 1) <<. k) i = (0 <=? i) && (k =? i) && Z.testbit x 0.
Proof.
  destruct (Z.leb_spec 0 i); [|by rewrite Z.testbit_neg_r by lia]. cbn [andb].
  rewrite Z.shiftl_spec by lia. change 1 with (Z.ones 1) at 1.
  rewrite Z.land_spec. destruct (Z.eqb_spec k i) as [->|].
  - rewrite Z.sub_diag. by rewrite andb_true_r.
  - cbn [andb]. destruct (Z.ltb_spec (i - k) 0).
    + by rewrite !Z.testbit_neg_r by lia.
    + rewrite Z.ones_spec_high by lia. apply andb_false_r.
Qed.

Lemma swap_round_shift_testbit x k i :
  0 <= k -> Z.testbit (swap_round (x .& 3) <<. k) i =
    if k =? i then Z.testbit x 1 else if k + 1 =? i then Z.testbit x 0 else false.
Proof.
  intros Hk. destruct (Z.ltb_spec i k).
  - rewrite Z.shiftl_spec_low by lia.
    by rewrite !(proj2 (Z.eqb_neq _ _)) by lia.
  - rewrite Z.shiftl_spec by lia. rewrite swap_round_testbit by lia.
    replace (k =? i) with (i - k =? 0) by (apply eq_true_iff_eq; rewrite !Z.eqb_eq; lia).
    by replace (k + 1 =? i) with (i - k =? 1) by (apply eq_true_iff_eq; rewrite !Z.eqb_eq; lia).
Qed.

(** Expand the six-step loops and the arithmetic on their constants. *)
Ltac fp_simpl :=
  cbn [seq foldl arm_status x86_status lookup_total list_lookup_total];
  repeat match goal with
  | |- context [arm_enable ?k] => let v := eval vm_compute in (arm_enable k) in
                                  change (arm_enable k) with v
  | |- context [7 + Z.of_nat ?k] => let v := eval vm_compute in (7 + Z.of_nat k) in
                                    change (7 + Z.of_nat k) with v
  end;
  bit_simpl; rewrite ?swap_round_shift_testbit, ?land1_shift_testbit by lia;
  rewrite ?Z.shiftr_spec by lia;
  repeat match goal with
  | |- context [Z.pos ?a + Z.pos ?b] => let v := eval vm_compute in (Z.pos a + Z.pos b) in
                                        change (Z.pos a + Z.pos b) with v
  end;
  rewrite ?Z.add_0_l.

(** Decide the bits of constants. *)
Ltac mask_constants :=
  repeat match goal with
  | |- context [Z.testbit ?m ?k] =>
      lazymatch eval vm_compute in (Z.testbit m k) with
      | true => change (Z.testbit m k) with true
      | false => change (Z.testbit m k) with false
      end
  end; cbn [negb]; rewrite ?andb_false_r; cbn [orb].

Lemma mxcsr_from_fp_bits fpcr fpsr i :
  Z.testbit (gem_mxcsr_from_fp fpcr fpsr) i =
    if i =? 0 then Z.testbit fpsr 0 else if i =? 1 then Z.testbit fpsr 7
    else if i =? 2 then Z.testbit fpsr 1 else if i =? 3 then Z.testbit fpsr 2
    else if i =? 4 then Z.testbit fpsr 3 else if i =? 5 then Z.testbit fpsr 4
    else if i =? 7 then negb (Z.testbit fpcr 8) else if i =? 8 then negb (Z.testbit fpcr 15)
    else if i =? 9 then negb (Z.testbit fpcr 9) else if i =? 10 then negb (Z.testbit fpcr 10)
    else if i =? 11 then negb (Z.testbit fpcr 11) else if i =? 12 then negb (Z.testbit fpcr 12)
    else if i =? 13 then Z.testbit fpcr 23 else if i =? 14 then Z.testbit fpcr 22
    else if i =? 15 then Z.testbit fpcr 24 else false.
Proof.
  unfold gem_mxcsr_from_fp. fp_simpl. bit_simpl. rewrite !(Z.eqb_sym i). by bit_cases.
Qed.

(** The two words [gem_fp_from_mxcsr_checked] computes. *)
Lemma fp_from_mxcsr_bits mxcsr control status :
  gem_fp_from_mxcsr_checked mxcsr = Some (control, status) ->
  (forall i, Z.testbit control i =
    if i =? 8 then negb (Z.testbit mxcsr 7) else if i =? 9 then negb (Z.testbit mxcsr 9)
    else if i =? 10 then negb (Z.testbit mxcsr 10) else if i =? 11 then negb (Z.testbit mxcsr 11)
    else if i =? 12 then negb (Z.testbit mxcsr 12) else if i =? 15 then negb (Z.testbit mxcsr 8)
    else if i =? 22 then Z.testbit mxcsr 14 else if i =? 23 then Z.testbit mxcsr 13
    else if i =? 24 then Z.testbit mxcsr 15 else false) /\
  (forall i, Z.testbit status i =
    if i =? 0 then Z.testbit mxcsr 0 else if i =? 7 then Z.testbit mxcsr 1
    else if i =? 1 then Z.testbit mxcsr 2 else if i =? 2 then Z.testbit mxcsr 3
    else if i =? 3 then Z.testbit mxcsr 4 else if i =? 4 then Z.testbit mxcsr 5 else false).
Proof.
  unfold gem_fp_from_mxcsr_checked. cbn [seq foldl].
  destruct (has_bits mxcsr (1 <<. 6)); [discriminate|].
  intros [= <- <-]. split; intros i; fp_simpl; rewrite !(Z.eqb_sym i); by bit_cases.
Qed.

Lemma fp_from_mxcsr_Some mxcsr :
  is_Some (gem_fp_from_mxcsr_checked mxcsr) <-> Z.testbit mxcsr 6 = false.
Proof.
  unfold gem_fp_from_mxcsr_checked. rewrite has_bits_bit by lia.
  destruct (Z.testbit mxcsr 6); cbn [seq foldl]; split; try done; by intros [].
Qed.

(** The MXCSR bits ARM64 can represent: all but DAZ and the reserved half. *)
Definition MXCSR_MASK : Z := 0xffbf.

Lemma MXCSR_MASK_testbit i :
  Z.testbit MXCSR_MASK i = (0 <=? i) && (i <? 16) && negb (i =? 6).
Proof.
  destruct (Z.leb_spec 0 i); [|by rewrite Z.testbit_neg_r by lia].
  destruct (Z.ltb_spec i 16); 
  [|by rewrite Z.bits_above_log2 by (done || (change (Z.log2 MXCSR_MASK) with 15; lia))].
  assert (In i (Z.of_nat <$> seq 0 16)) as Hin.
  { apply list_elem_of_In, list_elem_of_fmap. exists (Z.to_nat i).
    rewrite elem_of_seq. lia. }
  cbn in Hin. by repeat destruct Hin as [<- | Hin].
Qed.

Lemma mxcsr_fp_mxcsr mxcsr control status p q :
  gem_fp_from_mxcsr_checked mxcsr = Some (control, status) ->
  gem_mxcsr_from_fp ((p .&~ FPCR_MXCSR_MASK) .| control) ((q .&~ FPSR_MXCSR_MASK) .| status)
    = mxcsr .& MXCSR_MASK.
Proof.
  intros H. apply fp_from_mxcsr_bits in H as [Hc Hs]. apply Z.bits_inj'; intros i Hi.
  rewrite mxcsr_from_fp_bits, Z.land_spec, MXCSR_MASK_testbit, (proj2 (Z.leb_le 0 i) Hi).
  rewrite !Z.lor_spec, !Z.ldiff_spec, !Hc, !Hs. eqb_constants. mask_constants.
  rewrite ?(Z.eqb_sym i). bit_cases; try done; try by rewrite ?negb_involutive.
  destruct (Z.ltb_spec i 16); [lia|]. by rewrite andb_false_r.
Qed.

Lemma FPCR_MXCSR_MASK_bits :
  FPCR_MXCSR_MASK = ((((((((1 <<. 8) .| (1 <<. 9)) .| (1 <<. 10)) .| (1 <<. 11)) .| (1 <<. 12))
    .| (1 <<. 15)) .| (1 <<. 22)) .| (1 <<. 23)) .| (1 <<. 24).
Proof. done. Qed.

Lemma FPSR_MXCSR_MASK_bits :
  FPSR_MXCSR_MASK = (((((1 <<. 0) .| (1 <<. 1)) .| (1 <<. 2)) .| (1 <<. 3)) .| (1 <<. 4))
    .| (1 <<. 7).
Proof. done. Qed.

Lemma fp_mxcsr_fp fpcr fpsr :
  gem_fp_from_mxcsr_checked (gem_mxcsr_from_fp fpcr fpsr)
    = Some (fpcr .& FPCR_MXCSR_MASK, fpsr .& FPSR_MXCSR_MASK).
Proof.
  destruct (proj2 (fp_from_mxcsr_Some (gem_mxcsr_from_fp fpcr fpsr))) as [[control status] H].
  { by rewrite mxcsr_from_fp_bits. }
  rewrite H. apply fp_from_mxcsr_bits in H as [Hc Hs]. do 2 f_equal;
    apply Z.bits_inj'; intros i Hi; rewrite ?Hc, ?Hs, Z.land_spec.
  - rewrite FPCR_MXCSR_MASK_bits. bit_simpl. rewrite !mxcsr_from_fp_bits. eqb_constants.
    rewrite ?(Z.eqb_sym i). bit_cases; by rewrite ?negb_involutive.
  - rewrite FPSR_MXCSR_MASK_bits. bit_simpl. rewrite !mxcsr_from_fp_bits. eqb_constants.
    rewrite ?(Z.eqb_sym i). by bit_cases.
Qed.

Lemma land_merge mask x p : (p .&~ mask) .| (x .& mask) = merge mask x p.
Proof. unfold merge. apply Z.lor_comm. Qed.

(** ** Register files *)

Lemma insert_xreg c i :
  length (c_x c) = 31%nat -> (i < 31)%nat -> <[i := xreg c i]> (c_x c) = c_x c.
Proof.
  intros Hl Hi. apply list_insert_id. unfold xreg.
  apply list_lookup_lookup_total_lt. lia.
Qed.

Lemma gpr_x_gpr c :
  length (c_x c) = 31%nat -> xreg c 18 = c_teb c ->
  x_from_gpr (gpr_from_context c) (c_teb c) (c_x c) = c_x c.
Proof.
  intros Hl Ht. unfold x_from_gpr. rewrite <- Ht.
  cbn [gpr_from_context GEM_X64_GPR_COUNT replicate insert list_insert lookup_total
    list_lookup_total GEM_X64_RAX GEM_X64_RCX GEM_X64_RDX GEM_X64_RBX GEM_X64_RSP
    GEM_X64_RBP GEM_X64_RSI GEM_X64_RDI GEM_X64_R8 GEM_X64_R9 GEM_X64_R10 GEM_X64_R11
    GEM_X64_R12 GEM_X64_R13 GEM_X64_R14 GEM_X64_R15].
  repeat (rewrite insert_xreg by (done || lia)). done.
Qed.

(** Open a list of known length. *)
Ltac open_list l := repeat (destruct l as [|? l]; [try discriminate|try discriminate]).

Lemma x_gpr_x gpr teb x c :
  length gpr = 16%nat -> length x = 31%nat ->
  c_x c = x_from_gpr gpr teb x -> c_sp c = gpr !!! GEM_X64_RSP -> gpr_from_context c = gpr.
Proof.
  intros Hg Hx Hc Hsp. unfold gpr_from_context, xreg. rewrite Hc, Hsp.
  open_list gpr. open_list x. reflexivity.
Qed.

Lemma x_from_gpr_teb gpr teb x : length x = 31%nat -> x_from_gpr gpr teb x !!! 18%nat = teb.
Proof. intros Hx. open_list x. reflexivity. Qed.

(** The ARM registers that have no x64 counterpart. *)
Definition arm_only : list nat := [6; 7; 9; 10; 11; 12; 13; 14; 15; 16; 17; 23; 24; 28; 30]%nat.

Lemma x_from_gpr_frame gpr teb x i :
  i ∈ arm_only -> length x = 31%nat -> x_from_gpr gpr teb x !!! i = x !!! i.
Proof.
  intros Hi Hx. open_list x. unfold arm_only in Hi.
  repeat (apply elem_of_cons in Hi as [-> | Hi]; [reflexivity|]). by apply not_elem_of_nil in Hi.
Qed.

(** ** The copies *)

Lemma materialize_spec c s :
  gem_context_x64_materialize (Some c) true = Some s <->
  gem_context_is_valid (Some c) = true /\ c_isa c = GEM_ISA_X64 /\
  s = X64Context (gpr_from_context c) (c_pc c) (c_x64_rflags c) (c_x64_mxcsr c)
        (c_x64_fcw c) (c_x64_fsw c) (c_v c) (c_x87 c) (c_teb c).
Proof.
  unfold gem_context_x64_materialize. cbn [negb].
  destruct (gem_context_is_valid (Some c)); cbn [negb orb]; [|naive_solver].
  destruct (Z.eqb_spec (c_isa c) GEM_ISA_X64); cbn [negb orb]; naive_solver.
Qed.

Lemma arm64ec_to_x64_spec c s :
  gem_context_arm64ec_to_x64 (Some c) true = Some s <->
  gem_context_is_valid (Some c) = true /\ c_isa c = GEM_ISA_ARM64EC /\
  s = X64Context (gpr_from_context c) (c_pc c)
        (gem_rflags_from_nzcv (c_nzcv c) (c_x64_rflags c))
        (gem_mxcsr_from_fp (c_fpcr c) (c_fpsr c))
        (c_x64_fcw c) (c_x64_fsw c) (c_v c) (c_x87 c) (c_teb c).
Proof.
  unfold gem_context_arm64ec_to_x64. cbn [negb].
  destruct (gem_context_is_valid (Some c)); cbn [negb orb]; [|naive_solver].
  destruct (Z.eqb_spec (c_isa c) GEM_ISA_ARM64EC); cbn [negb orb]; naive_solver.
Qed.

(** The check of [&result] never fails. *)
Lemma commit_result_valid s d :
  length (c_x d) = 31%nat -> gem_context_is_valid (Some d) = true ->
  gem_context_is_valid (Some (x64_commit_result s d)) = true.
Proof.
  rewrite !gem_context_is_valid_spec. unfold xreg; cbn.
  intros Hl (? & ? & ? & ? & ?). by rewrite x_from_gpr_teb.
Qed.

Lemma x64_commit_result_spec s d :
  length (c_x d) = 31%nat ->
  gem_context_x64_commit (Some s) (Some d) =
    if gem_context_is_valid (Some d) && (c_isa d =? GEM_ISA_X64) && (x_teb s =? c_teb d)
    then (true, Some (x64_commit_result s d)) else (false, Some d).
Proof.
  intros Hl. unfold gem_context_x64_commit.
  destruct (gem_context_is_valid (Some d)) eqn:Hv; cbn [negb orb andb]; [|done].
  rewrite commit_result_valid by done.
  by destruct (c_isa d =? GEM_ISA_X64), (x_teb s =? c_teb d).
Qed.

Lemma x64_to_arm64ec_valid s d :
  gem_context_is_valid (Some d) = true -> c_isa d = GEM_ISA_ARM64EC ->
  x_teb s = c_teb d -> Z.testbit (x_mxcsr s) 6 = false ->
  gem_context_x64_to_arm64ec (Some s) (Some d) = (true, Some (x64_to_arm64ec_result s d)).
Proof.
  intros Hv Hi Ht Hm. unfold gem_context_x64_to_arm64ec. rewrite Hv, Hi, Ht.
  rewrite bool_decide_true by by apply fp_from_mxcsr_Some.
  apply gem_context_is_valid_spec in Hv as (_ & _ & Hteb & _).
  rewrite (proj2 (Z.eqb_neq _ _) Hteb). cbn. by rewrite Z.eqb_refl.
Qed.

(** ** Properties *)

(** Translating the ARM flags to RFLAGS and back, in either direction and
    under the same carry convention (add, subtract or logical), recovers the
    four condition flags exactly and takes every other bit of the result from
    the preserved word. *)
Theorem flags_roundtrip nzcv rflags p q mode :
  gem_nzcv_from_rflags_for_arithmetic
    (gem_rflags_from_nzcv_for_arithmetic nzcv p mode) q mode = merge NZCV_MASK nzcv q /\
  gem_rflags_from_nzcv_for_arithmetic
    (gem_nzcv_from_rflags_for_arithmetic rflags p mode) q mode
      = merge RFLAGS_NZCV_MASK rflags q.
Proof. split; [apply nzcv_rflags_nzcv | apply rflags_nzcv_rflags]. Qed.

(** MXCSR and FPCR/FPSR carry the same information but for DAZ: a control
    word built from the ARM pair is always accepted and gives back the mapped
    bits of both registers, an accepted MXCSR survives the trip through any
    ARM registers that keep their unmapped bits, and a word is refused exactly
    when DAZ is set. *)
Theorem fp_roundtrip fpcr fpsr mxcsr :
  gem_fp_from_mxcsr_checked (gem_mxcsr_from_fp fpcr fpsr)
    = Some (fpcr .& FPCR_MXCSR_MASK, fpsr .& FPSR_MXCSR_MASK) /\
  match gem_fp_from_mxcsr_checked mxcsr with
  | Some (control, status) =>
      Z.testbit mxcsr 6 = false /\
      gem_mxcsr_from_fp ((fpcr .&~ FPCR_MXCSR_MASK) .| control)
        ((fpsr .&~ FPSR_MXCSR_MASK) .| status) = mxcsr .& MXCSR_MASK
  | None => Z.testbit mxcsr 6 = true
  end.
Proof.
  split; [apply fp_mxcsr_fp|].
  destruct (gem_fp_from_mxcsr_checked mxcsr) as [[control status]|] eqn:E.
  - split; [apply fp_from_mxcsr_Some; eauto | by apply mxcsr_fp_mxcsr].
  - apply not_false_iff_true. rewrite <- fp_from_mxcsr_Some, E. by intros [].
Qed.

(** The x64 view of a valid x64 context commits back to the very same
    context, and a view committed into any x64 context of the same thread
    materializes to itself. *)
Theorem x64_view_roundtrip c d s :
  length (c_x c) = 31%nat -> length (c_x d) = 31%nat -> length (x_gpr s) = 16%nat ->
  gem_context_is_valid (Some c) = true -> c_isa c = GEM_ISA_X64 ->
  gem_context_is_valid (Some d) = true -> c_isa d = GEM_ISA_X64 -> x_teb s = c_teb d ->
  (exists view, gem_context_x64_materialize (Some c) true = Some view /\
    gem_context_x64_commit (Some view) (Some c) = (true, Some c)) /\
  (exists d', gem_context_x64_commit (Some s) (Some d) = (true, Some d') /\
    gem_context_x64_materialize (Some d') true = Some s).
Proof.
  intros Hlc Hld Hls Hc Hci Hd Hdi Ht. split.
  - eexists. split; [by apply materialize_spec|].
    rewrite x64_commit_result_spec, Hc, Hci by done. cbn [x_teb andb]. rewrite !Z.eqb_refl.
    unfold x64_commit_result; cbn -[gpr_from_context x_from_gpr]. rewrite gpr_x_gpr; [|done|].
    2:{ by apply gem_context_is_valid_spec in Hc as (_ & _ & _ & ? & _). }
    by destruct c.
  - eexists. rewrite x64_commit_result_spec, Hd, Hdi, Ht, !Z.eqb_refl by done. split; [done|].
    apply materialize_spec. split; [by apply commit_result_valid|]. split; [done|].
    erewrite (x_gpr_x (x_gpr s)) by (done || exact Hls || exact Hld).
    cbn. rewrite <- Ht. by destruct s.
Qed.

Definition witness_x64_context : gem_thread_context :=
  ThreadContext 1 720 (<[18%nat := 0x7000]> (Z.of_nat <$> seq 100 31)) 0x1000 0x140001000
    0 0 0 0 (replicate 16 (U128 1 2)) 0x246 0x1f80 0x37f 0 (replicate 8 (U128 3 4))
    0x7000 0 0 GEM_ISA_X64 0.

Definition witness_view : gem_x64_context :=
  X64Context (Z.of_nat <$> seq 0 16) 0x140002000 0x202 0x1f80 0x37f 0 (replicate 16 (U128 5 6))
    (replicate 8 (U128 7 8)) 0x7000.

Lemma x64_view_roundtrip_witness :
  (exists view, gem_context_x64_materialize (Some witness_x64_context) true = Some view /\
    gem_context_x64_commit (Some view) (Some witness_x64_context)
      = (true, Some witness_x64_context)) /\
  (exists d', gem_context_x64_commit (Some witness_view) (Some witness_x64_context)
      = (true, Some d') /\
    gem_context_x64_materialize (Some d') true = Some witness_view).
Proof.
  by apply (x64_view_roundtrip witness_x64_context witness_x64_context witness_view).
Defined.



(** C40: a valid ARM64EC context taken to x64 and back is unchanged but for the
    two sidecar words, which now record the flags and the floating-point state
    that the x64 side saw. *)
Theorem arm64ec_x64_roundtrip c :
  length (c_x c) = 31%nat ->
  gem_context_is_valid (Some c) = true -> c_isa c = GEM_ISA_ARM64EC ->
  exists s c', gem_context_arm64ec_to_x64 (Some c) true = Some s /\
    gem_context_x64_to_arm64ec (Some s) (Some c) = (true, Some c') /\
    c' = ThreadContext (c_layout_version c) (c_context_size c) (c_x c) (c_sp c) (c_pc c)
           (c_nzcv c) (c_fpcr c) (c_fpsr c) (c_reserved0 c) (c_v c)
           (gem_rflags_from_nzcv (c_nzcv c) (c_x64_rflags c))
           (gem_mxcsr_from_fp (c_fpcr c) (c_fpsr c)) (c_x64_fcw c) (c_x64_fsw c) (c_x87 c)
           (c_teb c) (c_original_x64_sp c) (c_transition_cookie c) GEM_ISA_ARM64EC
           (c_stop_reason c).
Proof.
  intros Hl Hv Hi. eexists _, _. split; [by apply arm64ec_to_x64_spec|]. split.
  - apply x64_to_arm64ec_valid; [done|done|done|]. cbn [x_mxcsr].
    by rewrite mxcsr_from_fp_bits.
  - unfold x64_to_arm64ec_result, gem_fp_from_mxcsr. cbn [x_mxcsr]. rewrite fp_mxcsr_fp.
    cbn -[gpr_from_context x_from_gpr gem_nzcv_from_rflags gem_rflags_from_nzcv gem_mxcsr_from_fp
      Z.ldiff Z.lor Z.land].
    apply gem_context_is_valid_spec in Hv as (_ & _ & _ & Ht & _).
    rewrite gpr_x_gpr by done. unfold gem_nzcv_from_rflags, gem_rflags_from_nzcv.
    rewrite nzcv_rflags_nzcv, !land_merge, !merge_self. done.
Qed.

Lemma arm64ec_x64_roundtrip_witness :
  let c := ThreadContext 1 720 (<[18%nat := 0x7000]> (Z.of_nat <$> seq 100 31)) 0x1000
    0x140001000 0x60000000 0x00400000 0x1f 0 (replicate 16 (U128 1 2)) 0x246 0 0x37f 0
    (replicate 8 (U128 3 4)) 0x7000 0 0 GEM_ISA_ARM64EC 0 in
  exists s c', gem_context_arm64ec_to_x64 (Some c) true = Some s /\
    gem_context_x64_to_arm64ec (Some s) (Some c) = (true, Some c') /\
    c_nzcv c' = 0x60000000 /\ c_fpcr c' = 0x00400000.
Proof.
  intros c. destruct (arm64ec_x64_roundtrip c eq_refl eq_refl eq_refl) as (s & c' & H1 & H2 & ->).
  eexists s, _. split; [exact H1|]. split; [exact H2|]. split; reflexivity.
Defined.
