(* ===== verification/MemoryModel.v ===== *)
(** MemoryModel: the data of the sparse guest address space and the primitive
    steps every operation is made of (src/gem/memory.c, first part, and
    include/metalsharp/gem/memory.h).

    The page table is a finite map from page address to [struct page]; PageIndex
    shows that the code's hash buckets and list implement such a map.  A
    [struct backing *] is the number of the allocation that created it, and the
    live backings are a finite map, so that a use after free or a double free is
    a lookup that fails.  Code runs in a state monad whose outcomes are a value,
    [Err tt] for [abort()], and [Fault] for undefined behaviour.  What the
    platform decides (whether an allocation succeeds and what uninitialised
    memory holds; what [mach_vm_region] answers) is the class [Platform]. *)
From S2P Require Import Prelude.

(** ** Constants and enums *)

Definition GEM_GUEST_PAGE_SIZE : Z := 4096.
Definition GEM_MEMORY_MAX_PAGES : Z := 1048576.
Definition GEM_KUSER_SHARED_DATA_ADDRESS : Z := 0x7ffe0000.
Definition GEM_KUSER_CANONICAL_ADDRESS : Z := 0x1007ffe0000.

Inductive gem_memory_error : Type :=
  | GEM_MEMORY_OK
  | GEM_MEMORY_INVALID_ARGUMENT
  | GEM_MEMORY_OVERFLOW
  | GEM_MEMORY_NO_MEMORY
  | GEM_MEMORY_CONFLICT
  | GEM_MEMORY_NOT_RESERVED
  | GEM_MEMORY_NOT_COMMITTED
  | GEM_MEMORY_ACCESS_DENIED
  | GEM_MEMORY_GUARD_PAGE
  | GEM_MEMORY_NOT_FOUND.

#[export] Instance gem_memory_error_eq_dec : EqDecision gem_memory_error.
Proof. solve_decision. Defined.

Definition GEM_PAGE_NOACCESS : Z := 0x01.
Definition GEM_PAGE_READONLY : Z := 0x02.
Definition GEM_PAGE_READWRITE : Z := 0x04.
Definition GEM_PAGE_WRITECOPY : Z := 0x08.
Definition GEM_PAGE_EXECUTE : Z := 0x10.
Definition GEM_PAGE_EXECUTE_READ : Z := 0x20.
Definition GEM_PAGE_EXECUTE_READWRITE : Z := 0x40.
Definition GEM_PAGE_EXECUTE_WRITECOPY : Z := 0x80.
Definition GEM_PAGE_GUARD : Z := 0x100.

(** [gem_memory_error_name], on the enum's integer. *)
Definition memory_error_names : list string :=
  ["ok"; "invalid-argument"; "overflow"; "no-memory"; "conflict"; "not-reserved";
   "not-committed"; "access-denied"; "guard-page"; "not-found"]%string.
Definition gem_memory_error_name (e : Z) : string :=
  if wrap32 e <? 10 then memory_error_names !!! Z.to_nat (wrap32 e) else "invalid"%string.

(** ** The state *)

(** A [struct backing *]: the index of the allocation that returned it. *)
Definition bid : Type := nat.

(** [data] and [external] of [struct backing]: 4096 bytes of its own, or the
    address of a page the caller owns.  (Every host address the code stores is
    page-aligned, so host memory is kept by pages.) *)
Inductive storage : Type :=
  | Owned (bytes : list Z)
  | Host (address : Z).

Record backing : Type := Backing {
  b_data : storage;
  b_refs : Z;
  b_generation : Z }.

Record page : Type := Page {
  p_reservation_base : Z;
  p_reservation_size : Z;
  p_backing : option bid;
  p_protection : Z;
  p_generation : Z }.

#[export] Instance storage_eq_dec : EqDecision storage.
Proof. solve_decision. Defined.
#[export] Instance backing_eq_dec : EqDecision backing.
Proof. solve_decision. Defined.
#[export] Instance page_eq_dec : EqDecision page.
Proof. solve_decision. Defined.

(** [struct gem_memory], the live backings, the host pages it refers to, and
    the number of allocations made so far. *)
Record mem : Type := Mem {
  m_pages : gmap Z page;
  m_backings : gmap bid backing;
  m_host : gmap Z (list Z);
  m_next_generation : Z;
  m_allocs : nat }.

Definition external (b : backing) : bool :=
  match b_data b with Owned _ => false | Host _ => true end.

Definition with_backing (p : page) (b : option bid) : page :=
  Page (p_reservation_base p) (p_reservation_size p) b (p_protection p) (p_generation p).
Definition with_protection (p : page) (prot : Z) : page :=
  Page (p_reservation_base p) (p_reservation_size p) (p_backing p) prot (p_generation p).
Definition with_generation (p : page) (g : Z) : page :=
  Page (p_reservation_base p) (p_reservation_size p) (p_backing p) (p_protection p) g.
Definition with_reservation (p : page) (base size : Z) : page :=
  Page base size (p_backing p) (p_protection p) (p_generation p).

Definition set_pages (m : mem) (ps : gmap Z page) : mem :=
  Mem ps (m_backings m) (m_host m) (m_next_generation m) (m_allocs m).
Definition set_backings (m : mem) (bs : gmap bid backing) : mem :=
  Mem (m_pages m) bs (m_host m) (m_next_generation m) (m_allocs m).
Definition set_host (m : mem) (h : gmap Z (list Z)) : mem :=
  Mem (m_pages m) (m_backings m) h (m_next_generation m) (m_allocs m).
Definition set_next_generation (m : mem) (g : Z) : mem :=
  Mem (m_pages m) (m_backings m) (m_host m) g (m_allocs m).
Definition set_allocs (m : mem) (k : nat) : mem :=
  Mem (m_pages m) (m_backings m) (m_host m) (m_next_generation m) k.

(** What the platform decides. *)
Class Platform : Type := {
  (** the k-th allocation: [None] when it fails, otherwise the bytes an
      uninitialised [uint64_t] of the block happens to hold *)
  allocation : nat -> option Z;
  (** [mach_vm_region]: start, size, readable and writable of the first region
      at or above the address; [None] when the call fails *)
  vm_region : Z -> option (Z * Z * bool * bool) }.

(** ** The monad *)

Definition M (A : Type) : Type := mem -> result unit (A * mem).
#[export] Instance M_ret : MRet M := fun A a m => Ok (a, m).
#[export] Instance M_bind : MBind M := fun A B f r m =>
  match r m with Ok (a, m') => f a m' | Err e => Err e | Fault => Fault end.

Definition get : M mem := fun m => Ok (m, m).
Definition put (m : mem) : M unit := fun _ => Ok (tt, m).
Definition abort {A} : M A := fun _ => Err tt.
Definition fault {A} : M A := fun _ => Fault.

(** [for (...) body] without early exit. *)
Fixpoint for_each {A} (l : list A) (body : A -> M unit) : M unit :=
  match l with
  | [] => mret tt
  | x :: l => body x;; for_each l body
  end.

(** [for (...) if (...) return e;] over a fixed memory. *)
Fixpoint first_error {A} (f : A -> option gem_memory_error) (l : list A)
  : option gem_memory_error :=
  match l with
  | [] => None
  | x :: l => match f x with Some e => Some e | None => first_error f l end
  end.

(** [for (o = lo; o < hi; o += 4096)] *)
Definition page_range (lo hi : Z) : list Z :=
  (fun i => lo + 4096 * i) <$> seqZ 0 ((hi - lo + 4095) / 4096).

(** ** Pure helpers *)

Definition range_ok (a n : Z) : bool :=
  negb (n =? 0) && negb (has_bits a 4095) && negb (has_bits n 4095) && (a <=? UINT64_MAX - n).

Definition prot_ok (p : Z) : bool :=
  let b := p .&~ GEM_PAGE_GUARD in
  if negb (p .&~ (GEM_PAGE_GUARD .| 0xff) =? 0) then false
  else if has_bits p GEM_PAGE_GUARD && (b =? GEM_PAGE_NOACCESS) then false
  else bool_decide (b ∈ [GEM_PAGE_NOACCESS; GEM_PAGE_READONLY; GEM_PAGE_READWRITE;
                         GEM_PAGE_WRITECOPY; GEM_PAGE_EXECUTE; GEM_PAGE_EXECUTE_READ;
                         GEM_PAGE_EXECUTE_READWRITE; GEM_PAGE_EXECUTE_WRITECOPY]).

Definition allowed (p : Z) (w x : bool) : bool :=
  let b := p .&~ GEM_PAGE_GUARD in
  if x then (b =? 16) || (b =? 32) || (b =? 64) || (b =? 128)
  else if w then (b =? 4) || (b =? 8) || (b =? 64) || (b =? 128)
  else negb (b =? 1) && negb (b =? 16).

(** FNV-1a over one page. *)
Definition content_hash (data : list Z) : Z :=
  foldl (fun hash byte => wrap64 (Z.lxor hash byte * 1099511628211)) 1469598103934665603 data.

Definition PAGE : nat := Z.to_nat GEM_GUEST_PAGE_SIZE.
Definition zero_page : list Z := replicate PAGE 0.

(** [memcpy(dst + off, src, length src)] *)
Definition memcpy (dst : list Z) (off : Z) (src : list Z) : list Z :=
  take (Z.to_nat off) dst ++ src ++ drop (Z.to_nat off + length src) dst.

(** The n bytes at [src + off]. *)
Definition bytes_at (src : list Z) (off n : Z) : list Z :=
  take (Z.to_nat n) (drop (Z.to_nat off) src).

Definition host_page (m : mem) (address : Z) : list Z :=
  default zero_page (m_host m !! address).

(** The 4096 bytes [b->data] points at. *)
Definition contents (m : mem) (b : backing) : list Z :=
  match b_data b with Owned l => l | Host h => host_page m h end.

(** One step of an access: the page, the offset in it, the offset in the
    caller's buffer, and the number of bytes. *)
Record chunk : Type := Chunk { k_page : Z; k_offset : Z; k_done : Z; k_size : Z }.

Fixpoint chunks (pages : nat) (a n done : Z) : list chunk :=
  match pages with
  | O => []
  | S pages =>
    let q := (a + done) .&~ 4095 in
    let z := 4096 - ((a + done) .& 4095) in
    let z := if n - done <? z then n - done else z in
    Chunk q ((a + done) .& 4095) done z :: chunks pages a n (done + z)
  end.

(** [(n + first_offset + 4095) / 4096] *)
Definition page_count (a n : Z) : nat := Z.to_nat ((n + (a .& 4095) + 4095) / 4096).

(** ** Primitive steps *)

Definition at_ (m : mem) (a : Z) : option page := m_pages m !! a.

(** [at(m, a)->...]: a NULL result is undefined behaviour. *)
Definition deref_page (a : Z) : M page :=
  m ← get; match at_ m a with Some p => mret p | None => fault end.
Definition put_page (a : Z) (p : page) : M unit :=
  m ← get; put (set_pages m (<[a := p]> (m_pages m))).
Definition modify_page (a : Z) (f : page -> page) : M unit :=
  p ← deref_page a; put_page a (f p).

(** [b->...] for a backing pointer. *)
Definition deref_backing (b : option bid) : M (bid * backing) :=
  m ← get;
  match b with
  | Some b => match m_backings m !! b with Some bk => mret (b, bk) | None => fault end
  | None => fault
  end.
Definition put_backing (b : bid) (bk : backing) : M unit :=
  m ← get; put (set_backings m (<[b := bk]> (m_backings m))).

(** [++memory->next_generation], and the abort when it wraps. *)
Definition bump_generation : M Z :=
  m ← get;
  let g := wrap64 (m_next_generation m + 1) in
  put (set_next_generation m g);;
  if g =? 0 then abort else mret g.

Definition touch_page (a : Z) : M unit :=
  g ← bump_generation; modify_page a (fun p => with_generation p g).

Definition touch_backing (b : option bid) : M unit :=
  g ← bump_generation;
  '(b, bk) ← deref_backing b;
  put_backing b (Backing (b_data bk) (b_refs bk) g).

Definition add_ref (b : option bid) : M unit :=
  '(b, bk) ← deref_backing b;
  put_backing b (Backing (b_data bk) (b_refs bk + 1) (b_generation bk)).

Definition drop_backing (b : option bid) : M unit :=
  match b with
  | None => mret tt
  | Some _ =>
    '(b, bk) ← deref_backing b;
    m ← get;
    if b_refs bk - 1 =? 0
    then put (set_backings m (delete b (m_backings m)))
    else put (set_backings m
           (<[b := Backing (b_data bk) (b_refs bk - 1) (b_generation bk)]> (m_backings m)))
  end.

(** [memcpy(b->data + off, src, ...)] *)
Definition store_backing (b : option bid) (off : Z) (src : list Z) : M unit :=
  '(b, bk) ← deref_backing b;
  m ← get;
  match b_data bk with
  | Owned l => put_backing b (Backing (Owned (memcpy l off src)) (b_refs bk) (b_generation bk))
  | Host h => put (set_host m (<[h := memcpy (host_page m h) off src]> (m_host m)))
  end.

Section allocation.
Context {platform : Platform}.

(** [malloc] or [calloc]: its index and what uninitialised words hold. *)
Definition alloc : M (option (nat * Z)) :=
  m ← get;
  put (set_allocs m (S (m_allocs m)));;
  mret (match allocation (m_allocs m) with
        | Some junk => Some (m_allocs m, wrap64 junk)
        | None => None
        end).

(** [new_backing(data, external)]: [Some h] is an external page at [h].  The
    code does not initialise [generation]. *)
Definition new_backing (data : option Z) : M (option bid) :=
  r ← alloc;
  match r with
  | None => mret None
  | Some (b, junk) =>
    match data with
    | Some h => put_backing b (Backing (Host h) 1 junk);; mret (Some b)
    | None =>
      r ← alloc;
      match r with
      | None => mret None
      | Some _ => put_backing b (Backing (Owned zero_page) 1 junk);; mret (Some b)
      end
    end
  end.

(** [external_range_accessible] (macOS). *)
Definition external_range_accessible (h offset size : Z) (write : bool) : bool :=
  let address := h + offset in
  match vm_region address with
  | Some (region, region_size, readable, writable) =>
      (region <=? address) && (address - region <=? region_size) &&
      (size <=? region_size - (address - region)) && readable && (negb write || writable)
  | None => false
  end.
End allocation.

(** [check(m, a, n, committed)], for a non-NULL [m]. *)
Definition check (m : mem) (a n : Z) (committed : bool) : gem_memory_error :=
  if negb (range_ok a n) then GEM_MEMORY_INVALID_ARGUMENT
  else default GEM_MEMORY_OK
    (first_error (fun o =>
       match at_ m (a + o) with
       | None => Some GEM_MEMORY_NOT_RESERVED
       | Some p => if committed && bool_decide (p_backing p = None)
                   then Some GEM_MEMORY_NOT_COMMITTED else None
       end) (page_range 0 n)).
