(* ===== verification/PageIndex.v ===== *)
(** PageIndex: how src/gem/memory.c stores the page table (lines 26-36, 198-201,
    392-421, 455-467 and the list loops of [reserve_locked] and [alias_locked]):
    [struct page] nodes on one list through [next], each also on the chain of
    its hash bucket through [hash_next].  The theorem at the end shows that the
    nodes implement the finite map the other files use for the page table: every
    loop ends, no freed or NULL node is followed, [unindex_page] never aborts,
    and nothing is leaked.

    A [struct page *] is the number of the [calloc] that returned it.  What the
    code does between two list operations with the fields of a page (and with
    its backing) is the client's: the node carries them as one [page]. *)
From S2P Require Import Prelude MemoryModel.

Definition GEM_MEMORY_HASH_BUCKETS : Z := 65536.

Definition page_bucket (address : Z) : Z :=
  let key := address >>. 12 in
  let key := key .^ (key >>. 33) in
  let key := wrap64 (key * 0xff51afd7ed558ccd) in
  let key := key .^ (key >>. 33) in
  let key := wrap64 (key * 0xc4ceb9fe1a85ec53) in
  let key := key .^ (key >>. 33) in
  key .& (GEM_MEMORY_HASH_BUCKETS - 1).

(** A [struct page *] that is not NULL. *)
Definition nid : Type := nat.

Record node : Type := Node {
  n_address : Z;
  n_page : page;
  n_next : option nid;
  n_hash_next : option nid }.

(** The live nodes, [pages] and [page_buckets] of [struct gem_memory], and the
    number of nodes allocated so far.  A bucket without an entry is NULL. *)
Record index : Type := Index {
  i_nodes : gmap nid node;
  i_pages : option nid;
  i_buckets : gmap Z nid;
  i_allocs : nat }.

(** [calloc]'s bucket array: every bucket is NULL. *)
Definition empty_index : index := Index ∅ None ∅ 0.

Definition set_nodes (s : index) (h : gmap nid node) : index :=
  Index h (i_pages s) (i_buckets s) (i_allocs s).
Definition with_next (nd : node) (x : option nid) : node :=
  Node (n_address nd) (n_page nd) x (n_hash_next nd).
Definition with_hash_next (nd : node) (x : option nid) : node :=
  Node (n_address nd) (n_page nd) (n_next nd) x.
Definition with_page (nd : node) (p : page) : node :=
  Node (n_address nd) p (n_next nd) (n_hash_next nd).

(** Fuel for a walk along a list of live nodes. *)
Definition walk_fuel (s : index) : nat := S (size (i_nodes s)).

(** [p->...]: [Fault] when the node is not live. *)
Definition deref (s : index) (x : nid) : result unit node :=
  match i_nodes s !! x with Some nd => Ok nd | None => Fault end.

Definition set_node (s : index) (x : nid) (nd : node) : index :=
  set_nodes s (<[x := nd]> (i_nodes s)).

(** [free(p)]: freeing a node twice is a fault. *)
Definition free_node (s : index) (x : nid) : result unit index :=
  _ ← deref s x; Ok (set_nodes s (delete x (i_nodes s))).

(** ** [at] *)

Fixpoint at_chain (fuel : nat) (s : index) (p : option nid) (a : Z) : result unit (option nid) :=
  match fuel with
  | O => Fault
  | S fuel =>
    match p with
    | None => Ok None
    | Some x =>
      nd ← deref s x;
      if n_address nd =? a then Ok (Some x) else at_chain fuel s (n_hash_next nd) a
    end
  end.

Definition at_node (s : index) (a : Z) : result unit (option nid) :=
  at_chain (walk_fuel s) s (i_buckets s !! page_bucket a) a.

(** ** [index_page] and [unindex_page] *)

Definition set_bucket (s : index) (b : Z) (x : option nid) : index :=
  Index (i_nodes s) (i_pages s) (partial_alter (fun _ => x) b (i_buckets s)) (i_allocs s).

Definition index_page (s : index) (x : nid) : result unit index :=
  nd ← deref s x;
  let bucket := page_bucket (n_address nd) in
  Ok (set_bucket (set_node s x (with_hash_next nd (i_buckets s !! bucket))) bucket (Some x)).

(** [struct page **link] of [unindex_page]: a bucket, or a node's [hash_next]. *)
Inductive hash_link : Type :=
  | BucketLink (bucket : Z)
  | HashNextLink (x : nid).

Definition read_hash_link (s : index) (l : hash_link) : result unit (option nid) :=
  match l with
  | BucketLink b => Ok (i_buckets s !! b)
  | HashNextLink x => nd ← deref s x; Ok (n_hash_next nd)
  end.

Definition write_hash_link (s : index) (l : hash_link) (v : option nid) : result unit index :=
  match l with
  | BucketLink b => Ok (set_bucket s b v)
  | HashNextLink x => nd ← deref s x; Ok (set_node s x (with_hash_next nd v))
  end.

(** [while ( *link != NULL && *link != p) link = &( *link)->hash_next;] *)
Fixpoint find_hash_link (fuel : nat) (s : index) (link : hash_link) (p : nid)
  : result unit hash_link :=
  match fuel with
  | O => Fault
  | S fuel =>
    v ← read_hash_link s link;
    match v with
    | None => Ok link
    | Some y => if decide (y = p) then Ok link else find_hash_link fuel s (HashNextLink y) p
    end
  end.

(** [Err tt] is the [abort]. *)
Definition unindex_page (s : index) (p : nid) : result unit index :=
  nd ← deref s p;
  link ← find_hash_link (walk_fuel s) s (BucketLink (page_bucket (n_address nd))) p;
  v ← read_hash_link s link;
  match v with
  | None => Err tt
  | Some _ =>
    nd ← deref s p;
    s ← write_hash_link s link (n_hash_next nd);
    nd ← deref s p;
    Ok (set_node s p (with_hash_next nd None))
  end.

(** ** [remove_pages] *)

(** [struct page **l]: the head of the list, or a node's [next]. *)
Inductive list_link : Type :=
  | HeadLink
  | NextLink (x : nid).

Definition read_list_link (s : index) (l : list_link) : result unit (option nid) :=
  match l with
  | HeadLink => Ok (i_pages s)
  | NextLink x => nd ← deref s x; Ok (n_next nd)
  end.

Definition write_list_link (s : index) (l : list_link) (v : option nid) : result unit index :=
  match l with
  | HeadLink => Ok (Index (i_nodes s) v (i_buckets s) (i_allocs s))
  | NextLink x => nd ← deref s x; Ok (set_node s x (with_next nd v))
  end.

Definition address_in_range (a n address : Z) : bool := (a <=? address) && (address <? wrap64 (a + n)).

(** The loop; the result also lists the pages whose backing is dropped, in the
    order in which they are. *)
Fixpoint remove_loop (fuel : nat) (s : index) (l : list_link) (a n : Z)
  : result unit (index * list (Z * page)) :=
  match fuel with
  | O => Fault
  | S fuel =>
    v ← read_list_link s l;
    match v with
    | None => Ok (s, [])
    | Some p =>
      nd ← deref s p;
      if address_in_range a n (n_address nd) then
        s ← write_list_link s l (n_next nd);
        s ← unindex_page s p;
        s ← free_node s p;
        '(s, dropped) ← remove_loop fuel s l a n;
        Ok (s, (n_address nd, n_page nd) :: dropped)
      else remove_loop fuel s (NextLink p) a n
    end
  end.

Definition remove_nodes (s : index) (a n : Z) : result unit (index * list (Z * page)) :=
  remove_loop (walk_fuel s) s HeadLink a n.

(** ** The loops of [reserve_locked] and [alias_locked] *)

Section allocation.
(** Whether the k-th [calloc] of a node succeeds. *)
Context (calloc : nat -> bool).

(** [while (head) { p = head->next; free(head); head = p; }] *)
Fixpoint free_list (fuel : nat) (s : index) (head : option nid) : result unit index :=
  match fuel with
  | O => Fault
  | S fuel =>
    match head with
    | None => Ok s
    | Some x => nd ← deref s x; s ← free_node s x; free_list fuel s (n_next nd)
    end
  end.

(** [calloc], the fields, [p->next = head; head = p;] for every page; [None]
    when an allocation fails. *)
Fixpoint build_list (s : index) (head : option nid) (pages : list (Z * page))
  : index * option nid * bool :=
  match pages with
  | [] => (s, head, true)
  | (a, p) :: pages =>
    let x := i_allocs s in
    let s := Index (i_nodes s) (i_pages s) (i_buckets s) (S x) in
    if calloc x
    then build_list (set_node s x (Node a p head None)) (Some x) pages
    else (s, head, false)
  end.

(** [while (head) { p = head->next; head->next = m->pages; m->pages = head;
    index_page(m, head); head = p; }] *)
Fixpoint publish_list (fuel : nat) (s : index) (head : option nid) : result unit index :=
  match fuel with
  | O => Fault
  | S fuel =>
    match head with
    | None => Ok s
    | Some x =>
      nd ← deref s x;
      let s := set_node s x (with_next nd (i_pages s)) in
      let s := Index (i_nodes s) (Some x) (i_buckets s) (i_allocs s) in
      s ← index_page s x;
      publish_list fuel s (n_next nd)
    end
  end.

(** Both loops; false when the pages could not be allocated. *)
Definition add_pages (s : index) (pages : list (Z * page)) : result unit (index * bool) :=
  let '(s, head, ok) := build_list s None pages in
  if ok then s ← publish_list (walk_fuel s) s head; Ok (s, true)
  else s ← free_list (walk_fuel s) s head; Ok (s, false).
End allocation.

(** [at(m, a)->field = ...]: a change of the page at [a]. *)
Definition modify_node (s : index) (a : Z) (f : page -> page) : result unit index :=
  r ← at_node s a;
  match r with
  | None => Fault
  | Some x => nd ← deref s x; Ok (set_node s x (with_page nd (f (n_page nd))))
  end.

(** [at(m, a)] read through. *)
Definition find_page (s : index) (a : Z) : result unit (option page) :=
  r ← at_node s a;
  match r with
  | None => Ok None
  | Some x => nd ← deref s x; Ok (Some (n_page nd))
  end.

(** ** Chains *)

(** The nodes met from [start] until the pointer is [fin]. *)
Fixpoint path (next : node -> option nid) (h : gmap nid node) (start : option nid)
    (l : list nid) (fin : option nid) : Prop :=
  match l with
  | [] => start = fin
  | x :: l => start = Some x /\ exists nd, h !! x = Some nd /\ path next h (next nd) l fin
  end.
Notation chain next h start l := (path next h start l None).

Lemma path_app next h start l1 l2 fin :
  path next h start (l1 ++ l2) fin <->
  exists mid, path next h start l1 mid /\ path next h mid l2 fin.
Proof.
  revert start. induction l1 as [|x l1 IH]; intros start; cbn.
  - split; [by exists start|]. by intros (mid & -> & ?).
  - split.
    + intros (-> & nd & Hx & (mid & H1 & H2)%IH). exists mid. eauto.
    + intros (mid & (-> & nd & Hx & H1) & H2). split; [done|]. exists nd. split; [done|]. apply IH. eauto.
Qed.

Lemma path_lookup next h start l fin x : path next h start l fin -> x ∈ l -> is_Some (h !! x).
Proof.
  intros H Hx. apply list_elem_of_split in Hx as (l1 & l2 & ->).
  apply path_app in H as (mid & _ & H). cbn in H. destruct H as (_ & nd & H & _). eauto.
Qed.

(** Two heaps with the same links. *)
Lemma path_frame next h h' start l fin :
  (forall x, x ∈ l -> next <$> h' !! x = next <$> h !! x) ->
  path next h start l fin -> path next h' start l fin.
Proof.
  revert start. induction l as [|x l IH]; intros start Hh; [done|]. cbn.
  intros (-> & nd & Hx & H). split; [done|].
  pose proof (Hh x (list_elem_of_here _ _)) as E. rewrite Hx in E.
  destruct (h' !! x) as [nd'|] eqn:Hx'; [|done]. injection E as E. exists nd'. split; [done|]. rewrite E.
  apply IH; [|done]. intros y Hy. apply Hh. by constructor.
Qed.

(** The link that leads to the node after [pre] is redirected. *)
Lemma path_redirect next h h' start pre y fin v nd :
  path next h start (pre ++ [y]) fin -> NoDup (pre ++ [y]) ->
  (forall x, x ∈ pre -> next <$> h' !! x = next <$> h !! x) ->
  h' !! y = Some nd -> next nd = v -> path next h' start (pre ++ [y]) v.
Proof.
  intros (mid & H1 & H2)%path_app Hn Hh Hy Hv. apply path_app. exists mid.
  destruct H2 as (-> & nd0 & Hy0 & <-). split; [|cbn; eauto].
  by eapply path_frame.
Qed.

Lemma NoDup_size (h : gmap nid node) l :
  NoDup l -> (forall x, x ∈ l -> is_Some (h !! x)) -> (length l <= size h)%nat.
Proof.
  intros Hn Hl. rewrite <- (size_list_to_set (C := gset nid) l Hn), <- (size_dom h).
  apply subseteq_size. intros x Hx. apply elem_of_list_to_set in Hx. by apply elem_of_dom, Hl.
Qed.

(** ** What the nodes represent *)

(** [l] are the nodes of the list. *)
Definition listed (s : index) (l : list nid) : Prop := chain n_next (i_nodes s) (i_pages s) l /\ NoDup l.

(** The nodes with property [P] are on the chains of their buckets, and their
    addresses differ. *)
Record hashed (s : index) (P : nid -> Prop) : Prop := {
  ha_chain : forall b, exists l, chain n_hash_next (i_nodes s) (i_buckets s !! b) l /\ NoDup l /\
    forall x, x ∈ l <-> P x /\ exists nd, i_nodes s !! x = Some nd /\ page_bucket (n_address nd) = b;
  ha_live : forall x, P x -> is_Some (i_nodes s !! x);
  ha_address : forall x y nd nd', P x -> P y -> i_nodes s !! x = Some nd -> i_nodes s !! y = Some nd' ->
    n_address nd = n_address nd' -> x = y }.

(** The live nodes are those with property [P]. *)
Definition live (s : index) (P : nid -> Prop) : Prop :=
  (forall x, is_Some (i_nodes s !! x) <-> P x) /\ (forall x, P x -> (x < i_allocs s)%nat).

(** The addresses and pages of the nodes [l]. *)
Definition node_entry (nd : node) : Z * page := (n_address nd, n_page nd).
Definition node_entries (s : index) (l : list nid) : list (Z * page) :=
  omap (fun x => node_entry <$> i_nodes s !! x) l.

Record represents (s : index) (l : list nid) (pm : gmap Z page) : Prop := {
  re_listed : listed s l;
  re_hashed : hashed s (.∈ l);
  re_live : live s (.∈ l);
  re_table : node_entries s l ≡ₚ map_to_list pm }.

(** Steps that change only [hash_next] fields and buckets, and only [next]
    fields and the head. *)
Definition unhashed (nd : node) := (n_address nd, n_page nd, n_next nd).
Definition unlinked (nd : node) := (n_address nd, n_page nd, n_hash_next nd).
Definition hash_step (s s' : index) : Prop :=
  i_pages s' = i_pages s /\ i_allocs s' = i_allocs s /\
  forall x, unhashed <$> i_nodes s' !! x = unhashed <$> i_nodes s !! x.
Definition list_step (s s' : index) : Prop :=
  i_buckets s' = i_buckets s /\ i_allocs s' = i_allocs s /\
  forall x, unlinked <$> i_nodes s' !! x = unlinked <$> i_nodes s !! x.

(** A field is the same when a tuple it is part of is. *)
Lemma fmap_part {B C} (f : node -> B) (g : B -> C) (o o' : option node) :
  f <$> o = f <$> o' -> (g ∘ f) <$> o = (g ∘ f) <$> o'.
Proof. intros H. by rewrite !option_fmap_compose, H. Qed.

Lemma fmap_eq_Some {B} (f : node -> B) (o o' : option node) nd :
  f <$> o' = f <$> o -> o = Some nd -> exists nd', o' = Some nd' /\ f nd' = f nd.
Proof. intros H ->. destruct o' as [nd'|]; [|done]. injection H as H. eauto. Qed.

Lemma fmap_eq_is_Some {B} (f : node -> B) (o o' : option node) :
  f <$> o' = f <$> o -> is_Some o' <-> is_Some o.
Proof. intros H. rewrite <- (fmap_is_Some f o'), H. apply fmap_is_Some. Qed.

Lemma hashed_ext s P Q : (forall x, P x <-> Q x) -> hashed s P -> hashed s Q.
Proof.
  intros H [Hc Hl Ha]. split.
  - intros b. destruct (Hc b) as (l & ? & ? & Hx). exists l. split_and!; [done..|].
    intros x. by rewrite Hx, H.
  - intros x Hx. by apply Hl, H.
  - intros x y nd nd' Hx Hy. apply Ha; by apply H.
Qed.

Lemma live_ext s P Q : (forall x, P x <-> Q x) -> live s P -> live s Q.
Proof. intros H [Hl Hf]. split; intros x; [by rewrite Hl, H|]. intros Hx. by apply Hf, H. Qed.

Lemma hash_step_refl s : hash_step s s.
Proof. by split_and!. Qed.
Lemma list_step_refl s : list_step s s.
Proof. by split_and!. Qed.
Lemma list_step_trans s1 s2 s3 : list_step s1 s2 -> list_step s2 s3 -> list_step s1 s3.
Proof. intros (? & ? & H) (? & ? & H'). split_and!; [congruence..|]. intros x. by rewrite H', H. Qed.

(** What the two kinds of step leave alone. *)
Lemma hash_step_path s s' start l fin :
  hash_step s s' -> path n_next (i_nodes s) start l fin -> path n_next (i_nodes s') start l fin.
Proof. intros (_ & _ & H). apply path_frame. intros x _. exact (fmap_part unhashed snd _ _ (H x)). Qed.

Lemma hash_step_listed s s' l : hash_step s s' -> listed s l -> listed s' l.
Proof. intros H [Hc Hn]. split; [|done]. rewrite (proj1 H). by eapply hash_step_path. Qed.

Lemma list_step_hashed s s' P : list_step s s' -> hashed s P -> hashed s' P.
Proof.
  intros (Hb & _ & H) [Hc Hl Ha].
  assert (forall x nd', i_nodes s' !! x = Some nd' -> exists nd, i_nodes s !! x = Some nd /\ n_address nd = n_address nd') as Hback.
  { intros x nd' Hx. destruct (fmap_eq_Some unlinked _ _ _ (eq_sym (H x)) Hx) as (nd & Hnd & E).
    exists nd. split; [done|]. by injection E. }
  split.
  - intros b. destruct (Hc b) as (l & Hch & Hn & Hx). exists l. split_and!; [|done|].
    + rewrite Hb. eapply path_frame; [|done]. intros x _. exact (fmap_part unlinked snd _ _ (H x)).
    + intros x. rewrite Hx. split; intros [HP (nd & Hnd & E)]; split; [done| |done|].
      * destruct (fmap_eq_Some unlinked _ _ _ (H x) Hnd) as (nd' & Hnd' & E'). exists nd'. split; [done|].
        injection E' as E' _ _. by rewrite E'.
      * destruct (Hback _ _ Hnd) as (nd0 & Hnd0 & E'). exists nd0. split; [done|]. by rewrite E'.
  - intros x Hx. by apply (fmap_eq_is_Some unlinked _ _ (H x)), Hl.
  - intros x y nd nd' Hx Hy Hnd Hnd' E.
    destruct (Hback _ _ Hnd) as (nd0 & Hnd0 & E0), (Hback _ _ Hnd') as (nd1 & Hnd1 & E1).
    apply (Ha x y nd0 nd1); congruence.
Qed.

Lemma step_live {B} (f : node -> B) s s' P :
  i_allocs s' = i_allocs s -> (forall x, f <$> i_nodes s' !! x = f <$> i_nodes s !! x) ->
  live s P -> live s' P.
Proof.
  intros Ha H [Hl Hf]. split; [|by rewrite Ha]. intros x. by rewrite (fmap_eq_is_Some f _ _ (H x)).
Qed.

Lemma hash_step_live s s' P : hash_step s s' -> live s P -> live s' P.
Proof. intros (_ & Ha & H). by apply (step_live unhashed). Qed.
Lemma list_step_live s s' P : list_step s s' -> live s P -> live s' P.
Proof. intros (_ & Ha & H). by apply (step_live unlinked). Qed.

Lemma node_entries_ext s s' l :
  (forall x, x ∈ l -> node_entry <$> i_nodes s' !! x = node_entry <$> i_nodes s !! x) -> node_entries s' l = node_entries s l.
Proof.
  induction l as [|x l IH]; intros H; [done|]. cbn.
  rewrite (H x (list_elem_of_here _ _)). unfold node_entries in IH.
  rewrite IH; [done|]. intros y Hy. apply H. by constructor.
Qed.

Lemma hash_step_entries s s' l : hash_step s s' -> node_entries s' l = node_entries s l.
Proof. intros (_ & _ & H). apply node_entries_ext. intros x _. exact (fmap_part unhashed fst _ _ (H x)). Qed.
Lemma list_step_entries s s' l : list_step s s' -> node_entries s' l = node_entries s l.
Proof. intros (_ & _ & H). apply node_entries_ext. intros x _. exact (fmap_part unlinked fst _ _ (H x)). Qed.

Lemma node_entries_app s l1 l2 : node_entries s (l1 ++ l2) = node_entries s l1 ++ node_entries s l2.
Proof. apply omap_app. Qed.

Lemma node_entries_cons s x nd l : i_nodes s !! x = Some nd -> node_entries s (x :: l) = node_entry nd :: node_entries s l.
Proof. intros H. unfold node_entries. cbn. by rewrite H. Qed.

Lemma elem_of_node_entries s l a p :
  (a, p) ∈ node_entries s l <-> exists x nd, x ∈ l /\ i_nodes s !! x = Some nd /\ n_address nd = a /\ n_page nd = p.
Proof.
  unfold node_entries. rewrite list_elem_of_omap. split.
  - intros (x & Hx & E). destruct (i_nodes s !! x) as [nd|] eqn:Hnd; [|done]. injection E as <- <-. eauto 7.
  - intros (x & nd & Hx & Hnd & <- & <-). exists x. by rewrite Hnd.
Qed.

(** ** [at] finds the node of an address *)

Definition found (s : index) (P : nid -> Prop) (a : Z) (r : option nid) : Prop :=
  match r with
  | Some x => P x /\ exists nd, i_nodes s !! x = Some nd /\ n_address nd = a
  | None => forall x nd, P x -> i_nodes s !! x = Some nd -> n_address nd <> a
  end.

Lemma at_chain_found fuel s start l a :
  chain n_hash_next (i_nodes s) start l -> (length l < fuel)%nat ->
  exists r, at_chain fuel s start a = Ok r /\ found s (.∈ l) a r.
Proof.
  revert start fuel. induction l as [|x l IH]; intros start [|fuel] Hc Hf; cbn in Hf; try lia.
  - cbn in Hc. subst. exists None. split; [done|]. intros x nd []%elem_of_nil.
  - destruct Hc as (-> & nd & Hx & Hc). cbn. unfold deref. rewrite Hx. cbn.
    destruct (Z.eqb_spec (n_address nd) a) as [E|E].
    + exists (Some x). split; [done|]. split; [constructor|]. eauto.
    + destruct (IH _ fuel Hc) as (r & -> & Hr); [lia|]. exists r. split; [done|].
      destruct r as [y|]; cbn in *.
      * destruct Hr as [Hy Hr]. split; [by constructor|done].
      * intros y nd' [->|Hy]%elem_of_cons Hnd'; [congruence|by apply (Hr y)].
Qed.

Lemma at_node_found s P a : hashed s P -> exists r, at_node s a = Ok r /\ found s P a r.
Proof.
  intros [Hc Hl Ha]. destruct (Hc (page_bucket a)) as (l & Hch & Hn & Hx).
  destruct (at_chain_found (walk_fuel s) s _ l a Hch) as (r & Hr & Hf).
  { unfold walk_fuel. pose proof (NoDup_size (i_nodes s) l Hn) as Hs.
    assert (length l <= size (i_nodes s))%nat; [apply Hs; intros x HP; eapply Hl, Hx, HP|lia]. }
  exists r. split; [done|]. destruct r as [x|]; cbn in *.
  - destruct Hf as [HP Hf]. split; [by apply Hx|done].
  - intros x nd HP Hnd E. apply (Hf x nd); [|done..]. apply Hx. split; [done|]. exists nd. by rewrite E.
Qed.

(** The answer in terms of the map. *)
Lemma at_node_table s l pm a :
  represents s l pm ->
  exists r, at_node s a = Ok r /\
    match r with
    | Some x => x ∈ l /\ exists nd, i_nodes s !! x = Some nd /\ n_address nd = a /\ pm !! a = Some (n_page nd)
    | None => pm !! a = None
    end.
Proof.
  intros [_ Hh _ Ht]. destruct (at_node_found s _ a Hh) as (r & Hr & Hf). exists r. split; [done|].
  assert (forall p, pm !! a = Some p <-> (a, p) ∈ node_entries s l) as Hpm.
  { intros p. by rewrite <- elem_of_map_to_list, <- Ht. }
  destruct r as [x|]; cbn in *.
  - destruct Hf as (HP & nd & Hx & E). split; [done|]. exists nd. split_and!; [done..|].
    apply Hpm, elem_of_node_entries. eauto 7.
  - apply eq_None_not_Some. intros [p (x & nd & HP & Hx & E & _)%Hpm%elem_of_node_entries]. by apply (Hf x nd).
Qed.

(** ** [index_page] and [unindex_page] *)

(** [hashed] after a step, with the addresses read before it. *)
Lemma hashed_after s s' (P : nid -> Prop) :
  hash_step s s' ->
  (forall b, exists l, chain n_hash_next (i_nodes s') (i_buckets s' !! b) l /\ NoDup l /\
    forall x, x ∈ l <-> P x /\ exists nd, i_nodes s !! x = Some nd /\ page_bucket (n_address nd) = b) ->
  (forall x, P x -> is_Some (i_nodes s !! x)) ->
  (forall x y nd nd', P x -> P y -> i_nodes s !! x = Some nd -> i_nodes s !! y = Some nd' ->
    n_address nd = n_address nd' -> x = y) -> hashed s' P.
Proof.
  intros (_ & _ & H) Hc Hl Ha.
  assert (forall x nd', i_nodes s' !! x = Some nd' -> exists nd, i_nodes s !! x = Some nd /\ n_address nd = n_address nd') as Hback.
  { intros x nd' Hx. destruct (fmap_eq_Some unhashed _ _ _ (eq_sym (H x)) Hx) as (nd & Hnd & E).
    exists nd. split; [done|]. by injection E. }
  split.
  - intros b. destruct (Hc b) as (l & Hch & Hn & Hx). exists l. split_and!; [done..|].
    intros x. rewrite Hx. split; intros [HP (nd & Hnd & E)]; split; [done| |done|].
    + destruct (fmap_eq_Some unhashed _ _ _ (H x) Hnd) as (nd' & Hnd' & E'). exists nd'. split; [done|].
      injection E' as E' _ _. by rewrite E'.
    + destruct (Hback _ _ Hnd) as (nd0 & Hnd0 & E'). exists nd0. split; [done|]. by rewrite E'.
  - intros x Hx. by apply (fmap_eq_is_Some unhashed _ _ (H x)), Hl.
  - intros x y nd nd' Hx Hy Hnd Hnd' E.
    destruct (Hback _ _ Hnd) as (nd0 & Hnd0 & E0), (Hback _ _ Hnd') as (nd1 & Hnd1 & E1).
    apply (Ha x y nd0 nd1); congruence.
Qed.

(** A change of one node's [hash_next]. *)
Lemma set_hash_next s x nd v :
  i_nodes s !! x = Some nd -> hash_step s (set_node s x (with_hash_next nd v)).
Proof.
  intros Hx. split_and!; [done..|]. intros y. cbn. destruct (decide (y = x)) as [->|E].
  - by rewrite lookup_insert_eq, Hx.
  - by rewrite lookup_insert_ne.
Qed.

Lemma set_bucket_step s b v : hash_step s (set_bucket s b v).
Proof. by split_and!. Qed.

Lemma hash_step_trans s1 s2 s3 : hash_step s1 s2 -> hash_step s2 s3 -> hash_step s1 s3.
Proof. intros (? & ? & H) (? & ? & H'). split_and!; [congruence..|]. intros x. by rewrite H', H. Qed.

(** Chains that do not pass through the node are as before. *)
Lemma path_insert next h start l fin x nd :
  x ∉ l -> path next h start l fin -> path next (<[x := nd]> h) start l fin.
Proof.
  intros Hx. apply path_frame. intros y Hy. rewrite lookup_insert_ne; [done|]. by intros ->.
Qed.

Lemma index_page_spec s P x nd :
  hashed s P -> ~ P x -> i_nodes s !! x = Some nd ->
  (forall y nd', P y -> i_nodes s !! y = Some nd' -> n_address nd' <> n_address nd) ->
  exists s', index_page s x = Ok s' /\ hash_step s s' /\ hashed s' (fun y => y = x \/ P y).
Proof.
  intros [Hc Hl Ha] Hx Hnd Hfresh. unfold index_page, deref. rewrite Hnd. cbn [mbind result_bind].
  set (b0 := page_bucket (n_address nd)). eexists. split; [reflexivity|].
  assert (hash_step s (set_bucket (set_node s x (with_hash_next nd (i_buckets s !! b0))) b0 (Some x))) as Hs.
  { eapply hash_step_trans; [by apply set_hash_next|apply set_bucket_step]. }
  split; [exact Hs|]. apply (hashed_after _ _ _ Hs).
  - intros b. destruct (Hc b) as (l & Hch & Hn & Hm). cbn [set_bucket set_node set_nodes i_nodes i_buckets].
    assert (x ∉ l) as Hxl by (intros [? _]%Hm; done).
    destruct (decide (b = b0)) as [->|Hb].
    + exists (x :: l). split_and!; [|by constructor|].
      * cbn. rewrite lookup_partial_alter_eq. split; [done|].
        exists (with_hash_next nd (i_buckets s !! b0)). rewrite lookup_insert_eq. split; [done|].
        cbn. by apply path_insert.
      * intros y. rewrite elem_of_cons, Hm. split.
        -- intros [->|[HP ?]]; split; [by left|eauto|by right|done].
        -- intros [[->|HP] ?]; [by left|by right].
    + exists l. split_and!; [|done|].
      * rewrite lookup_partial_alter_ne by done. by apply path_insert.
      * intros y. rewrite Hm. split; [intros [? ?]; split; [by right|done]|].
        intros [[->|HP] (nd' & Hy & E)]; [destruct Hb; unfold b0; congruence|eauto].
  - intros y [->|HP]; [eauto|by apply Hl].
  - intros y z nd1 nd2 [->|Hy] [->|Hz] H1 H2 E.
    + done.
    + rewrite Hnd in H1. injection H1 as <-. by destruct (Hfresh z nd2 Hz H2).
    + rewrite Hnd in H2. injection H2 as <-. by destruct (Hfresh y nd1 Hy H1).
    + by apply (Ha y z nd1 nd2).
Qed.

Lemma find_hash_link_spec fuel s link v pre x post :
  read_hash_link s link = Ok v -> chain n_hash_next (i_nodes s) v (pre ++ x :: post) -> x ∉ pre ->
  (length pre < fuel)%nat ->
  find_hash_link fuel s link x = Ok (match last pre with None => link | Some y => HashNextLink y end).
Proof.
  revert fuel link v. induction pre as [|y pre IH]; intros [|fuel] link v Hr Hc Hx Hf; cbn in Hf; try lia;
    cbn [find_hash_link]; rewrite Hr; cbn [mbind result_bind].
  - destruct Hc as (-> & _). by rewrite decide_True.
  - destruct Hc as (-> & nd & Hy & Hc). apply not_elem_of_cons in Hx as [Hxy Hx].
    rewrite decide_False by congruence.
    rewrite (IH fuel (HashNextLink y) (n_hash_next nd)); [|cbn; unfold deref; by rewrite Hy|done|done|lia].
    destruct pre as [|z pre]; [done|]. rewrite last_cons_cons.
    destruct (last (z :: pre)) eqn:E; [done|by apply last_None in E].
Qed.

Lemma last_snoc_cases {A} (l : list A) : l = [] \/ exists l' x, l = l' ++ [x] /\ last l = Some x.
Proof.
  destruct l as [|x l _] using rev_ind; [by left|right]. exists l, x. by rewrite last_snoc.
Qed.

(** The step of [unindex_page] that takes the node off its chain. *)
Lemma write_hash_link_spec s b start pre x nd post link :
  i_buckets s !! b = start -> chain n_hash_next (i_nodes s) start (pre ++ x :: post) ->
  NoDup (pre ++ x :: post) -> i_nodes s !! x = Some nd ->
  link = (match last pre with None => BucketLink b | Some y => HashNextLink y end) ->
  read_hash_link s link = Ok (Some x) /\
  exists s', write_hash_link s link (n_hash_next nd) = Ok s' /\ hash_step s s' /\
    i_nodes s' !! x = Some nd /\
    (forall b', b' <> b -> i_buckets s' !! b' = i_buckets s !! b') /\
    (forall y, y ∉ pre -> i_nodes s' !! y = i_nodes s !! y) /\
    chain n_hash_next (i_nodes s') (i_buckets s' !! b) (pre ++ post).
Proof.
  intros Hb (mid & H1 & H2)%path_app Hn Hx ->. cbn in H2. destruct H2 as (-> & nd' & Hx' & H2).
  rewrite Hx in Hx'. injection Hx' as <-.
  destruct (last_snoc_cases pre) as [->|(pre' & y & -> & ->)].
  - cbn in H1. cbn [last read_hash_link write_hash_link]. rewrite Hb, H1. split; [done|].
    eexists. split; [reflexivity|]. split_and!; [apply set_bucket_step|done|..].
    + intros b' Hb'. cbn. by rewrite lookup_partial_alter_ne.
    + done.
    + cbn. by rewrite lookup_partial_alter_eq.
  - cbn [read_hash_link write_hash_link]. apply path_app in H1 as (mid & H1 & Hy).
    destruct Hy as (-> & ndy & Hy & Hnext). unfold deref. rewrite Hy. cbn [mbind result_bind].
    rewrite Hnext. split; [done|]. eexists. split; [reflexivity|].
    assert (x <> y /\ y ∉ post /\ y ∉ pre') as (Hxy & Hyp & Hyq).
    { apply NoDup_app in Hn as (Hn & Hd & [Hxp Hn']%NoDup_cons). apply NoDup_app in Hn as (_ & Hd' & _).
      split_and!.
      - intros ->. apply (Hd y); [|constructor]. apply elem_of_app. right. constructor.
      - intros ?. apply (Hd y); [|by constructor]. apply elem_of_app. right. constructor.
      - intros ?. apply (Hd' y); [done|constructor]. }
    split_and!; [by apply set_hash_next|..].
    + cbn. by rewrite lookup_insert_ne.
    + done.
    + intros z Hz. cbn. rewrite lookup_insert_ne; [done|]. intros ->. apply Hz, elem_of_app. right. constructor.
    + cbn. rewrite Hb. apply path_app. exists (n_hash_next nd). split; [|by apply path_insert].
      apply path_app. exists (Some y). split; [by apply path_insert|]. split; [done|].
      exists (with_hash_next ndy (n_hash_next nd)). by rewrite lookup_insert_eq.
Qed.

Lemma unindex_page_spec s P x nd :
  hashed s P -> P x -> i_nodes s !! x = Some nd ->
  exists s', unindex_page s x = Ok s' /\ hash_step s s' /\ hashed s' (fun y => P y /\ y <> x).
Proof.
  intros [Hc Hl Ha] HP Hnd. set (b0 := page_bucket (n_address nd)).
  destruct (Hc b0) as (l & Hch & Hn & Hm).
  assert (x ∈ l) as Hx by (apply Hm; split; [done|by exists nd]).
  pose proof (NoDup_size (i_nodes s) l Hn ltac:(intros y Hy; eapply Hl, Hm, Hy)) as Hsize.
  apply list_elem_of_split in Hx as (pre & post & ->).
  assert (x ∉ pre ++ post) as Hxl.
  { intros [H|H]%elem_of_app; apply NoDup_app in Hn as (_ & Hd & [Hp _]%NoDup_cons); [|done].
    apply (Hd x H). constructor. }
  assert (x ∉ pre) as Hxp by (intros H; apply Hxl, elem_of_app; by left).
  destruct (write_hash_link_spec s b0 _ pre x nd post _ eq_refl Hch Hn Hnd eq_refl)
    as (Hread & s1 & Hw & Hs1 & Hnd1 & Hb1 & Hh1 & Hch1).
  unfold unindex_page, deref. rewrite Hnd. cbn [mbind result_bind]. fold b0.
  rewrite (find_hash_link_spec _ s (BucketLink b0) _ pre x post eq_refl Hch Hxp);
    [|unfold walk_fuel; rewrite length_app in Hsize; lia].
  cbn [mbind result_bind]. rewrite Hread. cbn [mbind result_bind].
  rewrite Hw. cbn [mbind result_bind]. rewrite Hnd1.
  cbn [mbind result_bind]. eexists. split; [reflexivity|].
  assert (hash_step s (set_node s1 x (with_hash_next nd None))) as Hs.
  { eapply hash_step_trans; [exact Hs1|]. by apply set_hash_next. }
  split; [exact Hs|]. apply (hashed_after _ _ _ Hs).
  - intros b. cbn [set_node set_nodes i_nodes i_buckets]. destruct (decide (b = b0)) as [->|Hb].
    + exists (pre ++ post). split_and!.
      * by apply path_insert.
      * apply NoDup_app in Hn as (Hn & Hd & [_ Hn']%NoDup_cons). apply NoDup_app. split_and!; [done| |done].
        intros y Hy Hy'. apply (Hd y Hy). by constructor.
      * intros y. specialize (Hm y). rewrite elem_of_app, elem_of_cons in Hm. rewrite elem_of_app. split.
        -- intros H. destruct Hm as [[HPy ?] _]; [tauto|]. split; [|done]. split; [done|].
           intros ->. apply Hxl. by apply elem_of_app.
        -- intros [[HPy Hyx] ?]. destruct Hm as [_ [?|[->|?]]]; [done|by left|done|by right].
    + destruct (Hc b) as (l' & Hch' & Hn' & Hm'). exists l'.
      assert (x ∉ l') as Hxl'.
      { intros [_ (nd' & E & Eb)]%Hm'. destruct Hb. unfold b0. congruence. }
      split_and!; [|done|].
      * apply path_insert; [done|]. rewrite Hb1 by done.
        eapply path_frame; [|exact Hch']. intros y Hy. f_equal. apply Hh1.
        intros Hyp. destruct Hb. destruct (Hm y) as [[_ (nd1 & E1 & B1)] _]; [by apply elem_of_app; left|].
        apply Hm' in Hy as [_ (nd2 & E2 & B2)]. congruence.
      * intros y. rewrite Hm'. split; [|tauto]. intros [HPy H]. split; [|done]. split; [done|].
        intros ->. apply Hxl', Hm'. done.
  - intros y [HPy _]. by apply Hl.
  - intros y z nd1 nd2 [Hy _] [Hz _]. by apply Ha.
Qed.

(** ** [remove_pages] *)

(** The link after the nodes that have been kept. *)
Definition link_after (kept : list nid) : list_link :=
  match last kept with None => HeadLink | Some y => NextLink y end.

Lemma read_link_after s kept cur :
  path n_next (i_nodes s) (i_pages s) kept cur -> read_list_link s (link_after kept) = Ok cur.
Proof.
  intros H. unfold link_after. destruct (last_snoc_cases kept) as [->|(l & y & -> & ->)]; [cbn in *; congruence|].
  apply path_app in H as (mid & _ & -> & nd & Hy & <-). cbn. unfold deref. by rewrite Hy.
Qed.

(** Unlinking the next node from the list. *)
Lemma write_link_after s kept cur x nd :
  path n_next (i_nodes s) (i_pages s) kept cur -> NoDup kept -> x ∉ kept -> i_nodes s !! x = Some nd ->
  exists s', write_list_link s (link_after kept) (n_next nd) = Ok s' /\ list_step s s' /\
    i_nodes s' !! x = Some nd /\ (forall y, y ∉ kept -> i_nodes s' !! y = i_nodes s !! y) /\
    path n_next (i_nodes s') (i_pages s') kept (n_next nd).
Proof.
  intros H Hn Hx Hnd. unfold link_after. destruct (last_snoc_cases kept) as [->|(l & y & -> & ->)].
  - cbn [write_list_link]. eexists. split; [reflexivity|]. cbn. by split_and!.
  - cbn [write_list_link]. pose proof H as (mid & _ & _ & ndy & Hy & _)%path_app.
    unfold deref. rewrite Hy. cbn [mbind result_bind]. eexists. split; [reflexivity|].
    assert (x <> y) as Hxy by (intros ->; apply Hx, elem_of_app; right; constructor).
    split_and!; try done.
    + split_and!; [done..|]. intros z. cbn. destruct (decide (z = y)) as [->|E].
      * by rewrite lookup_insert_eq, Hy.
      * by rewrite lookup_insert_ne.
    + cbn. by rewrite lookup_insert_ne.
    + intros z Hz. cbn. rewrite lookup_insert_ne; [done|]. intros ->. apply Hz, elem_of_app. right. constructor.
    + cbn. eapply path_redirect; [exact H|done| |by rewrite lookup_insert_eq|done].
      intros z Hz. rewrite lookup_insert_ne; [done|]. intros ->.
      apply NoDup_app in Hn as (_ & Hd & _). apply (Hd z Hz). constructor.
Qed.

(** Only nodes without property [P] change. *)
Lemma hashed_frame s s' (P : nid -> Prop) :
  i_buckets s' = i_buckets s -> (forall x, P x -> i_nodes s' !! x = i_nodes s !! x) ->
  hashed s P -> hashed s' P.
Proof.
  intros Hb Hh [Hc Hl Ha]. split.
  - intros b. destruct (Hc b) as (l & Hch & Hn & Hm). exists l. split_and!; [|done|].
    + rewrite Hb. eapply path_frame; [|exact Hch]. intros y Hy. f_equal. apply Hh. by apply Hm in Hy as [? _].
    + intros y. rewrite Hm. split; intros [HP E]; split; try done; by rewrite Hh in *.
  - intros y Hy. rewrite Hh by done. by apply Hl.
  - intros y z nd1 nd2 Hy Hz. rewrite !Hh by done. by apply Ha.
Qed.

Lemma listed_frame s s' l :
  i_pages s' = i_pages s -> (forall x, x ∈ l -> i_nodes s' !! x = i_nodes s !! x) -> listed s l -> listed s' l.
Proof.
  intros Hp Hh [Hc Hn]. split; [|done]. rewrite Hp. eapply path_frame; [|exact Hc].
  intros x Hx. f_equal. by apply Hh.
Qed.

(** Freeing a node nothing refers to any more. *)
Lemma free_node_spec s P x :
  hashed s P -> ~ P x -> is_Some (i_nodes s !! x) ->
  let s' := set_nodes s (delete x (i_nodes s)) in free_node s x = Ok s' /\ hashed s' P.
Proof.
  intros Hh Hx [nd Hnd] s'. unfold free_node, deref. rewrite Hnd. split; [done|].
  eapply hashed_frame; [| |exact Hh]; [done|]. intros y Hy. cbn. rewrite lookup_delete_ne; [done|]. by intros ->.
Qed.

Lemma live_free s P x :
  live s P -> live (set_nodes s (delete x (i_nodes s))) (fun y => P y /\ y <> x).
Proof.
  intros [Hl Hf]. split; [|intros y [HP _]; by apply Hf]. intros y. cbn. destruct (decide (y = x)) as [->|E].
  - rewrite lookup_delete_eq. split; [by intros []|tauto].
  - rewrite lookup_delete_ne by done. rewrite Hl. tauto.
Qed.

Lemma filter_in_range_cons a n nd (l : list (Z * page)) :
  filter (fun e => address_in_range a n e.1 = true) (node_entry nd :: l) =
  if address_in_range a n (n_address nd) then node_entry nd :: filter (fun e => address_in_range a n e.1 = true) l
  else filter (fun e => address_in_range a n e.1 = true) l.
Proof.
  destruct (address_in_range a n (n_address nd)) eqn:E; [by rewrite filter_cons_True|].
  rewrite filter_cons_False; [done|]. cbn. congruence.
Qed.
Lemma filter_out_of_range_cons a n nd (l : list (Z * page)) :
  filter (fun e => address_in_range a n e.1 = false) (node_entry nd :: l) =
  if address_in_range a n (n_address nd) then filter (fun e => address_in_range a n e.1 = false) l
  else node_entry nd :: filter (fun e => address_in_range a n e.1 = false) l.
Proof.
  destruct (address_in_range a n (n_address nd)) eqn:E; [|by rewrite filter_cons_True].
  rewrite filter_cons_False; [done|]. cbn. congruence.
Qed.

(** One round that removes a node: off the list, off its chain, freed. *)
Lemma remove_one s kept x nd rest :
  path n_next (i_nodes s) (i_pages s) kept (Some x) -> i_nodes s !! x = Some nd ->
  chain n_next (i_nodes s) (n_next nd) rest -> NoDup (kept ++ x :: rest) ->
  hashed s (.∈ kept ++ x :: rest) -> live s (.∈ kept ++ x :: rest) ->
  exists s1 s2 s3, write_list_link s (link_after kept) (n_next nd) = Ok s1 /\ unindex_page s1 x = Ok s2 /\
    free_node s2 x = Ok s3 /\
    path n_next (i_nodes s3) (i_pages s3) kept (n_next nd) /\ chain n_next (i_nodes s3) (n_next nd) rest /\
    hashed s3 (.∈ kept ++ rest) /\ live s3 (.∈ kept ++ rest) /\
    (forall l, x ∉ l -> node_entries s3 l = node_entries s l) /\ i_allocs s3 = i_allocs s.
Proof.
  intros Hk Hnd Hr Hn Hh Hl.
  assert (x ∉ kept /\ x ∉ rest /\ NoDup kept /\ (forall y, y ∈ rest -> y ∉ kept)) as (Hxk & Hxr & Hnk & Hrk).
  { apply NoDup_app in Hn as (Hn & Hd & [Hx _]%NoDup_cons). split_and!; try done.
    - intros H. apply (Hd x H). constructor.
    - intros y Hy H. apply (Hd y H). by constructor. }
  destruct (write_link_after s kept _ x nd Hk Hnk Hxk Hnd) as (s1 & Hw & Hs1 & Hnd1 & Hh1 & Hk1).
  destruct (unindex_page_spec s1 _ x nd (list_step_hashed _ _ _ Hs1 Hh)) as (s2 & Hu & Hs2 & Hha2); [|done|].
  { apply elem_of_app. right. constructor. }
  destruct (free_node_spec s2 _ x Hha2) as [Hf Hha3]; [tauto| |].
  { apply (fmap_eq_is_Some unhashed _ _ (proj2 (proj2 Hs2) x)). by rewrite Hnd1. }
  assert (forall y, y ∈ kept ++ rest <-> y ∈ kept ++ x :: rest /\ y <> x) as Hmem.
  { intros y. rewrite !elem_of_app, elem_of_cons. split; [|tauto].
    intros H. split; [tauto|]. intros ->. tauto. }
  eexists s1, s2, _. split_and!; [exact Hw|exact Hu|exact Hf|..].
  - cbn. rewrite (proj1 Hs2). eapply path_frame; [|apply (hash_step_path _ _ _ _ _ Hs2), Hk1].
    intros y Hy. rewrite lookup_delete_ne; [done|]. by intros ->.
  - cbn. eapply path_frame with (h := i_nodes s2).
    + intros y Hy. rewrite lookup_delete_ne; [done|]. by intros ->.
    + apply (hash_step_path _ _ _ _ _ Hs2). eapply path_frame; [|exact Hr]. intros y Hy.
      rewrite Hh1; [done|]. by apply Hrk.
  - eapply hashed_ext; [|exact Hha3]. intros y. by rewrite Hmem.
  - eapply live_ext; [|eapply live_free, (hash_step_live _ _ _ Hs2), (list_step_live _ _ _ Hs1), Hl].
    intros y. by rewrite Hmem.
  - intros l Hx. rewrite <- (list_step_entries _ _ l Hs1), <- (hash_step_entries _ _ l Hs2).
    apply node_entries_ext. intros y Hy. cbn. rewrite lookup_delete_ne; [done|]. by intros ->.
  - cbn. rewrite (proj1 (proj2 Hs2)). apply (proj1 (proj2 Hs1)).
Qed.

Lemma remove_loop_spec a n rest : forall fuel s kept cur,
  path n_next (i_nodes s) (i_pages s) kept cur -> chain n_next (i_nodes s) cur rest ->
  NoDup (kept ++ rest) -> hashed s (.∈ kept ++ rest) -> live s (.∈ kept ++ rest) ->
  (length rest < fuel)%nat ->
  exists s' l, remove_loop fuel s (link_after kept) a n
      = Ok (s', filter (fun e => address_in_range a n e.1 = true) (node_entries s rest)) /\
    listed s' (kept ++ l) /\ hashed s' (.∈ kept ++ l) /\ live s' (.∈ kept ++ l) /\
    node_entries s' (kept ++ l) = node_entries s kept ++ filter (fun e => address_in_range a n e.1 = false) (node_entries s rest).
Proof.
  induction rest as [|x rest IH]; intros [|fuel] s kept cur Hk Hr Hn Hh Hl Hf; cbn in Hf; try lia;
    cbn [remove_loop]; rewrite (read_link_after s kept cur Hk); cbn [mbind result_bind].
  - cbn in Hr. subst. exists s, []. split; [done|]. rewrite app_nil_r in *. cbn [node_entries omap list_omap filter list_filter]. rewrite app_nil_r. by split_and!.
  - destruct Hr as (-> & nd & Hnd & Hr). unfold deref at 1. rewrite Hnd. cbn [mbind result_bind].
    rewrite (node_entries_cons s x nd rest Hnd), filter_in_range_cons, filter_out_of_range_cons.
    destruct (address_in_range a n (n_address nd)).
    + destruct (remove_one s kept x nd rest Hk Hnd Hr Hn Hh Hl)
        as (s1 & s2 & s3 & -> & Hu & Hfr & Hk3 & Hr3 & Hh3 & Hl3 & He3 & _).
      cbn [mbind result_bind]. rewrite Hu. cbn [mbind result_bind]. rewrite Hfr. cbn [mbind result_bind].
      apply NoDup_app in Hn as (Hnk & Hd & [Hxr Hnr]%NoDup_cons).
      assert (x ∉ kept) as Hxk by (intros H; apply (Hd x H); constructor).
      destruct (IH fuel s3 kept (n_next nd) Hk3 Hr3) as (s' & l & Hrun & Hls & Hha & Hli & He); [|done|done|lia|].
      { apply NoDup_app. split_and!; [done| |done]. intros y Hy Hy'. apply (Hd y Hy). by constructor. }
      rewrite Hrun. cbn [mbind result_bind]. exists s', l. rewrite !He3 in * by done. done.
    + assert (forall l, (kept ++ [x]) ++ l = kept ++ x :: l) as Happ by (intros; by rewrite <- app_assoc).
      rewrite <- Happ in Hn, Hh, Hl.
      replace (NextLink x) with (link_after (kept ++ [x])) by (unfold link_after; by rewrite last_snoc).
      destruct (IH fuel s (kept ++ [x]) (n_next nd)) as (s' & l & Hrun & Hls & Hha & Hli & He); try done; [|lia|].
      { apply path_app. exists (Some x). split; [done|]. split; [done|]. by exists nd. }
      exists s', (x :: l). rewrite <- (Happ l). split_and!; try done.
      rewrite He, node_entries_app, (node_entries_cons s x nd [] Hnd), <- app_assoc. done.
Qed.

Lemma live_length s l : live s (.∈ l) -> NoDup l -> (length l < walk_fuel s)%nat.
Proof.
  intros [Hl _] Hn. unfold walk_fuel. pose proof (NoDup_size (i_nodes s) l Hn) as H.
  assert (length l <= size (i_nodes s))%nat; [apply H; intros x Hx; by apply Hl|lia].
Qed.

Lemma Permutation_filter_map (P : Z * page -> Prop) `{!forall e, Decision (P e)} (pm : gmap Z page) l :
  l ≡ₚ map_to_list pm -> filter P l ≡ₚ map_to_list (filter P pm).
Proof.
  intros ->. rewrite map_filter_alt. rewrite map_to_list_to_map; [done|].
  eapply sublist_NoDup; [apply (NoDup_fst_map_to_list pm)|]. apply fmap_sublist, sublist_filter.
Qed.

Definition kept_pages (a n : Z) (pm : gmap Z page) : gmap Z page := filter (fun e => address_in_range a n e.1 = false) pm.
Definition removed_pages (a n : Z) (pm : gmap Z page) : gmap Z page := filter (fun e => address_in_range a n e.1 = true) pm.

Lemma remove_nodes_spec s l pm a n :
  represents s l pm ->
  exists s' l' dropped, remove_nodes s a n = Ok (s', dropped) /\
    represents s' l' (kept_pages a n pm) /\ dropped ≡ₚ map_to_list (removed_pages a n pm).
Proof.
  intros [[Hc Hn] Hh Hl Ht].
  destruct (remove_loop_spec a n l (walk_fuel s) s [] (i_pages s)) as (s' & l' & Hrun & Hls & Hha & Hli & He);
    [done|done|done|done|done|by apply live_length|].
  eexists s', l', _. split; [exact Hrun|]. cbn [app] in *. split.
  - split; [done..|]. rewrite He. by apply Permutation_filter_map.
  - by apply Permutation_filter_map.
Qed.

(** ** Adding pages *)

Lemma build_list_spec calloc pages : forall s head ext l,
  chain n_next (i_nodes s) head ext -> live s (.∈ ext ++ l) -> NoDup (ext ++ l) ->
  exists s' new, build_list calloc s head pages
      = (s', match new with x :: _ => Some x | [] => head end, forallb calloc (seq (i_allocs s) (length pages))) /\
    i_pages s' = i_pages s /\ i_buckets s' = i_buckets s /\
    (forall x, x ∈ ext ++ l -> i_nodes s' !! x = i_nodes s !! x) /\
    chain n_next (i_nodes s') (match new with x :: _ => Some x | [] => head end) (new ++ ext) /\
    live s' (.∈ (new ++ ext) ++ l) /\ NoDup ((new ++ ext) ++ l) /\
    (forallb calloc (seq (i_allocs s) (length pages)) = true -> node_entries s' new = reverse pages).
Proof.
  induction pages as [|[a p] pages IH]; intros s head ext l Hc Hl Hn; cbn [build_list length seq forallb].
  { exists s, []. by split_and!. }
  set (s0 := Index (i_nodes s) (i_pages s) (i_buckets s) (S (i_allocs s))).
  assert (live s0 (.∈ ext ++ l)) as Hl0.
  { destruct Hl as [Hl Hf]. split; [done|]. intros x Hx. specialize (Hf x Hx). cbn. lia. }
  destruct (calloc (i_allocs s)) eqn:Ha; cbn [andb]; [|by exists s0, []; split_and!].
  set (x := i_allocs s). set (nd := Node a p head None).
  assert (x ∉ ext ++ l) as Hx by (intros Hx; apply (proj2 Hl) in Hx; unfold x in Hx; lia).
  set (s1 := set_node s0 x nd).
  assert (forall y, y ∈ ext ++ l -> i_nodes s1 !! y = i_nodes s !! y) as H1.
  { intros y Hy. cbn. rewrite lookup_insert_ne; [done|]. by intros ->. }
  destruct (IH s1 (Some x) (x :: ext) l) as (s' & new & Hrun & Hp & Hb & Hh & Hch & Hli & Hnd & He).
  - split; [done|]. exists nd. split; [cbn; by rewrite lookup_insert_eq|].
    apply path_insert; [|done]. intros ?. apply Hx, elem_of_app. by left.
  - destruct Hl0 as [Hl0 Hf0]. split; cbn.
    + intros y. destruct (decide (y = x)) as [->|E].
      * rewrite lookup_insert_eq. split; [constructor|done].
      * rewrite lookup_insert_ne by done. rewrite elem_of_cons. etransitivity; [apply (Hl0 y)|]. split; [by right|by intros [?|?]].
    + intros y [->|Hy]%elem_of_cons; [unfold x; lia|by apply Hf0].
  - by constructor.
  - exists s', (new ++ [x]).
    assert (match new ++ [x] with y :: _ => Some y | [] => head end
      = match new with y :: _ => Some y | [] => Some x end) as -> by (by destruct new).
    assert ((new ++ [x]) ++ ext = new ++ x :: ext) as -> by (by rewrite <- app_assoc).
    split_and!; try done.
    + intros y Hy. rewrite Hh; [by apply H1|]. by constructor.
    + intros Hok. rewrite node_entries_app, (He Hok), reverse_cons. f_equal.
      apply (node_entries_cons s' x nd []). rewrite Hh; [cbn; by rewrite lookup_insert_eq|constructor].
Qed.

Lemma free_list_spec ext : forall fuel s head l,
  chain n_next (i_nodes s) head ext -> live s (.∈ ext ++ l) -> NoDup (ext ++ l) -> (length ext < fuel)%nat ->
  exists s', free_list fuel s head = Ok s' /\ i_pages s' = i_pages s /\ i_buckets s' = i_buckets s /\
    live s' (.∈ l) /\ (forall x, x ∈ l -> i_nodes s' !! x = i_nodes s !! x).
Proof.
  induction ext as [|x ext IH]; intros [|fuel] s head l Hc Hl Hn Hf; cbn in Hf; try lia; cbn [free_list].
  - cbn in Hc. subst. exists s. by split_and!.
  - destruct Hc as (-> & nd & Hx & Hc). apply NoDup_cons in Hn as [Hxn Hn].
    unfold free_node, deref. rewrite Hx. cbn [mbind result_bind].
    assert (forall y, y ∈ ext ++ l -> i_nodes (set_nodes s (delete x (i_nodes s))) !! y = i_nodes s !! y) as H1.
    { intros y Hy. cbn. rewrite lookup_delete_ne; [done|]. by intros ->. }
    destruct (IH fuel (set_nodes s (delete x (i_nodes s))) (n_next nd) l) as (s' & Hrun & Hp & Hb & Hli & Hh).
    + eapply path_frame; [|exact Hc]. intros y Hy. f_equal. apply H1, elem_of_app. by left.
    + eapply live_ext; [|by apply live_free]. intros y. cbn. rewrite elem_of_cons. split; [tauto|].
      intros Hy. split; [by right|]. by intros ->.
    + done.
    + lia.
    + exists s'. split_and!; try done. intros y Hy. rewrite Hh by done. apply H1, elem_of_app. by right.
Qed.

Lemma publish_list_spec ext : forall fuel s head l,
  chain n_next (i_nodes s) head ext -> listed s l -> hashed s (.∈ l) -> live s (.∈ ext ++ l) ->
  NoDup (ext ++ l) -> NoDup (node_entries s (ext ++ l)).*1 -> (length ext < fuel)%nat ->
  exists s', publish_list fuel s head = Ok s' /\ listed s' (reverse ext ++ l) /\
    hashed s' (.∈ reverse ext ++ l) /\ live s' (.∈ reverse ext ++ l) /\
    node_entries s' (reverse ext ++ l) = reverse (node_entries s ext) ++ node_entries s l.
Proof.
  induction ext as [|x ext IH]; intros [|fuel] s head l Hc Hls Hh Hl Hn Ha Hf; cbn in Hf; try lia;
    cbn [publish_list].
  - cbn in Hc. subst. exists s. by split_and!.
  - destruct Hc as (-> & nd & Hx & Hc). cbn [app] in *. apply NoDup_cons in Hn as [Hxn Hn].
    unfold deref. rewrite Hx. cbn [mbind result_bind].
    set (nd' := with_next nd (i_pages s)).
    set (s1 := Index (<[x := nd']> (i_nodes s)) (Some x) (i_buckets s) (i_allocs s)).
    assert (list_step s s1) as Hs1.
    { split_and!; [done..|]. intros y. cbn. destruct (decide (y = x)) as [->|E];
        [by rewrite lookup_insert_eq, Hx|by rewrite lookup_insert_ne]. }
    assert (i_nodes s1 !! x = Some nd') as Hx1 by (cbn; by rewrite lookup_insert_eq).
    destruct (index_page_spec s1 (.∈ l) x nd' (list_step_hashed _ _ _ Hs1 Hh)) as (s2 & Hi & Hs2 & Hh2).
    { intros ?. apply Hxn, elem_of_app. by right. }
    { done. }
    { intros y nd2 Hy Hy2 E. rewrite (node_entries_cons s x nd _ Hx) in Ha. cbn in Ha.
      apply NoDup_cons in Ha as [Ha _]. apply Ha.
      apply list_elem_of_fmap. exists (n_address nd, n_page nd2). split; [done|]. apply elem_of_node_entries.
      exists y. cbn in Hy2. rewrite lookup_insert_ne in Hy2 by (intros ->; apply Hxn, elem_of_app; by right).
      exists nd2. split_and!; [apply elem_of_app; by right|done..]. }
    cbv zeta. change (index_page _ x) with (index_page s1 x). rewrite Hi. cbn [mbind result_bind].
    assert (listed s2 (x :: l)) as Hls2.
    { apply (hash_step_listed s1 s2); [done|]. destruct Hls as [Hcl Hnl]. split.
      - split; [done|]. exists nd'. split; [done|]. cbn [nd' with_next n_next].
        apply path_insert; [|done]. intros ?. apply Hxn, elem_of_app. by right.
      - constructor; [|done]. intros ?. apply Hxn, elem_of_app. by right. }
    assert (forall l', node_entries s2 l' = node_entries s l') as He2.
    { intros l'. by rewrite (hash_step_entries _ _ _ Hs2), (list_step_entries _ _ _ Hs1). }
    assert (ext ++ x :: l ≡ₚ x :: ext ++ l) as Hperm by (by rewrite Permutation_middle).
    destruct (IH fuel s2 (n_next nd) (x :: l)) as (s' & Hrun & Hls' & Hh' & Hl' & He').
    + apply (hash_step_path _ _ _ _ _ Hs2), path_insert; [|done]. intros ?. apply Hxn, elem_of_app. by left.
    + done.
    + eapply hashed_ext; [|exact Hh2]. intros y. cbn. by rewrite elem_of_cons.
    + eapply live_ext; [|apply (hash_step_live _ _ _ Hs2), (list_step_live _ _ _ Hs1), Hl].
      intros y. cbn. by rewrite Hperm.
    + rewrite Hperm. by constructor.
    + rewrite He2. unfold node_entries in *. by rewrite Hperm.
    + lia.
    + exists s'. rewrite reverse_cons, <- app_assoc. cbn [app]. split_and!; try done.
      rewrite He', !He2, !(node_entries_cons s x nd _ Hx), reverse_cons, <- app_assoc. done.
Qed.

(** Adding pages at new addresses: all of them, or none when an allocation
    fails. *)
Lemma add_pages_spec calloc s l pm pages :
  represents s l pm -> NoDup pages.*1 -> (forall e, e ∈ pages -> pm !! e.1 = None) ->
  let ok := forallb calloc (seq (i_allocs s) (length pages)) in
  exists s' l', add_pages calloc s pages = Ok (s', ok) /\
    represents s' l' (if ok then list_to_map pages ∪ pm else pm).
Proof.
  intros [Hls Hh Hl Ht] Hn Hfresh ok. unfold add_pages.
  destruct (build_list_spec calloc pages s None [] l) as (s1 & new & -> & Hp & Hb & Hh1 & Hc1 & Hl1 & Hn1 & He1);
    [done|done|apply Hls|]. fold ok in He1. fold ok. rewrite app_nil_r in *. cbn [app] in Hh1.
  assert (listed s1 l) as Hls1 by (by eapply listed_frame).
  assert (hashed s1 (.∈ l)) as Hha1 by (by eapply hashed_frame).
  assert (node_entries s1 l = node_entries s l) as Hel by (apply node_entries_ext; intros x Hx; f_equal; by apply Hh1).
  assert (length new < walk_fuel s1)%nat as Hf.
  { pose proof (live_length s1 (new ++ l) Hl1 Hn1) as H. rewrite length_app in H. lia. }
  destruct ok eqn:Hok.
  - assert (NoDup (node_entries s1 (new ++ l)).*1) as Ha.
    { rewrite node_entries_app, (He1 eq_refl), Hel, fmap_app, fmap_reverse. apply NoDup_app. split_and!.
      - by rewrite reverse_Permutation.
      - intros a Hx (e & -> & Hy)%list_elem_of_fmap. rewrite reverse_Permutation in Hx. apply list_elem_of_fmap in Hx as (e' & E & He').
        rewrite Ht in Hy. destruct e as [a q]. apply elem_of_map_to_list in Hy. cbn in E. subst a.
        by rewrite (Hfresh e' He') in Hy.
      - rewrite Ht. apply NoDup_fst_map_to_list. }
    destruct (publish_list_spec new (walk_fuel s1) s1 _ l Hc1 Hls1 Hha1 Hl1 Hn1 Ha Hf)
      as (s2 & Hrun & Hls2 & Hh2 & Hl2 & He2).
    rewrite Hrun. eexists s2, _. split; [reflexivity|]. split; [exact Hls2|done|done|].
    rewrite He2, (He1 eq_refl), Hel, reverse_involutive, Ht. clear -Hn Hfresh.
    induction pages as [|[a p] pages IH]; cbn; [by rewrite map_empty_union|].
    apply NoDup_cons in Hn as [Ha Hn]. rewrite <- insert_union_l, map_to_list_insert.
    + f_equiv. apply IH; [done|]. intros e He. apply Hfresh. by constructor.
    + apply lookup_union_None. split; [by apply not_elem_of_list_to_map_1|].
      apply (Hfresh (a, p)). constructor.
  - destruct (free_list_spec new (walk_fuel s1) s1 _ l Hc1 Hl1 Hn1 Hf) as (s2 & Hrun & Hp2 & Hb2 & Hl2 & Hh2).
    rewrite Hrun. exists s2, l. split; [reflexivity|]. split.
    + by eapply listed_frame.
    + by eapply hashed_frame.
    + done.
    + rewrite (node_entries_ext s1 s2) by (intros x Hx; f_equal; by apply Hh2). by rewrite Hel.
Qed.

(** ** Reading and writing the fields of a page *)

Lemma find_page_spec s l pm a : represents s l pm -> find_page s a = Ok (pm !! a).
Proof.
  intros Hr. unfold find_page. destruct (at_node_table s l pm a Hr) as (r & -> & H). cbn [mbind result_bind].
  destruct r as [x|]; [|by rewrite H]. destruct H as (_ & nd & Hx & _ & ->). unfold deref. by rewrite Hx.
Qed.

Lemma modify_node_spec s l pm a p f :
  represents s l pm -> pm !! a = Some p ->
  exists s', modify_node s a f = Ok s' /\ represents s' l (<[a := f p]> pm).
Proof.
  intros Hr Hp. unfold modify_node. destruct (at_node_table s l pm a Hr) as (r & -> & H). cbn [mbind result_bind].
  destruct r as [x|]; [|congruence]. destruct H as (Hxl & nd & Hx & Ha & E). rewrite Hp in E. injection E as ->.
  unfold deref. rewrite Hx. cbn [mbind result_bind]. eexists. split; [reflexivity|].
  set (s' := set_node s x (with_page nd (f (n_page nd)))).
  assert (forall (B : Type) (g : node -> B), (forall nd p, g (with_page nd p) = g nd) ->
    forall y, g <$> i_nodes s' !! y = g <$> i_nodes s !! y) as Hg.
  { intros B g Hg y. cbn. destruct (decide (y = x)) as [->|Hy].
    - rewrite lookup_insert_eq, Hx. cbn. by rewrite Hg.
    - by rewrite lookup_insert_ne. }
  destruct Hr as [[Hc Hn] [Hch Hli Had] Hl Ht].
  assert (forall y nd', i_nodes s' !! y = Some nd' ->
    exists nd, i_nodes s !! y = Some nd /\ n_address nd = n_address nd') as Hback.
  { intros y nd' Hy. by destruct (fmap_eq_Some n_address _ _ _ (eq_sym (Hg _ n_address (fun _ _ => eq_refl) y)) Hy) as (nd0 & ? & ?); eauto. }
  split.
  - split; [|done]. eapply path_frame; [|exact Hc]. intros y _. by apply Hg.
  - split.
    + intros b. destruct (Hch b) as (c & Hcc & Hnc & Hmc). exists c. split_and!; [|done|].
      * eapply path_frame; [|exact Hcc]. intros y _. by apply Hg.
      * intros y. rewrite Hmc. split; intros [HP (nd' & Hy & E)]; (split; [done|]).
        -- destruct (fmap_eq_Some n_address _ _ _ (Hg _ n_address (fun _ _ => eq_refl) y) Hy) as (nd1 & ? & E1).
           exists nd1. by rewrite E1.
        -- destruct (Hback _ _ Hy) as (nd1 & ? & E1). exists nd1. by rewrite E1.
    + intros y Hy. apply (fmap_eq_is_Some n_address _ _ (Hg _ n_address (fun _ _ => eq_refl) y)). by apply Hli.
    + intros y z nd1 nd2 Hy Hz H1 H2 E. destruct (Hback _ _ H1) as (nd3 & ? & ?), (Hback _ _ H2) as (nd4 & ? & ?).
      apply (Had y z nd3 nd4); congruence.
  - apply (step_live n_address s s'); [done| |done]. by apply Hg.
  - apply list_elem_of_split in Hxl as (l1 & l2 & ->).
    assert (x ∉ l1 /\ x ∉ l2) as [H1 H2].
    { apply NoDup_app in Hn as (_ & Hd & [? _]%NoDup_cons). split; [|done]. intros Hi. apply (Hd x Hi). constructor. }
    assert (forall c, x ∉ c -> node_entries s' c = node_entries s c) as He.
    { intros c Hxc. apply node_entries_ext. intros y Hy. cbn. rewrite lookup_insert_ne; [done|]. by intros ->. }
    rewrite node_entries_app, (node_entries_cons s x nd _ Hx), <- Permutation_middle in Ht.
    rewrite node_entries_app, (node_entries_cons s' x (with_page nd (f (n_page nd)))) by (cbn; by rewrite lookup_insert_eq).
    rewrite !He, <- Permutation_middle by done.
    assert (node_entries s l1 ++ node_entries s l2 ≡ₚ map_to_list (delete a pm)) as ->.
    { apply (Permutation_cons_inv (a := (a, n_page nd))). rewrite map_to_list_delete by done.
      unfold node_entry in Ht. by rewrite Ha in Ht. }
    rewrite <- insert_delete_eq, map_to_list_insert by apply lookup_delete_eq.
    unfold node_entry. cbn. by rewrite Ha.
Qed.

(** ** The page table's client *)

(** What the operations of the address space do to the page table: the conflict
    check and the two list loops of a reservation or an alias, [remove_pages],
    [at] and a change of the fields found through it. *)
Inductive index_call : Type :=
  | IxAdd (pages : list (Z * page))
  | IxRemove (a n : Z)
  | IxModify (a : Z) (f : page -> page)
  | IxFind (a : Z).

Inductive index_answer : Type :=
  | AnsConflict
  | AnsNoMemory
  | AnsDone
  | AnsDropped (pages : list (Z * page))
  | AnsPage (p : option page).

(** [for (o = 0; o < n; o += 4096) if (at(m, b + o)) return CONFLICT;] *)
Fixpoint pages_occupied (s : index) (addresses : list Z) : result unit bool :=
  match addresses with
  | [] => Ok false
  | a :: addresses =>
    r ← at_node s a;
    match r with Some _ => Ok true | None => pages_occupied s addresses end
  end.

Definition run_index_call (calloc : nat -> bool) (c : index_call) (s : index)
  : result unit (index * index_answer) :=
  match c with
  | IxAdd pages =>
    conflict ← pages_occupied s pages.*1;
    if (conflict : bool) then Ok (s, AnsConflict)
    else '(s, ok) ← add_pages calloc s pages; Ok (s, if (ok : bool) then AnsDone else AnsNoMemory)
  | IxRemove a n => '(s, dropped) ← remove_nodes s a n; Ok (s, AnsDropped dropped)
  | IxModify a f =>
    r ← find_page s a;
    match r with
    | None => Ok (s, AnsPage None)
    | Some _ => s ← modify_node s a f; Ok (s, AnsDone)
    end
  | IxFind a => r ← find_page s a; Ok (s, AnsPage r)
  end.

Fixpoint run_index (calloc : nat -> bool) (cs : list index_call) (s : index)
  : result unit (index * list index_answer) :=
  match cs with
  | [] => Ok (s, [])
  | c :: cs =>
    '(s, ans) ← run_index_call calloc c s;
    '(s, answers) ← run_index calloc cs s;
    Ok (s, ans :: answers)
  end.

(** The same calls on a finite map. *)
Inductive table_call (calloc : nat -> bool) : index_call -> gmap Z page -> index_answer -> gmap Z page -> Prop :=
  | TableConflict pages pm e : e ∈ pages -> is_Some (pm !! e.1) ->
      table_call calloc (IxAdd pages) pm AnsConflict pm
  | TableAdd pages pm : (forall e, e ∈ pages -> pm !! e.1 = None) ->
      table_call calloc (IxAdd pages) pm AnsDone (list_to_map pages ∪ pm)
  | TableNoMemory pages pm k : (forall e, e ∈ pages -> pm !! e.1 = None) -> calloc k = false ->
      table_call calloc (IxAdd pages) pm AnsNoMemory pm
  | TableRemove a n pm dropped : dropped ≡ₚ map_to_list (removed_pages a n pm) ->
      table_call calloc (IxRemove a n) pm (AnsDropped dropped) (kept_pages a n pm)
  | TableMissing a f pm : pm !! a = None -> table_call calloc (IxModify a f) pm (AnsPage None) pm
  | TableModify a f p pm : pm !! a = Some p -> table_call calloc (IxModify a f) pm AnsDone (<[a := f p]> pm)
  | TableFind a pm : table_call calloc (IxFind a) pm (AnsPage (pm !! a)) pm.

Inductive table_run (calloc : nat -> bool) : list index_call -> gmap Z page -> list index_answer -> gmap Z page -> Prop :=
  | TableEnd pm : table_run calloc [] pm [] pm
  | TableNext c cs pm pm1 pm2 ans answers :
      table_call calloc c pm ans pm1 -> table_run calloc cs pm1 answers pm2 ->
      table_run calloc (c :: cs) pm (ans :: answers) pm2.

(** The addresses of an addition differ from each other. *)
Definition index_call_ok (c : index_call) : Prop :=
  match c with IxAdd pages => NoDup pages.*1 | _ => True end.
#[export] Instance index_call_ok_dec c : Decision (index_call_ok c).
Proof. destruct c; apply _. Defined.

Lemma pages_occupied_spec s l pm (pages : list (Z * page)) :
  represents s l pm ->
  exists r, pages_occupied s pages.*1 = Ok r /\
    if r then exists e, e ∈ pages /\ is_Some (pm !! e.1) else forall e, e ∈ pages -> pm !! e.1 = None.
Proof.
  intros Hr. induction pages as [|e pages IH]; cbn [fmap list_fmap pages_occupied].
  - exists false. split; [done|]. by intros e ?%elem_of_nil.
  - destruct (at_node_table s l pm e.1 Hr) as (r & -> & H). cbn [mbind result_bind]. destruct r as [x|].
    + exists true. split; [done|]. exists e. split; [constructor|]. destruct H as (_ & nd & _ & _ & ->). eauto.
    + destruct IH as (r & -> & H'). exists r. split; [done|]. destruct r.
      * destruct H' as (e' & He & Hs). exists e'. split; [by constructor|done].
      * by intros e' [->|He]%elem_of_cons; [|apply H'].
Qed.

Lemma run_index_call_refines calloc c s l pm :
  index_call_ok c -> represents s l pm ->
  exists s' l' ans pm', run_index_call calloc c s = Ok (s', ans) /\ table_call calloc c pm ans pm' /\
    represents s' l' pm'.
Proof.
  intros Hok Hr. destruct c as [pages|a n|a f|a]; cbn [run_index_call].
  - destruct (pages_occupied_spec s l pm pages Hr) as (r & -> & Hf). cbn [mbind result_bind]. destruct r.
    + destruct Hf as (e & He & Hs). eexists s, l, _, _. split; [reflexivity|]. by split; [econstructor|].
    + destruct (add_pages_spec calloc s l pm pages Hr Hok Hf) as (s' & l' & -> & Hr'). cbn [mbind result_bind].
      destruct (forallb calloc (seq (i_allocs s) (length pages))) eqn:Hc.
      * eexists s', l', _, _. split; [reflexivity|]. by split; [constructor|].
      * apply not_true_iff_false in Hc. rewrite forallb_forall in Hc.
        assert (exists k, calloc k = false) as [k Hk].
        { destruct (Exists_dec (fun k => calloc k = false) (seq (i_allocs s) (length pages))) as [He|He].
          - apply Exists_exists in He as (k & _ & Hk). eauto.
          - destruct Hc. intros k Hk. apply not_false_iff_true. intros E. apply He, Exists_exists.
            exists k. split; [by apply list_elem_of_In|done]. }
        eexists s', l', _, _. split; [reflexivity|]. by split; [econstructor|].
  - destruct (remove_nodes_spec s l pm a n Hr) as (s' & l' & dropped & -> & Hr' & Hd).
    eexists s', l', _, _. split; [reflexivity|]. by split; [constructor|].
  - rewrite (find_page_spec s l pm a Hr). cbn [mbind result_bind]. destruct (pm !! a) as [p|] eqn:Hp.
    + destruct (modify_node_spec s l pm a p f Hr Hp) as (s' & -> & Hr').
      eexists s', l, _, _. split; [reflexivity|]. by split; [constructor|].
    + eexists s, l, _, _. split; [reflexivity|]. by split; [constructor|].
  - rewrite (find_page_spec s l pm a Hr). eexists s, l, _, _. split; [reflexivity|]. by split; [constructor|].
Qed.

Lemma run_index_represents calloc cs : forall s l pm,
  Forall index_call_ok cs -> represents s l pm ->
  exists s' l' answers pm', run_index calloc cs s = Ok (s', answers) /\ table_run calloc cs pm answers pm' /\
    represents s' l' pm'.
Proof.
  induction cs as [|c cs IH]; intros s l pm Hok Hr; cbn [run_index].
  - eexists s, l, _, _. split; [reflexivity|]. by split; [constructor|].
  - apply Forall_cons in Hok as [Hc Hok].
    destruct (run_index_call_refines calloc c s l pm Hc Hr) as (s1 & l1 & ans & pm1 & -> & Ht & Hr1).
    cbn [mbind result_bind]. destruct (IH s1 l1 pm1 Hok Hr1) as (s2 & l2 & answers & pm2 & -> & Ht2 & Hr2).
    eexists s2, l2, _, _. split; [reflexivity|]. split; [by econstructor|done].
Qed.

Lemma represents_empty : represents empty_index [] ∅.
Proof.
  split.
  - by split; [|constructor].
  - split.
    + intros b. exists []. split_and!; [done|constructor|]. intros x. split; [|tauto]. by intros ?%elem_of_nil.
    + by intros x ?%elem_of_nil.
    + by intros x y nd nd' ?%elem_of_nil.
  - split; [|by intros x ?%elem_of_nil]. intros x. cbn. rewrite lookup_empty, elem_of_nil. split; [by intros []|done].
  - done.
Qed.

(** Nothing is leaked: there is one node per page. *)
Lemma represents_size s l pm : represents s l pm -> size (i_nodes s) = size pm.
Proof.
  intros [[_ Hn] _ [Hl _] Ht].
  assert (length (node_entries s l) = length l) as Hlen.
  { clear Ht Hn. assert (forall x, x ∈ l -> is_Some (i_nodes s !! x)) as H by (intros x; apply Hl). clear Hl.
    induction l as [|x l IH]; [done|]. destruct (H x (list_elem_of_here _ _)) as [nd Hx].
    rewrite (node_entries_cons s x nd l Hx). cbn. f_equal. apply IH. intros y Hy. apply H. by constructor. }
  rewrite <- (length_map_to_list pm), <- Ht, Hlen, <- size_dom.
  rewrite <- (size_list_to_set (C := gset nid) l Hn). f_equal. apply leibniz_equiv. intros x.
  rewrite elem_of_dom, elem_of_list_to_set. apply Hl.
Qed.

Lemma page_bucket_bound a : 0 <= page_bucket a < GEM_MEMORY_HASH_BUCKETS.
Proof.
  unfold page_bucket. cbv zeta. change (GEM_MEMORY_HASH_BUCKETS - 1) with (Z.ones 16).
  rewrite Z.land_ones by lia. unfold GEM_MEMORY_HASH_BUCKETS. apply Z.mod_pos_bound. lia.
Qed.

(** C9: the hash index and the page list implement a finite map.  From a new
    object, any sequence of additions, removals, lookups and changes of pages,
    with allocations failing anywhere, runs without following a dead pointer
    and without reaching [abort], gives the answers a map gives, leaves the
    nodes of exactly the map's pages live, and indexes the bucket array within
    its bounds. *)
Theorem page_index_refines calloc cs :
  Forall index_call_ok cs ->
  exists s answers pm, run_index calloc cs empty_index = Ok (s, answers) /\
    table_run calloc cs ∅ answers pm /\
    (forall a, find_page s a = Ok (pm !! a)) /\
    size (i_nodes s) = size pm /\
    (pm = ∅ -> i_pages s = None /\ forall a, i_buckets s !! page_bucket a = None) /\
    forall a, 0 <= page_bucket a < GEM_MEMORY_HASH_BUCKETS.
Proof.
  intros Hok. destruct (run_index_represents calloc cs _ _ _ Hok represents_empty)
    as (s & l & answers & pm & Hrun & Ht & Hr).
  exists s, answers, pm. split_and!; [done|done| | | |apply page_bucket_bound].
  - intros a. by eapply find_page_spec.
  - by eapply represents_size.
  - intros ->. pose proof (represents_size _ _ _ Hr) as Hs. rewrite map_size_empty in Hs.
    apply map_size_empty_inv in Hs.
    assert (forall x, i_nodes s !! x = None) as Hnone by (intros x; by rewrite Hs).
    destruct Hr as [[Hc _] [Hch _ _] _ _]. split.
    + destruct (i_pages s) as [x|] eqn:E; [|done]. destruct l as [|y l]; [done|].
      destruct Hc as (_ & nd & Hx & _). by rewrite Hnone in Hx.
    + intros a. destruct (Hch (page_bucket a)) as ([|y c] & Hc' & _ & _); [done|].
      destruct Hc' as (_ & nd & Hx & _). by rewrite Hnone in Hx.
Qed.

(** A reservation, a conflict, a page that shares the bucket of the first, an
    allocation that fails half-way, and everything removed again. *)
Definition index_page_at (base : Z) : page := Page base 4096 None 0 1.
Definition index_calls : list index_call :=
  [IxAdd [(0x1000, index_page_at 0x1000); (0x2000, index_page_at 0x1000)];
   IxAdd [(0x3000, index_page_at 0x3000); (0x2000, index_page_at 0x3000)];
   IxAdd [(0x10ee000, index_page_at 0x10ee000)];
   IxModify 0x2000 (fun p => with_protection p 4);
   IxAdd [(0x6000, index_page_at 0x6000); (0x7000, index_page_at 0x6000)];
   IxFind 0x2000; IxRemove 0x1000 0x1000; IxFind 0x1000; IxRemove 0 UINT64_MAX].

Example shared_bucket : page_bucket 0x1000 = page_bucket 0x10ee000.
Proof. reflexivity. Qed.

Lemma page_index_refines_witness :
  exists s answers, run_index (fun k => bool_decide (k <> 4%nat)) index_calls empty_index = Ok (s, answers) /\
    answers !! 5%nat = Some (AnsPage (Some (with_protection (index_page_at 0x1000) 4))) /\
    i_nodes s = ∅ /\ forall a, find_page s a = Ok None.
Proof.
  destruct (page_index_refines (fun k => bool_decide (k <> 4%nat)) index_calls) as (s & answers & pm & Hr & _ & Hf & Hs & _).
  - apply (bool_decide_unpack _). vm_compute. exact I.
  - assert (i_nodes s = ∅ /\ answers !! 5%nat = Some (AnsPage (Some (with_protection (index_page_at 0x1000) 4)))) as [He Ha].
    { revert Hr. vm_compute. intros H. injection H as <- <-. split; reflexivity. }
    exists s, answers. split; [exact Hr|]. split; [exact Ha|]. split; [exact He|].
    intros a. rewrite Hf. rewrite He in Hs. rewrite map_size_empty in Hs. symmetry in Hs.
    apply map_size_empty_inv in Hs. rewrite Hs. reflexivity.
Defined.
