(* ===== verification/Memory.v ===== *)
(** Memory: the operations of the sparse guest address space
    (src/gem/memory.c).  Each [*_locked] function is one definition; the public
    functions take the object's lock around it, which in a sequential model is
    the test for a NULL object ([locked]).  Locks themselves are in Stripes. *)
From S2P Require Import Prelude MemoryModel.

(** ** Mapping operations *)

Definition mapped (m : mem) (a : Z) : bool :=
  match at_ m a with Some _ => true | None => false end.

(** [remove_pages(m, a, n)]: unlink, drop the backing and free every page of
    [m->pages] in the range. *)
Definition remove_pages (a n : Z) : M unit :=
  m ← get;
  for_each (map_to_list (m_pages m)) (fun '(address, p) =>
    if (a <=? address) && (address <? wrap64 (a + n)) then
      m ← get;
      put (set_pages m (delete address (m_pages m)));;
      drop_backing (p_backing p)
    else mret tt).

Section operations.
Context {platform : Platform}.

(** [while (at(m, b) && b <= UINT64_MAX - n - 4096) b += 4096;]: [None] when the
    fuel does not suffice. *)
Fixpoint search (fuel : nat) (m : mem) (n b : Z) : option Z :=
  match fuel with
  | O => None
  | S fuel =>
    if mapped m b && (b <=? UINT64_MAX - n - 4096) then search fuel m n (b + 4096) else Some b
  end.

(** The allocation loop of [reserve_locked]: [None] when a [calloc] fails. *)
Fixpoint reserve_pages (b n : Z) (os : list Z) (head : list (Z * page))
  : M (option (list (Z * page))) :=
  match os with
  | [] => mret (Some head)
  | o :: os =>
    r ← alloc;
    match r with
    | None => mret None
    | Some _ =>
      g ← bump_generation;
      reserve_pages b n os ((b + o, Page b n None 0 g) :: head)
    end
  end.

(** [while (head) { ...; index_page(m, head); }] *)
Definition publish (head : list (Z * page)) : M unit :=
  for_each head (fun '(a, p) => put_page a p).

(** The error and [*a] afterwards. *)
Definition reserve_locked (a : option Z) (n : Z) : M (gem_memory_error * option Z) :=
  match a with
  | None => mret (GEM_MEMORY_INVALID_ARGUMENT, a)
  | Some a0 =>
    if (n =? 0) || (GEM_MEMORY_MAX_PAGES <? n / 4096) || has_bits n 4095
    then mret (GEM_MEMORY_INVALID_ARGUMENT, a)
    else
      m ← get;
      b ← (if a0 =? 0 then
             match search (S (size (m_pages m))) m n 0x100000000 with
             | Some b => mret b
             | None => fault
             end
           else mret a0);
      if negb (range_ok b n) then mret (GEM_MEMORY_OVERFLOW, a)
      else if existsb (fun o => mapped m (b + o)) (page_range 0 n)
      then mret (GEM_MEMORY_CONFLICT, a)
      else
        head ← reserve_pages b n (page_range 0 n) [];
        match head with
        | None => mret (GEM_MEMORY_NO_MEMORY, a)
        | Some head => publish head;; mret (GEM_MEMORY_OK, Some b)
        end
  end.

(** The array [bs] filled for the pages without a backing; false when a
    [new_backing] fails. *)
Fixpoint commit_backings (a : Z) (os : list Z) (bs : list (option bid))
  : M (bool * list (option bid)) :=
  match os with
  | [] => mret (true, bs)
  | o :: os =>
    p ← deref_page (a + o);
    match p_backing p with
    | Some _ => commit_backings a os (bs ++ [None])
    | None =>
      b ← new_backing None;
      match b with
      | None => mret (false, bs)
      | Some _ => commit_backings a os (bs ++ [b])
      end
    end
  end.

(** [if (!p->backing) p->backing = b; p->protection = prot; touch_page(m, p);] *)
Definition commit_page (a prot : Z) (b : option bid) : M unit :=
  p ← deref_page a;
  (match p_backing p with
   | None => put_page a (with_protection (with_backing p b) prot)
   | Some _ => put_page a (with_protection p prot)
   end);;
  touch_page a.

Definition commit_locked (a n prot : Z) : M gem_memory_error :=
  m ← get;
  match check m a n false with
  | GEM_MEMORY_OK =>
    if negb (prot_ok prot) then mret GEM_MEMORY_INVALID_ARGUMENT
    else
      r ← alloc;
      match r with
      | None => mret GEM_MEMORY_NO_MEMORY
      | Some _ =>
        '(ok, bs) ← commit_backings a (page_range 0 n) [];
        if (ok : bool) then
          for_each (zip (page_range 0 n) bs) (fun '(o, b) => commit_page (a + o) prot b);;
          mret GEM_MEMORY_OK
        else for_each bs drop_backing;; mret GEM_MEMORY_NO_MEMORY
      end
  | e => mret e
  end.

Definition decommit_locked (a n : Z) : M gem_memory_error :=
  m ← get;
  match check m a n false with
  | GEM_MEMORY_OK =>
    for_each (page_range 0 n) (fun o =>
      p ← deref_page (a + o);
      drop_backing (p_backing p);;
      modify_page (a + o) (fun p => with_protection (with_backing p None) GEM_PAGE_NOACCESS);;
      touch_page (a + o));;
    mret GEM_MEMORY_OK
  | e => mret e
  end.

Definition release_locked (a n : Z) : M gem_memory_error :=
  m ← get;
  match check m a n false with
  | GEM_MEMORY_OK =>
    p ← deref_page a;
    if negb (a =? p_reservation_base p) || negb (n =? p_reservation_size p)
    then mret GEM_MEMORY_INVALID_ARGUMENT
    else remove_pages a n;; mret GEM_MEMORY_OK
  | e => mret e
  end.

Definition unmap_locked (a n : Z) : M gem_memory_error :=
  m ← get;
  match check m a n false with
  | GEM_MEMORY_OK =>
    first ← deref_page a;
    let base := p_reservation_base first in
    let reservation_end := wrap64 (base + p_reservation_size first) in
    let end_ := wrap64 (a + n) in
    if (a <? base) || (reservation_end <? end_) then mret GEM_MEMORY_INVALID_ARGUMENT
    else
      match first_error (fun o =>
          match at_ m (a + o) with
          | None => None
          | Some p =>
            if negb (p_reservation_base p =? base) ||
               negb (p_reservation_size p =? p_reservation_size first)
            then Some GEM_MEMORY_INVALID_ARGUMENT else None
          end) (page_range 0 n) with
      | Some e => mret e
      | None =>
        for_each (page_range base a) (fun o =>
          modify_page o (fun p => with_reservation p base (a - base)));;
        for_each (page_range end_ reservation_end) (fun o =>
          modify_page o (fun p => with_reservation p end_ (reservation_end - end_)));;
        remove_pages a n;;
        mret GEM_MEMORY_OK
      end
  | e => mret e
  end.

(** The error and [*old] afterwards. *)
Definition protect_locked (a n prot : Z) (old : option Z)
  : M (gem_memory_error * option Z) :=
  m ← get;
  match check m a n true with
  | GEM_MEMORY_OK =>
    if negb (prot_ok prot) then mret (GEM_MEMORY_INVALID_ARGUMENT, old)
    else
      first ← deref_page a;
      for_each (page_range 0 n) (fun o =>
        modify_page (a + o) (fun p => with_protection p prot));;
      for_each (page_range 0 n) (fun o => touch_page (a + o));;
      mret (GEM_MEMORY_OK, match old with Some _ => Some (p_protection first) | None => None end)
  | e => mret (e, old)
  end.

(** The allocation loop of [alias_locked]; on failure the references taken so
    far are dropped. *)
Fixpoint alias_pages (a s n prot : Z) (os : list Z) (head : list (Z * page))
  : M (option (list (Z * page))) :=
  match os with
  | [] => mret (Some head)
  | o :: os =>
    r ← alloc;
    match r with
    | None => for_each head (fun '(_, p) => drop_backing (p_backing p));; mret None
    | Some _ =>
      p ← deref_page (s + o);
      add_ref (p_backing p);;
      g ← bump_generation;
      alias_pages a s n prot os ((a + o, Page a n (p_backing p) prot g) :: head)
    end
  end.

Definition alias_locked (a s n prot : Z) : M gem_memory_error :=
  if negb (range_ok a n) || negb (prot_ok prot) then mret GEM_MEMORY_INVALID_ARGUMENT
  else
    m ← get;
    match check m s n true with
    | GEM_MEMORY_OK =>
      if existsb (fun o => mapped m (a + o)) (page_range 0 n) then mret GEM_MEMORY_CONFLICT
      else
        head ← alias_pages a s n prot (page_range 0 n) [];
        match head with
        | None => mret GEM_MEMORY_NO_MEMORY
        | Some head => publish head;; mret GEM_MEMORY_OK
        end
    | e => mret e
    end.

(** The loop of [map_identity_locked]; false when a [new_backing] fails. *)
Fixpoint map_identity_pages (a h prot : Z) (os : list Z) : M bool :=
  match os with
  | [] => mret true
  | o :: os =>
    p ← deref_page (a + o);
    b ← new_backing (Some (h + o));
    modify_page (a + o) (fun p => with_backing p b);;
    match b with
    | None => mret false
    | Some _ =>
      modify_page (a + o) (fun p => with_protection p prot);;
      touch_page (a + o);;
      map_identity_pages a h prot os
    end
  end.

Definition map_identity_locked (a h n prot : Z) : M gem_memory_error :=
  if (h =? 0) || (a <? 0x100000000) || negb (a =? h) || negb (range_ok a n) || negb (prot_ok prot)
  then mret GEM_MEMORY_INVALID_ARGUMENT
  else
    '(e, a') ← reserve_locked (Some a) n;
    match e with
    | GEM_MEMORY_OK =>
      let a := default a a' in
      ok ← map_identity_pages a h prot (page_range 0 n);
      if (ok : bool) then mret GEM_MEMORY_OK
      else release_locked a n;; mret GEM_MEMORY_NO_MEMORY
    | e => mret e
    end.

(** The array [backings] filled for the pages without a backing, and the error
    that sends the code to [rollback]. *)
Fixpoint commit_external_backings (a h : Z) (os : list Z) (bs : list (option bid))
  : M (gem_memory_error * list (option bid)) :=
  match os with
  | [] => mret (GEM_MEMORY_OK, bs)
  | o :: os =>
    p ← deref_page (a + o);
    match p_backing p with
    | Some _ =>
      '(_, bk) ← deref_backing (p_backing p);
      if bool_decide (b_data bk = Host (h + o))
      then commit_external_backings a h os (bs ++ [None])
      else mret (GEM_MEMORY_CONFLICT, bs)
    | None =>
      b ← new_backing (Some (h + o));
      match b with
      | None => mret (GEM_MEMORY_NO_MEMORY, bs)
      | Some _ => commit_external_backings a h os (bs ++ [b])
      end
    end
  end.

Definition commit_external_locked (a h n prot : Z) (require_identity : bool)
  : M gem_memory_error :=
  if (h =? 0) || has_bits h 4095
     || (require_identity && ((a <? 0x100000000) || negb (a =? h)))
     || negb (range_ok a n) || negb (prot_ok prot)
  then mret GEM_MEMORY_INVALID_ARGUMENT
  else
    m ← get;
    match check m a n false with
    | GEM_MEMORY_OK =>
      r ← alloc;
      match r with
      | None => mret GEM_MEMORY_NO_MEMORY
      | Some _ =>
        '(e, bs) ← commit_external_backings a h (page_range 0 n) [];
        match e with
        | GEM_MEMORY_OK =>
          for_each (zip (page_range 0 n) bs) (fun '(o, b) => commit_page (a + o) prot b);;
          mret GEM_MEMORY_OK
        | e => for_each bs drop_backing;; mret e
        end
      end
    | e => mret e
    end.

Definition bind_kuser_locked (h : Z) : M gem_memory_error :=
  if (h =? 0) || has_bits h 4095 then mret GEM_MEMORY_INVALID_ARGUMENT
  else
    m ← get;
    match at_ m GEM_KUSER_CANONICAL_ADDRESS, at_ m GEM_KUSER_SHARED_DATA_ADDRESS with
    | Some canonical, Some alias =>
      if bool_decide (p_backing canonical = None) ||
         negb (bool_decide (p_backing canonical = p_backing alias))
      then mret GEM_MEMORY_CONFLICT
      else
        b ← new_backing (Some h);
        match b with
        | None => mret GEM_MEMORY_NO_MEMORY
        | Some _ =>
          let old := p_backing canonical in
          '(i, bk) ← deref_backing b;
          put_backing i (Backing (b_data bk) 2 (b_generation bk));;
          modify_page GEM_KUSER_CANONICAL_ADDRESS (fun p => with_backing p b);;
          modify_page GEM_KUSER_SHARED_DATA_ADDRESS (fun p => with_backing p b);;
          touch_page GEM_KUSER_CANONICAL_ADDRESS;;
          touch_page GEM_KUSER_SHARED_DATA_ADDRESS;;
          drop_backing old;;
          drop_backing old;;
          mret GEM_MEMORY_OK
        end
    | _, _ => mret GEM_MEMORY_CONFLICT
    end.

(** ** Data access *)

(** The validation loop of [access_memory_locked] for one page. *)
Definition access_error (m : mem) (w x : bool) (k : chunk) : option gem_memory_error :=
  match at_ m (k_page k) with
  | None => Some GEM_MEMORY_NOT_RESERVED
  | Some p =>
    if bool_decide (p_backing p = None) then Some GEM_MEMORY_NOT_COMMITTED
    else if negb (allowed (p_protection p) w x) then Some GEM_MEMORY_ACCESS_DENIED
    else None
  end.

(** The first page of the range that carries a guard. *)
Fixpoint find_guard (m : mem) (ks : list chunk) : option Z :=
  match ks with
  | [] => None
  | k :: ks =>
    match at_ m (k_page k) with
    | Some p => if has_bits (p_protection p) GEM_PAGE_GUARD then Some (k_page k)
                else find_guard m ks
    | None => find_guard m ks
    end
  end.

Definition is_write_copy (prot : Z) : bool :=
  (prot .&~ GEM_PAGE_GUARD =? GEM_PAGE_WRITECOPY) ||
  (prot .&~ GEM_PAGE_GUARD =? GEM_PAGE_EXECUTE_WRITECOPY).

Definition write_copy_protection (prot : Z) : Z :=
  if prot .&~ GEM_PAGE_GUARD =? GEM_PAGE_WRITECOPY then GEM_PAGE_READWRITE
  else GEM_PAGE_EXECUTE_READWRITE.

(** The array [copies]; false when a [new_backing] fails. *)
Fixpoint make_copies (ks : list chunk) (copies : list (option bid))
  : M (bool * list (option bid)) :=
  match ks with
  | [] => mret (true, copies)
  | k :: ks =>
    p ← deref_page (k_page k);
    '(_, bk) ← deref_backing (p_backing p);
    if is_write_copy (p_protection p) && negb (external bk) then
      c ← new_backing None;
      match c with
      | None => mret (false, copies)
      | Some _ =>
        m ← get;
        store_backing c 0 (contents m bk);;
        make_copies ks (copies ++ [c])
      end
    else make_copies ks (copies ++ [None])
  end.

(** [ps[i]->protection &= ~GEM_PAGE_GUARD] *)
Definition strip_guard (p : page) : page := with_protection p (p_protection p .&~ GEM_PAGE_GUARD).

(** The second loop of the [!query] block. *)
Definition detach_page (k : chunk) (copy : option bid) : M unit :=
  p ← deref_page (k_page k);
  match copy with
  | Some _ =>
    drop_backing (p_backing p);;
    modify_page (k_page k) (fun p =>
      with_protection (with_backing p copy) (write_copy_protection (p_protection p)));;
    touch_page (k_page k)
  | None =>
    '(_, bk) ← deref_backing (p_backing p);
    if external bk && is_write_copy (p_protection p)
    then put_page (k_page k) (with_protection p (write_copy_protection (p_protection p)))
    else mret tt
  end.

(** The copying loop: the caller's buffer afterwards. *)
Fixpoint transfer (w query : bool) (ks : list chunk) (b : option (list Z))
  : M (option (list Z)) :=
  match ks with
  | [] => mret b
  | k :: ks =>
    p ← deref_page (k_page k);
    b ← (if query then mret b
         else if w then
           match b with
           | Some buffer =>
             store_backing (p_backing p) (k_offset k) (bytes_at buffer (k_done k) (k_size k));;
             mret b
           | None => fault
           end
         else
           match b with
           | Some buffer =>
             '(_, bk) ← deref_backing (p_backing p);
             m ← get;
             mret (Some (memcpy buffer (k_done k)
                           (bytes_at (contents m bk) (k_offset k) (k_size k))))
           | None => mret None
           end);
    (if w && negb query
     then touch_backing (p_backing p);; touch_page (k_page k)
     else mret tt);;
    transfer w query ks b
  end.

(** The steps after the guard test: the copies, the protections, the bytes. *)
Definition access_pages (ks : list chunk) (b : option (list Z)) (w query : bool)
  : M (gem_memory_error * option (list Z)) :=
  copies ← (if w && negb query then
              r ← alloc;
              match r with
              | None => mret None
              | Some _ =>
                '(ok, copies) ← make_copies ks [];
                if (ok : bool) then mret (Some copies)
                else for_each (reverse copies) drop_backing;; mret None
              end
            else mret (Some (replicate (length ks) None)));
  match copies with
  | None => mret (GEM_MEMORY_NO_MEMORY, b)
  | Some copies =>
    (if query then mret tt
     else
       for_each ks (fun k => modify_page (k_page k) strip_guard);;
       for_each (zip ks copies) (fun '(k, c) => detach_page k c));;
    b ← transfer w query ks b;
    mret (GEM_MEMORY_OK, b)
  end.

(** The error and the caller's buffer afterwards; [None] is a NULL buffer. *)
Definition access_memory_locked (a : Z) (b : option (list Z)) (n : Z)
    (w x query consume_guard : bool) : M (gem_memory_error * option (list Z)) :=
  if (negb (n =? 0) && bool_decide (b = None) && negb x) || (UINT64_MAX - n <? a)
  then mret (GEM_MEMORY_INVALID_ARGUMENT, b)
  else if n =? 0 then mret (GEM_MEMORY_OK, b)
  else if SIZE_MAX - (a .& 4095) - 4095 <? n then mret (GEM_MEMORY_OVERFLOW, b)
  else
    let ks := chunks (page_count a n) a n 0 in
    r ← alloc;
    match r with
    | None => mret (GEM_MEMORY_NO_MEMORY, b)
    | Some _ =>
      m ← get;
      match first_error (access_error m w x) ks with
      | Some e => mret (e, b)
      | None =>
        match (if query then None else find_guard m ks) with
        | Some q =>
          (if consume_guard then modify_page q strip_guard;; touch_page q else mret tt);;
          mret (GEM_MEMORY_GUARD_PAGE, b)
        | None => access_pages ks b w query
        end
      end
    end.

(** The validation loop of [peek_locked] for one chunk (the macOS build). *)
Definition peek_error (m : mem) (k : chunk) : option gem_memory_error :=
  match at_ m (k_page k) with
  | None => Some GEM_MEMORY_NOT_RESERVED
  | Some p =>
    match p_backing p with
    | None => Some GEM_MEMORY_NOT_COMMITTED
    | Some i =>
      match m_backings m !! i with
      | Some (Backing (Host h) _ _) =>
        if negb (external_range_accessible h (k_offset k) (k_size k) false)
        then Some GEM_MEMORY_NOT_COMMITTED else None
      | _ => None
      end
    end
  end.

Definition peek_locked (a : Z) (b : option (list Z)) (n : Z)
  : M (gem_memory_error * option (list Z)) :=
  if (negb (n =? 0) && bool_decide (b = None)) || (UINT64_MAX - n <? a)
  then mret (GEM_MEMORY_INVALID_ARGUMENT, b)
  else if n =? 0 then mret (GEM_MEMORY_OK, b)
  else
    let ks := chunks (page_count a n) a n 0 in
    m ← get;
    match first_error (peek_error m) ks with
    | Some e => mret (e, b)
    | None => b ← transfer false false ks b; mret (GEM_MEMORY_OK, b)
    end.

(** ** The public functions *)

(** [if (!m) return d; gem_lock_acquire(...); e = f; gem_lock_release(...);] *)
Definition locked {A} (d : A) (f : M A) (m : option mem) : result unit (A * option mem) :=
  match m with
  | None => Ok (d, None)
  | Some m => match f m with
              | Ok (a, m') => Ok (a, Some m')
              | Err e => Err e
              | Fault => Fault
              end
  end.

Definition gem_memory_reserve (m : option mem) (a : option Z) (n : Z) :=
  locked (GEM_MEMORY_INVALID_ARGUMENT, a) (reserve_locked a n) m.
Definition gem_memory_commit (m : option mem) (a n prot : Z) :=
  locked GEM_MEMORY_INVALID_ARGUMENT (commit_locked a n prot) m.
Definition gem_memory_commit_identity (m : option mem) (a h n prot : Z) :=
  locked GEM_MEMORY_INVALID_ARGUMENT (commit_external_locked a h n prot true) m.
Definition gem_memory_commit_external (m : option mem) (a h n prot : Z) :=
  locked GEM_MEMORY_INVALID_ARGUMENT (commit_external_locked a h n prot false) m.
Definition gem_memory_decommit (m : option mem) (a n : Z) :=
  locked GEM_MEMORY_INVALID_ARGUMENT (decommit_locked a n) m.
Definition gem_memory_release (m : option mem) (a n : Z) :=
  locked GEM_MEMORY_INVALID_ARGUMENT (release_locked a n) m.
Definition gem_memory_unmap (m : option mem) (a n : Z) :=
  locked GEM_MEMORY_INVALID_ARGUMENT (unmap_locked a n) m.
Definition gem_memory_protect (m : option mem) (a n prot : Z) (old : option Z) :=
  locked (GEM_MEMORY_INVALID_ARGUMENT, old) (protect_locked a n prot old) m.
Definition gem_memory_alias (m : option mem) (a s n prot : Z) :=
  locked GEM_MEMORY_INVALID_ARGUMENT (alias_locked a s n prot) m.
Definition gem_memory_map_identity (m : option mem) (a h n prot : Z) :=
  locked GEM_MEMORY_INVALID_ARGUMENT (map_identity_locked a h n prot) m.
Definition gem_memory_bind_kuser (m : option mem) (h : Z) :=
  locked GEM_MEMORY_INVALID_ARGUMENT (bind_kuser_locked h) m.
Definition gem_memory_read (m : option mem) (a : Z) (b : option (list Z)) (n : Z) :=
  locked (GEM_MEMORY_INVALID_ARGUMENT, b) (access_memory_locked a b n false false false true) m.
Definition gem_memory_write (m : option mem) (a : Z) (b : option (list Z)) (n : Z) :=
  locked (GEM_MEMORY_INVALID_ARGUMENT, b) (access_memory_locked a b n true false false true) m.
Definition gem_memory_fetch (m : option mem) (a : Z) (b : option (list Z)) (n : Z) :=
  locked (GEM_MEMORY_INVALID_ARGUMENT, b) (access_memory_locked a b n false true false true) m.
Definition gem_memory_peek (m : option mem) (a : Z) (b : option (list Z)) (n : Z) :=
  locked (GEM_MEMORY_INVALID_ARGUMENT, b) (peek_locked a b n) m.
Definition gem_memory_read_deferred_guard (m : option mem) (a : Z) (b : option (list Z)) (n : Z) :=
  locked (GEM_MEMORY_INVALID_ARGUMENT, b) (access_memory_locked a b n false false false false) m.
Definition gem_memory_write_deferred_guard (m : option mem) (a : Z) (b : option (list Z)) (n : Z) :=
  locked (GEM_MEMORY_INVALID_ARGUMENT, b) (access_memory_locked a b n true false false false) m.
Definition gem_memory_is_executable (m : option mem) (a n : Z) : result unit (bool * option mem) :=
  locked false
    ('(e, _) ← access_memory_locked a None n false true true true;
     mret (bool_decide (e = GEM_MEMORY_OK))) m.

(** The KUSER pages [gem_memory_create] sets up: true when all three steps
    succeed. *)
Definition create_kuser : M bool :=
  '(e, canonical) ← reserve_locked (Some GEM_KUSER_CANONICAL_ADDRESS) GEM_GUEST_PAGE_SIZE;
  let canonical := default 0 canonical in
  if negb (bool_decide (e = GEM_MEMORY_OK)) then mret false
  else
    e ← commit_locked canonical GEM_GUEST_PAGE_SIZE GEM_PAGE_READWRITE;
    if negb (bool_decide (e = GEM_MEMORY_OK)) then mret false
    else
      e ← alias_locked GEM_KUSER_SHARED_DATA_ADDRESS canonical GEM_GUEST_PAGE_SIZE
            GEM_PAGE_READWRITE;
      mret (bool_decide (e = GEM_MEMORY_OK)).

(** [gem_memory_create] over the given host memory, once the locks exist: the
    object, or [None] with the state that is left when it returns NULL. *)
Definition gem_memory_create (host : gmap Z (list Z)) : result unit (option mem * mem) :=
  let body : M bool :=
    r ← alloc;
    match r with
    | None => mret false
    | Some _ =>
      r ← alloc;
      match r with
      | None => mret false
      | Some _ =>
        ok ← create_kuser;
        (if (ok : bool) then mret tt else remove_pages 0 UINT64_MAX);;
        mret ok
      end
    end in
  match body (Mem ∅ ∅ host 0 0) with
  | Ok (true, m) => Ok (Some m, m)
  | Ok (false, m) => Ok (None, m)
  | Err e => Err e
  | Fault => Fault
  end.

(** [gem_memory_destroy]: the state after every page is removed. *)
Definition gem_memory_destroy (m : option mem) : result unit (option mem) :=
  match m with
  | None => Ok None
  | Some m => match remove_pages 0 UINT64_MAX m with
              | Ok (_, m') => Ok (Some m')
              | Err e => Err e
              | Fault => Fault
              end
  end.
End operations.
