(* ===== verification/MemoryLogic.v ===== *)
(** MemoryLogic: the ownership invariant of the guest address space and a Hoare
    logic for the monad of MemoryModel.

    [st pins L] says that the reference count of every live backing is the
    number of pages that use it plus the references [pins] held elsewhere, that
    contents have the size of a page, and that the pages are laid out as [L]
    says.  [triple] is total up to [abort()]: a program that meets undefined
    behaviour satisfies none.  The rules below are the primitive steps' only
    interface to the operations' proofs. *)
From S2P Require Import Prelude MemoryModel.

(** ** Counting references *)

Definition holds (b : bid) (o : option bid) : Z := if bool_decide (o = Some b) then 1 else 0.

Definition count (b : bid) (ps : gmap Z page) : Z :=
  map_fold (fun _ p n => holds b (p_backing p) + n) 0 ps.

Lemma holds_nonneg b o : 0 <= holds b o.
Proof. unfold holds. case_bool_decide; lia. Qed.

Lemma holds_Some b : holds b (Some b) = 1.
Proof. unfold holds. by rewrite bool_decide_true. Qed.

Lemma holds_None b : holds b None = 0.
Proof. done. Qed.

Lemma holds_ne b c : b <> c -> holds b (Some c) = 0.
Proof. intros Hne. unfold holds. rewrite bool_decide_false; [done|naive_solver]. Qed.

Lemma count_fresh b ps a p :
  ps !! a = None -> count b (<[a := p]> ps) = holds b (p_backing p) + count b ps.
Proof.
  intros Ha. unfold count. rewrite map_fold_insert_L; [done| |done].
  intros. lia.
Qed.

Lemma count_delete b ps a p :
  ps !! a = Some p -> count b ps = holds b (p_backing p) + count b (delete a ps).
Proof.
  intros Ha. rewrite <- (insert_delete_id ps a p Ha) at 1.
  apply count_fresh, lookup_delete_eq.
Qed.

Lemma count_insert b ps a p q :
  ps !! a = Some q ->
  count b (<[a := p]> ps) + holds b (p_backing q) = holds b (p_backing p) + count b ps.
Proof.
  intros Ha. rewrite (count_delete b ps a q Ha).
  rewrite <- (insert_delete_eq ps), count_fresh by apply lookup_delete_eq. lia.
Qed.

Lemma count_nonneg b ps : 0 <= count b ps.
Proof.
  induction ps as [|a p ps Ha IH] using map_ind; [done|].
  rewrite count_fresh by done. pose proof (holds_nonneg b (p_backing p)). lia.
Qed.

Lemma count_pos b ps a p :
  ps !! a = Some p -> p_backing p = Some b -> 1 <= count b ps.
Proof.
  intros Ha Hb. rewrite (count_delete b ps a p Ha), Hb, holds_Some.
  pose proof (count_nonneg b (delete a ps)). lia.
Qed.

(** References held in a list. *)
Fixpoint occ (b : bid) (l : list (option bid)) : Z :=
  match l with [] => 0 | o :: l => holds b o + occ b l end.

Lemma occ_app b l l' : occ b (l ++ l') = occ b l + occ b l'.
Proof. induction l as [|o l IH]; cbn; lia. Qed.

Lemma occ_nonneg b l : 0 <= occ b l.
Proof. induction l as [|o l IH]; cbn; [done|]. pose proof (holds_nonneg b o). lia. Qed.

Lemma occ_reverse b l : occ b (reverse l) = occ b l.
Proof.
  induction l as [|o l IH]; [done|]. rewrite reverse_cons, occ_app, IH. cbn. lia.
Qed.

Lemma occ_pos b l : Some b ∈ l -> 1 <= occ b l.
Proof.
  induction l as [|o l IH]; cbn; [set_solver|]. intros [<- | Hin]%elem_of_cons.
  - rewrite holds_Some. pose proof (occ_nonneg b l). lia.
  - pose proof (holds_nonneg b o). specialize (IH Hin). lia.
Qed.

Definition pins_add (pins : bid -> Z) (l : list (option bid)) : bid -> Z :=
  fun b => pins b + occ b l.

Lemma pins_add_nonneg pins l : (forall b, 0 <= pins b) -> forall b, 0 <= pins_add pins l b.
Proof. intros H b. unfold pins_add. pose proof (H b). pose proof (occ_nonneg b l). lia. Qed.

(** ** The invariant *)

Definition layout (m : mem) : gmap Z (Z * Z) :=
  (fun p => (p_reservation_base p, p_reservation_size p)) <$> m_pages m.

Definition refs_ok (pins : bid -> Z) (m : mem) : Prop :=
  forall b, match m_backings m !! b with
  | Some bk => b_refs bk = count b (m_pages m) + pins b /\ 0 < b_refs bk /\ (b < m_allocs m)%nat
  | None => count b (m_pages m) + pins b = 0
  end.

Definition storage_ok (s : storage) : Prop :=
  match s with Owned l => length l = PAGE | Host _ => True end.

Definition data_ok (m : mem) : Prop :=
  (forall b bk, m_backings m !! b = Some bk -> storage_ok (b_data bk)) /\
  (forall h l, m_host m !! h = Some l -> length l = PAGE).

Record st (pins : bid -> Z) (L : gmap Z (Z * Z)) (m : mem) : Prop := {
  st_pins b : 0 <= pins b;
  st_refs : refs_ok pins m;
  st_data : data_ok m;
  st_generation : 0 <= m_next_generation m < 2 ^ 64;
  st_layout : layout m = L }.

(** Pins are compared pointwise. *)
#[export] Instance st_proper :
  Proper (pointwise_relation bid eq ==> eq ==> eq ==> iff) st.
Proof.
  intros p q Hpq ? L -> ? m ->.
  assert (forall b, p b = q b) as H by exact Hpq.
  split; intros [Hp Hr Hd Hg Hl]; split; try done; intros b;
    specialize (Hp b); specialize (Hr b); rewrite ?H, <- ?H in *; done.
Qed.

Lemma layout_lookup m a :
  layout m !! a = (fun p => (p_reservation_base p, p_reservation_size p)) <$> m_pages m !! a.
Proof. apply lookup_fmap. Qed.

Lemma layout_is_Some m a : is_Some (layout m !! a) <-> is_Some (m_pages m !! a).
Proof. by rewrite layout_lookup, fmap_is_Some. Qed.

Lemma layout_mapped pins L m a :
  st pins L m -> is_Some (L !! a) -> exists p, m_pages m !! a = Some p.
Proof. intros [_ _ _ _ <-] H. apply layout_is_Some in H as [p Hp]. eauto. Qed.

Lemma layout_insert m a p :
  layout (set_pages m (<[a := p]> (m_pages m)))
    = <[a := (p_reservation_base p, p_reservation_size p)]> (layout m).
Proof. unfold layout; cbn. by rewrite fmap_insert. Qed.

(** A backing that is used or pinned is live. *)
Lemma st_live pins L m b :
  st pins L m -> 0 < count b (m_pages m) + pins b ->
  exists bk, m_backings m !! b = Some bk /\ b_refs bk = count b (m_pages m) + pins b.
Proof.
  intros Hst Hpos. pose proof (st_refs _ _ _ Hst b) as Hb.
  destruct (m_backings m !! b) as [bk|]; [|lia]. destruct Hb. eauto.
Qed.

Lemma st_page_live pins L m a p b :
  st pins L m -> m_pages m !! a = Some p -> p_backing p = Some b ->
  exists bk, m_backings m !! b = Some bk.
Proof.
  intros Hst Ha Hb. destruct (st_live pins L m b Hst) as (bk & Hbk & _); [|eauto].
  pose proof (count_pos b (m_pages m) a p Ha Hb). pose proof (st_pins _ _ _ Hst b). lia.
Qed.

(** ** Triples *)

Definition triple {A} (P : mem -> Prop) (f : M A) (Q : A -> mem -> Prop) : Prop :=
  forall m, P m -> match f m with Ok (a, m') => Q a m' | Err _ => True | Fault => False end.

Section triples.
Context {A B : Type}.
Implicit Types (P R : mem -> Prop).

Lemma triple_conseq P P' (f : M A) (Q Q' : A -> mem -> Prop) :
  triple P' f Q' -> (forall m, P m -> P' m) -> (forall a m, Q' a m -> Q a m) -> triple P f Q.
Proof.
  intros H HP HQ m Hm. specialize (H m (HP m Hm)).
  destruct (f m) as [[a m']| |]; auto.
Qed.

Lemma triple_ret P (a : A) (Q : A -> mem -> Prop) :
  (forall m, P m -> Q a m) -> triple P (mret a) Q.
Proof. intros H m Hm. cbn. auto. Qed.

Lemma triple_bind P (f : M A) (g : A -> M B) (R : A -> mem -> Prop) (Q : B -> mem -> Prop) :
  triple P f R -> (forall a, triple (R a) (g a) Q) -> triple P (f ≫= g) Q.
Proof.
  intros Hf Hg m Hm. specialize (Hf m Hm). unfold mbind, M_bind.
  destruct (f m) as [[a m']| |]; [by apply Hg|done|done].
Qed.

Lemma triple_get P (g : mem -> M A) (Q : A -> mem -> Prop) :
  (forall m, P m -> triple (fun m' => m' = m) (g m) Q) -> triple P (get ≫= g) Q.
Proof. intros H m Hm. by apply (H m Hm m). Qed.

Lemma triple_pre P (f : M A) (Q : A -> mem -> Prop) :
  (forall m, P m -> triple (fun m' => m' = m) f Q) -> triple P f Q.
Proof. intros H m Hm. by apply (H m Hm m). Qed.
End triples.

Lemma triple_for_each_rest {A} (I : list A -> mem -> Prop) (body : A -> M unit) l :
  (forall x rest, x :: rest `suffix_of` l -> triple (I (x :: rest)) (body x) (fun _ => I rest)) ->
  triple (I l) (for_each l body) (fun _ : unit => I []).
Proof.
  induction l as [|x l IH]; intros H; cbn [for_each].
  - by apply triple_ret.
  - eapply triple_bind; [apply H; done|]. intros u; cbv beta. apply IH.
    intros y rest Hs. apply H. by apply suffix_cons_r.
Qed.

Lemma triple_for_each {A} (I : mem -> Prop) (body : A -> M unit) l :
  (forall x, x ∈ l -> triple I (body x) (fun _ => I)) ->
  triple I (for_each l body) (fun _ => I).
Proof.
  intros H. apply (triple_for_each_rest (fun _ => I)).
  intros x rest [k ->]. apply H. set_solver.
Qed.

(** Step over one command whose triple is known. *)
Tactic Notation "step" uconstr(H) :=
  eapply triple_bind; [eapply H | intros ?; cbv beta].

(** ** The primitive steps *)

Section steps.
Context (pins : bid -> Z) (L : gmap Z (Z * Z)).

Lemma deref_page_triple a :
  is_Some (L !! a) ->
  triple (st pins L) (deref_page a) (fun p m => st pins L m /\ m_pages m !! a = Some p).
Proof.
  intros Ha m Hm. destruct (layout_mapped _ _ _ _ Hm Ha) as [p Hp].
  unfold deref_page, mbind, M_bind, get, at_. rewrite Hp. cbn. auto.
Qed.

Lemma st_generation_update m g :
  st pins L m -> 0 <= g < 2 ^ 64 -> st pins L (set_next_generation m g).
Proof. intros [] ?. by split. Qed.

Lemma bump_triple : triple (st pins L) bump_generation (fun _ => st pins L).
Proof.
  intros m Hm. unfold bump_generation, mbind, M_bind, get, put, abort.
  destruct (wrap64 (m_next_generation m + 1) =? 0); cbn; [done|].
  apply st_generation_update; [done|]. apply Z.mod_pos_bound; lia.
Qed.

(** Replace a page by one of the same reservation: the backing it gives up is
    held by the code, and the backing it takes was. *)
Lemma st_set_page o m a p q :
  (forall b, 0 <= pins b) -> st (pins_add pins [o]) L m -> m_pages m !! a = Some q ->
  p_reservation_base p = p_reservation_base q -> p_reservation_size p = p_reservation_size q ->
  o = p_backing p ->
  st (pins_add pins [p_backing q]) L (set_pages m (<[a := p]> (m_pages m))).
Proof.
  intros Hpins Hst Ha Hb Hs ->. pose proof (st_layout _ _ _ Hst) as HL.
  assert (forall b, count b (<[a := p]> (m_pages m)) + (pins b + holds b (p_backing q)) =
                    count b (m_pages m) + (pins b + holds b (p_backing p))) as Hc.
  { intros b. pose proof (count_insert b (m_pages m) a p q Ha). lia. }
  destruct Hst as [Hp Hr Hd Hg _]. unfold refs_ok, pins_add in *; cbn [occ] in *. split; try done.
  - intros b. pose proof (Hpins b). pose proof (holds_nonneg b (p_backing q)). lia.
  - intros b. specialize (Hr b). specialize (Hc b). cbn.
    destruct (m_backings m !! b) as [bk|]; lia.
  - rewrite layout_insert, HL, Hb, Hs. apply insert_id.
    rewrite <- HL, layout_lookup, Ha. done.
Qed.

Lemma st_set_same m a p q :
  st pins L m -> m_pages m !! a = Some q ->
  p_reservation_base p = p_reservation_base q -> p_reservation_size p = p_reservation_size q ->
  p_backing p = p_backing q ->
  st pins L (set_pages m (<[a := p]> (m_pages m))).
Proof.
  intros Hst Ha Hb Hs Ho. pose proof (st_layout _ _ _ Hst) as HL.
  destruct Hst as [Hp Hr Hd Hg _]. split; try done.
  - intros b. specialize (Hr b). cbn. pose proof (count_insert b (m_pages m) a p q Ha) as Hc.
    rewrite Ho in Hc. destruct (m_backings m !! b) as [bk|]; lia.
  - rewrite layout_insert, HL, Hb, Hs. apply insert_id.
    rewrite <- HL, layout_lookup, Ha. done.
Qed.

Lemma modify_page_triple a f :
  is_Some (L !! a) ->
  (forall p, p_reservation_base (f p) = p_reservation_base p /\
             p_reservation_size (f p) = p_reservation_size p /\ p_backing (f p) = p_backing p) ->
  triple (st pins L) (modify_page a f) (fun _ => st pins L).
Proof.
  intros Ha Hf. unfold modify_page. step (deref_page_triple a Ha).
  intros m [Hm Hp]. cbn. destruct (Hf a0) as (? & ? & ?). by eapply st_set_same.
Qed.

Lemma touch_page_triple a :
  is_Some (L !! a) -> triple (st pins L) (touch_page a) (fun _ => st pins L).
Proof. intros Ha. unfold touch_page. step bump_triple. by apply modify_page_triple. Qed.

Lemma put_page_triple a p q :
  p_reservation_base p = p_reservation_base q -> p_reservation_size p = p_reservation_size q ->
  p_backing p = p_backing q ->
  triple (fun m => st pins L m /\ m_pages m !! a = Some q) (put_page a p) (fun _ => st pins L).
Proof. intros ? ? ? m [Hm Ha]. cbn. by eapply st_set_same. Qed.

(** A backing changes its contents or generation. *)
Lemma st_set_backing m (b : bid) bk bk' :
  st pins L m -> m_backings m !! b = Some bk -> b_refs bk' = b_refs bk ->
  storage_ok (b_data bk') ->
  st pins L (set_backings m (<[b := bk']> (m_backings m))).
Proof.
  intros [Hp Hr [Hd Hh] Hg HL] Hb Hrefs Hs. split; try done.
  - intros c. specialize (Hr c). cbn. destruct (decide (b = c)) as [<-|].
    + rewrite lookup_insert_eq. rewrite Hb in Hr. by rewrite Hrefs.
    + by rewrite lookup_insert_ne.
  - split; [|done]. intros c bk0. cbn. destruct (decide (b = c)) as [<-|].
    + rewrite lookup_insert_eq. by intros [= <-].
    + rewrite lookup_insert_ne by done. apply Hd.
Qed.

Lemma drop_triple b :
  (forall b, 0 <= pins b) ->
  triple (st (pins_add pins [b]) L) (drop_backing b) (fun _ => st pins L).
Proof.
  intros Hpins m Hm. destruct b as [b|]; cbn.
  2:{ revert Hm. apply st_proper; [|done|done]. intros c. unfold pins_add. cbn.
      rewrite holds_None. lia. }
  pose proof (Hpins b) as Hpb. destruct Hm as [Hp Hr [Hd Hh] Hg HL].
  unfold refs_ok, pins_add in *; cbn [occ] in *. pose proof (Hr b) as Hb. rewrite holds_Some in Hb.
  pose proof (count_nonneg b (m_pages m)).
  unfold mbind, M_bind, deref_backing, get, put, mbind. cbn.
  destruct (m_backings m !! b) as [bk|] eqn:E; cbn; [|lia].
  assert (forall c, c <> b -> holds c (Some b) = 0) as Hne by (intros; by apply holds_ne).
  destruct (Z.eqb_spec (b_refs bk - 1) 0).
  - split; try done.
    + intros c. specialize (Hr c). cbn. destruct (decide (b = c)) as [<-|].
      * rewrite lookup_delete_eq. lia.
      * rewrite lookup_delete_ne by done. rewrite Hne in Hr by done.
        destruct (m_backings m !! c); lia.
    + split; [|done]. intros c bk0. cbn. rewrite lookup_delete_Some. intros [_ ?]. eauto.
  - split; try done.
    + intros c. specialize (Hr c). cbn. destruct (decide (b = c)) as [<-|].
      * rewrite lookup_insert_eq. cbn. lia.
      * rewrite lookup_insert_ne by done. rewrite Hne in Hr by done.
        destruct (m_backings m !! c); lia.
    + split; [|done]. intros c bk0. cbn. destruct (decide (b = c)) as [<-|].
      * rewrite lookup_insert_eq. intros [= <-]. cbn. eauto.
      * rewrite lookup_insert_ne by done. eauto.
Qed.

Lemma add_ref_live_triple (b : bid) :
  triple (fun m => st pins L m /\ is_Some (m_backings m !! b))
    (add_ref (Some b))
    (fun _ m => st (pins_add pins [Some b]) L m /\ is_Some (m_backings m !! b)).
Proof.
  intros m (Hm & [bk Hbk]).
  unfold add_ref, deref_backing, mbind, M_bind, get. rewrite Hbk. cbn.
  split; [|eexists; apply lookup_insert_eq].
  destruct Hm as [Hp Hr [Hd Hh] Hg HL]. unfold pins_add. split; cbn [occ]; try done.
  - intros c. specialize (Hp c). pose proof (holds_nonneg c (Some b)). lia.
  - intros c. specialize (Hr c). cbn. destruct (decide (b = c)) as [<-|].
    + rewrite lookup_insert_eq, holds_Some. rewrite Hbk in Hr. cbn. lia.
    + rewrite lookup_insert_ne, holds_ne by done. destruct (m_backings m !! c); lia.
  - split; [|done]. intros c bk0. cbn. destruct (decide (b = c)) as [<-|].
    + rewrite lookup_insert_eq. intros [= <-]. cbn. eauto.
    + rewrite lookup_insert_ne by done. eauto.
Qed.

Lemma add_ref_triple a p b :
  triple (fun m => st pins L m /\ m_pages m !! a = Some p /\ p_backing p = Some b)
    (add_ref (Some b)) (fun _ => st (pins_add pins [Some b]) L).
Proof.
  eapply triple_conseq; [apply add_ref_live_triple| |by intros u m [? _]].
  intros m (Hm & Ha & Hb). destruct (st_page_live _ _ _ _ _ _ Hm Ha Hb) as [bk Hbk]. eauto.
Qed.

Lemma touch_backing_triple (b : bid) :
  triple (fun m => st pins L m /\ is_Some (m_backings m !! b)) (touch_backing (Some b))
    (fun _ => st pins L).
Proof.
  intros m [Hm [bk Hbk]]. unfold touch_backing, bump_generation, mbind, M_bind, get, put, abort.
  destruct (wrap64 (m_next_generation m + 1) =? 0); cbn; [done|].
  unfold deref_backing, mbind, M_bind, get. cbn. rewrite Hbk. cbn.
  eapply (st_set_backing (set_next_generation m _)); cbn; [|exact Hbk|done|].
  - apply st_generation_update; [done|]. apply Z.mod_pos_bound; lia.
  - by apply (st_data _ _ _ Hm) in Hbk.
Qed.

Lemma length_memcpy dst off src :
  (Z.to_nat off + length src <= length dst)%nat -> length (memcpy dst off src) = length dst.
Proof. unfold memcpy. rewrite !length_app, length_take, length_drop. lia. Qed.

Lemma length_contents m bk :
  data_ok m -> storage_ok (b_data bk) -> length (contents m bk) = PAGE.
Proof.
  intros [_ Hh] Hs. unfold contents, host_page. destruct (b_data bk) as [l|h]; [done|].
  destruct (m_host m !! h) eqn:E; cbn; [eauto|apply length_replicate].
Qed.

Lemma store_backing_triple (b : bid) off src :
  (Z.to_nat off + length src <= PAGE)%nat ->
  triple (fun m => st pins L m /\ is_Some (m_backings m !! b)) (store_backing (Some b) off src)
    (fun _ m => st pins L m /\ is_Some (m_backings m !! b)).
Proof.
  intros Hlen m [Hm [bk Hbk]]. pose proof (st_data _ _ _ Hm) as Hd.
  pose proof (proj1 Hd _ _ Hbk) as Hs.
  unfold store_backing, deref_backing, put_backing, mbind, M_bind, get. rewrite Hbk. cbn.
  destruct (b_data bk) as [l|h] eqn:E; cbn.
  - split; [|by rewrite lookup_insert_eq].
    eapply st_set_backing; [done|exact Hbk|done|]. cbn in *. rewrite length_memcpy; lia.
  - split; [|by rewrite Hbk]. destruct Hm as [Hp Hr _ Hg HL]. split; try done.
    split; [apply Hd|]. intros h' l'. cbn. destruct (decide (h = h')) as [<-|].
    + rewrite lookup_insert_eq. intros [= <-].
      pose proof (length_contents m bk Hd) as Hc. unfold contents in Hc. rewrite E in Hc.
      rewrite length_memcpy; rewrite Hc; done.
    + rewrite lookup_insert_ne by done. apply Hd.
Qed.

(** A page leaves the table and its reference stays with the code. *)
Lemma st_delete_page m a p :
  (forall b, 0 <= pins b) ->
  st pins L m -> m_pages m !! a = Some p ->
  st (pins_add pins [p_backing p]) (delete a L) (set_pages m (delete a (m_pages m))).
Proof.
  intros Hpins [Hp Hr Hd Hg HL] Ha. unfold pins_add. split; try done; cbn [occ].
  - intros b. pose proof (Hpins b). pose proof (holds_nonneg b (p_backing p)). lia.
  - intros b. specialize (Hr b). cbn. pose proof (count_delete b (m_pages m) a p Ha).
    unfold pins_add; cbn [occ]. destruct (m_backings m !! b); lia.
  - rewrite <- HL. unfold layout; cbn. by rewrite fmap_delete.
Qed.

(** A new page takes over a reference held by the code. *)
Lemma st_add_page m a p :
  (forall b, 0 <= pins b) ->
  st (pins_add pins [p_backing p]) L m -> L !! a = None ->
  st pins (<[a := (p_reservation_base p, p_reservation_size p)]> L)
    (set_pages m (<[a := p]> (m_pages m))).
Proof.
  intros Hpins [Hp Hr Hd Hg HL] Ha. unfold refs_ok, pins_add in *; cbn [occ] in *.
  assert (m_pages m !! a = None) as Hm.
  { rewrite <- HL in Ha. rewrite layout_lookup in Ha. by apply fmap_None in Ha. }
  split; try done.
  - intros b. specialize (Hr b). cbn. rewrite count_fresh by done.
    unfold pins_add in Hr; cbn [occ] in Hr. destruct (m_backings m !! b); lia.
  - by rewrite layout_insert, HL.
Qed.

Lemma st_allocs m : st pins L m -> st pins L (set_allocs m (S (m_allocs m))).
Proof.
  intros [Hp Hr Hd Hg HL]. split; try done. intros b. specialize (Hr b). cbn.
  destruct (m_backings m !! b); [|done]. intuition lia.
Qed.

Lemma alloc_triple `{!Platform} : triple (st pins L) alloc (fun _ => st pins L).
Proof. intros m Hm. unfold alloc, mbind, M_bind, get, put. cbn. by apply st_allocs. Qed.

Lemma alloc_fresh m (k : bid) : st pins L m -> (m_allocs m <= k)%nat -> m_backings m !! k = None.
Proof.
  intros Hm Hk. pose proof (st_refs _ _ _ Hm k) as Hr.
  destruct (m_backings m !! k); [|done]. exfalso. destruct Hr as (_ & _ & Hr). lia.
Qed.

(** A fresh backing enters the heap with one reference. *)
Lemma st_new_backing m (b : bid) bk :
  st pins L m -> m_backings m !! b = None -> (b < m_allocs m)%nat -> b_refs bk = 1 ->
  storage_ok (b_data bk) ->
  st (pins_add pins [Some b]) L (set_backings m (<[b := bk]> (m_backings m))).
Proof.
  intros [Hp Hr [Hd Hh] Hg HL] Hb Hk Hrefs Hs. unfold pins_add. split; cbn [occ]; try done.
  - intros c. specialize (Hp c). pose proof (holds_nonneg c (Some b)). lia.
  - intros c. specialize (Hr c). cbn. destruct (decide (b = c)) as [<-|].
    + rewrite lookup_insert_eq, holds_Some. rewrite Hb in Hr. lia.
    + rewrite lookup_insert_ne, holds_ne by done. destruct (m_backings m !! c); lia.
  - split; [|done]. intros c bk0. cbn. destruct (decide (b = c)) as [<-|].
    + rewrite lookup_insert_eq. by intros [= <-].
    + rewrite lookup_insert_ne by done. apply Hd.
Qed.

Lemma new_backing_triple `{!Platform} data :
  triple (st pins L) (new_backing data)
    (fun r m => match r with
                | None => st pins L m
                | Some b => st (pins_add pins [Some b]) L m /\ is_Some (m_backings m !! b)
                end).
Proof.
  intros m Hm. pose proof (alloc_fresh m (m_allocs m) Hm ltac:(lia)) as Hf.
  pose proof (st_allocs m Hm) as H1. pose proof (st_allocs _ H1) as H2.
  unfold new_backing, put_backing, alloc, mbind, M_bind, get, put. cbn.
  destruct (allocation (m_allocs m)) as [junk|]; cbn; [|done].
  destruct data as [h|]; cbn.
  - split; [|by rewrite lookup_insert_eq].
    apply (st_new_backing (set_allocs m _)); cbn; auto with lia.
  - destruct (allocation (S (m_allocs m))); cbn; [|done].
    split; [|by rewrite lookup_insert_eq].
    apply (st_new_backing (set_allocs (set_allocs m _) _)); cbn; auto with lia.
Qed.
End steps.

(** The run of a sequence. *)
Lemma bind_run {A B} (f : M A) (g : A -> M B) m b m' :
  (f ≫= g) m = Ok (b, m') -> exists a m1, f m = Ok (a, m1) /\ g a m1 = Ok (b, m').
Proof.
  unfold mbind, M_bind. destruct (f m) as [[a m1]| |]; [|done|done]. eauto.
Qed.

(** ** What a program leaves alone *)

Definition keeps {A X} (proj : mem -> X) (f : M A) : Prop :=
  forall m a m', f m = Ok (a, m') -> proj m' = proj m.

Section keeps.
Context {X : Type} (proj : mem -> X).

Lemma keeps_ret {A} (a : A) : keeps proj (mret a).
Proof. intros m b m' [= <- <-]. done. Qed.

Lemma keeps_bind {A B} (f : M A) (g : A -> M B) :
  keeps proj f -> (forall a, keeps proj (g a)) -> keeps proj (f ≫= g).
Proof.
  intros Hf Hg m b m' H. unfold mbind, M_bind in H.
  destruct (f m) as [[a m1]| |] eqn:E; [|discriminate|discriminate].
  rewrite (Hg a m1 b m' H). by apply (Hf m a).
Qed.

Lemma keeps_get : keeps proj get.
Proof. by intros m a m' [= <- <-]. Qed.

Lemma keeps_fault {A} : keeps proj (fault (A := A)).
Proof. done. Qed.

Lemma keeps_abort {A} : keeps proj (abort (A := A)).
Proof. done. Qed.

Lemma keeps_get_put (f : mem -> mem) :
  (forall m, proj (f m) = proj m) -> keeps proj (m ← get; put (f m)).
Proof. intros Hk m a m' E. injection E as <- <-. apply Hk. Qed.

Lemma keeps_get_bind {A} (g : mem -> M A) :
  (forall m, keeps proj (g m)) -> keeps proj (get ≫= g).
Proof. intros H. apply keeps_bind; [apply keeps_get|done]. Qed.

Lemma keeps_for_each {A} (body : A -> M unit) l :
  (forall x, keeps proj (body x)) -> keeps proj (for_each l body).
Proof.
  intros H. induction l as [|x l IH]; cbn; [apply keeps_ret|].
  apply keeps_bind; [apply H|done].
Qed.

Lemma triple_keeps {A} P (f : M A) (Q : A -> mem -> Prop) v :
  keeps proj f -> triple P f Q ->
  triple (fun m => P m /\ proj m = v) f (fun a m => Q a m /\ proj m = v).
Proof.
  intros Hk Ht m [Hm <-]. specialize (Ht m Hm). specialize (Hk m).
  destruct (f m) as [[a m']| |]; [|done|done]. split; [done|by apply (Hk a)].
Qed.
End keeps.

(** The components that the heap primitives leave alone. *)
Lemma keeps_deref_page {X} (proj : mem -> X) a : keeps proj (deref_page a).
Proof.
  intros m p m'. unfold deref_page, mbind, M_bind, get, at_.
  destruct (m_pages m !! a); [by intros [= <- <-]|done].
Qed.

Lemma keeps_deref_backing {X} (proj : mem -> X) b : keeps proj (deref_backing b).
Proof.
  intros m p m'. unfold deref_backing, mbind, M_bind, get.
  destruct b as [b|]; [|done]. destruct (m_backings m !! b); [by intros [= <- <-]|done].
Qed.

Lemma keeps_put_backing {X} (proj : mem -> X) b bk :
  (forall m bs, proj (set_backings m bs) = proj m) -> keeps proj (put_backing b bk).
Proof. intros H. apply keeps_get_put. intros; apply H. Qed.

Lemma keeps_put_page {X} (proj : mem -> X) a p :
  (forall m ps, proj (set_pages m ps) = proj m) -> keeps proj (put_page a p).
Proof. intros H. apply keeps_get_put. intros; apply H. Qed.

Lemma keeps_bump {X} (proj : mem -> X) :
  (forall m g, proj (set_next_generation m g) = proj m) -> keeps proj bump_generation.
Proof.
  intros H m a m'. unfold bump_generation, mbind, M_bind, get, put, abort.
  destruct (wrap64 (m_next_generation m + 1) =? 0); cbn; [done|]. intros [= <- <-]. apply H.
Qed.

Lemma keeps_alloc `{!Platform} {X} (proj : mem -> X) :
  (forall m k, proj (set_allocs m k) = proj m) -> keeps proj alloc.
Proof. intros Hk m a m' E. injection E as <- <-. apply Hk. Qed.

Lemma keeps_drop {X} (proj : mem -> X) b :
  (forall m bs, proj (set_backings m bs) = proj m) -> keeps proj (drop_backing b).
Proof.
  intros H. destruct b as [b|]; cbn; [|apply keeps_ret].
  apply keeps_bind; [apply keeps_deref_backing|]. intros [c bk].
  intros m a m'. unfold mbind, M_bind, get, put.
  destruct (b_refs bk - 1 =? 0); intros [= <- <-]; apply H.
Qed.

Lemma keeps_new_backing `{!Platform} {X} (proj : mem -> X) d :
  (forall m bs, proj (set_backings m bs) = proj m) ->
  (forall m k, proj (set_allocs m k) = proj m) -> keeps proj (new_backing d).
Proof.
  intros H1 H2. unfold new_backing.
  apply keeps_bind; [by apply keeps_alloc|]. intros [[b junk]|]; [|apply keeps_ret].
  assert (forall s, keeps proj (put_backing b (Backing s 1 junk);; mret (Some b))).
  { intros s. apply keeps_bind; [by apply keeps_put_backing|]. intros; apply keeps_ret. }
  destruct d; [done|]. apply keeps_bind; [by apply keeps_alloc|].
  intros [?|]; [done|apply keeps_ret].
Qed.

Lemma keeps_store_backing {X} (proj : mem -> X) b off src :
  (forall m bs, proj (set_backings m bs) = proj m) ->
  (forall m h, proj (set_host m h) = proj m) -> keeps proj (store_backing b off src).
Proof.
  intros H1 H2. unfold store_backing. apply keeps_bind; [apply keeps_deref_backing|].
  intros [c bk]. destruct (b_data bk) as [l|h].
  - apply keeps_get_bind. intros m. by apply keeps_put_backing.
  - intros m a m'. unfold mbind, M_bind, get, put. intros [= <- <-]. apply H2.
Qed.

Lemma keeps_touch_backing {X} (proj : mem -> X) b :
  (forall m bs, proj (set_backings m bs) = proj m) ->
  (forall m g, proj (set_next_generation m g) = proj m) -> keeps proj (touch_backing b).
Proof.
  intros H1 H2. unfold touch_backing. apply keeps_bind; [by apply keeps_bump|]. intros g.
  apply keeps_bind; [apply keeps_deref_backing|]. intros [c bk]. by apply keeps_put_backing.
Qed.

Lemma keeps_add_ref {X} (proj : mem -> X) b :
  (forall m bs, proj (set_backings m bs) = proj m) -> keeps proj (add_ref b).
Proof.
  intros H1. unfold add_ref.
  apply keeps_bind; [apply keeps_deref_backing|]. intros [c bk]. by apply keeps_put_backing.
Qed.

Lemma keeps_touch_page {X} (proj : mem -> X) a :
  (forall m ps, proj (set_pages m ps) = proj m) ->
  (forall m g, proj (set_next_generation m g) = proj m) -> keeps proj (touch_page a).
Proof.
  intros H1 H2. unfold touch_page. apply keeps_bind; [by apply keeps_bump|]. intros g.
  unfold modify_page. apply keeps_bind; [apply keeps_deref_page|]. intros p.
  by apply keeps_put_page.
Qed.

Lemma keeps_modify_page {X} (proj : mem -> X) a f :
  (forall m ps, proj (set_pages m ps) = proj m) -> keeps proj (modify_page a f).
Proof.
  intros H1. unfold modify_page. apply keeps_bind; [apply keeps_deref_page|]. intros p.
  by apply keeps_put_page.
Qed.

#[export] Hint Resolve keeps_ret keeps_get keeps_fault keeps_abort keeps_deref_page
  keeps_deref_backing : gem.
#[export] Hint Extern 1 (keeps _ (put_backing _ _)) => apply keeps_put_backing; done : gem.
#[export] Hint Extern 1 (keeps _ (put_page _ _)) => apply keeps_put_page; done : gem.
#[export] Hint Extern 1 (keeps _ bump_generation) => apply keeps_bump; done : gem.
#[export] Hint Extern 1 (keeps _ alloc) => apply keeps_alloc; done : gem.
#[export] Hint Extern 1 (keeps _ (drop_backing _)) => apply keeps_drop; done : gem.
#[export] Hint Extern 1 (keeps _ (new_backing _)) => apply keeps_new_backing; done : gem.
#[export] Hint Extern 1 (keeps _ (store_backing _ _ _)) => apply keeps_store_backing; done : gem.
#[export] Hint Extern 1 (keeps _ (touch_backing _)) => apply keeps_touch_backing; done : gem.
#[export] Hint Extern 1 (keeps _ (touch_page _)) => apply keeps_touch_page; done : gem.
#[export] Hint Extern 1 (keeps _ (modify_page _ _)) => apply keeps_modify_page; done : gem.
#[export] Hint Extern 1 (keeps _ (add_ref _)) => apply keeps_add_ref; done : gem.

(** Walk a program's structure down to its primitive steps. *)
Ltac keeps_step :=
  first
  [ solve [eauto with gem]
  | apply keeps_bind; [|intros ?]
  | apply keeps_for_each; intros ?
  | match goal with |- context [match ?x with _ => _ end] => destruct x end ].
Ltac solve_keeps := repeat keeps_step.

(** The same for a component that the command keeps, and with the precondition
    of the rule left to prove. *)
Tactic Notation "step_keeping" constr(proj) uconstr(H) :=
  eapply triple_bind;
  [eapply (triple_keeps proj); [solve_keeps | eapply H] | intros ?; cbv beta].
Tactic Notation "step_pre" uconstr(H) :=
  eapply triple_bind;
  [eapply triple_conseq; [eapply H | | intros ? ? HQ; exact HQ] | intros ?; cbv beta].
Tactic Notation "step_pre_keeping" constr(proj) uconstr(H) :=
  eapply triple_bind;
  [eapply triple_conseq; [eapply (triple_keeps proj); [solve_keeps | eapply H] | |
                          intros ? ? HQ; exact HQ]
  | intros ?; cbv beta].

(** ** Regrouping pins *)

Lemma st_pins_eq pins pins' L m :
  (forall b, pins b = pins' b) -> st pins L m -> st pins' L m.
Proof. intros H. by apply st_proper. Qed.

Lemma st_pins_nil pins L m : st (pins_add pins []) L m <-> st pins L m.
Proof. split; apply st_pins_eq; intros b; unfold pins_add; cbn; lia. Qed.

Lemma st_pins_None pins L m : st (pins_add pins [None]) L m <-> st pins L m.
Proof. split; apply st_pins_eq; intros b; unfold pins_add; cbn; rewrite holds_None; lia. Qed.

Lemma st_pins_app pins l l' L m :
  st (pins_add pins (l ++ l')) L m <-> st (pins_add (pins_add pins l) l') L m.
Proof. split; apply st_pins_eq; intros b; unfold pins_add; rewrite occ_app; lia. Qed.

Lemma st_pins_cons pins o l L m :
  st (pins_add pins (o :: l)) L m <-> st (pins_add (pins_add pins l) [o]) L m.
Proof. split; apply st_pins_eq; intros b; unfold pins_add; cbn; lia. Qed.

(** Drop every reference of a list. *)
Lemma drop_list_triple pins L l :
  (forall b, 0 <= pins b) ->
  triple (st (pins_add pins l) L) (for_each l drop_backing) (fun _ => st pins L).
Proof.
  intros Hp. eapply triple_conseq.
  - apply (triple_for_each_rest (fun rest => st (pins_add pins rest) L)).
    intros o rest _. eapply triple_conseq.
    + apply (drop_triple (pins_add pins rest) L o). by apply pins_add_nonneg.
    + intros m. cbv beta. by rewrite st_pins_cons.
    + done.
  - done.
  - intros u m. cbv beta. by rewrite st_pins_nil.
Qed.
