(* ===== verification/MemoryInv.v ===== *)
(** MemoryInv: every operation of Memory keeps the ownership invariant of
    MemoryLogic and the shape of the reservations, and never meets undefined
    behaviour.  [layout_ok] is the invariant of the reservations: every page
    lies in its reservation, and all pages of a reservation are present with
    the same base and size. *)
From S2P Require Import Prelude MemoryModel Memory MemoryLogic.

(** ** Page arithmetic *)

Lemma elem_of_page_range x lo hi :
  x ∈ page_range lo hi <-> lo <= x < hi /\ (x - lo) mod 4096 = 0.
Proof.
  unfold page_range. rewrite list_elem_of_fmap. setoid_rewrite elem_of_seqZ. split.
  - intros (i & -> & Hi). replace (lo + 4096 * i - lo) with (i * 4096) by lia.
    rewrite Z.mod_mul by lia. split; [|done]. 
    pose proof (Z.mul_div_le (hi - lo + 4095) 4096). lia.
  - intros [Hx Hm]. exists ((x - lo) / 4096).
    pose proof (Z.div_mod (x - lo) 4096). split; [lia|].
    split; [apply Z.div_pos; lia|].
    rewrite Z.add_0_l. apply Z.lt_le_trans with ((x - lo) / 4096 + 1); [lia|].
    apply Z.div_le_lower_bound; lia.
Qed.

Lemma NoDup_page_range lo hi : NoDup (page_range lo hi).
Proof. apply NoDup_fmap_2; [intros ? ? ?; lia|apply NoDup_seqZ]. Qed.

Lemma has_bits_4095 a : has_bits a 4095 = negb (a mod 4096 =? 0).
Proof. unfold has_bits. change 4095 with (Z.ones 12). by rewrite Z.land_ones by lia. Qed.

Lemma range_ok_spec a n :
  range_ok a n = true <->
  n <> 0 /\ a mod 4096 = 0 /\ n mod 4096 = 0 /\ a <= UINT64_MAX - n.
Proof.
  unfold range_ok. rewrite !has_bits_4095, !negb_involutive.
  rewrite !andb_true_iff, negb_true_iff, Z.eqb_neq, !Z.eqb_eq, Z.leb_le. tauto.
Qed.

Lemma first_error_None {A} (f : A -> option gem_memory_error) l :
  first_error f l = None <-> forall x, x ∈ l -> f x = None.
Proof.
  induction l as [|x l IH]; cbn; [set_solver|].
  destruct (f x) eqn:E.
  - split; [done|]. intros H. rewrite (H x) in E by set_solver. done.
  - rewrite IH. set_solver.
Qed.

Lemma first_error_Some {A} (f : A -> option gem_memory_error) l e :
  first_error f l = Some e -> exists x, x ∈ l /\ f x = Some e.
Proof.
  induction l as [|x l IH]; cbn; [done|].
  destruct (f x) eqn:E; [intros [= ->]; set_solver|]. intros H. destruct (IH H). set_solver.
Qed.

Lemma check_OK m a n c :
  check m a n c = GEM_MEMORY_OK ->
  range_ok a n = true /\
  forall o, o ∈ page_range 0 n -> exists p, m_pages m !! (a + o) = Some p /\
    (c = true -> is_Some (p_backing p)).
Proof.
  unfold check. destruct (range_ok a n); cbn [negb]; [|done]. intros H. split; [done|].
  intros o Ho. destruct (first_error _ _) as [e|] eqn:E; cbn in H; [subst e|].
  - apply first_error_Some in E as (x & _ & Hx). by repeat case_match.
  - pose proof (proj1 (first_error_None _ _) E o Ho) as Hf. cbn in Hf.
    unfold at_ in Hf. destruct (m_pages m !! (a + o)) as [p|]; [|done].
    exists p. split; [done|]. intros ->. destruct (p_backing p); [eauto|done].
Qed.

Lemma if_bool_decide_ext {A} (P Q : Prop) `{!Decision P, !Decision Q} (x y : A) :
  (P <-> Q) -> (if bool_decide P then x else y) = (if bool_decide Q then x else y).
Proof. intros H. by rewrite (bool_decide_ext P Q H). Qed.

(** ** Reservations *)

Definition layout_ok (L : gmap Z (Z * Z)) : Prop :=
  forall a base size, L !! a = Some (base, size) ->
    0 <= base /\ base mod 4096 = 0 /\ size mod 4096 = 0 /\ base + size <= UINT64_MAX /\
    a mod 4096 = 0 /\ base <= a < base + size /\
    forall x, base <= x < base + size -> x mod 4096 = 0 -> L !! x = Some (base, size).

(** The invariant of the whole object. *)
Definition inv (pins : bid -> Z) (m : mem) : Prop :=
  exists L, st pins L m /\ layout_ok L.

Lemma inv_layout pins m : inv pins m -> st pins (layout m) m /\ layout_ok (layout m).
Proof. intros (L & Hst & Hok). by rewrite (st_layout _ _ _ Hst). Qed.

Lemma page_offset_aligned a o n :
  a mod 4096 = 0 -> o ∈ page_range 0 n -> (a + o) mod 4096 = 0.
Proof.
  rewrite elem_of_page_range, Z.sub_0_r. intros Ha [_ Ho].
  rewrite Z.add_mod, Ha, Ho by lia. done.
Qed.

Lemma in_page_range a x n :
  a mod 4096 = 0 -> x mod 4096 = 0 -> a <= x < a + n -> x - a ∈ page_range 0 n.
Proof.
  intros Ha Hx Hr. rewrite elem_of_page_range, Z.sub_0_r. split; [lia|].
  rewrite Zminus_mod, Ha, Hx. done.
Qed.

Lemma aligned_sub x lo : lo mod 4096 = 0 -> (x - lo) mod 4096 = 0 <-> x mod 4096 = 0.
Proof.
  intros Hlo. rewrite Zminus_mod, Hlo, Z.sub_0_r, Zmod_mod. done.
Qed.

(** Add the reservation [b, n] on the addresses of [keys]. *)
Lemma layout_ok_reserve L L' b n :
  layout_ok L -> 0 <= b -> b mod 4096 = 0 -> n mod 4096 = 0 -> b + n <= UINT64_MAX ->
  (forall o, o ∈ page_range 0 n -> L !! (b + o) = None) ->
  (forall x, L' !! x = if bool_decide (b <= x < b + n /\ x mod 4096 = 0)
                       then Some (b, n) else L !! x) ->
  layout_ok L'.
Proof.
  intros HL Hb Hbm Hnm Hbn Hfree HL' a base size Ha. rewrite HL' in Ha.
  case_bool_decide as Hin.
  - injection Ha as <- <-. split_and!; try (done || lia). intros x Hx Hxm.
    rewrite HL', bool_decide_true by done. done.
  - destruct (HL _ _ _ Ha) as (? & ? & ? & ? & ? & ? & Hall). split_and!; try (done || lia).
    intros x Hx Hxm. rewrite HL', bool_decide_false; [by apply Hall|].
    intros [Hxb _]. specialize (Hall x Hx Hxm).
    specialize (Hfree (x - b) ltac:(by apply in_page_range)).
    replace (b + (x - b)) with x in Hfree by lia. congruence.
Qed.

(** Remove [a, a + n) from the reservation [base, size] and split the rest. *)
Lemma layout_ok_split L L' base size a n :
  layout_ok L -> L !! a = Some (base, size) -> 0 < n -> n mod 4096 = 0 ->
  a + n <= base + size ->
  (forall x, L' !! x =
    if bool_decide (a <= x < a + n) then None
    else if bool_decide (base <= x < a /\ x mod 4096 = 0) then Some (base, a - base)
    else if bool_decide (a + n <= x < base + size /\ x mod 4096 = 0)
    then Some (a + n, base + size - (a + n))
    else L !! x) ->
  layout_ok L'.
Proof.
  intros HL Ha Hn Hnm Hend HL' x b s Hx.
  destruct (HL _ _ _ Ha) as (Hb0 & Hbm & Hsm & Hbs & Ham & Hab & Hall).
  assert ((a + n) mod 4096 = 0) as Hanm by (rewrite Z.add_mod, Ham, Hnm by lia; done).
  assert ((base + size) mod 4096 = 0) as Hem by (rewrite Z.add_mod, Hbm, Hsm by lia; done).
  rewrite HL' in Hx. case_bool_decide as H1; [done|].
  case_bool_decide as H2; [|case_bool_decide as H3].
  - injection Hx as <- <-. split_and!; try (done || lia).
    + by rewrite (proj2 (aligned_sub a base Hbm)).
    + intros y Hy Hym. rewrite HL', bool_decide_false by lia.
      by rewrite bool_decide_true by (split; [lia|done]).
  - injection Hx as <- <-. split_and!; try (done || lia).
    + by rewrite (proj2 (aligned_sub (base + size) (a + n) Hanm)).
    + intros y Hy Hym. rewrite HL', bool_decide_false by lia.
      rewrite bool_decide_false by lia. by rewrite bool_decide_true by (split; [lia|done]).
  - destruct (HL _ _ _ Hx) as (? & ? & ? & ? & Hxm & ? & Hallx).
    assert (~ base <= x < base + size) as Hout by (intros ?; lia).
    split_and!; try (done || lia). intros y Hy Hym.
    assert (~ base <= y < base + size) as Hyout.
    { intros Hin. pose proof (Hall y Hin Hym) as E. rewrite (Hallx y Hy Hym) in E.
      injection E as <- <-. lia. }
    rewrite HL', !bool_decide_false by lia. by apply Hallx.
Qed.

(** ** Commit *)

Lemma page_exact_triple pins L (P : mem -> Prop) a f ps p :
  (forall b, 0 <= pins b) ->
  ps !! a = Some p ->
  p_reservation_base (f p) = p_reservation_base p ->
  p_reservation_size (f p) = p_reservation_size p -> p_backing (f p) = p_backing p ->
  triple (fun m => st pins L m /\ m_pages m = ps) (modify_page a f)
    (fun _ m => st pins L m /\ m_pages m = <[a := f p]> ps).
Proof.
  intros Hp Ha Hb Hs Ho m [Hm <-]. unfold modify_page, deref_page, put_page, mbind, M_bind, get, put, at_.
  rewrite Ha. cbn. split; [by eapply st_set_same|done].
Qed.

Lemma touch_exact_triple pins L a ps p :
  ps !! a = Some p ->
  triple (fun m => st pins L m /\ m_pages m = ps) (touch_page a)
    (fun _ m => st pins L m /\ exists g, m_pages m = <[a := with_generation p g]> ps).
Proof.
  intros Ha m [Hm <-]. unfold touch_page.
  pose proof (bump_triple pins L m Hm) as Hb. pose proof (keeps_bump m_pages ltac:(done) m) as Hk.
  unfold mbind, M_bind.
  destruct (bump_generation m) as [[g m1]| |]; [|done|done].
  specialize (Hk g m1 eq_refl). unfold modify_page, deref_page, put_page, mbind, M_bind, get, put, at_.
  rewrite Hk, Ha. cbn. split; [|by rewrite Hk; eauto].
  eapply st_set_same; [done|rewrite Hk; exact Ha|done..].
Qed.

Section inv.
Context {platform : Platform}.

Definition linked (ps : gmap Z page) (a o : Z) (b : option bid) : Prop :=
  exists p, ps !! (a + o) = Some p /\ (is_Some (p_backing p) -> b = None).

Lemma commit_page_triple pins L a prot b ps p :
  (forall b, 0 <= pins b) -> ps !! a = Some p -> (is_Some (p_backing p) -> b = None) ->
  triple (fun m => st (pins_add pins [b]) L m /\ m_pages m = ps) (commit_page a prot b)
    (fun _ m => st pins L m /\ exists g,
       m_pages m = <[a := Page (p_reservation_base p) (p_reservation_size p)
                         (match p_backing p with None => b | o => o end) prot g]> ps).
Proof.
  intros Hp Ha Hb m [Hm Hps]. unfold commit_page, mbind at 1, M_bind at 1.
  unfold deref_page, mbind at 1, M_bind at 1, get, at_. rewrite Hps, Ha. cbn -[touch_page].
  set (q := match p_backing p with
            | Some _ => with_protection p prot
            | None => with_protection (with_backing p b) prot end).
  assert (st pins L (set_pages m (<[a := q]> (m_pages m)))) as Hst.
  { subst q. destruct (p_backing p) as [c|] eqn:E.
    - rewrite Hb in Hm by eauto. rewrite st_pins_None in Hm.
      eapply st_set_same; [done|rewrite Hps; exact Ha|done..].
    - apply st_pins_None. rewrite <- E.
      eapply st_set_page; [done|exact Hm|rewrite Hps; exact Ha|done..]. }
  pose proof (touch_exact_triple pins L a (<[a := q]> ps) q (lookup_insert_eq _ _ _)
                (set_pages m (<[a := q]> (m_pages m)))) as Ht.
  rewrite Hps in Ht, Hst. specialize (Ht (conj Hst eq_refl)).
  unfold mbind, M_bind, put_page, get, put, mbind, M_bind.
  destruct (p_backing p) as [c|] eqn:E; subst q; cbn -[touch_page] in *; rewrite Hps;
    (destruct (touch_page _ _) as [[u m']| |]; [|done|done]);
    destruct Ht as (? & g & Hg); (split; [done|]); exists g; rewrite Hg, insert_insert_eq;
    unfold with_generation, with_protection, with_backing; cbn; by rewrite ?E.
Qed.

(** The pages of [os] take the backings of [bs]. *)
Lemma adopt_triple pins L a prot os bs ps :
  (forall b, 0 <= pins b) -> NoDup os -> Forall2 (linked ps a) os bs ->
  triple (fun m => st (pins_add pins bs) L m /\ forall o, o ∈ os -> m_pages m !! (a + o) = ps !! (a + o))
    (for_each (zip os bs) (fun '(o, b) => commit_page (a + o) prot b))
    (fun _ => st pins L).
Proof.
  intros Hp Hnd Hl. induction Hl as [|o b os bs (p & Hop & Hob) _ IH]; cbn [zip zip_with for_each].
  - apply triple_ret. intros m [Hm _]. by rewrite st_pins_nil in Hm.
  - apply NoDup_cons in Hnd as [Hno Hnd]. apply triple_pre. intros m [Hm Hps].
    eapply triple_bind.
    + eapply triple_conseq; [apply (commit_page_triple (pins_add pins bs) L (a + o) prot b (m_pages m) p)| |].
      * by apply pins_add_nonneg.
      * rewrite Hps by set_solver. done.
      * done.
      * intros m' ->. split; [|done]. by rewrite <- st_pins_cons.
      * intros u m' HQ. exact HQ.
    + intros u. eapply triple_conseq; [by apply IH| |done].
      intros m' [Hm' [g Hg]]. split; [done|]. intros o' Ho'. rewrite Hg.
      rewrite lookup_insert_ne by (intros E; apply Hno; by replace o with o' by lia).
      apply Hps. set_solver.
Qed.

Lemma commit_backings_triple pins L a os bs ps :
  (forall b, 0 <= pins b) -> (forall o, o ∈ os -> is_Some (L !! (a + o))) ->
  triple (fun m => st (pins_add pins bs) L m /\ m_pages m = ps) (commit_backings a os bs)
    (fun r m => (st (pins_add pins r.2) L m /\ m_pages m = ps) /\
       (r.1 = true -> exists ext, r.2 = bs ++ ext /\ Forall2 (linked ps a) os ext)).
Proof.
  intros Hp. revert bs. induction os as [|o os IH]; intros bs HL; cbn [commit_backings].
  { apply triple_ret. intros m Hm. split; [done|]. intros _. exists [].
    by rewrite app_nil_r. }
  assert (forall bs b p, ps !! (a + o) = Some p -> (is_Some (p_backing p) -> b = None) ->
    triple (fun m => st (pins_add pins (bs ++ [b])) L m /\ m_pages m = ps)
      (commit_backings a os (bs ++ [b]))
      (fun r m => (st (pins_add pins r.2) L m /\ m_pages m = ps) /\
         (r.1 = true -> exists ext, r.2 = bs ++ ext /\ Forall2 (linked ps a) (o :: os) ext))) as Hnext.
  { intros bs' b p Ho Hb. eapply triple_conseq; [apply (IH (bs' ++ [b])); set_solver|done|].
    intros [ok r] m [Hm H]. split; [done|]. intros Hok. destruct (H Hok) as (ext & Hr & Hf).
    exists (b :: ext). split; [by rewrite Hr, <- app_assoc|]. constructor; [by exists p|done]. }
  step_keeping m_pages (deref_page_triple (pins_add pins bs) L (a + o)).
  { apply HL. set_solver. }
  rename a0 into p. apply triple_pre. intros m [[Hm Ha] Hps]. rewrite Hps in Ha.
  destruct (p_backing p) as [c|] eqn:E.
  - eapply triple_conseq; [apply (Hnext bs None p Ha)|intros m' ->|done].
    + done.
    + split; [|done]. by rewrite st_pins_app, st_pins_None.
  - step_pre_keeping m_pages (new_backing_triple (pins_add pins bs) L None).
    { intros m' ->. eauto. }
    destruct a0 as [b|].
    + eapply triple_conseq; [apply (Hnext bs (Some b) p Ha)|intros m' [[Hm' _] ?]|done].
      * rewrite E. by intros [].
      * split; [|done]. by rewrite st_pins_app.
    + apply triple_ret. by split.
Qed.

Lemma commit_locked_triple pins L a n prot :
  (forall b, 0 <= pins b) ->
  triple (st pins L) (commit_locked a n prot) (fun _ => st pins L).
Proof.
  intros Hp. unfold commit_locked. apply triple_get. intros m Hm.
  destruct (check m a n false) eqn:Hc; try (apply triple_ret; by intros ? ->).
  destruct (check_OK _ _ _ _ Hc) as [Hr Hpages].
  destruct (prot_ok prot); cbn [negb]; [|apply triple_ret; by intros ? ->].
  assert (forall o, o ∈ page_range 0 n -> is_Some (L !! (a + o))) as HL.
  { intros o Ho. rewrite <- (st_layout _ _ _ Hm). apply layout_is_Some.
    destruct (Hpages o Ho) as (p & ? & _). eauto. }
  step_pre_keeping m_pages (alloc_triple pins L); [by intros ? ->|].
  destruct a0 as [r|]; [|apply triple_ret; naive_solver].
  step_pre (commit_backings_triple pins L a (page_range 0 n) [] (m_pages m) Hp HL).
  { intros m' [? ?]. by rewrite st_pins_nil. }
  destruct a0 as [ok bs]. cbn [fst snd]. destruct ok.
  - apply triple_pre. intros m1 [[Hm1 Hps] H]. destruct (H eq_refl) as (ext & -> & Hf).
    step_pre (adopt_triple pins L a prot _ _ (m_pages m) Hp (NoDup_page_range _ _) Hf).
    + intros m' ->. split; [done|]. by rewrite Hps.
    + by apply triple_ret.
  - step_pre (drop_list_triple pins L bs Hp); [naive_solver|]. by apply triple_ret.
Qed.

(** ** Decommit and protect *)

(** Dropping a reference does not look at the pages. *)
Lemma drop_set_pages o m ps :
  drop_backing o (set_pages m ps) =
    match drop_backing o m with
    | Ok (u, m') => Ok (u, set_pages m' ps)
    | Err e => Err e
    | Fault => Fault
    end.
Proof.
  destruct o as [b|]; [|done]. unfold drop_backing, deref_backing, mbind, M_bind, get, put. cbn.
  destruct (m_backings m !! b) as [bk|]; [|done]. cbn. by destruct (b_refs bk - 1 =? 0).
Qed.

(** [drop(p->backing); p->backing = b;]: between the two the page holds a
    pointer that is no longer counted. *)
Lemma replace_backing_triple {A} pins L a f b ps p (k : M A) (Q : A -> mem -> Prop) :
  (forall b, 0 <= pins b) -> ps !! a = Some p ->
  p_reservation_base (f p) = p_reservation_base p ->
  p_reservation_size (f p) = p_reservation_size p -> p_backing (f p) = b ->
  triple (fun m => st pins L m /\ m_pages m = <[a := f p]> ps) k Q ->
  triple (fun m => st (pins_add pins [b]) L m /\ m_pages m = ps)
    (drop_backing (p_backing p);; modify_page a f;; k) Q.
Proof.
  intros Hp Ha Hb Hs Ho Hk m [Hm Hps].
  assert (st (pins_add pins [p_backing p]) L (set_pages m (<[a := f p]> (m_pages m)))) as Hst.
  { eapply st_set_page; [done|exact Hm|rewrite Hps; exact Ha|done..]. }
  pose proof (drop_triple pins L (p_backing p) Hp _ Hst) as Hd.
  pose proof (keeps_drop m_pages (p_backing p) ltac:(done) m) as Hkeep.
  rewrite drop_set_pages in Hd. unfold mbind at 1, M_bind at 1.
  destruct (drop_backing (p_backing p) m) as [[u m1]| |]; [|done|done].
  specialize (Hkeep u m1 eq_refl).
  unfold mbind at 1, M_bind at 1, modify_page, deref_page, put_page, mbind, M_bind, get, put, at_.
  rewrite Hkeep, Hps, Ha. rewrite Hps in Hd. cbn. apply Hk. rewrite Hkeep, Hps. by split.
Qed.

Lemma decommit_page_triple pins L a :
  (forall b, 0 <= pins b) -> is_Some (L !! a) ->
  triple (st pins L)
    (p ← deref_page a;
     drop_backing (p_backing p);;
     modify_page a (fun p => with_protection (with_backing p None) GEM_PAGE_NOACCESS);;
     touch_page a) (fun _ => st pins L).
Proof.
  intros Hp HL. step (deref_page_triple pins L a HL). rename a0 into p.
  apply triple_pre. intros m [Hm Ha].
  eapply triple_conseq.
  - eapply (replace_backing_triple pins L a
        (fun p => with_protection (with_backing p None) GEM_PAGE_NOACCESS) None (m_pages m) p);
      [done|done|done|done|done|].
    eapply triple_conseq; [apply (touch_page_triple pins L a HL)|naive_solver|].
    intros u m' HQ. exact HQ.
  - intros m' ->. split; [|done]. by rewrite st_pins_None.
  - done.
Qed.

(** Every page of a checked range is in the layout. *)
Lemma check_layout pins L m a n c :
  st pins L m -> check m a n c = GEM_MEMORY_OK ->
  range_ok a n = true /\ forall o, o ∈ page_range 0 n -> is_Some (L !! (a + o)).
Proof.
  intros Hm Hc. destruct (check_OK _ _ _ _ Hc) as [Hr Hpages]. split; [done|].
  intros o Ho. rewrite <- (st_layout _ _ _ Hm). apply layout_is_Some.
  destruct (Hpages o Ho) as (p & ? & _). eauto.
Qed.

Lemma zero_in_range n : n <> 0 -> n mod 4096 = 0 -> 0 <= n -> 0 ∈ page_range 0 n.
Proof. intros. apply elem_of_page_range. split; [lia|done]. Qed.

Lemma decommit_locked_triple pins L a n :
  (forall b, 0 <= pins b) ->
  triple (st pins L) (decommit_locked a n) (fun _ => st pins L).
Proof.
  intros Hp. unfold decommit_locked. apply triple_get. intros m Hm.
  destruct (check m a n false) eqn:Hc; try (apply triple_ret; by intros ? ->).
  destruct (check_layout _ _ _ _ _ _ Hm Hc) as [_ HL].
  step_pre (triple_for_each (st pins L)); [|by intros ? ->|by apply triple_ret].
  intros o Ho. apply decommit_page_triple; auto.
Qed.

Lemma protect_locked_triple pins L a n prot old :
  0 <= n -> triple (st pins L) (protect_locked a n prot old) (fun _ => st pins L).
Proof.
  intros Hn. unfold protect_locked. apply triple_get. intros m Hm.
  destruct (check m a n true) eqn:Hc; try (apply triple_ret; by intros ? ->).
  destruct (check_layout _ _ _ _ _ _ Hm Hc) as [Hr HL].
  destruct (prot_ok prot); cbn [negb]; [|apply triple_ret; by intros ? ->].
  apply range_ok_spec in Hr as (? & ? & ? & ?).
  step_pre (deref_page_triple pins L a); [| by intros ? -> |].
  { rewrite <- (Z.add_0_r a). apply HL. by apply zero_in_range. }
  step_pre (triple_for_each (st pins L)); [|naive_solver|].
  { intros o Ho. by apply modify_page_triple; auto. }
  step (triple_for_each (st pins L)); [|by apply triple_ret].
  intros o Ho. by apply touch_page_triple; auto.
Qed.

(** ** Removing pages *)

Lemma remove_pages_triple pins L a n ps :
  (forall b, 0 <= pins b) ->
  triple (fun m => st pins L m /\ m_pages m = ps) (remove_pages a n)
    (fun _ m => st pins (layout m) m /\
       forall x, m_pages m !! x =
         if bool_decide (a <= x < wrap64 (a + n)) then None else ps !! x).
Proof.
  intros Hp. unfold remove_pages. apply triple_get. intros m [Hm Hps]. rewrite Hps.
  eapply triple_conseq.
  - apply (triple_for_each_rest (fun rest m => st pins (layout m) m /\
      forall x, m_pages m !! x =
        if bool_decide (a <= x < wrap64 (a + n) /\ x ∉ rest.*1) then None else ps !! x)).
    intros [x p] rest [k Hk].
    assert (ps !! x = Some p) as Hx.
    { apply elem_of_map_to_list. rewrite Hk. set_solver. }
    assert (x ∉ rest.*1) as Hnot.
    { pose proof (NoDup_fst_map_to_list ps) as Hnd. rewrite Hk, fmap_app in Hnd.
      apply NoDup_app in Hnd as (_ & _ & Hnd). by apply NoDup_cons in Hnd as [? _]. }
    apply triple_pre. intros m1 [Hm1 Hm1x].
    destruct ((a <=? x) && (x <? wrap64 (a + n))) eqn:Hin.
    + bool_to_Z. apply triple_get. intros m2 ->.
      assert (m_pages m1 !! x = Some p) as Hx1.
      { rewrite Hm1x, bool_decide_false; [done|]. intros [_ Hn]. apply Hn. cbn. set_solver. }
      pose proof (st_delete_page pins (layout m1) m1 x p Hp Hm1 Hx1) as Hdel.
      eapply triple_bind.
      * apply (triple_conseq _ (fun m => m = m1) _ _
          (fun _ m => m = set_pages m1 (delete x (m_pages m1)))); [|done|intros ? ? HQ; exact HQ].
        by intros m2 ->.
      * intros u; cbv beta. eapply triple_conseq.
        -- eapply (triple_keeps m_pages); [solve_keeps|].
           apply (drop_triple pins (delete x (layout m1)) (p_backing p) Hp).
        -- intros m2 ->. split; [exact Hdel|reflexivity].
        -- intros v m2 [Hm2 Hpages]. split.
           { by rewrite (st_layout _ _ _ Hm2). }
           intros y. rewrite Hpages. cbn [set_pages m_pages]. destruct (decide (x = y)) as [<-|Hne].
           ++ rewrite lookup_delete_eq, bool_decide_true; [done|]. split; [lia|done].
           ++ rewrite lookup_delete_ne by done. rewrite Hm1x. cbn.
              apply if_bool_decide_ext. set_solver.
    + apply triple_ret. intros m2 ->. split; [done|]. intros y. rewrite Hm1x. cbn.
      destruct (decide (x = y)) as [<-|Hne].
      * apply andb_false_iff in Hin. rewrite !bool_decide_false; [done| |];
          intros [? _]; destruct Hin; bool_to_Z; lia.
      * apply if_bool_decide_ext. set_solver.
  - intros m' ->. split; [by rewrite (st_layout _ _ _ Hm)|]. intros x.
    case_bool_decide as H; [|by rewrite Hps]. destruct H as [_ H].
    destruct (m_pages m !! x) eqn:E; [|by rewrite Hps in E].
    exfalso. apply H. apply list_elem_of_fmap. exists (x, p). split; [done|].
    apply elem_of_map_to_list. by rewrite <- Hps.
  - intros u m' [Hm' H]. split; [done|]. intros x. rewrite H. apply if_bool_decide_ext.
    set_solver.
Qed.

(** The layout left by a removal. *)
Lemma layout_pointwise m (L : gmap Z (Z * Z)) (P : Z -> Prop) `{!forall x, Decision (P x)} ps :
  L = (fun p => (p_reservation_base p, p_reservation_size p)) <$> ps ->
  (forall x, m_pages m !! x = if bool_decide (P x) then None else ps !! x) ->
  forall x, layout m !! x = if bool_decide (P x) then None else L !! x.
Proof.
  intros -> Hx x. rewrite layout_lookup, Hx, lookup_fmap. by case_bool_decide.
Qed.

Lemma wrap64_small x : 0 <= x < 2 ^ 64 -> wrap64 x = x.
Proof. apply Z.mod_small. Qed.

Lemma checked_range pins L m a n c :
  st pins L m -> layout_ok L -> 0 <= n -> check m a n c = GEM_MEMORY_OK ->
  0 < n /\ a mod 4096 = 0 /\ n mod 4096 = 0 /\ 0 <= a /\ a + n <= UINT64_MAX /\
  wrap64 (a + n) = a + n /\
  exists base size, L !! a = Some (base, size).
Proof.
  intros Hm HL Hn Hc. destruct (check_layout _ _ _ _ _ _ Hm Hc) as [Hr Hin].
  apply range_ok_spec in Hr as (H0 & Ham & Hnm & Hle).
  destruct (Hin 0 (zero_in_range n H0 Hnm Hn)) as [[base size] Ha]. rewrite Z.add_0_r in Ha.
  destruct (HL _ _ _ Ha) as (? & _ & _ & ? & _ & ? & _). unfold UINT64_MAX in *.
  split_and!; try (done || lia); [|eauto]. apply wrap64_small. lia.
Qed.

Lemma layout_ok_release L L' a n :
  layout_ok L -> L !! a = Some (a, n) ->
  (forall x, L' !! x = if bool_decide (a <= x < a + n) then None else L !! x) -> layout_ok L'.
Proof.
  intros HL Ha HL' x b s Hx. rewrite HL' in Hx. case_bool_decide as Hout; [done|].
  destruct (HL _ _ _ Ha) as (_ & _ & _ & _ & _ & _ & Hall).
  destruct (HL _ _ _ Hx) as (? & ? & ? & ? & Hxm & ? & Hallx). split_and!; try (done || lia).
  intros y Hy Hym. rewrite HL', bool_decide_false; [by apply Hallx|]. intros Hin.
  pose proof (Hall y Hin Hym) as E. rewrite (Hallx y Hy Hym) in E. injection E as <- <-. lia.
Qed.

Lemma release_locked_triple pins a n :
  (forall b, 0 <= pins b) -> 0 <= n ->
  triple (inv pins) (release_locked a n) (fun _ => inv pins).
Proof.
  intros Hp Hn. unfold release_locked. apply triple_get. intros m Hi.
  destruct (check m a n false) eqn:Hc; try (apply triple_ret; by intros ? ->).
  destruct Hi as (L & Hm & HL).
  destruct (checked_range _ _ _ _ _ _ Hm HL Hn Hc) as (? & ? & ? & ? & ? & Hw & base & size & Ha).
  step_pre_keeping m_pages (deref_page_triple pins L a); [by eauto|by intros ? ->|].
  rename a0 into p. apply triple_pre. intros m1 [[Hm1 Hp1] Hps].
  destruct (negb (a =? p_reservation_base p) || negb (n =? p_reservation_size p)) eqn:Hg.
  { apply triple_ret. intros m2 ->. by exists L. }
  bool_to_Z. subst.
  assert (L !! p_reservation_base p = Some (p_reservation_base p, p_reservation_size p)) as Ha'.
  { rewrite <- (st_layout _ _ _ Hm1), layout_lookup, Hp1. done. }
  eapply triple_bind.
  { eapply triple_conseq; [apply (remove_pages_triple pins L _ _ (m_pages m1) Hp)| |].
    - intros m2 ->. done.
    - intros u m2 HQ. exact HQ. }
  intros u; cbv beta. apply triple_ret. intros m2 [Hm2 Hx2]. exists (layout m2). split; [done|].
  eapply layout_ok_release; [exact HL|exact Ha'|]. rewrite Hw in Hx2.
  eapply layout_pointwise; [|exact Hx2]. by rewrite <- (st_layout _ _ _ Hm1).
Qed.

(** One of the two loops of [unmap_locked]. *)
Lemma set_reservation_triple pins L a b s :
  is_Some (L !! a) ->
  triple (st pins L) (modify_page a (fun p => with_reservation p b s))
    (fun _ => st pins (<[a := (b, s)]> L)).
Proof.
  intros Ha. unfold modify_page. step (deref_page_triple pins L a Ha). rename a0 into p.
  intros m [Hm Hpa]. cbn. pose proof (st_layout _ _ _ Hm) as HL.
  destruct Hm as [Hp Hr Hd Hg _]. split; try done.
  - intros c. specialize (Hr c). cbn.
    pose proof (count_insert c (m_pages m) a (with_reservation p b s) p Hpa) as Hc. cbn in Hc.
    destruct (m_backings m !! c); lia.
  - by rewrite layout_insert, HL.
Qed.

Lemma set_reservations_triple pins L lo hi b s :
  (forall x, x ∈ page_range lo hi -> is_Some (L !! x)) ->
  triple (st pins L)
    (for_each (page_range lo hi) (fun o => modify_page o (fun p => with_reservation p b s)))
    (fun _ m => exists L', st pins L' m /\
       forall x, L' !! x = if bool_decide (x ∈ page_range lo hi) then Some (b, s) else L !! x).
Proof.
  intros HL. eapply triple_conseq.
  - apply (triple_for_each_rest (fun rest m => exists L', st pins L' m /\
      forall x, L' !! x = if bool_decide (x ∈ page_range lo hi /\ x ∉ rest)
                          then Some (b, s) else L !! x)).
    intros x rest [k Hk]. apply triple_pre. intros m (L' & Hm & HL').
    assert (x ∈ page_range lo hi) as Hx by (rewrite Hk; set_solver).
    assert (x ∉ rest) as Hnot.
    { pose proof (NoDup_page_range lo hi) as Hnd. rewrite Hk in Hnd.
      apply NoDup_app in Hnd as (_ & _ & Hnd). by apply NoDup_cons in Hnd as [? _]. }
    eapply triple_conseq.
    + apply (set_reservation_triple pins L' x b s). rewrite HL'. case_bool_decide; eauto.
    + by intros m' ->.
    + intros u m' Hm'. eexists. split; [exact Hm'|]. intros y.
      destruct (decide (x = y)) as [<-|Hne].
      * by rewrite lookup_insert_eq, bool_decide_true.
      * rewrite lookup_insert_ne, HL' by done. apply if_bool_decide_ext. set_solver.
  - intros m Hm. exists L. split; [done|]. intros x. rewrite bool_decide_false; [done|tauto].
  - intros u m (L' & Hm & HL'). exists L'. split; [done|]. intros x. rewrite HL'.
    apply if_bool_decide_ext. set_solver.
Qed.

Lemma unmap_locked_triple pins a n :
  (forall b, 0 <= pins b) -> 0 <= n ->
  triple (inv pins) (unmap_locked a n) (fun _ => inv pins).
Proof.
  intros Hp Hn. unfold unmap_locked. apply triple_get. intros m Hi.
  destruct (check m a n false) eqn:Hc; try (apply triple_ret; by intros ? ->).
  destruct Hi as (L & Hm & HL).
  destruct (checked_range _ _ _ _ _ _ Hm HL Hn Hc) as (? & Ham & Hnm & ? & ? & Hw & base & size & Ha).
  step_pre_keeping m_pages (deref_page_triple pins L a); [by eauto|by intros ? ->|].
  rename a0 into p. apply triple_pre. intros m1 [[Hm1 Hp1] Hps].
  assert (L !! a = Some (p_reservation_base p, p_reservation_size p)) as Ha'.
  { rewrite <- (st_layout _ _ _ Hm1), layout_lookup, Hp1. done. }
  rewrite Ha in Ha'. injection Ha' as -> ->. rewrite Hw.
  set (base := p_reservation_base p) in *. set (size := p_reservation_size p) in *.
  destruct (HL _ _ _ Ha) as (Hb0 & Hbm & Hsm & Hbs & _ & Hab & Hall).
  assert (wrap64 (base + size) = base + size) as Hwe
    by (apply wrap64_small; unfold UINT64_MAX in *; lia).
  rewrite Hwe.
  assert (triple (fun m' => m' = m1) (mret GEM_MEMORY_INVALID_ARGUMENT) (fun _ => inv pins)) as Hret.
  { apply triple_ret. intros m2 ->. by exists L. }
  destruct ((a <? base) || (base + size <? a + n)) eqn:Hg; [done|]. bool_to_Z.
  destruct (first_error _ _) as [e|] eqn:Hf.
  { apply triple_ret. intros m2 ->. by exists L. }
  assert ((a + n) mod 4096 = 0) as Hanm by (rewrite Z.add_mod, Ham, Hnm by lia; done).
  step_pre (set_reservations_triple pins L base a base (a - base)); [|by intros ? ->|].
  { intros x [Hx Hxm]%elem_of_page_range. rewrite (Hall x); [eauto|lia|].
    by apply (aligned_sub x base). }
  apply triple_pre. intros m2 (L2 & Hm2 & HL2).
  step_pre (set_reservations_triple pins L2 (a + n) (base + size) (a + n) (base + size - (a + n)));
    [|by intros ? ->|].
  { intros x [Hx Hxm]%elem_of_page_range. rewrite HL2. case_bool_decide; [eauto|].
    rewrite (Hall x); [eauto|lia|]. by apply (aligned_sub x (a + n)). }
  apply triple_pre. intros m3 (L3 & Hm3 & HL3).
  eapply triple_bind.
  { eapply triple_conseq; [apply (remove_pages_triple pins L3 a n (m_pages m3) Hp)| |].
    - intros m4 ->. done.
    - intros u m4 HQ. exact HQ. }
  intros u; cbv beta. apply triple_ret. intros m4 [Hm4 H4]. exists (layout m4). split; [done|].
  eapply (layout_ok_split L _ base size a n); [done|done|done|done|lia|].
  intros x. rewrite Hw in H4.
  rewrite (layout_pointwise m4 L3 _ (m_pages m3) (eq_sym (st_layout _ _ _ Hm3)) H4 x).
  case_bool_decide; [done|]. rewrite HL3, HL2.
  rewrite (bool_decide_ext (x ∈ page_range base a) (base <= x < a /\ x mod 4096 = 0))
    by (rewrite elem_of_page_range, aligned_sub; done).
  rewrite (bool_decide_ext (x ∈ page_range (a + n) (base + size))
             (a + n <= x < base + size /\ x mod 4096 = 0))
    by (rewrite elem_of_page_range, aligned_sub; done).
  case_bool_decide; [rewrite bool_decide_false by lia; done|done].
Qed.

(** ** Reserving *)

(** The search only stops at a free page or at the end of the address space,
    and the pages it steps over are all mapped, so the fuel is enough. *)
Lemma search_fuel m n b fuel :
  (size (m_pages m) < fuel)%nat -> exists r, search fuel m n b = Some r.
Proof.
  assert (forall fuel b (seen : gset Z), (forall x, x ∈ seen -> x < b /\ is_Some (m_pages m !! x)) ->
    (size (m_pages m) < fuel + size seen)%nat -> exists r, search fuel m n b = Some r) as Hgen.
  { clear fuel b. induction fuel as [|fuel IH]; intros b seen Hseen Hsize; cbn.
    - exfalso. assert (size seen <= size (dom (m_pages m)))%nat as Hle.
      { apply subseteq_size. intros x Hx. apply elem_of_dom. by apply Hseen. }
      rewrite size_dom in Hle. lia.
    - destruct (mapped m b && _) eqn:E; [|eauto].
      apply andb_true_iff in E as [Hm _]. unfold mapped, at_ in Hm.
      apply (IH (b + 4096) (seen ∪ {[b]})).
      + intros x [Hx | ->%elem_of_singleton]%elem_of_union.
        * destruct (Hseen x Hx). split; [lia|done].
        * split; [lia|]. by destruct (m_pages m !! b).
      + rewrite size_union, size_singleton; [lia|].
        intros x Hx ->%elem_of_singleton. destruct (Hseen b Hx). lia. }
  intros Hf. apply (Hgen fuel b ∅); [set_solver|]. rewrite size_empty. lia.
Qed.

Lemma search_spec fuel m n b r :
  search fuel m n b = Some r ->
  b <= r /\ (r - b) mod 4096 = 0 /\ (mapped m r = false \/ UINT64_MAX - n - 4096 < r) /\
  forall x, b <= x < r -> (x - b) mod 4096 = 0 -> mapped m x = true.
Proof.
  revert b. induction fuel as [|fuel IH]; intros b H; cbn in H; [done|].
  destruct (mapped m b && (b <=? UINT64_MAX - n - 4096)) eqn:E.
  - apply andb_true_iff in E as [Hm _]. destruct (IH _ H) as (? & Hmod & ? & Hall).
    split_and!; [lia| |done|].
    + replace (r - b) with (r - (b + 4096) + 1 * 4096) by lia. by rewrite Z.mod_add by lia.
    + intros x Hx Hxm. destruct (decide (x = b)) as [->|]; [done|]. apply Hall.
      * apply Z.mod_divide in Hxm as [k Hk]; lia.
      * replace (x - (b + 4096)) with (x - b + (-1) * 4096) by lia. by rewrite Z.mod_add by lia.
  - injection H as <-. split_and!; [lia|by rewrite Z.sub_diag| |lia].
    apply andb_false_iff in E as [E|E]; [by left|right]. bool_to_Z. lia.
Qed.

(** The pages a reservation or an alias creates: distinct, covering the range,
    and carrying the reservation. *)
Definition new_pages (a n : Z) (head : list (Z * page)) : Prop :=
  NoDup head.*1 /\
  (forall x, x ∈ head.*1 <-> x - a ∈ page_range 0 n) /\
  forall x p, (x, p) ∈ head -> p_reservation_base p = a /\ p_reservation_size p = n.

Definition reservations (ps : gmap Z page) : gmap Z (Z * Z) :=
  (fun p => (p_reservation_base p, p_reservation_size p)) <$> ps.

Lemma publish_triple pins L head ps :
  (forall b, 0 <= pins b) -> NoDup head.*1 -> (forall x, x ∈ head.*1 -> ps !! x = None) ->
  triple (fun m => st (pins_add pins (p_backing <$> head.*2)) L m /\ m_pages m = ps)
    (publish head)
    (fun _ m => st pins (layout m) m /\ m_pages m = list_to_map head ∪ ps).
Proof.
  intros Hp. unfold publish. revert L ps. induction head as [|[a p] head IH]; intros L ps Hnd Hf.
  - apply triple_ret. intros m [Hm <-]. cbn in *. rewrite (left_id_L ∅ (∪)). split; [|done].
    rewrite st_pins_nil in Hm. by rewrite (st_layout _ _ _ Hm).
  - cbn [for_each]. cbn in Hnd. apply NoDup_cons in Hnd as [Ha Hnd].
    apply (triple_bind _ _ _ (fun _ m =>
      st (pins_add pins (p_backing <$> head.*2))
        (<[a := (p_reservation_base p, p_reservation_size p)]> L) m /\ m_pages m = <[a := p]> ps)).
    + intros m [Hm Hps]. cbn. split; [|by rewrite Hps].
      apply st_add_page.
      * by apply pins_add_nonneg.
      * revert Hm. apply st_pins_eq. intros b. unfold pins_add. cbn. lia.
      * rewrite <- (st_layout _ _ _ Hm), layout_lookup, Hps, Hf by (cbn; set_solver). done.
    + intros u; cbv beta. eapply triple_conseq; [apply IH|intros m HQ; exact HQ|].
      * done.
      * intros x Hx. rewrite lookup_insert_ne by (intros ->; done). apply Hf. cbn. set_solver.
      * intros v m [Hm ->]. split; [done|]. cbn. rewrite <- insert_union_l.
        rewrite insert_union_r; [done|]. by apply not_elem_of_list_to_map_1.
Qed.

Lemma layout_ok_new L m a n head ps :
  layout_ok L -> reservations ps = L -> 0 <= a -> a mod 4096 = 0 -> n mod 4096 = 0 ->
  a + n <= UINT64_MAX ->
  new_pages a n head -> (forall x, x ∈ head.*1 -> ps !! x = None) ->
  m_pages m = list_to_map head ∪ ps -> layout_ok (layout m).
Proof.
  intros HL HLp Ha Ham Hnm Han (Hnd & Hkeys & Hres) Hfree Hps.
  eapply (layout_ok_reserve L _ a n); try done.
  - intros o Ho. rewrite <- HLp. unfold reservations. rewrite lookup_fmap, Hfree; [done|].
    apply Hkeys. by replace (a + o - a) with o by lia.
  - intros x. rewrite layout_lookup, Hps. case_bool_decide as Hx.
    + assert (x ∈ head.*1) as Hin by (apply Hkeys, in_page_range; tauto).
      apply list_elem_of_fmap in Hin as ([y p] & -> & Hin). cbn.
      rewrite (lookup_union_Some_l _ _ _ p) by by apply elem_of_list_to_map_1.
      cbn. by destruct (Hres y p Hin) as [-> ->].
    + rewrite lookup_union_r; [rewrite <- HLp; unfold reservations; by rewrite lookup_fmap|].
      apply not_elem_of_list_to_map_1. rewrite Hkeys. intros Hin. apply Hx.
      pose proof (page_offset_aligned a (x - a) n Ham Hin) as Hm.
      apply elem_of_page_range in Hin as [Hin _]. replace (a + (x - a)) with x in Hm by lia.
      split; [lia|done].
Qed.

Lemma reserve_pages_triple pins L b n os head ps :
  triple (fun m => st pins L m /\ m_pages m = ps) (reserve_pages b n os head)
    (fun r m => (st pins L m /\ m_pages m = ps) /\
       forall l, r = Some l -> exists ext, l = ext ++ head /\
         ext.*1 = reverse ((fun o => b + o) <$> os) /\
         forall x p, (x, p) ∈ ext -> exists g, p = Page b n None 0 g).
Proof.
  revert head. induction os as [|o os IH]; intros head; cbn [reserve_pages].
  - apply triple_ret. intros m Hm. split; [done|]. intros l [= <-]. exists []. set_solver.
  - step_keeping m_pages (alloc_triple pins L). destruct a as [r|].
    2:{ apply triple_ret. intros m Hm. by split. }
    step_keeping m_pages (bump_triple pins L). rename a into g.
    eapply triple_conseq; [apply IH|done|]. intros [l|] m [Hm Hl]; (split; [done|]); [|done].
    intros l' [= <-]. destruct (Hl l eq_refl) as (ext & -> & Hk & Hext).
    exists (ext ++ [(b + o, Page b n None 0 g)]). split_and!.
    + by rewrite <- app_assoc.
    + rewrite fmap_app, Hk. by rewrite (fmap_cons (fun o => b + o) o os), reverse_cons.
    + intros x p [Hx | Hx]%elem_of_app; [eauto|].
      apply list_elem_of_singleton in Hx as [= -> ->]. eauto.
Qed.

Lemma new_pages_keys a n (head : list (Z * page)) :
  head.*1 = reverse ((fun o => a + o) <$> page_range 0 n) ->
  (forall x p, (x, p) ∈ head -> p_reservation_base p = a /\ p_reservation_size p = n) ->
  new_pages a n head.
Proof.
  intros Hk Hres. split_and!; [| |done]; rewrite Hk.
  - rewrite reverse_Permutation. apply NoDup_fmap_2; [intros ? ? ?; lia|apply NoDup_page_range].
  - intros x. rewrite elem_of_reverse, list_elem_of_fmap. split.
    + intros (o & -> & Ho). by replace (a + o - a) with o by lia.
    + intros Hx. exists (x - a). split; [lia|done].
Qed.

(** [mapped] is false on the whole range once the conflict test has passed. *)
Lemma no_conflict m a n :
  existsb (fun o => mapped m (a + o)) (page_range 0 n) = false ->
  forall x, x - a ∈ page_range 0 n -> m_pages m !! x = None.
Proof.
  intros H x Hx. assert (mapped m (a + (x - a)) = false) as Hm.
  { apply not_true_iff_false. intros Ht. apply not_true_iff_false in H. apply H.
    apply existsb_exists. exists (x - a). split; [by apply list_elem_of_In|done]. }
  replace (a + (x - a)) with x in Hm by lia. unfold mapped, at_ in Hm.
  by destruct (m_pages m !! x).
Qed.

Lemma reserve_locked_triple pins a n ps :
  (forall b, 0 <= pins b) -> 0 <= a -> 0 <= n ->
  triple (fun m => inv pins m /\ m_pages m = ps) (reserve_locked (Some a) n)
    (fun r m => inv pins m /\
       ((r.1 <> GEM_MEMORY_OK /\ r.2 = Some a /\ m_pages m = ps) \/
        exists b head, r = (GEM_MEMORY_OK, Some b) /\ 0 < n /\ (a <> 0 -> b = a) /\
          range_ok b n = true /\ 0 <= b /\
          (forall x, x - b ∈ page_range 0 n -> ps !! x = None) /\
          new_pages b n head /\
          (forall x p, (x, p) ∈ head -> exists g, p = Page b n None 0 g) /\
          m_pages m = list_to_map head ∪ ps)).
Proof.
  intros Hp Ha Hn. unfold reserve_locked.
  assert (forall e, e <> GEM_MEMORY_OK ->
    triple (fun m => inv pins m /\ m_pages m = ps) (mret (e, Some a))
      (fun r m => inv pins m /\ ((r.1 <> GEM_MEMORY_OK /\ r.2 = Some a /\ m_pages m = ps) \/
        exists b head, r = (GEM_MEMORY_OK, Some b) /\ 0 < n /\ (a <> 0 -> b = a) /\
          range_ok b n = true /\ 0 <= b /\
          (forall x, x - b ∈ page_range 0 n -> ps !! x = None) /\
          new_pages b n head /\
          (forall x p, (x, p) ∈ head -> exists g, p = Page b n None 0 g) /\
          m_pages m = list_to_map head ∪ ps))) as Herr.
  { intros e He. apply triple_ret. intros m [Hm Hps]. split; [done|]. by left. }
  destruct ((n =? 0) || (GEM_MEMORY_MAX_PAGES <? n / 4096) || has_bits n 4095) eqn:Hg;
    [by apply Herr|]. bool_to_Z.
  apply triple_get. intros m [Hi Hps].
  assert (exists b, (if a =? 0 then
      match search (S (size (m_pages m))) m n 0x100000000 with
      | Some b => mret b | None => fault end else mret a) = (mret b : M Z) /\
      0 <= b /\ (a <> 0 -> b = a)) as (b & Hb & Hb0 & Hba).
  { destruct (Z.eqb_spec a 0) as [->|]; [|by exists a].
    destruct (search_fuel m n 0x100000000 (S (size (m_pages m)))) as [b Hb]; [lia|].
    exists b. rewrite Hb. split_and!; [done| |done]. apply search_spec in Hb. lia. }
  rewrite Hb. apply (triple_bind _ _ _ (fun b' m' => b' = b /\ m' = m)); [by apply triple_ret|].
  intros b'; cbv beta. apply triple_pre. intros m' [-> ->].
  destruct (range_ok b n) eqn:Hr; cbn [negb].
  2:{ eapply triple_conseq; [by apply (Herr GEM_MEMORY_OVERFLOW)|by intros ? ->|done]. }
  destruct (existsb _ _) eqn:Hconf.
  { eapply triple_conseq; [by apply (Herr GEM_MEMORY_CONFLICT)|by intros ? ->|done]. }
  pose proof (no_conflict _ _ _ Hconf) as Hfree. destruct Hi as (L & Hm & HL).
  step_pre (reserve_pages_triple pins L b n (page_range 0 n) [] ps); [by intros ? ->|].
  destruct a0 as [head|].
  2:{ apply triple_ret. intros m1 [[Hm1 Hps1] _]. split; [by exists L|]. left. done. }
  apply triple_pre. intros m1 [[Hm1 Hps1] Hh].
  destruct (Hh head eq_refl) as (ext & -> & Hk & Hext). rewrite app_nil_r.
  assert (new_pages b n ext) as Hnew.
  { apply new_pages_keys; [done|]. intros x p Hin. by destruct (Hext x p Hin) as [g ->]. }
  assert (forall x, x ∈ ext.*1 -> ps !! x = None) as Hfree'.
  { intros x Hx. rewrite <- Hps. apply Hfree. by apply Hnew. }
  step_pre (publish_triple pins L ext ps Hp); [apply Hnew|exact Hfree'| |].
  { intros m2 ->. split; [|done]. revert Hm1. apply st_pins_eq. intros c. unfold pins_add.
    assert (occ c (p_backing <$> ext.*2) = 0) as ->; [|lia].
    clear -Hext. induction ext as [|[x p] ext IH]; [done|]. cbn.
    destruct (Hext x p) as [g ->]; [set_solver|]. cbn. rewrite holds_None, IH; [done|].
    intros; apply (Hext x0). set_solver. }
  apply triple_ret. intros m2 [Hm2 Hps2]. apply range_ok_spec in Hr as Hr'.
  destruct Hr' as (? & ? & ? & ?). split.
  - exists (layout m2). split; [done|].
    eapply (layout_ok_new L m2 b n ext ps); try done; [|lia].
    rewrite <- Hps1. apply (st_layout _ _ _ Hm1).
  - right. exists b, ext. split_and!; try done; [lia|]. by rewrite <- Hps.
Qed.

(** ** Aliases *)

Lemma for_each_drops (head : list (Z * page)) :
  for_each head (fun '(_, p) => drop_backing (p_backing p))
    = for_each (p_backing <$> head.*2) drop_backing.
Proof. induction head as [|[x p] head IH]; cbn; [done|]. by rewrite IH. Qed.

Lemma alias_pages_triple pins L a s n prot os head ps :
  (forall b, 0 <= pins b) ->
  (forall o, o ∈ os -> exists p, ps !! (s + o) = Some p /\ is_Some (p_backing p)) ->
  triple (fun m => st (pins_add pins (p_backing <$> head.*2)) L m /\ m_pages m = ps)
    (alias_pages a s n prot os head)
    (fun r m => match r with
       | None => st pins L m /\ m_pages m = ps
       | Some l => (st (pins_add pins (p_backing <$> l.*2)) L m /\ m_pages m = ps) /\
           exists ext, l = ext ++ head /\ ext.*1 = reverse ((fun o => a + o) <$> os) /\
             forall x p, (x, p) ∈ ext -> exists g q, ps !! (s + (x - a)) = Some q /\
               p = Page a n (p_backing q) prot g
       end).
Proof.
  intros Hp. revert head. induction os as [|o os IH]; intros head Hsrc; cbn [alias_pages].
  - apply triple_ret. intros m Hm. split; [done|]. exists []. set_solver.
  - step_keeping m_pages (alloc_triple (pins_add pins (p_backing <$> head.*2)) L).
    destruct a0 as [r|].
    2:{ rewrite for_each_drops. step_keeping m_pages (drop_list_triple pins L _ Hp).
        by apply triple_ret. }
    destruct (Hsrc o) as (q & Hq & [b Hb]); [set_solver|].
    apply triple_pre. intros m [Hm Hps].
    step_pre_keeping m_pages (deref_page_triple (pins_add pins (p_backing <$> head.*2)) L (s + o)).
    { rewrite <- (st_layout _ _ _ Hm). apply layout_is_Some. rewrite Hps, Hq. eauto. }
    { by intros ? ->. }
    apply triple_pre. intros m1 [[Hm1 Hq1] Hps1]. rewrite Hps1, Hq in Hq1.
    injection Hq1 as <-. rewrite Hb.
    step_pre_keeping m_pages (add_ref_triple (pins_add pins (p_backing <$> head.*2)) L (s + o) q b).
    { intros m2 ->. split_and!; [done|by rewrite Hps1|done|done]. }
    step_keeping m_pages (bump_triple (pins_add (pins_add pins (p_backing <$> head.*2)) [Some b]) L).
    rename a0 into u, a1 into g.
    eapply triple_conseq; [apply (IH ((a + o, Page a n (Some b) prot g) :: head)); set_solver| |].
    + intros m2 [Hm2 Hps2]. split; [|done]. cbn.
      revert Hm2. apply st_pins_eq. intros c. unfold pins_add. cbn. lia.
    + intros [l|] m2; [|done]. intros [Hm2 (ext & -> & Hk & Hext)]. split; [done|].
      exists (ext ++ [(a + o, Page a n (Some b) prot g)]). split_and!.
      * by rewrite <- app_assoc.
      * rewrite fmap_app, Hk. by rewrite (fmap_cons (fun o => a + o) o os), reverse_cons.
      * intros x p [Hx | Hx]%elem_of_app; [eauto|].
        apply list_elem_of_singleton in Hx as [= -> ->]. exists g, q.
        replace (s + (a + o - a)) with (s + o) by lia. by rewrite Hb.
Qed.

Lemma alias_locked_triple pins a s n prot ps :
  (forall b, 0 <= pins b) -> 0 <= a -> 0 <= n ->
  triple (fun m => inv pins m /\ m_pages m = ps) (alias_locked a s n prot)
    (fun e m => inv pins m /\
       ((e <> GEM_MEMORY_OK /\ m_pages m = ps) \/
        exists head, e = GEM_MEMORY_OK /\ range_ok a n = true /\
          (forall x, x - a ∈ page_range 0 n -> ps !! x = None) /\
          new_pages a n head /\
          (forall x p, (x, p) ∈ head -> exists g q, ps !! (s + (x - a)) = Some q /\
             p = Page a n (p_backing q) prot g) /\
          m_pages m = list_to_map head ∪ ps)).
Proof.
  intros Hp Ha Hn. unfold alias_locked.
  destruct (negb (range_ok a n) || negb (prot_ok prot)) eqn:Hg.
  { apply triple_ret. intros m [? ?]. split; [done|]. by left. }
  bool_to_Z. rename H into Hr. apply triple_get. intros m [Hi Hps].
  destruct (check m s n true) eqn:Hc;
    try (apply triple_ret; intros ? ->; (split; [done|]); by left).
  destruct (existsb _ _) eqn:Hconf.
  { apply triple_ret. intros ? ->. split; [done|]. by left. }
  pose proof (no_conflict _ _ _ Hconf) as Hfree. destruct Hi as (L & Hm & HL).
  step_pre (alias_pages_triple pins L a s n prot (page_range 0 n) [] ps Hp).
  { intros o Ho. destruct (check_OK _ _ _ _ Hc) as [_ Hsrc].
    destruct (Hsrc o Ho) as (p & Hpo & Hb). exists p. rewrite <- Hps. auto. }
  { intros m' ->. split; [by rewrite st_pins_nil|done]. }
  destruct a0 as [head|].
  2:{ apply triple_ret. intros m1 [Hm1 Hps1]. split; [by exists L|]. by left. }
  apply triple_pre. intros m1 [[Hm1 Hps1] (ext & -> & Hk & Hext)]. rewrite app_nil_r in *.
  assert (new_pages a n ext) as Hnew.
  { apply new_pages_keys; [done|]. intros x p Hin. by destruct (Hext x p Hin) as (g & q & _ & ->). }
  assert (forall x, x ∈ ext.*1 -> ps !! x = None) as Hfree'.
  { intros x Hx. rewrite <- Hps. apply Hfree. by apply Hnew. }
  step_pre (publish_triple pins L ext ps Hp); [apply Hnew|exact Hfree'|by intros ? ->|].
  apply triple_ret. intros m2 [Hm2 Hps2]. apply range_ok_spec in Hr as Hr'.
  destruct Hr' as (? & ? & ? & ?). split.
  - exists (layout m2). split; [done|].
    eapply (layout_ok_new L m2 a n ext ps); try done; [|lia].
    rewrite <- Hps1. apply (st_layout _ _ _ Hm1).
  - right. exists ext. split_and!; try done. by rewrite <- Hps.
Qed.

(** ** Identity mappings and external storage *)

Lemma swap_backing_triple pins L a b ps p :
  (forall b, 0 <= pins b) -> ps !! a = Some p ->
  triple (fun m => st (pins_add pins [b]) L m /\ m_pages m = ps)
    (modify_page a (fun p => with_backing p b))
    (fun _ m => st (pins_add pins [p_backing p]) L m /\ m_pages m = <[a := with_backing p b]> ps).
Proof.
  intros Hp Ha m [Hm <-].
  unfold modify_page, deref_page, put_page, mbind, M_bind, get, put, at_. rewrite Ha. cbn.
  split; [|done]. by eapply st_set_page.
Qed.

Lemma map_identity_pages_triple pins L a h prot os :
  (forall b, 0 <= pins b) -> NoDup os ->
  triple (fun m => st pins L m /\
      forall o, o ∈ os -> exists p, m_pages m !! (a + o) = Some p /\ p_backing p = None)
    (map_identity_pages a h prot os) (fun _ => st pins L).
Proof.
  intros Hp. induction os as [|o os IH]; intros Hnd; cbn [map_identity_pages].
  { apply triple_ret. by intros m [? _]. }
  apply NoDup_cons in Hnd as [Ho Hnd]. apply triple_pre. intros m [Hm Hpages].
  destruct (Hpages o) as (p & Hpo & Hb); [set_solver|].
  assert (is_Some (L !! (a + o))) as HL.
  { rewrite <- (st_layout _ _ _ Hm). apply layout_is_Some. eauto. }
  step_pre_keeping m_pages (deref_page_triple pins L (a + o) HL); [by intros ? ->|].
  step_pre_keeping m_pages (new_backing_triple pins L (Some (h + o))); [naive_solver|].
  rename a1 into b.
  apply (triple_bind _ _ _ (fun _ m' => st pins L m' /\
    m_pages m' = <[a + o := with_backing p b]> (m_pages m))).
  { eapply triple_conseq; [apply (swap_backing_triple pins L (a + o) b (m_pages m) p Hp Hpo)| |].
    - intros m' [Hm' ?]. split; [|done]. destruct b; [tauto|]. by rewrite st_pins_None.
    - intros u m'. by rewrite Hb, st_pins_None. }
  intros u; cbv beta. destruct b as [b|]; [|apply triple_ret; by intros m' [? _]].
  set (p1 := with_backing p (Some b)).
  step (page_exact_triple pins L (fun _ => True) (a + o) (fun p => with_protection p prot)
          (<[a + o := p1]> (m_pages m)) p1 Hp (lookup_insert_eq _ _ _)); [done..|].
  rewrite insert_insert_eq.
  step (touch_exact_triple pins L (a + o) _ _ (lookup_insert_eq _ _ _)).
  eapply triple_conseq; [by apply IH| |done].
  intros m' [Hm' [g Hg]]. split; [done|]. intros o' Ho'.
  destruct (Hpages o') as (p' & Hpo' & Hb'); [set_solver|]. exists p'. split; [|done].
  rewrite Hg, insert_insert_eq, lookup_insert_ne; [done|].
  intros E. apply Ho. by replace o with o' by lia.
Qed.

Lemma map_identity_locked_triple pins a h n prot :
  (forall b, 0 <= pins b) -> 0 <= a -> 0 <= n ->
  triple (inv pins) (map_identity_locked a h n prot) (fun _ => inv pins).
Proof.
  intros Hp Ha Hn. unfold map_identity_locked.
  destruct (_ || _ || _ || _ || _); [by apply triple_ret|].
  apply triple_pre. intros m Hi.
  step_pre (reserve_locked_triple pins a n (m_pages m) Hp Ha Hn); [by intros ? ->|].
  destruct a0 as [e a']. cbn [fst snd]. apply triple_pre. intros m1 [Hi1 Hr].
  destruct Hr as [(He & _ & _) | (b & head & [= -> ->] & Hn' & _ & Hr & Hb0 & Hfree & Hnew & Hnone & Hps)].
  { destruct e; [done|..]; apply triple_ret; by intros ? ->. }
  cbn [default]. destruct Hi1 as (L & Hm1 & HL).
  step_pre (map_identity_pages_triple pins L b h prot (page_range 0 n) Hp (NoDup_page_range _ _)).
  - intros m2 ->. split; [done|]. intros o Ho. destruct Hnew as (Hnd & Hkeys & _).
    assert (b + o ∈ head.*1) as Hin by (apply Hkeys; by replace (b + o - b) with o by lia).
    apply list_elem_of_fmap in Hin as ([x p] & Hx & Hin). cbn in Hx. subst x.
    destruct (Hnone _ _ Hin) as [g ->]. exists (Page b n None 0 g). split; [|done].
    rewrite Hps. apply lookup_union_Some_l. by apply elem_of_list_to_map_1.
  - destruct a0; [apply triple_ret; by exists L|].
    eapply triple_bind; [|intros u; apply triple_ret; intros m2 HQ; exact HQ].
    eapply triple_conseq; [apply (release_locked_triple pins b n Hp Hn)| |done].
    intros m2 Hm2. by exists L.
Qed.

Lemma commit_external_backings_triple pins L a h os bs ps :
  (forall b, 0 <= pins b) -> (forall o, o ∈ os -> is_Some (L !! (a + o))) ->
  triple (fun m => st (pins_add pins bs) L m /\ m_pages m = ps)
    (commit_external_backings a h os bs)
    (fun r m => (st (pins_add pins r.2) L m /\ m_pages m = ps) /\
       (r.1 = GEM_MEMORY_OK -> exists ext, r.2 = bs ++ ext /\ Forall2 (linked ps a) os ext)).
Proof.
  intros Hp. revert bs. induction os as [|o os IH]; intros bs HL; cbn [commit_external_backings].
  { apply triple_ret. intros m Hm. split; [done|]. intros _. exists [].
    by rewrite app_nil_r. }
  assert (forall bs b p, ps !! (a + o) = Some p -> (is_Some (p_backing p) -> b = None) ->
    triple (fun m => st (pins_add pins (bs ++ [b])) L m /\ m_pages m = ps)
      (commit_external_backings a h os (bs ++ [b]))
      (fun r m => (st (pins_add pins r.2) L m /\ m_pages m = ps) /\
         (r.1 = GEM_MEMORY_OK -> exists ext, r.2 = bs ++ ext /\
            Forall2 (linked ps a) (o :: os) ext))) as Hnext.
  { intros bs' b p Ho Hb. eapply triple_conseq; [apply (IH (bs' ++ [b])); set_solver|done|].
    intros [ok r] m [Hm Hx]. split; [done|]. intros Hok. destruct (Hx Hok) as (ext & Hr & Hf).
    exists (b :: ext). split; [by rewrite Hr, <- app_assoc|]. constructor; [by exists p|done]. }
  step_keeping m_pages (deref_page_triple (pins_add pins bs) L (a + o)).
  { apply HL. set_solver. }
  rename a0 into p. apply triple_pre. intros m [[Hm Ha] Hps]. rewrite Hps in Ha.
  destruct (p_backing p) as [c|] eqn:E.
  - destruct (st_page_live _ _ _ (a + o) p c Hm) as [bk Hbk]; [by rewrite Hps|done|].
    apply (triple_bind _ _ _ (fun r m' => r = (c, bk) /\ m' = m)).
    { intros m' ->. unfold deref_backing, mbind, M_bind, get. by rewrite Hbk. }
    intros r; cbv beta. apply triple_pre. intros m' [-> ->].
    case_bool_decide.
    + eapply triple_conseq; [apply (Hnext bs None p Ha)|intros m' ->|done]; [done|].
      split; [|done]. by rewrite st_pins_app, st_pins_None.
    + apply triple_ret. by intros m' ->.
  - step_pre_keeping m_pages (new_backing_triple (pins_add pins bs) L (Some (h + o))).
    { intros m' ->. eauto. }
    destruct a0 as [b|].
    + eapply triple_conseq; [apply (Hnext bs (Some b) p Ha)|intros m' [[Hm' _] ?]|done].
      * rewrite E. by intros [].
      * split; [|done]. by rewrite st_pins_app.
    + apply triple_ret. by split.
Qed.

Lemma commit_external_locked_triple pins L a h n prot id :
  (forall b, 0 <= pins b) ->
  triple (st pins L) (commit_external_locked a h n prot id) (fun _ => st pins L).
Proof.
  intros Hp. unfold commit_external_locked.
  destruct (_ || _ || _ || _ || _); [by apply triple_ret|].
  apply triple_get. intros m Hm.
  destruct (check m a n false) eqn:Hc; try (apply triple_ret; by intros ? ->).
  destruct (check_layout _ _ _ _ _ _ Hm Hc) as [_ HL].
  step_pre_keeping m_pages (alloc_triple pins L); [by intros ? ->|].
  destruct a0 as [r|]; [|apply triple_ret; naive_solver].
  step_pre (commit_external_backings_triple pins L a h (page_range 0 n) [] (m_pages m) Hp HL).
  { intros m' [? ?]. by rewrite st_pins_nil. }
  destruct a0 as [e bs]. cbn [fst snd].
  assert (forall e', triple (fun m' => st (pins_add pins bs) L m')
            ((for_each bs drop_backing;; mret e') : M gem_memory_error) (fun _ => st pins L)) as Hroll.
  { intros e'. step (drop_list_triple pins L bs Hp). by apply triple_ret. }
  destruct e; try (eapply triple_conseq; [apply Hroll|naive_solver|done]).
  apply triple_pre. intros m1 [[Hm1 Hps] Hx]. destruct (Hx eq_refl) as (ext & -> & Hf).
  step_pre (adopt_triple pins L a prot _ _ (m_pages m) Hp (NoDup_page_range _ _) Hf).
  + intros m' ->. split; [done|]. by rewrite Hps.
  + by apply triple_ret.
Qed.

(** ** The KUSER pages *)

(** [external->refs = 2U] on a backing just created. *)
Lemma st_two_refs pins L m b bk :
  st (pins_add pins [Some b]) L m -> count b (m_pages m) + pins b = 0 -> (forall b, 0 <= pins b) ->
  m_backings m !! b = Some bk ->
  st (pins_add pins [Some b; Some b]) L
    (set_backings m (<[b := Backing (b_data bk) 2 (b_generation bk)]> (m_backings m))).
Proof.
  intros [Hp Hr [Hd Hh] Hg HL] Hc Hpins E.
  pose proof (Hr b) as Hb. unfold pins_add in Hb. cbn [occ] in Hb. rewrite holds_Some, E in Hb.
  split; try done.
  - intros c. specialize (Hpins c). unfold pins_add in *; cbn [occ] in *.
    pose proof (holds_nonneg c (Some b)). lia.
  - intros c. specialize (Hr c). unfold pins_add in *; cbn [occ] in *. cbn.
    destruct (decide (b = c)) as [<-|].
    + rewrite lookup_insert_eq, holds_Some. cbn. lia.
    + rewrite lookup_insert_ne, holds_ne in * by done. destruct (m_backings m !! c); lia.
  - split; [|done]. intros c bk0. cbn. destruct (decide (b = c)) as [<-|].
    + rewrite lookup_insert_eq. intros [= <-]. cbn. eauto.
    + rewrite lookup_insert_ne by done. eauto.
Qed.

(** A backing just created is used by no page. *)
Lemma new_backing_fresh_triple pins L ps d :
  triple (fun m => st pins L m /\ m_pages m = ps) (new_backing d)
    (fun r m => m_pages m = ps /\ match r with
       | None => st pins L m
       | Some b => st (pins_add pins [Some b]) L m /\ count b ps + pins b = 0 /\
           exists bk, m_backings m !! b = Some bk
       end).
Proof.
  intros m [Hm <-]. pose proof (new_backing_triple pins L d m Hm) as Ht.
  pose proof (keeps_new_backing m_pages d ltac:(done) ltac:(done) m) as Hk.
  destruct (new_backing d m) as [[r m']| |] eqn:E; [|done|done].
  split; [by apply (Hk r)|]. destruct r as [b|]; [|done]. destruct Ht as [Hst Hb].
  split_and!; [done| |done].
  pose proof (alloc_fresh _ _ m (m_allocs m) Hm ltac:(lia)) as Hnone.
  pose proof (st_refs _ _ _ Hm (m_allocs m)) as Hr. rewrite Hnone in Hr.
  enough (b = m_allocs m) as -> by done.
  revert E. unfold new_backing, alloc, put_backing, mbind, M_bind, get, put. cbn.
  destruct (allocation (m_allocs m)); cbn; [|done]. destruct d; cbn; [by intros [= <- _]|].
  destruct (allocation (S (m_allocs m))); cbn; [by intros [= <- _]|done].
Qed.

Lemma bind_kuser_locked_triple pins L h :
  (forall b, 0 <= pins b) ->
  triple (st pins L) (bind_kuser_locked h) (fun _ => st pins L).
Proof.
  intros Hp. unfold bind_kuser_locked. destruct (_ || _); [by apply triple_ret|].
  apply triple_get. intros m Hm. unfold at_.
  destruct (m_pages m !! GEM_KUSER_CANONICAL_ADDRESS) as [canonical|] eqn:Ec;
    [|apply triple_ret; by intros ? ->].
  destruct (m_pages m !! GEM_KUSER_SHARED_DATA_ADDRESS) as [alias|] eqn:Ea;
    [|apply triple_ret; by intros ? ->].
  destruct (_ || _) eqn:Hg; [apply triple_ret; by intros ? ->|]. bool_to_Z.
  apply bool_decide_eq_true in H0 as Hsame.
  step_pre (new_backing_fresh_triple pins L (m_pages m) (Some h)); [by intros ? ->|].
  destruct a as [b|]; [|apply triple_ret; by intros m1 [_ ?]].
  apply triple_pre. intros m1 (Hps & Hm1 & Hc & bk & Hbk).
  apply (triple_bind _ _ _ (fun r m' => r = (b, bk) /\ m' = m1)).
  { intros m' ->. unfold deref_backing, mbind, M_bind, get. by rewrite Hbk. }
  intros r; cbv beta. apply triple_pre. intros m' [-> ->].
  apply (triple_bind _ _ _ (fun _ m' => st (pins_add (pins_add pins [Some b]) [Some b]) L m' /\
    m_pages m' = m_pages m)).
  { intros m' ->. cbn. split; [|done]. rewrite <- st_pins_cons. apply st_two_refs; try done.
    by rewrite Hps. }
  intros u; cbv beta.
  step (swap_backing_triple (pins_add pins [Some b]) L _ (Some b) (m_pages m) canonical
          (pins_add_nonneg _ _ Hp) Ec).
  assert (<[GEM_KUSER_CANONICAL_ADDRESS := with_backing canonical (Some b)]> (m_pages m)
            !! GEM_KUSER_SHARED_DATA_ADDRESS = Some alias) as Ea'.
  { by rewrite lookup_insert_ne. }
  step_pre (swap_backing_triple (pins_add pins [p_backing canonical]) L _ (Some b) _ alias
          (pins_add_nonneg _ _ Hp) Ea').
  { intros m2 [Hm2 Hps2]. split; [|done]. revert Hm2. apply st_pins_eq.
    intros c. unfold pins_add. cbn. lia. }
  assert (is_Some (L !! GEM_KUSER_CANONICAL_ADDRESS) /\ is_Some (L !! GEM_KUSER_SHARED_DATA_ADDRESS))
    as [HLc HLa].
  { rewrite <- (st_layout _ _ _ Hm), !layout_is_Some. eauto. }
  rewrite <- Hsame.
  step_pre (touch_page_triple (pins_add (pins_add pins [p_backing canonical]) [p_backing canonical]) L);
    [exact HLc|by intros ? [? _]|].
  step (touch_page_triple (pins_add (pins_add pins [p_backing canonical]) [p_backing canonical]) L);
    [exact HLa|].
  step (drop_triple (pins_add pins [p_backing canonical]) L); [by apply pins_add_nonneg|].
  step (drop_triple pins L); [done|]. by apply triple_ret.
Qed.

(** ** Data access *)

(** What the chunks of an access are: consecutive, within one page each, and
    ending at a page boundary or at the end of the access. *)
Fixpoint chunks_ok (a n d : Z) (ks : list chunk) : Prop :=
  match ks with
  | [] => d = n
  | k :: ks =>
    k_done k = d /\ k_page k + k_offset k = a + d /\ k_page k mod 4096 = 0 /\
    0 <= k_offset k /\ 0 < k_size k /\ k_offset k + k_size k <= 4096 /\ d + k_size k <= n /\
    (d + k_size k = n \/ k_offset k + k_size k = 4096) /\
    chunks_ok a n (d + k_size k) ks
  end.

Lemma land_4095 x : x .& 4095 = x mod 4096.
Proof. change 4095 with (Z.ones 12). by rewrite Z.land_ones by lia. Qed.

Lemma ldiff_4095 x : x .&~ 4095 = 4096 * (x / 4096).
Proof.
  change 4095 with (Z.ones 12). rewrite Z.ldiff_ones_r by lia.
  rewrite Z.shiftl_mul_pow2, Z.shiftr_div_pow2 by lia. change (2 ^ 12) with 4096. lia.
Qed.

Lemma chunks_ok_gen pages a n d :
  0 <= a -> 0 <= d <= n ->
  (if decide (d = n) then pages = 0%nat
   else Z.of_nat pages = (a + n - 1) / 4096 - (a + d) / 4096 + 1) ->
  chunks_ok a n d (chunks pages a n d).
Proof.
  intros Ha. revert d. induction pages as [|pages IH]; intros d Hd Hp; cbn [chunks chunks_ok].
  - destruct (decide (d = n)); [done|]. exfalso.
    pose proof (Z.div_le_mono (a + d) (a + n - 1) 4096). lia.
  - destruct (decide (d = n)); [done|]. cbn [k_done k_page k_offset k_size].
    rewrite land_4095, ldiff_4095. pose proof (Z.div_mod (a + d) 4096 ltac:(lia)) as Hdm.
    pose proof (Z.mod_pos_bound (a + d) 4096 ltac:(lia)) as Hb.
    set (off := (a + d) mod 4096) in *. set (q := (a + d) / 4096) in *.
    set (z := if n - d <? 4096 - off then n - d else 4096 - off).
    assert (0 < z /\ off + z <= 4096 /\ d + z <= n /\ (d + z = n \/ off + z = 4096)) as (?&?&?&Hz).
    { subst z. destruct (Z.ltb_spec (n - d) (4096 - off)); lia. }
    split_and!; try lia.
    + rewrite Z.mul_comm. by apply Z.mod_mul.
    + apply IH; [lia|]. destruct (decide (d + z = n)) as [He|He].
      * assert ((a + n - 1) / 4096 = q) as Hq; [|lia].
        symmetry. apply (Z.div_unique _ _ _ (off + z - 1)); lia.
      * assert ((a + (d + z)) / 4096 = q + 1) as Hq; [|lia].
        symmetry. apply (Z.div_unique _ _ _ 0); lia.
Qed.

Lemma chunks_spec a n : 0 <= a -> 0 < n -> chunks_ok a n 0 (chunks (page_count a n) a n 0).
Proof.
  intros Ha Hn. apply chunks_ok_gen; [done|lia|].
  destruct (decide (0 = n)); [lia|]. unfold page_count. rewrite land_4095, Z.add_0_r.
  pose proof (Z.div_mod a 4096 ltac:(lia)). pose proof (Z.mod_pos_bound a 4096 ltac:(lia)).
  rewrite Z2Nat.id by (apply Z.div_pos; lia).
  replace (n + a mod 4096 + 4095) with ((a + n - 1) + (1 - a / 4096) * 4096) by lia.
  rewrite Z.div_add by lia. lia.
Qed.

(** Every page of an access is mapped and committed. *)
Definition backed (ks : list chunk) (m : mem) : Prop :=
  forall k, k ∈ ks -> exists p b, m_pages m !! k_page k = Some p /\ p_backing p = Some b.

Lemma backed_ext ks m m' : m_pages m' = m_pages m -> backed ks m -> backed ks m'.
Proof. unfold backed. by intros ->. Qed.

Lemma backed_insert ks m m' a p b :
  m_pages m' = <[a := p]> (m_pages m) -> p_backing p = Some b -> backed ks m -> backed ks m'.
Proof.
  unfold backed. intros -> Hb H k Hk. destruct (decide (a = k_page k)) as [->|].
  - rewrite lookup_insert_eq. eauto.
  - rewrite lookup_insert_ne by done. eauto.
Qed.

Lemma access_backed m w x ks :
  first_error (access_error m w x) ks = None -> backed ks m.
Proof.
  intros H k Hk. pose proof (proj1 (first_error_None _ _) H k Hk) as Hf.
  unfold access_error, at_ in Hf. destruct (m_pages m !! k_page k) as [p|]; [|done].
  destruct (p_backing p) as [b|] eqn:E; [eauto|done].
Qed.

Lemma backed_layout pins L m ks k :
  st pins L m -> backed ks m -> k ∈ ks -> is_Some (L !! k_page k).
Proof.
  intros Hm Hb Hk. destruct (Hb k Hk) as (p & b & Hp & _).
  rewrite <- (st_layout _ _ _ Hm). apply layout_is_Some. eauto.
Qed.

Lemma deref_backing_triple pins L b :
  triple (fun m => st pins L m /\ is_Some (m_backings m !! b)) (deref_backing (Some b))
    (fun r m => st pins L m /\ m_backings m !! b = Some r.2 /\ r.1 = b).
Proof.
  intros m [Hm [bk Hbk]]. unfold deref_backing, mbind, M_bind, get. rewrite Hbk. by cbn.
Qed.

Lemma length_bytes_at l off n : (length (bytes_at l off n) <= Z.to_nat n)%nat.
Proof. unfold bytes_at. rewrite length_take. lia. Qed.

Lemma make_copies_triple pins L ks cs ps :
  (forall b, 0 <= pins b) ->
  (forall k, k ∈ ks -> exists p b, ps !! k_page k = Some p /\ p_backing p = Some b) ->
  triple (fun m => st (pins_add pins cs) L m /\ m_pages m = ps) (make_copies ks cs)
    (fun r m => (st (pins_add pins r.2) L m /\ m_pages m = ps) /\
       (r.1 = true -> length r.2 = (length cs + length ks)%nat)).
Proof.
  intros Hp. revert cs. induction ks as [|k ks IH]; intros cs Hks; cbn [make_copies].
  { apply triple_ret. intros m Hm. split; [done|]. cbn. lia. }
  destruct (Hks k) as (p & b & Hk & Hb); [set_solver|].
  assert (forall c, triple (fun m => st (pins_add pins (cs ++ [c])) L m /\ m_pages m = ps)
      (make_copies ks (cs ++ [c]))
      (fun r m => (st (pins_add pins r.2) L m /\ m_pages m = ps) /\
         (r.1 = true -> length r.2 = (length cs + length (k :: ks))%nat))) as Hnext.
  { intros c. eapply triple_conseq; [apply (IH (cs ++ [c])); set_solver|done|].
    intros r m [Hm Hr]. split; [done|]. intros Ht. rewrite (Hr Ht), length_app. cbn. lia. }
  apply triple_pre. intros m [Hm Hps].
  step_pre_keeping m_pages (deref_page_triple (pins_add pins cs) L (k_page k)).
  { rewrite <- (st_layout _ _ _ Hm). apply layout_is_Some. rewrite Hps. eauto. }
  { by intros ? ->. }
  apply triple_pre. intros m1 [[Hm1 Hp1] Hps1]. rewrite Hps1, Hk in Hp1. injection Hp1 as <-.
  rewrite Hb. destruct (st_page_live _ _ _ _ _ b Hm1 (eq_trans (f_equal (lookup _) Hps1) Hk) Hb)
    as [bk Hbk].
  apply (triple_bind _ _ _ (fun r m' => r = (b, bk) /\ m' = m1)).
  { intros m' ->. unfold deref_backing, mbind, M_bind, get. by rewrite Hbk. }
  intros r; cbv beta. apply triple_pre. intros m' [-> ->].
  destruct (is_write_copy (p_protection p) && negb (external bk)) eqn:Hcopy.
  - step_pre_keeping m_pages (new_backing_triple (pins_add pins cs) L None).
    { by intros ? ->. }
    destruct a as [c|].
    2:{ apply triple_ret. by intros m2 ?. }
    apply triple_get. intros m2 [[Hm2 Hc] Hps2].
    step_pre_keeping m_pages
      (store_backing_triple (pins_add (pins_add pins cs) [Some c]) L c 0 (contents m2 bk)).
    + rewrite length_contents; [lia|apply (st_data _ _ _ Hm2)|].
      by apply (st_data _ _ _ Hm1) in Hbk.
    + by intros ? ->.
    + eapply triple_conseq; [apply (Hnext (Some c))| |done].
      intros m3 [[Hm3 _] ?]. split; [by rewrite st_pins_app|done].
  - eapply triple_conseq; [apply (Hnext None)| |done].
    intros m3 ->. split; [|done]. by rewrite st_pins_app, st_pins_None.
Qed.

Lemma detach_page_triple pins L k c ps p b :
  (forall b, 0 <= pins b) -> ps !! k_page k = Some p -> p_backing p = Some b ->
  triple (fun m => st (pins_add pins [c]) L m /\ m_pages m = ps) (detach_page k c)
    (fun _ m => st pins L m /\ exists p', m_pages m = <[k_page k := p']> ps /\
       p_backing p' = Some (default b c)).
Proof.
  intros Hp Hk Hb. unfold detach_page. apply triple_pre. intros m [Hm Hps].
  apply (triple_bind _ _ _ (fun r m' => r = p /\ m' = m)).
  { intros m' ->. unfold deref_page, mbind, M_bind, get, at_. by rewrite Hps, Hk. }
  intros r; cbv beta. apply triple_pre. intros m' [-> ->]. destruct c as [c|].
  - set (f := fun p => with_protection (with_backing p (Some c)) (write_copy_protection (p_protection p))).
    eapply triple_conseq.
    + eapply (replace_backing_triple pins L (k_page k) f (Some c) ps p) with
        (Q := fun _ m => st pins L m /\ exists p', m_pages m = <[k_page k := p']> ps /\
                           p_backing p' = Some c); [done|done|done|done|done|].
      eapply triple_conseq;
        [apply (touch_exact_triple pins L (k_page k) (<[k_page k := f p]> ps) (f p));
         apply lookup_insert_eq|done|].
      intros u m1 [Hm1 [g Hg]]. split; [done|]. rewrite insert_insert_eq in Hg.
      exists (with_generation (f p) g). split; [exact Hg|done].
    + by intros ? ->.
    + done.
  - rewrite st_pins_None in Hm. rewrite Hb.
    destruct (st_page_live _ _ _ (k_page k) p b Hm) as [bk Hbk]; [by rewrite Hps|done|].
    apply (triple_bind _ _ _ (fun r m' => r = (b, bk) /\ m' = m)).
    { intros m' ->. unfold deref_backing, mbind, M_bind, get. by rewrite Hbk. }
    intros r; cbv beta. apply triple_pre. intros m' [-> ->].
    destruct (external bk && _).
    + intros m' ->. cbn. split; [|rewrite Hps; eauto].
      eapply st_set_same; [done|rewrite Hps; exact Hk|done..].
    + apply triple_ret. intros m' ->. split; [done|]. exists p.
      split; [|done]. by rewrite insert_id.
Qed.

Lemma detach_pages_triple pins L ks cs all :
  (forall b, 0 <= pins b) -> length cs = length ks -> (forall k, k ∈ ks -> k ∈ all) ->
  triple (fun m => st (pins_add pins cs) L m /\ backed all m)
    (for_each (zip ks cs) (fun '(k, c) => detach_page k c))
    (fun _ m => st pins L m /\ backed all m).
Proof.
  intros Hp. revert cs. induction ks as [|k ks IH]; intros [|c cs] Hlen Hin; try done;
    cbn [zip zip_with for_each].
  - apply triple_ret. intros m [Hm ?]. by rewrite st_pins_nil in Hm.
  - apply triple_pre. intros m [Hm Hbk]. destruct (Hbk k) as (p & b & Hk & Hb); [set_solver|].
    step_pre (detach_page_triple (pins_add pins cs) L k c (m_pages m) p b (pins_add_nonneg _ _ Hp) Hk Hb).
    { intros m' ->. split; [|done]. by rewrite <- st_pins_cons. }
    eapply triple_conseq; [apply (IH cs); [by injection Hlen|set_solver]| |done].
    intros m' (Hm' & p' & Hps' & Hb'). split; [done|]. by eapply backed_insert.
Qed.

Lemma chunks_ok_bounds a n d ks k :
  chunks_ok a n d ks -> k ∈ ks ->
  0 <= k_offset k /\ 0 < k_size k /\ k_offset k + k_size k <= 4096 /\
  d <= k_done k /\ k_done k + k_size k <= n /\ k_page k + k_offset k = a + k_done k /\
  k_page k mod 4096 = 0.
Proof.
  revert d. induction ks as [|k' ks IH]; intros d Hok Hk; [set_solver|].
  destruct Hok as (Hd & ? & ? & ? & ? & ? & ? & _ & Hok).
  apply elem_of_cons in Hk as [-> | Hk]; [lia|]. specialize (IH _ Hok Hk). lia.
Qed.

Lemma modify_backed_triple pins L a f ks :
  is_Some (L !! a) ->
  (forall p, p_reservation_base (f p) = p_reservation_base p /\
             p_reservation_size (f p) = p_reservation_size p /\ p_backing (f p) = p_backing p) ->
  triple (fun m => st pins L m /\ backed ks m) (modify_page a f)
    (fun _ m => st pins L m /\ backed ks m).
Proof.
  intros Ha Hf m [Hm Hb]. destruct (layout_mapped _ _ _ _ Hm Ha) as [p Hp].
  pose proof (modify_page_triple pins L a f Ha Hf m Hm) as Ht. revert Ht.
  unfold modify_page, deref_page, put_page, mbind, M_bind, get, put, at_. rewrite Hp. cbn.
  intros Ht. split; [done|]. intros k Hk. cbn. destruct (Hb k Hk) as (q & b & Hq & Hqb).
  destruct (decide (a = k_page k)) as [->|].
  - rewrite lookup_insert_eq. rewrite Hp in Hq. injection Hq as ->.
    exists (f q), b. split; [done|]. destruct (Hf q) as (_ & _ & ->). done.
  - rewrite lookup_insert_ne by done. eauto.
Qed.

Lemma touch_backed_triple pins L a ks :
  is_Some (L !! a) ->
  triple (fun m => st pins L m /\ backed ks m) (touch_page a)
    (fun _ m => st pins L m /\ backed ks m).
Proof.
  intros Ha. unfold touch_page.
  apply (triple_bind _ _ _ (fun _ m => st pins L m /\ backed ks m)).
  - intros m [Hm Hb]. pose proof (bump_triple pins L m Hm) as Ht.
    pose proof (keeps_bump m_pages ltac:(done) m) as Hk.
    destruct (bump_generation m) as [[g m']| |]; [|done|done].
    split; [done|]. eapply backed_ext; [by apply (Hk g)|done].
  - intros g; cbv beta. by apply modify_backed_triple.
Qed.

Lemma transfer_triple pins L w query ks all b :
  (forall k, k ∈ ks -> k ∈ all /\ 0 <= k_offset k /\ 0 < k_size k /\ k_offset k + k_size k <= 4096) ->
  (w = true -> query = false -> b <> None) ->
  triple (fun m => st pins L m /\ backed all m) (transfer w query ks b)
    (fun r m => st pins L m /\ backed all m /\ (r = None <-> b = None)).
Proof.
  revert b. induction ks as [|k ks IH]; intros b Hks Hb; cbn [transfer].
  { apply triple_ret. intros m [? ?]. done. }
  destruct (Hks k) as (Hall & Hoff & Hpos & Hsz); [set_solver|].
  apply triple_pre. intros m [Hm Hbk]. destruct (Hbk k Hall) as (p & i & Hk & Hi).
  assert (is_Some (L !! k_page k)) as HL by by eapply backed_layout.
  destruct (st_page_live _ _ _ _ _ _ Hm Hk Hi) as [bk Hlive].
  apply (triple_bind _ _ _ (fun r m' => r = p /\ m' = m)).
  { intros m' ->. unfold deref_page, mbind, M_bind, get, at_. by rewrite Hk. }
  intros r; cbv beta. apply triple_pre. intros m' [-> ->]. rewrite Hi.
  apply (triple_bind _ _ _ (fun b' m' => (st pins L m' /\ is_Some (m_backings m' !! i)) /\
           backed all m' /\ (b' = None <-> b = None))).
  { destruct query; [apply triple_ret; intros m' ->; split_and!; eauto; done|].
    destruct w.
    - destruct b as [buffer|]; [|by destruct (Hb eq_refl eq_refl)].
      eapply triple_bind.
      + eapply triple_conseq.
        * eapply (triple_keeps m_pages); [solve_keeps|].
          apply (store_backing_triple pins L i (k_offset k)
                   (bytes_at buffer (k_done k) (k_size k))).
          pose proof (length_bytes_at buffer (k_done k) (k_size k)). unfold PAGE, GEM_GUEST_PAGE_SIZE.
          lia.
        * intros m' ->. split; [split; [done|eauto]|reflexivity].
        * intros u m' HQ. exact HQ.
      + intros u; cbv beta. apply triple_ret. intros m' [[? ?] Hps].
        split_and!; try done. by eapply backed_ext.
    - destruct b as [buffer|]; [|apply triple_ret; intros m' ->; split_and!; eauto; done].
      apply (triple_bind _ _ _ (fun r m' => r = (i, bk) /\ m' = m)).
      { intros m' ->. unfold deref_backing, mbind, M_bind, get. by rewrite Hlive. }
      intros r; cbv beta. apply triple_pre. intros m' [-> ->].
      apply triple_get. intros m' ->. apply triple_ret. intros m' ->.
      split_and!; eauto; done. }
  intros b'; cbv beta.
  apply (triple_bind _ _ _ (fun _ m' => (st pins L m' /\ backed all m') /\ (b' = None <-> b = None))).
  { destruct (w && negb query); [|apply triple_ret; tauto].
    apply triple_pre. intros m1 ([Hm1 Hl1] & Hbk1 & Hbb).
    apply (triple_bind _ _ _ (fun _ m' => st pins L m' /\ backed all m')).
    - eapply triple_conseq.
      + eapply (triple_keeps m_pages); [solve_keeps|]. apply (touch_backing_triple pins L i).
      + intros m' ->. split; [split; done|reflexivity].
      + intros u m' [? Hps]. split; [done|]. by eapply backed_ext.
    - intros u; cbv beta. eapply triple_conseq; [apply (touch_backed_triple pins L _ all HL)|done|].
      intros v m' HQ. split; [exact HQ|done]. }
  intros u; cbv beta. apply triple_pre. intros m1 [[Hm1 Hbk1] Hbb].
  eapply triple_conseq; [apply (IH b')| |].
  - intros k' Hk'. apply Hks. set_solver.
  - intros Hw Hq. specialize (Hb Hw Hq). tauto.
  - by intros m' ->.
  - intros r m' (? & ? & ?). split_and!; try done; tauto.
Qed.

Lemma access_pages_triple pins L a n ks b w query :
  (forall b, 0 <= pins b) -> chunks_ok a n 0 ks -> (w = true -> query = false -> b <> None) ->
  triple (fun m => st pins L m /\ backed ks m) (access_pages ks b w query)
    (fun _ => st pins L).
Proof.
  intros Hp Hks Hb. unfold access_pages.
  apply (triple_bind _ _ _ (fun r m => match r with
    | None => st pins L m
    | Some cs => (if query then st pins L m else st (pins_add pins cs) L m) /\
                 backed ks m /\ length cs = length ks
    end)).
  { destruct (w && negb query) eqn:Hwq.
    2:{ apply triple_ret. intros m [Hm Hbk]. split_and!; [|done|apply length_replicate].
        destruct query; [done|]. revert Hm. apply st_pins_eq. intros c. unfold pins_add.
        assert (occ c (replicate (length ks) None) = 0) as ->; [|lia].
        clear. induction (length ks) as [|k IH]; [done|]. cbn. by rewrite holds_None, IH. }
    apply andb_true_iff in Hwq as [-> Hq]. destruct query; [done|].
    apply triple_pre. intros m [Hm Hbk].
    step_pre_keeping m_pages (alloc_triple pins L); [by intros ? ->|].
    destruct a0 as [r|]; [|apply triple_ret; by intros m' [? _]].
    step_pre (make_copies_triple pins L ks [] (m_pages m) Hp Hbk).
    { intros m' [? ?]. by rewrite st_pins_nil. }
    destruct a0 as [ok cs]. cbn [fst snd]. destruct ok.
    - apply triple_ret. intros m' [[? Hps] Hlen]. split_and!; [done| |by apply Hlen].
      by eapply backed_ext.
    - step_pre (drop_list_triple pins L (reverse cs) Hp); [|by apply triple_ret].
      intros m' [[Hm' _] _]. revert Hm'. apply st_pins_eq. intros c. unfold pins_add.
      by rewrite occ_reverse. }
  intros [cs|]; cbv beta; [|by apply triple_ret].
  apply (triple_bind _ _ _ (fun _ m' => st pins L m' /\ backed ks m')).
  { destruct query; [apply triple_ret; tauto|].
    apply triple_pre. intros m (Hm & Hbk & Hlen).
    apply (triple_bind _ _ _ (fun _ m' => st (pins_add pins cs) L m' /\ backed ks m')).
    - eapply triple_conseq;
        [apply (triple_for_each (fun m' => st (pins_add pins cs) L m' /\ backed ks m'))|by intros m' ->|done].
      intros k Hk. apply modify_backed_triple; [by eapply backed_layout|done].
    - intros u; cbv beta. by apply detach_pages_triple. }
  intros u; cbv beta.
  step (transfer_triple pins L w query ks ks b); [|done|].
  - intros k Hk. destruct (chunks_ok_bounds _ _ _ _ _ Hks Hk) as (? & ? & ? & _). done.
  - apply triple_ret. tauto.
Qed.

Lemma find_guard_Some m ks q : find_guard m ks = Some q -> exists k, k ∈ ks /\ k_page k = q.
Proof.
  induction ks as [|k ks IH]; cbn; [done|]. intros Hq.
  assert (find_guard m ks = Some q \/ k_page k = q) as [Hf | Heq].
  { destruct (at_ m (k_page k)) as [p|]; [|by left].
    destruct (has_bits _ _); [right; congruence|by left]. }
  - destruct (IH Hf) as (k' & ? & ?). exists k'. split; [set_solver|done].
  - exists k. split; [set_solver|done].
Qed.

Lemma access_memory_locked_triple pins L a b n w x query cg :
  (forall b, 0 <= pins b) -> 0 <= a -> 0 <= n -> (w = true -> x = false) ->
  triple (st pins L) (access_memory_locked a b n w x query cg) (fun _ => st pins L).
Proof.
  intros Hp Ha Hn Hwx. unfold access_memory_locked.
  destruct (_ || _) eqn:Hg; [by apply triple_ret|]. apply orb_false_iff in Hg as [Hg _].
  destruct (Z.eqb_spec n 0); [by apply triple_ret|].
  destruct (_ <? _); [by apply triple_ret|].
  pose proof (chunks_spec a n Ha ltac:(lia)) as Hks.
  set (ks := chunks (page_count a n) a n 0) in *. clearbody ks.
  step (alloc_triple pins L). destruct a0 as [r|]; [|by apply triple_ret].
  apply triple_get. intros m Hm.
  destruct (first_error _ _) eqn:Hf; [apply triple_ret; by intros ? ->|].
  pose proof (access_backed _ _ _ _ Hf) as Hbk.
  destruct (if query then None else find_guard m ks) as [q|] eqn:Hq.
  - destruct query; [done|]. apply find_guard_Some in Hq as (k & Hk & <-).
    assert (is_Some (L !! k_page k)) as HL by by eapply backed_layout.
    apply (triple_bind _ _ _ (fun _ => st pins L)); [|intros u; by apply triple_ret].
    destruct cg; [|apply triple_ret; by intros ? ->].
    step_pre (modify_page_triple pins L (k_page k) strip_guard HL); [done|by intros ? ->|].
    by apply touch_page_triple.
  - eapply triple_conseq; [apply (access_pages_triple pins L a n ks b w query Hp Hks)| |done].
    + intros Hw Hq0 ->. rewrite (Hwx Hw) in Hg. rewrite bool_decide_true in Hg by done.
      cbn in Hg. bool_to_Z. done.
    + by intros ? ->.
Qed.

Lemma peek_locked_triple pins L a b n :
  0 <= a -> 0 <= n ->
  triple (st pins L) (peek_locked a b n) (fun _ => st pins L).
Proof.
  intros Ha Hn. unfold peek_locked.
  destruct (_ || _); [by apply triple_ret|].
  destruct (Z.eqb_spec n 0); [by apply triple_ret|].
  pose proof (chunks_spec a n Ha ltac:(lia)) as Hks.
  set (ks := chunks (page_count a n) a n 0) in *. clearbody ks.
  apply triple_get. intros m Hm.
  destruct (first_error _ _) eqn:Hf; [apply triple_ret; by intros ? ->|].
  step_pre (transfer_triple pins L false false ks ks b).
  - intros k Hk. destruct (chunks_ok_bounds _ _ _ _ _ Hks Hk) as (? & ? & ? & _). done.
  - done.
  - intros m' ->. split; [done|]. intros k Hk.
    pose proof (proj1 (first_error_None _ _) Hf k Hk) as Hfk. unfold peek_error, at_ in Hfk.
    destruct (m_pages m !! k_page k) as [p|]; [|done].
    destruct (p_backing p) as [i|] eqn:E; [eauto|done].
  - apply triple_ret. tauto.
Qed.
End inv.

(** ** Reachable states *)

(** One call of the public interface on a live object. *)
Inductive memory_call : Type :=
  | CallReserve (a : option Z) (n : Z)
  | CallCommit (a n prot : Z)
  | CallCommitIdentity (a h n prot : Z)
  | CallCommitExternal (a h n prot : Z)
  | CallDecommit (a n : Z)
  | CallRelease (a n : Z)
  | CallUnmap (a n : Z)
  | CallProtect (a n prot : Z) (old : option Z)
  | CallAlias (a s n prot : Z)
  | CallMapIdentity (a h n prot : Z)
  | CallBindKuser (h : Z)
  | CallRead (a : Z) (b : option (list Z)) (n : Z)
  | CallWrite (a : Z) (b : option (list Z)) (n : Z)
  | CallFetch (a : Z) (b : option (list Z)) (n : Z)
  | CallPeek (a : Z) (b : option (list Z)) (n : Z)
  | CallReadDeferredGuard (a : Z) (b : option (list Z)) (n : Z)
  | CallWriteDeferredGuard (a : Z) (b : option (list Z)) (n : Z)
  | CallIsExecutable (a n : Z).

(** Addresses and sizes are 64-bit unsigned. *)
Definition call_ok (c : memory_call) : Prop :=
  match c with
  | CallReserve a n => (match a with Some a => is_u64 a | None => True end) /\ is_u64 n
  | CallCommit a n _ | CallDecommit a n | CallRelease a n | CallUnmap a n
  | CallProtect a n _ _ | CallMapIdentity a _ n _ | CallIsExecutable a n
  | CallCommitIdentity a _ n _ | CallCommitExternal a _ n _ => is_u64 a /\ is_u64 n
  | CallAlias a s n _ => is_u64 a /\ is_u64 s /\ is_u64 n
  | CallBindKuser h => is_u64 h
  | CallRead a _ n | CallWrite a _ n | CallFetch a _ n | CallPeek a _ n
  | CallReadDeferredGuard a _ n | CallWriteDeferredGuard a _ n => is_u64 a /\ is_u64 n
  end.

#[export] Instance call_ok_dec c : Decision (call_ok c).
Proof. destruct c as [[]| | | | | | | | | | | | | | | | |]; cbn; apply _. Defined.

Section calls.
Context {platform : Platform}.

(** Run a public function for its effect on the object. *)
Definition effect {A} (r : result unit (A * option mem)) : result unit (option mem) :=
  match r with Ok (_, m) => Ok m | Err e => Err e | Fault => Fault end.

Definition run_call (c : memory_call) (m : option mem) : result unit (option mem) :=
  match c with
  | CallReserve a n => effect (gem_memory_reserve m a n)
  | CallCommit a n prot => effect (gem_memory_commit m a n prot)
  | CallCommitIdentity a h n prot => effect (gem_memory_commit_identity m a h n prot)
  | CallCommitExternal a h n prot => effect (gem_memory_commit_external m a h n prot)
  | CallDecommit a n => effect (gem_memory_decommit m a n)
  | CallRelease a n => effect (gem_memory_release m a n)
  | CallUnmap a n => effect (gem_memory_unmap m a n)
  | CallProtect a n prot old => effect (gem_memory_protect m a n prot old)
  | CallAlias a s n prot => effect (gem_memory_alias m a s n prot)
  | CallMapIdentity a h n prot => effect (gem_memory_map_identity m a h n prot)
  | CallBindKuser h => effect (gem_memory_bind_kuser m h)
  | CallRead a b n => effect (gem_memory_read m a b n)
  | CallWrite a b n => effect (gem_memory_write m a b n)
  | CallFetch a b n => effect (gem_memory_fetch m a b n)
  | CallPeek a b n => effect (gem_memory_peek m a b n)
  | CallReadDeferredGuard a b n => effect (gem_memory_read_deferred_guard m a b n)
  | CallWriteDeferredGuard a b n => effect (gem_memory_write_deferred_guard m a b n)
  | CallIsExecutable a n => effect (gem_memory_is_executable m a n)
  end.

Fixpoint run_calls (cs : list memory_call) (m : option mem) : result unit (option mem) :=
  match cs with
  | [] => Ok m
  | c :: cs => m' ← run_call c m; run_calls cs m'
  end.

(** No references are held outside the page table between two calls. *)
Definition no_pins : bid -> Z := fun _ => 0.
Lemma no_pins_nonneg b : 0 <= no_pins b.
Proof. done. Qed.

Definition call_keeps (pins : bid -> Z) (r : result unit (option mem)) : Prop :=
  match r with
  | Ok (Some m) => inv pins m
  | Ok None => True
  | Err _ => True
  | Fault => False
  end.

Section keeps.
Context (pins : bid -> Z) (Hp : forall b, 0 <= pins b).

Lemma locked_safe {A} (d : A) (f : M A) m :
  triple (inv pins) f (fun _ => inv pins) -> inv pins m ->
  exists r, effect (locked d f (Some m)) = r /\ r <> Ok None /\ call_keeps pins r.
Proof.
  intros Ht Hm. specialize (Ht m Hm). unfold effect, locked.
  destruct (f m) as [[a m']| |]; [|by eexists|done]. by eexists.
Qed.

Lemma inv_triple {A} (f : M A) :
  (forall L, triple (st pins L) f (fun _ => st pins L)) ->
  triple (inv pins) f (fun _ => inv pins).
Proof.
  intros H m (L & Hm & HL). specialize (H L m Hm).
  destruct (f m) as [[a m']| |]; [|done|done]. by exists L.
Qed.

Lemma inv_triple_pages {A} (f : M A) (Q : gmap Z page -> A -> mem -> Prop) :
  (forall ps, triple (fun m => inv pins m /\ m_pages m = ps) f (fun r m => inv pins m /\ Q ps r m)) ->
  triple (inv pins) f (fun _ => inv pins).
Proof.
  intros H m Hm. specialize (H (m_pages m) m (conj Hm eq_refl)).
  destruct (f m) as [[a m']| |]; [tauto|done|done].
Qed.

Lemma run_call_keeps c m :
  call_ok c -> inv pins m -> exists r, run_call c (Some m) = r /\ r <> Ok None /\ call_keeps pins r.
Proof.
  intros Hc Hm.
  destruct c as [a n|a n prot|a h n prot|a h n prot|a n|a n|a n|a n prot old|a s n prot
                |a h n prot|h|a b n|a b n|a b n|a b n|a b n|a b n|a n]; cbn in Hc; unfold is_u64 in Hc;
    apply locked_safe; try done.
  - destruct a as [a|].
    + eapply inv_triple_pages. intros ps. apply reserve_locked_triple; [done|lia|lia].
    + by apply triple_ret.
  - apply inv_triple. intros L. by apply commit_locked_triple.
  - apply inv_triple. intros L. by apply commit_external_locked_triple.
  - apply inv_triple. intros L. by apply commit_external_locked_triple.
  - apply inv_triple. intros L. by apply decommit_locked_triple.
  - apply release_locked_triple; [done|lia].
  - apply unmap_locked_triple; [done|lia].
  - apply inv_triple. intros L. apply protect_locked_triple. lia.
  - eapply inv_triple_pages. intros ps. apply alias_locked_triple; [done|lia|lia].
  - apply map_identity_locked_triple; [done|lia|lia].
  - apply inv_triple. intros L. by apply bind_kuser_locked_triple.
  - apply inv_triple. intros L. apply access_memory_locked_triple; (done || lia).
  - apply inv_triple. intros L. apply access_memory_locked_triple; (done || lia).
  - apply inv_triple. intros L. apply access_memory_locked_triple; (done || lia).
  - apply inv_triple. intros L. apply peek_locked_triple; lia.
  - apply inv_triple. intros L. apply access_memory_locked_triple; (done || lia).
  - apply inv_triple. intros L. apply access_memory_locked_triple; (done || lia).
  - apply inv_triple. intros L.
    step (access_memory_locked_triple pins L a None n false true true true); try (done || lia).
    destruct a0. by apply triple_ret.
Qed.
End keeps.

Definition call_safe : result unit (option mem) -> Prop := call_keeps no_pins.

Lemma run_call_safe c m :
  call_ok c -> inv no_pins m -> exists r, run_call c (Some m) = r /\ r <> Ok None /\ call_safe r.
Proof. apply run_call_keeps, no_pins_nonneg. Qed.

Lemma run_calls_safe cs m :
  Forall call_ok cs -> inv no_pins m -> call_safe (run_calls cs (Some m)).
Proof.
  intros Hcs. revert m. induction Hcs as [|c cs Hc _ IH]; intros m Hm; [done|]. cbn [run_calls].
  destruct (run_call_safe c m Hc Hm) as (r & -> & Hne & Hr).
  destruct r as [[m'|]|e|]; [by apply IH|done|done|done].
Qed.

(** ** Creation and destruction *)

Lemma st_empty host :
  (forall h l, host !! h = Some l -> length l = PAGE) -> st no_pins ∅ (Mem ∅ ∅ host 0 0).
Proof.
  intros Hh. split; [done| |split; [done|exact Hh]|done|apply fmap_empty].
  intros b. cbn. by rewrite lookup_empty.
Qed.

Lemma create_kuser_triple :
  triple (inv no_pins) create_kuser (fun _ => inv no_pins).
Proof.
  pose proof no_pins_nonneg as Hp. unfold create_kuser. apply triple_pre. intros m Hm.
  step_pre (reserve_locked_triple no_pins GEM_KUSER_CANONICAL_ADDRESS GEM_GUEST_PAGE_SIZE (m_pages m) Hp);
    [done|done|by intros ? ->|].
  destruct a as [e canonical]. cbn [fst snd].
  destruct (negb (bool_decide (e = GEM_MEMORY_OK))).
  { apply triple_ret. tauto. }
  apply triple_pre. intros m1 [Hm1 _].
  step_pre (inv_triple no_pins (commit_locked (default 0 canonical) GEM_GUEST_PAGE_SIZE GEM_PAGE_READWRITE)).
  { intros L. by apply commit_locked_triple. }
  { by intros ? ->. }
  destruct (negb _); [by apply triple_ret|].
  apply triple_pre. intros m2 Hm2.
  step_pre (alias_locked_triple no_pins GEM_KUSER_SHARED_DATA_ADDRESS (default 0 canonical)
          GEM_GUEST_PAGE_SIZE GEM_PAGE_READWRITE (m_pages m2) Hp); [done|done|by intros ? ->|].
  apply triple_ret. tauto.
Qed.

Lemma remove_all_triple pins :
  (forall b, 0 <= pins b) ->
  triple (inv pins) (remove_pages 0 UINT64_MAX) (fun _ m => st pins ∅ m /\ m_pages m = ∅).
Proof.
  intros Hp. apply triple_pre. intros m (L & Hm & HL). eapply triple_conseq.
  - apply (remove_pages_triple pins L 0 UINT64_MAX (m_pages m) Hp).
  - by intros ? ->.
  - intros u m' [Hm' H].
    assert (m_pages m' = ∅) as He.
    { apply map_eq. intros x. rewrite H, lookup_empty. case_bool_decide as Hx; [done|].
      destruct (m_pages m !! x) as [p|] eqn:E; [|done]. exfalso. apply Hx.
      assert (is_Some (L !! x)) as [[b s] Hb].
      { rewrite <- (st_layout _ _ _ Hm). apply layout_is_Some. eauto. }
      destruct (HL _ _ _ Hb) as (? & _ & _ & ? & _ & ? & _).
      change (wrap64 (0 + UINT64_MAX)) with UINT64_MAX. lia. }
    split; [|done]. replace ∅ with (layout m'); [done|]. unfold layout. by rewrite He, fmap_empty.
Qed.

Lemma inv_empty m : st no_pins ∅ m -> inv no_pins m.
Proof. intros Hm. exists ∅. split; [done|]. intros a b s. by rewrite lookup_empty. Qed.

Lemma gem_memory_create_safe host :
  (forall h l, host !! h = Some l -> length l = PAGE) ->
  match gem_memory_create host with
  | Ok (Some m, _) => inv no_pins m
  | Ok (None, m) => m_pages m = ∅ /\ m_backings m = ∅
  | Err _ => True
  | Fault => False
  end.
Proof.
  intros Hh. unfold gem_memory_create.
  match goal with |- context [match ?b _ with _ => _ end] => set (body := b) end.
  assert (triple (st no_pins ∅) body (fun ok m =>
    if ok then inv no_pins m else st no_pins ∅ m /\ (m_pages m = ∅))) as Hbody.
  { subst body. apply triple_pre. intros m0 Hm0.
    assert (m_pages m0 = ∅) as Hps0.
    { apply fmap_empty_inv with (f := fun p => (p_reservation_base p, p_reservation_size p)).
      apply (st_layout _ _ _ Hm0). }
    step_pre_keeping m_pages (alloc_triple no_pins ∅); [intros ? ->; split; [done|exact Hps0]|].
    destruct a as [r|]; [|by apply triple_ret].
    step_keeping m_pages (alloc_triple no_pins ∅).
    destruct a as [r'|]; [|by apply triple_ret].
    step_pre create_kuser_triple; [intros m [Hm _]; by apply inv_empty|].
    destruct a.
    - step_pre (triple_ret (inv no_pins) tt (fun _ => inv no_pins)); [done|done|]. by apply triple_ret.
    - step (remove_all_triple no_pins no_pins_nonneg). by apply triple_ret. }
  specialize (Hbody _ (st_empty host Hh)). destruct (body _) as [[[] m]| |]; [done| |done|done].
  destruct Hbody as [Hst Hps]. split; [done|]. apply map_eq. intros b.
  pose proof (st_refs _ _ _ Hst b) as Hr. rewrite Hps in Hr.
  rewrite lookup_empty. destruct (m_backings m !! b); [|done].
  change (count b ∅) with 0 in Hr. unfold no_pins in Hr. lia.
Qed.

Lemma gem_memory_destroy_safe m :
  inv no_pins m -> match gem_memory_destroy (Some m) with
                   | Ok (Some m') => m_pages m' = ∅ /\ m_backings m' = ∅
                   | Ok None => False
                   | Err _ => True
                   | Fault => False
                   end.
Proof.
  intros Hm. unfold gem_memory_destroy.
  pose proof (remove_all_triple no_pins no_pins_nonneg m Hm) as Ht.
  destruct (remove_pages 0 UINT64_MAX m) as [[u m']| |]; [|done|done].
  destruct Ht as [Hst Hps]. split; [done|]. apply map_eq. intros b.
  pose proof (st_refs _ _ _ Hst b) as Hr. rewrite Hps in Hr.
  rewrite lookup_empty. destruct (m_backings m' !! b); [|done].
  change (count b ∅) with 0 in Hr. unfold no_pins in Hr. lia.
Qed.
End calls.
