(* ===== verification/MemoryTotal.v ===== *)
(** MemoryTotal: how far each operation moves the generation counter, and hence
    that [abort()] is out of reach; with MemoryInv, every sequence of calls on a
    fresh object returns. *)
From S2P Require Import Prelude MemoryModel Memory MemoryLogic MemoryInv.

(** [f] neither aborts nor advances the counter by more than [k] when the
    counter has room for [k] steps. *)
Definition bounded {A} (k : Z) (f : M A) : Prop :=
  forall m, 0 <= m_next_generation m -> m_next_generation m + k < 2 ^ 64 ->
  match f m with
  | Ok (_, m') => m_next_generation m <= m_next_generation m' <= m_next_generation m + k
  | Err _ => False
  | Fault => True
  end.

Lemma bounded_le {A} k k' (f : M A) : bounded k f -> k <= k' -> bounded k' f.
Proof.
  intros H Hk m Hm0 Hm. specialize (H m Hm0 ltac:(lia)).
  destruct (f m) as [[a m']| |]; [lia|done|done].
Qed.

Lemma bounded_bind {A B} k k' (f : M A) (g : A -> M B) :
  0 <= k' -> bounded k f -> (forall a, bounded k' (g a)) -> bounded (k + k') (f ≫= g).
Proof.
  intros Hk' Hf Hg m Hm0 Hm. specialize (Hf m Hm0 ltac:(lia)). unfold mbind, M_bind.
  destruct (f m) as [[a m']| |]; [|done|done]. specialize (Hg a m' ltac:(lia) ltac:(lia)).
  destruct (g a m') as [[b m'']| |]; [lia|done|done].
Qed.

Lemma bounded_bind0 {A B} k (f : M A) (g : A -> M B) :
  0 <= k -> bounded 0 f -> (forall a, bounded k (g a)) -> bounded k (f ≫= g).
Proof. intros Hk Hf Hg. apply (bounded_bind 0 k); auto. Qed.

Lemma bounded_ret {A} k (a : A) : 0 <= k -> bounded k (mret a).
Proof. intros Hk m Hm0 Hm. cbn. lia. Qed.

Lemma bounded_fault {A} k : bounded k (fault (A := A)).
Proof. done. Qed.

(** A program that never aborts and keeps the counter. *)
Lemma bounded_zero {A} (f : M A) :
  keeps m_next_generation f -> (forall m, f m <> Err tt) -> bounded 0 f.
Proof.
  intros Hk He m Hm0 Hm. specialize (Hk m). specialize (He m).
  destruct (f m) as [[a m']|[]|]; [|done|done]. rewrite (Hk a m' eq_refl). lia.
Qed.

Lemma bounded_bump : bounded 1 bump_generation.
Proof.
  intros m Hm0 Hm. unfold bump_generation, mbind, M_bind, get, put, abort.
  rewrite (wrap64_small (m_next_generation m + 1)) by lia.
  destruct (Z.eqb_spec (m_next_generation m + 1) 0); [lia|]. cbn. lia.
Qed.

Lemma bounded_deref_page a : bounded 0 (deref_page a).
Proof.
  apply bounded_zero; [auto with gem|]. intros m. unfold deref_page, mbind, M_bind, get, at_.
  by destruct (m_pages m !! a).
Qed.

Lemma bounded_deref_backing b : bounded 0 (deref_backing b).
Proof.
  apply bounded_zero; [auto with gem|]. intros m. unfold deref_backing, mbind, M_bind, get.
  destruct b as [b|]; [|done]. by destruct (m_backings m !! b).
Qed.

Lemma bounded_get : bounded 0 get.
Proof. by apply bounded_zero; [auto with gem|]. Qed.

Lemma bounded_put_page a p : bounded 0 (put_page a p).
Proof. by apply bounded_zero; [auto with gem|]. Qed.

Lemma bounded_put_backing b bk : bounded 0 (put_backing b bk).
Proof. by apply bounded_zero; [auto with gem|]. Qed.

Lemma bounded_modify_page a f : bounded 0 (modify_page a f).
Proof.
  unfold modify_page. apply bounded_bind0; [done|apply bounded_deref_page|].
  intros; apply bounded_put_page.
Qed.

Lemma bounded_touch_page a : bounded 1 (touch_page a).
Proof.
  unfold touch_page. apply (bounded_bind 1 0); [done|apply bounded_bump|].
  intros; apply bounded_modify_page.
Qed.

Lemma bounded_touch_backing b : bounded 1 (touch_backing b).
Proof.
  unfold touch_backing. apply (bounded_bind 1 0); [done|apply bounded_bump|]. intros g.
  apply bounded_bind0; [done|apply bounded_deref_backing|]. intros [c bk].
  apply bounded_put_backing.
Qed.

Lemma bounded_add_ref b : bounded 0 (add_ref b).
Proof.
  unfold add_ref. apply bounded_bind0; [done|apply bounded_deref_backing|]. intros [c bk].
  apply bounded_put_backing.
Qed.

Lemma bounded_drop b : bounded 0 (drop_backing b).
Proof.
  apply bounded_zero; [auto with gem|]. intros m.
  unfold drop_backing, deref_backing, mbind, M_bind, get, put. destruct b as [b|]; [|done].
  destruct (m_backings m !! b) as [bk|]; [|done]. cbn. by destruct (b_refs bk - 1 =? 0).
Qed.

(** A direct update of the state that keeps the counter. *)
Lemma bounded_update (f : mem -> mem) :
  (forall m, m_next_generation (f m) = m_next_generation m) -> bounded 0 (m ← get; put (f m)).
Proof. intros H m Hm0 Hm. unfold mbind, M_bind, get, put. specialize (H m). lia. Qed.

Lemma bounded_update_bind {A} k (f : mem -> mem) (g : mem -> M A) :
  (forall m, m_next_generation (f m) = m_next_generation m) -> (forall m, bounded k (g m)) ->
  bounded k (m ← get; put (f m);; g m).
Proof.
  intros H Hg m Hm0 Hm. specialize (Hg m (f m)). rewrite H in Hg. exact (Hg Hm0 Hm).
Qed.

Lemma bounded_store b off src : bounded 0 (store_backing b off src).
Proof.
  unfold store_backing. apply bounded_bind0; [done|apply bounded_deref_backing|]. intros [c bk].
  destruct (b_data bk); [|by apply bounded_update].
  apply bounded_bind0; [done|apply bounded_get|]. intros m. apply bounded_put_backing.
Qed.

Lemma bounded_for_each {A} k (body : A -> M unit) l :
  0 <= k -> (forall x, bounded k (body x)) -> bounded (k * Z.of_nat (length l)) (for_each l body).
Proof.
  intros Hk H. induction l as [|x l IH]; cbn [for_each length].
  - apply bounded_ret. lia.
  - eapply bounded_le; [apply (bounded_bind k (k * Z.of_nat (length l))); [lia|apply H|]|lia].
    by intros.
Qed.

Lemma bounded_for_each0 {A} (body : A -> M unit) l :
  (forall x, bounded 0 (body x)) -> bounded 0 (for_each l body).
Proof. intros H. by apply (bounded_for_each 0). Qed.

#[export] Hint Resolve bounded_deref_page bounded_deref_backing bounded_get bounded_put_page
  bounded_put_backing bounded_modify_page bounded_add_ref bounded_drop bounded_store
  bounded_for_each0 bounded_fault : gem.
#[export] Hint Extern 2 (bounded _ (mret _)) => apply bounded_ret; lia : gem.

(** Walk a program that does not move the counter. *)
Ltac bounded0_step :=
  first
  [ solve [auto with gem]
  | apply bounded_bind0; [done| |intros ?]
  | apply bounded_for_each0; intros ?
  | match goal with |- context [match ?x with _ => _ end] => destruct x end ].
Ltac bounded0 := repeat bounded0_step.

Section total.
Context {platform : Platform}.

Lemma bounded_alloc : bounded 0 alloc.
Proof. by apply bounded_zero; [auto with gem|]. Qed.
#[local] Hint Resolve bounded_alloc : gem.

Lemma bounded_new_backing d : bounded 0 (new_backing d).
Proof. unfold new_backing. bounded0. Qed.
#[local] Hint Resolve bounded_new_backing : gem.

Lemma bounded_commit_backings a os bs : bounded 0 (commit_backings a os bs).
Proof. revert bs. induction os as [|o os IH]; intros bs; cbn [commit_backings]; bounded0. Qed.

Lemma bounded_commit_external_backings a h os bs :
  bounded 0 (commit_external_backings a h os bs).
Proof. revert bs. induction os as [|o os IH]; intros bs; cbn [commit_external_backings]; bounded0. Qed.

Lemma bounded_make_copies ks cs : bounded 0 (make_copies ks cs).
Proof. revert cs. induction ks as [|k ks IH]; intros cs; cbn [make_copies]; bounded0. Qed.

Lemma bounded_remove_pages a n : bounded 0 (remove_pages a n).
Proof.
  unfold remove_pages. apply bounded_bind0; [done|auto with gem|]. intros m.
  apply bounded_for_each0. intros [address p]. destruct (_ && _); [|auto with gem].
  apply bounded_update_bind; [done|]. intros. apply bounded_drop.
Qed.
#[local] Hint Resolve bounded_commit_backings bounded_commit_external_backings
  bounded_make_copies bounded_remove_pages : gem.

Lemma bounded_reserve_pages b n os head : bounded (Z.of_nat (length os)) (reserve_pages b n os head).
Proof.
  revert head. induction os as [|o os IH]; intros head; cbn [reserve_pages length];
    [auto with gem|].
  apply bounded_bind0; [lia|auto with gem|]. intros [r|]; [|auto with gem].
  eapply bounded_le; [apply (bounded_bind 1 (Z.of_nat (length os))); [lia|apply bounded_bump|]|lia].
  intros g. apply IH.
Qed.

Lemma bounded_alias_pages a s n prot os head :
  bounded (Z.of_nat (length os)) (alias_pages a s n prot os head).
Proof.
  revert head. induction os as [|o os IH]; intros head; cbn [alias_pages length];
    [auto with gem|].
  apply bounded_bind0; [lia|auto with gem|]. intros [r|].
  2:{ eapply bounded_le; [|apply Nat2Z.is_nonneg]. bounded0. }
  apply bounded_bind0; [lia|auto with gem|]. intros p.
  apply bounded_bind0; [lia|auto with gem|]. intros u.
  eapply bounded_le; [apply (bounded_bind 1 (Z.of_nat (length os))); [lia|apply bounded_bump|]|lia].
  intros g. apply IH.
Qed.

Lemma bounded_map_identity_pages a h prot os :
  bounded (Z.of_nat (length os)) (map_identity_pages a h prot os).
Proof.
  induction os as [|o os IH]; cbn [map_identity_pages length]; [auto with gem|].
  apply bounded_bind0; [lia|auto with gem|]. intros p.
  apply bounded_bind0; [lia|auto with gem|]. intros b.
  apply bounded_bind0; [lia|auto with gem|]. intros u.
  destruct b; [|auto with gem].
  apply bounded_bind0; [lia|auto with gem|]. intros v.
  eapply bounded_le; [apply (bounded_bind 1 (Z.of_nat (length os))); [lia|apply bounded_touch_page|]|lia].
  intros w. apply IH.
Qed.

Lemma bounded_commit_page a prot b : bounded 1 (commit_page a prot b).
Proof.
  unfold commit_page. apply bounded_bind0; [lia|auto with gem|]. intros p.
  apply bounded_bind0; [lia| |intros; apply bounded_touch_page].
  destruct (p_backing p); auto with gem.
Qed.

(** The number of pages of a range. *)
Definition range_pages (n : Z) : Z := Z.of_nat (length (page_range 0 n)).

Lemma range_pages_bound n : 0 <= n -> range_pages n <= (n + 4095) / 4096.
Proof.
  intros Hn. unfold range_pages, page_range. rewrite length_fmap, length_seqZ.
  rewrite Z2Nat.id; [|apply Z.div_pos]; rewrite ?Z.sub_0_r; lia.
Qed.

Lemma bounded_commit_loop a prot n bs :
  bounded (range_pages n)
    (for_each (zip (page_range 0 n) bs) (fun '(o, b) => commit_page (a + o) prot b)).
Proof.
  eapply bounded_le.
  - apply (bounded_for_each 1); [done|]. intros [o b]. apply bounded_commit_page.
  - unfold range_pages. rewrite length_zip_with. lia.
Qed.

Lemma bounded_for_range {k} n (body : Z -> M unit) :
  0 <= k -> (forall o, bounded k (body o)) ->
  bounded (k * range_pages n) (for_each (page_range 0 n) body).
Proof. intros Hk H. by apply bounded_for_each. Qed.

Ltac b0 := apply bounded_bind0; [unfold range_pages; lia|solve [bounded0]|intros ?].
Ltac bret := apply bounded_ret; unfold range_pages; lia.

Lemma range_pages_nonneg n : 0 <= range_pages n.
Proof. unfold range_pages. lia. Qed.

Lemma bounded_reserve_locked a n : bounded (range_pages n) (reserve_locked a n).
Proof.
  pose proof (range_pages_nonneg n).
  unfold reserve_locked. destruct a as [a|]; [|bret].
  destruct (_ || _ || _); [bret|]. b0. b0. destruct (negb _); [bret|].
  destruct (existsb _ _); [bret|].
  eapply bounded_le; [apply (bounded_bind (range_pages n) 0); [done|apply bounded_reserve_pages|]|lia].
  intros [head|]; [|bret]. unfold publish. bounded0.
Qed.

Lemma bounded_commit_locked a n prot : bounded (range_pages n) (commit_locked a n prot).
Proof.
  pose proof (range_pages_nonneg n).
  unfold commit_locked. b0. destruct (check _ _ _ _); try bret.
  destruct (negb _); [bret|]. b0. destruct a1; [|bret]. b0. destruct a1 as [ok bs]. destruct ok.
  - eapply bounded_le; [apply (bounded_bind (range_pages n) 0); [done|apply bounded_commit_loop|]|lia].
    auto with gem.
  - eapply bounded_le; [|apply H]. bounded0.
Qed.

Lemma bounded_decommit_locked a n : bounded (range_pages n) (decommit_locked a n).
Proof.
  pose proof (range_pages_nonneg n).
  unfold decommit_locked. b0. destruct (check _ _ _ _); try bret.
  eapply bounded_le; [apply (bounded_bind (1 * range_pages n) 0); [done| |auto with gem]|lia].
  apply bounded_for_range; [done|]. intros o.
  apply bounded_bind0; [done|auto with gem|]. intros p.
  apply bounded_bind0; [done|auto with gem|]. intros u.
  apply bounded_bind0; [done|auto with gem|]. intros v. apply bounded_touch_page.
Qed.

Lemma bounded_release_locked a n : bounded 0 (release_locked a n).
Proof. unfold release_locked. bounded0. Qed.

Lemma bounded_unmap_locked a n : bounded 0 (unmap_locked a n).
Proof. unfold unmap_locked. bounded0. Qed.

Lemma bounded_protect_locked a n prot old : bounded (range_pages n) (protect_locked a n prot old).
Proof.
  pose proof (range_pages_nonneg n).
  unfold protect_locked. b0. destruct (check _ _ _ _); try bret. destruct (negb _); [bret|].
  b0. b0. eapply bounded_le; [apply (bounded_bind (1 * range_pages n) 0); [done| |auto with gem]|lia].
  apply bounded_for_range; [done|]. intros o. apply bounded_touch_page.
Qed.

Lemma bounded_alias_locked a s n prot : bounded (range_pages n) (alias_locked a s n prot).
Proof.
  pose proof (range_pages_nonneg n).
  unfold alias_locked. destruct (_ || _); [bret|]. b0. destruct (check _ _ _ _); try bret.
  destruct (existsb _ _); [bret|].
  eapply bounded_le; [apply (bounded_bind (range_pages n) 0); [done|apply bounded_alias_pages|]|lia].
  intros [head|]; [|bret]. unfold publish. bounded0.
Qed.

Lemma bounded_map_identity_locked a h n prot :
  bounded (2 * range_pages n) (map_identity_locked a h n prot).
Proof.
  pose proof (range_pages_nonneg n).
  unfold map_identity_locked. destruct (_ || _ || _ || _ || _); [apply bounded_ret; lia|].
  eapply bounded_le;
    [apply (bounded_bind (range_pages n) (range_pages n)); [lia|apply bounded_reserve_locked|]|lia].
  intros [e a']. destruct e; try bret.
  eapply bounded_le;
    [apply (bounded_bind (range_pages n) 0); [lia|apply bounded_map_identity_pages|]|lia].
  intros [|]; [bret|]. pose proof bounded_release_locked. bounded0.
Qed.

Lemma bounded_commit_external_locked a h n prot id :
  bounded (range_pages n) (commit_external_locked a h n prot id).
Proof.
  pose proof (range_pages_nonneg n).
  unfold commit_external_locked. destruct (_ || _ || _ || _ || _); [bret|].
  b0. destruct (check _ _ _ _); try bret. b0. destruct a1; [|bret]. b0. destruct a1 as [e bs].
  assert (forall e', bounded (range_pages n) ((for_each bs drop_backing;; mret e') : M gem_memory_error)).
  { intros e'. eapply bounded_le; [|apply H]. bounded0. }
  destruct e; auto.
  eapply bounded_le; [apply (bounded_bind (range_pages n) 0); [done|apply bounded_commit_loop|]|lia].
  auto with gem.
Qed.

Lemma bounded_bind_kuser_locked h : bounded 2 (bind_kuser_locked h).
Proof.
  unfold bind_kuser_locked. destruct (_ || _); [apply bounded_ret; lia|].
  apply bounded_bind0; [lia|bounded0|intros m].
  destruct (at_ _ _) as [canonical|]; [|apply bounded_ret; lia].
  destruct (at_ _ _) as [alias|]; [|apply bounded_ret; lia].
  destruct (_ || _); [apply bounded_ret; lia|].
  apply bounded_bind0; [lia|bounded0|intros [b|]]; [|apply bounded_ret; lia].
  apply bounded_bind0; [lia|bounded0|intros [i bk]].
  do 3 (apply bounded_bind0; [lia|bounded0|intros ?]).
  apply (bounded_bind 1 1); [lia|apply bounded_touch_page|intros ?].
  apply (bounded_bind 1 0); [lia|apply bounded_touch_page|intros ?]. bounded0.
Qed.

Lemma bounded_transfer w query ks b :
  bounded (2 * Z.of_nat (length ks)) (transfer w query ks b).
Proof.
  revert b. induction ks as [|k ks IH]; intros b; cbn [transfer length]; [auto with gem|].
  apply bounded_bind0; [lia|auto with gem|intros p].
  apply bounded_bind0; [lia|bounded0|intros b'].
  eapply bounded_le; [apply (bounded_bind 2 (2 * Z.of_nat (length ks))); [lia| |intros; apply IH]|lia].
  destruct (w && negb query); [|auto with gem].
  apply (bounded_bind 1 1); [lia|apply bounded_touch_backing|intros; apply bounded_touch_page].
Qed.

Lemma bounded_detach_page k c : bounded 1 (detach_page k c).
Proof.
  unfold detach_page. apply bounded_bind0; [lia|auto with gem|intros p]. destruct c as [c|].
  - do 2 (apply bounded_bind0; [lia|auto with gem|intros ?]). apply bounded_touch_page.
  - eapply bounded_le; [|apply Z.le_0_1]. bounded0.
Qed.

Lemma bounded_access_pages ks b w query :
  bounded (3 * Z.of_nat (length ks)) (access_pages ks b w query).
Proof.
  unfold access_pages. apply bounded_bind0; [lia|bounded0|intros [cs|]]; [|apply bounded_ret; lia].
  eapply bounded_le; [apply (bounded_bind (Z.of_nat (length ks)) (2 * Z.of_nat (length ks))); [lia| |]|lia].
  - destruct query; [apply bounded_ret; lia|].
    apply bounded_bind0; [lia|bounded0|intros u].
    eapply bounded_le; [apply (bounded_for_each 1); [done|]|].
    + intros [k c]. apply bounded_detach_page.
    + rewrite length_zip_with. lia.
  - intros u.
    eapply bounded_le; [apply (bounded_bind (2 * Z.of_nat (length ks)) 0); [lia|apply bounded_transfer|]|lia].
    auto with gem.
Qed.

Lemma length_chunks pages a n d : length (chunks pages a n d) = pages.
Proof. revert d. induction pages as [|pages IH]; intros d; cbn; [done|]. by rewrite IH. Qed.

Lemma bounded_access_memory_locked a b n w x query cg :
  bounded (1 + 3 * Z.of_nat (page_count a n)) (access_memory_locked a b n w x query cg).
Proof.
  unfold access_memory_locked. destruct (_ || _); [apply bounded_ret; lia|].
  destruct (_ =? _); [apply bounded_ret; lia|]. destruct (_ <? _); [apply bounded_ret; lia|].
  apply bounded_bind0; [lia|auto using bounded_alloc|intros [r|]]; [|apply bounded_ret; lia].
  apply bounded_bind0; [lia|auto with gem|intros m].
  destruct (first_error _ _); [apply bounded_ret; lia|].
  destruct (if query then _ else _) as [q|].
  - eapply bounded_le; [apply (bounded_bind 1 0); [done| |auto with gem]|lia].
    destruct cg; [|apply bounded_ret; lia].
    apply bounded_bind0; [lia|auto with gem|intros ?]. apply bounded_touch_page.
  - eapply bounded_le; [apply bounded_access_pages|]. rewrite length_chunks. lia.
Qed.

Lemma bounded_peek_locked a b n : bounded (2 * Z.of_nat (page_count a n)) (peek_locked a b n).
Proof.
  unfold peek_locked. destruct (_ || _); [apply bounded_ret; lia|].
  destruct (_ =? _); [apply bounded_ret; lia|].
  apply bounded_bind0; [lia|auto with gem|intros m].
  destruct (first_error _ _); [apply bounded_ret; lia|].
  eapply bounded_le; [apply (bounded_bind (2 * Z.of_nat (page_count a n)) 0); [lia| |auto with gem]|lia].
  rewrite <- (length_chunks (page_count a n) a n 0) at 1. apply bounded_transfer.
Qed.
Lemma bounded_create_kuser : bounded 3 create_kuser.
Proof.
  unfold create_kuser.
  eapply bounded_le; [apply (bounded_bind 1 2); [done|apply (bounded_reserve_locked _ GEM_GUEST_PAGE_SIZE)|]|done].
  intros [e c]. destruct (negb _); [auto with gem|].
  eapply bounded_le; [apply (bounded_bind 1 1); [done|apply (bounded_commit_locked _ GEM_GUEST_PAGE_SIZE)|]|done].
  intros e2. destruct (negb _); [auto with gem|].
  eapply bounded_le; [apply (bounded_bind 1 0); [done|apply (bounded_alias_locked _ _ GEM_GUEST_PAGE_SIZE)|]|done].
  auto with gem.
Qed.

(** ** Sequences of calls *)

Definition call_size (c : memory_call) : Z :=
  match c with
  | CallReserve _ n | CallCommit _ n _ | CallCommitIdentity _ _ n _
  | CallCommitExternal _ _ n _ | CallDecommit _ n | CallRelease _ n | CallUnmap _ n
  | CallProtect _ n _ _ | CallAlias _ _ n _ | CallMapIdentity _ _ n _
  | CallRead _ _ n | CallWrite _ _ n | CallFetch _ _ n | CallPeek _ _ n
  | CallReadDeferredGuard _ _ n | CallWriteDeferredGuard _ _ n | CallIsExecutable _ n => n
  | CallBindKuser _ => 4096
  end.

(** An upper bound on the generations one call uses. *)
Definition touches (c : memory_call) : Z := 3 * (call_size c / 4096 + 2) + 2.

Fixpoint total_touches (cs : list memory_call) : Z :=
  match cs with [] => 0 | c :: cs => touches c + total_touches cs end.

Lemma touches_range n : 0 <= n -> 0 <= range_pages n <= n / 4096 + 1.
Proof.
  intros Hn. split; [apply range_pages_nonneg|].
  etransitivity; [by apply range_pages_bound|].
  replace (n + 4095) with (n - 1 + 1 * 4096) by lia. rewrite Z.div_add by lia.
  pose proof (Z.div_le_mono (n - 1) n 4096). lia.
Qed.

Lemma touches_pages a n : 0 <= n -> Z.of_nat (page_count a n) <= n / 4096 + 2.
Proof.
  intros Hn. unfold page_count. rewrite land_4095.
  pose proof (Z.mod_pos_bound a 4096 ltac:(lia)).
  rewrite Z2Nat.id by (apply Z.div_pos; lia).
  transitivity ((n + 2 * 4096) / 4096); [apply Z.div_le_mono; lia|].
  rewrite Z.div_add by lia. lia.
Qed.

Lemma locked_bounded {A} k (d : A) (f : M A) m :
  bounded k f -> 0 <= m_next_generation m -> m_next_generation m + k < 2 ^ 64 ->
  match effect (locked d f (Some m)) with
  | Ok (Some m') => m_next_generation m <= m_next_generation m' <= m_next_generation m + k
  | Ok None => False
  | Err _ => False
  | Fault => True
  end.
Proof.
  intros Hf Hm0 Hm. specialize (Hf m Hm0 Hm). unfold effect, locked.
  by destruct (f m) as [[a m']| |].
Qed.

Lemma run_call_bounded c m :
  call_ok c -> 0 <= m_next_generation m -> m_next_generation m + touches c < 2 ^ 64 ->
  match run_call c (Some m) with
  | Ok (Some m') => m_next_generation m <= m_next_generation m' <= m_next_generation m + touches c
  | Ok None => False
  | Err _ => False
  | Fault => True
  end.
Proof.
  intros Hc Hm0 Hm.
  assert (0 <= call_size c) as Hs by (destruct c; cbn in *; unfold is_u64 in *; lia).
  pose proof (touches_range (call_size c) Hs) as Hr.
  pose proof (Z.div_pos (call_size c) 4096 Hs ltac:(lia)) as Hd.
  destruct c as [a n|a n prot|a h n prot|a h n prot|a n|a n|a n|a n prot old|a s n prot
                |a h n prot|h|a b n|a b n|a b n|a b n|a b n|a b n|a n];
    unfold touches in *; cbn [call_size] in *; cbn [run_call];
    apply locked_bounded; try done.
  - eapply bounded_le; [apply bounded_reserve_locked|lia].
  - eapply bounded_le; [apply bounded_commit_locked|lia].
  - eapply bounded_le; [apply bounded_commit_external_locked|lia].
  - eapply bounded_le; [apply bounded_commit_external_locked|lia].
  - eapply bounded_le; [apply bounded_decommit_locked|lia].
  - eapply bounded_le; [apply bounded_release_locked|lia].
  - eapply bounded_le; [apply bounded_unmap_locked|lia].
  - eapply bounded_le; [apply bounded_protect_locked|lia].
  - eapply bounded_le; [apply bounded_alias_locked|lia].
  - eapply bounded_le; [apply bounded_map_identity_locked|lia].
  - eapply bounded_le; [apply bounded_bind_kuser_locked|lia].
  - pose proof (touches_pages a n Hs). eapply bounded_le; [apply bounded_access_memory_locked|lia].
  - pose proof (touches_pages a n Hs). eapply bounded_le; [apply bounded_access_memory_locked|lia].
  - pose proof (touches_pages a n Hs). eapply bounded_le; [apply bounded_access_memory_locked|lia].
  - pose proof (touches_pages a n Hs). eapply bounded_le; [apply bounded_peek_locked|lia].
  - pose proof (touches_pages a n Hs). eapply bounded_le; [apply bounded_access_memory_locked|lia].
  - pose proof (touches_pages a n Hs). eapply bounded_le; [apply bounded_access_memory_locked|lia].
  - pose proof (touches_pages a n Hs). eapply bounded_le;
      [apply (bounded_bind (1 + 3 * Z.of_nat (page_count a n)) 0);
       [done|apply bounded_access_memory_locked|intros [e b]; auto with gem]|lia].
Qed.

Lemma touches_nonneg c : call_ok c -> 0 <= touches c.
Proof.
  intros Hc. unfold touches.
  assert (0 <= call_size c) as Hs by (destruct c; cbn in *; unfold is_u64 in *; lia).
  pose proof (Z.div_pos (call_size c) 4096 Hs ltac:(lia)). lia.
Qed.

Lemma run_calls_total cs m :
  Forall call_ok cs -> inv no_pins m -> 0 <= m_next_generation m ->
  m_next_generation m + total_touches cs < 2 ^ 64 ->
  exists m', run_calls cs (Some m) = Ok (Some m') /\ inv no_pins m'.
Proof.
  intros Hcs. revert m. induction Hcs as [|c cs Hc Hcs IH]; intros m Hm Hm0 Hlt; [by exists m|].
  cbn [run_calls]. cbn [total_touches] in Hlt.
  assert (0 <= total_touches cs) as Hpos.
  { clear -Hcs. induction Hcs as [|c cs Hc _ IH]; cbn [total_touches]; [done|].
    pose proof (touches_nonneg c Hc). lia. }
  destruct (run_call_safe c m Hc Hm) as (r & Hr & Hne & Hsafe).
  pose proof (run_call_bounded c m Hc Hm0 ltac:(lia)) as Hb.
  rewrite Hr in *. destruct r as [[m'|]|e|]; try done.
  cbn. apply IH; [done|lia|lia].
Qed.

Lemma create_bounded host m m' :
  gem_memory_create host = Ok (Some m, m') -> 0 <= m_next_generation m <= 3.
Proof.
  unfold gem_memory_create.
  match goal with |- context [match ?b _ with _ => _ end] => set (body := b) end.
  assert (bounded 3 body) as Hb.
  { subst body. apply bounded_bind0; [done|auto using bounded_alloc|intros [r|]]; [|auto with gem].
    apply bounded_bind0; [done|auto using bounded_alloc|intros [r'|]]; [|auto with gem].
    eapply bounded_le; [apply (bounded_bind 3 0); [done|apply bounded_create_kuser|]|done].
    intros [|]; bounded0. }
  specialize (Hb (Mem ∅ ∅ host 0 0)). cbn [m_next_generation] in Hb.
  destruct (body _) as [[[] m1]| |]; [|done|done|done].
  intros [= <- <-]. specialize (Hb ltac:(lia) ltac:(lia)). lia.
Qed.

Lemma destroy_total m :
  inv no_pins m -> m_next_generation m < 2 ^ 64 -> 0 <= m_next_generation m ->
  exists m', gem_memory_destroy (Some m) = Ok (Some m') /\ m_pages m' = ∅ /\ m_backings m' = ∅.
Proof.
  intros Hm Hlt Hm0. pose proof (gem_memory_destroy_safe m Hm) as Hs.
  unfold gem_memory_destroy in *.
  pose proof (bounded_remove_pages 0 UINT64_MAX m Hm0 ltac:(lia)) as Hb.
  destruct (remove_pages 0 UINT64_MAX m) as [[u m']| |]; [|done|done]. eauto.
Qed.

(** C1: the address space never meets undefined behaviour and never aborts.
    From a fresh object, any sequence of public calls with well-typed arguments,
    whatever their outcomes and whichever allocations fail, returns; afterwards
    every reference count is exactly the number of pages that use the backing
    (so there is no use after free, no double free and no dangling page), every
    reservation is a complete contiguous run of pages, and destroying the
    object frees every backing.  The bound on the calls' total size (over 2^60
    pages) keeps the 64-bit generation counter from wrapping, which is the only
    way to reach [abort()]. *)
Theorem memory_calls_safe host cs m0 m1 :
  (forall h l, host !! h = Some l -> length l = PAGE) ->
  gem_memory_create host = Ok (Some m0, m1) ->
  Forall call_ok cs -> 3 + total_touches cs < 2 ^ 64 ->
  exists m, run_calls cs (Some m0) = Ok (Some m) /\ inv no_pins m /\
    exists m', gem_memory_destroy (Some m) = Ok (Some m') /\
      m_pages m' = ∅ /\ m_backings m' = ∅.
Proof.
  intros Hh Hc Hcs Hlt. pose proof (gem_memory_create_safe host Hh) as Hs. rewrite Hc in Hs.
  pose proof (create_bounded _ _ _ Hc).
  destruct (run_calls_total cs m0 Hcs Hs) as (m & Hm & Hi); [lia|lia|].
  exists m. split_and!; [done|done|]. pose proof Hi as (L & Hst & _).
  pose proof (st_generation _ _ _ Hst). apply destroy_total; [done|lia|lia].
Qed.
End total.

(** A platform on which the first [n] allocations succeed. *)
Definition plenty (n : nat) : Platform :=
  {| allocation k := if decide (k < n)%nat then Some 0 else None; vm_region _ := None |}.

(** Reserve, commit, write, make an alias, write through it, unmap the middle
    of a reservation, bind the KUSER pages to a host page, run out of memory. *)
Definition witness_calls : list memory_call :=
  [CallReserve (Some 0) 12288; CallCommit 0x100000000 12288 GEM_PAGE_WRITECOPY;
   CallWrite 0x100000ffe (Some [1; 2; 3; 4]) 4;
   CallAlias 0x200000000 0x100000000 4096 GEM_PAGE_EXECUTE_WRITECOPY;
   CallWrite 0x200000000 (Some [9]) 1;
   CallUnmap 0x100001000 4096; CallBindKuser 0x40000; CallRead 0x7ffe0000 (Some [0]) 1;
   CallRelease 0x100000000 4096; CallReserve (Some 0x300000000) 8192].

Lemma memory_calls_safe_witness :
  exists m0, gem_memory_create (platform := plenty 24) ∅ = Ok (Some m0, m0) /\
  exists m, run_calls (platform := plenty 24) witness_calls (Some m0) = Ok (Some m) /\
    inv no_pins m /\
    exists m', gem_memory_destroy (Some m) = Ok (Some m') /\ m_pages m' = ∅ /\ m_backings m' = ∅.
Proof.
  eexists. split; [vm_compute; reflexivity|].
  eapply (memory_calls_safe (platform := plenty 24) ∅).
  - intros h l. rewrite lookup_empty. discriminate.
  - vm_compute. reflexivity.
  - apply (bool_decide_unpack _). vm_compute. exact I.
  - vm_compute. reflexivity.
Defined.
