(* ===== verification/MemorySpec.v ===== *)
(** MemorySpec: what the operations of the guest address space compute, seen
    through its contents.  [view m q] is the 4096 bytes that the page at [q]
    shows, whatever backing they are in; the theorems say which views an access
    returns or changes, under aliasing and copy-on-write. *)
From S2P Require Import Prelude MemoryModel Memory MemoryLogic MemoryInv.

(** The backing a page shows, and its bytes. *)
Definition shown (m : mem) (q : Z) : option backing :=
  p ← m_pages m !! q; i ← p_backing p; m_backings m !! i.
Definition view (m : mem) (q : Z) : option (list Z) := contents m <$> shown m q.

(** The byte at a guest address. *)
Definition byte_of (m : mem) (x : Z) : option Z :=
  l ← view m (x .&~ 4095); l !! Z.to_nat (x .& 4095).

(** Where a page's bytes are stored; two pages alias when they share it. *)
Inductive location : Type := InBacking (i : bid) | InHost (h : Z).
#[export] Instance location_eq_dec : EqDecision location.
Proof. solve_decision. Defined.

Definition backing_location (m : mem) (i : bid) : option location :=
  bk ← m_backings m !! i;
  Some (match b_data bk with Owned _ => InBacking i | Host h => InHost h end).
Definition location_of (m : mem) (q : Z) : option location :=
  p ← m_pages m !! q; i ← p_backing p; backing_location m i.

Lemma shown_Some m q bk :
  shown m q = Some bk <->
  exists p i, m_pages m !! q = Some p /\ p_backing p = Some i /\ m_backings m !! i = Some bk.
Proof.
  unfold shown. split.
  - intros (p & Hp & (i & Hi & Hb)%bind_Some)%bind_Some. eauto.
  - intros (p & i & Hp & Hi & Hb). rewrite Hp. cbn. by rewrite Hi.
Qed.

(** ** Byte strings *)

Lemma lookup_memcpy dst off src i :
  0 <= off -> (Z.to_nat off + length src <= length dst)%nat ->
  memcpy dst off src !! i =
    if decide (Z.to_nat off <= i < Z.to_nat off + length src)%nat
    then src !! (i - Z.to_nat off)%nat else dst !! i.
Proof.
  intros Hoff Hlen. unfold memcpy. case_decide as Hi.
  - rewrite lookup_app_r by (rewrite length_take; lia).
    rewrite length_take, Nat.min_l by lia. rewrite lookup_app_l by lia. done.
  - destruct (decide (i < Z.to_nat off)%nat).
    + rewrite lookup_app_l by (rewrite length_take; lia). by rewrite lookup_take_lt by lia.
    + rewrite lookup_app_r by (rewrite length_take; lia). rewrite length_take, Nat.min_l by lia.
      rewrite lookup_app_r by lia. rewrite lookup_drop. f_equal. lia.
Qed.

Lemma lookup_bytes_at src off n i :
  (i < Z.to_nat n)%nat -> bytes_at src off n !! i = src !! (Z.to_nat off + i)%nat.
Proof. intros Hi. unfold bytes_at. by rewrite lookup_take_lt, lookup_drop. Qed.

Lemma length_bytes_at_full src off n :
  (Z.to_nat off + Z.to_nat n <= length src)%nat -> length (bytes_at src off n) = Z.to_nat n.
Proof. intros H. unfold bytes_at. rewrite length_take, length_drop. lia. Qed.

Lemma split_address q off : q mod 4096 = 0 -> 0 <= off < 4096 ->
  (q + off) .&~ 4095 = q /\ (q + off) .& 4095 = off.
Proof.
  intros Hq Hoff. rewrite ldiff_4095, land_4095.
  assert ((q + off) / 4096 = q / 4096) as ->.
  { symmetry. apply (Z.div_unique _ _ _ off); [lia|]. pose proof (Z.div_mod q 4096). lia. }
  pose proof (Z.div_mod q 4096). split; [lia|].
  rewrite Z.add_mod, Hq, Z.add_0_l, Z.mod_mod by lia. apply Z.mod_small. lia.
Qed.

Section spec.
Context {platform : Platform}.

(** ** Reading *)

Lemma transfer_read m query ks b r m' :
  query = false -> transfer false query ks b m = Ok (r, m') ->
  m' = m /\ (b = None <-> r = None).
Proof.
  intros ->. revert b. induction ks as [|k ks IH]; intros b H; cbn [transfer] in H.
  { injection H as <- <-. done. }
  unfold mbind at 1, M_bind at 1, deref_page, mbind at 1, M_bind at 1, get, at_ in H.
  destruct (m_pages m !! k_page k) as [p|]; [|done]. cbn -[transfer deref_backing] in H.
  destruct b as [buffer|]; cbn -[transfer deref_backing] in H.
  - unfold deref_backing, mbind, M_bind, get in H.
    destruct (p_backing p) as [i|]; [|done].
    destruct (m_backings m !! i) as [bk|]; [|done]. cbn -[transfer] in H.
    apply IH in H. split; [tauto|]. split; [done|]. intros Hr. by apply H in Hr.
  - by apply IH in H.
Qed.

(** The caller's buffer after a successful copying loop. *)
Lemma transfer_read_buffer m a n d ks buffer r m' :
  data_ok m -> chunks_ok a n d ks -> 0 <= a -> 0 <= d -> (Z.to_nat n <= length buffer)%nat ->
  transfer false false ks (Some buffer) m = Ok (r, m') ->
  exists out, r = Some out /\ length out = length buffer /\
    (forall i, d <= Z.of_nat i < n -> out !! i = byte_of m (a + Z.of_nat i)) /\
    (forall i, (Z.of_nat i < d \/ n <= Z.of_nat i) -> out !! i = buffer !! i).
Proof.
  intros Hdata. revert d buffer. induction ks as [|k ks IH]; intros d buffer Hok Ha Hd Hlen H;
    cbn [transfer] in H.
  { injection H as <- <-. cbn in Hok. subst d. exists buffer. split_and!; [done|done|lia|done]. }
  destruct Hok as (Hkd & Hpo & Hpm & Ho0 & Hs0 & Hos & Hdn & _ & Hok).
  unfold mbind at 1, M_bind at 1, deref_page, mbind at 1, M_bind at 1, get, at_ in H.
  destruct (m_pages m !! k_page k) as [p|] eqn:Hp; [|done]. cbn -[transfer deref_backing] in H.
  unfold deref_backing, mbind, M_bind, get in H.
  destruct (p_backing p) as [i|] eqn:Hi; [|done].
  destruct (m_backings m !! i) as [bk|] eqn:Hbk; [|done]. cbn -[transfer] in H.
  assert (length (contents m bk) = PAGE) as Hc.
  { apply length_contents; [done|]. by apply Hdata in Hbk. }
  set (src := bytes_at (contents m bk) (k_offset k) (k_size k)) in *.
  assert (length src = Z.to_nat (k_size k)) as Hsrc.
  { apply length_bytes_at_full. rewrite Hc. unfold PAGE, GEM_GUEST_PAGE_SIZE. lia. }
  assert (length (memcpy buffer (k_done k) src) = length buffer) as Hml.
  { apply length_memcpy. lia. }
  destruct (IH (d + k_size k) (memcpy buffer (k_done k) src)) as (out & Hr & Hlo & Hin & Hout);
    [done|done|lia|lia|done|].
  exists out. split_and!; [done|congruence| |].
  - intros j Hj. destruct (decide (d + k_size k <= Z.of_nat j)); [apply Hin; lia|].
    rewrite Hout by lia. rewrite lookup_memcpy by lia.
    rewrite decide_True by lia. unfold src. rewrite lookup_bytes_at by lia.
    unfold byte_of, view.
    replace (a + Z.of_nat j) with (k_page k + (k_offset k + (Z.of_nat j - d))) by lia.
    destruct (split_address (k_page k) (k_offset k + (Z.of_nat j - d)) Hpm) as [-> ->]; [lia|].
    rewrite (proj2 (shown_Some m (k_page k) bk)) by eauto. cbn. f_equal. lia.
  - intros j Hj. rewrite Hout by lia. rewrite lookup_memcpy by lia.
    by rewrite decide_False by lia.
Qed.

(** ** Writing *)

(** Commands that change neither what pages show nor where it is stored. *)
Definition same_views (m m' : mem) : Prop :=
  forall q, view m' q = view m q /\ location_of m' q = location_of m q.

Lemma same_views_refl m : same_views m m.
Proof. done. Qed.

Lemma same_views_trans m1 m2 m3 : same_views m1 m2 -> same_views m2 m3 -> same_views m1 m3.
Proof. intros H1 H2 q. destruct (H1 q), (H2 q). split; congruence. Qed.

Lemma location_of_Some m q p i :
  m_pages m !! q = Some p -> p_backing p = Some i -> location_of m q = backing_location m i.
Proof. intros Hp Hi. unfold location_of. rewrite Hp. cbn. by rewrite Hi. Qed.

Lemma modify_page_views a f m u m' :
  (forall p, p_backing (f p) = p_backing p) -> modify_page a f m = Ok (u, m') -> same_views m m'.
Proof.
  intros Hf H. unfold modify_page, deref_page, put_page, mbind, M_bind, get, put, at_ in H.
  destruct (m_pages m !! a) as [p|] eqn:Hp; [|done]. injection H as _ <-.
  intros q. unfold view, shown, location_of, backing_location. cbn.
  destruct (decide (a = q)) as [<-|].
  - rewrite lookup_insert_eq, Hp. cbn. by rewrite Hf.
  - by rewrite lookup_insert_ne.
Qed.

Lemma bump_views m g m' : bump_generation m = Ok (g, m') -> same_views m m'.
Proof.
  unfold bump_generation, mbind, M_bind, get, put, abort.
  destruct (_ =? 0); cbn; [done|]. by intros [= <- <-].
Qed.

Lemma touch_page_views a m u m' : touch_page a m = Ok (u, m') -> same_views m m'.
Proof.
  unfold touch_page, mbind at 1, M_bind at 1. intros H.
  destruct (bump_generation m) as [[g m1]| |] eqn:E; [|done|done].
  eapply same_views_trans; [by eapply bump_views|]. eapply modify_page_views; [|exact H]. done.
Qed.

(** A backing whose bytes stay: the views stay. *)
Lemma set_backing_views m i bk bk' :
  m_backings m !! i = Some bk -> b_data bk' = b_data bk ->
  same_views m (set_backings m (<[i := bk']> (m_backings m))).
Proof.
  intros Hi Hd q. unfold view, shown, location_of, backing_location, contents. cbn.
  destruct (m_pages m !! q) as [p|]; [|done]. cbn. destruct (p_backing p) as [j|]; [|done]. cbn.
  destruct (decide (i = j)) as [<-|].
  - rewrite lookup_insert_eq, Hi. cbn. by rewrite Hd.
  - by rewrite lookup_insert_ne.
Qed.

Lemma touch_backing_views b m u m' : touch_backing b m = Ok (u, m') -> same_views m m'.
Proof.
  unfold touch_backing, mbind at 1, M_bind at 1. intros H.
  destruct (bump_generation m) as [[g m1]| |] eqn:E; [|done|done].
  eapply same_views_trans; [by eapply bump_views|].
  unfold deref_backing, put_backing, mbind, M_bind, get, put in H.
  destruct b as [b|]; [|done]. destruct (m_backings m1 !! b) as [bk|] eqn:Hb; [|done].
  injection H as _ <-. by eapply set_backing_views.
Qed.

Lemma store_backing_views i off src m u m' :
  data_ok m -> store_backing (Some i) off src m = Ok (u, m') ->
  forall q, location_of m' q = location_of m q /\
    view m' q = if bool_decide (location_of m q = backing_location m i)
                then (fun l => memcpy l off src) <$> view m q else view m q.
Proof.
  intros Hd H q. unfold store_backing, deref_backing, put_backing, mbind, M_bind, get, put in H.
  destruct (m_backings m !! i) as [bk|] eqn:Hi; [|done]. cbn in H.
  assert (backing_location m i =
    Some (match b_data bk with Owned _ => InBacking i | Host h => InHost h end)) as Hloc.
  { unfold backing_location. by rewrite Hi. }
  rewrite Hloc. destruct (b_data bk) as [l|h] eqn:Hdata; injection H as _ <-;
    unfold view, shown, location_of, backing_location, contents; cbn;
    destruct (m_pages m !! q) as [p|]; [|done| |done]; cbn;
    destruct (p_backing p) as [j|]; [|done| |done]; cbn.
  - destruct (decide (i = j)) as [<-|Hne].
    + rewrite lookup_insert_eq, Hi. cbn. rewrite Hdata. by rewrite bool_decide_true.
    + rewrite lookup_insert_ne by done. split; [done|].
      destruct (m_backings m !! j) as [bk'|]; [|done]. cbn.
      rewrite bool_decide_false; [done|]. destruct (b_data bk'); congruence.
  - split; [done|]. destruct (m_backings m !! j) as [bk'|]; [|done]. cbn.
    destruct (b_data bk') as [l'|h'].
    + rewrite bool_decide_false; [done|congruence].
    + unfold host_page; cbn. destruct (decide (h = h')) as [<-|Hne].
      * rewrite lookup_insert_eq, bool_decide_true by done. done.
      * rewrite lookup_insert_ne, bool_decide_false by congruence. done.
Qed.

(** The address of the page that holds [x]. *)
Notation page_of x := (x .&~ 4095).

Lemma byte_of_views m m' x : same_views m m' -> byte_of m' x = byte_of m x.
Proof. intros H. unfold byte_of. by destruct (H (page_of x)) as [-> _]. Qed.

Lemma view_length m q l : data_ok m -> view m q = Some l -> length l = PAGE.
Proof.
  intros Hd H. unfold view in H. apply fmap_Some in H as (bk & Hbk & ->).
  apply shown_Some in Hbk as (p & i & _ & _ & Hi). apply length_contents; [done|].
  by apply Hd in Hi.
Qed.

(** One chunk of a write. *)
Lemma write_chunk m k p i buffer m1 m2 m3 u1 u2 u3 :
  data_ok m -> m_pages m !! k_page k = Some p -> p_backing p = Some i ->
  0 <= k_offset k -> k_offset k + k_size k <= 4096 -> 0 < k_size k -> 0 <= k_done k ->
  k_page k mod 4096 = 0 ->
  (Z.to_nat (k_done k) + Z.to_nat (k_size k) <= length buffer)%nat ->
  store_backing (Some i) (k_offset k) (bytes_at buffer (k_done k) (k_size k)) m = Ok (u1, m1) ->
  touch_backing (Some i) m1 = Ok (u2, m2) -> touch_page (k_page k) m2 = Ok (u3, m3) ->
  (forall q, location_of m3 q = location_of m q) /\
  (forall j, 0 <= j < k_size k ->
     byte_of m3 (k_page k + k_offset k + j) = buffer !! Z.to_nat (k_done k + j)) /\
  (forall x, (location_of m (page_of x) = location_of m (k_page k) ->
              page_of x = k_page k /\ ~ k_offset k <= x .& 4095 < k_offset k + k_size k) ->
     byte_of m3 x = byte_of m x).
Proof.
  intros Hd Hp Hi Ho Hos Hs Hk Hpm Hlen H1 H2 H3.
  pose proof (store_backing_views _ _ _ _ _ _ Hd H1) as Hst.
  assert (same_views m1 m3) as Hsame.
  { eapply same_views_trans; [by eapply touch_backing_views|by eapply touch_page_views]. }
  assert (location_of m (k_page k) = backing_location m i) as Hlk by by eapply location_of_Some.
  set (src := bytes_at buffer (k_done k) (k_size k)) in *.
  assert (length src = Z.to_nat (k_size k)) as Hsrc by by apply length_bytes_at_full.
  split_and!.
  - intros q. destruct (Hsame q) as [_ ->]. apply Hst.
  - intros j Hj. rewrite (byte_of_views m1 m3) by done. unfold byte_of.
    rewrite <- Z.add_assoc.
    destruct (split_address (k_page k) (k_offset k + j) Hpm) as [-> ->]; [lia|].
    destruct (Hst (k_page k)) as [_ ->]. rewrite bool_decide_true by done.
    assert (exists bk, m_backings m !! i = Some bk) as [bk Hbk].
    { unfold store_backing, deref_backing, mbind, M_bind, get in H1.
      destruct (m_backings m !! i); [eauto|done]. }
    assert (view m (k_page k) = Some (contents m bk)) as Hv.
    { unfold view. by rewrite (proj2 (shown_Some m (k_page k) bk)) by eauto. }
    rewrite Hv. cbn. pose proof (view_length _ _ _ Hd Hv) as Hpl.
    unfold PAGE, GEM_GUEST_PAGE_SIZE in Hpl.
    rewrite lookup_memcpy by lia. rewrite decide_True by lia.
    unfold src. rewrite lookup_bytes_at by lia. f_equal. lia.
  - intros x Hx. rewrite (byte_of_views m1 m3) by done. unfold byte_of.
    destruct (Hst (page_of x)) as [_ ->]. case_bool_decide as Hl; [|done].
    rewrite <- Hlk in Hl. destruct (Hx Hl) as [Hpx Hnot].
    destruct (view m (page_of x)) as [l|] eqn:Hv; [|done]. cbn.
    pose proof (view_length _ _ _ Hd Hv) as Hpl. unfold PAGE, GEM_GUEST_PAGE_SIZE in Hpl.
    assert (0 <= x .& 4095 < 4096) by (rewrite land_4095; apply Z.mod_pos_bound; lia).
    rewrite lookup_memcpy by lia. by rewrite decide_False by lia.
Qed.

Lemma triple_run {A} (P : mem -> Prop) (f : M A) (Q : A -> mem -> Prop) m a m' :
  triple P f Q -> P m -> f m = Ok (a, m') -> Q a m'.
Proof. intros H Hm E. specialize (H m Hm). by rewrite E in H. Qed.

(** No two pages of the access share storage. *)
Definition unaliased (m : mem) (ks : list chunk) : Prop :=
  forall k k', k ∈ ks -> k' ∈ ks -> location_of m (k_page k) = location_of m (k_page k') ->
    k_page k = k_page k'.

(** The page of [x] shares no storage with another page of the access. *)
Definition apart (m : mem) (ks : list chunk) (x : Z) : Prop :=
  forall k, k ∈ ks -> location_of m (page_of x) = location_of m (k_page k) -> page_of x = k_page k.

(** The copying loop of a write, one chunk at a time. *)
Lemma transfer_write_step pins L m k ks buffer r m' :
  st pins L m -> 0 <= k_offset k -> 0 < k_size k -> k_offset k + k_size k <= 4096 ->
  transfer true false (k :: ks) (Some buffer) m = Ok (r, m') ->
  exists p i m1 m2 m3 u1 u2 u3,
    m_pages m !! k_page k = Some p /\ p_backing p = Some i /\
    store_backing (Some i) (k_offset k) (bytes_at buffer (k_done k) (k_size k)) m = Ok (u1, m1) /\
    touch_backing (Some i) m1 = Ok (u2, m2) /\ touch_page (k_page k) m2 = Ok (u3, m3) /\
    st pins L m3 /\ transfer true false ks (Some buffer) m3 = Ok (r, m').
Proof.
  intros Hst Ho0 Hs0 Hos H. cbn [transfer] in H.
  apply bind_run in H as (p & m0 & H0 & H).
  assert (m_pages m !! k_page k = Some p /\ m0 = m) as [Hp ->].
  { unfold deref_page, mbind, M_bind, get, at_ in H0.
    by destruct (m_pages m !! k_page k); [injection H0 as <- <-|]. }
  apply bind_run in H as (b1 & m1 & H1 & H). apply bind_run in H1 as (u1 & m1' & E1 & H1).
  injection H1 as <- <-. apply bind_run in H as (u & m3 & H3 & H). cbn [andb negb] in H3.
  apply bind_run in H3 as (u2 & m2 & E2 & E3).
  destruct (p_backing p) as [i|] eqn:Hi; [|done].
  assert (is_Some (L !! k_page k)) as HL.
  { rewrite <- (st_layout _ _ _ Hst). apply layout_is_Some. eauto. }
  assert (Z.to_nat (k_offset k) + length (bytes_at buffer (k_done k) (k_size k)) <= PAGE)%nat as Hfit.
  { pose proof (length_bytes_at buffer (k_done k) (k_size k)). unfold PAGE, GEM_GUEST_PAGE_SIZE. lia. }
  assert (st pins L m1' /\ is_Some (m_backings m1' !! i)) as [Hst1 Hlive1].
  { eapply (triple_run _ _ _ _ _ _ (store_backing_triple pins L i _ _ Hfit)); [|exact E1].
    split; [done|]. destruct (st_page_live _ _ _ _ _ _ Hst Hp Hi). eauto. }
  assert (st pins L m2) as Hst2.
  { eapply (triple_run _ _ _ _ _ _ (touch_backing_triple pins L i)); [|exact E2]. done. }
  assert (st pins L m3) as Hst3.
  { eapply (triple_run _ _ _ _ _ _ (touch_page_triple pins L _ HL)); [|exact E3]. done. }
  exists p, i, m1', m2, m3, u1, u2, u. done.
Qed.

(** A write leaves every page where it is stored. *)
Lemma transfer_locations pins L m a n d ks buffer r m' :
  st pins L m -> chunks_ok a n d ks -> transfer true false ks (Some buffer) m = Ok (r, m') ->
  forall q, location_of m' q = location_of m q.
Proof.
  revert d m. induction ks as [|k ks IH]; intros d m Hst Hok H q; [by injection H as _ <-|].
  destruct Hok as (_ & _ & _ & Ho0 & Hs0 & Hos & _ & _ & Hok).
  destruct (transfer_write_step _ _ _ _ _ _ _ _ Hst Ho0 Hs0 Hos H)
    as (p & i & m1 & m2 & m3 & u1 & u2 & u3 & _ & _ & E1 & E2 & E3 & Hst3 & H').
  rewrite (IH _ _ Hst3 Hok H' q).
  destruct (touch_page_views _ _ _ _ E3 q) as [_ ->].
  destruct (touch_backing_views _ _ _ _ E2 q) as [_ ->].
  by destruct (store_backing_views _ _ _ _ _ _ (st_data _ _ _ Hst) E1 q).
Qed.

Lemma transfer_write pins L m a n d ks buffer r m' :
  st pins L m -> chunks_ok a n d ks -> 0 <= a -> 0 <= d -> (Z.to_nat n <= length buffer)%nat ->
  unaliased m ks ->
  transfer true false ks (Some buffer) m = Ok (r, m') ->
  r = Some buffer /\ (forall q, location_of m' q = location_of m q) /\
  (forall j, d <= j < n -> byte_of m' (a + j) = buffer !! Z.to_nat j) /\
  (forall x, apart m ks x -> ~ a + d <= x < a + n -> byte_of m' x = byte_of m x).
Proof.
  revert d m. induction ks as [|k ks IH]; intros d m Hst Hok Ha Hd Hlen Hun H.
  { injection H as <- <-. cbn in Hok. subst d. split_and!; [done|done|lia|done]. }
  destruct Hok as (Hkd & Hpo & Hpm & Ho0 & Hs0 & Hos & Hdn & _ & Hok).
  destruct (transfer_write_step _ _ _ _ _ _ _ _ Hst Ho0 Hs0 Hos H)
    as (p & i & m1 & m2 & m3 & u1 & u2 & u3 & Hp & Hi & E1 & E2 & E3 & Hst3 & H').
  clear H. rename H' into H.
  destruct (write_chunk m k p i buffer m1 m2 m3 u1 u2 u3 (st_data _ _ _ Hst) Hp Hi)
    as (Hloc & Hin & Hout); try done; try lia.
  assert (unaliased m3 ks) as Hun3.
  { intros k1 k2 H1 H2. rewrite !Hloc. apply Hun; set_solver. }
  destruct (IH (d + k_size k) m3) as (Hr & Hloc' & Hin' & Hout'); try done; try lia.
  split_and!; [done|intros q; by rewrite Hloc', Hloc| |].
  - intros j Hj. destruct (decide (d + k_size k <= j)); [apply Hin'; lia|].
    replace (a + j) with (k_page k + k_offset k + (j - d)) by lia.
    rewrite Hout'; [|intros k' Hk'|lia].
    + rewrite Hin by lia. f_equal. lia.
    + rewrite !Hloc, <- Z.add_assoc.
      destruct (split_address (k_page k) (k_offset k + (j - d)) Hpm) as [-> _]; [lia|].
      apply Hun; set_solver.
  - intros x Hx Hnot. rewrite Hout'; [|intros k' Hk'|lia].
    + apply Hout. intros Hl. assert (page_of x = k_page k) as Hpx by (apply Hx; set_solver).
      split; [done|]. intros Hxo. apply Hnot.
      assert (x = page_of x + (x .& 4095)) as Hsplit.
      { rewrite ldiff_4095, land_4095. pose proof (Z.div_mod x 4096). lia. }
      rewrite Hsplit, Hpx. lia.
    + rewrite !Hloc. apply Hx. set_solver.
Qed.

(** ** Copy on write *)

Lemma new_backing_run m r m' :
  new_backing None m = Ok (r, m') ->
  (m_allocs m <= m_allocs m')%nat /\ m_pages m' = m_pages m /\ m_host m' = m_host m /\
  match r with
  | None => m_backings m' = m_backings m
  | Some c => c = m_allocs m /\ (c < m_allocs m')%nat /\ exists junk,
      m_backings m' = <[c := Backing (Owned zero_page) 1 junk]> (m_backings m)
  end.
Proof.
  unfold new_backing, alloc, put_backing, mbind, M_bind, get, put. cbn.
  destruct (allocation (m_allocs m)); cbn.
  2:{ intros [= <- <-]; cbn. split_and!; try done; lia. }
  destruct (allocation (S (m_allocs m))); cbn; intros [= <- <-]; cbn; split_and!; try done; try lia.
  eauto.
Qed.

Lemma memcpy_whole l : length l = PAGE -> memcpy zero_page 0 l = l.
Proof.
  intros Hl. unfold memcpy. cbn [Z.to_nat take app]. rewrite drop_ge, app_nil_r; [done|].
  unfold zero_page. rewrite length_replicate. lia.
Qed.

(** A fresh copy [c] of the bytes the page shows. *)
Definition is_copy (m0 m : mem) (k : chunk) (c : option bid) : Prop :=
  match c with
  | None => True
  | Some c => exists bk l, m_backings m !! c = Some bk /\ b_data bk = Owned l /\
                view m0 (k_page k) = Some l
  end.

(** Adding backings that no page uses changes no view. *)
Lemma views_fresh pins L m m' :
  st pins L m -> m_pages m' = m_pages m -> m_host m' = m_host m ->
  (forall i, (i < m_allocs m)%nat -> m_backings m' !! i = m_backings m !! i) ->
  same_views m m'.
Proof.
  intros Hst Hp Hh Hb q. unfold view, shown, location_of, backing_location, contents, host_page.
  rewrite Hp, Hh. destruct (m_pages m !! q) as [p|] eqn:Hq; [|done]. cbn.
  destruct (p_backing p) as [i|] eqn:Hi; [|done]. cbn.
  destruct (st_page_live _ _ _ _ _ _ Hst Hq Hi) as [bk Hbk].
  pose proof (st_refs _ _ _ Hst i) as Hr. rewrite Hbk in Hr. rewrite Hb by lia. done.
Qed.

Lemma make_copies_run pins L m ks cs cs' m' :
  st (pins_add pins cs) L m -> make_copies ks cs m = Ok ((true, cs'), m') ->
  m_pages m' = m_pages m /\ m_host m' = m_host m /\ (m_allocs m <= m_allocs m')%nat /\
  (forall i, (i < m_allocs m)%nat -> m_backings m' !! i = m_backings m !! i) /\
  exists ext, cs' = cs ++ ext /\ Forall2 (is_copy m m') ks ext.
Proof.
  revert cs m. induction ks as [|k ks IH]; intros cs m Hst H; cbn [make_copies] in H.
  { injection H as <- <-. split_and!; try done. exists []. by rewrite app_nil_r. }
  unfold mbind at 1, M_bind at 1, deref_page, mbind at 1, M_bind at 1, get, at_ in H.
  destruct (m_pages m !! k_page k) as [p|] eqn:Hp; [|done].
  cbn -[make_copies new_backing store_backing deref_backing] in H.
  unfold mbind at 1, M_bind at 1, deref_backing at 1, mbind at 1, M_bind at 1, get in H.
  destruct (p_backing p) as [i|] eqn:Hi; [|done].
  destruct (m_backings m !! i) as [bk|] eqn:Hbk; [|done].
  cbn -[make_copies new_backing store_backing deref_backing] in H.
  assert (i < m_allocs m)%nat as Hlt.
  { pose proof (st_refs _ _ _ Hst i) as Hr. rewrite Hbk in Hr. lia. }
  assert (view m (k_page k) = Some (contents m bk)) as Hv.
  { unfold view. by rewrite (proj2 (shown_Some m (k_page k) bk)) by eauto. }
  assert (length (contents m bk) = PAGE) as Hlen.
  { eapply view_length; [exact (st_data _ _ _ Hst)|exact Hv]. }
  destruct (is_write_copy (p_protection p) && negb (external bk)) eqn:Hwc.
  - unfold mbind at 1, M_bind at 1 in H.
    pose proof (new_backing_triple (pins_add pins cs) L None m Hst) as Ht.
    destruct (new_backing None m) as [[r m1]| |] eqn:E1; [|done|done].
    apply new_backing_run in E1 as (Ha1 & Hp1 & Hh1 & E1).
    destruct r as [c|]; [|done]. destruct E1 as (Hc & Hcl & junk & Hb1).
    cbn -[make_copies store_backing] in H. unfold mbind at 1, M_bind at 1 in H.
    assert (contents m1 bk = contents m bk) as Hcont.
    { unfold contents, host_page. by rewrite Hh1. }
    rewrite Hcont in H. destruct Ht as [Ht _].
    assert (store_backing (Some c) 0 (contents m bk) m1 =
      Ok (tt, set_backings m1 (<[c := Backing (Owned (contents m bk)) 1 junk]> (m_backings m1)))) as Es.
    { unfold store_backing, deref_backing, put_backing, mbind, M_bind, get, put.
      rewrite Hb1, lookup_insert_eq. cbn -[memcpy zero_page]. by rewrite memcpy_whole, Hb1 by done. }
    apply bind_run in H as ([] & m2' & Hs & H). rewrite Es in Hs. injection Hs as <-.
    set (m2 := set_backings m1 _) in *.
    assert (st (pins_add pins (cs ++ [Some c])) L m2) as Hst2.
    { rewrite st_pins_app. eapply st_set_backing; [exact Ht|rewrite Hb1; apply lookup_insert_eq|done|].
      exact Hlen. }
    destruct (IH _ _ Hst2 H) as (Hp' & Hh' & Ha' & Hb' & ext & -> & Hf). cbn in *.
    split_and!; [congruence|congruence|lia| |].
    + intros j Hj. rewrite Hb' by lia. rewrite Hb1, !lookup_insert_ne by lia. done.
    + exists (Some c :: ext). split; [by rewrite <- app_assoc|]. constructor.
      * exists (Backing (Owned (contents m bk)) 1 junk), (contents m bk).
        rewrite Hb' by done. rewrite lookup_insert_eq. done.
      * eapply Forall2_impl; [exact Hf|]. intros k' [c'|]; [|done].
        intros (bk' & l & ? & ? & Hv'). exists bk', l. split_and!; [done|done|].
        rewrite <- Hv'. symmetry. eapply views_fresh; [exact Hst|done|done|].
        intros j Hj. cbn. rewrite Hb1, !lookup_insert_ne by lia. done.
  - destruct (IH (cs ++ [None]) m) as (Hp' & Hh' & Ha' & Hb' & ext & -> & Hf); [|done|].
    { by rewrite st_pins_app, st_pins_None. }
    split_and!; try done. exists (None :: ext). split; [by rewrite <- app_assoc|].
    by constructor.
Qed.

(** [m'] has the host memory of [m], and of its backings some, with their bytes. *)
Definition data_shrinks (m m' : mem) : Prop :=
  m_host m' = m_host m /\
  forall j bk', m_backings m' !! j = Some bk' ->
    exists bk, m_backings m !! j = Some bk /\ b_data bk' = b_data bk.

Definition shrinks {A} (f : M A) : Prop :=
  forall m a m', f m = Ok (a, m') -> data_shrinks m m'.

Lemma data_shrinks_refl m : data_shrinks m m.
Proof. split; eauto. Qed.

Lemma data_shrinks_trans m1 m2 m3 : data_shrinks m1 m2 -> data_shrinks m2 m3 -> data_shrinks m1 m3.
Proof.
  intros [H1 H1'] [H2 H2']. split; [congruence|]. intros j bk3 H3.
  destruct (H2' _ _ H3) as (bk2 & Hb2 & ->). eauto.
Qed.

Lemma shrinks_bind {A B} (f : M A) (g : A -> M B) :
  shrinks f -> (forall a, shrinks (g a)) -> shrinks (f ≫= g).
Proof.
  intros Hf Hg m b m' H. apply bind_run in H as (a & m1 & H1 & H2).
  eapply data_shrinks_trans; [by eapply Hf|by eapply Hg].
Qed.

Lemma shrinks_keeps {A} (f : M A) : keeps (fun m => (m_backings m, m_host m)) f -> shrinks f.
Proof.
  intros H m a m' E. specialize (H m a m' E). injection H as Hb Hh. split; [done|].
  intros j bk'. rewrite Hb. eauto.
Qed.

Lemma shrinks_drop b : shrinks (drop_backing b).
Proof.
  intros m u m' H. destruct b as [b|]; [|injection H as <- <-; apply data_shrinks_refl].
  unfold drop_backing, deref_backing, mbind, M_bind, get, put in H.
  destruct (m_backings m !! b) as [bk|] eqn:Hb; [|done]. cbn in H.
  destruct (b_refs bk - 1 =? 0); injection H as <- <-; (split; [done|]); intros j bk'; cbn.
  - rewrite lookup_delete_Some. intros [_ ?]. eauto.
  - destruct (decide (b = j)) as [<-|].
    + rewrite lookup_insert_eq. intros [= <-]. eauto.
    + rewrite lookup_insert_ne by done. eauto.
Qed.

Lemma shrinks_detach k c : shrinks (detach_page k c).
Proof.
  unfold detach_page. apply shrinks_bind; [apply shrinks_keeps; auto with gem|intros p].
  destruct c as [c|].
  - apply shrinks_bind; [apply shrinks_drop|intros u].
    apply shrinks_keeps. solve_keeps.
  - apply shrinks_keeps. solve_keeps.
Qed.

Lemma view_shrinks pins L m m' q p i :
  st pins L m' -> data_shrinks m m' -> m_pages m' !! q = Some p -> p_backing p = Some i ->
  exists bk, m_backings m !! i = Some bk /\ view m' q = Some (contents m bk).
Proof.
  intros Hst [Hh Hb] Hp Hi. destruct (st_page_live _ _ _ _ _ _ Hst Hp Hi) as [bk' Hbk'].
  destruct (Hb _ _ Hbk') as (bk & Hbk & Hd). exists bk. split; [done|].
  unfold view. rewrite (proj2 (shown_Some m' q bk')) by eauto. cbn. f_equal.
  unfold contents, host_page. by rewrite Hd, Hh.
Qed.

Lemma copies_survive m0 m m1 ks cs :
  (forall c, Some c ∈ cs -> is_Some (m_backings m1 !! c)) -> data_shrinks m m1 ->
  Forall2 (is_copy m0 m) ks cs -> Forall2 (is_copy m0 m1) ks cs.
Proof.
  intros Hlive [_ Hd] Hf. induction Hf as [|k c ks cs Hc _ IH]; constructor.
  - destruct c as [c|]; [|done]. destruct Hc as (bk & l & Hb & Hl & Hv).
    destruct (Hlive c) as [bk1 Hbk1]; [set_solver|].
    destruct (Hd _ _ Hbk1) as (bk2 & Hbk2 & Hd2). exists bk1, l. split_and!; [done|congruence|done].
  - apply IH. set_solver.
Qed.

(** The detaching loop changes no view. *)
Lemma detach_pages_run pins L m0 m ks cs u m' :
  (forall b, 0 <= pins b) -> st (pins_add pins cs) L m -> backed ks m ->
  (forall q, view m q = view m0 q) -> Forall2 (is_copy m0 m) ks cs ->
  for_each (zip ks cs) (fun '(k, c) => detach_page k c) m = Ok (u, m') ->
  forall q, view m' q = view m0 q.
Proof.
  intros Hp Hst Hbk Hview Hf. revert m Hst Hbk Hview Hf.
  revert cs. induction ks as [|k ks IH]; intros cs m Hst Hbk Hview Hf H.
  { apply Forall2_nil_inv_l in Hf as ->. by injection H as <- <-. }
  apply Forall2_cons_inv_l in Hf as (c & cs' & Hc & Hf & ->). cbn [zip zip_with for_each] in H.
  apply bind_run in H as (u1 & m1 & H1 & H).
  destruct (Hbk k) as (p & b & Hpk & Hb); [set_solver|].
  pose proof (shrinks_detach k c m u1 m1 H1) as Hshr.
  assert (st (pins_add pins cs') L m1 /\ exists p', m_pages m1 = <[k_page k := p']> (m_pages m) /\
       p_backing p' = Some (default b c)) as (Hst1 & p' & Hps1 & Hb1).
  { eapply (triple_run _ _ _ _ _ _
      (detach_page_triple (pins_add pins cs') L k c (m_pages m) p b (pins_add_nonneg _ _ Hp) Hpk Hb));
      [|exact H1].
    split; [|done]. by rewrite <- st_pins_cons. }
  apply (IH cs' m1); [done| | | |exact H].
  - intros k' Hk'. eapply backed_insert; [exact Hps1|exact Hb1|exact Hbk|set_solver].
  - intros q. rewrite <- Hview. destruct (m_pages m1 !! q) as [pq|] eqn:Hq.
    2:{ assert (m_pages m !! q = None) as Hqm.
        { rewrite Hps1 in Hq. destruct (decide (k_page k = q)) as [<-|].
          - by rewrite lookup_insert_eq in Hq.
          - by rewrite lookup_insert_ne in Hq. }
        unfold view, shown. by rewrite Hq, Hqm. }
    destruct (p_backing pq) as [i|] eqn:Hi.
    + destruct (view_shrinks _ _ _ _ _ _ _ Hst1 Hshr Hq Hi) as (bk & Hbk1 & ->).
      rewrite Hps1 in Hq. destruct (decide (k_page k = q)) as [<-|].
      * rewrite lookup_insert_eq in Hq. injection Hq as <-. rewrite Hb1 in Hi. injection Hi as <-.
        destruct c as [c|]; cbn in Hbk1.
        -- destruct Hc as (bk' & l & Hbk' & Hd & Hv). rewrite Hbk1 in Hbk'. injection Hbk' as <-.
           rewrite Hview, Hv. unfold contents. by rewrite Hd.
        -- unfold view. by rewrite (proj2 (shown_Some m (k_page k) bk)) by eauto.
      * rewrite lookup_insert_ne in Hq by done.
        unfold view. by rewrite (proj2 (shown_Some m q bk)) by eauto.
    + assert (m_pages m !! q = Some pq) as Hqm.
      { rewrite Hps1 in Hq. destruct (decide (k_page k = q)) as [<-|].
        - rewrite lookup_insert_eq in Hq. congruence.
        - by rewrite lookup_insert_ne in Hq. }
      unfold view, shown. rewrite Hq, Hqm. cbn. by rewrite Hi.
  - apply (copies_survive m0 m m1 ks cs'); [|done|done].
    intros d Hd. destruct (st_live _ _ _ d Hst1) as (bk & ? & _); [|eauto].
    pose proof (count_nonneg d (m_pages m1)). pose proof (occ_pos d cs' Hd). pose proof (Hp d).
    unfold pins_add. lia.
Qed.

(** ** Whole accesses *)

(** A successful access passed every test, and ran [access_pages] on the memory
    it found. *)
Lemma access_run a b n w x query cg m b' m' :
  n <> 0 ->
  access_memory_locked a b n w x query cg m = Ok ((GEM_MEMORY_OK, b'), m') ->
  let ks := chunks (page_count a n) a n 0 in
  exists m1, m1 = set_allocs m (S (m_allocs m)) /\
    first_error (access_error m1 w x) ks = None /\
    (query = false -> find_guard m1 ks = None) /\
    access_pages ks b w query m1 = Ok ((GEM_MEMORY_OK, b'), m').
Proof.
  intros Hn H. unfold access_memory_locked in H.
  destruct (_ || _); [done|]. destruct (Z.eqb_spec n 0); [done|]. destruct (_ <? _); [done|].
  apply bind_run in H as (r & m1 & H1 & H).
  unfold alloc, mbind, M_bind, get, put in H1. cbn in H1. injection H1 as <- <-.
  destruct (allocation (m_allocs m)); [|done].
  apply bind_run in H as (m2 & m2' & Hg & H). injection Hg as <- <-.
  destruct (first_error _ _) as [e|] eqn:Hf.
  { injection H as -> _ _. apply first_error_Some in Hf as (k & _ & Hk).
    unfold access_error in Hk. by repeat case_match. }
  destruct (if query then None else find_guard _ _) as [q|] eqn:Hq.
  { apply bind_run in H as (u & m3 & _ & H). done. }
  eexists. split_and!; [done|done| |done]. intros ->. done.
Qed.

Lemma strip_guards_run ks m u m' :
  for_each ks (fun k => modify_page (k_page k) strip_guard) m = Ok (u, m') ->
  data_shrinks m m' /\ same_views m m'.
Proof.
  revert m. induction ks as [|k ks IH]; intros m H; cbn [for_each] in H.
  - injection H as <- <-. split; [apply data_shrinks_refl|done].
  - apply bind_run in H as (v & m6 & H6 & H). destruct (IH _ H) as [? ?].
    split; [eapply data_shrinks_trans; [|done]|eapply same_views_trans; [|done]].
    + eapply shrinks_keeps; [|exact H6]. solve_keeps.
    + eapply modify_page_views; [|exact H6]. done.
Qed.

(** What the steps of a write before the copying loop leave. *)
Lemma access_pages_write pins L m ks b r m' :
  (forall b, 0 <= pins b) -> st pins L m -> backed ks m ->
  access_pages ks b true false m = Ok ((GEM_MEMORY_OK, r), m') ->
  exists m1, st pins L m1 /\ (forall q, view m1 q = view m q) /\
    transfer true false ks b m1 = Ok (r, m').
Proof.
  intros Hp Hst Hbk H. unfold access_pages in H. cbn [andb negb] in H.
  apply bind_run in H as (copies & m1 & H1 & H).
  apply bind_run in H1 as (r1 & m0 & H0 & H1).
  pose proof (triple_run _ _ _ _ _ _ (alloc_triple pins L) Hst H0) as Hst0.
  assert (same_views m m0 /\ m_pages m0 = m_pages m) as [Hv0 Hps0].
  { unfold alloc, mbind, M_bind, get, put in H0. cbn in H0. injection H0 as _ <-. done. }
  destruct r1 as [r1|]; [|injection H1 as <- <-; done].
  apply bind_run in H1 as ([ok cs] & m2 & Hc & H1).
  destruct ok; [injection H1 as <- <-|apply bind_run in H1 as (? & ? & _ & H1); by injection H1 as <- <-].
  apply bind_run in H as (u & m3 & H3 & H). apply bind_run in H as (b' & m4 & H4 & H).
  injection H as -> ->.
  assert (st (pins_add pins []) L m0) as Hst0' by by rewrite st_pins_nil.
  destruct (make_copies_run pins L m0 ks [] cs m2 Hst0' Hc)
    as (Hp2 & Hh2 & Ha2 & Hb2 & ext & -> & Hf).
  assert (same_views m0 m2) as Hv2 by by eapply views_fresh.
  assert (backed ks m0) as Hbk0 by by eapply backed_ext.
  destruct (triple_run _ _ _ _ _ _
    (make_copies_triple pins L ks [] (m_pages m0) Hp Hbk0) (conj Hst0' eq_refl) Hc)
    as [[Hst2 _] Hlen]. cbn [fst snd] in *.
  assert (backed ks m2) as Hbk2 by by eapply backed_ext.
  apply bind_run in H3 as (u2 & m5 & H5 & H3).
  assert (st (pins_add pins ([] ++ ext)) L m5 /\ backed ks m5) as [Hst5 Hbk5].
  { eapply (triple_run _ _ _ _ _ _
      (triple_for_each (fun m' => st (pins_add pins ([] ++ ext)) L m' /\ backed ks m') _ ks _));
      [|exact H5]. done.
    Unshelve. intros k Hk. apply modify_backed_triple; [by eapply backed_layout|done]. }
  destruct (strip_guards_run _ _ _ _ H5) as [Hshr5 Hv5].
  exists m3. split_and!; [| |done].
  - destruct (triple_run _ _ _ _ _ _ (detach_pages_triple pins L ks ([] ++ ext) ks Hp
      ltac:(by apply Forall2_length in Hf) ltac:(done)) (conj Hst5 Hbk5) H3). done.
  - intros q. transitivity (view m0 q); [|by destruct (Hv0 q)].
    eapply (detach_pages_run pins L m0 m5 ks ([] ++ ext)); try done.
    + intros q'. destruct (Hv5 q') as [-> _]. by destruct (Hv2 q').
    + apply (copies_survive m0 m2 m5); [|done|done].
      intros c Hc'. destruct (st_live _ _ _ c Hst5) as (bk & ? & _); [|eauto].
      pose proof (count_nonneg c (m_pages m5)). pose proof (occ_pos c ext Hc'). pose proof (Hp c).
      unfold pins_add. cbn [app]. lia.
Qed.

(** A read runs the copying loop on a memory with the same views. *)
Lemma access_pages_read pins L m a n ks b x r m' :
  (forall b, 0 <= pins b) -> st pins L m -> backed ks m -> chunks_ok a n 0 ks ->
  access_pages ks b false x m = Ok ((GEM_MEMORY_OK, r), m') ->
  x = false ->
  exists m1, st pins L m1 /\ (forall q, view m1 q = view m q) /\
    transfer false false ks b m1 = Ok (r, m').
Proof.
  intros Hp Hst Hbk Hks H ->. unfold access_pages in H. cbn [andb negb] in H.
  apply bind_run in H as (copies & m1 & H1 & H). injection H1 as <- <-.
  apply bind_run in H as (u & m3 & H3 & H). apply bind_run in H as (b' & m4 & H4 & H).
  injection H as -> ->. apply bind_run in H3 as (u2 & m5 & H5 & H3).
  assert (Forall2 (is_copy m m) ks (replicate (length ks) None)) as Hf.
  { clear. induction ks; constructor; [done|]. apply IHks. }
  assert (st (pins_add pins (replicate (length ks) None)) L m) as Hst'.
  { revert Hst. apply st_pins_eq. intros c. unfold pins_add.
    assert (occ c (replicate (length ks) None) = 0) as ->; [|lia].
    clear. induction (length ks) as [|k IH]; [done|]. cbn. by rewrite holds_None, IH. }
  assert (st (pins_add pins (replicate (length ks) None)) L m5 /\ backed ks m5) as [Hst5 Hbk5].
  { eapply (triple_run _ _ _ _ _ _
      (triple_for_each (fun m' => st (pins_add pins (replicate (length ks) None)) L m' /\
         backed ks m') _ ks _)); [|exact H5]. done.
    Unshelve. intros k Hk. apply modify_backed_triple; [by eapply backed_layout|done]. }
  destruct (strip_guards_run _ _ _ _ H5) as [Hshr5 Hv5].
  exists m3. split_and!; [| |done].
  - destruct (triple_run _ _ _ _ _ _ (detach_pages_triple pins L ks _ ks Hp
      (length_replicate _ _) ltac:(done)) (conj Hst5 Hbk5) H3). done.
  - eapply (detach_pages_run pins L m m5 ks _); try done.
    + intros q'. by destruct (Hv5 q').
    + apply (copies_survive m m m5); [|done|done].
      intros c Hc'. by apply elem_of_replicate in Hc' as [? _].
Qed.

Lemma same_views_allocs m k : same_views m (set_allocs m k).
Proof. done. Qed.

Lemma write_lemma pins m a buf n b' m' cg :
  (forall b, 0 <= pins b) -> inv pins m -> 0 <= a -> 0 < n -> (Z.to_nat n <= length buf)%nat ->
  access_memory_locked a (Some buf) n true false false cg m = Ok ((GEM_MEMORY_OK, b'), m') ->
  let ks := chunks (page_count a n) a n 0 in
  unaliased m' ks ->
  (forall j, 0 <= j < n -> byte_of m' (a + j) = buf !! Z.to_nat j) /\
  (forall x, apart m' ks x -> ~ a <= x < a + n -> byte_of m' x = byte_of m x).
Proof.
  intros Hp (L & Hst & HL) Ha Hn Hlen H ks Hun. subst ks.
  apply access_run in H as (m1 & -> & Hf & _ & H); [|lia].
  pose proof (chunks_spec a n Ha Hn) as Hks.
  pose proof (st_allocs pins L m Hst) as Hst1.
  pose proof (access_backed _ _ _ _ Hf) as Hbk.
  destruct (access_pages_write _ _ _ _ _ _ _ Hp Hst1 Hbk H) as (m2 & Hst2 & Hv & Ht).
  set (ks := chunks (page_count a n) a n 0) in *.
  pose proof (transfer_locations _ _ _ _ _ _ _ _ _ _ Hst2 Hks Ht) as Hloc.
  assert (unaliased m2 ks) as Hun2.
  { intros k k' Hk Hk'. rewrite <- !Hloc. by apply Hun. }
  destruct (transfer_write _ _ _ _ _ _ _ _ _ _ Hst2 Hks Ha (Z.le_refl 0) Hlen Hun2 Ht)
    as (_ & _ & Hin & Hout).
  split; [exact Hin|]. intros x Hx Hnot. rewrite Hout; [|intros k Hk; rewrite <- !Hloc; by apply Hx|lia].
  unfold byte_of. by rewrite Hv.
Qed.

Lemma read_lemma pins m a buf n x b' m' cg :
  (forall b, 0 <= pins b) -> inv pins m -> 0 <= a -> 0 < n -> (Z.to_nat n <= length buf)%nat ->
  access_memory_locked a (Some buf) n false x false cg m = Ok ((GEM_MEMORY_OK, b'), m') ->
  exists out, b' = Some out /\ length out = length buf /\
    (forall i, 0 <= Z.of_nat i < n -> out !! i = byte_of m (a + Z.of_nat i)) /\
    (forall i, n <= Z.of_nat i -> out !! i = buf !! i) /\
    (forall q, view m' q = view m q).
Proof.
  intros Hp (L & Hst & HL) Ha Hn Hlen H.
  apply access_run in H as (m1 & -> & Hf & _ & H); [|lia].
  pose proof (chunks_spec a n Ha Hn) as Hks.
  pose proof (st_allocs pins L m Hst) as Hst1.
  pose proof (access_backed _ _ _ _ Hf) as Hbk.
  destruct (access_pages_read _ _ _ _ _ _ _ _ _ _ Hp Hst1 Hbk Hks H eq_refl) as (m2 & Hst2 & Hv & Ht).
  destruct (transfer_read_buffer m2 a n 0 _ buf b' m' (st_data _ _ _ Hst2) Hks Ha (Z.le_refl 0) Hlen Ht)
    as (out & Ho & Hl & Hin & Hout).
  exists out. split_and!; [done|done| | |].
  - intros i Hi. rewrite Hin by done. unfold byte_of. by rewrite Hv.
  - intros i Hi. apply Hout. by right.
  - intros q. destruct (transfer_read _ false _ _ _ _ eq_refl Ht) as [-> _]. by rewrite Hv.
Qed.
End spec.
