(* ===== verification/MemoryAtomic.v ===== *)
(** MemoryAtomic: a call on the guest address space that fails (other than by
    consuming a guard) leaves the page table, the backings and host memory as
    they were, including the partial work it rolled back. *)
From S2P Require Import Prelude MemoryModel Memory MemoryLogic MemoryInv MemoryTotal MemorySpec.

Definition same_memory (m m' : mem) : Prop :=
  m_pages m' = m_pages m /\ m_backings m' = m_backings m /\ m_host m' = m_host m.

(** Since [m0] nothing but references and new backings changed. *)
Definition frugal_since (m0 m : mem) : Prop :=
  (m_allocs m0 <= m_allocs m)%nat /\ m_host m = m_host m0 /\
  forall (i : bid) bk, (i < m_allocs m0)%nat -> m_backings m !! i = Some bk ->
    exists bk0, m_backings m0 !! i = Some bk0 /\ b_data bk = b_data bk0 /\
      b_generation bk = b_generation bk0.

Definition frugal {A} (f : M A) : Prop :=
  forall m0 m a m', frugal_since m0 m -> f m = Ok (a, m') -> frugal_since m0 m'.

Lemma frugal_since_refl m : frugal_since m m.
Proof. split_and!; [done|done|]. intros i bk _ H. by exists bk. Qed.

Lemma frugal_bind {A B} (f : M A) (g : A -> M B) :
  frugal f -> (forall a, frugal (g a)) -> frugal (f ≫= g).
Proof.
  intros Hf Hg m0 m b m' H0 H. apply bind_run in H as (a & m1 & H1 & H2).
  eapply Hg; [eapply Hf; [exact H0|exact H1]|exact H2].
Qed.

Lemma frugal_for_each {A} (body : A -> M unit) l :
  (forall x, frugal (body x)) -> frugal (for_each l body).
Proof.
  intros H. induction l as [|x l IH]; cbn.
  - by intros m0 m a m' H0 [= _ <-].
  - apply frugal_bind; [apply H|done].
Qed.

Lemma frugal_keeps {A} (f : M A) :
  keeps (fun m => (m_allocs m, m_host m, m_backings m)) f -> frugal f.
Proof.
  intros Hk m0 m a m' (Ha & Hh & Hb) H. specialize (Hk m a m' H).
  injection Hk as Ea Eh Eb. unfold frugal_since. rewrite Ea, Eh, Eb. done.
Qed.

Lemma frugal_ret {A} (a : A) : frugal (mret a).
Proof. apply frugal_keeps. auto with gem. Qed.

Lemma frugal_drop b : frugal (drop_backing b).
Proof.
  intros m0 m u m' (Ha & Hh & Hb) H.
  pose proof (keeps_drop m_allocs b ltac:(done) m u m' H) as Ea.
  destruct (shrinks_drop b m u m' H) as [Eh _]. split_and!; [by rewrite Ea|by rewrite Eh|].
  destruct b as [b|]; [|injection H as _ <-; done].
  unfold drop_backing, deref_backing, mbind, M_bind, get, put in H.
  destruct (m_backings m !! b) as [bk0|] eqn:E; [|done]. cbn in H.
  intros i bk Hi. destruct (b_refs bk0 - 1 =? 0); injection H as _ <-; cbn.
  - rewrite lookup_delete_Some. intros [_ ?]. eauto.
  - destruct (decide (b = i)) as [<-|].
    + rewrite lookup_insert_eq. intros [= <-]. cbn. eauto.
    + rewrite lookup_insert_ne by done. eauto.
Qed.

Lemma frugal_add_ref b : frugal (add_ref b).
Proof.
  intros m0 m u m' (Ha & Hh & Hb) H. unfold add_ref, deref_backing, put_backing, mbind, M_bind, get, put in H.
  destruct b as [b|]; [|done]. destruct (m_backings m !! b) as [bk0|] eqn:E; [|done].
  injection H as _ <-. split_and!; [done|done|]. intros i bk Hi. cbn.
  destruct (decide (b = i)) as [<-|].
  - rewrite lookup_insert_eq. intros [= <-]. cbn. eauto.
  - rewrite lookup_insert_ne by done. eauto.
Qed.

Section atomic.
Context {platform : Platform}.

Lemma frugal_alloc : frugal alloc.
Proof.
  intros m0 m a m' (Ha & Hh & Hb) H. unfold alloc, mbind, M_bind, get, put in H. cbn in H.
  injection H as _ <-. split_and!; [cbn; lia|done|done].
Qed.

(** What [new_backing] does, for either kind of storage. *)
Lemma new_backing_inv d m r m' :
  new_backing d m = Ok (r, m') ->
  (m_allocs m <= m_allocs m')%nat /\ m_pages m' = m_pages m /\ m_host m' = m_host m /\
  match r with
  | None => m_backings m' = m_backings m
  | Some c => c = m_allocs m /\ exists bk, m_backings m' = <[c := bk]> (m_backings m)
  end.
Proof.
  unfold new_backing, alloc, put_backing, mbind, M_bind, get, put. cbn.
  destruct (allocation (m_allocs m)); cbn.
  2:{ intros [= <- <-]; cbn. split_and!; try done; lia. }
  destruct d; cbn.
  { intros [= <- <-]; cbn. split_and!; try done; [lia|eauto]. }
  destruct (allocation (S (m_allocs m))); cbn; intros [= <- <-]; cbn; split_and!; try done; try lia.
  eauto.
Qed.

Lemma frugal_new_backing d : frugal (new_backing d).
Proof.
  intros m0 m r m' (Ha & Hh & Hb) H. apply new_backing_inv in H as (Ha' & _ & Hh' & H).
  split_and!; [lia|congruence|]. intros i bk Hi. destruct r as [c|].
  - destruct H as (-> & bk' & ->). rewrite lookup_insert_ne by lia. by apply Hb.
  - rewrite H. by apply Hb.
Qed.

Ltac frugal_step :=
  first
  [ apply frugal_ret | apply frugal_drop | apply frugal_add_ref | apply frugal_alloc
  | apply frugal_new_backing
  | solve [apply frugal_keeps; solve_keeps]
  | apply frugal_bind; [|intros ?]
  | apply frugal_for_each; intros ?
  | match goal with |- context [match ?x with _ => _ end] => destruct x end ].
Ltac solve_frugal := repeat frugal_step.

Lemma frugal_commit_backings a os bs : frugal (commit_backings a os bs).
Proof.
  revert bs. induction os as [|o os IH]; intros bs; cbn [commit_backings]; [apply frugal_ret|].
  apply frugal_bind; [apply frugal_keeps; auto with gem|intros p]. destruct (p_backing p); [done|].
  apply frugal_bind; [apply frugal_new_backing|intros [b|]]; [done|apply frugal_ret].
Qed.

Lemma frugal_commit_external_backings a h os bs : frugal (commit_external_backings a h os bs).
Proof.
  revert bs. induction os as [|o os IH]; intros bs; cbn [commit_external_backings]; [apply frugal_ret|].
  apply frugal_bind; [apply frugal_keeps; auto with gem|intros p]. destruct (p_backing p).
  - apply frugal_bind; [apply frugal_keeps; auto with gem|intros [c bk]].
    destruct (bool_decide _); [done|apply frugal_ret].
  - apply frugal_bind; [apply frugal_new_backing|intros [b'|]]; [done|apply frugal_ret].
Qed.

Lemma frugal_alias_pages a s n prot os head : frugal (alias_pages a s n prot os head).
Proof.
  revert head. induction os as [|o os IH]; intros head; cbn [alias_pages]; [apply frugal_ret|].
  apply frugal_bind; [apply frugal_alloc|intros [r|]].
  2:{ solve_frugal. }
  apply frugal_bind; [apply frugal_keeps; auto with gem|intros p].
  apply frugal_bind; [apply frugal_add_ref|intros u].
  apply frugal_bind; [apply frugal_keeps; apply keeps_bump; done|intros g]. done.
Qed.

Lemma frugal_reserve_pages b n os head : frugal (reserve_pages b n os head).
Proof.
  revert head. induction os as [|o os IH]; intros head; cbn [reserve_pages]; [apply frugal_ret|].
  apply frugal_bind; [apply frugal_alloc|intros [r|]]; [|apply frugal_ret].
  apply frugal_bind; [apply frugal_keeps; apply keeps_bump; done|intros g]. done.
Qed.

Lemma frugal_map_identity_pages a h prot os : frugal (map_identity_pages a h prot os).
Proof.
  induction os as [|o os IH]; cbn [map_identity_pages]; [apply frugal_ret|].
  apply frugal_bind; [apply frugal_keeps; auto with gem|intros p].
  apply frugal_bind; [apply frugal_new_backing|intros b].
  apply frugal_bind; [apply frugal_keeps; auto with gem|intros u].
  destruct b; [|apply frugal_ret].
  apply frugal_bind; [apply frugal_keeps; auto with gem|intros v].
  apply frugal_bind; [apply frugal_keeps; auto with gem|intros w]. done.
Qed.

(** The copies of a write: only backings created since [m0] are stored to. *)
Lemma frugal_make_copies ks cs : frugal (make_copies ks cs).
Proof.
  revert cs. induction ks as [|k ks IH]; intros cs; cbn [make_copies]; [apply frugal_ret|].
  apply frugal_bind; [apply frugal_keeps; auto with gem|intros p].
  apply frugal_bind; [apply frugal_keeps; auto with gem|intros [i bk]].
  destruct (is_write_copy (p_protection p) && negb (external bk)); [|apply IH].
  intros m0 m a m' Hm H. apply bind_run in H as (c & m1 & H1 & H).
  pose proof (frugal_new_backing None m0 m c m1 Hm H1) as Hm1.
  destruct c as [c|]; [|by injection H as _ <-].
  apply new_backing_run in H1 as (_ & _ & _ & -> & _ & junk & Hb1).
  apply bind_run in H as (m1' & m1'' & Hg & H). injection Hg as <- <-.
  apply bind_run in H as (u & m2 & H2 & H). eapply IH; [|exact H].
  unfold store_backing, deref_backing, put_backing, mbind, M_bind, get, put in H2.
  rewrite Hb1, lookup_insert_eq in H2. cbn -[memcpy zero_page] in H2. injection H2 as _ <-.
  destruct Hm as (Ha & _ & _). destruct Hm1 as (Ha1 & Hh1 & Hbk1).
  split_and!; [done|done|]. intros j bkj Hj. cbn.
  rewrite lookup_insert_ne by lia. by apply Hbk1.
Qed.

Lemma frugal_remove_pages a n : frugal (remove_pages a n).
Proof.
  unfold remove_pages. apply frugal_bind; [apply frugal_keeps; auto with gem|intros m].
  apply frugal_for_each. intros [address p]. destruct (_ && _); [|apply frugal_ret].
  intros m0 m1 u m2 H0 H. apply bind_run in H as (m1' & m1'' & Hg & H). injection Hg as <- <-.
  apply bind_run in H as (v & m3 & Hput & H). injection Hput as _ <-.
  eapply frugal_drop; [|exact H]. done.
Qed.

(** ** Rolling back *)

(** With the same page references and outside references, the backings are the
    same. *)
Lemma frugal_restored_backings pins L L' m m' :
  st pins L m -> st pins L' m' -> frugal_since m m' ->
  (forall i, count i (m_pages m') = count i (m_pages m)) -> m_backings m' = m_backings m.
Proof.
  intros Hst Hst' (Ha & Hh & Hb) Hp. apply map_eq. intros i.
  pose proof (st_refs _ _ _ Hst i) as Hr. pose proof (st_refs _ _ _ Hst' i) as Hr'.
  rewrite Hp in Hr'. destruct (m_backings m' !! i) as [bk'|] eqn:E'.
  - destruct (m_backings m !! i) as [bk|] eqn:E; [|lia].
    destruct Hr as (Hrefs & _ & Hlt). destruct Hr' as (Hrefs' & _ & _).
    destruct (Hb i bk' Hlt E') as (bk0 & E0 & Hd & Hg). rewrite E in E0. injection E0 as <-.
    f_equal. destruct bk, bk'; cbn in *. congruence.
  - destruct (m_backings m !! i) as [bk|] eqn:E; [lia|done].
Qed.

(** With the same pages, host memory and outside references, nothing changed. *)
Lemma frugal_restored pins L L' m m' :
  st pins L m -> st pins L' m' -> frugal_since m m' -> m_pages m' = m_pages m ->
  same_memory m m'.
Proof.
  intros Hst Hst' Hf Hp. split_and!; [done| |apply Hf].
  eapply frugal_restored_backings; [done..|]. by rewrite Hp.
Qed.

(** An outcome that leaves [m] as it was, up to references that cancel. *)
Definition undone (m m' : mem) : Prop := m_pages m' = m_pages m /\ frugal_since m m'.

Lemma undone_refl m : undone m m.
Proof. split; [done|apply frugal_since_refl]. Qed.

Lemma undone_run {A} (f : M A) m a m' :
  keeps m_pages f -> frugal f -> f m = Ok (a, m') -> undone m m'.
Proof. intros Hk Hf H. split; [by eapply Hk|eapply Hf; [apply frugal_since_refl|exact H]]. Qed.

#[local] Hint Resolve undone_refl : gem.

(** Close the branches that return an error before anything happened. *)
Ltac refused H := injection H as <- <-; by apply undone_refl.

Lemma bind_get_run {B} (g : mem -> M B) m b m' : (get ≫= g) m = Ok (b, m') -> g m m = Ok (b, m').
Proof. intros H. by apply bind_run in H as (a & m1 & [= <- <-] & H). Qed.

Lemma undone_trans m1 m2 m3 : undone m1 m2 -> undone m2 m3 -> undone m1 m3.
Proof.
  intros [Hp (Ha & Hh & Hb)] [Hp' (Ha' & Hh' & Hb')]. split; [congruence|].
  split_and!; [lia|congruence|]. intros i bk Hi Hbk.
  destruct (Hb' i bk ltac:(lia) Hbk) as (bk1 & H1 & Hd1 & Hg1).
  destruct (Hb i bk1 Hi H1) as (bk0 & H0 & Hd0 & Hg0). exists bk0. split_and!; [done|congruence|congruence].
Qed.

Ltac undo_run H := eapply undone_run; [| |exact H]; [solve_keeps|solve_frugal].

Lemma commit_locked_undone a n prot m e m' :
  commit_locked a n prot m = Ok (e, m') -> e <> GEM_MEMORY_OK -> undone m m'.
Proof.
  unfold commit_locked. intros H%bind_get_run He.
  destruct (check m a n false); try refused H. destruct (negb _); [refused H|].
  apply bind_run in H as (r & m1 & H1 & H).
  assert (undone m m1) as Hu1 by undo_run H1.
  destruct r; [|by injection H as <- <-].
  apply bind_run in H as ([ok bs] & m2 & H2 & H).
  assert (undone m1 m2) as Hu2.
  { eapply undone_run; [|apply frugal_commit_backings|exact H2].
    clear. generalize ([] : list (option bid)). intros bs.
    revert bs. induction (page_range 0 n); intros bs; cbn [commit_backings]; solve_keeps. }
  destruct ok.
  { by apply bind_run in H as (? & ? & _ & [= <- <-]). }
  apply bind_run in H as (u & m3 & H3 & H). injection H as <- <-.
  assert (undone m2 m3) as Hu3 by undo_run H3. eauto using undone_trans.
Qed.

Lemma decommit_locked_undone a n m e m' :
  decommit_locked a n m = Ok (e, m') -> e <> GEM_MEMORY_OK -> undone m m'.
Proof.
  unfold decommit_locked. intros H%bind_get_run He.
  destruct (check m a n false); try refused H.
  by apply bind_run in H as (? & ? & _ & [= <- <-]).
Qed.

Lemma release_locked_undone a n m e m' :
  release_locked a n m = Ok (e, m') -> e <> GEM_MEMORY_OK -> undone m m'.
Proof.
  unfold release_locked. intros H%bind_get_run He.
  destruct (check m a n false); try refused H.
  apply bind_run in H as (p & m1 & H1 & H). assert (undone m m1) as Hu by undo_run H1.
  destruct (_ || _); [by injection H as <- <-|].
  by apply bind_run in H as (? & ? & _ & [= <- <-]).
Qed.

Lemma unmap_locked_undone a n m e m' :
  unmap_locked a n m = Ok (e, m') -> e <> GEM_MEMORY_OK -> undone m m'.
Proof.
  unfold unmap_locked. intros H%bind_get_run He.
  destruct (check m a n false); try refused H.
  apply bind_run in H as (p & m1 & H1 & H). assert (undone m m1) as Hu by undo_run H1.
  destruct (_ || _); [by injection H as <- <-|].
  destruct (first_error _ _); [by injection H as <- <-|].
  do 3 (apply bind_run in H as (? & ? & _ & H)). by injection H as <- <-.
Qed.

Lemma protect_locked_undone a n prot old m e o m' :
  protect_locked a n prot old m = Ok ((e, o), m') -> e <> GEM_MEMORY_OK -> undone m m'.
Proof.
  unfold protect_locked. intros H%bind_get_run He.
  destruct (check m a n true); try (injection H as <- _ <-; apply undone_refl).
  destruct (negb _); [injection H as <- _ <-; apply undone_refl|].
  do 3 (apply bind_run in H as (? & ? & _ & H)). by injection H as <- _ <-.
Qed.

Lemma reserve_locked_undone a n m e o m' :
  reserve_locked a n m = Ok ((e, o), m') -> e <> GEM_MEMORY_OK -> undone m m'.
Proof.
  unfold reserve_locked. intros H He. destruct a as [a|]; [|injection H as <- _ <-; apply undone_refl].
  destruct (_ || _ || _); [injection H as <- _ <-; apply undone_refl|].
  apply bind_get_run in H. apply bind_run in H as (b & m1 & H1 & H).
  assert (undone m m1) as Hu1.
  { eapply undone_run; [| |exact H1]; [solve_keeps|].
    destruct (_ =? _); [destruct (search _ _ _ _); [apply frugal_ret|done]|apply frugal_ret]. }
  destruct (negb _); [by injection H as <- _ <-|].
  destruct (existsb _ _); [by injection H as <- _ <-|].
  apply bind_run in H as (r & m2 & H2 & H).
  assert (undone m1 m2) as Hu2.
  { eapply undone_run; [|apply frugal_reserve_pages|exact H2].
    clear. generalize ([] : list (Z * page)). intros head.
    revert head. induction (page_range 0 n); intros head; cbn [reserve_pages]; solve_keeps. }
  destruct r; [by apply bind_run in H as (? & ? & _ & [= <- _ <-])|].
  injection H as <- _ <-. eauto using undone_trans.
Qed.

Lemma alias_locked_undone a s n prot m e m' :
  alias_locked a s n prot m = Ok (e, m') -> e <> GEM_MEMORY_OK -> undone m m'.
Proof.
  unfold alias_locked. intros H He. destruct (_ || _); [refused H|].
  apply bind_get_run in H. destruct (check m s n true); try refused H.
  destruct (existsb _ _); [refused H|]. apply bind_run in H as (r & m1 & H1 & H).
  destruct r; [by apply bind_run in H as (? & ? & _ & [= <- <-])|]. injection H as <- <-.
  eapply undone_run; [|apply frugal_alias_pages|exact H1].
  clear. generalize ([] : list (Z * page)). intros head.
  revert head. induction (page_range 0 n); intros head; cbn [alias_pages]; solve_keeps.
Qed.

Lemma commit_external_locked_undone a h n prot id m e m' :
  commit_external_locked a h n prot id m = Ok (e, m') -> e <> GEM_MEMORY_OK -> undone m m'.
Proof.
  unfold commit_external_locked. intros H He. destruct (_ || _ || _ || _ || _); [refused H|].
  apply bind_get_run in H. destruct (check m a n false); try refused H.
  apply bind_run in H as (r & m1 & H1 & H). assert (undone m m1) as Hu1 by undo_run H1.
  destruct r; [|by injection H as <- <-].
  apply bind_run in H as ([e' bs] & m2 & H2 & H).
  assert (undone m1 m2) as Hu2.
  { eapply undone_run; [|apply frugal_commit_external_backings|exact H2].
    clear. generalize ([] : list (option bid)). intros bs.
    revert bs. induction (page_range 0 n); intros bs; cbn [commit_external_backings]; solve_keeps. }
  assert (forall e'', ((for_each bs drop_backing;; mret e'') : M gem_memory_error) m2 = Ok (e, m') ->
    undone m m') as Hroll.
  { intros e'' H'. apply bind_run in H' as (u & m3 & H3 & H'). injection H' as <- <-.
    assert (undone m2 m3) as Hu3 by undo_run H3. eauto using undone_trans. }
  destruct e'; try by eapply Hroll.
  by apply bind_run in H as (? & ? & _ & [= <- <-]).
Qed.

Lemma bind_kuser_locked_undone h m e m' :
  bind_kuser_locked h m = Ok (e, m') -> e <> GEM_MEMORY_OK -> undone m m'.
Proof.
  unfold bind_kuser_locked. intros H He. destruct (_ || _); [refused H|].
  apply bind_get_run in H. destruct (at_ _ _); [|refused H]. destruct (at_ _ _); [|refused H].
  destruct (_ || _); [refused H|]. apply bind_run in H as (r & m1 & H1 & H).
  assert (undone m m1) as Hu1 by undo_run H1.
  destruct r; [|by injection H as <- <-].
  apply bind_run in H as ([i bk] & ? & _ & H).
  do 7 (apply bind_run in H as (? & ? & _ & H)). by injection H as <- <-.
Qed.

Lemma access_pages_undone ks b w query m e b' m' :
  access_pages ks b w query m = Ok ((e, b'), m') -> e <> GEM_MEMORY_OK -> undone m m'.
Proof.
  unfold access_pages. intros H He. apply bind_run in H as (copies & m1 & H1 & H).
  destruct copies as [cs|].
  { do 2 (apply bind_run in H as (? & ? & _ & H)). by injection H as <- _ <-. }
  injection H as <- _ <-. destruct (w && negb query); [|done].
  apply bind_run in H1 as (r & m2 & H2 & H1). assert (undone m m2) as Hu1 by undo_run H2.
  destruct r; [|by injection H1 as <-].
  apply bind_run in H1 as ([ok cs] & m3 & H3 & H1).
  assert (undone m2 m3) as Hu2.
  { eapply undone_run; [|apply frugal_make_copies|exact H3].
    clear. generalize ([] : list (option bid)). intros cs.
    revert cs. induction ks; intros cs; cbn [make_copies]; solve_keeps. }
  destruct ok; [done|]. apply bind_run in H1 as (u & m4 & H4 & H1). injection H1 as <-.
  assert (undone m3 m4) as Hu3 by undo_run H4. eauto using undone_trans.
Qed.

Lemma access_memory_locked_undone a b n w x query cg m e b' m' :
  access_memory_locked a b n w x query cg m = Ok ((e, b'), m') ->
  e <> GEM_MEMORY_OK -> e <> GEM_MEMORY_GUARD_PAGE -> undone m m'.
Proof.
  unfold access_memory_locked. intros H He Hg.
  destruct (_ || _); [injection H as <- _ <-; apply undone_refl|].
  destruct (_ =? _); [injection H as <- _ <-; apply undone_refl|].
  destruct (_ <? _); [injection H as <- _ <-; apply undone_refl|].
  apply bind_run in H as (r & m1 & H1 & H). assert (undone m m1) as Hu1 by undo_run H1.
  destruct r; [|by injection H as <- _ <-]. apply bind_get_run in H.
  destruct (first_error _ _); [by injection H as <- _ <-|].
  destruct (if query then _ else _).
  { by apply bind_run in H as (? & ? & _ & [= <- _ <-]). }
  eapply undone_trans; [exact Hu1|]. by eapply access_pages_undone.
Qed.

Lemma peek_locked_undone a b n m e b' m' :
  peek_locked a b n m = Ok ((e, b'), m') -> e <> GEM_MEMORY_OK -> undone m m'.
Proof.
  unfold peek_locked. intros H He.
  destruct (_ || _); [injection H as <- _ <-; apply undone_refl|].
  destruct (_ =? _); [injection H as <- _ <-; apply undone_refl|].
  apply bind_get_run in H. destruct (first_error _ _); [injection H as <- _ <-; apply undone_refl|].
  by apply bind_run in H as (? & ? & _ & [= <- _ <-]).
Qed.

(** ** The rollback of an identity mapping *)

Lemma frugal_reserve_locked a n : frugal (reserve_locked a n).
Proof.
  unfold reserve_locked. destruct a as [a|]; [|apply frugal_ret].
  destruct (_ || _ || _); [apply frugal_ret|].
  apply frugal_bind; [apply frugal_keeps; auto with gem|intros m].
  apply frugal_bind.
  { destruct (_ =? _); [|apply frugal_ret]. destruct (search _ _ _ _); [apply frugal_ret|done]. }
  intros b. destruct (negb _); [apply frugal_ret|]. destruct (existsb _ _); [apply frugal_ret|].
  apply frugal_bind; [apply frugal_reserve_pages|intros [head|]]; [|apply frugal_ret].
  unfold publish. solve_frugal.
Qed.

Lemma frugal_release_locked a n : frugal (release_locked a n).
Proof.
  unfold release_locked. apply frugal_bind; [apply frugal_keeps; auto with gem|intros m].
  destruct (check m a n false); try apply frugal_ret.
  apply frugal_bind; [apply frugal_keeps; auto with gem|intros p].
  destruct (_ || _); [apply frugal_ret|].
  apply frugal_bind; [apply frugal_remove_pages|intros; apply frugal_ret].
Qed.

Lemma frugal_map_identity_locked a h n prot : frugal (map_identity_locked a h n prot).
Proof.
  unfold map_identity_locked. destruct (_ || _ || _ || _ || _); [apply frugal_ret|].
  apply frugal_bind; [apply frugal_reserve_locked|intros [e a']].
  destruct e; try apply frugal_ret.
  apply frugal_bind; [apply frugal_map_identity_pages|intros [|]]; [apply frugal_ret|].
  apply frugal_bind; [apply frugal_release_locked|intros; apply frugal_ret].
Qed.

Lemma keeps_modify_other a f x : x <> a -> keeps (fun m => m_pages m !! x) (modify_page a f).
Proof.
  intros Hx m u m' H. unfold modify_page, deref_page, put_page, mbind, M_bind, get, put, at_ in H.
  destruct (m_pages m !! a); [|done]. injection H as _ <-. cbn. by rewrite lookup_insert_ne.
Qed.

Lemma map_identity_pages_other a h prot os x :
  (forall o, o ∈ os -> x <> a + o) ->
  keeps (fun m => m_pages m !! x) (map_identity_pages a h prot os).
Proof.
  intros Hx. induction os as [|o os IH]; cbn [map_identity_pages]; [apply keeps_ret|].
  specialize (IH ltac:(set_solver)).
  apply keeps_bind; [auto with gem|intros p].
  apply keeps_bind; [auto with gem|intros b].
  apply keeps_bind; [apply keeps_modify_other; set_solver|intros u].
  destruct b; [|apply keeps_ret].
  apply keeps_bind; [apply keeps_modify_other; set_solver|intros v].
  apply keeps_bind; [|done]. unfold touch_page.
  apply keeps_bind; [auto with gem|intros g; apply keeps_modify_other; set_solver].
Qed.

Lemma check_intro m a n :
  range_ok a n = true -> (forall o, o ∈ page_range 0 n -> is_Some (m_pages m !! (a + o))) ->
  check m a n false = GEM_MEMORY_OK.
Proof.
  intros Hr H. unfold check. rewrite Hr. cbn [negb].
  rewrite (proj2 (first_error_None _ _)); [done|].
  intros o Ho. unfold at_. by destruct (H o Ho) as [p ->].
Qed.

Lemma map_identity_locked_undone a h n prot m e m' :
  inv no_pins m -> 0 <= a -> 0 <= n ->
  map_identity_locked a h n prot m = Ok (e, m') -> e <> GEM_MEMORY_OK -> undone m m'.
Proof.
  intros Hm Ha Hn H He. pose proof no_pins_nonneg as Hp.
  split; [|eapply frugal_map_identity_locked; [apply frugal_since_refl|exact H]].
  unfold map_identity_locked in H. destruct (_ || _ || _ || _ || _); [by injection H as _ <-|].
  apply bind_run in H as ([e1 a'] & m1 & H1 & H).
  destruct (triple_run _ _ _ _ _ _ (reserve_locked_triple no_pins a n (m_pages m) Hp Ha Hn)
    (conj Hm eq_refl) H1) as [Hm1 Hr]. cbn [fst snd] in Hr.
  destruct Hr as [(He1 & _ & Hps) | (b & head & [= -> ->] & Hn' & _ & Hr & Hb0 & Hfree & Hnew & Hnone & Hps)].
  { destruct e1; [done|..]; cbn in H; injection H as _ <-; exact Hps. }
  cbn in H. change (id b) with b in H. destruct Hm1 as (L & Hst1 & HL).
  pose proof (proj1 (range_ok_spec b n) Hr) as (_ & Hbm & Hnm & Hbn).
  assert (forall o, o ∈ page_range 0 n -> exists p, m_pages m1 !! (b + o) = Some p /\
    p_backing p = None /\ p_reservation_base p = b /\ p_reservation_size p = n) as Hin1.
  { intros o Ho. destruct Hnew as (Hnd & Hkeys & _).
    assert (b + o ∈ head.*1) as Hk by (apply Hkeys; by replace (b + o - b) with o by lia).
    apply list_elem_of_fmap in Hk as ([x p] & Hx & Hk). cbn in Hx. subst x.
    destruct (Hnone _ _ Hk) as [g ->]. exists (Page b n None 0 g). split_and!; [|done..].
    rewrite Hps. apply lookup_union_Some_l. by apply elem_of_list_to_map_1. }
  apply bind_run in H as (ok & m2 & H2 & H).
  assert (st no_pins L m2) as Hst2.
  { eapply (triple_run _ _ _ _ _ _ (map_identity_pages_triple no_pins L b h prot _ Hp
      (NoDup_page_range 0 n))); [|exact H2].
    split; [done|]. intros o Ho. destruct (Hin1 o Ho) as (p & ? & ? & _). eauto. }
  assert (layout m1 = layout m2) as Hlay by by rewrite (st_layout _ _ _ Hst1), (st_layout _ _ _ Hst2).
  destruct ok; [by injection H as <- <-|].
  apply bind_run in H as (e3 & m3 & H3 & H). injection H as _ <-.
  unfold release_locked in H3. apply bind_get_run in H3.
  assert (forall o, o ∈ page_range 0 n -> layout m2 !! (b + o) = Some (b, n)) as Hlay2.
  { intros o Ho. rewrite <- Hlay, layout_lookup.
    destruct (Hin1 o Ho) as (p & -> & _ & Hpb & Hpn). cbn. by rewrite Hpb, Hpn. }
  rewrite check_intro in H3; [|done|].
  2:{ intros o Ho. apply layout_is_Some. rewrite Hlay2 by done. eauto. }
  apply bind_run in H3 as (p & m2' & H2' & H3).
  assert (m_pages m2 !! b = Some p /\ m2' = m2) as [Hpb ->].
  { unfold deref_page, mbind, M_bind, get, at_ in H2'.
    by destruct (m_pages m2 !! b); [injection H2' as <- <-|]. }
  pose proof (Hlay2 0 (zero_in_range n ltac:(lia) Hnm Hn)) as Hl0. rewrite Z.add_0_r in Hl0.
  rewrite layout_lookup, Hpb in Hl0. cbn in Hl0. injection Hl0 as Hrb Hrs.
  rewrite Hrb, Hrs, !Z.eqb_refl in H3. cbn [negb orb] in H3.
  apply bind_run in H3 as (u & m4 & H4 & H3). injection H3 as _ <-.
  destruct (triple_run _ _ _ _ _ _ (remove_pages_triple no_pins L b n (m_pages m2) Hp)
    (conj Hst2 eq_refl) H4) as [Hst4 H4x].
  rewrite wrap64_small in H4x by (unfold UINT64_MAX in *; lia).
  apply map_eq. intros x. rewrite H4x. case_bool_decide as Hx.
  - destruct (m_pages m !! x) as [q|] eqn:Hq; [|done]. exfalso.
    destruct (inv_layout _ _ Hm) as [_ Hok].
    assert (x mod 4096 = 0) as Hxm.
    { eapply (Hok x (p_reservation_base q) (p_reservation_size q)).
      rewrite layout_lookup, Hq. done. }
    rewrite Hfree in Hq; [done|]. by apply in_page_range.
  - assert (forall o, o ∈ page_range 0 n -> x <> b + o) as Hout.
    { intros o Ho ->. apply Hx. apply elem_of_page_range in Ho. lia. }
    rewrite (map_identity_pages_other b h prot _ x Hout m1 false m2 H2), Hps.
    apply lookup_union_r. apply not_elem_of_list_to_map_1.
    destruct Hnew as (_ & Hkeys & _). rewrite Hkeys. intros Hin.
    apply (Hout _ Hin). lia.
Qed.

(** ** Every call *)

Definition error_of {A} (r : result unit (A * option mem)) (f : A -> gem_memory_error)
  : result unit (gem_memory_error * option mem) :=
  match r with Ok (a, m) => Ok (f a, m) | Err e => Err e | Fault => Fault end.

(** The error code a public call returns. *)
Definition call_error (c : memory_call) (m : option mem)
  : result unit (gem_memory_error * option mem) :=
  match c with
  | CallReserve a n => error_of (gem_memory_reserve m a n) fst
  | CallCommit a n prot => gem_memory_commit m a n prot
  | CallCommitIdentity a h n prot => gem_memory_commit_identity m a h n prot
  | CallCommitExternal a h n prot => gem_memory_commit_external m a h n prot
  | CallDecommit a n => gem_memory_decommit m a n
  | CallRelease a n => gem_memory_release m a n
  | CallUnmap a n => gem_memory_unmap m a n
  | CallProtect a n prot old => error_of (gem_memory_protect m a n prot old) fst
  | CallAlias a s n prot => gem_memory_alias m a s n prot
  | CallMapIdentity a h n prot => gem_memory_map_identity m a h n prot
  | CallBindKuser h => gem_memory_bind_kuser m h
  | CallRead a b n => error_of (gem_memory_read m a b n) fst
  | CallWrite a b n => error_of (gem_memory_write m a b n) fst
  | CallFetch a b n => error_of (gem_memory_fetch m a b n) fst
  | CallPeek a b n => error_of (gem_memory_peek m a b n) fst
  | CallReadDeferredGuard a b n => error_of (gem_memory_read_deferred_guard m a b n) fst
  | CallWriteDeferredGuard a b n => error_of (gem_memory_write_deferred_guard m a b n) fst
  | CallIsExecutable a n =>
      error_of (gem_memory_is_executable m a n)
        (fun ok => if ok then GEM_MEMORY_OK else GEM_MEMORY_ACCESS_DENIED)
  end.

Lemma locked_run {A} (d : A) (f : M A) m r m' :
  locked d f (Some m) = Ok (r, Some m') -> f m = Ok (r, m').
Proof. unfold locked. destruct (f m) as [[a m1]| |]; [|done|done]. by intros [= <- <-]. Qed.

Lemma error_of_run {A} (r : result unit (A * option mem)) f e m :
  error_of r f = Ok (e, m) -> exists a, r = Ok (a, m) /\ f a = e.
Proof. destruct r as [[a m1]| |]; [|done|done]. intros [= <- <-]. eauto. Qed.

(** A query never reports a guard. *)
Lemma access_query_guard a b n w x cg m e b' m' :
  access_memory_locked a b n w x true cg m = Ok ((e, b'), m') -> e <> GEM_MEMORY_GUARD_PAGE.
Proof.
  unfold access_memory_locked. intros H.
  destruct (_ || _); [by injection H as <- _ _|].
  destruct (_ =? _); [by injection H as <- _ _|].
  destruct (_ <? _); [by injection H as <- _ _|].
  apply bind_run in H as (r & m1 & _ & H). destruct r; [|by injection H as <- _ _].
  apply bind_get_run in H. destruct (first_error _ _) as [e'|] eqn:Hf.
  { injection H as -> _ _. apply first_error_Some in Hf as (k & _ & Hk).
    unfold access_error in Hk. repeat case_match; congruence. }
  unfold access_pages in H. apply bind_run in H as (copies & m2 & _ & H).
  destruct copies; [|by injection H as <- _ _].
  do 2 (apply bind_run in H as (? & ? & _ & H)). by injection H as <- _ _.
Qed.

Lemma call_error_undone c m e m' :
  call_ok c -> inv no_pins m -> call_error c (Some m) = Ok (e, Some m') ->
  e <> GEM_MEMORY_OK -> e <> GEM_MEMORY_GUARD_PAGE -> undone m m'.
Proof.
  intros Hc Hm H He Hg.
  destruct c as [a n|a n prot|a h n prot|a h n prot|a n|a n|a n|a n prot old|a s n prot
                |a h n prot|h|a b n|a b n|a b n|a b n|a b n|a b n|a n]; cbn in Hc;
    cbn [call_error] in H; unfold is_u64 in Hc;
    try (apply error_of_run in H as (r & H & Hr));
    unfold gem_memory_reserve, gem_memory_commit, gem_memory_commit_identity,
      gem_memory_commit_external, gem_memory_decommit, gem_memory_release, gem_memory_unmap,
      gem_memory_protect, gem_memory_alias, gem_memory_map_identity, gem_memory_bind_kuser,
      gem_memory_read, gem_memory_write, gem_memory_fetch, gem_memory_peek,
      gem_memory_read_deferred_guard, gem_memory_write_deferred_guard,
      gem_memory_is_executable in H; apply locked_run in H;
    try (destruct r as [r o]; cbn in Hr; subst r).
  - by eapply reserve_locked_undone.
  - by eapply commit_locked_undone.
  - by eapply commit_external_locked_undone.
  - by eapply commit_external_locked_undone.
  - by eapply decommit_locked_undone.
  - by eapply release_locked_undone.
  - by eapply unmap_locked_undone.
  - by eapply protect_locked_undone.
  - by eapply alias_locked_undone.
  - eapply map_identity_locked_undone; [done| | |exact H|done]; lia.
  - by eapply bind_kuser_locked_undone.
  - by eapply access_memory_locked_undone.
  - by eapply access_memory_locked_undone.
  - by eapply access_memory_locked_undone.
  - by eapply peek_locked_undone.
  - by eapply access_memory_locked_undone.
  - by eapply access_memory_locked_undone.
  - apply bind_run in H as ([e1 o] & m1 & H1 & H). injection H as <- <-.
    destruct (decide (e1 = GEM_MEMORY_OK)) as [->|Hne].
    { cbn in Hr. by subst e. }
    eapply access_memory_locked_undone; [exact H1|done|].
    by eapply access_query_guard.
Qed.

Lemma call_error_run c m e m' : call_error c m = Ok (e, m') -> run_call c m = Ok m'.
Proof.
  destruct c; cbn [call_error run_call]; intros H;
    try (apply error_of_run in H as (r & H & _)); unfold effect; rewrite H; done.
Qed.

End atomic.

(** The state after creation on a platform, when it succeeds. *)
Definition created `{Platform} : mem :=
  match gem_memory_create ∅ with Ok (Some m, _) => m | _ => Mem ∅ ∅ ∅ 0 0 end.

Definition after `{Platform} (cs : list memory_call) : mem :=
  match run_calls cs (Some created) with Ok (Some m) => m | _ => Mem ∅ ∅ ∅ 0 0 end.

(** The hypotheses of the invariant, at a state reached by calls. *)
Lemma after_inv `{Platform} cs :
  Forall call_ok cs ->
  match gem_memory_create ∅ with Ok (Some _, _) => true | _ => false end = true ->
  match run_calls cs (Some created) with Ok (Some _) => true | _ => false end = true ->
  inv no_pins (after cs).
Proof.
  intros Hcs Hc Hr. pose proof (gem_memory_create_safe ∅) as Hs. unfold after, created in *.
  destruct (gem_memory_create ∅) as [[[m|] m1]| |]; try done.
  pose proof (run_calls_safe cs m Hcs) as Hsafe.
  destruct (run_calls cs (Some m)) as [[m'|]| |]; try done.
  apply Hsafe, Hs. intros h l. by rewrite lookup_empty.
Qed.

