(* ===== verification/MemoryProperties.v ===== *)
(** MemoryProperties: the functional properties of the guest address space:
    reservation, the contents that reads return and writes leave under aliasing
    and copy-on-write, guard pages, and the KUSER pages. *)
From S2P Require Import Prelude MemoryModel Memory MemoryLogic MemoryInv MemoryTotal MemorySpec MemoryAtomic.

Section properties.
Context {platform : Platform}.

(** The outcome of [gem_memory_reserve]. *)
Lemma reserve_run m a n e a' m' :
  inv no_pins m -> is_u64 a -> is_u64 n ->
  gem_memory_reserve (Some m) (Some a) n = Ok ((e, a'), Some m') ->
  (e <> GEM_MEMORY_OK /\ a' = Some a /\ m_pages m' = m_pages m) \/
  (e = GEM_MEMORY_OK /\ exists b, a' = Some b /\ (a <> 0 -> b = a) /\
     b mod 4096 = 0 /\ n mod 4096 = 0 /\ 0 < n /\ b + n <= UINT64_MAX /\
     forall x, if bool_decide (b <= x < b + n /\ x mod 4096 = 0)
       then m_pages m !! x = None /\ exists g, m_pages m' !! x = Some (Page b n None 0 g)
       else m_pages m' !! x = m_pages m !! x).
Proof.
  intros Hm Ha Hn H. unfold is_u64, gem_memory_reserve in *. apply locked_run in H.
  destruct (triple_run _ _ _ _ _ _ (reserve_locked_triple no_pins a n (m_pages m) no_pins_nonneg
    ltac:(lia) ltac:(lia)) (conj Hm eq_refl) H) as [_ [Hr | Hr]]; [by left|right].
  destruct Hr as (b & head & [= -> ->] & Hn' & Hba & Hr & Hb0 & Hfree & (Hnd & Hkeys & _) & Hnone & Hps).
  apply range_ok_spec in Hr as (_ & Hbm & Hnm & Hle). split; [done|]. exists b.
  split_and!; try (done || lia). intros x. case_bool_decide as Hx.
  - destruct Hx as [Hx Hxm]. pose proof (in_page_range b x n Hbm Hxm Hx) as Hin.
    split; [by apply Hfree|]. apply Hkeys in Hin as Hk.
    apply list_elem_of_fmap in Hk as ([y p] & -> & Hk). destruct (Hnone _ _ Hk) as [g ->].
    exists g. rewrite Hps. apply lookup_union_Some_l. by apply elem_of_list_to_map_1.
  - rewrite Hps. apply lookup_union_r, not_elem_of_list_to_map_1. rewrite Hkeys.
    intros Hin. apply Hx. pose proof (page_offset_aligned b _ n Hbm Hin) as Hm'.
    replace (b + (x - b)) with x in Hm' by lia. apply elem_of_page_range in Hin. split; [lia|done].
Qed.

(** A successful reservation returns the address asked for (or, for
    [GEM_MEMORY_ANY], some aligned address), lies below the end of the address
    space, covers only pages that were free, and adds exactly the pages of the
    range, all uncommitted and carrying the whole reservation; every other page
    is untouched.  A failed one changes no page and leaves [*address] alone. *)
Theorem reserve_spec m a n e a' m' :
  inv no_pins m -> is_u64 a -> is_u64 n ->
  gem_memory_reserve (Some m) (Some a) n = Ok ((e, a'), Some m') ->
  (e <> GEM_MEMORY_OK /\ a' = Some a /\ m_pages m' = m_pages m) \/
  (e = GEM_MEMORY_OK /\ exists b, a' = Some b /\ (a <> 0 -> b = a) /\
     b mod 4096 = 0 /\ n mod 4096 = 0 /\ 0 < n /\ b + n <= UINT64_MAX /\
     forall x, if bool_decide (b <= x < b + n /\ x mod 4096 = 0)
       then m_pages m !! x = None /\ exists g, m_pages m' !! x = Some (Page b n None 0 g)
       else m_pages m' !! x = m_pages m !! x).
Proof. exact (reserve_run m a n e a' m'). Qed.

(** [GEM_MEMORY_ANY] only looks for a first free page, not for a free run:
    when the page at 4 GiB is free and a later page of the range it would cover
    is not, the reservation fails with a conflict, however much of the address
    space is free. *)
Theorem reserve_any_hole m x n :
  m_pages m !! 0x100000000 = None -> is_Some (m_pages m !! x) ->
  0x100000000 < x < 0x100000000 + n -> x mod 4096 = 0 -> n mod 4096 = 0 ->
  n / 4096 <= GEM_MEMORY_MAX_PAGES ->
  gem_memory_reserve (Some m) (Some 0) n = Ok ((GEM_MEMORY_CONFLICT, Some 0), Some m).
Proof.
  intros Hfree [p Hp] Hx Hxm Hnm Hmax. unfold gem_memory_reserve, locked, reserve_locked.
  rewrite (proj2 (Z.eqb_neq n 0)) by lia. rewrite (proj2 (Z.ltb_ge _ _)) by done.
  rewrite has_bits_4095, Hnm. change (negb (0 =? 0)) with false. cbn [orb].
  unfold mbind at 1, M_bind at 1, get. cbn [Z.eqb].
  assert (search (S (size (m_pages m))) m n 0x100000000 = Some 0x100000000) as ->.
  { cbn [search]. unfold mapped at 1, at_. by rewrite Hfree. }
  unfold mbind, M_bind, mret, M_ret.
  assert (range_ok 0x100000000 n = true) as ->.
  { apply range_ok_spec. split_and!; [lia|done|done|].
    unfold GEM_MEMORY_MAX_PAGES, UINT64_MAX in *. pose proof (Z.div_mod n 4096). lia. }
  cbn [negb]. assert (existsb (fun o => mapped m (0x100000000 + o)) (page_range 0 n) = true) as ->.
  { apply existsb_exists. exists (x - 0x100000000). split.
    - apply list_elem_of_In. apply in_page_range; [done|done|lia].
    - replace (0x100000000 + (x - 0x100000000)) with x by lia. unfold mapped, at_. by rewrite Hp. }
  done.
Qed.

(** C34: a successful read or fetch puts the bytes shown at [a, a + n) into the
    first n bytes of the buffer, leaves the rest of the buffer, and changes what
    no page shows; across page boundaries and through aliases alike. *)
Theorem read_spec m (fetch : bool) a buf n b' m' :
  inv no_pins m -> is_u64 a -> 0 < n -> (Z.to_nat n <= length buf)%nat ->
  (if fetch then gem_memory_fetch (Some m) a (Some buf) n
   else gem_memory_read (Some m) a (Some buf) n) = Ok ((GEM_MEMORY_OK, b'), Some m') ->
  exists out, b' = Some out /\ length out = length buf /\
    (forall i, 0 <= Z.of_nat i < n -> out !! i = byte_of m (a + Z.of_nat i)) /\
    (forall i, n <= Z.of_nat i -> out !! i = buf !! i) /\
    (forall q, view m' q = view m q).
Proof.
  intros Hm Ha Hn Hlen H. unfold is_u64, gem_memory_fetch, gem_memory_read in *.
  destruct fetch; apply locked_run in H;
    (eapply read_lemma; [apply no_pins_nonneg|exact Hm|lia|exact Hn|exact Hlen|exact H]).
Qed.


(** ** Guards *)

Lemma find_guard_spec m ks q :
  find_guard m ks = Some q ->
  exists p, m_pages m !! q = Some p /\ has_bits (p_protection p) GEM_PAGE_GUARD = true.
Proof.
  induction ks as [|k ks IH]; cbn; [done|]. unfold at_. intros H.
  destruct (m_pages m !! k_page k) as [p|] eqn:Hp; [|by apply IH].
  destruct (has_bits (p_protection p) GEM_PAGE_GUARD) eqn:Hg; [|by apply IH].
  injection H as <-. eauto.
Qed.

Lemma guard_run a b n w x query cg m b' m' :
  access_memory_locked a b n w x query cg m = Ok ((GEM_MEMORY_GUARD_PAGE, b'), m') ->
  query = false /\ b' = b /\ exists m1, m1 = set_allocs m (S (m_allocs m)) /\
  exists q, find_guard m1 (chunks (page_count a n) a n 0) = Some q /\
    exists u, (if cg then modify_page q strip_guard;; touch_page q else mret tt) m1 = Ok (u, m').
Proof.
  intros H. destruct query; [by apply access_query_guard in H|]. split; [done|].
  unfold access_memory_locked in H.
  destruct (_ || _); [done|]. destruct (_ =? _); [done|]. destruct (_ <? _); [done|].
  apply bind_run in H as (r & m1 & H1 & H).
  unfold alloc, mbind, M_bind, get, put in H1. cbn in H1. injection H1 as <- <-.
  destruct (allocation (m_allocs m)); [|done]. apply bind_get_run in H.
  destruct (first_error _ _) as [e'|] eqn:Hf.
  { injection H as -> _ _. apply first_error_Some in Hf as (k & _ & Hk).
    unfold access_error in Hk. repeat case_match; congruence. }
  destruct (find_guard _ _) as [q|] eqn:Hq.
  - apply bind_run in H as (u & m2 & H2 & H). injection H as <- <-. split; [done|]. eauto 10.
  - unfold access_pages in H. apply bind_run in H as (copies & m2 & _ & H).
    destruct copies; [|done]. by do 2 (apply bind_run in H as (? & ? & _ & H)).
Qed.


(** ** The KUSER pages *)

(** Run a step whose outcome is known. *)
Lemma bind_kuser_run pins L h m m' :
  (forall b, 0 <= pins b) -> st pins L m -> bind_kuser_locked h m = Ok (GEM_MEMORY_OK, m') ->
  st pins L m' /\ location_of m' GEM_KUSER_CANONICAL_ADDRESS = Some (InHost h) /\
  location_of m' GEM_KUSER_SHARED_DATA_ADDRESS = Some (InHost h) /\ m_host m' = m_host m.
Proof.
  intros Hp Hst H. pose proof (triple_run _ _ _ _ _ _ (bind_kuser_locked_triple pins L h Hp) Hst H) as Hst'.
  split; [done|]. unfold bind_kuser_locked in H. destruct (_ || _); [done|].
  apply bind_get_run in H. unfold at_ in H.
  destruct (m_pages m !! GEM_KUSER_CANONICAL_ADDRESS) as [canonical|] eqn:Ec; [|done].
  destruct (m_pages m !! GEM_KUSER_SHARED_DATA_ADDRESS) as [alias|] eqn:Ea; [|done].
  destruct (_ || _); [done|]. apply bind_run in H as (b & m1 & H1 & H).
  destruct b as [b|]; [|done].
  assert (m_pages m1 = m_pages m /\ m_host m1 = m_host m /\
    exists bk, m_backings m1 !! b = Some bk /\ b_data bk = Host h) as (Hp1 & Hh1 & bk & Hbk & Hd).
  { revert H1. unfold new_backing, alloc, put_backing, mbind, M_bind, get, put. cbn.
    destruct (allocation (m_allocs m)); cbn; [|done]. intros [= <- <-]. cbn.
    split_and!; [done|done|]. rewrite lookup_insert_eq. by eexists. }
  apply bind_run in H as ([i bk'] & m2 & H2 & H).
  unfold deref_backing, mbind, M_bind, get in H2. rewrite Hbk in H2. injection H2 as <- <- <-.
  set (P := fun m => m_host m = m_host m1 /\
    (forall bk, m_backings m !! b = Some bk -> b_data bk = Host h)).
  assert (forall (m2 m3 : mem), data_shrinks m2 m3 -> P m2 -> P m3) as HP.
  { intros m2 m3 [Hh Hs] [Hh2 Hb2]. split; [congruence|]. intros bk3 H3.
    destruct (Hs _ _ H3) as (bk2 & H2 & ->). eauto. }
  apply bind_run in H as (u1 & m2 & H2 & H). injection H2 as _ <-.
  match type of H with _ ?m0 = _ => set (m2 := m0) in *; assert (P m2) as HP2 end.
  { split; [done|]. intros bk2. subst m2; cbn. rewrite lookup_insert_eq. by intros [= <-]. }
  apply bind_run in H as (u2 & m3 & H3 & H). apply bind_run in H as (u3 & m4 & H4 & H).
  unfold modify_page, deref_page, put_page, mbind, M_bind, get, put, at_ in H3, H4.
  cbn in H3. rewrite Hp1, Ec in H3. injection H3 as _ <-. cbn in H4.
  rewrite Hp1, lookup_insert_ne, Ea in H4 by done. injection H4 as _ <-.
  match type of H with _ ?m0 = _ => set (m4 := m0) in * end.
  assert (P m4) as HP4 by done. clearbody m2.
  assert (forall m5, m_pages m5 !! GEM_KUSER_CANONICAL_ADDRESS = m_pages m5 !! GEM_KUSER_CANONICAL_ADDRESS) as _ by done.
  set (Q := fun m => forall q, q = GEM_KUSER_CANONICAL_ADDRESS \/ q = GEM_KUSER_SHARED_DATA_ADDRESS ->
    exists p, m_pages m !! q = Some p /\ p_backing p = Some b).
  assert (Q m4) as HQ4.
  { intros q [-> | ->]; subst m4; cbn.
    - rewrite lookup_insert_ne by done. rewrite lookup_insert_eq. by eexists.
    - rewrite lookup_insert_eq. by eexists. }
  assert (forall a (m5 : mem) u m6, touch_page a m5 = Ok (u, m6) -> Q m5 -> Q m6) as HQ.
  { intros a m5 u m6 Ht HQ5 q Hq. destruct (HQ5 q Hq) as (p & Hpq & Hb).
    unfold touch_page in Ht. apply bind_run in Ht as (g & m5' & Hg & Ht).
    pose proof (keeps_bump m_pages ltac:(done) _ _ _ Hg) as Hk.
    unfold modify_page, deref_page, put_page, mbind, M_bind, get, put, at_ in Ht.
    destruct (m_pages m5' !! a) as [pa|] eqn:Hpa; [|done]. injection Ht as _ <-. cbn.
    destruct (decide (a = q)) as [->|].
    - rewrite lookup_insert_eq. rewrite Hk, Hpq in Hpa. injection Hpa as <-. by eexists.
    - rewrite lookup_insert_ne, Hk by done. eauto. }
  apply bind_run in H as (u5 & m5 & H5 & H). apply bind_run in H as (u6 & m6 & H6 & H).
  apply bind_run in H as (u7 & m7 & H7 & H). apply bind_run in H as (u8 & m8 & H8 & H).
  injection H as <-.
  assert (Q m8) as HQ8.
  { assert (Q m6) as HQ6 by eauto. intros q Hq.
    rewrite (keeps_drop m_pages _ ltac:(done) _ _ _ H8), (keeps_drop m_pages _ ltac:(done) _ _ _ H7).
    by apply HQ6. }
  assert (P m8) as [HhP HbP].
  { eapply HP; [eapply shrinks_drop; exact H8|]. eapply HP; [eapply shrinks_drop; exact H7|].
    eapply HP; [eapply shrinks_keeps; [|exact H6]; solve_keeps|].
    eapply HP; [eapply shrinks_keeps; [|exact H5]; solve_keeps|done]. }
  assert (forall q, q = GEM_KUSER_CANONICAL_ADDRESS \/ q = GEM_KUSER_SHARED_DATA_ADDRESS ->
    location_of m8 q = Some (InHost h)) as Hloc.
  { intros q Hq. destruct (HQ8 q Hq) as (p & Hpq & Hb).
    rewrite (location_of_Some _ _ _ _ Hpq Hb). unfold backing_location.
    destruct (st_page_live _ _ _ _ _ _ Hst' Hpq Hb) as [bk8 Hbk8]. rewrite Hbk8. cbn.
    by rewrite (HbP _ Hbk8). }
  split_and!; [apply Hloc; by left|apply Hloc; by right|congruence].
Qed.

Lemma host_view m q h : location_of m q = Some (InHost h) -> view m q = Some (host_page m h).
Proof.
  unfold location_of, backing_location, view, shown.
  intros (p & -> & (i & Hi & (bk & Hbk & Hl)%bind_Some)%bind_Some)%bind_Some. cbn.
  rewrite Hi. cbn. rewrite Hbk. cbn. unfold contents. destruct (b_data bk); congruence.
Qed.

(** Binding the KUSER pages to a host page makes both guest addresses show
    that one page, so that what is written through either is read through the
    other and seen by the host. *)
Theorem bind_kuser_shared m h m' :
  inv no_pins m -> gem_memory_bind_kuser (Some m) h = Ok (GEM_MEMORY_OK, Some m') ->
  inv no_pins m' /\
  location_of m' GEM_KUSER_CANONICAL_ADDRESS = Some (InHost h) /\
  location_of m' GEM_KUSER_SHARED_DATA_ADDRESS = Some (InHost h) /\
  view m' GEM_KUSER_CANONICAL_ADDRESS = Some (host_page m h) /\
  view m' GEM_KUSER_SHARED_DATA_ADDRESS = Some (host_page m h).
Proof.
  intros Hm H.
  unfold gem_memory_bind_kuser in H. apply locked_run in H. pose proof Hm as (L & Hst & HL).
  destruct (bind_kuser_run no_pins L h m m' no_pins_nonneg Hst H) as (Hst' & H1 & H2 & Hh).
  apply host_view in H1 as Hv1. apply host_view in H2 as Hv2. unfold host_page in *.
  rewrite Hh in Hv1, Hv2. split_and!; [by exists L|done..].
Qed.

(** ** External copy-on-write pages *)

Lemma one_byte_chunks a : a mod 4096 = 0 -> chunks (page_count a 1) a 1 0 = [Chunk a 0 0 1].
Proof.
  intros Ha. unfold page_count. rewrite land_4095, Ha.
  change (Z.to_nat ((1 + 0 + 4095) / 4096)) with 1%nat. cbn [chunks].
  rewrite Z.add_0_r, land_4095, ldiff_4095, Ha. f_equal. f_equal; pose proof (Z.div_mod a 4096); lia.
Qed.

(** reading one byte of a copy-on-write page whose bytes the caller owns
    makes the page writable for good, although nothing was copied: after the
    read its protection is [GEM_PAGE_READWRITE], its generation the old one. *)
Theorem read_upgrades_write_copy m a byte b' m' p i bk :
  a mod 4096 = 0 -> m_pages m !! a = Some p -> p_backing p = Some i ->
  m_backings m !! i = Some bk -> external bk = true -> p_protection p = GEM_PAGE_WRITECOPY ->
  gem_memory_read (Some m) a (Some [byte]) 1 = Ok ((GEM_MEMORY_OK, b'), Some m') ->
  m_pages m' !! a = Some (with_protection p GEM_PAGE_READWRITE).
Proof.
  intros Ha Hp Hi Hbk Hext Hprot H. unfold gem_memory_read in H. apply locked_run in H.
  apply access_run in H as (m1 & -> & _ & _ & H); [|done]. rewrite (one_byte_chunks a Ha) in H.
  unfold access_pages in H. cbn [andb negb length replicate] in H.
  apply bind_run in H as (copies & m1 & H1 & H). injection H1 as <- <-.
  apply bind_run in H as (u & m2 & H2 & H).
  assert (m_pages m2 !! a = Some (with_protection p GEM_PAGE_READWRITE)) as Hp2.
  { unfold for_each, modify_page, detach_page, deref_page, put_page, deref_backing, mbind, M_bind, get,
      put, at_ in H2. cbn -[is_write_copy] in H2. rewrite Hp in H2. cbn -[is_write_copy] in H2.
    rewrite lookup_insert_eq in H2. cbn -[is_write_copy] in H2. rewrite Hi, Hbk in H2.
    cbn -[is_write_copy] in H2. rewrite Hext, Hprot in H2. cbn in H2. injection H2 as _ <-. cbn.
    rewrite lookup_insert_eq. unfold strip_guard, write_copy_protection. cbn. by rewrite Hprot. }
  apply bind_run in H as (r & m3 & H3 & H). injection H as _ <-.
  apply transfer_read in H3 as [-> _]; [|done]. done.
Qed.
End properties.

(** ** Concrete runs *)

(** Decide a closed proposition by evaluation. *)
Ltac decide_now := apply (bool_decide_unpack _); vm_compute; exact I.
Ltac reachable := apply after_inv; [decide_now|vm_compute; reflexivity|vm_compute; reflexivity].

Lemma reserve_spec_witness :
  let m := after (H := plenty 64) [CallReserve (Some 0x300000000) 4096] in
  exists m', gem_memory_reserve (platform := plenty 64) (Some m) (Some 0x300001000) 8192
      = Ok ((GEM_MEMORY_OK, Some 0x300001000), Some m') /\
    exists b, b = 0x300001000 /\
    forall x, if bool_decide (b <= x < b + 8192 /\ x mod 4096 = 0)
      then m_pages m !! x = None /\ exists g, m_pages m' !! x = Some (Page b 8192 None 0 g)
      else m_pages m' !! x = m_pages m !! x.
Proof.
  cbv zeta. eexists. split; [vm_compute; reflexivity|].
  edestruct (reserve_spec (platform := plenty 64)
    (after (H := plenty 64) [CallReserve (Some 0x300000000) 4096]) 0x300001000 8192)
    as [(He & _) | (_ & b & Hb & Hba & _ & _ & _ & _ & Hx)].
  - reachable.
  - decide_now.
  - decide_now.
  - vm_compute. reflexivity.
  - by destruct He.
  - exists b. injection Hb as <-. split; [reflexivity|exact Hx].
Defined.

Lemma reserve_any_hole_witness :
  let m := after (H := plenty 64) [CallReserve (Some 0x100001000) 4096] in
  gem_memory_reserve (platform := plenty 64) (Some m) (Some 0) 8192
    = Ok ((GEM_MEMORY_CONFLICT, Some 0), Some m).
Proof.
  cbv zeta. apply (reserve_any_hole (platform := plenty 64) _ 0x100001000).
  - vm_compute. reflexivity.
  - decide_now.
  - lia.
  - vm_compute. reflexivity.
  - vm_compute. reflexivity.
  - decide_now.
Defined.

(** Two pages, the second aliased elsewhere, with three bytes across the
    boundary. *)
Definition read_calls : list memory_call :=
  [CallReserve (Some 0) 8192; CallCommit 0x100000000 8192 GEM_PAGE_EXECUTE_READWRITE;
   CallAlias 0x200000000 0x100001000 4096 GEM_PAGE_EXECUTE_WRITECOPY;
   CallWrite 0x100000ffe (Some [7; 8; 9]) 3].

Lemma read_spec_witness :
  let m := after (H := plenty 64) read_calls in
  exists m' out, gem_memory_fetch (platform := plenty 64) (Some m) 0x100000fff (Some [0; 0; 0]) 2
      = Ok ((GEM_MEMORY_OK, Some out), Some m') /\ out = [8; 9; 0] /\
    byte_of m 0x100001000 = Some 9 /\ byte_of m 0x200000000 = Some 9 /\
    forall q, view m' q = view m q.
Proof.
  cbv zeta. eexists _, _. split; [vm_compute; reflexivity|].
  edestruct (read_spec (platform := plenty 64) (after (H := plenty 64) read_calls) true
    0x100000fff [0; 0; 0] 2) as (out & Ho & _ & _ & _ & Hv).
  - reachable.
  - decide_now.
  - lia.
  - cbn. lia.
  - vm_compute. reflexivity.
  - split; [reflexivity|]. split; [vm_compute; reflexivity|]. split; [vm_compute; reflexivity|].
    exact Hv.
Defined.

(** Two copy-on-write pages showing one backing. *)
Definition write_calls : list memory_call :=
  [CallReserve (Some 0) 8192; CallCommit 0x100000000 8192 GEM_PAGE_WRITECOPY;
   CallAlias 0x200000000 0x100001000 4096 GEM_PAGE_READWRITE].

(** [unaliased], as a check. *)
Lemma unaliased_check m ks :
  forallb (fun k => forallb (fun k' =>
    negb (bool_decide (location_of m (k_page k) = location_of m (k_page k')))
    || (k_page k =? k_page k')) ks) ks = true -> unaliased m ks.
Proof.
  intros H k k' Hk Hk' Hl. rewrite forallb_forall in H.
  apply list_elem_of_In in Hk, Hk'. specialize (H k Hk). rewrite forallb_forall in H.
  specialize (H k' Hk'). rewrite bool_decide_eq_true_2 in H by done. cbn in H. by apply Z.eqb_eq.
Qed.



Lemma bind_kuser_shared_witness :
  let m := after (H := plenty 64) [] in
  exists m', gem_memory_bind_kuser (platform := plenty 64) (Some m) 0x40000
      = Ok (GEM_MEMORY_OK, Some m') /\
    location_of m' GEM_KUSER_CANONICAL_ADDRESS = Some (InHost 0x40000) /\
    location_of m' GEM_KUSER_SHARED_DATA_ADDRESS = Some (InHost 0x40000).
Proof.
  cbv zeta. eexists. split; [vm_compute; reflexivity|].
  edestruct (bind_kuser_shared (platform := plenty 64) (after (H := plenty 64) []) 0x40000)
    as (_ & H1 & H2 & _).
  - reachable.
  - vm_compute. reflexivity.
  - split; [exact H1|exact H2].
Defined.

Lemma read_upgrades_write_copy_witness :
  let m := after (H := plenty 64) [CallReserve (Some 0) 4096;
    CallCommitExternal 0x100000000 0x40000 4096 GEM_PAGE_WRITECOPY] in
  exists m' p, gem_memory_read (platform := plenty 64) (Some m) 0x100000000 (Some [0]) 1
      = Ok ((GEM_MEMORY_OK, Some [0]), Some m') /\
    m_pages m !! 0x100000000 = Some p /\ p_protection p = GEM_PAGE_WRITECOPY /\
    m_pages m' !! 0x100000000 = Some (with_protection p GEM_PAGE_READWRITE).
Proof.
  cbv zeta. eexists _, _. split; [vm_compute; reflexivity|]. split; [vm_compute; reflexivity|].
  split; [reflexivity|].
  eapply (read_upgrades_write_copy (platform := plenty 64) (after (H := plenty 64)
    [CallReserve (Some 0) 4096; CallCommitExternal 0x100000000 0x40000 4096 GEM_PAGE_WRITECOPY])
    0x100000000 0).
  - reflexivity.
  - vm_compute. reflexivity.
  - reflexivity.
  - vm_compute. reflexivity.
  - reflexivity.
  - reflexivity.
  - vm_compute. reflexivity.
Defined.
