(* ===== verification/MemoryFrame.v ===== *)
(** MemoryFrame: isolation.  The operations that do not make or remove pages
    change page descriptors inside their range only, and never a reservation. *)
From S2P Require Import Prelude MemoryModel Memory MemoryLogic MemoryInv MemoryTotal MemorySpec MemoryAtomic.

(** Only pages in [S] differ, and no page appears, disappears or changes hands. *)
Definition framed (S : Z -> Prop) (m m' : mem) : Prop :=
  (forall x, ~ S x -> m_pages m' !! x = m_pages m !! x) /\ layout m' = layout m.

Definition touching {A} (S : Z -> Prop) (f : M A) : Prop :=
  forall m a m', f m = Ok (a, m') -> framed S m m'.

Lemma framed_refl S m : framed S m m.
Proof. by split. Qed.

Lemma framed_trans S m1 m2 m3 : framed S m1 m2 -> framed S m2 m3 -> framed S m1 m3.
Proof.
  intros [H1 L1] [H2 L2]. split; [|congruence]. intros x Hx. by rewrite H2, H1.
Qed.

Lemma framed_weaken (S S' : Z -> Prop) m m' :
  (forall x, S x -> S' x) -> framed S m m' -> framed S' m m'.
Proof. intros HS [H L]. split; [|done]. intros x Hx. apply H. auto. Qed.

Section touching.
Context (S : Z -> Prop).

Lemma touching_keeps {A} (f : M A) : keeps m_pages f -> touching S f.
Proof.
  intros Hk m a m' H. specialize (Hk m a m' H). split; [by intros; rewrite Hk|].
  unfold layout. by rewrite Hk.
Qed.

Lemma touching_bind {A B} (f : M A) (g : A -> M B) :
  touching S f -> (forall a, touching S (g a)) -> touching S (f ≫= g).
Proof.
  intros Hf Hg m b m' H. apply bind_run in H as (a & m1 & H1 & H2).
  eapply framed_trans; [by eapply Hf|by eapply Hg].
Qed.

Lemma touching_for_each {A} (body : A -> M unit) l :
  (forall x, x ∈ l -> touching S (body x)) -> touching S (for_each l body).
Proof.
  induction l as [|x l IH]; intros H; cbn.
  - apply touching_keeps. auto with gem.
  - apply touching_bind; [apply H; set_solver|]. intros u. apply IH. set_solver.
Qed.

(** Replacing a page by one of the same reservation. *)
Lemma framed_put m q p p' :
  S q -> m_pages m !! q = Some p -> p_reservation_base p' = p_reservation_base p ->
  p_reservation_size p' = p_reservation_size p ->
  framed S m (set_pages m (<[q := p']> (m_pages m))).
Proof.
  intros Hq Hp Hb Hs. split.
  - intros x Hx. cbn. rewrite lookup_insert_ne; [done|]. by intros ->.
  - rewrite layout_insert, Hb, Hs. apply insert_id. by rewrite layout_lookup, Hp.
Qed.

Lemma touching_modify q f :
  S q -> (forall p, p_reservation_base (f p) = p_reservation_base p /\
                    p_reservation_size (f p) = p_reservation_size p) ->
  touching S (modify_page q f).
Proof.
  intros Hq Hf m u m' H. unfold modify_page, deref_page, put_page, mbind, M_bind, get, put, at_ in H.
  destruct (m_pages m !! q) as [p|] eqn:Hp; [|done]. injection H as _ <-.
  destruct (Hf p). by eapply framed_put.
Qed.

Lemma touching_touch_page q : S q -> touching S (touch_page q).
Proof.
  intros Hq. apply touching_bind; [apply touching_keeps; auto with gem|].
  intros g. by apply touching_modify.
Qed.
End touching.

#[export] Hint Extern 1 (touching _ (modify_page _ _)) => apply touching_modify; [|done] : gem.
#[export] Hint Resolve touching_touch_page : gem.

(** Walk a program down to the steps that touch pages. *)
Ltac touching_step :=
  first
  [ solve [apply touching_keeps; solve_keeps]
  | solve [auto with gem]
  | apply touching_bind; [|intros ?]
  | apply touching_for_each; intros ? ?
  | match goal with |- context [match ?x with _ => _ end] => destruct x end ].
Ltac solve_touching := repeat touching_step.

(** The addresses of [a, a + n). *)
Definition in_range (a n x : Z) : Prop := a <= x < a + n.
(** The pages that [a, a + n) meets. *)
Definition in_pages (a n x : Z) : Prop := a - 4096 < x < a + n.

Section frame.
Context {platform : Platform}.

Lemma touching_commit_page S q prot b : S q -> touching S (commit_page q prot b).
Proof.
  intros Hq m u m' H. unfold commit_page in H. apply bind_run in H as (p & m1 & H1 & H).
  apply bind_run in H as (v & m2 & H2 & H).
  unfold deref_page, mbind, M_bind, get, at_ in H1.
  destruct (m_pages m !! q) as [p'|] eqn:Hp; [|done]. injection H1 as <- <-.
  eapply framed_trans; [|by eapply touching_touch_page].
  destruct (p_backing p'); unfold put_page, mbind, M_bind, get, put in H2; injection H2 as _ <-;
    by eapply framed_put.
Qed.

Lemma page_in_range a n o : o ∈ page_range 0 n -> in_range a n (a + o).
Proof. rewrite elem_of_page_range. unfold in_range. lia. Qed.

Lemma touching_commit_backings S a os bs : touching S (commit_backings a os bs).
Proof.
  apply touching_keeps. revert bs. induction os as [|o os IH]; intros bs; cbn [commit_backings]; [auto with gem|].
  apply keeps_bind; [auto with gem|]. intros p. destruct (p_backing p); [done|].
  apply keeps_bind; [auto with gem|]. intros [b|]; [done|auto with gem].
Qed.

Lemma touching_commit (S : Z -> Prop) a n prot :
  (forall o, o ∈ page_range 0 n -> S (a + o)) -> touching S (commit_locked a n prot).
Proof.
  intros HS. unfold commit_locked. apply touching_bind; [apply touching_keeps; auto with gem|]. intros m.
  destruct (check m a n false); try (apply touching_keeps; solve_keeps; fail).
  destruct (negb (prot_ok prot)); [apply touching_keeps; solve_keeps|].
  apply touching_bind; [apply touching_keeps; auto with gem|]. intros [r|]; [|apply touching_keeps; solve_keeps].
  apply touching_bind; [apply touching_commit_backings|]. intros [[] bs].
  - apply touching_bind; [|intros; apply touching_keeps; solve_keeps].
    apply touching_for_each. intros [o b] Hin. apply touching_commit_page.
    apply elem_of_zip_l in Hin. by apply HS.
  - apply touching_keeps; solve_keeps.
Qed.

Lemma touching_commit_external (S : Z -> Prop) a h n prot id :
  (forall o, o ∈ page_range 0 n -> S (a + o)) -> touching S (commit_external_locked a h n prot id).
Proof.
  intros HS. unfold commit_external_locked. destruct (_ || _); [apply touching_keeps; solve_keeps|].
  apply touching_bind; [apply touching_keeps; auto with gem|]. intros m.
  destruct (check m a n false); try (apply touching_keeps; solve_keeps; fail).
  apply touching_bind; [apply touching_keeps; auto with gem|]. intros [r|]; [|apply touching_keeps; solve_keeps].
  apply touching_bind.
  { apply touching_keeps. clear HS. generalize ([] : list (option bid)) as bs.
    induction (page_range 0 n) as [|o os IH]; intros bs; cbn [commit_external_backings]; [auto with gem|].
    apply keeps_bind; [auto with gem|]. intros p. destruct (p_backing p).
    - apply keeps_bind; [auto with gem|]. intros [i bk]. destruct (bool_decide _); [done|auto with gem].
    - apply keeps_bind; [auto with gem|]. intros [b|]; [done|auto with gem]. }
  intros [[] bs]; try (apply touching_keeps; solve_keeps; fail).
  apply touching_bind; [|intros; apply touching_keeps; solve_keeps].
  apply touching_for_each. intros [o b] Hin. apply touching_commit_page.
  apply elem_of_zip_l in Hin. by apply HS.
Qed.

Lemma touching_decommit (S : Z -> Prop) a n :
  (forall o, o ∈ page_range 0 n -> S (a + o)) -> touching S (decommit_locked a n).
Proof.
  intros HS. unfold decommit_locked. apply touching_bind; [apply touching_keeps; auto with gem|]. intros m.
  destruct (check m a n false); try (apply touching_keeps; solve_keeps; fail).
  apply touching_bind; [|intros; apply touching_keeps; solve_keeps].
  apply touching_for_each. intros o Ho%HS. solve_touching.
Qed.

Lemma touching_protect (S : Z -> Prop) a n prot old :
  (forall o, o ∈ page_range 0 n -> S (a + o)) -> touching S (protect_locked a n prot old).
Proof.
  intros HS. unfold protect_locked. apply touching_bind; [apply touching_keeps; auto with gem|]. intros m.
  destruct (check m a n true); try (apply touching_keeps; solve_keeps; fail).
  destruct (negb (prot_ok prot)); [apply touching_keeps; solve_keeps|].
  apply touching_bind; [apply touching_keeps; auto with gem|]. intros p.
  apply touching_bind; [|intros _; apply touching_bind; [|intros; apply touching_keeps; solve_keeps]];
    apply touching_for_each; intros o Ho%HS; solve_touching.
Qed.

(** ** Accesses *)

Lemma find_guard_in m ks q : find_guard m ks = Some q -> exists k, k ∈ ks /\ k_page k = q.
Proof.
  induction ks as [|k ks IH]; cbn; [done|]. intros H.
  assert (find_guard m ks = Some q -> exists k', k' ∈ k :: ks /\ k_page k' = q) as Hrest.
  { intros (k' & Hin & Hq)%IH. exists k'. split; [set_solver|done]. }
  destruct (at_ m (k_page k)) as [p|]; [|by apply Hrest].
  destruct (has_bits _ _); [|by apply Hrest]. injection H as <-. exists k. split; [set_solver|done].
Qed.

Lemma touching_detach S k c : S (k_page k) -> touching S (detach_page k c).
Proof.
  intros Hk m u m' H. unfold detach_page in H. apply bind_run in H as (p & m1 & H1 & H).
  unfold deref_page, mbind at 1, M_bind at 1, get, at_ in H1.
  destruct (m_pages m !! k_page k) as [p'|] eqn:Hp; [|done]. injection H1 as <- <-. destruct c as [c|].
  - revert H. apply touching_bind; [apply touching_keeps; auto with gem|]. intros _.
    apply touching_bind; [by apply touching_modify|]. intros _. by apply touching_touch_page.
  - apply bind_run in H as ([i bk] & m1 & H1 & H).
    pose proof (keeps_deref_backing (fun m => m) _ _ _ _ H1) as Hm1. cbn in Hm1. subst m1.
    destruct (_ && _); [|injection H as _ <-; apply framed_refl].
    unfold put_page, mbind, M_bind, get, put in H. injection H as _ <-. by eapply framed_put.
Qed.

Lemma touching_transfer S w query ks b :
  (forall k, k ∈ ks -> S (k_page k)) -> touching S (transfer w query ks b).
Proof.
  revert b. induction ks as [|k ks IH]; intros b Hk; cbn [transfer]; [apply touching_keeps; auto with gem|].
  apply touching_bind; [apply touching_keeps; auto with gem|]. intros p.
  apply touching_bind.
  { destruct query; [apply touching_keeps; auto with gem|].
    destruct w, b as [buffer|]; apply touching_keeps; solve_keeps. }
  intros b'. apply touching_bind; [|intros _; apply IH; set_solver].
  destruct (w && negb query); [|apply touching_keeps; auto with gem].
  apply touching_bind; [apply touching_keeps; auto with gem|]. intros _.
  apply touching_touch_page. apply Hk. set_solver.
Qed.

Lemma touching_make_copies S ks cs : touching S (make_copies ks cs).
Proof.
  apply touching_keeps. revert cs. induction ks as [|k ks IH]; intros cs; cbn [make_copies]; [auto with gem|].
  apply keeps_bind; [auto with gem|]. intros p. apply keeps_bind; [auto with gem|]. intros [i bk].
  destruct (_ && _); [|done]. apply keeps_bind; [auto with gem|]. intros [c|]; [|auto with gem].
  apply keeps_bind; [auto with gem|]. intros m. apply keeps_bind; [auto with gem|]. intros _. done.
Qed.

Lemma touching_access_pages S ks b w query :
  (forall k, k ∈ ks -> S (k_page k)) -> touching S (access_pages ks b w query).
Proof.
  intros Hk. unfold access_pages. apply touching_bind.
  { destruct (w && negb query); [|apply touching_keeps; auto with gem].
    apply touching_bind; [apply touching_keeps; auto with gem|]. intros [r|]; [|apply touching_keeps; auto with gem].
    apply touching_bind; [apply touching_make_copies|]. intros [[] cs]; apply touching_keeps; solve_keeps. }
  intros [cs|]; [|apply touching_keeps; auto with gem].
  apply touching_bind.
  { destruct query; [apply touching_keeps; auto with gem|].
    apply touching_bind; [|intros _]; apply touching_for_each.
    - intros k Hin. apply touching_modify; [by apply Hk|done].
    - intros [k c] Hin. apply elem_of_zip_l in Hin. by apply touching_detach, Hk. }
  intros _. apply touching_bind; [by apply touching_transfer|]. intros b'. apply touching_keeps; auto with gem.
Qed.

Lemma touching_access (S : Z -> Prop) a b n w x query cg :
  0 <= a -> 0 <= n -> (forall q, in_pages a n q -> q mod 4096 = 0 -> S q) ->
  touching S (access_memory_locked a b n w x query cg).
Proof.
  intros Ha Hn HS. unfold access_memory_locked. destruct (_ || _); [apply touching_keeps; auto with gem|].
  destruct (Z.eqb_spec n 0); [apply touching_keeps; auto with gem|].
  destruct (_ <? _); [apply touching_keeps; auto with gem|].
  apply touching_bind; [apply touching_keeps; auto with gem|]. intros [r|]; [|apply touching_keeps; auto with gem].
  apply touching_bind; [apply touching_keeps; auto with gem|]. intros m.
  assert (forall k, k ∈ chunks (page_count a n) a n 0 -> S (k_page k)) as Hks.
  { intros k Hk. apply HS; [|apply (chunks_ok_bounds a n 0 _ k (chunks_spec a n Ha ltac:(lia)) Hk)]. pose proof (chunks_ok_bounds a n 0 _ k (chunks_spec a n Ha ltac:(lia)) Hk).
    unfold in_pages. lia. }
  destruct (first_error _ _); [apply touching_keeps; auto with gem|].
  destruct (if query then None else find_guard m _) as [q|] eqn:Hq.
  - destruct query; [done|]. apply find_guard_in in Hq as (k & Hk & <-). apply Hks in Hk.
    apply touching_bind; [|intros; apply touching_keeps; auto with gem].
    destruct cg; [|apply touching_keeps; auto with gem].
    apply touching_bind; [by apply touching_modify|]. intros _. by apply touching_touch_page.
  - by apply touching_access_pages.
Qed.

Lemma touching_peek S a b n : touching S (peek_locked a b n).
Proof.
  unfold peek_locked. destruct (_ || _); [apply touching_keeps; auto with gem|].
  destruct (_ =? _); [apply touching_keeps; auto with gem|].
  apply touching_bind; [apply touching_keeps; auto with gem|]. intros m.
  destruct (first_error _ _); [apply touching_keeps; auto with gem|].
  apply touching_bind; [|intros; apply touching_keeps; auto with gem].
  intros m0 r m1 H. apply transfer_read in H as [-> _]; [|done]. apply framed_refl.
Qed.

(** ** Every call *)

(** The address and size of a call that works on existing pages only. *)
Definition footprint (c : memory_call) : option (Z * Z) :=
  match c with
  | CallCommit a n _ | CallCommitIdentity a _ n _ | CallCommitExternal a _ n _
  | CallDecommit a n | CallProtect a n _ _ | CallRead a _ n | CallWrite a _ n | CallFetch a _ n
  | CallPeek a _ n | CallReadDeferredGuard a _ n | CallWriteDeferredGuard a _ n
  | CallIsExecutable a n => Some (a, n)
  | CallReserve _ _ | CallRelease _ _ | CallUnmap _ _ | CallAlias _ _ _ _
  | CallMapIdentity _ _ _ _ | CallBindKuser _ => None
  end.

Lemma locked_framed {A} S (f : M A) m r :
  touching S f ->
  effect (match f m with
          | Ok (a, m') => Ok (a, Some m')
          | Err e => Err e
          | Fault => Fault end) = Ok (Some r) -> framed S m r.
Proof.
  intros Hf. unfold effect. destruct (f m) as [[a m1]| |] eqn:E; [|done|done].
  intros [= <-]. by eapply Hf.
Qed.

Lemma range_framed a n m m' : framed (in_range a n) m m' -> framed (in_pages a n) m m'.
Proof. apply framed_weaken. unfold in_range, in_pages. lia. Qed.

End frame.

(** A write that straddles two copy-on-write pages out of three. *)
Definition frame_calls : list memory_call :=
  [CallReserve (Some 0) 12288; CallCommit 0x100000000 12288 GEM_PAGE_WRITECOPY].

