(* ===== verification/MemoryHistory.v ===== *)
(** MemoryHistory: what the generation counters promise.  Compared with an
    earlier state, a page either carries a generation that state had not reached
    or still has the backing it had then; the same holds of a backing and its
    bytes.  This is what makes the optimistic validation of transactions sound:
    an unchanged generation means unchanged bytes, whatever ran in between. *)
From S2P Require Import Prelude MemoryModel Memory MemoryLogic MemoryInv.

(** ** Partial triples *)

Definition partial {A} (P : mem -> Prop) (f : M A) (Q : A -> mem -> Prop) : Prop :=
  forall m a m', P m -> f m = Ok (a, m') -> Q a m'.

Lemma partial_ret {A} (P : mem -> Prop) (a : A) (Q : A -> mem -> Prop) :
  (forall m, P m -> Q a m) -> partial P (mret a) Q.
Proof. intros H m b m' Hm [= <- <-]. auto. Qed.

Lemma partial_bind {A B} P (R : A -> mem -> Prop) (f : M A) (g : A -> M B) Q :
  partial P f R -> (forall a, partial (R a) (g a) Q) -> partial P (f ≫= g) Q.
Proof. intros Hf Hg m b m' Hm (a & m1 & H1 & H2)%bind_run. eapply Hg; [by eapply Hf|done]. Qed.

Lemma partial_conseq {A} (P P' : mem -> Prop) (f : M A) (Q Q' : A -> mem -> Prop) :
  partial P' f Q' -> (forall m, P m -> P' m) -> (forall a m, Q' a m -> Q a m) -> partial P f Q.
Proof. intros H HP HQ m a m' Hm Hr. apply HQ. eapply H; [by apply HP|done]. Qed.

(** The commands that keep an assertion. *)
Definition stable {A} (I : mem -> Prop) (f : M A) : Prop := partial I f (fun _ => I).

Section stable.
Context (I : mem -> Prop).

Lemma stable_ret {A} (a : A) : stable I (mret a).
Proof. by apply partial_ret. Qed.

Lemma stable_bind {A B} (f : M A) (g : A -> M B) :
  stable I f -> (forall a, stable I (g a)) -> stable I (f ≫= g).
Proof. intros Hf Hg. by eapply partial_bind. Qed.

Lemma stable_for_each {A} (body : A -> M unit) l :
  (forall x, x ∈ l -> stable I (body x)) -> stable I (for_each l body).
Proof.
  induction l as [|x l IH]; intros H; cbn; [apply stable_ret|].
  apply stable_bind; [apply H; set_solver|]. intros u. apply IH. set_solver.
Qed.

Lemma stable_keeps {A} (f : M A) : keeps (fun m => m) f -> stable I f.
Proof. intros Hk m a m' Hm H. specialize (Hk m a m' H). cbn in Hk. by subst. Qed.

Lemma stable_fault {A} : stable I (fault (A := A)).
Proof. done. Qed.
End stable.

(** ** The history relation *)

Definition page_kept (m0 m : mem) (a : Z) : Prop :=
  forall p, m_pages m !! a = Some p ->
    m_next_generation m0 < p_generation p \/
    exists p0, m_pages m0 !! a = Some p0 /\ p_generation p0 = p_generation p /\
      p_backing p0 = p_backing p.

Definition backing_kept (m0 m : mem) (b : bid) : Prop :=
  forall bk, m_backings m !! b = Some bk ->
    (m_allocs m0 <= b)%nat \/ m_next_generation m0 < b_generation bk \/
    exists bk0, m_backings m0 !! b = Some bk0 /\ b_generation bk0 = b_generation bk /\
      b_data bk0 = b_data bk.

(** [PS] and [BS] are about to be touched; [HP] and [HB] are known to be newer
    than [m0]. *)
Record ev (m0 : mem) (PS : list Z) (BS : list bid) (HP : list Z) (HB : list bid) (m : mem) : Prop := {
  ev_next : 0 <= m_next_generation m0 <= m_next_generation m /\ m_next_generation m < 2 ^ 64;
  ev_allocs : (m_allocs m0 <= m_allocs m)%nat;
  ev_pages a : a ∉ PS -> page_kept m0 m a;
  ev_backings b : b ∉ BS -> backing_kept m0 m b;
  ev_new_pages a p : a ∈ HP -> m_pages m !! a = Some p -> m_next_generation m0 < p_generation p;
  ev_new_backings b bk : b ∈ HB -> m_backings m !! b = Some bk ->
    (m_allocs m0 <= b)%nat \/ m_next_generation m0 < b_generation bk }.

Definition evolves (m0 m : mem) : Prop := ev m0 [] [] [] [] m.

Lemma evolves_refl m : 0 <= m_next_generation m < 2 ^ 64 -> evolves m m.
Proof.
  intros Hm. split; try (lia || set_solver).
  - intros a _ p Hp. right. eauto.
  - intros b _ bk Hb. right; right. eauto.
Qed.

Lemma evolves_trans m1 m2 m3 : evolves m1 m2 -> evolves m2 m3 -> evolves m1 m3.
Proof.
  intros H1 H2. pose proof (ev_next _ _ _ _ _ _ H1). pose proof (ev_next _ _ _ _ _ _ H2).
  pose proof (ev_allocs _ _ _ _ _ _ H1). pose proof (ev_allocs _ _ _ _ _ _ H2).
  split; try (lia || set_solver).
  - intros a _ p Hp. destruct (ev_pages _ _ _ _ _ _ H2 a ltac:(set_solver) p Hp) as [|(p2 & Hp2 & Hg & Hb)]; [left; lia|].
    destruct (ev_pages _ _ _ _ _ _ H1 a ltac:(set_solver) p2 Hp2) as [|(p1 & ? & ? & ?)]; [left; lia|].
    right. exists p1. split_and!; [done|congruence|congruence].
  - intros b _ bk Hk. destruct (ev_backings _ _ _ _ _ _ H2 b ltac:(set_solver) bk Hk) as [|[|(bk2 & Hk2 & Hg & Hb)]];
      [left; lia|right; left; lia|].
    destruct (ev_backings _ _ _ _ _ _ H1 b ltac:(set_solver) bk2 Hk2) as [|[|(bk1 & ? & ? & ?)]];
      [by left|right; left; lia|].
    right; right. exists bk1. split_and!; [done|congruence|congruence].
Qed.

(** The assertions are monotone in their lists. *)
Lemma ev_weaken m0 PS BS HP HB PS' BS' HP' HB' m :
  PS ⊆ PS' -> BS ⊆ BS' -> HP' ⊆ HP -> HB' ⊆ HB -> ev m0 PS BS HP HB m -> ev m0 PS' BS' HP' HB' m.
Proof.
  intros H1 H2 H3 H4 []. split; try done.
  - intros a Ha. auto.
  - intros b Hb. auto.
  - intros a p Ha. eauto.
  - intros b bk Hb. eauto.
Qed.

(** ** The primitive steps *)

Section steps.
Context (m0 : mem) (PS : list Z) (BS : list bid) (HP : list Z) (HB : list bid).
Notation I := (ev m0 PS BS HP HB).

Lemma stable_deref_page a : stable I (deref_page a).
Proof. apply stable_keeps. auto with gem. Qed.

Lemma stable_deref_backing b : stable I (deref_backing b).
Proof. apply stable_keeps. auto with gem. Qed.

Lemma stable_get : stable I get.
Proof. apply stable_keeps. auto with gem. Qed.

Lemma bump_partial : partial I bump_generation (fun g m => I m /\ m_next_generation m0 < g).
Proof.
  intros m g m' Hm H. unfold bump_generation, mbind, M_bind, get, put, abort in H.
  pose proof (ev_next _ _ _ _ _ _ Hm). pose proof (Z.mod_pos_bound (m_next_generation m + 1) (2 ^ 64) ltac:(lia)).
  destruct (Z.eqb_spec (wrap64 (m_next_generation m + 1)) 0) as [|Hnz]; [done|].
  assert (wrap64 (m_next_generation m + 1) = m_next_generation m + 1) as Hw.
  { unfold wrap64 in *. destruct (Z.eq_dec (m_next_generation m + 1) (2 ^ 64)) as [E|].
    - exfalso. apply Hnz. rewrite E. by rewrite Z.mod_same.
    - apply Z.mod_small. lia. }
  injection H as <- <-. rewrite Hw in *. destruct Hm as [? ? Hps Hbs Hnp Hnb]. split; [|lia].
  split; cbn; try done. split; [lia|]. unfold wrap64 in Hw. lia.
Qed.

Lemma stable_bump : stable I bump_generation.
Proof. eapply partial_conseq; [apply bump_partial|done|by intros g m [? _]]. Qed.

(** A page record that keeps what the relation looks at, or that may not. *)
Lemma ev_set_page m a p q :
  I m -> m_pages m !! a = Some q ->
  (a ∈ PS \/ p_backing p = p_backing q /\ p_generation p = p_generation q \/
   m_next_generation m0 < p_generation p) ->
  (p_generation p = p_generation q \/ m_next_generation m0 < p_generation p) ->
  I (set_pages m (<[a := p]> (m_pages m))).
Proof.
  intros [Hn Ha Hps Hbs Hnp Hnb] Hq H1 H2. split; try done.
  - intros x Hx p' Hp'. cbn in Hp'. destruct (decide (a = x)) as [<-|].
    + rewrite lookup_insert_eq in Hp'. injection Hp' as <-.
      destruct H1 as [|[[Hb Hg]|]]; [done| |by left].
      destruct (Hps a Hx q Hq) as [|(p0 & ? & ? & ?)]; [left; lia|].
      right. exists p0. split_and!; [done|congruence|congruence].
    + rewrite lookup_insert_ne in Hp' by done. by apply Hps.
  - intros x p' Hx Hp'. cbn in Hp'. destruct (decide (a = x)) as [<-|].
    + rewrite lookup_insert_eq in Hp'. injection Hp' as <-.
      destruct H2 as [->|]; [by eapply Hnp|done].
    + rewrite lookup_insert_ne in Hp' by done. by eapply Hnp.
Qed.

Lemma modify_page_cases a f m u m' :
  modify_page a f m = Ok (u, m') ->
  exists p, m_pages m !! a = Some p /\ m' = set_pages m (<[a := f p]> (m_pages m)).
Proof.
  unfold modify_page, deref_page, put_page, mbind, M_bind, get, put, at_.
  destruct (m_pages m !! a) as [p|]; [|done]. intros [= _ <-]. eauto.
Qed.

Lemma stable_modify_same a f :
  (forall p, p_backing (f p) = p_backing p /\ p_generation (f p) = p_generation p) ->
  stable I (modify_page a f).
Proof.
  intros Hf m u m' Hm (p & Hp & ->)%modify_page_cases. destruct (Hf p).
  eapply ev_set_page; [done|exact Hp|by right; left|by left].
Qed.

Lemma stable_modify_any a f :
  a ∈ PS \/ a ∈ HP -> (forall p, p_generation (f p) = p_generation p) -> stable I (modify_page a f).
Proof.
  intros Ha Hf m u m' Hm (p & Hp & ->)%modify_page_cases.
  eapply ev_set_page; [done|exact Hp| |by left].
  destruct Ha as [Ha|Ha]; [by left|]. right; right. rewrite Hf. by eapply ev_new_pages.
Qed.

Lemma ev_set_backing m b bk bk' :
  I m -> m_backings m !! b = Some bk' -> b_generation bk = b_generation bk' ->
  (b_data bk = b_data bk' \/ b ∈ BS \/ b ∈ HB) ->
  I (set_backings m (<[b := bk]> (m_backings m))).
Proof.
  intros [Hn Ha Hps Hbs Hnp Hnb] Hq Hg Hd. split; try done.
  - intros x Hx p' Hp'. cbn in Hp'. destruct (decide (b = x)) as [<-|].
    + rewrite lookup_insert_eq in Hp'. injection Hp' as <-. rewrite Hg.
      destruct Hd as [Hd|[|Hh]]; [|done|destruct (Hnb b bk' Hh Hq); auto].
      destruct (Hbs b Hx bk' Hq) as [|[|(bk0 & ? & ? & ?)]]; [by left|by right; left|].
      right; right. exists bk0. split_and!; [done|congruence|congruence].
    + rewrite lookup_insert_ne in Hp' by done. by apply Hbs.
  - intros x p' Hx Hp'. cbn in Hp'. destruct (decide (b = x)) as [<-|].
    + rewrite lookup_insert_eq in Hp'. injection Hp' as <-. rewrite Hg. by eapply Hnb.
    + rewrite lookup_insert_ne in Hp' by done. by eapply Hnb.
Qed.

Lemma deref_backing_cases o m r m' :
  deref_backing o m = Ok (r, m') -> o = Some r.1 /\ m' = m /\ m_backings m !! r.1 = Some r.2.
Proof.
  unfold deref_backing, mbind, M_bind, get. destruct o as [b|]; [|done].
  destruct (m_backings m !! b) as [bk|] eqn:E; [|done]. intros [= <- <-]. by cbn.
Qed.

Lemma stable_add_ref b : stable I (add_ref b).
Proof.
  intros m u m' Hm H. unfold add_ref in H. apply bind_run in H as ([c bk] & m1 & H1 & H).
  apply deref_backing_cases in H1 as (_ & -> & Hbk). injection H as _ <-.
  eapply ev_set_backing; [done|exact Hbk|done|by left].
Qed.

Lemma stable_drop b : stable I (drop_backing b).
Proof.
  destruct b as [b|]; cbn; [|apply stable_ret]. intros m u m' Hm H.
  apply bind_run in H as ([c bk] & m1 & H1 & H). apply deref_backing_cases in H1 as (_ & -> & Hbk).
  unfold mbind, M_bind, get, put in H. cbn [fst snd] in *. destruct (b_refs bk - 1 =? 0); injection H as _ <-.
  - destruct Hm as [Hn Ha Hps Hbs Hnp Hnb]. split; try done.
    + intros x Hx p' Hp'. cbn in Hp'. apply lookup_delete_Some in Hp' as [_ ?]. by apply Hbs.
    + intros x p' Hx Hp'. cbn in Hp'. apply lookup_delete_Some in Hp' as [_ ?]. by eapply Hnb.
  - eapply ev_set_backing; [done|exact Hbk|done|by left].
Qed.

Lemma stable_store (b : bid) off src : b ∈ BS \/ b ∈ HB -> stable I (store_backing (Some b) off src).
Proof.
  intros Hb m u m' Hm H. unfold store_backing in H. apply bind_run in H as ([c bk] & m1 & H1 & H).
  apply deref_backing_cases in H1 as ([= ->] & -> & Hbk). cbn [fst snd] in *.
  unfold mbind, M_bind, get, put, put_backing in H. destruct (b_data bk); injection H as _ <-.
  - eapply ev_set_backing; [done|exact Hbk|done|by right].
  - by destruct Hm.
Qed.
End steps.

(** Touching a page or a backing settles it. *)
Lemma touch_page_partial m0 PS BS HP HB a :
  partial (ev m0 (a :: PS) BS HP HB) (touch_page a) (fun _ => ev m0 PS BS (a :: HP) HB).
Proof.
  intros m u m' Hm H. unfold touch_page in H. apply bind_run in H as (g & m1 & H1 & H).
  apply (bump_partial _ _ _ _ _ _ _ _ Hm) in H1 as [[Hn Ha Hps Hbs Hnp Hnb] Hg].
  apply modify_page_cases in H as (p & Hp & ->). split; try done.
  - intros x Hx p' Hp'. cbn in Hp'. destruct (decide (a = x)) as [<-|].
    + rewrite lookup_insert_eq in Hp'. injection Hp' as <-. by left.
    + rewrite lookup_insert_ne in Hp' by done. apply Hps; [set_solver|done].
  - intros x p' Hx Hp'. cbn in Hp'. destruct (decide (a = x)) as [<-|].
    + rewrite lookup_insert_eq in Hp'. by injection Hp' as <-.
    + rewrite lookup_insert_ne in Hp' by done. apply (Hnp x p'); [set_solver|done].
Qed.

Lemma touch_backing_partial m0 PS BS HP HB b :
  partial (ev m0 PS (b :: BS) HP HB) (touch_backing (Some b)) (fun _ => ev m0 PS BS HP (b :: HB)).
Proof.
  intros m u m' Hm H. unfold touch_backing in H. apply bind_run in H as (g & m1 & H1 & H).
  apply (bump_partial _ _ _ _ _ _ _ _ Hm) in H1 as [[Hn Ha Hps Hbs Hnp Hnb] Hg].
  apply bind_run in H as ([c bk] & m2 & H1 & H). apply deref_backing_cases in H1 as ([= ->] & -> & Hbk).
  injection H as _ <-. cbn [fst snd] in *. split; try done.
  - intros x Hx p' Hp'. cbn in Hp'. destruct (decide (c = x)) as [<-|].
    + rewrite lookup_insert_eq in Hp'. injection Hp' as <-. by right; left.
    + rewrite lookup_insert_ne in Hp' by done. apply Hbs; [set_solver|done].
  - intros x p' Hx Hp'. cbn in Hp'. destruct (decide (c = x)) as [<-|].
    + rewrite lookup_insert_eq in Hp'. injection Hp' as <-. by right.
    + rewrite lookup_insert_ne in Hp' by done. apply (Hnb x p'); [set_solver|done].
Qed.

Lemma stable_touch_page m0 PS BS HP HB a : stable (ev m0 PS BS HP HB) (touch_page a).
Proof.
  eapply partial_conseq; [apply (touch_page_partial m0 PS BS HP HB a)| |].
  - intros m. apply ev_weaken; set_solver.
  - intros u m. apply ev_weaken; set_solver.
Qed.

Lemma stable_touch_backing m0 PS BS HP HB b : stable (ev m0 PS BS HP HB) (touch_backing b).
Proof.
  destruct b as [b|].
  - eapply partial_conseq; [apply (touch_backing_partial m0 PS BS HP HB b)| |].
    + intros m. apply ev_weaken; set_solver.
    + intros u m. apply ev_weaken; set_solver.
  - intros m u m' _ H. unfold touch_backing in H. apply bind_run in H as (g & m1 & _ & H). done.
Qed.

#[export] Hint Resolve stable_ret stable_fault stable_deref_page stable_deref_backing stable_get
  stable_bump stable_add_ref stable_drop stable_touch_page stable_touch_backing : gem.
#[export] Hint Extern 1 (stable _ (modify_page _ _)) => apply stable_modify_same; by intros : gem.

(** Walk a program down to its primitive steps. *)
Ltac stable_step :=
  first
  [ solve [eauto with gem]
  | apply stable_bind; [|intros ?]
  | apply stable_for_each; intros ? ?
  | match goal with |- context [match ?x with _ => _ end] => destruct x end ].
Ltac solve_stable := repeat stable_step.

Section operations.
Context {platform : Platform}.

Lemma alloc_partial m0 PS BS HP HB :
  partial (ev m0 PS BS HP HB) alloc (fun r m => ev m0 PS BS HP HB m /\
    forall i g, r = Some (i, g) -> (m_allocs m0 <= i)%nat).
Proof.
  intros m r m' [Hn Ha Hps Hbs Hnp Hnb] H. injection H as <- <-. split.
  - split; cbn; try done. lia.
  - intros i g H. destruct (allocation (m_allocs m)); [|done]. injection H as <- _. lia.
Qed.

Lemma stable_alloc m0 PS BS HP HB : stable (ev m0 PS BS HP HB) alloc.
Proof. eapply partial_conseq; [apply alloc_partial|done|by intros r m [? _]]. Qed.

Lemma ev_new_backing m0 PS BS HP HB m b bk :
  ev m0 PS BS HP HB m -> (m_allocs m0 <= b)%nat ->
  ev m0 PS BS HP (b :: HB) (set_backings m (<[b := bk]> (m_backings m))).
Proof.
  intros [Hn Ha Hps Hbs Hnp Hnb] Hb. split; try done.
  - intros x Hx p' Hp'. cbn in Hp'. destruct (decide (b = x)) as [<-|]; [by left|].
    rewrite lookup_insert_ne in Hp' by done. by apply Hbs.
  - intros x p' Hx Hp'. cbn in Hp'. destruct (decide (b = x)) as [<-|]; [by left|].
    rewrite lookup_insert_ne in Hp' by done. apply (Hnb x p'); [set_solver|done].
Qed.

Lemma new_backing_partial m0 PS BS HP HB d :
  partial (ev m0 PS BS HP HB) (new_backing d) (fun r m =>
    match r with None => ev m0 PS BS HP HB m | Some b => ev m0 PS BS HP (b :: HB) m end).
Proof.
  unfold new_backing. eapply partial_bind; [apply alloc_partial|]. intros [[b junk]|]; cbv beta iota.
  2:{ apply partial_ret. by intros m [? _]. }
  assert (forall s m u m', ev m0 PS BS HP HB m -> (m_allocs m0 <= b)%nat ->
    (put_backing b (Backing s 1 junk);; mret (Some b)) m = Ok (u, m') ->
    match u with None => ev m0 PS BS HP HB m' | Some b => ev m0 PS BS HP (b :: HB) m' end) as Hput.
  { intros s m u m' Hm Hb H. injection H as <- <-. by apply ev_new_backing. }
  destruct d as [h|].
  - intros m u m' [Hm Hb] H. eapply Hput; [exact Hm|by eapply Hb|exact H].
  - intros m u m' [Hm Hb] H. apply bind_run in H as (r & m1 & H1 & H).
    apply (stable_alloc _ _ _ _ _ _ _ _ Hm) in H1. destruct r; [|by injection H as <- <-].
    eapply Hput; [exact H1|by eapply Hb|exact H].
Qed.

Lemma stable_new_backing m0 PS BS HP HB d : stable (ev m0 PS BS HP HB) (new_backing d).
Proof.
  eapply partial_conseq; [apply new_backing_partial|done|]. intros [b|] m; [|done].
  apply ev_weaken; set_solver.
Qed.
Hint Resolve stable_alloc stable_new_backing : gem.

Section ev.
Context (m0 : mem) (PS : list Z) (BS : list bid) (HP : list Z) (HB : list bid).
Notation I := (ev m0 PS BS HP HB).

(** A page changes at will and is then touched. *)
Lemma settle_page {A} a (f : M A) :
  partial (ev m0 (a :: PS) BS HP HB) f (fun _ => ev m0 (a :: PS) BS HP HB) ->
  stable I (f;; touch_page a).
Proof.
  intros Hf. eapply partial_bind.
  - eapply partial_conseq; [exact Hf| |intros ? ? HQ; exact HQ]. intros m. apply ev_weaken; set_solver.
  - intros u. eapply partial_conseq; [apply touch_page_partial|done|].
    intros v m. apply ev_weaken; set_solver.
Qed.

End ev.

Lemma deref_page_cases a m p m' :
  deref_page a m = Ok (p, m') -> m' = m /\ m_pages m !! a = Some p.
Proof.
  unfold deref_page, mbind, M_bind, get, at_. destruct (m_pages m !! a); [|done].
  by intros [= <- <-].
Qed.

Lemma stable_commit_page m0 PS BS HP HB a prot b : stable (ev m0 PS BS HP HB) (commit_page a prot b).
Proof.
  intros m u m' Hm H. unfold commit_page in H. apply bind_run in H as (p & m1 & H1 & H).
  apply deref_page_cases in H1 as [-> Hp]. apply bind_run in H as (v & m1 & H1 & H).
  eapply ev_weaken; [..|eapply (touch_page_partial m0 PS BS HP HB a); [|exact H]]; try set_solver.
  assert (ev m0 (a :: PS) BS HP HB m) as Hm' by (revert Hm; apply ev_weaken; set_solver).
  destruct (p_backing p); injection H1 as _ <-;
    (eapply ev_set_page; [exact Hm'|exact Hp|left; set_solver|by left]).
Qed.

Lemma stable_commit_backings m0 PS BS HP HB a os bs :
  stable (ev m0 PS BS HP HB) (commit_backings a os bs).
Proof.
  revert bs. induction os as [|o os IH]; intros bs; cbn [commit_backings]; solve_stable.
Qed.

Lemma stable_commit_external_backings m0 PS BS HP HB a h os bs :
  stable (ev m0 PS BS HP HB) (commit_external_backings a h os bs).
Proof.
  revert bs. induction os as [|o os IH]; intros bs; cbn [commit_external_backings]; solve_stable.
Qed.
Hint Resolve stable_commit_page stable_commit_backings stable_commit_external_backings : gem.

Lemma stable_commit_locked m0 PS BS HP HB a n prot :
  stable (ev m0 PS BS HP HB) (commit_locked a n prot).
Proof. unfold commit_locked. solve_stable. Qed.

Lemma stable_commit_external_locked m0 PS BS HP HB a h n prot id :
  stable (ev m0 PS BS HP HB) (commit_external_locked a h n prot id).
Proof. unfold commit_external_locked. solve_stable. Qed.

Lemma stable_decommit_locked m0 PS BS HP HB a n :
  stable (ev m0 PS BS HP HB) (decommit_locked a n).
Proof.
  unfold decommit_locked. apply stable_bind; [auto with gem|]. intros m.
  destruct (check m a n false); try (solve_stable; fail).
  apply stable_bind; [|intros; auto with gem]. apply stable_for_each. intros o _.
  apply stable_bind; [auto with gem|]. intros p. apply stable_bind; [auto with gem|]. intros _.
  apply settle_page. apply stable_modify_any; [left; set_solver|done].
Qed.

Lemma stable_protect_locked m0 PS BS HP HB a n prot old :
  stable (ev m0 PS BS HP HB) (protect_locked a n prot old).
Proof. unfold protect_locked. solve_stable. Qed.

Lemma stable_remove_pages m0 PS BS HP HB a n : stable (ev m0 PS BS HP HB) (remove_pages a n).
Proof.
  unfold remove_pages. apply stable_bind; [auto with gem|]. intros m. apply stable_for_each.
  intros [x p] _. destruct (_ && _); [|auto with gem].
  intros m1 u m2 Hm H. apply bind_run in H as (m1' & m1'' & [= <- <-] & H).
  apply bind_run in H as (v & m3 & [= <- <-] & H). eapply stable_drop; [|exact H].
  destruct Hm as [Hn Ha Hps Hbs Hnp Hnb]. split; try done.
  - intros y Hy q Hq. cbn in Hq. apply lookup_delete_Some in Hq as [_ Hq]. by apply Hps.
  - intros y q Hy Hq. cbn in Hq. apply lookup_delete_Some in Hq as [_ Hq]. by apply (Hnp y).
Qed.
Hint Resolve stable_remove_pages : gem.

Lemma stable_release_locked m0 PS BS HP HB a n : stable (ev m0 PS BS HP HB) (release_locked a n).
Proof. unfold release_locked. solve_stable. Qed.

Lemma stable_unmap_locked m0 PS BS HP HB a n : stable (ev m0 PS BS HP HB) (unmap_locked a n).
Proof. unfold unmap_locked. solve_stable. Qed.

(** ** New pages *)

Lemma reserve_pages_partial m0 PS BS HP HB b n os head :
  Forall (fun x => m_next_generation m0 < p_generation x.2) head ->
  partial (ev m0 PS BS HP HB) (reserve_pages b n os head) (fun r m => ev m0 PS BS HP HB m /\
    forall l, r = Some l -> Forall (fun x => m_next_generation m0 < p_generation x.2) l /\
      (fun o => b + o) <$> os ⊆ l.*1 /\ head.*1 ⊆ l.*1).
Proof.
  revert head. induction os as [|o os IH]; intros head Hh; cbn [reserve_pages].
  { apply partial_ret. intros m Hm. split; [done|]. intros l [= <-]. set_solver. }
  eapply partial_bind; [apply stable_alloc|]. intros [r|]; [|by apply partial_ret].
  eapply partial_bind; [apply bump_partial|]. intros g. intros m u m' [Hm Hg] H.
  eapply IH in H; [|constructor; [exact Hg|done]|done]. destruct H as [? H]. split; [done|].
  intros l Hl. destruct (H l Hl) as (? & ? & ?). split; [done|]. cbn in *. set_solver.
Qed.

Lemma publish_partial m0 PS BS HP HB head :
  Forall (fun x => m_next_generation m0 < p_generation x.2) head ->
  partial (ev m0 PS BS HP HB) (publish head) (fun _ => ev m0 PS BS (head.*1 ++ HP) HB).
Proof.
  unfold publish. revert HP. induction head as [|[a p] head IH]; intros HP Hh; cbn [for_each].
  { by apply partial_ret. }
  apply Forall_cons in Hh as [Hp Hh]. cbn in Hp.
  eapply partial_bind; [|intros u; eapply partial_conseq; [apply (IH (a :: HP) Hh)|intros m HQ; exact HQ|]].
  - intros m u m' [Hn Ha Hps Hbs Hnp Hnb] H. injection H as _ <-. split; try done.
    + intros y Hy q Hq. cbn in Hq. destruct (decide (a = y)) as [<-|].
      * rewrite lookup_insert_eq in Hq. injection Hq as <-. by left.
      * rewrite lookup_insert_ne in Hq by done. by apply Hps.
    + intros y q Hy Hq. cbn in Hq. destruct (decide (a = y)) as [<-|].
      * rewrite lookup_insert_eq in Hq. by injection Hq as <-.
      * rewrite lookup_insert_ne in Hq by done. apply (Hnp y); [set_solver|done].
  - intros v m. apply ev_weaken; set_solver.
Qed.

Lemma stable_publish m0 PS BS HP HB head :
  Forall (fun x => m_next_generation m0 < p_generation x.2) head ->
  stable (ev m0 PS BS HP HB) (publish head).
Proof.
  intros Hh. eapply partial_conseq; [by apply publish_partial|done|].
  intros u m. apply ev_weaken; set_solver.
Qed.

(** The pages of a new reservation are newer than any earlier state. *)
Lemma reserve_locked_partial m0 PS BS HP HB a n :
  partial (ev m0 PS BS HP HB) (reserve_locked a n) (fun r m =>
    match r with
    | (GEM_MEMORY_OK, Some b) => ev m0 PS BS (((fun o => b + o) <$> page_range 0 n) ++ HP) HB m
    | (GEM_MEMORY_OK, None) => False
    | _ => ev m0 PS BS HP HB m
    end).
Proof.
  unfold reserve_locked. destruct a as [a|]; [|by apply partial_ret].
  destruct (_ || _); [by apply partial_ret|].
  eapply partial_bind; [apply stable_get|]. intros m1.
  apply (partial_bind _ (fun _ => ev m0 PS BS HP HB)).
  { destruct (a =? 0); [|by apply partial_ret]. destruct (search _ _ _ _); [by apply partial_ret|done]. }
  intros b. destruct (negb _); [by apply partial_ret|]. destruct (existsb _ _); [by apply partial_ret|].
  eapply partial_bind; [apply reserve_pages_partial; constructor|]. intros [head|]; cbv beta.
  2:{ apply partial_ret. by intros m [? _]. }
  intros m r m' [Hm Hh] H. destruct (Hh head eq_refl) as (Hf & Hin & _).
  apply bind_run in H as (u & m2 & H1 & [= <- <-]).
  eapply publish_partial in H1; [|done|done]. revert H1. apply ev_weaken; set_solver.
Qed.

Lemma stable_reserve_locked m0 PS BS HP HB a n : stable (ev m0 PS BS HP HB) (reserve_locked a n).
Proof.
  eapply partial_conseq; [apply reserve_locked_partial|done|].
  intros [[] [b|]] m; try done. apply ev_weaken; set_solver.
Qed.

Lemma alias_pages_partial m0 PS BS HP HB a s n prot os head :
  Forall (fun x => m_next_generation m0 < p_generation x.2) head ->
  partial (ev m0 PS BS HP HB) (alias_pages a s n prot os head) (fun r m => ev m0 PS BS HP HB m /\
    forall l, r = Some l -> Forall (fun x => m_next_generation m0 < p_generation x.2) l).
Proof.
  revert head. induction os as [|o os IH]; intros head Hh; cbn [alias_pages].
  { apply partial_ret. intros m Hm. split; [done|]. by intros l [= <-]. }
  eapply partial_bind; [apply stable_alloc|]. intros [r|].
  - eapply partial_bind; [apply stable_deref_page|]. intros p.
    eapply partial_bind; [apply stable_add_ref|]. intros u.
    eapply partial_bind; [apply bump_partial|]. intros g. intros m v m' [Hm Hg] H.
    by eapply IH in H; [|constructor; [exact Hg|done]|done].
  - apply (partial_bind _ (fun _ => ev m0 PS BS HP HB)); [|intros u; by apply partial_ret].
    apply stable_for_each. intros [x p] _. auto with gem.
Qed.

Lemma stable_alias_locked m0 PS BS HP HB a s n prot :
  stable (ev m0 PS BS HP HB) (alias_locked a s n prot).
Proof.
  unfold alias_locked. destruct (_ || _); [auto with gem|].
  apply stable_bind; [auto with gem|]. intros m. destruct (check m s n true); try (solve_stable; fail).
  destruct (existsb _ _); [auto with gem|].
  eapply partial_bind; [apply alias_pages_partial; constructor|]. intros [head|]; cbv beta.
  2:{ apply partial_ret. by intros m1 [? _]. }
  intros m1 r m2 [Hm Hh] H. apply bind_run in H as (u & m3 & H1 & [= <- <-]).
  by eapply stable_publish in H1; [|by apply Hh|done].
Qed.

Lemma stable_map_identity_pages m0 PS BS HP HB a h prot os :
  (forall o, o ∈ os -> a + o ∈ HP) -> stable (ev m0 PS BS HP HB) (map_identity_pages a h prot os).
Proof.
  induction os as [|o os IH]; intros Ho; cbn [map_identity_pages]; [auto with gem|].
  apply stable_bind; [auto with gem|]. intros p. apply stable_bind; [auto with gem|]. intros b.
  apply stable_bind; [apply stable_modify_any; [right; apply Ho; set_solver|done]|]. intros _.
  destruct b; [|auto with gem]. apply stable_bind; [auto with gem|]. intros _.
  apply stable_bind; [auto with gem|]. intros _. apply IH. set_solver.
Qed.

Lemma stable_map_identity_locked m0 PS BS HP HB a h n prot :
  stable (ev m0 PS BS HP HB) (map_identity_locked a h n prot).
Proof.
  unfold map_identity_locked. destruct (_ || _); [auto with gem|].
  eapply partial_bind; [apply reserve_locked_partial|]. intros [e a']; cbv beta iota.
  destruct e; try (apply partial_ret; by intros m).
  destruct a' as [b|]; [|done]. cbn [default].
  eapply partial_conseq with (P' := ev m0 PS BS (((fun o => b + o) <$> page_range 0 n) ++ HP) HB)
    (Q' := fun _ => ev m0 PS BS (((fun o => b + o) <$> page_range 0 n) ++ HP) HB);
    [|done|intros r m; apply ev_weaken; set_solver].
  apply stable_bind.
  - apply stable_map_identity_pages. intros o Ho. apply elem_of_app. left.
    by apply (list_elem_of_fmap_2 (fun o => b + o)).
  - intros [|]; [auto with gem|]. apply stable_bind; [apply stable_release_locked|]. auto with gem.
Qed.

(** ** The KUSER pages and data access *)

Lemma stable_bind_kuser_locked m0 PS BS HP HB h :
  stable (ev m0 PS BS HP HB) (bind_kuser_locked h).
Proof.
  unfold bind_kuser_locked. destruct (_ || _); [auto with gem|].
  apply stable_bind; [auto with gem|]. intros m1.
  destruct (at_ m1 GEM_KUSER_CANONICAL_ADDRESS) as [canonical|],
    (at_ m1 GEM_KUSER_SHARED_DATA_ADDRESS) as [alias|]; try (auto with gem; fail).
  destruct (_ || _); [auto with gem|].
  eapply partial_bind; [apply new_backing_partial|]. intros [b|]; cbv beta iota; [|by apply partial_ret].
  intros m r m' Hm H. apply bind_run in H as ([i bk] & m2 & H1 & H).
  apply deref_backing_cases in H1 as ([= ->] & -> & Hbk). cbn [fst snd] in *.
  apply bind_run in H as (u & m2 & H1 & H).
  set (c := GEM_KUSER_CANONICAL_ADDRESS) in *. set (s := GEM_KUSER_SHARED_DATA_ADDRESS) in *.
  assert (ev m0 (c :: s :: PS) BS HP (i :: HB) m2) as Hm2.
  { injection H1 as _ <-. eapply ev_set_backing; [|exact Hbk|done|by left].
    revert Hm. apply ev_weaken; set_solver. }
  clear H1 Hm. revert m2 r m' Hm2 H.
  apply (partial_bind _ (fun _ => ev m0 (c :: s :: PS) BS HP (i :: HB))); [|intros ?].
  { apply stable_modify_any; [left; set_solver|done]. }
  eapply partial_bind; [apply stable_modify_any; [left; set_solver|done]|intros ?].
  eapply partial_bind; [apply touch_page_partial|intros ?].
  eapply partial_bind; [apply touch_page_partial|intros ?].
  eapply partial_conseq with (P' := ev m0 PS BS (s :: c :: HP) (i :: HB))
    (Q' := fun _ => ev m0 PS BS (s :: c :: HP) (i :: HB)); [|done|].
  2:{ intros v m9. apply ev_weaken; set_solver. }
  apply stable_bind; [auto with gem|intros ?]. apply stable_bind; [auto with gem|intros ?].
  auto with gem.
Qed.

Lemma stable_make_copies m0 PS BS HP HB ks cs :
  stable (ev m0 PS BS HP HB) (make_copies ks cs).
Proof.
  revert HB cs. induction ks as [|k ks IH]; intros HB cs; cbn [make_copies]; [auto with gem|].
  apply stable_bind; [auto with gem|]. intros p. apply stable_bind; [auto with gem|]. intros [i bk].
  destruct (_ && _); [|apply IH].
  eapply partial_bind; [apply new_backing_partial|]. intros [c|]; cbv beta iota; [|by apply partial_ret].
  eapply partial_conseq with (P' := ev m0 PS BS HP (c :: HB)) (Q' := fun _ => ev m0 PS BS HP (c :: HB));
    [|done|intros r m; apply ev_weaken; set_solver].
  apply stable_bind; [auto with gem|]. intros m.
  apply stable_bind; [apply stable_store; right; set_solver|]. intros u. apply IH.
Qed.

Lemma stable_detach_page m0 PS BS HP HB k c : stable (ev m0 PS BS HP HB) (detach_page k c).
Proof.
  unfold detach_page. destruct c as [c|].
  - apply stable_bind; [auto with gem|]. intros p. apply stable_bind; [auto with gem|]. intros u.
    apply settle_page. apply stable_modify_any; [left; set_solver|done].
  - intros m u m' Hm H. apply bind_run in H as (p & m1 & H1 & H). apply deref_page_cases in H1 as [-> Hp].
    apply bind_run in H as ([i bk] & m1 & H1 & H). apply deref_backing_cases in H1 as (_ & -> & _).
    destruct (_ && _); [|by injection H as _ <-]. injection H as _ <-.
    eapply ev_set_page; [done|exact Hp|by right; left|by left].
Qed.

(** A store followed by the touch of its backing. *)
Lemma stable_store_touch m0 PS BS HP HB b off src :
  stable (ev m0 PS BS HP HB) (store_backing b off src;; touch_backing b).
Proof.
  destruct b as [b|].
  2:{ intros m u m' _ H. apply bind_run in H as (v & m1 & H1 & _). done. }
  eapply partial_bind.
  - eapply partial_conseq; [apply (stable_store m0 PS (b :: BS) HP HB b off src); left; set_solver| |].
    + intros m. apply ev_weaken; set_solver.
    + intros u m HQ; exact HQ.
  - intros u. eapply partial_conseq; [apply touch_backing_partial|done|].
    intros v m. apply ev_weaken; set_solver.
Qed.

Lemma stable_transfer m0 PS BS HP HB w query ks b :
  stable (ev m0 PS BS HP HB) (transfer w query ks b).
Proof.
  revert b. induction ks as [|k ks IH]; intros b; cbn [transfer]; [auto with gem|].
  apply stable_bind; [auto with gem|]. intros p. destruct query; cbn [negb andb].
  { rewrite andb_false_r. apply stable_bind; [auto with gem|]. intros b'.
    apply stable_bind; [auto with gem|]. intros u. apply IH. }
  rewrite andb_true_r. destruct w.
  - destruct b as [buffer|]; [|by intros m r m' _ H].
    intros m r m' Hm H. apply bind_run in H as (b' & m1 & H1 & H).
    apply bind_run in H1 as (u1 & m2 & H1 & [= <- <-]).
    apply bind_run in H as (u2 & m3 & H2 & H). apply bind_run in H2 as (u3 & m4 & H2 & H3).
    eapply IH; [|exact H]. eapply stable_touch_page; [|exact H3].
    eapply stable_store_touch; [exact Hm|]. unfold mbind, M_bind. by rewrite H1.
  - apply stable_bind; [destruct b; solve_stable|]. intros b'.
    apply stable_bind; [auto with gem|]. intros u. apply IH.
Qed.
Hint Resolve stable_make_copies stable_detach_page stable_transfer : gem.

Lemma stable_access_memory_locked m0 PS BS HP HB a b n w x query cg :
  stable (ev m0 PS BS HP HB) (access_memory_locked a b n w x query cg).
Proof.
  unfold access_memory_locked. unfold access_pages. solve_stable.
Qed.

Lemma stable_peek_locked m0 PS BS HP HB a b n : stable (ev m0 PS BS HP HB) (peek_locked a b n).
Proof. unfold peek_locked. solve_stable. Qed.

Lemma locked_evolves {A} (d : A) (f : M A) m m' :
  (forall m0, stable (ev m0 [] [] [] []) f) -> 0 <= m_next_generation m < 2 ^ 64 ->
  effect (locked d f (Some m)) = Ok (Some m') -> evolves m m'.
Proof.
  intros Hf Hm. unfold effect, locked. destruct (f m) as [[r m1]| |] eqn:E; [|done|done].
  intros [= <-]. eapply Hf; [|exact E]. by apply evolves_refl.
Qed.

(** Every public call moves the history forward. *)
Lemma run_call_evolves c m m' :
  0 <= m_next_generation m < 2 ^ 64 -> run_call c (Some m) = Ok (Some m') -> evolves m m'.
Proof.
  intros Hm. destruct c; cbn [run_call]; apply locked_evolves; try done; intros m0;
    auto using stable_reserve_locked, stable_commit_locked, stable_commit_external_locked,
      stable_decommit_locked, stable_release_locked, stable_unmap_locked, stable_protect_locked,
      stable_alias_locked, stable_map_identity_locked, stable_bind_kuser_locked,
      stable_access_memory_locked, stable_peek_locked.
  apply stable_bind; [apply stable_access_memory_locked|]. intros [e b]. apply stable_ret.
Qed.
End operations.
