(* ===== verification/Transaction.v ===== *)
(** Transaction: the optimistic transactions of [src/gem/memory.c] lines 209-223
    and 898-1309.  A transaction is the list of pages it depends on; each
    dependency remembers the generations, protection and, for caller-owned
    bytes, the content hash it saw, and holds one reference to the backing.

    Every part between two lock operations is one definition.  [validate] and
    [commit_pages] are made of several of them; what other threads may do in
    between is bounded by the stripes they hold (Stripes).  The statistics of
    the time spent waiting for locks are left out. *)
From S2P Require Import Prelude MemoryModel Memory.

Definition GEM_MEMORY_TRANSACTION_PAGES : nat := 256.
Definition GEM_MEMORY_CACHE_LINE : Z := 64.
Definition GEM_MEMORY_MAX_WRITES : nat := 64.

Record transaction_page : Type := TransactionPage {
  t_address : Z;
  t_generation : Z;
  t_content_generation : Z;
  t_content_hash : Z;
  t_backing : bid;
  t_protection : Z;
  t_external : bool }.

#[export] Instance transaction_page_eq_dec : EqDecision transaction_page.
Proof. solve_decision. Defined.

(** [pages] up to [page_count]. *)
Notation gem_memory_transaction := (list transaction_page).

(** [struct gem_memory_page_write]; [None] is a NULL [data]. *)
Record gem_memory_page_write : Type := PageWrite {
  w_address : Z;
  w_data : option (list Z) }.

(** The first dependency on the page, with its index. *)
Definition find_dependency (t : gem_memory_transaction) (a : Z) : option (nat * transaction_page) :=
  list_find (fun d => t_address d = a) t.

(** [for (j ...) if (pages[j].address == a) f(&pages[j])] *)
Fixpoint update_dependencies (a : Z) (f : transaction_page -> M transaction_page)
    (t : gem_memory_transaction) : M gem_memory_transaction :=
  match t with
  | [] => mret []
  | d :: t =>
    d' ← (if t_address d =? a then f d else mret d);
    t' ← update_dependencies a f t;
    mret (d' :: t')
  end.

(** [page->backing->external ? content_hash(data) : 0] *)
Definition hash_of (bk : backing) (data : list Z) : Z :=
  if external bk then content_hash data else 0.

Definition new_dependency (a : Z) (p : page) (b : bid) (bk : backing) (data : list Z)
  : transaction_page :=
  TransactionPage a (p_generation p) (b_generation bk) (hash_of bk data) b
    (p_protection p) (external bk).

(** The comparison of a dependency with the page and backing it names now. *)
Definition differs (d : transaction_page) (p : page) (bk : backing) (data : list Z) : bool :=
  negb (p_generation p =? t_generation d) ||
  negb (b_generation bk =? t_content_generation d) ||
  negb (p_protection p =? t_protection d) ||
  (t_external d && negb (content_hash data =? t_content_hash d)).

Section operations.
Context {platform : Platform}.

(** [gem_memory_transaction_begin], for a non-NULL memory. *)
Definition gem_memory_transaction_begin : M (option gem_memory_transaction) :=
  r ← alloc; mret (match r with Some _ => Some [] | None => None end).

Definition gem_memory_transaction_end (t : option gem_memory_transaction) : M unit :=
  match t with
  | None => mret tt
  | Some t => for_each t (fun d => drop_backing (Some (t_backing d)))
  end.

(** ** Snapshots *)

(** The error, the transaction, and what was stored in [data] and
    [protection] (the macOS build). *)
Definition snapshot_locked (t : gem_memory_transaction) (a : Z)
  : M (gem_memory_error * gem_memory_transaction * option (list Z * Z)) :=
  m ← get;
  match at_ m a with
  | None => mret (GEM_MEMORY_NOT_RESERVED, t, None)
  | Some p =>
    match p_backing p with
    | None => mret (GEM_MEMORY_NOT_COMMITTED, t, None)
    | Some _ =>
      '(b, bk) ← deref_backing (p_backing p);
      if match b_data bk with
         | Host h => negb (external_range_accessible h 0 GEM_GUEST_PAGE_SIZE false)
         | Owned _ => false
         end
      then mret (GEM_MEMORY_NOT_COMMITTED, t, None)
      else
        let data := contents m bk in
        let out := Some (data, p_protection p) in
        match find_dependency t a with
        | None =>
          if bool_decide (length t = GEM_MEMORY_TRANSACTION_PAGES)
          then mret (GEM_MEMORY_NO_MEMORY, t, out)
          else
            add_ref (Some b);;
            mret (GEM_MEMORY_OK, t ++ [new_dependency a p b bk data], out)
        | Some (_, d) =>
          if negb (bool_decide (t_backing d = b)) || differs d p bk data
          then mret (GEM_MEMORY_CONFLICT, t, out)
          else mret (GEM_MEMORY_OK, t, out)
        end
    end
  end.

Definition gem_memory_transaction_snapshot_page (t : option gem_memory_transaction) (a : Z)
    (data protection : bool)
  : M (gem_memory_error * option gem_memory_transaction * option (list Z * Z)) :=
  match t with
  | None => mret (GEM_MEMORY_INVALID_ARGUMENT, None, None)
  | Some t =>
    if negb data || negb protection || has_bits a 4095
    then mret (GEM_MEMORY_INVALID_ARGUMENT, Some t, None)
    else '(e, t, out) ← snapshot_locked t a; mret (e, Some t, out)
  end.

(** ** Validation *)

(** The first critical section: a page not seen yet becomes a dependency. *)
Definition track_locked (t : gem_memory_transaction) (q : Z)
  : M (gem_memory_error * gem_memory_transaction) :=
  m ← get;
  match at_ m q with
  | None => mret (GEM_MEMORY_NOT_RESERVED, t)
  | Some p =>
    match p_backing p with
    | None => mret (GEM_MEMORY_NOT_COMMITTED, t)
    | Some _ =>
      '(b, bk) ← deref_backing (p_backing p);
      add_ref (Some b);;
      mret (GEM_MEMORY_OK, t ++ [new_dependency q p b bk (contents m bk)])
    end
  end.

(** The second one: a guarded dependency consumes the guard. *)
Definition consume_guard_locked (t : gem_memory_transaction) (q : Z) (i : nat)
    (d : transaction_page)
  : M (gem_memory_error * gem_memory_transaction) :=
  m ← get;
  match at_ m q with
  | None => mret (GEM_MEMORY_CONFLICT, t)
  | Some p =>
    if negb (bool_decide (p_backing p = Some (t_backing d))) ||
       negb (p_generation p =? t_generation d) || negb (p_protection p =? t_protection d)
    then mret (GEM_MEMORY_CONFLICT, t)
    else
      modify_page q strip_guard;;
      touch_page q;;
      p ← deref_page q;
      '(b, bk) ← deref_backing (p_backing p);
      m ← get;
      mret (GEM_MEMORY_GUARD_PAGE,
        <[i := TransactionPage (t_address d) (p_generation p) (t_content_generation d)
                 (hash_of bk (contents m bk)) (t_backing d) (p_protection p) (t_external d)]> t)
  end.

(** One round of the loop: [GEM_MEMORY_OK] goes on to the next page. *)
Definition validate_page (t : gem_memory_transaction) (q : Z) (w x : bool)
  : M (gem_memory_error * gem_memory_transaction) :=
  '(e, t) ← (match find_dependency t q with
             | Some _ => mret (GEM_MEMORY_OK, t)
             | None =>
               if bool_decide (length t = GEM_MEMORY_TRANSACTION_PAGES)
               then mret (GEM_MEMORY_NO_MEMORY, t)
               else track_locked t q
             end);
  if negb (bool_decide (e = GEM_MEMORY_OK)) then mret (e, t)
  else
    match find_dependency t q with
    | None => fault
    | Some (i, d) =>
      if negb (allowed (t_protection d) w x) then mret (GEM_MEMORY_ACCESS_DENIED, t)
      else if has_bits (t_protection d) GEM_PAGE_GUARD then consume_guard_locked t q i d
      else mret (GEM_MEMORY_OK, t)
    end.

Fixpoint validate_pages (t : gem_memory_transaction) (ks : list chunk) (w x : bool)
  : M (gem_memory_error * gem_memory_transaction) :=
  match ks with
  | [] => mret (GEM_MEMORY_OK, t)
  | k :: ks =>
    '(e, t) ← validate_page t (k_page k) w x;
    if bool_decide (e = GEM_MEMORY_OK) then validate_pages t ks w x else mret (e, t)
  end.

Definition gem_memory_transaction_validate (t : option gem_memory_transaction) (a n : Z)
    (w x : bool) : M (gem_memory_error * option gem_memory_transaction) :=
  match t with
  | None => mret (GEM_MEMORY_INVALID_ARGUMENT, None)
  | Some t =>
    if w && x then mret (GEM_MEMORY_INVALID_ARGUMENT, Some t)
    else if n =? 0 then mret (GEM_MEMORY_OK, Some t)
    else if UINT64_MAX - n <? a then mret (GEM_MEMORY_OVERFLOW, Some t)
    else '(e, t) ← validate_pages t (chunks (page_count a n) a n 0) w x; mret (e, Some t)
  end.

(** ** Conflict detection *)

(** Whether the page a dependency names has changed. *)
Definition changed (d : transaction_page) : M bool :=
  m ← get;
  match at_ m (t_address d) with
  | None => mret true
  | Some p =>
    if negb (bool_decide (p_backing p = Some (t_backing d))) then mret true
    else
      '(_, bk) ← deref_backing (p_backing p);
      mret (differs d p bk (contents m bk))
  end.

(** The address of the first dependency that has. *)
Fixpoint find_conflict (t : gem_memory_transaction) : M (option Z) :=
  match t with
  | [] => mret None
  | d :: t =>
    c ← changed d;
    if (c : bool) then mret (Some (t_address d)) else find_conflict t
  end.

(** The error and what is stored in [fault_address]. *)
Definition gem_memory_transaction_finish (t : option gem_memory_transaction)
  : M (gem_memory_error * option Z) :=
  match t with
  | None => mret (GEM_MEMORY_INVALID_ARGUMENT, None)
  | Some t =>
    c ← find_conflict t;
    mret (match c with Some a => (GEM_MEMORY_CONFLICT, Some a) | None => (GEM_MEMORY_OK, None) end)
  end.

(** ** Commit *)

(** The checks on the writes: the error and the fault address it stores. *)
Fixpoint check_writes (m : mem) (seen : list Z) (ws : list gem_memory_page_write)
  : option (gem_memory_error * option Z) :=
  match ws with
  | [] => None
  | w :: ws =>
    let a := w_address w in
    if bool_decide (w_data w = None) || has_bits a 4095
    then Some (GEM_MEMORY_INVALID_ARGUMENT, Some a)
    else if bool_decide (a ∈ seen) then Some (GEM_MEMORY_INVALID_ARGUMENT, None)
    else
      match at_ m a with
      | None => Some (GEM_MEMORY_NOT_RESERVED, Some a)
      | Some p =>
        if bool_decide (p_backing p = None) then Some (GEM_MEMORY_NOT_COMMITTED, Some a)
        else if negb (allowed (p_protection p) true false)
        then Some (GEM_MEMORY_ACCESS_DENIED, Some a)
        else check_writes m (seen ++ [a]) ws
      end
  end.

(** Guards and copy-on-write copies: the error, the fault address, the
    transaction and the copies made so far. *)
Fixpoint prepare_writes (ws : list gem_memory_page_write) (t : gem_memory_transaction)
    (copies : list (option bid))
  : M (gem_memory_error * option Z * gem_memory_transaction * list (option bid)) :=
  match ws with
  | [] => mret (GEM_MEMORY_OK, None, t, copies)
  | w :: ws =>
    let a := w_address w in
    p ← deref_page a;
    if has_bits (p_protection p) GEM_PAGE_GUARD then
      modify_page a strip_guard;;
      touch_page a;;
      p ← deref_page a;
      t ← update_dependencies a (fun d =>
            mret (TransactionPage (t_address d) (p_generation p) (t_content_generation d)
                    (t_content_hash d) (t_backing d) (p_protection p) (t_external d))) t;
      mret (GEM_MEMORY_GUARD_PAGE, Some a, t, copies)
    else if is_write_copy (p_protection p) then
      '(_, bk) ← deref_backing (p_backing p);
      if external bk then prepare_writes ws t (copies ++ [None])
      else
        c ← new_backing None;
        match c with
        | None => mret (GEM_MEMORY_NO_MEMORY, None, t, copies)
        | Some _ =>
          m ← get;
          store_backing c 0 (contents m bk);;
          prepare_writes ws t (copies ++ [c])
        end
    else prepare_writes ws t (copies ++ [None])
  end.

(** The lines of a page. *)
Definition cache_lines : list Z :=
  (fun i => GEM_MEMORY_CACHE_LINE * i) <$> seqZ 0 (GEM_GUEST_PAGE_SIZE / GEM_MEMORY_CACHE_LINE).

(** The copying loop: only the lines that differ are stored, and counted. *)
Fixpoint copy_lines (b : option bid) (data : list Z) (lines : list Z) (changed_bytes : Z) : M Z :=
  match lines with
  | [] => mret changed_bytes
  | line :: lines =>
    '(_, bk) ← deref_backing b;
    m ← get;
    let source := bytes_at data line GEM_MEMORY_CACHE_LINE in
    if bool_decide (bytes_at (contents m bk) line GEM_MEMORY_CACHE_LINE = source)
    then copy_lines b data lines changed_bytes
    else
      store_backing b line source;;
      copy_lines b data lines (changed_bytes + GEM_MEMORY_CACHE_LINE)
  end.

(** What a written page's dependencies remember afterwards. *)
Definition refresh_dependency (p : page) (b : bid) (bk : backing) (data : list Z)
    (d : transaction_page) : M transaction_page :=
  (if negb (bool_decide (t_backing d = b))
   then drop_backing (Some (t_backing d));; add_ref (Some b)
   else mret tt);;
  mret (TransactionPage (t_address d) (p_generation p) (b_generation bk) (hash_of bk data) b
          (p_protection p) (external bk)).

(** The copy becomes the page's backing; caller-owned copy-on-write pages only
    change protection. *)
Definition install_copy (a : Z) (copy : option bid) : M unit :=
  p ← deref_page a;
  match copy with
  | Some _ =>
    drop_backing (p_backing p);;
    modify_page a (fun p =>
      with_protection (with_backing p copy) (write_copy_protection (p_protection p)))
  | None =>
    '(_, bk) ← deref_backing (p_backing p);
    if external bk && is_write_copy (p_protection p)
    then modify_page a (fun p => with_protection p (write_copy_protection (p_protection p)))
    else mret tt
  end.

(** A write whose bytes are still to be copied: the pinned backing, whether the
    copy is already done, and the bytes. *)
Record pending : Type := Pending { pe_backing : bid; pe_copied : bool; pe_data : list Z }.

(** One round of the publishing loop. *)
Definition publish_write (a : Z) (data : list Z) (copy : option bid) (t : gem_memory_transaction)
  : M (pending * gem_memory_transaction * Z) :=
  install_copy a copy;;
  p ← deref_page a;
  add_ref (p_backing p);;
  touch_backing (p_backing p);;
  touch_page a;;
  p ← deref_page a;
  '(b, bk) ← deref_backing (p_backing p);
  t ← update_dependencies a (refresh_dependency p b bk data) t;
  changed_bytes ← (if external bk then copy_lines (Some b) data cache_lines 0 else mret 0);
  mret (Pending b (external bk) data, t, changed_bytes).

Fixpoint publish_writes (ws : list (gem_memory_page_write * option bid))
    (t : gem_memory_transaction) : M (list pending * gem_memory_transaction * Z) :=
  match ws with
  | [] => mret ([], t, 0)
  | (w, copy) :: ws =>
    match w_data w with
    | None => fault
    | Some data =>
      '(pe, t, n) ← publish_write (w_address w) data copy t;
      '(pes, t, n') ← publish_writes ws t;
      mret (pe :: pes, t, n + n')
    end
  end.

(** The loop that runs with the stripes but without the metadata lock. *)
Fixpoint copy_pending (pes : list pending) : M Z :=
  match pes with
  | [] => mret 0
  | pe :: pes =>
    n ← (if pe_copied pe then mret 0 else copy_lines (Some (pe_backing pe)) (pe_data pe) cache_lines 0);
    n' ← copy_pending pes;
    mret (n + n')
  end.

(** The part under the metadata lock, with its rollback. *)
Definition commit_publish (t : gem_memory_transaction) (ws : list gem_memory_page_write)
  : M ((gem_memory_error * option Z) * gem_memory_transaction * list pending * Z) :=
  c ← find_conflict t;
  match c with
  | Some a => mret ((GEM_MEMORY_CONFLICT, Some a), t, [], 0)
  | None =>
    m ← get;
    match check_writes m [] ws with
    | Some e => mret (e, t, [], 0)
    | None =>
      '(e, f, t, copies) ← prepare_writes ws t [];
      if bool_decide (e = GEM_MEMORY_OK) then
        '(pes, t, n) ← publish_writes (zip ws copies) t;
        mret ((GEM_MEMORY_OK, None), t, pes, n)
      else
        for_each copies drop_backing;;
        mret ((e, f), t, [], 0)
    end
  end.

(** The error, [fault_address], the transaction and [bytes_committed]. *)
Definition commit_locked_pages (t : gem_memory_transaction) (ws : list gem_memory_page_write)
  : M (gem_memory_error * option Z * gem_memory_transaction * Z) :=
  '(r, t, pes, n) ← commit_publish t ws;
  if bool_decide (r.1 = GEM_MEMORY_OK) then
    n' ← copy_pending pes;
    for_each pes (fun pe => drop_backing (Some (pe_backing pe)));;
    mret (GEM_MEMORY_OK, None, t, n + n')
  else mret (r, t, 0).

(** [count] writes at [writes]; [None] is a NULL pointer. *)
Definition gem_memory_transaction_commit_pages (t : option gem_memory_transaction)
    (writes : option (list gem_memory_page_write)) (count : nat)
  : M (gem_memory_error * option Z * option gem_memory_transaction * option Z) :=
  match t with
  | None => mret (GEM_MEMORY_INVALID_ARGUMENT, None, None, None)
  | Some t =>
    if (negb (bool_decide (count = 0%nat)) && bool_decide (writes = None)) ||
       bool_decide (GEM_MEMORY_MAX_WRITES < count)%nat
    then mret (GEM_MEMORY_INVALID_ARGUMENT, None, Some t, None)
    else
      '(e, f, t, n) ← commit_locked_pages t (take count (default [] writes));
      mret (e, f, Some t, Some n)
  end.

Definition gem_memory_transaction_page_is_external (t : option gem_memory_transaction) (a : Z)
  : bool :=
  match t with
  | None => false
  | Some t => match find_dependency t (a .&~ 4095) with Some (_, d) => t_external d | None => false end
  end.
End operations.
