(* ===== verification/TransactionInv.v ===== *)
(** TransactionInv: transactions keep the ownership invariant of the address
    space.  A dependency counts as one pin on its backing, so the reference
    counts stay exact through every transaction operation, committed or not. *)
From S2P Require Import Prelude MemoryModel Memory MemoryLogic MemoryInv Transaction.

(** The references a transaction holds. *)
Definition dep_refs (t : gem_memory_transaction) : list (option bid) :=
  (fun d => Some (t_backing d)) <$> t.

Definition pending_refs (pes : list pending) : list (option bid) :=
  (fun pe => Some (pe_backing pe)) <$> pes.

(** Equal up to the order of the pins. *)
Ltac same_pins :=
  apply st_pins_eq; intros ?; unfold pins_add, dep_refs, pending_refs;
  rewrite ?fmap_app, ?fmap_cons, ?occ_app; cbn [occ fmap list_fmap new_dependency t_backing pe_backing];
  rewrite ?occ_app; cbn [occ]; rewrite ?holds_None; lia.

Lemma dep_refs_app t t' : dep_refs (t ++ t') = dep_refs t ++ dep_refs t'.
Proof. apply fmap_app. Qed.

(** A dependency rewritten in place keeps its reference. *)
Lemma dep_refs_insert t i d d' :
  t !! i = Some d -> t_backing d' = t_backing d -> dep_refs (<[i := d']> t) = dep_refs t.
Proof.
  intros Hi Hb. unfold dep_refs. rewrite list_fmap_insert, Hb. apply list_insert_id.
  by rewrite list_lookup_fmap, Hi.
Qed.

Lemma dep_refs_map t f : (forall d, t_backing (f d) = t_backing d) -> dep_refs (f <$> t) = dep_refs t.
Proof. intros H. unfold dep_refs. rewrite <- list_fmap_compose. apply list_fmap_ext. intros i d _. cbn. by rewrite H. Qed.

Lemma find_dependency_Some t a i d :
  find_dependency t a = Some (i, d) -> t !! i = Some d /\ t_address d = a.
Proof. unfold find_dependency. rewrite list_find_Some. tauto. Qed.

Lemma find_dependency_snoc t a d :
  find_dependency t a = None -> t_address d = a -> find_dependency (t ++ [d]) a = Some (length t, d).
Proof.
  intros Hn Ha. unfold find_dependency in *. apply list_find_None in Hn. apply list_find_Some.
  rewrite lookup_app_r, Nat.sub_diag by done. split_and!; [done|done|].
  intros j y Hj Hlt. rewrite lookup_app_l in Hj by done.
  eapply Forall_lookup_1 in Hn; [exact Hn|exact Hj].
Qed.

Lemma update_dependencies_pure a g t m :
  update_dependencies a (fun d => mret (g d)) t m
    = Ok ((fun d => if t_address d =? a then g d else d) <$> t, m).
Proof.
  induction t as [|d t IH]; [done|]. cbn [update_dependencies]. unfold mbind, M_bind.
  destruct (t_address d =? a) eqn:E; cbn; rewrite IH; cbn; by rewrite E.
Qed.

Lemma for_each_fmap {A B} (f : A -> B) (body : B -> M unit) l :
  for_each l (fun x => body (f x)) = for_each (f <$> l) body.
Proof. induction l as [|x l IH]; cbn; [done|]. by rewrite IH. Qed.

(** The pages of [l] have backings. *)
Definition committed (l : list Z) (ps : gmap Z page) : Prop :=
  forall a, a ∈ l -> exists p, ps !! a = Some p /\ is_Some (p_backing p).

Lemma committed_insert l a p ps :
  committed l ps -> is_Some (p_backing p) -> committed l (<[a := p]> ps).
Proof.
  intros Hps Hp x Hx. destruct (decide (a = x)) as [->|].
  - rewrite lookup_insert_eq. eauto.
  - rewrite lookup_insert_ne by done. by apply Hps.
Qed.

Lemma check_writes_None m seen ws :
  check_writes m seen ws = None ->
  committed (w_address <$> ws) (m_pages m) /\ Forall (fun w => is_Some (w_data w)) ws.
Proof.
  revert seen. induction ws as [|w ws IH]; intros seen; cbn [check_writes].
  { intros _. split; [intros x Hx; set_solver|done]. }
  unfold at_. destruct (_ || _) eqn:Hd; [done|]. destruct (bool_decide (_ ∈ _)); [done|].
  destruct (m_pages m !! w_address w) as [p|] eqn:Ha; [|done].
  destruct (bool_decide (p_backing p = None)) eqn:Hb; [done|]. apply bool_decide_eq_false in Hb. destruct (negb _); [done|].
  intros H. apply IH in H as [Hc Hf]. apply orb_false_iff in Hd as [Hd _].
  apply bool_decide_eq_false in Hd. split.
  - intros x Hx. rewrite fmap_cons in Hx. apply elem_of_cons in Hx as [->|Hx]; [|by apply Hc].
    exists p. split; [done|]. by apply not_eq_None_Some.
  - constructor; [by apply not_eq_None_Some|done].
Qed.

Section inv.
Context {platform : Platform}.
Context (pins : bid -> Z) (L : gmap Z (Z * Z)) (Hp : forall b, 0 <= pins b).

(** The transaction's references are accounted for. *)
Notation owns t extra := (st (pins_add pins (dep_refs t ++ extra)) L).

Lemma owned_nonneg l b : 0 <= pins_add pins l b.
Proof. by apply pins_add_nonneg. Qed.

Lemma page_in_layout pins' m a p : st pins' L m -> m_pages m !! a = Some p -> is_Some (L !! a).
Proof. intros Hm Ha. rewrite <- (st_layout _ _ _ Hm). apply layout_is_Some. eauto. Qed.

Lemma deref_backing_run pins' m a p :
  st pins' L m -> m_pages m !! a = Some p -> is_Some (p_backing p) ->
  exists b bk, p_backing p = Some b /\ m_backings m !! b = Some bk /\
    deref_backing (p_backing p) m = Ok ((b, bk), m).
Proof.
  intros Hm Ha [b Hb]. destruct (st_page_live _ _ _ _ _ _ Hm Ha Hb) as [bk Hbk].
  exists b, bk. split_and!; [done..|]. unfold deref_backing, mbind, M_bind, get. by rewrite Hb, Hbk.
Qed.

(** Forget the state but for what the rule needs. *)
Lemma triple_at {A} (P : mem -> Prop) m (f : M A) (Q : A -> mem -> Prop) :
  P m -> triple P f Q -> triple (fun m' => m' = m) f Q.
Proof. intros HP Hf m' ->. by apply Hf. Qed.

(** A guard is consumed: [k] runs with the page's new record. *)
Lemma strip_touch_triple {A} pins' a ps p (k : M A) (Q : A -> mem -> Prop) :
  (forall b, 0 <= pins' b) -> ps !! a = Some p ->
  (forall g, triple (fun m => st pins' L m /\ m_pages m = <[a := with_generation (strip_guard p) g]> ps) k Q) ->
  triple (fun m => st pins' L m /\ m_pages m = ps) (modify_page a strip_guard;; touch_page a;; k) Q.
Proof.
  intros Hp' Ha Hk. step (page_exact_triple _ L (fun _ => True) a strip_guard ps p Hp' Ha); [done..|].
  step (touch_exact_triple _ L a (<[a := strip_guard p]> ps) (strip_guard p) (lookup_insert_eq _ _ _)).
  apply triple_pre. intros m [Hm [g Hps]]. eapply triple_conseq; [apply (Hk g)| |done].
  intros m' ->. split; [done|]. by rewrite Hps, insert_insert_eq.
Qed.

Lemma deref_known a m p :
  m_pages m !! a = Some p -> deref_page a m = Ok (p, m).
Proof. intros Ha. unfold deref_page, mbind, M_bind, get, at_. by rewrite Ha. Qed.

(** Reading a known page or backing. *)
Lemma deref_page_known {A} m a p (k : page -> M A) (Q : A -> mem -> Prop) :
  m_pages m !! a = Some p -> triple (fun m' => m' = m) (k p) Q ->
  triple (fun m' => m' = m) (p ← deref_page a; k p) Q.
Proof.
  intros Ha Hk m' ->. unfold mbind, M_bind. rewrite (deref_known _ _ _ Ha). by apply Hk.
Qed.

Lemma deref_backing_known {A} m o b bk (k : bid * backing -> M A) (Q : A -> mem -> Prop) :
  deref_backing o m = Ok ((b, bk), m) -> triple (fun m' => m' = m) (k (b, bk)) Q ->
  triple (fun m' => m' = m) (r ← deref_backing o; k r) Q.
Proof. intros Hr Hk m' ->. unfold mbind, M_bind. rewrite Hr. by apply Hk. Qed.

Lemma end_triple t :
  triple (owns t []) (gem_memory_transaction_end (Some t)) (fun _ => st pins L).
Proof.
  cbn [gem_memory_transaction_end]. rewrite (for_each_fmap (fun d => Some (t_backing d)) drop_backing).
  eapply triple_conseq; [by apply (drop_list_triple pins L (dep_refs t))| |done].
  intros m. by rewrite app_nil_r.
Qed.

(** ** Snapshots and validation *)

Lemma add_dependency_triple t a p b bk m data :
  owns t [] m -> m_backings m !! b = Some bk ->
  triple (fun m' => m' = m) (add_ref (Some b))
    (fun _ => owns (t ++ [new_dependency a p b bk data]) []).
Proof.
  intros Hm Hbk. eapply triple_conseq; [apply (add_ref_live_triple (pins_add pins (dep_refs t ++ [])) L b)| |].
  - intros m' ->. eauto.
  - intros u m' [Hm' _]. revert Hm'. same_pins.
Qed.

Lemma snapshot_triple t a :
  triple (owns t []) (snapshot_locked t a) (fun r => owns r.1.2 []).
Proof.
  unfold snapshot_locked. apply triple_get. intros m Hm. unfold at_.
  destruct (m_pages m !! a) as [p|] eqn:Ha; [|apply triple_ret; by intros ? ->].
  destruct (p_backing p) as [c|] eqn:Hc; [|apply triple_ret; by intros ? ->].
  destruct (deref_backing_run _ m a p Hm Ha) as (b & bk & Hb & Hbk & Hrun); [by rewrite Hc|].
  rewrite Hc in Hrun, Hb. injection Hb as ->.
  apply (deref_backing_known _ _ _ _ _ _ Hrun).
  destruct (match b_data bk with Owned _ => false | Host h => _ end); [apply triple_ret; by intros ? ->|].
  cbn zeta. destruct (find_dependency t a) as [[i d]|].
  - destruct (_ || _); apply triple_ret; by intros ? ->.
  - case_bool_decide; [apply triple_ret; by intros ? ->|].
    eapply triple_bind; [by apply (add_dependency_triple t a p b bk m (contents m bk))|]. intros u; cbv beta.
    by apply triple_ret.
Qed.

Lemma track_triple t q :
  find_dependency t q = None ->
  triple (owns t []) (track_locked t q)
    (fun r m => owns r.2 [] m /\ (r.1 = GEM_MEMORY_OK -> is_Some (find_dependency r.2 q))).
Proof.
  intros Hn. unfold track_locked. apply triple_get. intros m Hm. unfold at_.
  destruct (m_pages m !! q) as [p|] eqn:Ha; [|apply triple_ret; by intros ? ->].
  destruct (p_backing p) as [c|] eqn:Hc; [|apply triple_ret; by intros ? ->].
  destruct (deref_backing_run _ m q p Hm Ha) as (b & bk & Hb & Hbk & Hrun); [by rewrite Hc|].
  rewrite Hc in Hrun, Hb. injection Hb as ->.
  apply (deref_backing_known _ _ _ _ _ _ Hrun).
  eapply triple_bind; [by apply (add_dependency_triple t q p b bk m (contents m bk))|]. intros u; cbv beta.
  apply triple_ret. intros m' Hm'. split; [done|]. intros _. cbn [snd].
  rewrite find_dependency_snoc; eauto.
Qed.

Lemma consume_guard_triple t q i d :
  t !! i = Some d ->
  triple (owns t []) (consume_guard_locked t q i d) (fun r => owns r.2 []).
Proof.
  intros Hi. unfold consume_guard_locked. apply triple_get. intros m Hm. unfold at_.
  destruct (m_pages m !! q) as [p|] eqn:Ha; [|apply triple_ret; by intros ? ->].
  destruct (_ || _) eqn:Hg; [apply triple_ret; by intros ? ->|].
  pose proof (page_in_layout _ _ _ _ Hm Ha) as HL.
  apply orb_false_iff in Hg as [Hg _]. apply orb_false_iff in Hg as [Hg _].
  apply negb_false_iff, bool_decide_eq_true in Hg.
  apply (triple_at (fun m' => owns t [] m' /\ m_pages m' = m_pages m)); [by split|].
  apply (strip_touch_triple _ q (m_pages m) p _ _ (owned_nonneg _) Ha). intros g.
  set (p1 := with_generation (strip_guard p) g). apply triple_pre. intros m1 [Hm1 Hps].
  assert (m_pages m1 !! q = Some p1) as Ha1 by (rewrite Hps; apply lookup_insert_eq).
  apply (deref_page_known _ _ p1); [done|].
  destruct (deref_backing_run _ m1 q p1 Hm1 Ha1) as (b & bk & Hb & Hbk & Hrun).
  { subst p1. cbn. by rewrite Hg. }
  apply (deref_backing_known _ _ _ _ _ _ Hrun).
  apply triple_get. intros m' ->. apply triple_ret. intros m' ->. cbn [snd].
  by rewrite (dep_refs_insert t i d).
Qed.

Lemma validate_page_triple t q w x :
  triple (owns t []) (validate_page t q w x) (fun r => owns r.2 []).
Proof.
  unfold validate_page.
  apply (triple_bind _ _ _ (fun r m => owns r.2 [] m /\
    (r.1 = GEM_MEMORY_OK -> is_Some (find_dependency r.2 q)))).
  - destruct (find_dependency t q) as [d|] eqn:E.
    + apply triple_ret. intros m Hm. split; [done|]. intros _. cbn [snd]. rewrite E. eauto.
    + case_bool_decide; [by apply triple_ret|]. by apply track_triple.
  - intros [e t']; cbn [fst snd]. case_bool_decide as He; cbn [negb]; [|apply triple_ret; tauto].
    apply triple_pre. intros m [Hm Hf]. destruct (Hf He) as [[i d] Hd]. rewrite Hd.
    apply find_dependency_Some in Hd as [Hi _].
    destruct (negb _); [apply triple_ret; by intros ? ->|].
    destruct (has_bits _ _); [|apply triple_ret; by intros ? ->].
    eapply triple_conseq; [by apply consume_guard_triple|by intros ? ->|done].
Qed.

Lemma validate_pages_triple t ks w x :
  triple (owns t []) (validate_pages t ks w x) (fun r => owns r.2 []).
Proof.
  revert t. induction ks as [|k ks IH]; intros t; cbn [validate_pages]; [by apply triple_ret|].
  eapply triple_bind; [apply validate_page_triple|]. intros [e t']; cbn [snd].
  case_bool_decide; [apply IH|by apply triple_ret].
Qed.

(** ** Conflict detection reads only *)

Lemma changed_triple pins' m d :
  st pins' L m ->
  triple (fun m' => m' = m) (changed d) (fun _ m' => m' = m).
Proof.
  intros Hm. unfold changed. apply triple_get. intros m' ->. unfold at_.
  destruct (m_pages m !! t_address d) as [p|] eqn:Ha; [|by apply triple_ret].
  case_bool_decide as Hb; cbn [negb]; [|by apply triple_ret].
  destruct (deref_backing_run _ m _ p Hm Ha) as (b & bk & _ & _ & Hrun); [by rewrite Hb|].
  apply (triple_bind _ _ _ (fun r m' => m' = m)); [intros m' ->; by rewrite Hrun|].
  intros [b' bk']. by apply triple_ret.
Qed.

Lemma find_conflict_triple pins' m t :
  st pins' L m -> triple (fun m' => m' = m) (find_conflict t) (fun _ m' => m' = m).
Proof.
  intros Hm. induction t as [|d t IH]; cbn [find_conflict]; [by apply triple_ret|].
  eapply triple_bind; [by eapply changed_triple|]. intros [|]; [by apply triple_ret|done].
Qed.

(** ** Commit *)

Lemma prepare_triple ws t copies ps :
  committed (w_address <$> ws) ps ->
  triple (fun m => owns t copies m /\ m_pages m = ps) (prepare_writes ws t copies)
    (fun r m => owns r.1.2 r.2 m /\ (r.1.1.1 = GEM_MEMORY_OK ->
       m_pages m = ps /\ r.1.2 = t /\ length r.2 = (length copies + length ws)%nat)).
Proof.
  revert copies. induction ws as [|w ws IH]; intros copies Hc; cbn [prepare_writes].
  { apply triple_ret. intros m [Hm Hps]. cbn. split; [done|]. intros _. split_and!; [done..|lia]. }
  destruct (Hc (w_address w)) as (p & Ha & Hb); [set_solver|].
  assert (forall c m, owns t (copies ++ [c]) m -> m_pages m = ps ->
    triple (fun m' => m' = m) (prepare_writes ws t (copies ++ [c]))
      (fun r m => owns r.1.2 r.2 m /\ (r.1.1.1 = GEM_MEMORY_OK ->
         m_pages m = ps /\ r.1.2 = t /\ length r.2 = (length copies + S (length ws))%nat))) as Hnext.
  { intros c m Hm Hps. eapply triple_conseq; [apply (IH (copies ++ [c]))| |].
    - intros x Hx. apply Hc. set_solver.
    - by intros ? ->.
    - intros r m' [? H]. split; [done|]. intros He. destruct (H He) as (? & ? & Hl).
      rewrite length_app in Hl. cbn in Hl. split_and!; [done..|lia]. }
  destruct (has_bits (p_protection p) GEM_PAGE_GUARD) eqn:Hg.
  - apply triple_pre. intros m [Hm Hps]. rewrite <- Hps in Ha.
    apply (deref_page_known _ _ p); [done|]. rewrite Hg.
    apply (triple_at (fun m' => owns t copies m' /\ m_pages m' = m_pages m)); [by split|].
    apply (strip_touch_triple _ _ (m_pages m) p _ _ (owned_nonneg _) Ha). intros g.
    apply triple_pre. intros m1 [Hm1 Hps1].
    eapply (deref_page_known _ _ _); [rewrite Hps1; apply lookup_insert_eq|].
    apply (triple_bind _ _ _ (fun r m' => dep_refs r = dep_refs t /\ m' = m1)).
    { intros m' ->. rewrite update_dependencies_pure. split; [|done].
      apply dep_refs_map. intros d. by destruct (_ =? _). }
    intros t'; cbn beta. apply triple_ret. intros m' [Ht ->]. cbn [fst snd]. split; [|done]. by rewrite Ht.
  - apply triple_pre. intros m [Hm Hps]. rewrite <- Hps in Ha.
    apply (deref_page_known _ _ p); [done|]. rewrite Hg.
    assert (owns t (copies ++ [None]) m) as Hnone by (revert Hm; same_pins).
    destruct (is_write_copy _); [|by apply Hnext].
    destruct (deref_backing_run _ m _ p Hm Ha Hb) as (b & bk & Hbb & Hbk & Hrun).
    apply (deref_backing_known _ _ _ _ _ _ Hrun).
    destruct (external bk); [by apply Hnext|].
    step_pre_keeping m_pages (new_backing_triple _ L None); [intros m' ->; split; [exact Hm|exact Hps]|].
    destruct a as [c|]; [|apply triple_ret; intros m' [? ?]; by split].
    apply triple_get. intros m1 [[Hm1 Hc1] Hps1].
    step_pre_keeping m_pages (store_backing_triple _ L c 0 (contents m1 bk)).
    { rewrite (length_contents m1 bk); [done|by apply (st_data _ _ _ Hm1)|].
      by apply (st_data _ _ _ Hm) in Hbk. }
    { intros m' ->. split; [split; [exact Hm1|exact Hc1]|exact Hps1]. }
    apply triple_pre. intros m2 [[Hm2 _] Hps2].
    apply Hnext; [|done]. revert Hm2. same_pins.
Qed.

(** A pinned backing is live. *)
Lemma pinned_live l m b : st (pins_add pins l) L m -> Some b ∈ l -> is_Some (m_backings m !! b).
Proof.
  intros Hm Hb. pose proof (occ_pos b l Hb).
  destruct (st_live _ _ _ b Hm) as (bk & Hbk & _); [|eauto]. unfold pins_add.
  pose proof (Hp b). pose proof (count_nonneg b (m_pages m)). lia.
Qed.

Lemma elem_of_cache_lines line : line ∈ cache_lines -> 0 <= line /\ line + 64 <= 4096.
Proof.
  unfold cache_lines. rewrite list_elem_of_fmap. intros (i & -> & Hi). apply elem_of_seqZ in Hi.
  change (GEM_GUEST_PAGE_SIZE / GEM_MEMORY_CACHE_LINE) with 64 in Hi.
  unfold GEM_MEMORY_CACHE_LINE. lia.
Qed.

Lemma copy_lines_triple pins' b data lines n ps :
  (forall line, line ∈ lines -> 0 <= line /\ line + 64 <= 4096) ->
  triple (fun m => (st pins' L m /\ is_Some (m_backings m !! b)) /\ m_pages m = ps)
    (copy_lines (Some b) data lines n)
    (fun _ m => (st pins' L m /\ is_Some (m_backings m !! b)) /\ m_pages m = ps).
Proof.
  revert n. induction lines as [|line lines IH]; intros n Hl; cbn [copy_lines]; [by apply triple_ret|].
  apply triple_pre. intros m [[Hm [bk Hbk]] Hps].
  apply (deref_backing_known _ _ b bk).
  { unfold deref_backing, mbind, M_bind, get. by rewrite Hbk. }
  apply triple_get. intros m' ->. cbn zeta. destruct (Hl line) as [Hl0 Hl1]; [set_solver|].
  case_bool_decide.
  - eapply (triple_at _ _ _ _ _ (IH n _)).
  - step_pre_keeping m_pages (store_backing_triple pins' L b line (bytes_at data line GEM_MEMORY_CACHE_LINE)).
    + unfold bytes_at. rewrite length_take. change PAGE with (Z.to_nat 4096).
      unfold GEM_MEMORY_CACHE_LINE. lia.
    + intros m' ->. eauto.
    + apply IH. set_solver.
  Unshelve. all: cbv beta; eauto. set_solver.
Qed.

Lemma refresh_dependency_triple a p b bk data d extra ps :
  ps !! a = Some p -> p_backing p = Some b ->
  triple (fun m => st (pins_add pins (Some (t_backing d) :: extra)) L m /\ m_pages m = ps)
    (refresh_dependency p b bk data d)
    (fun d' m => st (pins_add pins (Some (t_backing d') :: extra)) L m /\ m_pages m = ps).
Proof.
  intros Ha Hb. unfold refresh_dependency. case_bool_decide as He; cbn [negb].
  - step_pre (triple_ret (fun m => st (pins_add pins (Some (t_backing d) :: extra)) L m /\ m_pages m = ps) tt
      (fun _ m => st (pins_add pins (Some (t_backing d) :: extra)) L m /\ m_pages m = ps)); [done|done|].
    apply triple_ret. cbn. by rewrite He.
  - apply (triple_bind _ _ _ (fun _ m => st (pins_add pins (Some b :: extra)) L m /\ m_pages m = ps));
      [|intros u; by apply triple_ret].
    step_pre_keeping m_pages (drop_triple (pins_add pins extra) L (Some (t_backing d)) (owned_nonneg _)).
    { intros m [Hm Hps]. split; [|exact Hps]. revert Hm. same_pins. }
    apply triple_pre. intros m [Hm Hps].
    eapply triple_conseq; [eapply (triple_keeps m_pages); [solve_keeps|apply (add_ref_triple (pins_add pins extra) L a p b)]| |].
    + intros m' ->. split; [|exact Hps]. split; [done|]. by rewrite Hps.
    + intros u m' [Hm' Hps']. split; [|done]. revert Hm'. same_pins.
Qed.

Lemma update_refresh_triple a p b bk data t extra ps x :
  ps !! x = Some p -> p_backing p = Some b ->
  triple (fun m => owns t extra m /\ m_pages m = ps)
    (update_dependencies a (refresh_dependency p b bk data) t)
    (fun t' m => owns t' extra m /\ m_pages m = ps).
Proof.
  intros Ha Hb. revert extra. induction t as [|d t IH]; intros extra; cbn [update_dependencies].
  { by apply triple_ret. }
  apply (triple_bind _ _ _ (fun d' m => st (pins_add pins (Some (t_backing d') :: dep_refs t ++ extra)) L m /\ m_pages m = ps)).
  - destruct (_ =? _); [by apply (refresh_dependency_triple x)|by apply triple_ret].
  - intros d'; cbn beta. eapply triple_bind.
    + eapply triple_conseq; [apply (IH (Some (t_backing d') :: extra))| |intros ? ? HQ; exact HQ].
      intros m [Hm Hps]. split; [|done]. revert Hm. same_pins.
    + intros t'; cbn beta. apply triple_ret. intros m [Hm Hps]. split; [|done]. revert Hm. same_pins.
Qed.

Lemma bind_ret_r {A} (f : M A) (g : A -> M unit) m :
  (f ≫= fun a => g a ≫= fun _ => mret tt) m = (f ≫= g) m.
Proof.
  unfold mbind, M_bind. destruct (f m) as [[a m']| |]; [|done..].
  by destruct (g a m') as [[[] ?]| |].
Qed.

Lemma install_copy_triple a copy extra ps p :
  ps !! a = Some p -> is_Some (p_backing p) ->
  triple (fun m => st (pins_add pins (copy :: extra)) L m /\ m_pages m = ps) (install_copy a copy)
    (fun _ m => st (pins_add pins extra) L m /\
       exists q, m_pages m = <[a := q]> ps /\ is_Some (p_backing q)).
Proof.
  intros Ha Hb. unfold install_copy. apply triple_pre. intros m [Hm Hps].
  apply (deref_page_known _ _ p); [by rewrite Hps|]. destruct copy as [c|].
  - set (f := fun p0 => with_protection (with_backing p0 (Some c)) (write_copy_protection (p_protection p0))).
    intros m' ->.
    pose proof (replace_backing_triple (pins_add pins extra) L a f (Some c) ps p (mret tt)
      (fun _ m => st (pins_add pins extra) L m /\ exists q, m_pages m = <[a := q]> ps /\ is_Some (p_backing q))
      (owned_nonneg _) Ha eq_refl eq_refl eq_refl) as H.
    rewrite <- bind_ret_r. apply H; [|split; [revert Hm; same_pins|done]].
    apply triple_ret. intros m' [Hm' Hps']. split; [done|]. exists (f p). by split.
  - assert (st (pins_add pins extra) L m) as Hm' by (revert Hm; same_pins). rewrite <- Hps in Ha.
    destruct (deref_backing_run _ m a p Hm Ha Hb) as (b & bk & _ & _ & Hrun).
    apply (deref_backing_known _ _ _ _ _ _ Hrun). destruct (_ && _).
    + apply (triple_at (fun m' => st (pins_add pins extra) L m' /\ m_pages m' = m_pages m)); [by split|].
      eapply triple_conseq; [apply (page_exact_triple _ L (fun _ => True) a (fun p => with_protection p (write_copy_protection (p_protection p)))
          (m_pages m) p (owned_nonneg extra) Ha); done|done|].
      intros u m2 [Hm2 Hps2]. split; [done|]. rewrite Hps2, Hps. eexists. split; [done|]. done.
    + apply triple_ret. intros m' ->. split; [done|]. exists p. split; [|done].
      rewrite <- Hps. by rewrite insert_id.
Qed.

Lemma publish_write_triple a data copy t extra ps :
  committed [a] ps ->
  triple (fun m => owns t (copy :: extra) m /\ m_pages m = ps) (publish_write a data copy t)
    (fun r m => owns r.1.2 (Some (pe_backing r.1.1) :: extra) m /\
       exists q, m_pages m = <[a := q]> ps /\ is_Some (p_backing q)).
Proof.
  intros Hc. destruct (Hc a) as (p0 & Ha0 & Hb0); [set_solver|]. unfold publish_write.
  eapply triple_bind.
  { eapply triple_conseq; [apply (install_copy_triple a copy (dep_refs t ++ extra) ps p0 Ha0 Hb0)| |intros ? ? HQ; exact HQ].
    intros m [Hm Hps]. split; [|done]. revert Hm. same_pins. }
  intros u; cbv beta. apply triple_pre. intros m1 [Hm1 (q & Hps1 & [b Hq])].
  assert (m_pages m1 !! a = Some q) as Ha1 by (rewrite Hps1; apply lookup_insert_eq).
  apply (deref_page_known _ _ q); [done|]. rewrite Hq.
  set (X := Some b :: dep_refs t ++ extra).
  step_pre_keeping m_pages (add_ref_triple (pins_add pins (dep_refs t ++ extra)) L a q b);
    [intros m' ->; split; [|exact Hps1]; by split|].
  apply triple_pre. intros m2 [Hm2 Hps2].
  assert (st (pins_add pins X) L m2) as Hm2' by (revert Hm2; unfold X; same_pins).
  step_pre_keeping m_pages (touch_backing_triple (pins_add pins X) L b).
  { intros m' ->. split; [|exact Hps2]. split; [done|]. apply (pinned_live X); [done|]. unfold X. set_solver. }
  step_pre (touch_exact_triple (pins_add pins X) L a (<[a := q]> ps) q (lookup_insert_eq _ _ _));
    [intros m' HQ; exact HQ|].
  apply triple_pre. intros m3 [Hm3 [g Hps3]]. rewrite insert_insert_eq in Hps3.
  set (q' := with_generation q g) in *.
  assert (m_pages m3 !! a = Some q') as Ha3 by (rewrite Hps3; apply lookup_insert_eq).
  apply (deref_page_known _ _ q'); [done|].
  destruct (deref_backing_run _ m3 a q' Hm3 Ha3) as (b' & bk & Hb' & Hbk & Hrun); [cbn; rewrite Hq; eauto|].
  apply (deref_backing_known _ _ _ _ _ _ Hrun). cbn in Hb'. rewrite Hq in Hb'. injection Hb' as <-.
  eapply triple_bind.
  { eapply triple_conseq; [apply (update_refresh_triple a q' b bk data t (Some b :: extra) (m_pages m3) a Ha3 Hq)|
      |intros ? ? HQ; exact HQ].
    intros m' ->. split; [|done]. revert Hm3. unfold X. same_pins. }
  intros t'; cbv beta. apply triple_pre. intros m4 [Hm4 Hps4].
  apply (triple_bind _ _ _ (fun _ m => owns t' (Some b :: extra) m /\ m_pages m = m_pages m3)).
  - destruct (external bk); [|apply triple_ret; by intros ? ->].
    eapply triple_conseq; [apply (copy_lines_triple (pins_add pins (dep_refs t' ++ Some b :: extra)) b data cache_lines 0 (m_pages m3)),
      elem_of_cache_lines| |].
    + intros m' ->. split; [|done]. split; [exact Hm4|]. eapply (pinned_live _ m4 b Hm4). set_solver.
    + intros n m' [[? _] ?]. by split.
  - intros n; cbv beta. apply triple_ret. intros m' [Hm' Hps']. cbn [fst snd pe_backing].
    split; [done|]. rewrite Hps', Hps3. by exists q'.
Qed.

Lemma publish_writes_triple ws copies t extra ps :
  committed (w_address <$> ws) ps -> Forall (fun w => is_Some (w_data w)) ws ->
  length copies = length ws ->
  triple (fun m => owns t (copies ++ extra) m /\ m_pages m = ps) (publish_writes (zip ws copies) t)
    (fun r m => owns r.1.2 (pending_refs r.1.1 ++ extra) m).
Proof.
  revert copies t extra ps. induction ws as [|w ws IH]; intros [|c copies] t extra ps Hc Hd Hl;
    try done; cbn [zip zip_with publish_writes].
  { apply triple_ret. by intros m [Hm _]. }
  apply Forall_cons in Hd as [[data Hw] Hd]. rewrite Hw. injection Hl as Hl.
  eapply triple_bind.
  { eapply triple_conseq; [apply (publish_write_triple (w_address w) data c t (copies ++ extra) ps)| |intros ? ? HQ; exact HQ].
    - intros x ->%list_elem_of_singleton. apply Hc. set_solver.
    - done. }
  intros [[pe t1] n]; cbn [fst snd]. apply triple_pre. intros m [Hm (q & Hps & Hq)].
  eapply triple_bind.
  { eapply triple_conseq; [apply (IH copies t1 (Some (pe_backing pe) :: extra) (m_pages m))| |intros ? ? HQ; exact HQ].
    - rewrite Hps. apply committed_insert; [|done]. intros x Hx. apply Hc. set_solver.
    - done.
    - done.
    - intros m' ->. split; [|done]. revert Hm. same_pins. }
  intros [[pes t2] n']; cbn [fst snd]. apply triple_ret. intros m' Hm'. cbn [fst snd].
  revert Hm'. same_pins.
Qed.

Lemma copy_pending_triple pes l :
  (forall pe, pe ∈ pes -> Some (pe_backing pe) ∈ l) ->
  triple (st (pins_add pins l) L) (copy_pending pes) (fun _ => st (pins_add pins l) L).
Proof.
  induction pes as [|pe pes IH]; intros Hl; cbn [copy_pending]; [by apply triple_ret|].
  apply (triple_bind _ _ _ (fun _ => st (pins_add pins l) L)).
  - destruct (pe_copied pe); [by apply triple_ret|]. apply triple_pre. intros m Hm.
    eapply triple_conseq; [apply (copy_lines_triple (pins_add pins l) (pe_backing pe) (pe_data pe) cache_lines 0 (m_pages m)),
      elem_of_cache_lines| |].
    + intros m' ->. split; [|done]. split; [done|]. eapply (pinned_live l); [done|]. apply Hl. set_solver.
    + by intros n m' [[? _] _].
  - intros n; cbv beta. apply (triple_bind _ _ _ (fun _ => st (pins_add pins l) L)); [|intros n'; by apply triple_ret].
    apply IH. intros pe' Hpe. apply Hl. set_solver.
Qed.

Lemma commit_publish_triple t ws :
  triple (owns t []) (commit_publish t ws)
    (fun r m => owns r.1.1.2 (pending_refs r.1.2) m /\ (r.1.1.1.1 <> GEM_MEMORY_OK -> r.1.2 = [])).
Proof.
  unfold commit_publish. apply triple_pre. intros m Hm.
  eapply triple_bind; [by eapply find_conflict_triple|]. intros [a|]; cbv beta.
  { apply triple_ret. by intros m' ->. }
  apply triple_get. intros m' ->. destruct (check_writes m [] ws) as [e|] eqn:Hw.
  { apply triple_ret. by intros m' ->. }
  apply check_writes_None in Hw as [Hc Hd].
  eapply triple_bind.
  { eapply triple_conseq; [by apply (prepare_triple ws t [] (m_pages m))|by intros m' ->|intros ? ? HQ; exact HQ]. }
  intros [[[e f] t1] copies]; cbn [fst snd]. apply triple_pre. intros m1 [Hm1 H1].
  case_bool_decide as He.
  - destruct (H1 He) as (Hps & -> & Hl). eapply triple_bind.
    { eapply triple_conseq; [apply (publish_writes_triple ws copies t [] (m_pages m) Hc Hd Hl)| |intros ? ? HQ; exact HQ].
      intros m' ->. split; [|done]. by rewrite app_nil_r. }
    intros [[pes t2] n]; cbn [fst snd]. apply triple_ret. intros m' Hm'. cbn [fst snd].
    rewrite app_nil_r in Hm'. by split.
  - eapply triple_bind.
    { eapply triple_conseq; [apply (drop_list_triple (pins_add pins (dep_refs t1)) L copies (owned_nonneg _))|
        |intros ? ? HQ; exact HQ].
      intros m' ->. revert Hm1. same_pins. }
    intros u; cbv beta. apply triple_ret. intros m' Hm'. cbn [fst snd]. split; [|done].
    revert Hm'. same_pins.
Qed.

Lemma commit_triple t ws :
  triple (owns t []) (commit_locked_pages t ws) (fun r => owns r.1.2 []).
Proof.
  unfold commit_locked_pages. eapply triple_bind; [apply commit_publish_triple|].
  intros [[[[e f] t1] pes] n]; cbn [fst snd]. case_bool_decide as He.
  - apply triple_pre. intros m [Hm _].
    eapply triple_bind.
    { eapply triple_conseq; [apply (copy_pending_triple pes (dep_refs t1 ++ pending_refs pes))|
        by intros m' ->|intros ? ? HQ; exact HQ].
      intros pe Hpe. apply elem_of_app. right. by apply (list_elem_of_fmap_2 (fun pe => Some (pe_backing pe))). }
    intros n'; cbv beta. eapply triple_bind.
    { rewrite (for_each_fmap (fun pe => Some (pe_backing pe)) drop_backing).
      eapply triple_conseq; [apply (drop_list_triple (pins_add pins (dep_refs t1)) L (pending_refs pes) (owned_nonneg _))|
        |intros ? ? HQ; exact HQ].
      intros m'. same_pins. }
    intros u; cbv beta. apply triple_ret. intros m' Hm'. cbn [fst snd]. revert Hm'. same_pins.
  - apply triple_ret. intros m [Hm Hn]. cbn [fst snd]. by rewrite (Hn He) in Hm.
Qed.

End inv.
