(* ===== verification/TransactionHistory.v ===== *)
(** TransactionHistory: transaction operations move the generation counters
    forward like every other call (MemoryHistory).  A commit gives each page it
    writes, and the backing whose bytes it is about to change, a generation that
    no earlier state had reached, before the first byte changes. *)
From S2P Require Import Prelude MemoryModel Memory MemoryLogic MemoryInv MemorySpec MemoryHistory Transaction.

Lemma ev_about_page m0 PS BS HP HB a m : ev m0 PS BS HP HB m -> ev m0 (a :: PS) BS HP HB m.
Proof. apply ev_weaken; set_solver. Qed.

Lemma ev_about_backing m0 PS BS HP HB b m : ev m0 PS BS HP HB m -> ev m0 PS (b :: BS) HP HB m.
Proof. apply ev_weaken; set_solver. Qed.

Section history.
Context {platform : Platform}.

Hint Resolve stable_alloc stable_new_backing : gem.

Lemma stable_begin m0 PS BS HP HB : stable (ev m0 PS BS HP HB) gem_memory_transaction_begin.
Proof. unfold gem_memory_transaction_begin. solve_stable. Qed.

Lemma stable_end m0 PS BS HP HB t : stable (ev m0 PS BS HP HB) (gem_memory_transaction_end t).
Proof. unfold gem_memory_transaction_end. solve_stable. Qed.

Lemma stable_snapshot m0 PS BS HP HB t a : stable (ev m0 PS BS HP HB) (snapshot_locked t a).
Proof. unfold snapshot_locked. solve_stable. Qed.

Lemma stable_consume_guard m0 PS BS HP HB t q i d :
  stable (ev m0 PS BS HP HB) (consume_guard_locked t q i d).
Proof. unfold consume_guard_locked. solve_stable. Qed.
Hint Resolve stable_consume_guard : gem.

Lemma stable_validate_page m0 PS BS HP HB t q w x :
  stable (ev m0 PS BS HP HB) (validate_page t q w x).
Proof. unfold validate_page, track_locked. solve_stable. Qed.

Lemma stable_validate_pages m0 PS BS HP HB t ks w x :
  stable (ev m0 PS BS HP HB) (validate_pages t ks w x).
Proof.
  revert t. induction ks as [|k ks IH]; intros t; cbn [validate_pages]; [auto with gem|].
  apply stable_bind; [apply stable_validate_page|]. intros [e t']. destruct (bool_decide _); auto with gem.
Qed.

Lemma stable_changed m0 PS BS HP HB d : stable (ev m0 PS BS HP HB) (changed d).
Proof. unfold changed. solve_stable. Qed.

Lemma stable_find_conflict m0 PS BS HP HB t : stable (ev m0 PS BS HP HB) (find_conflict t).
Proof.
  induction t as [|d t IH]; cbn [find_conflict]; [auto with gem|].
  apply stable_bind; [apply stable_changed|]. intros [|]; auto with gem.
Qed.

Lemma stable_update m0 PS BS HP HB a f t :
  (forall d, stable (ev m0 PS BS HP HB) (f d)) ->
  stable (ev m0 PS BS HP HB) (update_dependencies a f t).
Proof.
  intros Hf. induction t as [|d t IH]; cbn [update_dependencies]; [auto with gem|].
  apply stable_bind; [destruct (_ =? _); auto with gem|]. intros d'.
  apply stable_bind; [done|]. auto with gem.
Qed.

Lemma stable_refresh m0 PS BS HP HB p b bk data d :
  stable (ev m0 PS BS HP HB) (refresh_dependency p b bk data d).
Proof. unfold refresh_dependency. solve_stable. Qed.

Lemma stable_prepare m0 PS BS HP HB ws t copies :
  stable (ev m0 PS BS HP HB) (prepare_writes ws t copies).
Proof.
  revert HB copies. induction ws as [|w ws IH]; intros HB copies; cbn [prepare_writes]; [auto with gem|].
  apply stable_bind; [auto with gem|]. intros p. destruct (has_bits _ _).
  { do 3 (apply stable_bind; [auto with gem|intros ?]).
    apply stable_bind; [apply stable_update; auto with gem|]. auto with gem. }
  destruct (is_write_copy _); [|apply IH].
  apply stable_bind; [auto with gem|]. intros [b bk]. destruct (external bk); [apply IH|].
  eapply partial_bind; [apply new_backing_partial|]. intros [c|]; cbv beta iota; [|by apply partial_ret].
  eapply partial_conseq with (P' := ev m0 PS BS HP (c :: HB)) (Q' := fun _ => ev m0 PS BS HP (c :: HB));
    [|done|intros r m; apply ev_weaken; set_solver].
  apply stable_bind; [auto with gem|]. intros m.
  apply stable_bind; [apply stable_store; right; set_solver|]. intros u. apply IH.
Qed.

Lemma stable_copy_lines m0 PS BS HP HB b data lines n :
  b ∈ HB -> stable (ev m0 PS BS HP HB) (copy_lines (Some b) data lines n).
Proof.
  intros Hb. revert n. induction lines as [|line lines IH]; intros n; cbn [copy_lines]; [auto with gem|].
  apply stable_bind; [auto with gem|]. intros [i bk]. apply stable_bind; [auto with gem|]. intros m.
  cbn zeta. destruct (bool_decide _); [apply IH|].
  apply stable_bind; [apply stable_store; by right|]. intros u. apply IH.
Qed.

(** The page changes its backing while it is about to be touched. *)
Lemma stable_install_copy m0 PS BS HP HB a copy :
  a ∈ PS -> stable (ev m0 PS BS HP HB) (install_copy a copy).
Proof.
  intros Ha. unfold install_copy. apply stable_bind; [auto with gem|]. intros p. destruct copy as [c|].
  - apply stable_bind; [auto with gem|]. intros u. apply stable_modify_any; [by left|done].
  - apply stable_bind; [auto with gem|]. intros [b bk]. destruct (_ && _); auto with gem.
Qed.

Lemma publish_write_partial m0 PS BS HP HB a data copy t :
  partial (ev m0 PS BS HP HB) (publish_write a data copy t)
    (fun r => ev m0 PS BS HP (pe_backing r.1.1 :: HB)).
Proof.
  intros m r m' Hm H. unfold publish_write in H. apply bind_run in H as (u & m1 & H1 & H).
  apply (stable_install_copy m0 (a :: PS) BS HP HB a copy (list_elem_of_here a PS)) in H1; [|by apply ev_about_page].
  apply bind_run in H as (p & m2 & H2 & H). apply deref_page_cases in H2 as [-> Hp].
  apply bind_run in H as (u2 & m2 & H2 & H). pose proof (keeps_add_ref m_pages _ ltac:(done) _ _ _ H2) as Hk2.
  eapply stable_add_ref in H2; [|exact H1].
  apply bind_run in H as (u3 & m3 & H3 & H). pose proof (keeps_touch_backing m_pages _ ltac:(done) ltac:(done) _ _ _ H3) as Hk3.
  destruct (p_backing p) as [b|] eqn:Eb; [|by apply bind_run in H3 as (? & ? & _ & ?)].
  eapply touch_backing_partial in H3; [|apply ev_about_backing; exact H2].
  apply bind_run in H as (u4 & m4 & H4 & H).
  assert (exists q, m_pages m4 !! a = Some q /\ p_backing q = Some b) as (q & Hq & Hqb).
  { unfold touch_page in H4. apply bind_run in H4 as (g & m5 & H5 & H6).
    pose proof (keeps_bump m_pages ltac:(done) _ _ _ H5) as Hk.
    apply modify_page_cases in H6 as (p' & Hp' & ->). rewrite Hk, Hk3, Hk2, Hp in Hp'. injection Hp' as <-.
    cbn. rewrite lookup_insert_eq. by eexists. }
  eapply touch_page_partial in H4; [|exact H3].
  apply bind_run in H as (q' & m5 & H5 & H). apply deref_page_cases in H5 as [-> Hq'].
  rewrite Hq in Hq'. injection Hq' as <-.
  apply bind_run in H as ([b' bk] & m5 & H5 & H). apply deref_backing_cases in H5 as (Hb' & -> & _).
  cbn [fst snd] in *. rewrite Hqb in Hb'. injection Hb' as <-.
  apply bind_run in H as (t' & m5 & H5 & H).
  eapply stable_update in H5; [|intros d; apply stable_refresh|exact H4].
  apply bind_run in H as (n & m6 & H6 & [= <- <-]). cbn [fst snd pe_backing].
  assert (ev m0 PS BS (a :: HP) (b :: HB) m6) as Hm6.
  { destruct (external bk); [|by injection H6 as _ <-].
    eapply stable_copy_lines; [|exact H5|exact H6]. apply list_elem_of_here. }
  clear -Hm6. revert Hm6. apply ev_weaken; set_solver.
Qed.

Lemma publish_writes_partial m0 PS BS HP HB ws t :
  partial (ev m0 PS BS HP HB) (publish_writes ws t)
    (fun r => ev m0 PS BS HP ((pe_backing <$> r.1.1) ++ HB)).
Proof.
  revert HB t. induction ws as [|[w copy] ws IH]; intros HB t; cbn [publish_writes].
  { by apply partial_ret. }
  destruct (w_data w) as [data|]; [|by intros m r m' _ H].
  eapply partial_bind; [apply publish_write_partial|]. intros [[pe t1] n]; cbn [fst snd].
  eapply partial_bind; [apply IH|]. intros [[pes t2] n']; cbn [fst snd].
  apply partial_ret. intros m. cbn [fst snd]. apply ev_weaken; set_solver.
Qed.

Lemma stable_copy_pending m0 PS BS HP HB pes :
  pe_backing <$> pes ⊆ HB -> stable (ev m0 PS BS HP HB) (copy_pending pes).
Proof.
  induction pes as [|pe pes IH]; intros Hp; cbn [copy_pending]; [auto with gem|].
  rewrite fmap_cons in Hp.
  apply stable_bind; [destruct (pe_copied pe); [auto with gem|apply stable_copy_lines; set_solver]|].
  intros n. apply stable_bind; [apply IH; set_solver|]. auto with gem.
Qed.

Lemma commit_publish_partial m0 PS BS HP HB t ws :
  partial (ev m0 PS BS HP HB) (commit_publish t ws)
    (fun r => ev m0 PS BS HP ((pe_backing <$> r.1.2) ++ HB)).
Proof.
  unfold commit_publish. eapply partial_bind; [apply stable_find_conflict|].
  intros [a|]; [by apply partial_ret|]. eapply partial_bind; [apply stable_get|]. intros m1.
  destruct (check_writes m1 [] ws); [by apply partial_ret|].
  eapply partial_bind; [apply stable_prepare|]. intros [[[e f] t1] copies].
  destruct (bool_decide _).
  - eapply partial_bind; [apply publish_writes_partial|]. intros [[pes t2] n]. by apply partial_ret.
  - eapply partial_bind; [apply stable_for_each; intros; apply stable_drop|]. intros u.
    by apply partial_ret.
Qed.

Lemma stable_commit m0 PS BS HP HB t ws : stable (ev m0 PS BS HP HB) (commit_locked_pages t ws).
Proof.
  unfold commit_locked_pages. eapply partial_bind; [apply commit_publish_partial|].
  intros [[[r t1] pes] n]; cbn [fst snd].
  eapply partial_conseq with (P' := ev m0 PS BS HP ((pe_backing <$> pes) ++ HB))
    (Q' := fun _ => ev m0 PS BS HP ((pe_backing <$> pes) ++ HB));
    [|done|intros q m; apply ev_weaken; set_solver].
  destruct (bool_decide _); [|by apply partial_ret].
  apply stable_bind; [apply stable_copy_pending; set_solver|]. intros n'.
  apply stable_bind; [apply stable_for_each; intros; apply stable_drop|]. auto with gem.
Qed.
End history.
