(* ===== verification/TransactionWorld.v ===== *)
(** TransactionWorld: any number of transactions over one address space, with
    ordinary calls in between.  Whatever the order of the operations, reference
    counts stay exact, and what a transaction has read is still there when it
    finishes without a conflict. *)
From S2P Require Import Prelude MemoryModel Memory MemoryLogic MemoryInv MemoryTotal MemorySpec MemoryAtomic MemoryHistory.
From S2P Require Import Transaction TransactionInv TransactionHistory.

(** The address space and the handles returned by [begin]; an ended or failed
    handle is NULL. *)
Record world : Type := World {
  wd_memory : mem;
  wd_handles : list (option gem_memory_transaction) }.

Inductive event : Type :=
  | EvCall (c : memory_call)
  | EvBegin
  | EvSnapshot (i : nat) (a : Z)
  | EvValidate (i : nat) (a n : Z) (w x : bool)
  | EvFinish (i : nat)
  | EvCommit (i : nat) (ws : option (list gem_memory_page_write)) (count : nat)
  | EvEnd (i : nat).

(** Arguments are well typed; the writes point at [count] pages of bytes. *)
Definition event_ok (e : event) : Prop :=
  match e with
  | EvCall c => call_ok c
  | EvSnapshot _ a => is_u64 a
  | EvValidate _ a n _ _ => is_u64 a /\ is_u64 n
  | EvCommit _ (Some ws) count => (count <= length ws)%nat /\
      Forall (fun w => from_option (fun data => length data = PAGE) True (w_data w)) ws
  | EvCommit _ None _ | EvBegin | EvFinish _ | EvEnd _ => True
  end.

#[export] Instance event_ok_dec e : Decision (event_ok e).
Proof.
  destruct e as [c| | | | |i [ws|] n|]; cbn; try apply _.
  apply and_dec; [apply _|]. apply Forall_dec. intros w. destruct (w_data w); cbn; apply _.
Defined.

(** The references of every open transaction. *)
Definition handle_refs (t : option gem_memory_transaction) : list (option bid) :=
  default [] (dep_refs <$> t).
Definition world_refs (ts : list (option gem_memory_transaction)) : list (option bid) :=
  concat (handle_refs <$> ts).

Definition world_inv (w : world) : Prop :=
  inv (pins_add no_pins (world_refs (wd_handles w))) (wd_memory w).

Section world.
Context {platform : Platform}.

Definition handle (w : world) (i : nat) : option gem_memory_transaction :=
  default None (wd_handles w !! i).

(** Run an operation and store what becomes of the handles. *)
Definition step_with {A} (f : M A) (store : A -> list (option gem_memory_transaction)) (w : world)
  : result unit world :=
  match f (wd_memory w) with
  | Ok (r, m) => Ok (World m (store r))
  | Err e => Err e
  | Fault => Fault
  end.

Definition run_event (e : event) (w : world) : result unit world :=
  let put i t := <[i := t]> (wd_handles w) in
  match e with
  | EvCall c =>
      match run_call c (Some (wd_memory w)) with
      | Ok (Some m) => Ok (World m (wd_handles w))
      | Ok None | Fault => Fault
      | Err e => Err e
      end
  | EvBegin => step_with gem_memory_transaction_begin (fun r => wd_handles w ++ [r]) w
  | EvSnapshot i a =>
      step_with (gem_memory_transaction_snapshot_page (handle w i) a true true) (fun r => put i r.1.2) w
  | EvValidate i a n wr x =>
      step_with (gem_memory_transaction_validate (handle w i) a n wr x) (fun r => put i r.2) w
  | EvFinish i => step_with (gem_memory_transaction_finish (handle w i)) (fun _ => wd_handles w) w
  | EvCommit i ws count =>
      step_with (gem_memory_transaction_commit_pages (handle w i) ws count) (fun r => put i r.1.2) w
  | EvEnd i => step_with (gem_memory_transaction_end (handle w i)) (fun _ => put i None) w
  end.

Fixpoint run_events (es : list event) (w : world) : result unit world :=
  match es with
  | [] => Ok w
  | e :: es => w ← run_event e w; run_events es w
  end.

(** ** Safety *)

Lemma world_refs_app ts ts' : world_refs (ts ++ ts') = world_refs ts ++ world_refs ts'.
Proof. unfold world_refs. by rewrite fmap_app, concat_app. Qed.

(** The references of one handle and those of the others. *)
Lemma world_refs_split ts i t :
  ts !! i = Some t -> exists others, forall t',
    (forall b, occ b (world_refs (<[i := t']> ts)) = occ b others + occ b (handle_refs t')) /\
    (forall b, occ b (world_refs ts) = occ b others + occ b (handle_refs t)).
Proof.
  intros Hi. exists (world_refs (take i ts) ++ world_refs (drop (S i) ts)). intros t'.
  pose proof (lookup_lt_Some _ _ _ Hi) as Hlt. split; intros b.
  - rewrite insert_take_drop by done. rewrite world_refs_app. unfold world_refs at 2.
    cbn [fmap list_fmap concat]. rewrite !occ_app. unfold world_refs. lia.
  - rewrite <- (take_drop_middle _ _ _ Hi) at 1. rewrite world_refs_app. unfold world_refs at 2.
    cbn [fmap list_fmap concat]. rewrite !occ_app. unfold world_refs. lia.
Qed.

(** An operation on a handle that keeps the ownership of its transaction. *)
Lemma handle_step {A} (f : option gem_memory_transaction -> M A) (g : A -> option gem_memory_transaction) w i :
  (forall pins L t, (forall b, 0 <= pins b) ->
     triple (st (pins_add pins (handle_refs t)) L) (f t) (fun r => st (pins_add pins (handle_refs (g r))) L)) ->
  (forall r m, f None m = Ok r -> g r.1 = None) ->
  world_inv w ->
  match step_with (f (handle w i)) (fun r => <[i := g r]> (wd_handles w)) w with
  | Ok w' => world_inv w' | Err _ => True | Fault => False
  end.
Proof.
  intros Hf Hn (L & Hst & HL). unfold step_with, handle. destruct w as [m ts]; cbn [wd_memory wd_handles] in *.
  destruct (ts !! i) as [t|] eqn:Hi; cbn [default].
  - destruct (world_refs_split ts i t Hi) as [others Hr].
    assert (st (pins_add (pins_add no_pins others) (handle_refs t)) L m) as Hst'.
    { revert Hst. apply st_pins_eq. intros b. unfold pins_add. destruct (Hr t) as [_ ->]. lia. }
    specialize (Hf (pins_add no_pins others) L t (pins_add_nonneg _ _ no_pins_nonneg) m Hst').
    unfold id. destruct (f t m) as [[r m']| |]; [|done|done].
    exists L. split; [|done]. cbn [wd_memory wd_handles]. revert Hf. apply st_pins_eq.
    intros b. unfold pins_add. destruct (Hr (g r)) as [-> _]. lia.
  - change (default None None) with (@None gem_memory_transaction).
    assert (st (pins_add (pins_add no_pins (world_refs ts)) (handle_refs None)) L m) as Hst' by by apply st_pins_nil.
    specialize (Hf _ L None (pins_add_nonneg _ (world_refs ts) no_pins_nonneg) m Hst').
    destruct (f None m) as [[r m']| |] eqn:E; [|done|done].
    specialize (Hn _ _ E). cbn in Hn. rewrite Hn in Hf. exists L. cbn [wd_handles wd_memory].
    rewrite list_insert_ge by (by apply lookup_ge_None). split; [by apply st_pins_nil|done].
Qed.

Lemma begin_safe w :
  world_inv w ->
  match run_event EvBegin w with Ok w' => world_inv w' | Err _ => True | Fault => False end.
Proof.
  intros (L & Hst & HL). cbn [run_event]. unfold step_with, gem_memory_transaction_begin.
  pose proof (alloc_triple _ _ _ Hst) as Ht. unfold mbind, M_bind.
  destruct (alloc (wd_memory w)) as [[r m]| |]; [|done..]. exists L. split; [|done]. cbn [wd_memory wd_handles].
  revert Ht. apply st_pins_eq. intros b. unfold pins_add. rewrite world_refs_app, occ_app.
  destruct r; cbn; lia.
Qed.

Lemma snapshot_owned pins L t a (Hp : forall b, 0 <= pins b) :
  triple (st (pins_add pins (handle_refs t)) L) (gem_memory_transaction_snapshot_page t a true true)
    (fun r => st (pins_add pins (handle_refs r.1.2)) L).
Proof.
  unfold gem_memory_transaction_snapshot_page. destruct t as [t|]; [|by apply triple_ret].
  destruct (_ || _); [by apply triple_ret|].
  eapply triple_bind.
  - eapply triple_conseq; [apply (snapshot_triple pins L t a)| |intros ? ? HQ; exact HQ].
    intros m. cbn. by rewrite app_nil_r.
  - intros [[e t'] o]. apply triple_ret. intros m. cbn. by rewrite app_nil_r.
Qed.

Lemma validate_owned pins L t a n w x (Hp : forall b, 0 <= pins b) :
  triple (st (pins_add pins (handle_refs t)) L) (gem_memory_transaction_validate t a n w x)
    (fun r => st (pins_add pins (handle_refs r.2)) L).
Proof.
  unfold gem_memory_transaction_validate. destruct t as [t|]; [|by apply triple_ret].
  destruct (_ && _); [by apply triple_ret|]. destruct (_ =? _); [by apply triple_ret|].
  destruct (_ <? _); [by apply triple_ret|].
  eapply triple_bind.
  - eapply triple_conseq; [apply (validate_pages_triple pins L Hp t)| |intros ? ? HQ; exact HQ].
    intros m. cbn. by rewrite app_nil_r.
  - intros [e t']. apply triple_ret. intros m. cbn. by rewrite app_nil_r.
Qed.

Lemma commit_owned pins L t ws n (Hp : forall b, 0 <= pins b) :
  triple (st (pins_add pins (handle_refs t)) L) (gem_memory_transaction_commit_pages t ws n)
    (fun r => st (pins_add pins (handle_refs r.1.2)) L).
Proof.
  unfold gem_memory_transaction_commit_pages. destruct t as [t|]; [|by apply triple_ret].
  destruct (_ || _); [by apply triple_ret|].
  eapply triple_bind.
  - eapply triple_conseq; [apply (commit_triple pins L Hp t)| |intros ? ? HQ; exact HQ].
    intros m. cbn. by rewrite app_nil_r.
  - intros [[[e f] t'] k]. apply triple_ret. intros m. cbn. by rewrite app_nil_r.
Qed.

Lemma end_owned pins L t (Hp : forall b, 0 <= pins b) :
  triple (st (pins_add pins (handle_refs t)) L) (gem_memory_transaction_end t)
    (fun _ => st (pins_add pins (handle_refs None)) L).
Proof.
  destruct t as [t|]; [|by apply triple_ret].
  eapply triple_conseq; [apply (end_triple pins L Hp t)| |].
  - intros m. cbn. by rewrite app_nil_r.
  - intros u m Hm. by apply st_pins_nil.
Qed.

Lemma run_event_safe e w :
  event_ok e -> world_inv w ->
  match run_event e w with Ok w' => world_inv w' | Err _ => True | Fault => False end.
Proof.
  intros He Hw. destruct e as [c| |i a|i a n wr x|i|i ws n|i]; cbn [run_event].
  - destruct (run_call_keeps _ (pins_add_nonneg _ (world_refs (wd_handles w)) no_pins_nonneg) c _ He Hw)
      as (r & -> & Hne & Hr). destruct r as [[m|]| |]; done.
  - by apply begin_safe.
  - by apply (handle_step (fun t => gem_memory_transaction_snapshot_page t a true true) (fun r => r.1.2));
      [intros; apply snapshot_owned|intros r m [= <-]|].
  - by apply (handle_step (fun t => gem_memory_transaction_validate t a n wr x) (fun r => r.2));
      [intros; apply validate_owned|intros r m [= <-]|].
  - destruct w as [m ts]. destruct Hw as (L & Hst & HL). unfold step_with, handle. cbn [wd_memory wd_handles] in *.
    destruct (default None (ts !! i)) as [t|]; cbn; [|by exists L].
    pose proof (find_conflict_triple L _ m t Hst m eq_refl) as Ht.
    unfold mbind, M_bind. destruct (find_conflict t m) as [[c m']| |]; [|done..]. subst m'. by exists L.
  - by apply (handle_step (fun t => gem_memory_transaction_commit_pages t ws n) (fun r => r.1.2));
      [intros; apply commit_owned|intros r m [= <-]|].
  - by apply (handle_step gem_memory_transaction_end (fun _ => None)); [intros; apply end_owned|..].
Qed.

(** ** Termination: the counter does not wrap *)

Lemma bounded_snapshot t a : bounded 0 (snapshot_locked t a).
Proof. unfold snapshot_locked. bounded0. Qed.

Lemma bounded_validate_page t q w x : bounded 1 (validate_page t q w x).
Proof.
  unfold validate_page. apply bounded_bind0; [lia|unfold track_locked; bounded0|]. intros [e t'].
  destruct (negb _); [auto with gem|]. destruct (find_dependency t' q) as [[i d]|]; [|auto with gem].
  destruct (negb _); [auto with gem|]. destruct (has_bits _ _); [|auto with gem].
  unfold consume_guard_locked. apply bounded_bind0; [lia|auto with gem|]. intros m.
  destruct (at_ m q); [|auto with gem]. destruct (_ || _); [auto with gem|].
  apply bounded_bind0; [lia|auto with gem|]. intros u.
  apply (bounded_bind 1 0); [lia|apply bounded_touch_page|]. intros v. bounded0.
Qed.

Lemma bounded_validate_pages t ks w x : bounded (Z.of_nat (length ks)) (validate_pages t ks w x).
Proof.
  revert t. induction ks as [|k ks IH]; intros t; cbn [validate_pages length]; [auto with gem|].
  eapply bounded_le; [apply (bounded_bind 1 (Z.of_nat (length ks))); [lia|apply bounded_validate_page|]|lia].
  intros [e t']. destruct (bool_decide _); [apply IH|apply bounded_ret; lia].
Qed.

Lemma bounded_find_conflict t : bounded 0 (find_conflict t).
Proof. induction t as [|d t IH]; cbn [find_conflict]; unfold changed; bounded0. Qed.

Lemma bounded_update_dependencies a f t : (forall d, bounded 0 (f d)) -> bounded 0 (update_dependencies a f t).
Proof.
  intros Hf. induction t as [|d t IH]; cbn [update_dependencies]; [auto with gem|].
  apply bounded_bind0; [done|destruct (_ =? _); auto with gem|]. intros d'.
  apply bounded_bind0; [done|done|]. auto with gem.
Qed.

Lemma bounded_prepare ws t copies : bounded 1 (prepare_writes ws t copies).
Proof.
  revert copies. induction ws as [|w ws IH]; intros copies; cbn [prepare_writes]; [auto with gem|].
  apply bounded_bind0; [lia|auto with gem|]. intros p. destruct (has_bits _ _).
  { apply bounded_bind0; [lia|auto with gem|]. intros u.
    apply (bounded_bind 1 0); [lia|apply bounded_touch_page|]. intros v.
    apply bounded_bind0; [lia|auto with gem|]. intros q.
    apply bounded_bind0; [lia|apply bounded_update_dependencies; auto with gem|]. auto with gem. }
  destruct (is_write_copy _); [|apply IH].
  apply bounded_bind0; [lia|auto with gem|]. intros [b bk]. destruct (external bk); [apply IH|].
  apply bounded_bind0; [lia|apply bounded_new_backing|]. intros [c|]; [|auto with gem].
  do 2 (apply bounded_bind0; [lia|auto with gem|intros ?]). apply IH.
Qed.

Lemma bounded_copy_lines b data lines n : bounded 0 (copy_lines b data lines n).
Proof.
  revert n. induction lines as [|line lines IH]; intros n; cbn [copy_lines]; [auto with gem|].
  apply bounded_bind0; [lia|auto with gem|]. intros [c bk]. apply bounded_bind0; [lia|auto with gem|]. intros m.
  cbn zeta. destruct (bool_decide _); [apply IH|].
  apply bounded_bind0; [lia|auto with gem|]. intros u. apply IH.
Qed.

Lemma bounded_publish_write a data copy t : bounded 2 (publish_write a data copy t).
Proof.
  unfold publish_write. apply bounded_bind0; [lia|unfold install_copy; bounded0|]. intros u.
  do 2 (apply bounded_bind0; [lia|auto with gem|intros ?]).
  apply (bounded_bind 1 1); [lia|apply bounded_touch_backing|]. intros v.
  apply (bounded_bind 1 0); [lia|apply bounded_touch_page|]. intros q.
  apply bounded_bind0; [lia|auto with gem|]. intros p. apply bounded_bind0; [lia|auto with gem|]. intros [b bk].
  apply bounded_bind0; [lia|apply bounded_update_dependencies; intros; unfold refresh_dependency; bounded0|]. intros t'.
  apply bounded_bind0; [lia|destruct (external bk); [apply bounded_copy_lines|auto with gem]|]. auto with gem.
Qed.

Lemma bounded_publish_writes ws t : bounded (2 * Z.of_nat (length ws)) (publish_writes ws t).
Proof.
  revert t. induction ws as [|[w c] ws IH]; intros t; cbn [publish_writes length]; [auto with gem|].
  destruct (w_data w); [|auto with gem].
  eapply bounded_le; [apply (bounded_bind 2 (2 * Z.of_nat (length ws))); [lia|apply bounded_publish_write|]|lia].
  intros [[pe t1] n]. eapply bounded_le;
    [apply (bounded_bind (2 * Z.of_nat (length ws)) 0); [lia|apply IH|]|lia].
  intros [[pes t2] n']. auto with gem.
Qed.

Lemma bounded_copy_pending pes : bounded 0 (copy_pending pes).
Proof.
  induction pes as [|pe pes IH]; cbn [copy_pending]; [auto with gem|].
  apply bounded_bind0; [lia|destruct (pe_copied pe); [auto with gem|apply bounded_copy_lines]|]. intros n.
  apply bounded_bind0; [lia|done|]. auto with gem.
Qed.

Lemma bounded_commit t ws : bounded (1 + 2 * Z.of_nat (length ws)) (commit_locked_pages t ws).
Proof.
  unfold commit_locked_pages. eapply bounded_le;
    [apply (bounded_bind (1 + 2 * Z.of_nat (length ws)) 0); [lia| |]|lia].
  - unfold commit_publish. apply bounded_bind0; [lia|apply bounded_find_conflict|].
    intros [c|]; [apply bounded_ret; lia|]. apply bounded_bind0; [lia|auto with gem|]. intros m.
    destruct (check_writes m [] ws); [apply bounded_ret; lia|].
    apply (bounded_bind 1 (2 * Z.of_nat (length ws))); [lia|apply bounded_prepare|].
    intros [[[e f] t1] copies]. destruct (bool_decide _).
    + eapply bounded_le; [apply (bounded_bind (2 * Z.of_nat (length (zip ws copies))) 0); [lia|apply bounded_publish_writes|]|].
      * intros [[pes t2] n]. auto with gem.
      * rewrite length_zip_with. lia.
    + apply bounded_bind0; [lia|auto with gem|]. intros u. apply bounded_ret. lia.
  - intros [[[r t1] pes] n]. destruct (bool_decide _); [|auto with gem].
    apply bounded_bind0; [lia|apply bounded_copy_pending|]. intros n'.
    apply bounded_bind0; [lia|auto with gem|]. auto with gem.
Qed.

(** An upper bound on the generations one event uses. *)
Definition event_touches (e : event) : Z :=
  match e with
  | EvCall c => touches c
  | EvValidate _ _ n _ _ => n / 4096 + 2
  | EvCommit _ _ count => 1 + 2 * Z.of_nat count
  | _ => 0
  end.

Fixpoint total_event_touches (es : list event) : Z :=
  match es with [] => 0 | e :: es => event_touches e + total_event_touches es end.

Lemma event_touches_nonneg e : event_ok e -> 0 <= event_touches e.
Proof.
  intros He. destruct e; cbn in *; try lia; [by apply touches_nonneg|].
  unfold is_u64 in *. pose proof (Z.div_pos n 4096). lia.
Qed.

Lemma step_with_bounded {A} k (f : M A) store w :
  bounded k f -> 0 <= m_next_generation (wd_memory w) -> m_next_generation (wd_memory w) + k < 2 ^ 64 ->
  match step_with f store w with
  | Ok w' => m_next_generation (wd_memory w) <= m_next_generation (wd_memory w') <= m_next_generation (wd_memory w) + k
  | Err _ => False
  | Fault => True
  end.
Proof.
  intros Hf H0 Hk. specialize (Hf (wd_memory w) H0 Hk). unfold step_with.
  by destruct (f (wd_memory w)) as [[r m]| |].
Qed.

Lemma run_event_bounded e w :
  event_ok e -> 0 <= m_next_generation (wd_memory w) ->
  m_next_generation (wd_memory w) + event_touches e < 2 ^ 64 ->
  match run_event e w with
  | Ok w' => m_next_generation (wd_memory w) <= m_next_generation (wd_memory w')
      <= m_next_generation (wd_memory w) + event_touches e
  | Err _ => False
  | Fault => True
  end.
Proof.
  intros He H0 Hk. pose proof (event_touches_nonneg e He) as Hn.
  destruct e as [c| |i a|i a n wr x|i|i ws n|i]; cbn [run_event].
  { pose proof (run_call_bounded c _ He H0 Hk) as Hb. by destruct (run_call c _) as [[m|]| |]. }
  all: apply step_with_bounded; try done.
  - unfold gem_memory_transaction_begin. apply bounded_bind0; [done|apply bounded_alloc|]. intros [r|]; auto with gem.
  - unfold gem_memory_transaction_snapshot_page. destruct (handle w i); [|auto with gem].
    destruct (_ || _); [auto with gem|]. apply bounded_bind0; [done|apply bounded_snapshot|]. intros [[e t'] o]. auto with gem.
  - unfold gem_memory_transaction_validate. destruct (handle w i); [|by apply bounded_ret].
    destruct (_ && _); [by apply bounded_ret|]. destruct (_ =? _); [by apply bounded_ret|].
    destruct (_ <? _); [by apply bounded_ret|]. cbn in He. destruct He as [_ He].
    pose proof (touches_pages a n ltac:(unfold is_u64 in He; lia)).
    eapply bounded_le; [apply (bounded_bind (Z.of_nat (page_count a n)) 0); [lia| |]|cbn; lia].
    + rewrite <- (length_chunks (page_count a n) a n 0) at 1. apply bounded_validate_pages.
    + intros [e t']. auto with gem.
  - unfold gem_memory_transaction_finish. destruct (handle w i); [|auto with gem].
    apply bounded_bind0; [done|apply bounded_find_conflict|]. intros [c|]; auto with gem.
  - unfold gem_memory_transaction_commit_pages. destruct (handle w i); [|by apply bounded_ret].
    destruct (_ || _); [by apply bounded_ret|].
    eapply bounded_le; [apply (bounded_bind (1 + 2 * Z.of_nat (length (take n (default [] ws)))) 0); [lia| |]|].
    + apply bounded_commit.
    + intros [[[e f] t'] k]. auto with gem.
    + cbn. rewrite length_take. lia.
  - unfold gem_memory_transaction_end. destruct (handle w i); [|auto with gem]. auto with gem.
Qed.

Lemma run_events_total es w :
  Forall event_ok es -> world_inv w ->
  m_next_generation (wd_memory w) + total_event_touches es < 2 ^ 64 ->
  exists w', run_events es w = Ok w' /\ world_inv w'.
Proof.
  intros Hes. revert w. induction Hes as [|e es He Hes IH]; intros w Hw Hlt; [by exists w|].
  cbn [run_events total_event_touches] in *.
  assert (0 <= total_event_touches es) as Hpos.
  { clear -Hes. induction Hes as [|e es He _ IH]; cbn [total_event_touches]; [done|].
    pose proof (event_touches_nonneg e He). lia. }
  pose proof Hw as (L & Hst & _). pose proof (st_generation _ _ _ Hst).
  pose proof (run_event_safe e w He Hw) as Hs.
  pose proof (run_event_bounded e w He ltac:(lia) ltac:(lia)) as Hb.
  destruct (run_event e w) as [w'| |]; [|done..]. cbn. apply IH; [done|lia].
Qed.

(** C2: transactions never meet undefined behaviour and never abort.  From a
    fresh object, any interleaving of public calls and of snapshots,
    validations, commits and ends of any number of transactions returns,
    whatever fails on the way; afterwards every backing's reference count is
    exactly the number of pages and open transactions that refer to it, and
    once no transaction is open, destroying the object frees every backing. *)
Theorem transactions_safe host es m0 m1 :
  (forall h l, host !! h = Some l -> length l = PAGE) ->
  gem_memory_create host = Ok (Some m0, m1) ->
  Forall event_ok es -> 3 + total_event_touches es < 2 ^ 64 ->
  exists w, run_events es (World m0 []) = Ok w /\ world_inv w /\
    (Forall (fun t => t = None) (wd_handles w) ->
     exists m', gem_memory_destroy (Some (wd_memory w)) = Ok (Some m') /\
       m_pages m' = ∅ /\ m_backings m' = ∅).
Proof.
  intros Hh Hc Hes Hlt. pose proof (gem_memory_create_safe host Hh) as Hs. rewrite Hc in Hs.
  pose proof (create_bounded _ _ _ Hc).
  assert (world_inv (World m0 [])) as Hw.
  { destruct Hs as (L & Hst & HL). exists L. split; [|done]. by apply st_pins_nil. }
  destruct (run_events_total es (World m0 []) Hes Hw) as (w & Hr & Hi); [cbn; lia|].
  exists w. split_and!; [done|done|]. intros Hend. destruct Hi as (L & Hst & HL).
  assert (st no_pins L (wd_memory w)) as Hst'.
  { revert Hst. apply st_pins_eq. intros b. unfold pins_add, world_refs.
    induction Hend as [|t ts -> _ IH]; cbn [fmap list_fmap concat]; [cbn; lia|]. exact IH. }
  pose proof (st_generation _ _ _ Hst'). apply destroy_total; [by exists L|lia|lia].
Qed.

(** ** What a snapshot saw *)

Lemma step_with_evolves {A} (f : M A) store w w' :
  (forall m0, stable (ev m0 [] [] [] []) f) -> 0 <= m_next_generation (wd_memory w) < 2 ^ 64 ->
  step_with f store w = Ok w' -> evolves (wd_memory w) (wd_memory w').
Proof.
  intros Hf H0 H. unfold step_with in H. destruct (f (wd_memory w)) as [[r m]| |] eqn:E; [|done..].
  injection H as <-. eapply Hf; [|exact E]. by apply evolves_refl.
Qed.

Lemma run_event_evolves e w w' :
  0 <= m_next_generation (wd_memory w) < 2 ^ 64 -> run_event e w = Ok w' ->
  evolves (wd_memory w) (wd_memory w').
Proof.
  intros H0 H. destruct e as [c| |i a|i a n wr x|i|i ws n|i]; cbn [run_event] in H.
  { destruct (run_call c (Some (wd_memory w))) as [[m|]| |] eqn:E; [|done..]. injection H as <-.
    by eapply run_call_evolves. }
  all: eapply step_with_evolves; [|exact H0|exact H]; intros m0.
  - apply stable_begin.
  - unfold gem_memory_transaction_snapshot_page. destruct (handle w i); [|apply stable_ret].
    destruct (_ || _); [apply stable_ret|].
    apply stable_bind; [apply stable_snapshot|]. intros [[e t'] o]. apply stable_ret.
  - unfold gem_memory_transaction_validate. destruct (handle w i); [|apply stable_ret].
    destruct (_ && _); [apply stable_ret|]. destruct (_ =? _); [apply stable_ret|].
    destruct (_ <? _); [apply stable_ret|].
    apply stable_bind; [apply stable_validate_pages|]. intros [e t']. apply stable_ret.
  - unfold gem_memory_transaction_finish. destruct (handle w i); [|apply stable_ret].
    apply stable_bind; [apply stable_find_conflict|]. intros c. apply stable_ret.
  - unfold gem_memory_transaction_commit_pages. destruct (handle w i); [|apply stable_ret].
    destruct (_ || _); [apply stable_ret|].
    apply stable_bind; [apply stable_commit|]. intros [[[e f] t'] k]. apply stable_ret.
  - apply stable_end.
Qed.

Lemma run_events_evolves es w w' :
  0 <= m_next_generation (wd_memory w) < 2 ^ 64 -> run_events es w = Ok w' ->
  evolves (wd_memory w) (wd_memory w').
Proof.
  revert w. induction es as [|e es IH]; intros w H0 H; cbn [run_events] in H.
  { injection H as <-. by apply evolves_refl. }
  destruct (run_event e w) as [w1| |] eqn:E; [|done..]. cbn in H.
  pose proof (run_event_evolves _ _ _ H0 E) as He.
  eapply evolves_trans; [exact He|]. apply IH; [|done].
  pose proof (ev_next _ _ _ _ _ _ He). lia.
Qed.

(** The transaction remembers the backing, its generation and the protection
    the page had, up to guards it consumed. *)
Definition remembers (t : gem_memory_transaction) (a : Z) (b : bid) (g prot : Z) : Prop :=
  exists j d, find_dependency t a = Some (j, d) /\ t_backing d = b /\ t_content_generation d = g /\
    t_protection d .&~ GEM_PAGE_GUARD = prot .&~ GEM_PAGE_GUARD.

(** The events that neither commit nor end a transaction. *)
Definition spares (i : nat) (e : event) : bool :=
  match e with EvCommit j _ _ | EvEnd j => negb (bool_decide (j = i)) | _ => true end.

Lemma remembers_snoc t d' a b g prot : remembers t a b g prot -> remembers (t ++ [d']) a b g prot.
Proof.
  intros (j & d & Hd & H). exists j, d. split; [|done]. unfold find_dependency in *. by apply list_find_app_l.
Qed.

(** A dependency whose protection loses the guard. *)
Lemma remembers_consumed t i d0 gen h a b g prot :
  t !! i = Some d0 -> remembers t a b g prot ->
  remembers (<[i := TransactionPage (t_address d0) gen (t_content_generation d0) h (t_backing d0)
                      (t_protection d0 .&~ GEM_PAGE_GUARD) (t_external d0)]> t) a b g prot.
Proof.
  intros Hi (j & d & Hd & Hb & Hg & Hp). unfold find_dependency in *. apply list_find_Some in Hd as (Hj & Ha & Hlt).
  pose proof (lookup_lt_Some _ _ _ Hi) as Hlen.
  assert (forall k y, k < j -> <[i := TransactionPage (t_address d0) gen (t_content_generation d0) h (t_backing d0)
      (t_protection d0 .&~ GEM_PAGE_GUARD) (t_external d0)]> t !! k = Some y -> t_address y <> a)%nat as Hbefore.
  { intros k y Hk Hy. destruct (decide (i = k)) as [->|].
    - rewrite list_lookup_insert_eq in Hy by done. injection Hy as <-. by apply (Hlt k d0).
    - rewrite list_lookup_insert_ne in Hy by done. by eapply Hlt. }
  destruct (decide (i = j)) as [->|].
  - rewrite Hi in Hj. injection Hj as ->. eexists j, _. unfold find_dependency. rewrite list_find_Some.
    split; [split_and!; [by rewrite list_lookup_insert_eq|done|by intros; eapply Hbefore]|].
    cbn. split_and!; [done|done|]. rewrite <- Hp. by rewrite Z.ldiff_ldiff_l, Z.lor_diag.
  - exists j, d. unfold find_dependency. rewrite list_find_Some.
    split; [split_and!; [by rewrite list_lookup_insert_ne|done|by intros; eapply Hbefore]|done].
Qed.

Lemma snapshot_shape t a m e t' out m' :
  snapshot_locked t a m = Ok ((e, t', out), m') -> t' = t \/ exists d, t' = t ++ [d].
Proof.
  unfold snapshot_locked. intros H. apply bind_get_run in H.
  destruct (at_ m a) as [p|]; [|injection H as _ <- _ _; by left]. destruct (p_backing p) as [o|]; [|injection H as _ <- _ _; by left].
  apply bind_run in H as ([b bk] & m1 & _ & H). destruct (match b_data bk with Owned _ => _ | Host _ => _ end); [injection H as _ <- _ _; by left|].
  cbn zeta in H. destruct (find_dependency t a) as [[j d]|].
  - destruct (_ || _); injection H as _ <- _ _; by left.
  - destruct (bool_decide _); [injection H as _ <- _ _; by left|]. apply bind_run in H as (u & m2 & _ & H). injection H as _ <- _ _. eauto.
Qed.

Lemma consume_guard_shape t q i d m e t' m' :
  consume_guard_locked t q i d m = Ok ((e, t'), m') ->
  t' = t \/ exists g h, t' = <[i := TransactionPage (t_address d) g (t_content_generation d) h (t_backing d)
    (t_protection d .&~ GEM_PAGE_GUARD) (t_external d)]> t.
Proof.
  unfold consume_guard_locked. intros H. apply bind_get_run in H. unfold at_ in H.
  destruct (m_pages m !! q) as [p|] eqn:Hq; [|injection H as _ <- _; by left].
  destruct (_ || _) eqn:Hc; [injection H as _ <- _; by left|]. right.
  apply orb_false_iff in Hc as [_ Hc]. apply negb_false_iff, Z.eqb_eq in Hc.
  apply bind_run in H as (u & m1 & (p1 & Hp1 & ->)%modify_page_cases & H).
  rewrite Hq in Hp1. injection Hp1 as <-.
  apply bind_run in H as (u2 & m2 & H2 & H). unfold touch_page in H2.
  apply bind_run in H2 as (g & m3 & H3 & (p2 & Hp2 & ->)%modify_page_cases).
  pose proof (keeps_bump m_pages ltac:(done) _ _ _ H3) as Hk. rewrite Hk in Hp2. cbn in Hp2.
  rewrite lookup_insert_eq in Hp2. injection Hp2 as <-.
  apply bind_run in H as (p3 & m4 & (-> & Hp3)%deref_page_cases & H).
  cbn in Hp3. rewrite lookup_insert_eq in Hp3. injection Hp3 as <-.
  apply bind_run in H as ([b bk] & m5 & _ & H). apply bind_get_run in H. injection H as _ <- _.
  exists g, (hash_of bk (contents m5 bk)). cbn. by rewrite Hc.
Qed.

Lemma validate_page_remembers t q w x m e t' m' a b g prot :
  validate_page t q w x m = Ok ((e, t'), m') -> remembers t a b g prot -> remembers t' a b g prot.
Proof.
  unfold validate_page. intros H Ht. apply bind_run in H as ([e1 t1] & m1 & H1 & H).
  assert (remembers t1 a b g prot) as Ht1.
  { destruct (find_dependency t q); [by injection H1 as _ <- _|].
    destruct (bool_decide _); [by injection H1 as _ <- _|].
    unfold track_locked in H1. apply bind_get_run in H1.
    destruct (at_ m q) as [p|]; [|by injection H1 as _ <- _]. destruct (p_backing p) as [o|]; [|by injection H1 as _ <- _].
    apply bind_run in H1 as ([c bk] & m2 & _ & H1). apply bind_run in H1 as (u & m3 & _ & H1).
    injection H1 as _ <- _. by apply remembers_snoc. }
  destruct (negb _); [by injection H as _ <- _|].
  destruct (find_dependency t1 q) as [[i d]|] eqn:E; [|done]. apply find_dependency_Some in E as [Hi _].
  destruct (negb _); [by injection H as _ <- _|]. destruct (has_bits _ _); [|by injection H as _ <- _].
  destruct (consume_guard_shape _ _ _ _ _ _ _ _ H) as [->|(gen & h & ->)]; [done|].
  by apply remembers_consumed.
Qed.

Lemma validate_pages_remembers t ks w x m e t' m' a b g prot :
  validate_pages t ks w x m = Ok ((e, t'), m') -> remembers t a b g prot -> remembers t' a b g prot.
Proof.
  revert t m. induction ks as [|k ks IH]; intros t m H Ht; cbn [validate_pages] in H; [by injection H as _ <- _|].
  apply bind_run in H as ([e1 t1] & m1 & H1 & H). eapply validate_page_remembers in H1; [|done].
  destruct (bool_decide _); [by eapply IH|by injection H as _ <- _].
Qed.

Definition handle_remembers (w : world) i a b g prot : Prop :=
  exists t, wd_handles w !! i = Some (Some t) /\ remembers t a b g prot.

Lemma handle_remembers_update w m i j t' a b g prot :
  handle_remembers w i a b g prot ->
  (forall t, handle w j = Some t -> remembers t a b g prot ->
     exists t1, t' = Some t1 /\ remembers t1 a b g prot) ->
  handle_remembers (World m (<[j := t']> (wd_handles w))) i a b g prot.
Proof.
  intros (t & Hi & Ht) H. unfold handle_remembers. cbn [wd_handles]. destruct (decide (j = i)) as [->|].
  - destruct (H t) as (t1 & -> & Ht1); [unfold handle; by rewrite Hi|done|].
    exists t1. split; [|done]. apply list_lookup_insert_eq. by eapply lookup_lt_Some.
  - exists t. by rewrite list_lookup_insert_ne.
Qed.

Lemma step_with_run {A} (f : M A) store w w' :
  step_with f store w = Ok w' -> exists r m, f (wd_memory w) = Ok (r, m) /\ w' = World m (store r).
Proof. unfold step_with. destruct (f _) as [[r m]| |]; [|done..]. intros [= <-]. eauto. Qed.

Lemma run_event_remembers e w w' i a b g prot :
  spares i e = true -> run_event e w = Ok w' -> handle_remembers w i a b g prot ->
  handle_remembers w' i a b g prot.
Proof.
  intros He H Hi. destruct e as [c| |j q|j q n wr ex|j|j ws n|j]; cbn [run_event] in H.
  { destruct (run_call c _) as [[m|]| |]; [|done..]. by injection H as <-. }
  all: apply step_with_run in H as (r & m & H & ->).
  - destruct Hi as (t & Hi & Ht). exists t. split; [|done]. cbn. by apply lookup_app_l_Some.
  - apply handle_remembers_update; [done|]. intros t Ht Hr. rewrite Ht in H.
    unfold gem_memory_transaction_snapshot_page in H. destruct (_ || _); [injection H as <- _; by exists t|].
    apply bind_run in H as ([[e t'] o] & m1 & H1 & H). injection H as <- _. exists t'. split; [done|].
    destruct (snapshot_shape _ _ _ _ _ _ _ H1) as [->|[d ->]]; [done|by apply remembers_snoc].
  - apply handle_remembers_update; [done|]. intros t Ht Hr. rewrite Ht in H.
    unfold gem_memory_transaction_validate in H. destruct (_ && _); [injection H as <- _; by exists t|].
    destruct (_ =? _); [injection H as <- _; by exists t|]. destruct (_ <? _); [injection H as <- _; by exists t|].
    apply bind_run in H as ([e t'] & m1 & H1 & H). injection H as <- _. exists t'. split; [done|].
    by eapply validate_pages_remembers.
  - done.
  - apply negb_true_iff, bool_decide_eq_false in He. destruct Hi as (t & Hi & Ht). exists t.
    cbn [wd_handles]. by rewrite list_lookup_insert_ne.
  - apply negb_true_iff, bool_decide_eq_false in He. destruct Hi as (t & Hi & Ht). exists t.
    cbn [wd_handles]. by rewrite list_lookup_insert_ne.
Qed.

Lemma run_events_remembers es w w' i a b g prot :
  forallb (spares i) es = true -> run_events es w = Ok w' -> handle_remembers w i a b g prot ->
  handle_remembers w' i a b g prot.
Proof.
  revert w. induction es as [|e es IH]; intros w He H Hi; cbn [run_events] in H; [by injection H as <-|].
  cbn in He. apply andb_true_iff in He as [He Hes].
  destruct (run_event e w) as [w1| |] eqn:E; [|done..]. cbn in H.
  eapply IH; [done|done|]. by eapply run_event_remembers.
Qed.

(** No conflict: every page is as its dependency remembers it. *)
Lemma find_conflict_None t m m' :
  find_conflict t m = Ok (None, m') -> m' = m /\
  forall d, d ∈ t -> exists p bk, m_pages m !! t_address d = Some p /\
    p_backing p = Some (t_backing d) /\ m_backings m !! t_backing d = Some bk /\
    p_generation p = t_generation d /\ b_generation bk = t_content_generation d /\
    p_protection p = t_protection d /\
    (t_external d = true -> content_hash (contents m bk) = t_content_hash d).
Proof.
  induction t as [|d t IH]; cbn [find_conflict]; intros H; [injection H as <-; split; [done|set_solver]|].
  apply bind_run in H as (c & m1 & H1 & H). destruct c; [done|].
  unfold changed in H1. apply bind_get_run in H1. unfold at_ in H1.
  destruct (m_pages m !! t_address d) as [p|] eqn:Hp; [|done].
  destruct (bool_decide (p_backing p = Some (t_backing d))) eqn:Hb; cbn [negb] in H1; [|done].
  apply bool_decide_eq_true in Hb. apply bind_run in H1 as ([b bk] & m2 & H2 & H1).
  apply deref_backing_cases in H2 as (Hbb & -> & Hbk). cbn [fst snd] in *.
  rewrite Hb in Hbb. injection Hbb as <-. injection H1 as Hd <-.
  destruct (IH H) as [-> Ht]. split; [done|]. intros d' [->|Hd']%elem_of_cons; [|by apply Ht].
  unfold differs in Hd. apply orb_false_iff in Hd as [Hd He]. apply orb_false_iff in Hd as [Hd Hpr].
  apply orb_false_iff in Hd as [Hg Hc]. apply negb_false_iff, Z.eqb_eq in Hg, Hc, Hpr.
  exists p, bk. split_and!; try done. intros Hx. rewrite Hx in He. cbn in He.
  by apply negb_false_iff, Z.eqb_eq in He.
Qed.

Lemma snapshot_remembers t a m t' data prot m' :
  snapshot_locked t a m = Ok ((GEM_MEMORY_OK, t', Some (data, prot)), m') ->
  exists p b bk, m_pages m !! a = Some p /\ p_backing p = Some b /\ m_backings m !! b = Some bk /\
    data = contents m bk /\ prot = p_protection p /\
    remembers t' a b (b_generation bk) prot.
Proof.
  unfold snapshot_locked. intros H. apply bind_get_run in H. unfold at_ in H.
  destruct (m_pages m !! a) as [p|] eqn:Hp; [|done].
  destruct (p_backing p) as [o|] eqn:Ho; [|done].
  apply bind_run in H as ([b bk] & m1 & H1 & H).
  apply deref_backing_cases in H1 as (Hb & -> & Hbk). cbn [fst snd] in *. injection Hb as ->.
  destruct (match b_data bk with Owned _ => _ | Host _ => _ end); [done|]. cbn zeta in H.
  exists p, b, bk. destruct (find_dependency t a) as [[j d]|] eqn:E.
  - destruct (_ || _) eqn:Hd; [done|]. injection H as <- <- <- _. split_and!; try done.
    apply orb_false_iff in Hd as [Hb Hd]. apply negb_false_iff, bool_decide_eq_true in Hb.
    unfold differs in Hd. apply orb_false_iff in Hd as [Hd _]. apply orb_false_iff in Hd as [Hd Hpr].
    apply orb_false_iff in Hd as [_ Hc]. apply negb_false_iff, Z.eqb_eq in Hc, Hpr.
    exists j, d. split_and!; congruence.
  - destruct (bool_decide _); [done|]. apply bind_run in H as (u & m2 & _ & H).
    injection H as <- <- <- _. split_and!; try done. eexists _, _.
    split; [by apply find_dependency_snoc|done].
Qed.
(** Success means that no dependency had changed. *)
Lemma finish_valid t f m m' :
  gem_memory_transaction_finish t m = Ok ((GEM_MEMORY_OK, f), m') ->
  exists t', t = Some t' /\ exists m1, find_conflict t' m = Ok (None, m1).
Proof.
  destruct t as [t|]; [|done]. cbn. intros H. apply bind_run in H as (c & m1 & H1 & H).
  destruct c; [done|]. eauto.
Qed.

Lemma commit_valid t ws n f t' k m m' :
  gem_memory_transaction_commit_pages t ws n m = Ok ((GEM_MEMORY_OK, f, t', k), m') ->
  exists t0, t = Some t0 /\ exists m1, find_conflict t0 m = Ok (None, m1).
Proof.
  destruct t as [t|]; [|done]. cbn. destruct (_ || _); [done|]. intros H.
  apply bind_run in H as ([[[e f1] t1] k1] & m1 & H1 & H). injection H as -> _ _ _ _.
  unfold commit_locked_pages in H1. apply bind_run in H1 as ([[[[e1 f2] t2] pes] n1] & m2 & H1 & H2).
  unfold commit_publish in H1. apply bind_run in H1 as (c & m3 & H1 & H3).
  exists t. split; [done|]. destruct c; [|eauto]. injection H3 as <- <- <- <- <- <-.
  by cbn in H2.
Qed.

End world.

(** ** Concrete runs *)

(** A platform whose uninitialised words hold [junk] and where all host memory
    is accessible. *)
Definition littered (junk : Z) : Platform :=
  {| allocation k := if decide (k < 64)%nat then Some junk else None;
     vm_region _ := Some (0, 2 ^ 40, true, true) |}.

(** Run events on a new object. *)
Definition history (p : Platform) (es : list event) : world :=
  match run_events es (World created []) with Ok w => w | _ => World (Mem ∅ ∅ ∅ 0 0) [] end.

Lemma history_inv p es :
  Forall event_ok es ->
  match gem_memory_create (platform := p) ∅ with Ok (Some _, _) => true | _ => false end = true ->
  3 + total_event_touches es < 2 ^ 64 -> world_inv (history p es).
Proof.
  intros Hes Hc Hlt. pose proof (gem_memory_create_safe (platform := p) ∅) as Hs. unfold history, created.
  pose proof (create_bounded (platform := p) ∅) as Hb.
  destruct (gem_memory_create ∅) as [[[m|] m1]| |]; try done.
  specialize (Hb m m1 eq_refl).
  destruct (run_events_total (platform := p) es (World m [])) as (w & Hr & Hi).
  - done.
  - destruct Hs as (L & Hst & HL); [intros h l; by rewrite lookup_empty|].
    exists L. split; [|done]. by apply st_pins_nil.
  - cbn. lia.
  - by rewrite Hr.
Qed.

(** The only transaction owns the references outside the page table. *)
Lemma single_owner w t :
  world_inv w -> wd_handles w = [Some t] -> inv (pins_add no_pins (dep_refs t)) (wd_memory w).
Proof.
  intros (L & Hst & HL) Hh. exists L. split; [|done]. revert Hst. rewrite Hh.
  unfold world_refs. cbn [fmap list_fmap concat]. by rewrite app_nil_r.
Qed.

(** What [finish] returns for the first transaction, and the page's first byte. *)
Definition finish_first (w : world) : option gem_memory_error :=
  match gem_memory_transaction_finish (handle w 0) (wd_memory w) with
  | Ok (r, _) => Some r.1
  | _ => None
  end.
Definition first_byte (w : world) (a : Z) : option Z := view (wd_memory w) a ≫= head.

(** One committed page with an alias. *)
Definition shared_page : list event :=
  EvCall <$> [CallReserve (Some 0) 4096; CallCommit 0x100000000 4096 GEM_PAGE_READWRITE;
    CallAlias 0x200000000 0x100000000 4096 GEM_PAGE_READWRITE].

(** A page of host memory mapped twice, the first mapping guarded. *)
Definition shared_host_page : list event :=
  EvCall <$> [CallReserve (Some 0x100000000) 4096;
    CallCommitExternal 0x100000000 0x40000 4096 (GEM_PAGE_READWRITE .| GEM_PAGE_GUARD);
    CallReserve (Some 0x200000000) 4096;
    CallCommitExternal 0x200000000 0x40000 4096 GEM_PAGE_READWRITE].

Definition safety_events : list event :=
  shared_page ++
  [EvBegin; EvSnapshot 0 0x100000000; EvBegin; EvSnapshot 1 0x200000000;
   EvCommit 0 (Some [PageWrite 0x100000000 (Some (replicate PAGE 5))]) 1;
   EvFinish 1; EvCall (CallUnmap 0x100000000 4096);
   EvValidate 0 0x200000000 1 true false; EvEnd 1; EvEnd 0].

Lemma transactions_safe_witness :
  exists m0, gem_memory_create (platform := plenty 64) ∅ = Ok (Some m0, m0) /\
  exists w, run_events (platform := plenty 64) safety_events (World m0 []) = Ok w /\ world_inv w /\
    exists m', gem_memory_destroy (Some (wd_memory w)) = Ok (Some m') /\
      m_pages m' = ∅ /\ m_backings m' = ∅.
Proof.
  eexists. split; [vm_compute; reflexivity|].
  edestruct (transactions_safe (platform := plenty 64) ∅ safety_events) as (w & Hr & Hi & Hd).
  - intros h l. rewrite lookup_empty. discriminate.
  - vm_compute. reflexivity.
  - apply (bool_decide_unpack _). vm_compute. exact I.
  - vm_compute. reflexivity.
  - exists w. split; [exact Hr|]. split; [exact Hi|]. apply Hd.
    assert (forall w', run_events (platform := plenty 64) safety_events
      (World (match gem_memory_create (platform := plenty 64) ∅ with Ok (Some m, _) => m | _ => Mem ∅ ∅ ∅ 0 0 end) [])
      = Ok w' -> wd_handles w' = [None; None]) as Hh.
    { intros w' E. revert E. vm_compute. intros E. injection E as <-. reflexivity. }
    rewrite (Hh w Hr). repeat constructor.
Defined.

(** The page is read, another page of the process changes, and the page is
    validated for a write. *)
Definition read_events : list event :=
  [EvCall (CallWrite 0x7ffe0000 (Some [1]) 1); EvValidate 0 0x100000000 8 true false].


(** A backing's generation starts as whatever malloc left there.  When that
    happens to be the next value of the counter, a write to the page through its
    alias gives the backing the generation it already had, and the transaction
    that read the page before finishes without a conflict. *)
Theorem stale_generation_missed :
  let before := history (littered 7) (shared_page ++ [EvBegin; EvSnapshot 0 0x100000000]) in
  let later := history (littered 7) (shared_page ++ [EvBegin; EvSnapshot 0 0x100000000;
    EvCall (CallWrite 0x200000000 (Some [1]) 1)]) in
  first_byte before 0x100000000 = Some 0 /\ first_byte later 0x100000000 = Some 1 /\
  finish_first later = Some GEM_MEMORY_OK.
Proof. vm_compute. split_and!; reflexivity. Qed.

(** Writing one shared page under two addresses in one commit leaves the first
    dependency with the content generation of the first write only: the commit
    succeeds, and the transaction then conflicts with itself. *)
Theorem aliased_commit_self_conflict :
  let page := Some (replicate PAGE 1) in
  let w := history (littered 0) (shared_page ++ [EvBegin; EvSnapshot 0 0x100000000; EvSnapshot 0 0x200000000;
    EvCommit 0 (Some [PageWrite 0x100000000 page; PageWrite 0x200000000 page]) 2]) in
  first_byte w 0x100000000 = Some 1 /\ finish_first w = Some GEM_MEMORY_CONFLICT.
Proof. vm_compute. split_and!; reflexivity. Qed.

(** Consuming a guard refreshes the content hash of an external page, so a
    change of its bytes between the snapshot and the validation goes unnoticed:
    the transaction finishes although the byte it read was 0. *)
Theorem guard_hides_external_change :
  let before := history (littered 0) (shared_host_page ++ [EvBegin; EvSnapshot 0 0x100000000]) in
  let later := history (littered 0) (shared_host_page ++ [EvBegin; EvSnapshot 0 0x100000000;
    EvCall (CallWrite 0x200000000 (Some [1]) 1); EvValidate 0 0x100000000 1 true false]) in
  first_byte before 0x100000000 = Some 0 /\ first_byte later 0x100000000 = Some 1 /\
  finish_first later = Some GEM_MEMORY_OK.
Proof. vm_compute. split_and!; reflexivity. Qed.
