(* ===== verification/TransactionCommit.v ===== *)
(** TransactionCommit: what a commit writes.  A successful commit stores every
    page of the write set in full, shows it through every alias of the page,
    keeps the other views of a copy-on-write page as they were, and changes
    nothing else; a failed one changes nothing but at most one guard. *)
From S2P Require Import Prelude MemoryModel Memory MemoryLogic MemoryInv MemoryTotal MemorySpec MemoryAtomic MemoryHistory.
From S2P Require Import Transaction TransactionInv TransactionHistory TransactionWorld.

(** ** Bytes replaced at some locations *)

Definition location_in (b : bid) (s : storage) : location :=
  match s with Owned _ => InBacking b | Host h => InHost h end.

Lemma backing_location_Some m b bk :
  m_backings m !! b = Some bk -> backing_location m b = Some (location_in b (b_data bk)).
Proof. intros H. unfold backing_location. by rewrite H. Qed.

(** The last entry for a location. *)
Fixpoint overlay (l : list (location * list Z)) (x : location) : option (list Z) :=
  match l with
  | [] => None
  | (y, d) :: l =>
    match overlay l x with
    | Some d' => Some d'
    | None => if decide (y = x) then Some d else None
    end
  end.

Lemma overlay_app l1 l2 x :
  overlay (l1 ++ l2) x = match overlay l2 x with Some d => Some d | None => overlay l1 x end.
Proof.
  induction l1 as [|[y d] l1 IH]; cbn; [by destruct (overlay l2 x)|].
  rewrite IH. by destruct (overlay l2 x).
Qed.

Lemma overlay_None l x : x ∉ l.*1 -> overlay l x = None.
Proof.
  induction l as [|[y d] l IH]; cbn; intros H; [done|].
  rewrite IH by set_solver. by rewrite decide_False by set_solver.
Qed.

Lemma overlay_Some l x d :
  (forall d', (x, d') ∈ l -> d' = d) -> x ∈ l.*1 -> overlay l x = Some d.
Proof.
  induction l as [|[y d1] l IH]; cbn; intros H Hx; [set_solver|].
  destruct (decide (x ∈ l.*1)) as [Hl|Hl].
  - rewrite IH; [done| |done]. intros d' Hd. apply H. set_solver.
  - rewrite overlay_None by done. rewrite decide_True by set_solver. f_equal. apply H. set_solver.
Qed.

(** The backings of [m'] are backings of [m], stored where they were, with the
    bytes that [l] gives their location and otherwise their own. *)
Definition rewrites (l : list (location * list Z)) (m m' : mem) : Prop :=
  forall i bk', m_backings m' !! i = Some bk' ->
    exists bk, m_backings m !! i = Some bk /\
      location_in i (b_data bk') = location_in i (b_data bk) /\
      contents m' bk' = default (contents m bk) (overlay l (location_in i (b_data bk))).

Lemma rewrites_refl m : rewrites [] m m.
Proof. intros i bk H. by exists bk. Qed.

Lemma rewrites_trans l1 l2 m1 m2 m3 :
  rewrites l1 m1 m2 -> rewrites l2 m2 m3 -> rewrites (l1 ++ l2) m1 m3.
Proof.
  intros H1 H2 i bk3 Hb3. destruct (H2 _ _ Hb3) as (bk2 & Hb2 & Hl2 & Hc2).
  destruct (H1 _ _ Hb2) as (bk1 & Hb1 & Hl1 & Hc1). exists bk1. split_and!; [done|congruence|].
  rewrite overlay_app, Hc2, Hl1. destruct (overlay l2 (location_in i (b_data bk1))); [done|exact Hc1].
Qed.

Lemma rewrites_shrinks m m' : data_shrinks m m' -> rewrites [] m m'.
Proof.
  intros [Hh Hd] i bk' H. destruct (Hd _ _ H) as (bk & Hb & E). exists bk.
  split_and!; [done|by rewrite E|]. cbn. unfold contents, host_page. by rewrite E, Hh.
Qed.

Lemma rewrites_run {A} (f : M A) m a m' : shrinks f -> f m = Ok (a, m') -> rewrites [] m m'.
Proof. intros Hf H. apply rewrites_shrinks. by eapply Hf. Qed.

(** One store, of any number of bytes. *)
Lemma rewrites_store i bk off src m u m' :
  m_backings m !! i = Some bk -> store_backing (Some i) off src m = Ok (u, m') ->
  rewrites [(location_in i (b_data bk), memcpy (contents m bk) off src)] m m'.
Proof.
  intros Hi H. unfold store_backing, deref_backing, put_backing, mbind, M_bind, get, put in H.
  rewrite Hi in H. cbn in H.
  assert (contents m bk = match b_data bk with Owned l => l | Host h => host_page m h end) as -> by done.
  destruct (b_data bk) as [l|h] eqn:Hd; injection H as _ <-; intros j bk' Hj; cbn in Hj; cbn [overlay location_in].
  - destruct (decide (i = j)) as [<-|].
    + rewrite lookup_insert_eq in Hj. injection Hj as <-. exists bk. rewrite Hd. cbn [b_data location_in contents].
      rewrite decide_True by done. by split_and!.
    + rewrite lookup_insert_ne in Hj by done. exists bk'. rewrite decide_False; [by split_and!|].
      destruct (b_data bk'); cbn; congruence.
  - exists bk'. split_and!; [done|done|]. unfold contents, host_page. cbn [m_host set_host].
    destruct (b_data bk') as [l|h']; cbn [location_in]; [by rewrite decide_False|].
    destruct (decide (h = h')) as [<-|Hne].
    + rewrite lookup_insert_eq, decide_True by done. done.
    + rewrite lookup_insert_ne by done. rewrite decide_False by congruence. done.
Qed.

Lemma store_live i bk off src m u m' :
  m_backings m !! i = Some bk -> store_backing (Some i) off src m = Ok (u, m') ->
  is_Some (m_backings m' !! i).
Proof.
  intros Hi H. unfold store_backing, deref_backing, put_backing, mbind, M_bind, get, put in H.
  rewrite Hi in H. cbn in H. destruct (b_data bk); injection H as _ <-; cbn;
    [rewrite lookup_insert_eq|rewrite Hi]; eauto.
Qed.

Lemma rewrites_store_again i bk d1 off src m m1 u m2 :
  m_backings m !! i = Some bk -> is_Some (m_backings m1 !! i) ->
  rewrites [(location_in i (b_data bk), d1)] m m1 -> store_backing (Some i) off src m1 = Ok (u, m2) ->
  rewrites [(location_in i (b_data bk), memcpy d1 off src)] m m2.
Proof.
  intros Hi [bk1 Hi1] H1 H2. destruct (H1 _ _ Hi1) as (bk' & Hi' & Hl & Hc).
  rewrite Hi in Hi'. injection Hi' as <-. cbn in Hc. rewrite decide_True in Hc by done. cbn in Hc.
  pose proof (rewrites_store _ _ _ _ _ _ _ Hi1 H2) as H3. rewrite Hl, Hc in H3.
  intros j bk' Hj. destruct (rewrites_trans _ _ _ _ _ H1 H3 j bk' Hj) as (bk0 & ? & ? & Hc').
  exists bk0. split_and!; [done|done|]. rewrite Hc'. cbn. by destruct (decide _).
Qed.

(** ** The copying loop *)

(** The bytes after some lines have been copied. *)
Definition lines_over (data : list Z) (lines : list Z) (l : list Z) : list Z :=
  foldl (fun l line => memcpy l line (bytes_at data line GEM_MEMORY_CACHE_LINE)) l lines.

Lemma memcpy_same l off n :
  0 <= off -> (Z.to_nat off + Z.to_nat n <= length l)%nat -> memcpy l off (bytes_at l off n) = l.
Proof.
  intros H0 Hn. unfold memcpy, bytes_at. rewrite length_take, length_drop, Nat.min_l by lia.
  rewrite <- drop_drop. rewrite (take_drop (Z.to_nat n)). apply take_drop.
Qed.

Lemma copy_lines_run i bk data lines n m k m' :
  m_backings m !! i = Some bk -> length (contents m bk) = PAGE -> length data = PAGE ->
  (forall line, line ∈ lines -> 0 <= line /\ line + 64 <= 4096) ->
  copy_lines (Some i) data lines n m = Ok (k, m') ->
  m_pages m' = m_pages m /\ is_Some (m_backings m' !! i) /\
  rewrites [(location_in i (b_data bk), lines_over data lines (contents m bk))] m m'.
Proof.
  intros Hi Hlen Hd Hl H.
  assert (forall m1 d1, length d1 = PAGE -> m_pages m1 = m_pages m -> is_Some (m_backings m1 !! i) ->
    rewrites [(location_in i (b_data bk), d1)] m m1 -> copy_lines (Some i) data lines n m1 = Ok (k, m') ->
    m_pages m' = m_pages m /\ is_Some (m_backings m' !! i) /\
    rewrites [(location_in i (b_data bk), lines_over data lines d1)] m m') as Hgen.
  { clear H. revert n Hl. induction lines as [|line lines IH]; intros n Hl m1 d1 Hd1 Hp1 Hi1 H1 H;
      cbn [copy_lines lines_over foldl] in *; [injection H as _ <-; by split_and!|].
    apply bind_run in H as ([j bk1] & m2 & (Hj & -> & Hbk1)%deref_backing_cases & H). cbn [fst snd] in *.
    injection Hj as <-. apply bind_get_run in H. cbn zeta in H.
    destruct (H1 _ _ Hbk1) as (bk' & Hi' & _ & Hc). rewrite Hi in Hi'. injection Hi' as <-.
    cbn in Hc. rewrite decide_True in Hc by done. cbn in Hc. rewrite Hc in H.
    destruct (Hl line) as [Hl0 Hl1]; [set_solver|].
    assert (length (memcpy d1 line (bytes_at data line GEM_MEMORY_CACHE_LINE)) = PAGE) as Hd2.
    { rewrite length_memcpy; [done|]. rewrite length_bytes_at_full; rewrite ?Hd, ?Hd1;
        unfold PAGE, GEM_GUEST_PAGE_SIZE, GEM_MEMORY_CACHE_LINE; lia. }
    case_bool_decide as He.
    - rewrite <- He, memcpy_same; [|done|].
      + eapply (IH n ltac:(set_solver) m1); done.
      + rewrite Hd1. unfold PAGE, GEM_GUEST_PAGE_SIZE, GEM_MEMORY_CACHE_LINE; lia.
    - apply bind_run in H as (u & m2 & H2 & H).
      eapply (IH _ ltac:(set_solver) m2); [exact Hd2| | | |exact H].
      + rewrite <- Hp1. by eapply (keeps_store_backing m_pages (Some i) line _ ltac:(done) ltac:(done)).
      + by eapply store_live.
      + by eapply rewrites_store_again. }
  eapply Hgen; [exact Hlen|done|by rewrite Hi| |exact H].
  intros j bk' Hj. exists bk'. split_and!; [done|done|]. cbn. case_decide as E; [|done]. cbn.
  destruct (b_data bk) as [l|h] eqn:E1, (b_data bk') as [l'|h'] eqn:E2; cbn in E; try done.
  - injection E as <-. congruence.
  - injection E as <-. unfold contents. by rewrite E1, E2.
Qed.

(** All the lines cover the page. *)
Lemma lines_over_page data l :
  length l = PAGE -> length data = PAGE -> lines_over data cache_lines l = data.
Proof.
  intros Hl Hd. unfold lines_over.
  assert (forall lines d1, length d1 = PAGE -> (forall line, line ∈ lines -> 0 <= line /\ line + 64 <= 4096) ->
    let d2 := foldl (fun l line => memcpy l line (bytes_at data line GEM_MEMORY_CACHE_LINE)) d1 lines in
    length d2 = PAGE /\
    forall i, d2 !! i = data !! i \/
      (d2 !! i = d1 !! i /\ forall line, line ∈ lines -> ~ (Z.to_nat line <= i < Z.to_nat line + 64)%nat)) as Hgen.
  { induction lines as [|line lines IH]; intros d1 Hd1 Hin; cbn [foldl].
    { split; [done|]. intros i. right. split; [done|]. set_solver. }
    destruct (Hin line) as [H0 H1]; [set_solver|].
    assert (length (bytes_at data line GEM_MEMORY_CACHE_LINE) = 64%nat) as Hlen.
    { rewrite length_bytes_at_full; rewrite ?Hd; unfold PAGE, GEM_GUEST_PAGE_SIZE, GEM_MEMORY_CACHE_LINE; lia. }
    assert (Z.to_nat line + 64 <= length d1)%nat as Hfit.
    { rewrite Hd1. unfold PAGE, GEM_GUEST_PAGE_SIZE. lia. }
    destruct (IH (memcpy d1 line (bytes_at data line GEM_MEMORY_CACHE_LINE))) as [Hl2 Hi2].
    { rewrite length_memcpy; [done|]. by rewrite Hlen. }
    { set_solver. }
    split; [done|]. intros i. destruct (Hi2 i) as [?|[E Hn]]; [by left|].
    rewrite lookup_memcpy in E by (lia || by rewrite Hlen). rewrite Hlen in E. case_decide as Hi.
    - left. rewrite E, lookup_bytes_at by (unfold GEM_MEMORY_CACHE_LINE; lia). f_equal. lia.
    - right. split; [done|]. intros x [->|Hx]%elem_of_cons; [lia|by apply Hn]. }
  destruct (Hgen cache_lines l Hl) as [Hlen Hi]; [apply elem_of_cache_lines|].
  apply list_eq. intros i. destruct (Hi i) as [?|[E Hn]]; [done|].
  destruct (decide (i < PAGE)%nat) as [Hlt|Hge].
  - exfalso. apply (Hn (64 * (Z.of_nat i / 64))).
    + unfold cache_lines. apply list_elem_of_fmap. exists (Z.of_nat i / 64). split; [done|].
      apply elem_of_seqZ. change (GEM_GUEST_PAGE_SIZE / GEM_MEMORY_CACHE_LINE) with 64.
      unfold PAGE, GEM_GUEST_PAGE_SIZE in Hlt. pose proof (Z.div_pos (Z.of_nat i) 64).
      pose proof (Z.div_lt_upper_bound (Z.of_nat i) 64 64). lia.
    + pose proof (Z.div_mod (Z.of_nat i) 64). pose proof (Z.mod_pos_bound (Z.of_nat i) 64). 
      pose proof (Z.div_pos (Z.of_nat i) 64). lia.
  - by rewrite !lookup_ge_None_2 by lia.
Qed.

Lemma copy_page_run i bk data n m k m' :
  data_ok m -> m_backings m !! i = Some bk -> length data = PAGE ->
  copy_lines (Some i) data cache_lines n m = Ok (k, m') ->
  m_pages m' = m_pages m /\ is_Some (m_backings m' !! i) /\
  rewrites [(location_in i (b_data bk), data)] m m'.
Proof.
  intros Hok Hi Hd H.
  assert (length (contents m bk) = PAGE) as Hlen by (apply length_contents; [done|by apply Hok in Hi]).
  pose proof (copy_lines_run _ _ _ _ _ _ _ _ Hi Hlen Hd elem_of_cache_lines H) as Hr.
  by rewrite lines_over_page in Hr.
Qed.

Lemma rewrites_data_ok m m' : rewrites [] m m' -> data_ok m -> m_host m' = m_host m -> data_ok m'.
Proof.
  intros Hr [Hb Hh] E. split; [|by rewrite E]. intros i bk' Hi. destruct (Hr _ _ Hi) as (bk & Hbk & Hl & Hc).
  cbn in Hc. specialize (Hb _ _ Hbk). unfold contents in Hc.
  destruct (b_data bk'), (b_data bk); cbn in *; try done. by subst.
Qed.

(** Copying a page looks at its backing. *)
Lemma copy_lines_live b data n m k m' :
  copy_lines (Some b) data cache_lines n m = Ok (k, m') -> is_Some (m_backings m !! b).
Proof.
  assert (exists rest, cache_lines = 0 :: rest) as [rest ->] by (eexists; reflexivity).
  cbn [copy_lines]. intros H. apply bind_run in H as ([b' bk] & m1 & (Hb & _ & Hbk)%deref_backing_cases & _).
  injection Hb as <-. by exists bk.
Qed.

(** ** Shrinking steps *)

Lemma shrinks_add_ref b : shrinks (add_ref b).
Proof.
  intros m u m' H. unfold add_ref in H. apply bind_run in H as ([c bk] & m1 & (_ & -> & Hc)%deref_backing_cases & H).
  injection H as _ <-. split; [done|]. intros j bk'. cbn in *. destruct (decide (c = j)) as [<-|].
  - rewrite lookup_insert_eq. intros [= <-]. eauto.
  - rewrite lookup_insert_ne by done. eauto.
Qed.

Lemma shrinks_touch_backing b : shrinks (touch_backing b).
Proof.
  unfold touch_backing. apply shrinks_bind; [apply shrinks_keeps; auto with gem|]. intros g m u m' H.
  apply bind_run in H as ([c bk] & m1 & (_ & -> & Hc)%deref_backing_cases & H).
  injection H as _ <-. split; [done|]. intros j bk'. cbn in *. destruct (decide (c = j)) as [<-|].
  - rewrite lookup_insert_eq. intros [= <-]. eauto.
  - rewrite lookup_insert_ne by done. eauto.
Qed.

Lemma shrinks_ret {A} (a : A) : shrinks (mret a).
Proof. apply shrinks_keeps. auto with gem. Qed.

Lemma shrinks_for_each {A} (body : A -> M unit) l : (forall x, shrinks (body x)) -> shrinks (for_each l body).
Proof. intros H. induction l; cbn; [apply shrinks_ret|]. by apply shrinks_bind. Qed.

Lemma shrinks_update a p b bk data t : shrinks (update_dependencies a (refresh_dependency p b bk data) t).
Proof.
  induction t as [|d t IH]; cbn [update_dependencies]; [apply shrinks_ret|].
  apply shrinks_bind; [|intros d'; apply shrinks_bind; [done|intros; apply shrinks_ret]].
  destruct (_ =? _); [|apply shrinks_ret]. unfold refresh_dependency.
  apply shrinks_bind; [|intros; apply shrinks_ret]. destruct (negb _); [|apply shrinks_ret].
  apply shrinks_bind; [apply shrinks_drop|intros; apply shrinks_add_ref].
Qed.

Lemma keeps_update {X} (proj : mem -> X) a p b bk data t :
  (forall m bs, proj (set_backings m bs) = proj m) ->
  keeps proj (update_dependencies a (refresh_dependency p b bk data) t).
Proof.
  intros Hp. induction t as [|d t IH]; cbn [update_dependencies]; [apply keeps_ret|].
  apply keeps_bind; [|intros d'; apply keeps_bind; [done|intros; apply keeps_ret]].
  destruct (_ =? _); [|apply keeps_ret]. unfold refresh_dependency.
  apply keeps_bind; [|intros; apply keeps_ret]. destruct (negb _); [|apply keeps_ret].
  apply keeps_bind; [by apply keeps_drop|intros; by apply keeps_add_ref].
Qed.

Lemma install_copy_run a copy p m u m' :
  m_pages m !! a = Some p -> install_copy a copy m = Ok (u, m') ->
  data_shrinks m m' /\
  exists p', m_pages m' = <[a := p']> (m_pages m) /\
    p_backing p' = match copy with Some c => Some c | None => p_backing p end.
Proof.
  intros Ha H. unfold install_copy in H.
  apply bind_run in H as (p0 & m1 & (-> & Hp0)%deref_page_cases & H). rewrite Ha in Hp0. injection Hp0 as <-.
  destruct copy as [c|].
  - apply bind_run in H as (v & m1 & H1 & (q & Hq & ->)%modify_page_cases).
    pose proof (keeps_drop m_pages _ ltac:(done) _ _ _ H1) as Hk. pose proof (shrinks_drop _ _ _ _ H1) as Hs.
    split; [exact Hs|]. eexists. cbn. by rewrite Hk.
  - apply bind_run in H as ([b bk] & m1 & (_ & -> & _)%deref_backing_cases & H). destruct (_ && _).
    + apply modify_page_cases in H as (q & Hq & ->). rewrite Ha in Hq. injection Hq as <-.
      split; [split; [done|eauto]|]. eexists. split; [done|]. done.
    + injection H as _ <-. split; [apply data_shrinks_refl|]. exists p. by rewrite insert_id.
Qed.

Lemma touch_page_run a p m u m' :
  m_pages m !! a = Some p -> touch_page a m = Ok (u, m') ->
  data_shrinks m m' /\ exists g, m_pages m' = <[a := with_generation p g]> (m_pages m).
Proof.
  intros Ha H. unfold touch_page in H. apply bind_run in H as (g & m1 & H1 & (q & Hq & ->)%modify_page_cases).
  pose proof (keeps_bump (fun m => (m_pages m, m_backings m, m_host m)) ltac:(done) _ _ _ H1) as Hk.
  injection Hk as Hp Hb Hh. rewrite Hp, Ha in Hq. injection Hq as <-.
  split; [|exists g; cbn; by rewrite Hp]. split; [done|]. intros j bk. cbn. rewrite Hb. eauto.
Qed.

(** ** Publishing *)

Lemma publish_write_run a data copy t m pe t' n m' p :
  data_ok m -> length data = PAGE -> m_pages m !! a = Some p ->
  publish_write a data copy t m = Ok ((pe, t', n), m') ->
  exists bk p', match copy with Some c => Some c | None => p_backing p end = Some (pe_backing pe) /\
    m_backings m !! pe_backing pe = Some bk /\ pe_copied pe = external bk /\ pe_data pe = data /\
    m_pages m' = <[a := p']> (m_pages m) /\ p_backing p' = Some (pe_backing pe) /\
    rewrites (if external bk then [(location_in (pe_backing pe) (b_data bk), data)] else []) m m'.
Proof.
  intros Hok Hd Ha H. unfold publish_write in H. apply bind_run in H as (u & m1 & H1 & H).
  apply (install_copy_run _ _ _ _ _ _ Ha) in H1 as (Hs1 & q & Hp1 & Hq).
  apply bind_run in H as (q0 & m2 & (-> & Hq0)%deref_page_cases & H).
  rewrite Hp1, lookup_insert_eq in Hq0. injection Hq0 as <-.
  apply bind_run in H as (u2 & m2 & H2 & H). pose proof (keeps_add_ref m_pages _ ltac:(done) _ _ _ H2) as Hp2.
  apply shrinks_add_ref in H2 as Hs2.
  apply bind_run in H as (u3 & m3 & H3 & H). pose proof (keeps_touch_backing m_pages _ ltac:(done) ltac:(done) _ _ _ H3) as Hp3.
  apply shrinks_touch_backing in H3 as Hs3.
  apply bind_run in H as (u4 & m4 & H4 & H).
  assert (m_pages m3 !! a = Some q) as Ha3 by (rewrite Hp3, Hp2, Hp1; apply lookup_insert_eq).
  apply (touch_page_run _ _ _ _ _ Ha3) in H4 as (Hs4 & g & Hp4).
  apply bind_run in H as (q0 & m5 & (-> & Hq0)%deref_page_cases & H).
  rewrite Hp4, lookup_insert_eq in Hq0. injection Hq0 as <-.
  apply bind_run in H as ([b bk4] & m5 & (Hb & -> & Hbk4)%deref_backing_cases & H). cbn [fst snd] in *.
  apply bind_run in H as (t1 & m5 & H5 & H). pose proof (keeps_update m_pages _ _ _ _ _ _ ltac:(done) _ _ _ H5) as Hp5.
  apply shrinks_update in H5 as Hs5.
  apply bind_run in H as (k & m6 & H6 & [= <- <- <- <-]). cbn [pe_backing pe_data pe_copied].
  assert (data_shrinks m m5) as Hs by eauto 6 using data_shrinks_trans.
  assert (data_shrinks m m4) as Hs' by eauto 6 using data_shrinks_trans.
  destruct Hs' as [_ Hs']. destruct (Hs' _ _ Hbk4) as (bk & Hbk & Hdata).
  assert (external bk4 = external bk) as Hext by (unfold external; by rewrite Hdata).
  exists bk, (with_generation q g). cbn in Hb. rewrite Hq in Hb.
  assert (m_pages m6 = m_pages m5 /\ rewrites (if external bk then [(location_in b (b_data bk), data)] else []) m m6) as [Hp6 Hr6].
  { rewrite Hext in H6. pose proof (rewrites_shrinks _ _ Hs) as Hr. destruct (external bk) eqn:Ex.
    - destruct (copy_lines_live _ _ _ _ _ _ H6) as [bk5 Hbk5].
      destruct (Hr _ _ Hbk5) as (bk' & Hbk' & Hl & _). rewrite Hbk in Hbk'. injection Hbk' as <-.
      apply (copy_page_run _ _ _ _ _ _ _ (rewrites_data_ok _ _ Hr Hok (proj1 Hs)) Hbk5 Hd) in H6 as (? & _ & Hr6).
      split; [done|]. rewrite Hl in Hr6. by apply (rewrites_trans _ _ _ _ _ Hr Hr6).
    - by injection H6 as _ <-. }
  rewrite Hext. split_and!; try done.
  - by rewrite Hp6, Hp5, Hp4, Hp3, Hp2, Hp1, insert_insert_eq.
  - cbn. by rewrite Hq.
Qed.

(** The entry of one write, among those that are or are not copied yet. *)
Definition entry (m : mem) (pe : pending) : list (location * list Z) :=
  match backing_location m (pe_backing pe) with Some x => [(x, pe_data pe)] | None => [] end.
Definition entries (m : mem) (copied : bool) (pes : list pending) : list (location * list Z) :=
  flat_map (fun pe => if bool_decide (pe_copied pe = copied) then entry m pe else []) pes.

Lemma entry_rewrites l m m1 pe :
  rewrites l m m1 -> is_Some (m_backings m1 !! pe_backing pe) -> entry m1 pe = entry m pe.
Proof.
  intros Hr [bk1 H1]. destruct (Hr _ _ H1) as (bk & Hb & Hl & _). unfold entry.
  by rewrite (backing_location_Some _ _ _ H1), (backing_location_Some _ _ _ Hb), Hl.
Qed.

Lemma entries_cons m c pe pes :
  entries m c (pe :: pes) = (if bool_decide (pe_copied pe = c) then entry m pe else []) ++ entries m c pes.
Proof. done. Qed.

Lemma entries_rewrites l m m1 c pes :
  rewrites l m m1 -> (forall pe, pe ∈ pes -> is_Some (m_backings m1 !! pe_backing pe)) ->
  entries m1 c pes = entries m c pes.
Proof.
  intros Hr. induction pes as [|pe pes IH]; intros Hl; [done|]. cbn.
  f_equal; [|apply IH; set_solver]. case_bool_decide; [|done]. apply (entry_rewrites l); [done|].
  apply Hl. set_solver.
Qed.

(** What a write publishes, seen from the state before ([m]) and after. *)
Definition published (m m' : mem) (wc : gem_memory_page_write * option bid) (pe : pending) : Prop :=
  exists p bk p', w_data wc.1 = Some (pe_data pe) /\ m_pages m !! w_address wc.1 = Some p /\
    match wc.2 with Some c => Some c | None => p_backing p end = Some (pe_backing pe) /\
    m_backings m !! pe_backing pe = Some bk /\ pe_copied pe = external bk /\
    m_pages m' !! w_address wc.1 = Some p' /\ p_backing p' = Some (pe_backing pe).

Definition whole_pages (ws : list gem_memory_page_write) : Prop :=
  Forall (fun w => from_option (fun data => length data = PAGE) True (w_data w)) ws.

Lemma published_earlier l m m1 m' wc pe :
  rewrites l m m1 -> m_pages m1 !! w_address wc.1 = m_pages m !! w_address wc.1 ->
  published m1 m' wc pe -> published m m' wc pe.
Proof.
  intros Hr Hp (p & bk & p' & ? & Hp1 & ? & Hbk1 & Hc & ? & ?).
  destruct (Hr _ _ Hbk1) as (bk0 & Hbk0 & Hl & _). exists p, bk0, p'.
  split_and!; try done; [congruence|]. rewrite Hc. unfold external. by destruct (b_data bk), (b_data bk0).
Qed.

Lemma published_later m m1 m2 wc pe :
  m_pages m2 !! w_address wc.1 = m_pages m1 !! w_address wc.1 ->
  published m m1 wc pe -> published m m2 wc pe.
Proof. intros Hp (p & bk & p' & H). exists p, bk, p'. rewrite Hp. tauto. Qed.

Section commit.
Context {platform : Platform}.
Context (pins : bid -> Z) (L : gmap Z (Z * Z)) (Hp : forall b, 0 <= pins b).

Lemma publish_writes_run ws copies t extra m pes t' n m' :
  st (pins_add pins (dep_refs t ++ copies ++ extra)) L m ->
  committed (w_address <$> ws) (m_pages m) -> whole_pages ws -> NoDup (w_address <$> ws) ->
  length copies = length ws -> publish_writes (zip ws copies) t m = Ok ((pes, t', n), m') ->
  (forall q, q ∉ w_address <$> ws -> m_pages m' !! q = m_pages m !! q) /\
  Forall2 (published m m') (zip ws copies) pes /\ rewrites (entries m true pes) m m'.
Proof.
  revert copies t extra m pes n. induction ws as [|w ws IH]; intros [|c copies] t extra m pes n Hst Hc Hw Hnd Hlen H;
    try done; cbn [zip zip_with publish_writes] in H.
  { injection H as <- _ _ <-. split_and!; [done|constructor|apply rewrites_refl]. }
  destruct (w_data w) as [data|] eqn:Hdata; [|done].
  unfold whole_pages in *. apply Forall_cons in Hw as [Hwd Hw]. rewrite Hdata in Hwd. cbn in Hwd.
  rewrite fmap_cons in Hnd, Hc. apply NoDup_cons in Hnd as [Hni Hnd].
  apply bind_run in H as ([[pe t1] k] & m1 & H1 & H).
  destruct (Hc (w_address w)) as (p & Ha & _); [set_solver|].
  destruct (publish_write_run _ _ _ _ _ _ _ _ _ _ (st_data _ _ _ Hst) Hwd Ha H1)
    as (bk & p' & Hpe & Hbk & Hcop & Hd & Hps & Hpb & Hr).
  assert (committed [w_address w] (m_pages m)) as Hc1.
  { intros x ->%list_elem_of_singleton. apply Hc. set_solver. }
  destruct (triple_run _ _ _ _ _ _ (publish_write_triple pins L Hp _ data c t (copies ++ extra) _ Hc1)
    (conj Hst eq_refl) H1) as [Hst1 _].
  cbn [fst snd] in Hst1. apply bind_run in H as ([[pes1 t2] k1] & m2 & H2 & H). injection H as <- <- _ <-.
  assert (forall q, q <> w_address w -> m_pages m1 !! q = m_pages m !! q) as Hother.
  { intros q Hq. by rewrite Hps, lookup_insert_ne. }
  destruct (IH copies t1 (Some (pe_backing pe) :: extra) m1 pes1 k1) as (Hq2 & Hf & Hr2); [| |done|done|by injection Hlen|done|].
  { revert Hst1. same_pins. }
  { rewrite Hps. apply committed_insert; [|by rewrite Hpb]. intros x Hx. apply Hc. set_solver. }
  assert (rewrites (if bool_decide (pe_copied pe = true) then entry m pe else []) m m1) as Hr1.
  { unfold entry. rewrite (backing_location_Some _ _ _ Hbk), Hcop, Hd. by destruct (external bk). }
  split_and!.
  - intros q Hq. rewrite fmap_cons in Hq. rewrite Hq2 by set_solver. apply Hother. set_solver.
  - constructor.
    + apply (published_later _ m1); [by apply Hq2|]. exists p, bk, p'. cbn [fst snd].
      rewrite Hps, lookup_insert_eq, Hd. by split_and!.
    + apply Forall2_same_length_lookup_2; [by eapply Forall2_length|].
      intros i wc pe1 Hi Hi1. eapply Forall2_lookup_lr in Hf; [|exact Hi|exact Hi1].
      apply (published_earlier _ _ _ _ _ _ Hr1); [|exact Hf]. apply Hother.
      apply list_elem_of_lookup_2 in Hi. destruct wc as [w1 c1]. apply elem_of_zip_l in Hi. cbn.
      intros E. apply Hni. rewrite <- E. by apply (list_elem_of_fmap_2 w_address).
  - rewrite entries_cons. eapply rewrites_trans; [exact Hr1|].
    rewrite <- (entries_rewrites _ _ _ true pes1 Hr1); [exact Hr2|].
    intros pe1 Hpe1. apply list_elem_of_lookup_1 in Hpe1 as [i Hi].
    eapply Forall2_lookup_r in Hf as (wc & _ & (? & bk1 & ? & _ & _ & _ & Hbk1 & _)); [|exact Hi]. by rewrite Hbk1.
Qed.

Lemma copy_pending_run pes l m n m' :
  (forall pe, pe ∈ pes -> Some (pe_backing pe) ∈ l /\ length (pe_data pe) = PAGE) ->
  st (pins_add pins l) L m -> copy_pending pes m = Ok (n, m') ->
  m_pages m' = m_pages m /\ rewrites (entries m false pes) m m'.
Proof.
  revert m n. induction pes as [|pe pes IH]; intros m n Hl Hst H; cbn [copy_pending] in H.
  { injection H as _ <-. split; [done|apply rewrites_refl]. }
  apply bind_run in H as (k & m1 & H1 & H). apply bind_run in H as (k1 & m2 & H2 & H). injection H as _ <-.
  destruct (Hl pe (list_elem_of_here _ _)) as [Hin Hlen].
  assert (st (pins_add pins l) L m1 /\ m_pages m1 = m_pages m /\
    rewrites (if bool_decide (pe_copied pe = false) then entry m pe else []) m m1) as (Hst1 & Hps & Hr1).
  { destruct (pe_copied pe); [injection H1 as _ <-; split_and!; [done|done|apply rewrites_refl]|].
    destruct (pinned_live pins L Hp l m _ Hst Hin) as [bk Hbk].
    destruct (triple_run _ _ _ _ _ _ (copy_lines_triple pins L Hp (pins_add pins l) (pe_backing pe) (pe_data pe) cache_lines 0
      (m_pages m) elem_of_cache_lines) (conj (conj Hst (mk_is_Some _ _ Hbk)) eq_refl) H1) as [[Hst1 _] Hps]. split_and!; [done|done|].
    apply (copy_page_run _ _ _ _ _ _ _ (st_data _ _ _ Hst) Hbk Hlen) in H1 as (_ & _ & Hr).
    unfold entry. by rewrite (backing_location_Some _ _ _ Hbk). }
  destruct (IH m1 k1) as [Hps2 Hr2]; [by intros; apply Hl, list_elem_of_further|done|done|].
  split; [congruence|]. rewrite entries_cons. eapply rewrites_trans; [exact Hr1|].
  rewrite <- (entries_rewrites _ _ _ false pes Hr1); [exact Hr2|].
  intros pe1 Hpe1. eapply (pinned_live pins L Hp); [exact Hst1|]. by apply Hl, list_elem_of_further.
Qed.

(** ** Copies *)

(** Whether a write to the page goes to a private copy. *)
Definition copied (m : mem) (a : Z) : bool :=
  match m_pages m !! a, shown m a with
  | Some p, Some bk => is_write_copy (p_protection p) && negb (external bk)
  | _, _ => false
  end.

Lemma copied_known m a p i bk :
  m_pages m !! a = Some p -> p_backing p = Some i -> m_backings m !! i = Some bk ->
  copied m a = is_write_copy (p_protection p) && negb (external bk).
Proof.
  intros Ha Hi Hb. unfold copied. by rewrite Ha, (proj2 (shown_Some m a bk)) by eauto.
Qed.

(** The copy made for a write: a backing of its own, newer than [k]. *)
Definition copy_for (m m1 : mem) (k : nat) (w : gem_memory_page_write) (c : option bid) : Prop :=
  match c with
  | None => copied m (w_address w) = false
  | Some c => (k <= c)%nat /\ copied m (w_address w) = true /\
      exists l r g, m_backings m1 !! c = Some (Backing (Owned l) r g)
  end.

Lemma copy_for_weaken m m1 k k' w c : (k' <= k)%nat -> copy_for m m1 k w c -> copy_for m m1 k' w c.
Proof. intros Hk. destruct c; cbn; [|done]. intros (? & ? & ?). split_and!; [lia|done|done]. Qed.

(** What the preparation may have done to the state. *)
Definition prepared (m m' : mem) : Prop :=
  m_pages m' = m_pages m /\ m_host m' = m_host m /\ (m_allocs m <= m_allocs m')%nat /\
  forall i, (i < m_allocs m)%nat -> m_backings m' !! i = m_backings m !! i.

Lemma prepared_refl m : prepared m m.
Proof. by split_and!. Qed.

Lemma prepared_trans m1 m2 m3 : prepared m1 m2 -> prepared m2 m3 -> prepared m1 m3.
Proof.
  intros (? & ? & ? & Hb1) (? & ? & ? & Hb2). split_and!; [congruence|congruence|lia|].
  intros i Hi. rewrite Hb2 by lia. by apply Hb1.
Qed.

Lemma prepared_copied pins' L' m m' a : st pins' L' m -> prepared m m' -> copied m' a = copied m a.
Proof.
  intros Hst (Hps & _ & _ & Hb). unfold copied, shown. rewrite Hps.
  destruct (m_pages m !! a) as [p|] eqn:Ha; [|done]. cbn. destruct (p_backing p) as [i|] eqn:Hi; [|done]. cbn.
  destruct (st_page_live _ _ _ _ _ _ Hst Ha Hi) as [bk Hbk].
  pose proof (st_refs _ _ _ Hst i) as Hr. rewrite Hbk in Hr. by rewrite Hb by lia.
Qed.

(** A new backing filled with bytes. *)
Lemma copy_page_prepared X m c m1 l u m2 :
  st (pins_add pins X) L m -> length l = PAGE ->
  new_backing None m = Ok (Some c, m1) -> store_backing (Some c) 0 l m1 = Ok (u, m2) ->
  prepared m m2 /\ c = m_allocs m /\ (c < m_allocs m2)%nat /\
  st (pins_add pins (X ++ [Some c])) L m2 /\
  exists l' r g, m_backings m2 !! c = Some (Backing (Owned l') r g).
Proof.
  intros Hst Hl H1 H2.
  destruct (triple_run _ _ _ _ _ _ (new_backing_triple (pins_add pins X) L None) Hst H1) as [Hst1 Hlive].
  destruct (new_backing_run _ _ _ H1) as (Ha & Hps & Hh & -> & Hlt & junk & Hb).
  assert (Z.to_nat 0 + length l <= PAGE)%nat as Hfit by lia.
  destruct (triple_run _ _ _ _ _ _ (store_backing_triple _ L (m_allocs m) 0 l Hfit) (conj Hst1 Hlive) H2) as [Hst2 _].
  unfold store_backing, deref_backing, put_backing, mbind, M_bind, get, put in H2.
  rewrite Hb, lookup_insert_eq in H2. cbn -[memcpy zero_page] in H2. injection H2 as _ <-.
  split; [|split; [done|split; [done|split]]].
  - split_and!; [done|done|done|]. intros i Hi. cbn. rewrite Hb, !lookup_insert_ne by lia. done.
  - revert Hst2. apply st_pins_eq. intros b. unfold pins_add. rewrite occ_app. cbn [occ]. lia.
  - cbn. rewrite lookup_insert_eq. eauto.
Qed.

Lemma prepare_run ws t copies m f t' cs m' :
  st (pins_add pins (dep_refs t ++ copies)) L m ->
  prepare_writes ws t copies m = Ok ((GEM_MEMORY_OK, f, t', cs), m') ->
  prepared m m' /\ t' = t /\
  exists ext, cs = copies ++ ext /\ Forall2 (copy_for m m' (m_allocs m)) ws ext /\ NoDup (omap id ext) /\
    (forall c, Some c ∈ ext -> (m_allocs m <= c < m_allocs m')%nat).
Proof.
  revert copies m. induction ws as [|w ws IH]; intros copies m Hst H; cbn [prepare_writes] in H.
  { injection H as _ <- <- <-. split; [apply prepared_refl|split; [done|]]. exists [].
    rewrite app_nil_r. split_and!; [done|constructor|constructor|set_solver]. }
  apply bind_run in H as (p & m1 & (-> & Ha)%deref_page_cases & H).
  destruct (has_bits (p_protection p) GEM_PAGE_GUARD).
  { apply bind_run in H as (u & m1 & _ & H). apply bind_run in H as (u2 & m2 & _ & H).
    apply bind_run in H as (p2 & m3 & _ & H). apply bind_run in H as (t2 & m4 & _ & H). done. }
  assert (copied m (w_address w) = false -> prepare_writes ws t (copies ++ [None]) m = Ok ((GEM_MEMORY_OK, f, t', cs), m') ->
    prepared m m' /\ t' = t /\
    exists ext, cs = copies ++ ext /\ Forall2 (copy_for m m' (m_allocs m)) (w :: ws) ext /\ NoDup (omap id ext) /\
      (forall c, Some c ∈ ext -> (m_allocs m <= c < m_allocs m')%nat)) as Hplain.
  { intros Hc H'. destruct (IH (copies ++ [None]) m) as (Hpr & -> & ext & -> & Hf & Hnd & Hb); [|done|].
    { revert Hst. same_pins. }
    split; [done|split; [done|]]. exists (None :: ext). rewrite <- app_assoc.
    split_and!; [done|by constructor|done|]. intros c Hin. apply Hb. set_solver. }
  destruct (is_write_copy (p_protection p)) eqn:Ew.
  2:{ apply Hplain; [|done]. unfold copied. rewrite Ha, Ew. by destruct (shown m _). }
  apply bind_run in H as ([b bk] & m1 & (Hb & -> & Hbk)%deref_backing_cases & H). cbn [fst snd] in *.
  pose proof (copied_known _ _ _ _ _ Ha Hb Hbk) as Hcop. rewrite Ew in Hcop. cbn in Hcop.
  destruct (external bk); [by apply Hplain|]. cbn in Hcop.
  apply bind_run in H as (c & m1 & H1 & H). destruct c as [c|]; [|done].
  apply bind_get_run in H. apply bind_run in H as (u & m2 & H2 & H).
  assert (contents m1 bk = contents m bk) as Hcont.
  { destruct (new_backing_run _ _ _ H1) as (_ & _ & Hh & _). unfold contents, host_page. by rewrite Hh. }
  rewrite Hcont in H2.
  assert (length (contents m bk) = PAGE) as Hlen.
  { apply length_contents; [apply (st_data _ _ _ Hst)|]. by apply (st_data _ _ _ Hst) in Hbk. }
  destruct (copy_page_prepared _ _ _ _ _ _ _ Hst Hlen H1 H2) as (Hpr & -> & Hlt & Hst2 & l' & r & g & Hc).
  destruct (IH (copies ++ [Some (m_allocs m)]) m2) as (Hpr2 & -> & ext & -> & Hf & Hnd & Hin).
  { by rewrite app_assoc. }
  { done. }
  split; [by eapply prepared_trans|split; [done|]]. destruct Hpr2 as (_ & _ & Ha2 & Hb2).
  exists (Some (m_allocs m) :: ext). rewrite <- app_assoc. split_and!; [done| | |].
  - constructor.
    + cbn. rewrite Hb2 by done. eauto 10.
    + eapply Forall2_impl; [exact Hf|]. intros w1 [c1|]; cbn.
      * intros (? & ? & ?). rewrite <- (prepared_copied _ _ _ _ _ Hst Hpr). split_and!; [lia|done|done].
      * by rewrite <- (prepared_copied _ _ _ _ _ Hst Hpr).
  - cbn. constructor; [|done]. intros Hm. apply list_elem_of_omap in Hm as (x & Hx & E). cbn in E. subst x.
    apply Hin in Hx. lia.
  - intros c1 [[= ->]|Hc1]%elem_of_cons; [lia|]. apply Hin in Hc1. lia.
Qed.

(** ** The write set *)

Lemma check_writes_NoDup m seen ws :
  check_writes m seen ws = None ->
  NoDup (w_address <$> ws) /\ forall a, a ∈ w_address <$> ws -> a ∉ seen.
Proof.
  revert seen. induction ws as [|w ws IH]; intros seen H; cbn [check_writes] in H.
  { split; [constructor|set_solver]. }
  destruct (_ || _); [done|]. destruct (bool_decide (w_address w ∈ seen)) eqn:Hs; [done|].
  apply bool_decide_eq_false in Hs. destruct (at_ m (w_address w)) as [p|]; [|done].
  destruct (bool_decide (p_backing p = None)); [done|]. destruct (negb _); [done|].
  apply IH in H as [Hnd Hn]. rewrite fmap_cons. split.
  - constructor; [|done]. intros Hin. apply (Hn _ Hin). set_solver.
  - intros a [->|Ha]%elem_of_cons; [done|]. apply Hn in Ha. set_solver.
Qed.

Lemma omap_NoDup_lookup (l : list (option bid)) i j c :
  NoDup (omap id l) -> l !! i = Some (Some c) -> l !! j = Some (Some c) -> i = j.
Proof.
  revert i j. induction l as [|x l IH]; intros i j Hnd Hi Hj; [done|].
  assert (forall k, l !! k = Some (Some c) -> c ∈ omap id l) as Hin.
  { intros k Hk. apply list_elem_of_omap. exists (Some c). split; [by eapply list_elem_of_lookup_2|done]. }
  destruct i as [|i], j as [|j]; cbn in Hi, Hj; [done| | |].
  - injection Hi as ->. cbn in Hnd. apply NoDup_cons in Hnd as [Hn _]. by destruct Hn; eapply Hin.
  - injection Hj as ->. cbn in Hnd. apply NoDup_cons in Hnd as [Hn _]. by destruct Hn; eapply Hin.
  - f_equal. apply IH; [|done|done]. destruct x; cbn in Hnd; [by apply NoDup_cons in Hnd as [_ ?]|done].
Qed.

Lemma elem_of_entries m pes x d :
  (x, d) ∈ entries m true pes ++ entries m false pes <->
  exists pe, pe ∈ pes /\ backing_location m (pe_backing pe) = Some x /\ pe_data pe = d.
Proof.
  induction pes as [|pe pes IH]; [set_solver|]. rewrite !entries_cons.
  assert ((x, d) ∈ entry m pe <-> backing_location m (pe_backing pe) = Some x /\ pe_data pe = d) as He.
  { unfold entry. destruct (backing_location m (pe_backing pe)); set_solver. }
  set_unfold. destruct (pe_copied pe); cbn; set_unfold; naive_solver.
Qed.

(** Where a page's bytes are, when nothing but copies were added since. *)
Lemma old_location pins' L' m m1 q p i :
  st pins' L' m -> prepared m m1 -> m_pages m !! q = Some p -> p_backing p = Some i ->
  exists bk x, m_backings m !! i = Some bk /\ m_backings m1 !! i = Some bk /\
    contents m1 bk = contents m bk /\
    location_of m q = Some x /\ x = location_in i (b_data bk) /\
    forall c, (m_allocs m <= c)%nat -> x <> InBacking c.
Proof.
  intros Hst (_ & Hh & _ & Hb) Hq Hi. destruct (st_page_live _ _ _ _ _ _ Hst Hq Hi) as [bk Hbk].
  pose proof (st_refs _ _ _ Hst i) as Hr. rewrite Hbk in Hr. exists bk, (location_in i (b_data bk)).
  rewrite Hb by lia. split_and!; try done.
  - unfold contents, host_page. by rewrite Hh.
  - rewrite (location_of_Some _ _ _ _ Hq Hi). by apply backing_location_Some.
  - intros c Hc. destruct (b_data bk); cbn; [|done]. intros [= ->]. lia.
Qed.

(** Writes that are not copied go to different places. *)
Definition separate (m : mem) (ws : list gem_memory_page_write) : Prop :=
  forall w w', w ∈ ws -> w' ∈ ws -> copied m (w_address w) = false -> copied m (w_address w') = false ->
    location_of m (w_address w) = location_of m (w_address w') -> w_address w = w_address w'.

(** The place a write goes to. *)
Definition target (m : mem) (w : gem_memory_page_write) (c : option bid) (x : location) : Prop :=
  match c with
  | Some c => x = InBacking c /\ (m_allocs m <= c)%nat
  | None => copied m (w_address w) = false /\ location_of m (w_address w) = Some x /\
      forall c, (m_allocs m <= c)%nat -> x <> InBacking c
  end.

Lemma published_target pins' L' m m1 m2 w c pe :
  st pins' L' m -> prepared m m1 -> copy_for m m1 (m_allocs m) w c -> published m1 m2 (w, c) pe ->
  exists x, backing_location m1 (pe_backing pe) = Some x /\ target m w c x.
Proof.
  intros Hst Hpr Hc (p & bk & p' & _ & Ha & Hb & Hbk & _). cbn [fst snd] in *.
  exists (location_in (pe_backing pe) (b_data bk)). split; [by apply backing_location_Some|].
  destruct c as [c|]; cbn in *.
  - injection Hb as ->. destruct Hc as (Hle & _ & l & r & g & E). rewrite E in Hbk. by injection Hbk as <-.
  - pose proof Hpr as (Hps & _). rewrite Hps in Ha.
    destruct (old_location _ _ _ _ _ _ _ Hst Hpr Ha Hb) as (bk0 & x & _ & Hbk1 & _ & Hl & Hx & Hn).
    rewrite Hbk in Hbk1. injection Hbk1 as <-. subst x. by split_and!.
Qed.

(** The bytes left at a write's place are the write's. *)
Lemma overlay_write pins' L' m m1 m2 ws cs pes k w c pe x :
  st pins' L' m -> prepared m m1 -> separate m ws -> NoDup (w_address <$> ws) ->
  Forall2 (copy_for m m1 (m_allocs m)) ws cs -> NoDup (omap id cs) ->
  Forall2 (published m1 m2) (zip ws cs) pes ->
  ws !! k = Some w -> cs !! k = Some c -> pes !! k = Some pe ->
  backing_location m1 (pe_backing pe) = Some x -> target m w c x ->
  overlay (entries m1 true pes ++ entries m1 false pes) x = Some (pe_data pe).
Proof.
  intros Hst Hpr Hsep Hnd Hf Hndc Hpub Hw Hc Hpe Hx Ht. apply overlay_Some.
  2:{ apply list_elem_of_fmap. exists (x, pe_data pe). split; [done|]. apply elem_of_entries.
      exists pe. split_and!; [by eapply list_elem_of_lookup_2|done|done]. }
  intros d' (pe' & Hin & Hx' & <-)%elem_of_entries. apply list_elem_of_lookup_1 in Hin as [k' Hpe'].
  destruct (Forall2_lookup_r _ _ _ _ _ Hpub Hpe') as ([w' c'] & Hwc' & Hpub').
  apply lookup_zip_Some in Hwc' as [Hw' Hc'].
  pose proof (Forall2_lookup_lr _ _ _ _ _ _ Hf Hw' Hc') as Hcf'.
  destruct (published_target _ _ _ _ _ _ _ _ Hst Hpr Hcf' Hpub') as (x' & Hx'' & Ht').
  rewrite Hx' in Hx''. injection Hx'' as <-.
  enough (k = k') as <- by congruence.
  destruct c as [c|], c' as [c'|]; cbn in Ht, Ht'.
  - destruct Ht as [-> _], Ht' as [[= <-] _]. by eapply omap_NoDup_lookup.
  - destruct Ht as [-> Hge], Ht' as (_ & _ & Hne). by destruct (Hne c Hge).
  - destruct Ht' as [-> Hge], Ht as (_ & _ & Hne). by destruct (Hne c' Hge).
  - destruct Ht as (Hc0 & Hl & _), Ht' as (Hc0' & Hl' & _).
    assert (w_address w = w_address w') as E.
    { apply Hsep; [by eapply list_elem_of_lookup_2..|done|done|congruence]. }
    apply (NoDup_lookup (w_address <$> ws) k k' (w_address w)); [done| |];
      rewrite list_lookup_fmap; [by rewrite Hw|]. rewrite Hw'. cbn. by rewrite E.
Qed.

(** A successful commit, in its phases. *)
Record commit_run (t : gem_memory_transaction) (ws : list gem_memory_page_write) (m m' : mem)
    (m1 m2 : mem) (cs : list (option bid)) (pes : list pending) : Prop := {
  cr_nodup : NoDup (w_address <$> ws);
  cr_prepared : prepared m m1;
  cr_copies : Forall2 (copy_for m m1 (m_allocs m)) ws cs;
  cr_fresh : NoDup (omap id cs);
  cr_published : Forall2 (published m1 m2) (zip ws cs) pes;
  cr_others q : q ∉ w_address <$> ws -> m_pages m2 !! q = m_pages m !! q;
  cr_pages : m_pages m' = m_pages m2;
  cr_live : exists pins' L', st pins' L' m';
  cr_rewrites : rewrites (entries m1 true pes ++ entries m1 false pes) m1 m' }.

Lemma commit_phases t ws m f t' n m' :
  st (pins_add pins (dep_refs t)) L m -> whole_pages ws ->
  commit_locked_pages t ws m = Ok ((GEM_MEMORY_OK, f, t', n), m') ->
  exists m1 m2 cs pes, commit_run t ws m m' m1 m2 cs pes.
Proof.
  intros Hst Hw H. assert (st (pins_add pins (dep_refs t ++ [])) L m) as Hst0 by by rewrite app_nil_r.
  pose proof (triple_run _ _ _ _ _ _ (commit_triple pins L Hp t ws) Hst0 H) as Hst'.
  unfold commit_locked_pages in H. apply bind_run in H as ([[[r t2] pes] k] & m2 & H1 & H).
  unfold commit_publish in H1. apply bind_run in H1 as (c & m0 & Hc & H1).
  destruct c as [a|]; [injection H1 as <- <- <- <- <-; by cbn in H|].
  apply find_conflict_None in Hc as [-> _]. apply bind_get_run in H1.
  destruct (check_writes m [] ws) as [e|] eqn:Hck.
  { exfalso. injection H1 as <- <- <- <- <-. clear -H Hck. destruct e as [e f1]. cbn in H.
    case_bool_decide as He; [|by injection H]. subst e. revert Hck. generalize (@nil Z).
    induction ws as [|w ws IH]; intros seen Hck; [done|]. cbn in Hck. repeat case_match; try done. by eapply IH. }
  apply check_writes_NoDup in Hck as Hnd. destruct Hnd as [Hnd _]. apply check_writes_None in Hck as [Hcom Hsome].
  apply bind_run in H1 as ([[[e f1] t1] cs] & m1 & H1 & H2).
  pose proof (triple_run _ _ _ _ _ _ (prepare_triple pins L Hp ws t [] (m_pages m) Hcom) (conj Hst0 eq_refl) H1) as [Hst1 H1ok].
  cbn [fst snd] in Hst1, H1ok. destruct (bool_decide (e = GEM_MEMORY_OK)) eqn:He.
  2:{ exfalso. apply bool_decide_eq_false in He. apply bind_run in H2 as (u & m3 & _ & H2).
      injection H2 as <- <- <- <- <-. cbn in H. rewrite bool_decide_eq_false_2 in H by done. by injection H. }
  apply bool_decide_eq_true in He as ->. destruct (H1ok eq_refl) as (Hps1 & -> & Hlen). cbn in Hlen.
  destruct (prepare_run _ _ _ _ _ _ _ _ Hst0 H1) as (Hpr & _ & ext & E & Hf & Hndc & _). cbn in E. subst ext.
  apply bind_run in H2 as ([[pes1 t3] k1] & m3 & H2 & H3). injection H3 as <- <- <- <- <-.
  assert (st (pins_add pins (dep_refs t ++ cs ++ [])) L m1) as Hst1' by (revert Hst1; same_pins).
  assert (committed (w_address <$> ws) (m_pages m1)) as Hcom1 by by rewrite Hps1.
  destruct (publish_writes_run _ _ _ _ _ _ _ _ _ Hst1' Hcom1 Hw Hnd Hlen H2) as (Hoth & Hpub & Hr2).
  pose proof (triple_run _ _ _ _ _ _ (publish_writes_triple pins L Hp ws cs t [] (m_pages m1) Hcom1 Hsome Hlen)
    (conj Hst1' eq_refl) H2) as Hst2. cbn [fst snd] in Hst2.
  cbn [fst] in H. rewrite bool_decide_eq_true_2 in H by done.
  apply bind_run in H as (n2 & m4 & H4 & H). apply bind_run in H as (u & m5 & H5 & H). injection H as <- _ _ <-.
  destruct (copy_pending_run pes1 (dep_refs t3 ++ pending_refs pes1 ++ []) m3 n2 m4) as [Hps4 Hr4]; [|exact Hst2|exact H4|].
  { intros pe Hpe. split.
    - apply elem_of_app. right. apply elem_of_app. left. by apply (list_elem_of_fmap_2 (fun pe => Some (pe_backing pe))).
    - apply list_elem_of_lookup_1 in Hpe as [i Hi].
      destruct (Forall2_lookup_r _ _ _ _ _ Hpub Hi) as ([w c] & Hwc & (p & bk & p' & Hd & _)). cbn in Hd.
      apply lookup_zip_Some in Hwc as [Hwi _]. eapply Forall_lookup_1 in Hw; [|exact Hwi]. by rewrite Hd in Hw. }
  assert (data_shrinks m4 m5) as Hs5.
  { eapply shrinks_for_each; [|exact H5]. intros pe. apply shrinks_drop. }
  assert (m_pages m5 = m_pages m4) as Hps5.
  { eapply (keeps_for_each m_pages); [|exact H5]. intros pe. by apply keeps_drop. }
  exists m1, m3, cs, pes1. split; try done.
  - intros q Hq. rewrite Hoth by done. by rewrite Hps1.
  - by rewrite Hps5.
  - eauto.
  - rewrite <- (app_nil_r (entries m1 false pes1)), app_assoc.
    eapply rewrites_trans; [|by apply rewrites_shrinks]. eapply rewrites_trans; [exact Hr2|].
    rewrite <- (entries_rewrites _ _ _ false pes1 Hr2); [exact Hr4|].
    intros pe Hpe. eapply (pinned_live pins L Hp); [exact Hst2|].
    apply elem_of_app. right. apply elem_of_app. left. by apply (list_elem_of_fmap_2 (fun pe => Some (pe_backing pe))).
Qed.

(** The bytes a page shows after the commit. *)
Lemma commit_view t ws m m' m1 m2 cs pes q p i :
  commit_run t ws m m' m1 m2 cs pes -> m_pages m2 !! q = Some p -> p_backing p = Some i ->
  exists bk, m_backings m1 !! i = Some bk /\
    view m' q = Some (default (contents m1 bk)
      (overlay (entries m1 true pes ++ entries m1 false pes) (location_in i (b_data bk)))).
Proof.
  intros R Hq Hi. destruct (cr_live _ _ _ _ _ _ _ _ R) as (pins' & L' & Hst').
  rewrite <- (cr_pages _ _ _ _ _ _ _ _ R) in Hq.
  destruct (st_page_live _ _ _ _ _ _ Hst' Hq Hi) as [bk' Hbk'].
  destruct (cr_rewrites _ _ _ _ _ _ _ _ R _ _ Hbk') as (bk & Hbk & _ & Hc). exists bk. split; [done|].
  unfold view. rewrite (proj2 (shown_Some m' q bk')) by eauto. cbn. by rewrite Hc.
Qed.

Lemma commit_correct t ws m f t' n m' :
  st (pins_add pins (dep_refs t)) L m -> whole_pages ws -> separate m ws ->
  commit_locked_pages t ws m = Ok ((GEM_MEMORY_OK, f, t', n), m') ->
  (forall w, w ∈ ws -> view m' (w_address w) = w_data w) /\
  forall q, q ∉ w_address <$> ws ->
    (forall w, w ∈ ws -> copied m (w_address w) = false -> is_Some (location_of m q) ->
       location_of m q = location_of m (w_address w) -> view m' q = w_data w) /\
    ((forall w, w ∈ ws -> copied m (w_address w) = false ->
       location_of m q = location_of m (w_address w) -> location_of m q = None) -> view m' q = view m q).
Proof.
  intros Hst Hw Hsep H. destruct (commit_phases _ _ _ _ _ _ _ Hst Hw H) as (m1 & m2 & cs & pes & R).
  pose proof R as [Hnd Hpr Hf Hndc Hpub Hoth Hps _ _].
  assert (forall k w, ws !! k = Some w -> exists c pe x, cs !! k = Some c /\ pes !! k = Some pe /\
    published m1 m2 (w, c) pe /\ backing_location m1 (pe_backing pe) = Some x /\ target m w c x /\
    w_data w = Some (pe_data pe) /\
    overlay (entries m1 true pes ++ entries m1 false pes) x = Some (pe_data pe)) as Hwrite.
  { intros k w Hk. destruct (Forall2_lookup_l _ _ _ _ _ Hf Hk) as (c & Hc & Hcf).
    destruct (Forall2_lookup_l _ _ _ k (w, c) Hpub) as (pe & Hpe & Hpb); [by apply lookup_zip_Some|].
    destruct (published_target _ _ _ _ _ _ _ _ Hst Hpr Hcf Hpb) as (x & Hx & Ht).
    pose proof (overlay_write _ _ _ _ _ _ _ _ _ _ _ _ _ Hst Hpr Hsep Hnd Hf Hndc Hpub Hk Hc Hpe Hx Ht) as Ho.
    pose proof Hpb as (p & bk & p' & Hd & _). exists c, pe, x. by split_and!. }
  split.
  - intros w [k Hk]%list_elem_of_lookup_1. destruct (Hwrite k w Hk) as (c & pe & x & Hc & Hpe & Hpb & Hx & Ht & Hd & Ho).
    destruct Hpb as (p & bk & p' & _ & _ & _ & Hbk & _ & Ha & Hpb). cbn [fst] in Ha.
    destruct (commit_view _ _ _ _ _ _ _ _ _ _ _ R Ha Hpb) as (bk1 & Hbk1 & ->).
    rewrite (backing_location_Some _ _ _ Hbk1) in Hx. injection Hx as ->. by rewrite Ho, Hd.
  - intros q Hq. pose proof (Hoth q Hq) as Hq2.
    destruct (m_pages m !! q) as [p|] eqn:Hpq.
    2:{ assert (location_of m q = None) as Hn by (unfold location_of; by rewrite Hpq).
        split; [intros ? _ _ [? Hs]; congruence|]. intros _. unfold view, shown. by rewrite Hps, Hq2, Hpq. }
    destruct (p_backing p) as [i|] eqn:Hi.
    2:{ assert (location_of m q = None) as Hn by (unfold location_of; rewrite Hpq; cbn; by rewrite Hi).
        split; [intros ? _ _ [? Hs]; congruence|]. intros _. unfold view, shown. rewrite Hps, Hq2, Hpq. cbn. by rewrite Hi. }
    destruct (commit_view _ _ _ _ _ _ _ _ _ _ _ R Hq2 Hi) as (bk1 & Hbk1 & ->).
    destruct (old_location _ _ _ _ _ _ _ Hst Hpr Hpq Hi) as (bk & x & Hbk & Hbk1' & Hcon & Hl & Hx & Hne).
    rewrite Hbk1 in Hbk1'. injection Hbk1' as ->. rewrite <- Hx. split.
    + intros w Hin Hcop _ Heq. apply list_elem_of_lookup_1 in Hin as [k Hk].
      destruct (Hwrite k w Hk) as (c & pe & y & Hc & Hpe & Hpb & Hy & Ht & Hd & Ho).
      pose proof (Forall2_lookup_lr _ _ _ _ _ _ Hf Hk Hc) as Hcf.
      destruct c as [c|]; [destruct Hcf as (_ & Hcf & _); congruence|].
      destruct Ht as (_ & Ht & _). rewrite Hl, Ht in Heq. injection Heq as <-. by rewrite Ho, Hd.
    + intros Hno. rewrite overlay_None.
      { cbn. rewrite Hcon. unfold view. by rewrite (proj2 (shown_Some m q bk)) by eauto. }
      intros ([x' d] & E & (pe & Hin & Hpl & _)%elem_of_entries)%list_elem_of_fmap. cbn in E. subst x'.
      apply list_elem_of_lookup_1 in Hin as [k Hk].
      destruct (Forall2_lookup_r _ _ _ _ _ Hpub Hk) as ([w c] & [Hw' Hc']%lookup_zip_Some & Hpb).
      destruct (Hwrite k w Hw') as (c1 & pe1 & y & Hc1 & Hpe1 & _ & Hy & Ht & _).
      rewrite Hk in Hpe1. injection Hpe1 as <-. rewrite Hpl in Hy. injection Hy as <-.
      destruct c1 as [c1|].
      * destruct Ht as [-> Hge]. by apply (Hne c1).
      * destruct Ht as (Hcop & Ht & _). specialize (Hno w (list_elem_of_lookup_2 _ _ _ Hw') Hcop).
        rewrite Hl, Ht in Hno. by specialize (Hno eq_refl).
Qed.

(** A commit without copies leaves every page stored where it was. *)
Lemma commit_locations t ws m f t' n m' :
  st (pins_add pins (dep_refs t)) L m -> whole_pages ws ->
  (forall w, w ∈ ws -> copied m (w_address w) = false) ->
  commit_locked_pages t ws m = Ok ((GEM_MEMORY_OK, f, t', n), m') ->
  forall q, location_of m' q = location_of m q.
Proof.
  intros Hst Hw Hcop H q. destruct (commit_phases _ _ _ _ _ _ _ Hst Hw H) as (m1 & m2 & cs & pes & R).
  pose proof R as [_ Hpr Hf _ Hpub Hoth Hps (pins' & L' & Hst') Hrw].
  assert (forall p i bk1, m_pages m2 !! q = Some p -> p_backing p = Some i -> m_backings m1 !! i = Some bk1 ->
    location_of m' q = Some (location_in i (b_data bk1))) as Hafter.
  { intros p i bk1 Hq Hi Hbk1. rewrite <- Hps in Hq. destruct (st_page_live _ _ _ _ _ _ Hst' Hq Hi) as [bk' Hbk'].
    destruct (Hrw _ _ Hbk') as (bk & Hbk & Hl & _). rewrite Hbk1 in Hbk. injection Hbk as <-. rewrite <- Hl.
    unfold location_of. rewrite Hq. cbn. rewrite Hi. cbn. by apply backing_location_Some. }
  destruct (decide (q ∈ w_address <$> ws)) as [Hin|Hout].
  - apply list_elem_of_fmap in Hin as (w & -> & Hin). specialize (Hcop w Hin).
    apply list_elem_of_lookup_1 in Hin as [k Hk].
    destruct (Forall2_lookup_l _ _ _ _ _ Hf Hk) as (c & Hc & Hcf).
    destruct (Forall2_lookup_l _ _ _ k (w, c) Hpub) as (pe & Hpe & Hpb); [by apply lookup_zip_Some|].
    destruct c as [c|]; [destruct Hcf as (_ & Hcf & _); congruence|].
    destruct (published_target _ _ _ _ _ _ _ _ Hst Hpr Hcf Hpb) as (x & Hx & _ & -> & _).
    destruct Hpb as (p & bk & p' & _ & _ & _ & Hbk & _ & Ha & Hpb).
    rewrite (Hafter _ _ _ Ha Hpb Hbk). by rewrite <- Hx, (backing_location_Some _ _ _ Hbk).
  - specialize (Hoth q Hout). unfold location_of at 2. destruct (m_pages m !! q) as [p|] eqn:Hpq; cbn.
    2:{ unfold location_of. by rewrite Hps, Hoth. }
    destruct (p_backing p) as [i|] eqn:Hi; cbn.
    2:{ unfold location_of. rewrite Hps, Hoth. cbn. by rewrite Hi. }
    destruct (old_location _ _ _ _ _ _ _ Hst Hpr Hpq Hi) as (bk & x & Hbk & Hbk1 & _ & _ & Hx & _).
    rewrite (Hafter _ _ _ Hoth Hi Hbk1), (backing_location_Some _ _ _ Hbk). done.
Qed.
End commit.

Section theorems.
Context {platform : Platform}.


(** ** Failed commits *)

(** What consuming a guard does to a dependency on the page. *)
Definition unguarded (a : Z) (p : page) (d : transaction_page) : transaction_page :=
  if t_address d =? a then
    TransactionPage (t_address d) (p_generation p) (t_content_generation d) (t_content_hash d)
      (t_backing d) (p_protection p) (t_external d)
  else d.

(** The page of a write loses its guard, and the transaction knows. *)
Definition guard_consumed (ws : list gem_memory_page_write) (t t' : gem_memory_transaction) (m m' : mem) : Prop :=
  exists w p g, w ∈ ws /\ m_pages m !! w_address w = Some p /\ has_bits (p_protection p) GEM_PAGE_GUARD = true /\
    let p' := with_generation (strip_guard p) g in
    m_pages m' = <[w_address w := p']> (m_pages m) /\ t' = unguarded (w_address w) p' <$> t.

Lemma prepare_failed ws t copies m0 m e f t' cs m' :
  frugal_since m0 m -> prepare_writes ws t copies m = Ok ((e, f, t', cs), m') -> e <> GEM_MEMORY_OK ->
  frugal_since m0 m' /\
  ((e <> GEM_MEMORY_GUARD_PAGE /\ m_pages m' = m_pages m /\ t' = t) \/
   (e = GEM_MEMORY_GUARD_PAGE /\ guard_consumed ws t t' m m')).
Proof.
  revert copies m. induction ws as [|w ws IH]; intros copies m Hm H He; cbn [prepare_writes] in H.
  { by injection H as <-. }
  assert (forall c m1, frugal_since m0 m1 -> m_pages m1 = m_pages m ->
    prepare_writes ws t (copies ++ [c]) m1 = Ok ((e, f, t', cs), m') ->
    frugal_since m0 m' /\
    ((e <> GEM_MEMORY_GUARD_PAGE /\ m_pages m' = m_pages m /\ t' = t) \/
     (e = GEM_MEMORY_GUARD_PAGE /\ guard_consumed (w :: ws) t t' m m'))) as Hnext.
  { intros c m1 Hm1 Hp1 H1. destruct (IH _ _ Hm1 H1 He) as [Hf [(? & Hp2 & ?)|(? & w1 & p1 & g & Hin & Ha & Hg & Hr)]].
    - split; [done|]. left. split_and!; [done|congruence|done].
    - split; [done|]. right. split; [done|]. exists w1, p1, g. rewrite <- Hp1. split_and!; [set_solver|done|done|exact Hr]. }
  apply bind_run in H as (p & m1 & (-> & Ha)%deref_page_cases & H).
  destruct (has_bits (p_protection p) GEM_PAGE_GUARD) eqn:Eg.
  - apply bind_run in H as (u & m1 & H1 & H). pose proof H1 as (q & Hq & ->)%modify_page_cases.
    rewrite Ha in Hq. injection Hq as <-.
    apply bind_run in H as (u2 & m2 & H2 & H).
    assert (frugal_since m0 m2) as Hf2.
    { eapply (frugal_keeps (touch_page (w_address w))); [auto with gem| |exact H2].
      eapply (frugal_keeps (modify_page (w_address w) strip_guard)); [auto with gem|exact Hm|exact H1]. }
    unfold touch_page in H2. apply bind_run in H2 as (g & m3 & H3 & (q & Hq & ->)%modify_page_cases).
    pose proof (keeps_bump m_pages ltac:(done) _ _ _ H3) as Hk. rewrite Hk in Hq. cbn in Hq.
    rewrite lookup_insert_eq in Hq. injection Hq as <-.
    apply bind_run in H as (q & m4 & (-> & Hq)%deref_page_cases & H). cbn in Hq. rewrite lookup_insert_eq in Hq.
    injection Hq as <-. apply bind_run in H as (t1 & m4 & H4 & H). rewrite update_dependencies_pure in H4.
    injection H4 as <- <-. injection H as <- _ <- _ <-. split; [done|]. right. split; [done|].
    exists w, p, g. split_and!; [set_solver|done|done|]. split; [|done]. cbn. rewrite Hk. cbn. by rewrite insert_insert_eq.
  - destruct (is_write_copy _); [|by eapply Hnext].
    apply bind_run in H as ([b bk] & m1 & (_ & -> & _)%deref_backing_cases & H). destruct (external bk); [by eapply Hnext|].
    apply bind_run in H as (c & m1 & H1 & H).
    pose proof (keeps_new_backing m_pages None ltac:(done) ltac:(done) _ _ _ H1) as Hp1.
    pose proof (frugal_new_backing None m0 m c m1 Hm H1) as Hm1.
    destruct c as [c|]; [|injection H as <- _ <- _ <-; split; [done|]; by left].
    apply bind_get_run in H. apply bind_run in H as (u & m2 & H2 & H).
    pose proof (keeps_store_backing m_pages _ _ _ ltac:(done) ltac:(done) _ _ _ H2) as Hp2.
    apply (Hnext (Some c) m2); [|congruence|exact H].
    destruct (new_backing_run _ _ _ H1) as (_ & _ & _ & -> & _ & junk & Hb1).
    unfold store_backing, deref_backing, put_backing, mbind, M_bind, get, put in H2.
    rewrite Hb1, lookup_insert_eq in H2. cbn -[memcpy zero_page] in H2. injection H2 as _ <-.
    destruct Hm as (Ham & _ & _), Hm1 as (Ha1 & Hh1 & Hbk1). split_and!; [done|done|].
    intros j bkj Hj. cbn. rewrite lookup_insert_ne by lia. by apply Hbk1.
Qed.

(** A failed commit, for the proofs below and those of other files. *)
Lemma commit_failed pins L t ws count m e f t' k m' :
  (forall b, 0 <= pins b) -> st (pins_add pins (dep_refs t)) L m ->
  gem_memory_transaction_commit_pages (Some t) ws count m = Ok ((e, f, Some t', k), m') ->
  e <> GEM_MEMORY_OK ->
  (e <> GEM_MEMORY_GUARD_PAGE /\ same_memory m m' /\ t' = t) \/
  (e = GEM_MEMORY_GUARD_PAGE /\ guard_consumed (take count (default [] ws)) t t' m m' /\
   m_backings m' = m_backings m /\ m_host m' = m_host m).
Proof.
  intros Hp Hst H He. unfold gem_memory_transaction_commit_pages in H. destruct (_ || _).
  { injection H as <- _ <- _ <-. left. destruct (decide (GEM_MEMORY_INVALID_ARGUMENT = GEM_MEMORY_GUARD_PAGE)); done. }
  apply bind_run in H as ([[[e1 f1] t1] n] & m1 & H & Hret). injection Hret as -> _ -> _ ->.
  assert (st (pins_add pins (dep_refs t ++ [])) L m) as Hst0 by by rewrite app_nil_r.
  pose proof (triple_run _ _ _ _ _ _ (commit_triple pins L Hp t _) Hst0 H) as Hst'. cbn [fst snd] in Hst'.
  rewrite app_nil_r in Hst'. set (w := take count (default [] ws)) in *. clearbody w.
  enough (frugal_since m m' /\
    ((e <> GEM_MEMORY_GUARD_PAGE /\ m_pages m' = m_pages m /\ t' = t) \/
     (e = GEM_MEMORY_GUARD_PAGE /\ guard_consumed w t t' m m'))) as [Hf [(Hg & Hps & ->)|[Hg Hgc]]].
  { left. split_and!; [done| |done]. exact (frugal_restored _ _ _ _ _ Hst Hst' Hf Hps). }
  { right. split_and!; [done|done| |apply Hf]. pose proof Hgc as (w1 & p & g & _ & Ha & _ & Hps & ->).
    assert (dep_refs (unguarded (w_address w1) (with_generation (strip_guard p) g) <$> t) = dep_refs t) as E.
    { apply dep_refs_map. intros d. unfold unguarded. by destruct (_ =? _). }
    rewrite E in Hst'. eapply frugal_restored_backings; [exact Hst|exact Hst'|exact Hf|].
    intros i. rewrite Hps. pose proof (count_insert i _ _ (with_generation (strip_guard p) g) _ Ha) as Hc.
    cbn in Hc. lia. }
  unfold commit_locked_pages in H. apply bind_run in H as ([[[r t2] pes] k2] & m2 & H1 & H).
  destruct (bool_decide (r.1 = GEM_MEMORY_OK)) eqn:Er.
  { apply bind_run in H as (n2 & m3 & _ & H). apply bind_run in H as (u & m4 & _ & H). by injection H as <-. }
  injection H as -> <- _ <-. unfold commit_publish in H1. apply bind_run in H1 as (c & m0 & Hc & H1).
  assert (m0 = m) as -> by exact (triple_run _ _ _ _ _ _ (find_conflict_triple L _ m t Hst) eq_refl Hc).
  assert (forall (x : gem_memory_error * option Z) (q : list pending) (j : Z),
    (mret (x, t, q, j) : M _) m = Ok ((e, f1, t2, pes, k2), m2) -> e <> GEM_MEMORY_GUARD_PAGE ->
    frugal_since m m2 /\ ((e <> GEM_MEMORY_GUARD_PAGE /\ m_pages m2 = m_pages m /\ t2 = t) \/
     (e = GEM_MEMORY_GUARD_PAGE /\ guard_consumed w t t2 m m2))) as Hnothing.
  { intros x q j Hx Hg. injection Hx as _ <- _ _ <-. split; [apply frugal_since_refl|by left]. }
  destruct c as [a|]; [eapply Hnothing; [exact H1|by injection H1 as <-]|].
  apply bind_get_run in H1. destruct (check_writes m [] w) as [[e2 f2]|] eqn:Hck.
  { eapply Hnothing; [exact H1|]. injection H1 as -> -> _ _ _ _. intros ->. clear -Hck.
    revert Hck. generalize (@nil Z). induction w as [|x w IH]; intros seen Hck; [done|].
    cbn in Hck. repeat case_match; try done. by eapply IH. }
  apply bind_run in H1 as ([[[e2 f2] t3] cs] & m3 & H1 & H2).
  destruct (bool_decide (e2 = GEM_MEMORY_OK)) eqn:E2.
  { apply bind_run in H2 as ([[pes1 t4] k4] & m4 & _ & H2). by injection H2 as <-. }
  apply bool_decide_eq_false in E2. apply bind_run in H2 as (u & m4 & H2 & H3). injection H3 as <- _ <- _ _ <-.
  destruct (prepare_failed _ _ _ _ _ _ _ _ _ _ (frugal_since_refl m) H1 E2) as [Hf Hr].
  assert (m_pages m4 = m_pages m3) as Hp4.
  { eapply (keeps_for_each m_pages); [|exact H2]. intros o. by apply keeps_drop. }
  split; [by eapply (frugal_for_each drop_backing cs frugal_drop)|].
  destruct Hr as [(? & Hp3 & ?)|[? (w1 & p & g & Hr)]]; [left; split_and!; [done|congruence|done]|].
  right. split; [done|]. exists w1, p, g. by rewrite Hp4.
Qed.

(** C4: a commit that fails leaves the page table, every backing (contents,
    generation and reference count), host memory and the transaction as they
    were, including the copies it had made; only a guard page in the write set
    is consumed: that page loses its guard and gets a new generation, and the
    transaction's own dependency on it is brought up to date. *)
Theorem commit_atomic pins t ws count m e f t' k m' :
  (forall b, 0 <= pins b) -> inv (pins_add pins (dep_refs t)) m ->
  gem_memory_transaction_commit_pages (Some t) ws count m = Ok ((e, f, Some t', k), m') ->
  e <> GEM_MEMORY_OK ->
  (e <> GEM_MEMORY_GUARD_PAGE /\ same_memory m m' /\ t' = t) \/
  (e = GEM_MEMORY_GUARD_PAGE /\ guard_consumed (take count (default [] ws)) t t' m m' /\
   m_backings m' = m_backings m /\ m_host m' = m_host m).
Proof. intros Hp (L & Hst & _). by eapply commit_failed. Qed.
End theorems.

(** ** Concrete runs *)

(** A copy-on-write page and a plain one, each with an alias; the transaction
    has read the first. *)
Definition commit_events : list event :=
  (EvCall <$> [CallReserve (Some 0) 8192; CallCommit 0x100000000 4096 GEM_PAGE_WRITECOPY;
    CallCommit 0x100001000 4096 GEM_PAGE_READWRITE;
    CallAlias 0x200000000 0x100000000 4096 GEM_PAGE_READWRITE;
    CallAlias 0x300000000 0x100001000 4096 GEM_PAGE_READWRITE]) ++ [EvBegin; EvSnapshot 0 0x100000000].
Definition commit_world : world := history (littered 0) commit_events.
Definition commit_transaction : gem_memory_transaction := default [] (handle commit_world 0).
Definition commit_writes : list gem_memory_page_write :=
  [PageWrite 0x100000000 (Some (replicate PAGE 5)); PageWrite 0x100001000 (Some (replicate PAGE 6))].

(** [separate], as a check. *)
Lemma separate_check m ws :
  forallb (fun w => forallb (fun w' =>
    copied m (w_address w) || copied m (w_address w') ||
    negb (bool_decide (location_of m (w_address w) = location_of m (w_address w'))) ||
    (w_address w =? w_address w')) ws) ws = true -> separate m ws.
Proof.
  intros H w w' Hw Hw' Hc Hc' Hl. rewrite forallb_forall in H. apply list_elem_of_In in Hw, Hw'.
  specialize (H w Hw). rewrite forallb_forall in H. specialize (H w' Hw').
  rewrite Hc, Hc', bool_decide_eq_true_2 in H by done. cbn in H. by apply Z.eqb_eq.
Qed.


(** A guarded page in the write set, after a copy has been made for another. *)
Definition guard_events : list event :=
  commit_events ++ [EvCall (CallProtect 0x100001000 4096 (GEM_PAGE_READWRITE .| GEM_PAGE_GUARD) None);
    EvSnapshot 0 0x100001000].
Definition guard_world : world := history (littered 0) guard_events.
Definition guard_transaction : gem_memory_transaction := default [] (handle guard_world 0).

Lemma commit_atomic_witness :
  exists f t' k m', gem_memory_transaction_commit_pages (platform := littered 0) (Some guard_transaction)
      (Some commit_writes) 2 (wd_memory guard_world) = Ok ((GEM_MEMORY_GUARD_PAGE, f, Some t', k), m') /\
    guard_consumed commit_writes guard_transaction t' (wd_memory guard_world) m' /\
    m_backings m' = m_backings (wd_memory guard_world).
Proof.
  assert (exists f t' k m', gem_memory_transaction_commit_pages (platform := littered 0) (Some guard_transaction)
      (Some commit_writes) 2 (wd_memory guard_world) = Ok ((GEM_MEMORY_GUARD_PAGE, f, Some t', k), m')) as (f & t' & k & m' & E).
  { eexists _, _, _, _. vm_compute. reflexivity. }
  exists f, t', k, m'. split; [exact E|].
  destruct (commit_atomic (platform := littered 0) no_pins guard_transaction (Some commit_writes) 2
    (wd_memory guard_world) GEM_MEMORY_GUARD_PAGE f t' k m') as [(Hg & _)|(_ & Hg & Hb & _)].
  - exact no_pins_nonneg.
  - apply (single_owner guard_world); [|vm_compute; reflexivity].
    apply history_inv; [apply (bool_decide_unpack _); vm_compute; exact I|vm_compute; reflexivity..].
  - exact E.
  - discriminate.
  - by destruct Hg.
  - split; [exact Hg|exact Hb].
Defined.
