(* ===== verification/Stripes.v ===== *)
(** Stripes: the locks of the guest address space (src/gem/memory.c, lines
    101-183, 245-349 and the locking of every public function): which of the 256
    reader/writer stripes an operation takes, the stripe lock itself (the POSIX
    one), and threads that run the lock operations of their calls in any order.

    The address of a [struct backing], which chooses its stripe, is malloc's
    choice: the parameter [pointer].  The mutex and the condition variable inside
    a stripe lock make each of its operations atomic, so a blocked acquire is a
    step that cannot be taken yet. *)
From S2P Require Import Prelude MemoryModel Memory Transaction.

(** ** Sets of stripes *)

Definition GEM_MEMORY_LOCK_STRIPES : Z := 256.

Definition address_stripe_index (address : Z) : Z :=
  (address >>. 12) .& (GEM_MEMORY_LOCK_STRIPES - 1).

Definition backing_stripe_index (backing : Z) : Z :=
  (backing >>. 6) .& (GEM_MEMORY_LOCK_STRIPES - 1).

(** [stripes] up to [count], in ascending order. *)
Fixpoint insert_stripe (stripes : list Z) (stripe : Z) : list Z :=
  match stripes with
  | [] => [stripe]
  | x :: l =>
    if x <? stripe then x :: insert_stripe l stripe
    else if x =? stripe then x :: l
    else stripe :: x :: l
  end.

Section stripes.
Context (pointer : bid -> Z).

Definition page_stripes (address : Z) (backing : option bid) (stripes : list Z) : list Z :=
  let stripes := insert_stripe stripes (address_stripe_index address) in
  match backing with
  | Some b => insert_stripe stripes (backing_stripe_index (pointer b))
  | None => stripes
  end.

Definition dependency_stripes (t : gem_memory_transaction) : list Z :=
  foldl (fun stripes d => page_stripes (t_address d) (Some (t_backing d)) stripes) [] t.

(** The stripes of [gem_memory_transaction_commit_pages] with [stripe_modes]:
    1 for reading, 2 for writing. *)
Definition set_modes (mode : Z) (stripes modes : list Z) : list Z :=
  foldl (fun modes s => <[Z.to_nat s := mode]> modes) modes stripes.

Definition add_write_stripes (m : mem) (r : list Z * list Z) (w : gem_memory_page_write)
  : list Z * list Z :=
  let write_stripes := page_stripes (w_address w) (at_ m (w_address w) ≫= p_backing) [] in
  (foldl insert_stripe r.1 write_stripes, set_modes 2 write_stripes r.2).

Definition commit_stripes (m : mem) (t : gem_memory_transaction) (ws : list gem_memory_page_write)
  : list (Z * bool) :=
  let dependencies := dependency_stripes t in
  let '(stripes, modes) := foldl (add_write_stripes m)
    (dependencies, set_modes 1 dependencies (replicate (Z.to_nat GEM_MEMORY_LOCK_STRIPES) 0)) ws in
  (fun s => (s, bool_decide (modes !! Z.to_nat s = Some 2))) <$> stripes.

(** [locked] of [range_stripes_acquire]. *)
Definition mark (locked : list bool) (i : Z) : list bool := <[Z.to_nat i := true]> locked.

Definition mark_page (m : mem) (locked : list bool) (page : Z) : list bool :=
  let locked := mark locked (address_stripe_index page) in
  match at_ m page ≫= p_backing with
  | Some b => mark locked (backing_stripe_index (pointer b))
  | None => locked
  end.

Definition range_locked (m : mem) (address size : Z) : list bool :=
  let none := replicate (Z.to_nat GEM_MEMORY_LOCK_STRIPES) false in
  if (size =? 0) || (UINT64_MAX - (size - 1) <? address) then none
  else
    let page := address .&~ 4095 in
    let last := (address + size - 1) .&~ 4095 in
    let '(locked, page) :=
      if GEM_MEMORY_LOCK_STRIPES <=? (last - page) / GEM_GUEST_PAGE_SIZE + 1
      then (replicate (Z.to_nat GEM_MEMORY_LOCK_STRIPES) true, last)
      else (none, page) in
    foldl (mark_page m) locked
      ((fun i => page + GEM_GUEST_PAGE_SIZE * i) <$> seqZ 0 ((last - page) / GEM_GUEST_PAGE_SIZE + 1)).

(** The stripes it acquires, in the order of the last loop. *)
Definition range_stripes (m : mem) (address size : Z) : list Z :=
  let locked := range_locked m address size in
  filter (fun i => locked !! Z.to_nat i = Some true) (seqZ 0 GEM_MEMORY_LOCK_STRIPES).
End stripes.

(** ** One stripe *)

Record gem_stripe_lock : Type := StripeLock {
  readers : Z;
  waiting_writers : Z;
  writer : bool }.

(** [None]: the caller waits on the condition variable. *)
Definition gem_stripe_read_acquire (l : gem_stripe_lock) : option gem_stripe_lock :=
  if writer l || negb (waiting_writers l =? 0) then None
  else Some (StripeLock (wrap32 (readers l + 1)) (waiting_writers l) (writer l)).

Definition gem_stripe_read_release (l : gem_stripe_lock) : gem_stripe_lock :=
  StripeLock (wrap32 (readers l - 1)) (waiting_writers l) (writer l).

(** [gem_stripe_write_acquire] announces itself, then waits. *)
Definition gem_stripe_write_announce (l : gem_stripe_lock) : gem_stripe_lock :=
  StripeLock (readers l) (wrap32 (waiting_writers l + 1)) (writer l).

Definition gem_stripe_write_acquire (l : gem_stripe_lock) : option gem_stripe_lock :=
  if writer l || negb (readers l =? 0) then None
  else Some (StripeLock (readers l) (wrap32 (waiting_writers l - 1)) true).

Definition gem_stripe_write_release (l : gem_stripe_lock) : gem_stripe_lock :=
  StripeLock (readers l) (waiting_writers l) false.

(** ** Threads *)

(** What a call does to the locks: the metadata lock, the stripes (with the
    mode), and everything else. *)
Inductive op : Type :=
  | OpLock
  | OpUnlock
  | OpAcquire (stripe : Z) (write : bool)
  | OpRelease (stripe : Z) (write : bool)
  | OpWork.

#[export] Instance op_eq_dec : EqDecision op.
Proof. solve_decision. Defined.

(** The operations a thread still has to do, the stripes it holds (latest
    first), and whether it has announced the write it is about to acquire. *)
Record thread : Type := Thread {
  th_ops : list op;
  th_held : list (Z * bool);
  th_waiting : bool }.

(** The metadata lock is recursive: its owner and depth. *)
Record system : Type := System {
  sys_owner : option (nat * nat);
  sys_stripes : Z -> gem_stripe_lock;
  sys_threads : list thread }.

Definition idle_stripe : gem_stripe_lock := StripeLock 0 0 false.

Definition set_stripe (f : Z -> gem_stripe_lock) (s : Z) (l : gem_stripe_lock) : Z -> gem_stripe_lock :=
  fun x => if decide (x = s) then l else f x.

Fixpoint remove_held (x : Z * bool) (l : list (Z * bool)) : list (Z * bool) :=
  match l with
  | [] => []
  | y :: l => if decide (x = y) then l else y :: remove_held x l
  end.

(** One step of thread [i]; [None] when it is blocked or has finished. *)
Definition thread_step (i : nat) (σ : system) : option system :=
  th ← sys_threads σ !! i;
  match th_ops th with
  | [] => None
  | OpWork :: ops =>
      Some (System (sys_owner σ) (sys_stripes σ) (<[i := Thread ops (th_held th) false]> (sys_threads σ)))
  | OpLock :: ops =>
      owner ← match sys_owner σ with
              | None => Some (i, 1%nat)
              | Some (j, k) => if decide (i = j) then Some (i, S k) else None
              end;
      Some (System (Some owner) (sys_stripes σ) (<[i := Thread ops (th_held th) false]> (sys_threads σ)))
  | OpUnlock :: ops =>
      match sys_owner σ with
      | Some (j, k) =>
        if decide (i = j)
        then Some (System (match k with S (S k) => Some (i, S k) | _ => None end) (sys_stripes σ)
                     (<[i := Thread ops (th_held th) false]> (sys_threads σ)))
        else None
      | None => None
      end
  | OpAcquire s w :: ops =>
      let l := sys_stripes σ s in
      if w && negb (th_waiting th) then
        Some (System (sys_owner σ) (set_stripe (sys_stripes σ) s (gem_stripe_write_announce l))
                (<[i := Thread (th_ops th) (th_held th) true]> (sys_threads σ)))
      else
        l ← (if w then gem_stripe_write_acquire l else gem_stripe_read_acquire l);
        Some (System (sys_owner σ) (set_stripe (sys_stripes σ) s l)
                (<[i := Thread ops ((s, w) :: th_held th) false]> (sys_threads σ)))
  | OpRelease s w :: ops =>
      let l := sys_stripes σ s in
      Some (System (sys_owner σ)
              (set_stripe (sys_stripes σ) s
                (if w then gem_stripe_write_release l else gem_stripe_read_release l))
              (<[i := Thread ops (remove_held (s, w) (th_held th)) false]> (sys_threads σ)))
  end.

Definition step (σ σ' : system) : Prop := exists i, thread_step i σ = Some σ'.

(** ** What each call does to the locks *)

Definition acquires (stripes : list (Z * bool)) : list op :=
  (fun x => OpAcquire x.1 x.2) <$> stripes.
(** Released from the last to the first. *)
Definition releases (stripes : list (Z * bool)) : list op :=
  (fun x => OpRelease x.1 x.2) <$> reverse stripes.

Definition in_mode (write : bool) (stripes : list Z) : list (Z * bool) :=
  (fun s => (s, write)) <$> stripes.

(** A function that keeps the metadata lock throughout. *)
Definition locked_script (stripes : list (Z * bool)) : list op :=
  OpLock :: acquires stripes ++ [OpWork] ++ releases stripes ++ [OpUnlock].

(** A successful commit copies after releasing the metadata lock, and takes it
    again to drop its references. *)
Definition commit_script (stripes : list (Z * bool)) : list op :=
  OpLock :: acquires stripes ++ [OpWork; OpUnlock; OpWork] ++ releases stripes ++
  [OpLock; OpWork; OpUnlock].

(** The calls, with the memory they find once they have the metadata lock. *)
Inductive operation : Type :=
  | OnMetadata  (* reserve, end, a snapshot or validation that stops early *)
  | OnRange (m : mem) (address size : Z) (write : bool)
  | OnPage (address : Z) (backing : option bid) (write : bool)  (* snapshot, validate *)
  | OnDependencies (t : gem_memory_transaction)  (* finish *)
  | OnCommit (m : mem) (t : gem_memory_transaction) (ws : list gem_memory_page_write) (ok : bool).

Definition operation_script (pointer : bid -> Z) (o : operation) : list op :=
  match o with
  | OnMetadata => locked_script []
  | OnRange m a n w => locked_script (in_mode w (range_stripes pointer m a n))
  | OnPage a b w => locked_script (in_mode w (page_stripes pointer a b []))
  | OnDependencies t => locked_script (in_mode false (dependency_stripes pointer t))
  | OnCommit m t ws ok =>
      let stripes := commit_stripes pointer m t ws in
      if ok then commit_script stripes else locked_script stripes
  end.

(** Threads that each make a sequence of calls. *)
Definition start (pointer : bid -> Z) (calls : list (list operation)) : system :=
  System None (fun _ => idle_stripe)
    ((fun os => Thread (concat (operation_script pointer <$> os)) [] false) <$> calls).
