(* ===== verification/StripeProperties.v ===== *)
(** StripeProperties: the stripes of an operation are ascending and fit their
    array, no two threads hold a stripe in conflicting modes, and every run of
    any number of threads comes to an end with all locks free. *)
From S2P Require Import Prelude MemoryModel Memory MemoryInv Transaction Stripes.
From Stdlib Require Import Sorting.Sorted.

(** ** Ascending lists of stripes *)

Definition ascending (l : list Z) : Prop := StronglySorted Z.lt l.
Definition stripe_range (s : Z) : Prop := 0 <= s < GEM_MEMORY_LOCK_STRIPES.

Lemma elem_of_insert_stripe l s x : x ∈ insert_stripe l s <-> x = s \/ x ∈ l.
Proof.
  induction l as [|y l IH]; cbn; [set_solver|].
  destruct (Z.ltb_spec y s); [set_solver|]. destruct (Z.eqb_spec y s); set_solver.
Qed.

Lemma insert_stripe_ascending l s : ascending l -> ascending (insert_stripe l s).
Proof.
  unfold ascending. induction 1 as [|y l Hl IH Hy]; cbn; [repeat constructor|].
  rewrite Forall_forall in Hy. destruct (Z.ltb_spec y s).
  - constructor; [done|]. apply Forall_forall. intros x [->|Hx]%elem_of_insert_stripe; [lia|by apply Hy].
  - destruct (Z.eqb_spec y s) as [->|]; [by constructor; [|apply Forall_forall]|].
    constructor; [by constructor; [|apply Forall_forall]|]. constructor; [lia|].
    apply Forall_forall. intros x Hx. specialize (Hy x Hx). lia.
Qed.

(** Distinct stripes are at most 256. *)
Lemma ascending_length l : ascending l -> Forall stripe_range l -> (length l <= 256)%nat.
Proof.
  intros Hl Hr. assert (NoDup l) as Hnd.
  { clear Hr. induction Hl as [|x l _ IH Hx]; constructor; [|done].
    intros Hin. rewrite Forall_forall in Hx. specialize (Hx x Hin). lia. }
  change 256%nat with (length (seqZ 0 GEM_MEMORY_LOCK_STRIPES)).
  apply submseteq_length, NoDup_submseteq; [done|]. intros x Hx. rewrite Forall_forall in Hr.
  apply elem_of_seqZ. specialize (Hr x Hx). unfold stripe_range in Hr. lia.
Qed.

Lemma land_255 x : stripe_range (x .& (GEM_MEMORY_LOCK_STRIPES - 1)).
Proof.
  unfold stripe_range, GEM_MEMORY_LOCK_STRIPES. change (256 - 1) with (Z.ones 8).
  rewrite Z.land_ones by lia. apply Z.mod_pos_bound. lia.
Qed.

Lemma address_stripe_range a : stripe_range (address_stripe_index a).
Proof. apply land_255. Qed.
Lemma backing_stripe_range b : stripe_range (backing_stripe_index b).
Proof. apply land_255. Qed.

Create HintDb stripes.
#[export] Hint Resolve insert_stripe_ascending address_stripe_range backing_stripe_range : stripes.

Section stripes.
Context (pointer : bid -> Z).

Definition stripe_list (l : list Z) : Prop := ascending l /\ Forall stripe_range l.

Lemma stripe_list_nil : stripe_list [].
Proof. by repeat constructor. Qed.

Lemma insert_stripe_list l s : stripe_list l -> stripe_range s -> stripe_list (insert_stripe l s).
Proof.
  intros [Hl Hr] Hs. split; [auto with stripes|]. rewrite Forall_forall in Hr |- *.
  intros x [->|Hx]%elem_of_insert_stripe; auto.
Qed.

Lemma page_stripes_list a b l : stripe_list l -> stripe_list (page_stripes pointer a b l).
Proof.
  intros Hl. unfold page_stripes. destruct b; repeat apply insert_stripe_list; auto with stripes.
Qed.

Lemma elem_of_page_stripes a b l x :
  x ∈ page_stripes pointer a b l <->
  x = address_stripe_index a \/ x ∈ l \/ exists i, b = Some i /\ x = backing_stripe_index (pointer i).
Proof.
  unfold page_stripes. destruct b as [i|]; rewrite ?elem_of_insert_stripe; naive_solver.
Qed.

Lemma page_stripes_split a b l x :
  x ∈ page_stripes pointer a b l <-> x ∈ l \/ x ∈ page_stripes pointer a b [].
Proof. rewrite !elem_of_page_stripes, elem_of_nil. tauto. Qed.

Lemma exists_cons {A} (P : A -> Prop) a l : (exists x, x ∈ a :: l /\ P x) <-> P a \/ exists x, x ∈ l /\ P x.
Proof. setoid_rewrite elem_of_cons. naive_solver. Qed.

Lemma exists_nil {A} (P : A -> Prop) : (exists x, x ∈ [] /\ P x) <-> False.
Proof. setoid_rewrite elem_of_nil. naive_solver. Qed.

Definition dependency_stripe (d : transaction_page) : list Z :=
  page_stripes pointer (t_address d) (Some (t_backing d)) [].

Lemma dependency_fold t l :
  stripe_list l ->
  stripe_list (foldl (fun l d => page_stripes pointer (t_address d) (Some (t_backing d)) l) l t) /\
  forall x, x ∈ foldl (fun l d => page_stripes pointer (t_address d) (Some (t_backing d)) l) l t <->
    x ∈ l \/ exists d, d ∈ t /\ x ∈ dependency_stripe d.
Proof.
  revert l. induction t as [|d t IH]; intros l Hl; cbn [foldl].
  { split; [done|]. intros x. rewrite exists_nil. tauto. }
  destruct (IH (page_stripes pointer (t_address d) (Some (t_backing d)) l)) as [Hs Hx]; [by apply page_stripes_list|].
  split; [done|]. intros x. rewrite Hx, exists_cons, page_stripes_split. unfold dependency_stripe. tauto.
Qed.

Lemma dependency_stripes_list t : stripe_list (dependency_stripes pointer t).
Proof. apply dependency_fold, stripe_list_nil. Qed.

Lemma insert_all_list l ss :
  stripe_list l -> Forall stripe_range ss ->
  stripe_list (foldl insert_stripe l ss) /\ forall x, x ∈ foldl insert_stripe l ss <-> x ∈ l \/ x ∈ ss.
Proof.
  intros Hl Hs. revert l Hl. induction Hs as [|s ss Hs _ IH]; intros l Hl; cbn [foldl].
  { split; [done|]. intros x. rewrite elem_of_nil. tauto. }
  destruct (IH (insert_stripe l s)) as [? Hx]; [by apply insert_stripe_list|]. split; [done|].
  intros x. rewrite Hx, elem_of_insert_stripe, elem_of_cons. tauto.
Qed.

(** The modes: a stripe of a write is in mode 2. *)
Lemma length_set_modes k ss modes : length (set_modes k ss modes) = length modes.
Proof.
  unfold set_modes. revert modes. induction ss as [|s ss IH]; intros modes; cbn [foldl]; [done|].
  by rewrite IH, length_insert.
Qed.

Lemma lookup_set_modes k ss modes s :
  Forall stripe_range ss -> length modes = 256%nat -> stripe_range s ->
  set_modes k ss modes !! Z.to_nat s = if bool_decide (s ∈ ss) then Some k else modes !! Z.to_nat s.
Proof.
  intros Hss. revert modes. unfold set_modes. induction Hss as [|x ss Hx Hss IH]; intros modes Hl Hs; cbn [foldl].
  { by rewrite bool_decide_eq_false_2 by set_solver. }
  rewrite IH; [|by rewrite length_insert|done]. unfold stripe_range, GEM_MEMORY_LOCK_STRIPES in *.
  destruct (decide (s ∈ ss)).
  - by rewrite !bool_decide_eq_true_2 by set_solver.
  - rewrite (bool_decide_eq_false_2 (s ∈ ss)) by done. destruct (decide (s = x)) as [->|].
    + rewrite bool_decide_eq_true_2 by set_solver. apply list_lookup_insert_eq. lia.
    + rewrite bool_decide_eq_false_2 by set_solver. apply list_lookup_insert_ne. lia.
Qed.

(** The stripes of a commit: those of the dependencies to read, those of the
    pages written to write. *)
Definition write_stripes (m : mem) (w : gem_memory_page_write) : list Z :=
  page_stripes pointer (w_address w) (at_ m (w_address w) ≫= p_backing) [].

Lemma write_stripes_list m w : stripe_list (write_stripes m w).
Proof. apply page_stripes_list, stripe_list_nil. Qed.

Lemma commit_fold m ws r :
  stripe_list r.1 -> length r.2 = 256%nat ->
  let r' := foldl (add_write_stripes pointer m) r ws in
  stripe_list r'.1 /\ length r'.2 = 256%nat /\
  (forall x, x ∈ r'.1 <-> x ∈ r.1 \/ exists w, w ∈ ws /\ x ∈ write_stripes m w) /\
  (forall s, stripe_range s -> r'.2 !! Z.to_nat s =
     if bool_decide (Exists (fun w => s ∈ write_stripes m w) ws) then Some 2 else r.2 !! Z.to_nat s).
Proof.
  revert r. induction ws as [|w ws IH]; intros r Hs Hl; cbn [foldl].
  { split_and!; [done|done|intros x; rewrite exists_nil; tauto|]. intros s _. by rewrite bool_decide_eq_false_2 by (rewrite Exists_nil; tauto). }
  destruct (write_stripes_list m w) as [Hwa Hwr].
  destruct (insert_all_list r.1 (write_stripes m w) Hs Hwr) as [Hs1 Hx1].
  destruct (IH (add_write_stripes pointer m r w)) as (Hs2 & Hl2 & Hx2 & Hm2); [done|by cbn; rewrite length_set_modes|].
  split_and!; [done|done| |].
  - intros x. rewrite Hx2. cbn [add_write_stripes fst]. rewrite Hx1, exists_cons. unfold write_stripes. tauto.
  - intros s Hr. rewrite Hm2 by done. cbn [add_write_stripes snd].
    fold (write_stripes m w). rewrite lookup_set_modes by done.
    destruct (decide (Exists (fun w => s ∈ write_stripes m w) ws)).
    + rewrite !bool_decide_eq_true_2; [done|by apply Exists_cons_tl|done].
    + rewrite (bool_decide_eq_false_2 (Exists _ ws)) by done. destruct (decide (s ∈ write_stripes m w)).
      * rewrite !bool_decide_eq_true_2; [done|by apply Exists_cons_hd|done].
      * rewrite !bool_decide_eq_false_2; [done| |done]. rewrite Exists_cons. tauto.
Qed.

Lemma commit_stripes_spec m t ws :
  stripe_list (commit_stripes pointer m t ws).*1 /\
  forall s w, (s, w) ∈ commit_stripes pointer m t ws <->
    (s ∈ dependency_stripes pointer t \/ exists x, x ∈ ws /\ s ∈ write_stripes m x) /\
    (w = true <-> exists x, x ∈ ws /\ s ∈ write_stripes m x).
Proof.
  unfold commit_stripes.
  assert (forall l l', length (set_modes 1 l (replicate l' 0)) = l') as Hlen.
  { intros. by rewrite length_set_modes, length_replicate. }
  pose proof (commit_fold m ws (dependency_stripes pointer t, set_modes 1 (dependency_stripes pointer t)
    (replicate (Z.to_nat GEM_MEMORY_LOCK_STRIPES) 0)) (dependency_stripes_list t) (Hlen _ _)) as H.
  cbn zeta in H. destruct (foldl _ _ _) as [l modes]. cbn [fst snd] in H. destruct H as (Hl & _ & Hx & Hm).
  assert (((fun s => (s, bool_decide (modes !! Z.to_nat s = Some 2))) <$> l).*1 = l) as ->.
  { rewrite <- list_fmap_compose. apply list_fmap_id. }
  split; [done|]. intros s w. rewrite list_elem_of_fmap.
  assert (s ∈ l -> bool_decide (modes !! Z.to_nat s = Some 2) = true <-> exists x, x ∈ ws /\ s ∈ write_stripes m x) as Hw.
  { intros Hs. destruct Hl as [_ Hr]. rewrite Forall_forall in Hr. rewrite Hm by (by apply Hr).
    rewrite bool_decide_eq_true. case_bool_decide as He.
    - rewrite Exists_exists in He. naive_solver.
    - split; [|intros (x & Hin & Hsx); exfalso; apply He, Exists_exists; eauto].
      destruct (dependency_stripes_list t) as [_ Hd].
      rewrite lookup_set_modes; [|done|by rewrite length_replicate|by apply Hr].
      case_bool_decide; [done|]. rewrite lookup_replicate. naive_solver. }
  rewrite <- Hx. split.
  - intros (y & [= -> ->] & Hy). split; [done|]. by apply Hw.
  - intros [Hs Hww]. exists s. split; [|done]. f_equal. specialize (Hw Hs).
    destruct w, (bool_decide _); naive_solver.
Qed.

(** ** The stripes of a range *)

Lemma length_mark l i : length (mark l i) = length l.
Proof. apply length_insert. Qed.

Lemma length_mark_page m l q : length (mark_page pointer m l q) = length l.
Proof. unfold mark_page. destruct (at_ m q ≫= p_backing); by rewrite ?length_mark. Qed.

Lemma lookup_mark l i s :
  length l = 256%nat -> stripe_range i -> stripe_range s ->
  mark l i !! Z.to_nat s = Some true <-> s = i \/ l !! Z.to_nat s = Some true.
Proof.
  unfold mark, stripe_range, GEM_MEMORY_LOCK_STRIPES. intros Hl Hi Hs.
  destruct (decide (s = i)) as [->|Hne].
  - rewrite list_lookup_insert_eq by lia. naive_solver.
  - rewrite list_lookup_insert_ne by lia. naive_solver.
Qed.

Lemma lookup_mark_page m l q s :
  length l = 256%nat -> stripe_range s ->
  mark_page pointer m l q !! Z.to_nat s = Some true <->
    s ∈ page_stripes pointer q (at_ m q ≫= p_backing) [] \/ l !! Z.to_nat s = Some true.
Proof.
  intros Hl Hs. rewrite elem_of_page_stripes. unfold mark_page.
  destruct (at_ m q ≫= p_backing) as [b|].
  - rewrite lookup_mark, lookup_mark; rewrite ?length_mark; auto with stripes. set_solver.
  - rewrite lookup_mark; auto with stripes. set_solver.
Qed.

Lemma lookup_mark_pages m qs l s :
  length l = 256%nat -> stripe_range s ->
  foldl (mark_page pointer m) l qs !! Z.to_nat s = Some true <->
    l !! Z.to_nat s = Some true \/ exists q, q ∈ qs /\ s ∈ page_stripes pointer q (at_ m q ≫= p_backing) [].
Proof.
  intros Hl Hs. revert l Hl. induction qs as [|q qs IH]; intros l Hl; cbn [foldl].
  { rewrite exists_nil. tauto. }
  rewrite IH by (by rewrite length_mark_page). rewrite lookup_mark_page, exists_cons by done. tauto.
Qed.

Lemma elem_of_range_stripes m a n s :
  s ∈ range_stripes pointer m a n <-> range_locked pointer m a n !! Z.to_nat s = Some true /\ stripe_range s.
Proof.
  unfold range_stripes. rewrite list_elem_of_filter, elem_of_seqZ. unfold stripe_range. split; intros []; split; (done || lia).
Qed.

Lemma seqZ_ascending lo n : ascending (seqZ lo n).
Proof.
  unfold ascending. destruct (decide (0 <= n)) as [Hn|]; [|rewrite seqZ_nil by lia; constructor].
  revert lo. pattern n. apply natlike_ind; [|clear n Hn|done]; [intros; rewrite seqZ_nil by lia; constructor|].
  intros n Hn IH lo. rewrite seqZ_cons by lia. rewrite Z.pred_succ. constructor; [apply IH|].
  apply Forall_forall. intros x Hx%elem_of_seqZ. lia.
Qed.

Lemma filter_ascending (P : Z -> Prop) `{!forall x, Decision (P x)} l : ascending l -> ascending (filter P l).
Proof.
  unfold ascending. induction 1 as [|x l _ IH Hx]; [constructor|]. rewrite filter_cons.
  destruct (decide (P x)); [|done]. constructor; [done|]. rewrite Forall_forall in Hx |- *.
  intros y [_ Hy]%list_elem_of_filter. by apply Hx.
Qed.

Lemma range_stripes_list m a n : stripe_list (range_stripes pointer m a n).
Proof.
  split.
  - apply filter_ascending, seqZ_ascending.
  - apply Forall_forall. intros s Hs%elem_of_range_stripes. apply Hs.
Qed.

(** Every page the range touches has its stripes in the list. *)
Lemma range_stripes_cover m a n x q s :
  0 <= a -> a <= x < a + n -> a + n <= 2 ^ 64 -> q = x .&~ 4095 ->
  s ∈ page_stripes pointer q (at_ m q ≫= p_backing) [] -> s ∈ range_stripes pointer m a n.
Proof.
  intros Ha Hx Hn -> Hs.
  assert (stripe_range s) as Hr.
  { destruct (page_stripes_list (x .&~ 4095) (at_ m (x .&~ 4095) ≫= p_backing) [] stripe_list_nil) as [_ Hf].
    rewrite Forall_forall in Hf. by apply Hf. }
  apply elem_of_range_stripes. split; [|done]. unfold range_locked.
  destruct (Z.eqb_spec n 0); [lia|]. destruct (Z.ltb_spec (UINT64_MAX - (n - 1)) a); [unfold UINT64_MAX in *; lia|].
  cbn [orb]. rewrite !ldiff_4095. set (first := a / 4096). set (last := (a + n - 1) / 4096).
  assert (0 <= first <= x / 4096 /\ x / 4096 <= last) as [Hf Hl].
  { subst first last. pose proof (Z.div_pos a 4096). pose proof (Z.div_le_mono a x 4096).
    pose proof (Z.div_le_mono x (a + n - 1) 4096). lia. }
  replace (4096 * last - 4096 * first) with ((last - first) * 4096) by lia.
  unfold GEM_GUEST_PAGE_SIZE. rewrite Z.div_mul by lia.
  assert (length (replicate (Z.to_nat GEM_MEMORY_LOCK_STRIPES) true) = 256%nat) as Ht by by rewrite length_replicate.
  assert (length (replicate (Z.to_nat GEM_MEMORY_LOCK_STRIPES) false) = 256%nat) as Hfl by by rewrite length_replicate.
  destruct (Z.leb_spec GEM_MEMORY_LOCK_STRIPES (last - first + 1)).
  - apply lookup_mark_pages; [done|done|]. left. apply lookup_replicate. unfold stripe_range in Hr. split; [done|lia].
  - apply lookup_mark_pages; [done|done|]. right. exists (x .&~ 4095). split; [|done].
    rewrite ldiff_4095. apply list_elem_of_fmap. exists (x / 4096 - first). split; [lia|]. apply elem_of_seqZ.
    rewrite <- Z.mul_sub_distr_l. rewrite (Z.mul_comm 4096), Z.div_mul by lia. lia.
Qed.
End stripes.

(** The stripes of every operation form a strictly ascending list of
    indices below 256, so [insert_stripe] never writes past the 256-entry
    arrays and acquisition follows one global order; the list of a range covers
    the address and backing stripes of every page it touches, and a commit takes
    for writing exactly the stripes of the pages it writes and for reading the
    other stripes of its dependencies. *)
Theorem stripe_lists_ordered pointer :
  (forall m a n, stripe_list (range_stripes pointer m a n)) /\
  (forall t, stripe_list (dependency_stripes pointer t)) /\
  (forall m t ws, stripe_list (commit_stripes pointer m t ws).*1 /\
     forall s w, (s, w) ∈ commit_stripes pointer m t ws <->
       (s ∈ dependency_stripes pointer t \/ exists x, x ∈ ws /\ s ∈ write_stripes pointer m x) /\
       (w = true <-> exists x, x ∈ ws /\ s ∈ write_stripes pointer m x)) /\
  (forall l, stripe_list l -> (length l <= 256)%nat) /\
  (forall m a n x s, 0 <= a -> a <= x < a + n -> a + n <= 2 ^ 64 ->
     s ∈ page_stripes pointer (x .&~ 4095) (at_ m (x .&~ 4095) ≫= p_backing) [] ->
     s ∈ range_stripes pointer m a n).
Proof.
  split_and!.
  - apply range_stripes_list.
  - apply dependency_stripes_list.
  - apply commit_stripes_spec.
  - intros l [Hl Hr]. by apply ascending_length.
  - intros m a n x s Ha Hx Hn Hs. by eapply range_stripes_cover.
Qed.

(** ** Scripts that respect the order *)

Fixpoint script_ok (meta : bool) (held : list (Z * bool)) (ops : list op) : bool :=
  match ops with
  | [] => negb meta && bool_decide (held = [])
  | OpLock :: ops => negb meta && bool_decide (held = []) && script_ok true held ops
  | OpUnlock :: ops => meta && script_ok false held ops
  | OpWork :: ops => script_ok meta held ops
  | OpAcquire s w :: ops =>
      meta && forallb (fun h => h.1 <? s) held && script_ok meta ((s, w) :: held) ops
  | OpRelease s w :: ops => bool_decide ((s, w) ∈ held) && script_ok meta (remove_held (s, w) held) ops
  end.

Lemma acquires_ok held l ops :
  ascending l.*1 -> (forall h s, h ∈ held -> s ∈ l.*1 -> h.1 < s) ->
  script_ok true held (acquires l ++ ops) = script_ok true (reverse l ++ held) ops.
Proof.
  unfold ascending. revert held. induction l as [|[s w] l IH]; intros held Hl Hh; [done|].
  cbn [fmap list_fmap fst] in Hl. apply StronglySorted_inv in Hl as [Hl Hs]. rewrite Forall_forall in Hs.
  cbn [acquires fmap list_fmap app script_ok fst snd andb]. change (_ <$> l) with (acquires l).
  assert (forallb (fun h => h.1 <? s) held = true) as ->.
  { apply forallb_forall. intros h Hin%list_elem_of_In. apply Z.ltb_lt, Hh; [done|]. set_solver. }
  cbn [andb]. rewrite IH; [|done|].
  - by rewrite reverse_cons, <- app_assoc.
  - intros h x [->|Hin]%elem_of_cons Hx; [by apply Hs|]. apply Hh; [done|]. set_solver.
Qed.

Lemma releases_ok meta l ops :
  script_ok meta (reverse l) (releases l ++ ops) = script_ok meta [] ops.
Proof.
  unfold releases. generalize (reverse l). clear l. intros l. induction l as [|[s w] l IH]; [done|].
  cbn [fmap list_fmap app script_ok fst snd]. rewrite bool_decide_eq_true_2 by set_solver. cbn [remove_held andb].
  by rewrite decide_True.
Qed.

Lemma locked_script_ok l ops :
  ascending l.*1 -> script_ok false [] (locked_script l ++ ops) = script_ok false [] ops.
Proof.
  intros Hl. unfold locked_script. cbn [app script_ok negb andb]. rewrite <- !app_assoc.
  rewrite acquires_ok; [|done|set_solver]. rewrite app_nil_r. cbn [app script_ok]. rewrite <- app_assoc, releases_ok. done.
Qed.

Lemma commit_script_ok l ops :
  ascending l.*1 -> script_ok false [] (commit_script l ++ ops) = script_ok false [] ops.
Proof.
  intros Hl. unfold commit_script. cbn [app script_ok negb andb]. rewrite <- !app_assoc.
  rewrite acquires_ok; [|done|set_solver]. rewrite app_nil_r. cbn [app script_ok andb]. rewrite <- app_assoc, releases_ok. done.
Qed.

Lemma in_mode_fst w l : (in_mode w l).*1 = l.
Proof. unfold in_mode. rewrite <- list_fmap_compose. apply list_fmap_id. Qed.

(** Whatever the memory they find, the calls keep to the order. *)
Lemma operation_script_ok pointer os : script_ok false [] (concat (operation_script pointer <$> os)) = true.
Proof.
  induction os as [|o os IH]; [done|]. cbn [fmap list_fmap concat]. destruct o as [|m a n w|a b w|t|m t ws ok]; cbn [operation_script].
  - by rewrite locked_script_ok by constructor.
  - rewrite locked_script_ok; [done|]. rewrite in_mode_fst. apply range_stripes_list.
  - rewrite locked_script_ok; [done|]. rewrite in_mode_fst. apply page_stripes_list, stripe_list_nil.
  - rewrite locked_script_ok; [done|]. rewrite in_mode_fst. apply dependency_stripes_list.
  - destruct ok; [rewrite commit_script_ok|rewrite locked_script_ok]; try done; apply commit_stripes_spec.
Qed.

(** ** Counting over the threads *)

Definition total (f : thread -> Z) (l : list thread) : Z := foldr (fun th n => f th + n) 0 l.

Lemma total_cons f th l : total f (th :: l) = f th + total f l.
Proof. done. Qed.

Lemma total_insert f l i th th' :
  l !! i = Some th -> total f (<[i := th']> l) = total f l - f th + f th'.
Proof.
  revert i. induction l as [|x l IH]; intros [|i] H; try done.
  - injection H as ->. change (<[0%nat := th']> (th :: l)) with (th' :: l). rewrite !total_cons. lia.
  - change (<[S i := th']> (x :: l)) with (x :: <[i := th']> l). rewrite !total_cons, (IH i H). lia.
Qed.

Lemma total_bounds f l : (forall th, 0 <= f th <= 1) -> 0 <= total f l <= Z.of_nat (length l).
Proof. intros H. induction l as [|x l IH]; [done|]. rewrite total_cons. specialize (H x). cbn [length]. lia. Qed.

Lemma total_nonneg f l : (forall th, 0 <= f th) -> 0 <= total f l.
Proof. intros H. induction l as [|x l IH]; [done|]. rewrite total_cons. specialize (H x). lia. Qed.

Lemma total_lookup f l i th : (forall th, 0 <= f th) -> l !! i = Some th -> f th <= total f l.
Proof.
  intros H. revert i. induction l as [|x l IH]; intros [|i] Hi; try done; rewrite total_cons.
  - injection Hi as ->. pose proof (total_nonneg f l H). lia.
  - specialize (IH i Hi). specialize (H x). lia.
Qed.

Lemma total_lookup_two f l i j th1 th2 :
  (forall th, 0 <= f th) -> i <> j -> l !! i = Some th1 -> l !! j = Some th2 -> f th1 + f th2 <= total f l.
Proof.
  intros H. revert i j. induction l as [|x l IH]; intros [|i] [|j] Hij Hi Hj; try done; rewrite total_cons.
  - injection Hi as ->. pose proof (total_lookup f l j th2 H Hj). lia.
  - injection Hj as ->. pose proof (total_lookup f l i th1 H Hi). lia.
  - specialize (IH i j ltac:(congruence) Hi Hj). specialize (H x). lia.
Qed.

Lemma total_pos f l : (forall th, 0 <= f th) -> 0 < total f l -> exists i th, l !! i = Some th /\ 0 < f th.
Proof.
  intros H. induction l as [|x l IH]; [done|]. rewrite total_cons. intros Hp. destruct (decide (0 < f x)).
  - by exists 0%nat, x.
  - destruct IH as (i & th & Hi & Hf); [specialize (H x); lia|]. by exists (S i), th.
Qed.

(** ** The invariant *)

Definition holding (s : Z) (w : bool) (th : thread) : Z := Z.b2z (bool_decide ((s, w) ∈ th_held th)).
Definition announced (s : Z) (th : thread) : Z :=
  Z.b2z (th_waiting th && match th_ops th with OpAcquire x true :: _ => x =? s | _ => false end).

Definition owns (σ : system) (i : nat) : bool :=
  match sys_owner σ with Some (j, _) => bool_decide (j = i) | None => false end.

(** A thread keeps to its script; it announces only a write it is about to
    acquire. *)
Record thread_ok (meta : bool) (th : thread) : Prop := {
  to_script : script_ok meta (th_held th) (th_ops th) = true;
  to_nodup : NoDup (th_held th);
  to_waiting : th_waiting th = true -> exists s ops, th_ops th = OpAcquire s true :: ops }.

(** The counters of a stripe are what the threads say. *)
Record stripe_ok (σ : system) (s : Z) : Prop := {
  so_readers : readers (sys_stripes σ s) = total (holding s false) (sys_threads σ);
  so_writer : Z.b2z (writer (sys_stripes σ s)) = total (holding s true) (sys_threads σ);
  so_waiting : waiting_writers (sys_stripes σ s) = total (announced s) (sys_threads σ);
  so_exclusion : writer (sys_stripes σ s) = true -> readers (sys_stripes σ s) = 0 }.

Record lock_inv (σ : system) : Prop := {
  li_threads i th : sys_threads σ !! i = Some th -> thread_ok (owns σ i) th;
  li_owner j k : sys_owner σ = Some (j, k) -> k = 1%nat /\ is_Some (sys_threads σ !! j);
  li_stripes s : stripe_ok σ s;
  li_size : Z.of_nat (length (sys_threads σ)) < 2 ^ 32 }.

Lemma holding_bounds s w th : 0 <= holding s w th <= 1.
Proof. unfold holding. by destruct (bool_decide _). Qed.
Lemma announced_bounds s th : 0 <= announced s th <= 1.
Proof. unfold announced. by destruct (_ && _). Qed.
#[export] Hint Resolve holding_bounds announced_bounds : stripes.

(** How a step changes the lock of one stripe, given how it changes the thread. *)
Record lock_step (s : Z) (l l' : gem_stripe_lock) (th th' : thread) : Prop := {
  ls_readers : readers l' = readers l - holding s false th + holding s false th';
  ls_writer : Z.b2z (writer l') = Z.b2z (writer l) - holding s true th + holding s true th';
  ls_waiting : waiting_writers l' = waiting_writers l - announced s th + announced s th';
  ls_exclusion : writer l' = true -> readers l' = 0 }.

Lemma lock_inv_update σ i th th' owner' stripes' :
  lock_inv σ -> sys_threads σ !! i = Some th ->
  let σ' := System owner' stripes' (<[i := th']> (sys_threads σ)) in
  thread_ok (owns σ' i) th' -> (forall j, j <> i -> owns σ' j = owns σ j) ->
  (forall j k, owner' = Some (j, k) -> k = 1%nat /\ is_Some (sys_threads σ !! j)) ->
  (forall s, lock_step s (sys_stripes σ s) (stripes' s) th th') -> lock_inv σ'.
Proof.
  intros Hinv Hi σ' Hth Howns Howner Hs. pose proof (lookup_lt_Some _ _ _ Hi) as Hlt. split; cbn.
  - intros j x Hj. destruct (decide (i = j)) as [<-|Hne].
    + rewrite list_lookup_insert_eq in Hj by done. by injection Hj as <-.
    + rewrite list_lookup_insert_ne in Hj by done. rewrite Howns by done. by eapply li_threads.
  - intros j k Hk. destruct (Howner j k Hk) as [-> [x Hx]]. split; [done|].
    apply lookup_lt_is_Some. rewrite length_insert. by eapply lookup_lt_Some.
  - intros s. destruct (Hs s) as [Hr Hw Hwa He], (li_stripes σ Hinv s) as [Hr0 Hw0 Hwa0 _].
    split; cbn [sys_stripes sys_threads σ'];
      rewrite ?(total_insert _ _ _ _ _ Hi); [lia|lia|lia|done].
  - rewrite length_insert. by apply li_size.
Qed.

(** A lock the step does not touch. *)
Lemma lock_step_same σ s th th' :
  lock_inv σ -> (forall w, (s, w) ∈ th_held th <-> (s, w) ∈ th_held th') -> announced s th = announced s th' ->
  lock_step s (sys_stripes σ s) (sys_stripes σ s) th th'.
Proof.
  intros Hinv Hh Ha. assert (forall w, holding s w th = holding s w th') as E.
  { intros w. unfold holding. f_equal. by apply bool_decide_ext. }
  split; rewrite ?E, ?Ha; try lia. apply (li_stripes σ Hinv s).
Qed.

Lemma elem_of_remove_held x y l : NoDup l -> x ∈ remove_held y l <-> x ∈ l /\ x <> y.
Proof.
  induction l as [|z l IH]; intros Hnd; cbn; [set_solver|]. apply NoDup_cons in Hnd as [Hz Hnd].
  destruct (decide (y = z)) as [->|]; [|rewrite !elem_of_cons, IH by done; naive_solver].
  rewrite elem_of_cons. split; [|naive_solver]. intros Hx. split; [by right|]. by intros ->.
Qed.

Lemma remove_held_NoDup y l : NoDup l -> NoDup (remove_held y l).
Proof.
  induction l as [|z l IH]; intros Hnd; cbn; [done|]. apply NoDup_cons in Hnd as [Hz Hnd].
  destruct (decide (y = z)); [done|]. constructor; [|by apply IH]. rewrite elem_of_remove_held by done. tauto.
Qed.

Lemma counters_small σ s i th :
  lock_inv σ -> sys_threads σ !! i = Some th ->
  (holding s false th = 0 -> 0 <= readers (sys_stripes σ s) < 2 ^ 32 - 1) /\
  (announced s th = 0 -> 0 <= waiting_writers (sys_stripes σ s) < 2 ^ 32 - 1) /\
  0 <= readers (sys_stripes σ s) < 2 ^ 32 /\ 0 <= waiting_writers (sys_stripes σ s) < 2 ^ 32 /\
  holding s false th <= readers (sys_stripes σ s) /\ announced s th <= waiting_writers (sys_stripes σ s).
Proof.
  intros Hinv Hi. destruct (li_stripes σ Hinv s) as [-> _ -> _]. pose proof (li_size σ Hinv) as Hsize.
  assert (forall f, (forall th, 0 <= f th <= 1) -> (f th = 0 -> 0 <= total f (sys_threads σ) < 2 ^ 32 - 1) /\
    0 <= total f (sys_threads σ) < 2 ^ 32 /\ f th <= total f (sys_threads σ)) as Hf.
  { intros f Hf. pose proof (total_bounds f (sys_threads σ) Hf).
    assert (forall th, 0 <= f th) as Hf0 by (intros x; specialize (Hf x); lia).
    pose proof (total_lookup f _ _ _ Hf0 Hi). split_and!; [|lia|lia|done].
    intros Hz. split; [lia|].
    pose proof (total_bounds (fun x => 1 - f x) (sys_threads σ) ltac:(intros x; specialize (Hf x); lia)) as Hc.
    pose proof (total_lookup (fun x => 1 - f x) _ _ _ ltac:(intros x; specialize (Hf x); lia) Hi) as Hl. cbn in Hl.
    assert (total (fun x => 1 - f x) (sys_threads σ) = Z.of_nat (length (sys_threads σ)) - total f (sys_threads σ)) as E.
    { clear. induction (sys_threads σ) as [|x l IH]; [done|]. rewrite !total_cons, IH. cbn [length]. lia. }
    lia. }
  destruct (Hf (holding s false)) as (H1 & H2 & H3); [auto with stripes|].
  destruct (Hf (announced s)) as (H4 & H5 & H6); [auto with stripes|]. split_and!; try done; lia.
Qed.

(** ** Every step keeps the invariant *)

Lemma stripe_update_other f s l x : x <> s -> set_stripe f s l x = f x.
Proof. intros H. unfold set_stripe. by rewrite decide_False. Qed.
Lemma stripe_update_same f s l : set_stripe f s l s = l.
Proof. unfold set_stripe. by rewrite decide_True. Qed.

Lemma holding_0 s w th : (s, w) ∉ th_held th -> holding s w th = 0.
Proof. intros H. unfold holding. by rewrite bool_decide_eq_false_2. Qed.
Lemma holding_1 s w th : (s, w) ∈ th_held th -> holding s w th = 1.
Proof. intros H. unfold holding. by rewrite bool_decide_eq_true_2. Qed.
Lemma announced_0 s th : th_waiting th = false -> announced s th = 0.
Proof. intros H. unfold announced. by rewrite H. Qed.

Lemma wrap32_small x : 0 <= x < 2 ^ 32 -> wrap32 x = x.
Proof. apply Z.mod_small. Qed.

(** Not waiting before a step, unless about to acquire for writing. *)
Lemma not_waiting meta th : thread_ok meta th -> (forall s ops, th_ops th <> OpAcquire s true :: ops) -> th_waiting th = false.
Proof. intros [_ _ H] Hn. destruct (th_waiting th); [|done]. destruct H as (s & ops & E); [done|]. by destruct (Hn s ops). Qed.

Lemma plain_step_inv σ i th ops owner' :
  lock_inv σ -> sys_threads σ !! i = Some th -> th_waiting th = false ->
  let σ' := System owner' (sys_stripes σ) (<[i := Thread ops (th_held th) false]> (sys_threads σ)) in
  script_ok (owns σ' i) (th_held th) ops = true -> (forall j, j <> i -> owns σ' j = owns σ j) ->
  (forall j k, owner' = Some (j, k) -> k = 1%nat /\ is_Some (sys_threads σ !! j)) -> lock_inv σ'.
Proof.
  intros Hinv Hi Hw σ' Hs Ho Hk. apply (lock_inv_update σ i th); try done.
  - split; [done|exact (to_nodup _ _ (li_threads σ Hinv i th Hi))|done].
  - intros s. apply lock_step_same; [done|done|]. by rewrite !announced_0.
Qed.

Ltac held_by := cbn [th_held]; rewrite ?elem_of_cons; naive_solver.

Lemma acquire_read_inv σ i th s ops l :
  lock_inv σ -> sys_threads σ !! i = Some th -> th_ops th = OpAcquire s false :: ops ->
  gem_stripe_read_acquire (sys_stripes σ s) = Some l ->
  lock_inv (System (sys_owner σ) (set_stripe (sys_stripes σ) s l)
    (<[i := Thread ops ((s, false) :: th_held th) false]> (sys_threads σ))).
Proof.
  intros Hinv Hi Hop Hl. pose proof (li_threads σ Hinv i th Hi) as Hth. pose proof Hth as [Hsc Hnd _].
  rewrite Hop in Hsc. cbn in Hsc. apply andb_true_iff in Hsc as [[Hm Hlt]%andb_true_iff Hsc].
  assert (th_waiting th = false) as Hw by (eapply not_waiting; [exact Hth|by rewrite Hop]).
  assert (forall w, (s, w) ∉ th_held th) as Hnew.
  { intros w Hin. rewrite forallb_forall in Hlt. apply list_elem_of_In in Hin. specialize (Hlt _ Hin). cbn in Hlt. lia. }
  apply (lock_inv_update σ i th); try done.
  - split; cbn; [done|constructor; auto|done].
  - intros j k Hjk. by apply (li_owner σ Hinv).
  - intros x. destruct (decide (x = s)) as [->|Hne].
    + rewrite stripe_update_same. unfold gem_stripe_read_acquire in Hl.
      destruct (writer (sys_stripes σ s)) eqn:Ew; [done|].
      destruct (counters_small σ s i th Hinv Hi) as (Hc & _). rewrite holding_0 in Hc by done. specialize (Hc eq_refl).
      destruct (negb _); [done|]. injection Hl as <-. split; cbn [readers writer waiting_writers].
      * rewrite wrap32_small, (holding_0 _ _ th), holding_1 by (done || lia || held_by). lia.
      * rewrite (holding_0 _ _ th), (holding_0 _ _ (Thread _ _ _)), Ew by held_by. done.
      * rewrite !announced_0 by done. lia.
      * done.
    + rewrite stripe_update_other by done. apply lock_step_same; [done| |by rewrite !announced_0].
      intros w. held_by.
Qed.

Lemma announce_inv σ i th s ops :
  lock_inv σ -> sys_threads σ !! i = Some th -> th_ops th = OpAcquire s true :: ops -> th_waiting th = false ->
  lock_inv (System (sys_owner σ) (set_stripe (sys_stripes σ) s (gem_stripe_write_announce (sys_stripes σ s)))
    (<[i := Thread (th_ops th) (th_held th) true]> (sys_threads σ))).
Proof.
  intros Hinv Hi Hop Hw. pose proof (li_threads σ Hinv i th Hi) as [Hsc Hnd _].
  apply (lock_inv_update σ i th); try done.
  - split; cbn; [done|done|]. rewrite Hop. eauto.
  - intros j k Hjk. by apply (li_owner σ Hinv).
  - intros x. assert (forall w, holding x w (Thread (th_ops th) (th_held th) true) = holding x w th) as Hh by done.
    destruct (decide (x = s)) as [->|Hne].
    + rewrite stripe_update_same. destruct (counters_small σ s i th Hinv Hi) as (_ & Hc & _).
      rewrite announced_0 in Hc by done. specialize (Hc eq_refl).
      split; cbn [gem_stripe_write_announce readers writer waiting_writers]; rewrite ?Hh; try lia.
      * rewrite wrap32_small, announced_0 by (done || lia). unfold announced. cbn. rewrite Hop, Z.eqb_refl. cbn. lia.
      * apply (li_stripes σ Hinv s).
    + rewrite stripe_update_other by done. apply lock_step_same; [done|done|].
      rewrite announced_0 by done. unfold announced. cbn. rewrite Hop. destruct (Z.eqb_spec s x); [congruence|done].
Qed.

Lemma acquire_write_inv σ i th s ops l :
  lock_inv σ -> sys_threads σ !! i = Some th -> th_ops th = OpAcquire s true :: ops -> th_waiting th = true ->
  gem_stripe_write_acquire (sys_stripes σ s) = Some l ->
  lock_inv (System (sys_owner σ) (set_stripe (sys_stripes σ) s l)
    (<[i := Thread ops ((s, true) :: th_held th) false]> (sys_threads σ))).
Proof.
  intros Hinv Hi Hop Hw Hl. pose proof (li_threads σ Hinv i th Hi) as Hth. pose proof Hth as [Hsc Hnd _].
  rewrite Hop in Hsc. cbn in Hsc. apply andb_true_iff in Hsc as [[Hm Hlt]%andb_true_iff Hsc].
  assert (forall w, (s, w) ∉ th_held th) as Hnew.
  { intros w Hin. rewrite forallb_forall in Hlt. apply list_elem_of_In in Hin. specialize (Hlt _ Hin). cbn in Hlt. lia. }
  assert (forall x, announced x th = Z.b2z (s =? x)) as Ha by (intros x; unfold announced; by rewrite Hw, Hop).
  apply (lock_inv_update σ i th); try done.
  - split; cbn; [done|constructor; auto|done].
  - intros j k Hjk. by apply (li_owner σ Hinv).
  - intros x. destruct (decide (x = s)) as [->|Hne].
    + rewrite stripe_update_same. unfold gem_stripe_write_acquire in Hl.
      destruct (writer (sys_stripes σ s)) eqn:Ew; [done|].
      destruct (Z.eqb_spec (readers (sys_stripes σ s)) 0) as [Hr|]; [|done]. injection Hl as <-.
      destruct (counters_small σ s i th Hinv Hi) as (_ & _ & _ & Hwr & _ & Hle).
      rewrite Ha, Z.eqb_refl in Hle. cbn in Hle. split; cbn [readers writer waiting_writers].
      * rewrite (holding_0 _ _ th), (holding_0 _ _ (Thread _ _ _)) by held_by. lia.
      * rewrite (holding_0 _ _ th), holding_1, Ew by held_by. done.
      * rewrite wrap32_small, Ha, Z.eqb_refl, announced_0 by (done || lia). cbn. lia.
      * done.
    + rewrite stripe_update_other by done. apply lock_step_same; [done|intros w; held_by|].
      rewrite Ha, announced_0 by done. destruct (Z.eqb_spec s x); [congruence|done].
Qed.

Lemma release_inv σ i th s w ops :
  lock_inv σ -> sys_threads σ !! i = Some th -> th_ops th = OpRelease s w :: ops ->
  lock_inv (System (sys_owner σ) (set_stripe (sys_stripes σ) s
      (if w then gem_stripe_write_release (sys_stripes σ s) else gem_stripe_read_release (sys_stripes σ s)))
    (<[i := Thread ops (remove_held (s, w) (th_held th)) false]> (sys_threads σ))).
Proof.
  intros Hinv Hi Hop. pose proof (li_threads σ Hinv i th Hi) as Hth. pose proof Hth as [Hsc Hnd _].
  rewrite Hop in Hsc. cbn in Hsc. apply andb_true_iff in Hsc as [Hin Hsc]. apply bool_decide_eq_true in Hin.
  assert (th_waiting th = false) as Hw by (eapply not_waiting; [exact Hth|by rewrite Hop]).
  assert (forall x v, holding x v (Thread ops (remove_held (s, w) (th_held th)) false) =
    holding x v th - Z.b2z (bool_decide ((x, v) = (s, w)))) as Hh.
  { intros x v. destruct (decide ((x, v) = (s, w))) as [E|E].
    - rewrite (bool_decide_eq_true_2 _ E). injection E as -> ->. rewrite (holding_1 s w th Hin). rewrite holding_0; [done|]. cbn.
      rewrite elem_of_remove_held by done. tauto.
    - rewrite (bool_decide_eq_false_2 _ E). cbn [Z.b2z]. rewrite Z.sub_0_r. unfold holding. f_equal.
      apply bool_decide_ext. cbn. rewrite elem_of_remove_held by done. tauto. }
  apply (lock_inv_update σ i th); try done.
  - split; cbn; [done|by apply remove_held_NoDup|done].
  - intros j k Hjk. by apply (li_owner σ Hinv).
  - intros x. destruct (decide (x = s)) as [->|Hne].
    + rewrite stripe_update_same. destruct (counters_small σ s i th Hinv Hi) as (_ & _ & Hr & _ & Hle & _).
      destruct (li_stripes σ Hinv s) as [_ Hwr _ He].
      split; rewrite ?Hh, ?announced_0 by done; destruct w;
        cbn [gem_stripe_write_release gem_stripe_read_release readers writer waiting_writers];
        rewrite ?(bool_decide_eq_true_2 ((s, true) = (s, true)) eq_refl), ?(bool_decide_eq_true_2 ((s, false) = (s, false)) eq_refl),
          ?(bool_decide_eq_false_2 ((s, true) = (s, false))), ?(bool_decide_eq_false_2 ((s, false) = (s, true))) by done;
        cbn [Z.b2z]; try lia.
      * rewrite holding_1 in Hle by done. rewrite wrap32_small by lia. lia.
      * pose proof (total_lookup (holding s true) _ _ _ ltac:(intros y; pose proof (holding_bounds s true y); lia) Hi) as Hl1.
        rewrite holding_1 in Hl1 |- * by done. rewrite <- Hwr in Hl1. destruct (writer (sys_stripes σ s)); [done|cbn in Hl1; lia].
      * intros Ht. specialize (He Ht). rewrite holding_1 in Hle by done. lia.
    + rewrite stripe_update_other by done. apply lock_step_same; [done| |by rewrite !announced_0].
      intros v. cbn. rewrite elem_of_remove_held by done. naive_solver.
Qed.

Lemma step_inv σ σ' : lock_inv σ -> step σ σ' -> lock_inv σ'.
Proof.
  intros Hinv [i H]. unfold thread_step in H. apply bind_Some in H as (th & Hi & H).
  pose proof (li_threads σ Hinv i th Hi) as Hth. pose proof (to_script _ _ Hth) as Hsc.
  destruct (th_ops th) as [|[| |s w|s w|] ops] eqn:Hop; [done| | | | |]; cbn in Hsc.
  - apply bind_Some in H as (owner & Ho & [= <-]).
    apply andb_true_iff in Hsc as [[Hm _]%andb_true_iff Hsc]. apply negb_true_iff in Hm.
    assert (sys_owner σ = None /\ owner = (i, 1%nat)) as [Hn ->].
    { unfold owns in Hm. destruct (sys_owner σ) as [[j k]|]; [|by injection Ho].
      destruct (decide (i = j)) as [->|]; [|done]. by rewrite bool_decide_eq_true_2 in Hm. }
    apply plain_step_inv; try done.
    + eapply not_waiting; [exact Hth|by rewrite Hop].
    + unfold owns. cbn. by rewrite bool_decide_eq_true_2.
    + intros j Hj. unfold owns. cbn. rewrite Hn. by rewrite bool_decide_eq_false_2.
    + intros j k [= <- <-]. eauto.
  - apply andb_true_iff in Hsc as [Hm Hsc]. unfold owns in Hm.
    destruct (sys_owner σ) as [[j k]|] eqn:Ho; [|done]. apply bool_decide_eq_true in Hm as ->.
    rewrite decide_True in H by done. destruct (li_owner σ Hinv i k Ho) as [-> _]. injection H as <-.
    apply plain_step_inv; try done.
    + eapply not_waiting; [exact Hth|by rewrite Hop].
    + intros j Hj. unfold owns. cbn. rewrite Ho. by rewrite bool_decide_eq_false_2.
  - destruct (w && negb (th_waiting th)) eqn:Ew.
    + apply andb_true_iff in Ew as [-> Ew]. apply negb_true_iff in Ew. injection H as <-. rewrite <- Hop.
      by eapply announce_inv.
    + apply bind_Some in H as (l & Hl & [= <-]). destruct w; [|by eapply acquire_read_inv].
      cbn in Ew. apply negb_false_iff in Ew. by eapply acquire_write_inv.
  - injection H as <-. by eapply release_inv.
  - injection H as <-. apply plain_step_inv; try done.
    + eapply not_waiting; [exact Hth|by rewrite Hop].
    + intros j k Hjk. by apply (li_owner σ Hinv).
Qed.

Lemma start_inv pointer calls :
  Z.of_nat (length calls) < 2 ^ 32 -> lock_inv (start pointer calls).
Proof.
  intros Hlen.
  assert (forall i th, sys_threads (start pointer calls) !! i = Some th -> exists os,
    th = Thread (concat (operation_script pointer <$> os)) [] false) as Hth.
  { intros i th H. apply list_lookup_fmap_Some in H as (os & -> & _). eauto. }
  assert (forall f, (forall os, f (Thread (concat (operation_script pointer <$> os)) [] false) = 0) ->
    total f (sys_threads (start pointer calls)) = 0) as H0.
  { intros f Hf. cbn [start sys_threads]. clear Hth Hlen. induction calls as [|os calls IH]; [done|].
    rewrite fmap_cons, total_cons, Hf, IH. done. }
  split.
  - intros i th H. destruct (Hth i th H) as [os ->]. split; cbn; [apply operation_script_ok|constructor|done].
  - done.
  - intros s. split; [by rewrite H0|by rewrite H0|by rewrite H0|done].
  - cbn. by rewrite length_fmap.
Qed.

Lemma reachable_inv pointer calls σ :
  Z.of_nat (length calls) < 2 ^ 32 -> rtc step (start pointer calls) σ -> lock_inv σ.
Proof.
  intros Hlen H. assert (forall σ1, rtc step σ1 σ -> lock_inv σ1 -> lock_inv σ) as Hgen.
  { clear. induction 1 as [|σ1 σ2 σ3 H _ IH]; [done|]. intros Hi. apply IH. by eapply step_inv. }
  eapply Hgen; [exact H|]. by apply start_inv.
Qed.

(** ** Progress *)

(** A thread that holds stripes but not the metadata lock only works and
    releases. *)
Lemma unlocked_progress σ i th :
  lock_inv σ -> sys_threads σ !! i = Some th -> owns σ i = false -> th_held th <> [] ->
  exists σ', thread_step i σ = Some σ'.
Proof.
  intros Hinv Hi Ho Hh. pose proof (to_script _ _ (li_threads σ Hinv i th Hi)) as Hsc. rewrite Ho in Hsc.
  unfold thread_step. rewrite Hi. cbn. destruct (th_ops th) as [|[| |s w|s w|] ops]; cbn in Hsc; eauto.
  - by rewrite bool_decide_eq_false_2 in Hsc.
  - by rewrite bool_decide_eq_false_2 in Hsc.
  - done.
  - done.
Qed.

Lemma holder_progress σ i th s ops w0 w :
  lock_inv σ -> sys_threads σ !! i = Some th -> th_ops th = OpAcquire s w0 :: ops ->
  0 < total (holding s w) (sys_threads σ) -> exists j σ', thread_step j σ = Some σ'.
Proof.
  intros Hinv Hi Hop Hpos. pose proof (to_script _ _ (li_threads σ Hinv i th Hi)) as Hsc. rewrite Hop in Hsc.
  cbn in Hsc. apply andb_true_iff in Hsc as [[Hm Hlt]%andb_true_iff _].
  apply total_pos in Hpos as (j & th' & Hj & Hh); [|intros; apply holding_bounds].
  unfold holding in Hh. destruct (bool_decide _) eqn:E; [|done]. apply bool_decide_eq_true in E.
  exists j. apply (unlocked_progress σ j th'); [done|done| |by intros E'; rewrite E' in E; apply elem_of_nil in E].
  destruct (owns σ j) eqn:Ho; [|done]. exfalso.
  assert (i = j) as <-.
  { unfold owns in Hm, Ho. destruct (sys_owner σ) as [[k ?]|]; [|done].
    apply bool_decide_eq_true in Hm, Ho. congruence. }
  rewrite Hi in Hj. injection Hj as <-. rewrite forallb_forall in Hlt.
  apply list_elem_of_In in E. specialize (Hlt _ E). cbn in Hlt. lia.
Qed.

Lemma owner_progress σ i th :
  lock_inv σ -> sys_threads σ !! i = Some th -> owns σ i = true -> exists j σ', thread_step j σ = Some σ'.
Proof.
  intros Hinv Hi Ho. pose proof (li_threads σ Hinv i th Hi) as Hth. pose proof (to_script _ _ Hth) as Hsc. rewrite Ho in Hsc.
  destruct (th_ops th) as [|[| |s w|s w|] ops] eqn:Hop; cbn in Hsc; try done;
    try (exists i; unfold thread_step; rewrite Hi; cbn; rewrite Hop; by eauto).
  - exists i. unfold thread_step. rewrite Hi. cbn. rewrite Hop. unfold owns in Ho.
    destruct (sys_owner σ) as [[j k]|]; [|done]. apply bool_decide_eq_true in Ho as ->.
    rewrite decide_True by done. eauto.
  - destruct (li_stripes σ Hinv s) as [Hr Hw Hwa _].
    destruct (writer (sys_stripes σ s)) eqn:Ew.
    { eapply (holder_progress σ i th s ops w true); [done..|]. cbn in Hw. lia. }
    destruct w.
    + destruct (th_waiting th) eqn:Ewt.
      2:{ exists i. unfold thread_step. rewrite Hi. cbn. rewrite Hop, Ewt. cbn. eauto. }
      destruct (Z.eqb_spec (readers (sys_stripes σ s)) 0) as [Hz|Hnz].
      * exists i. unfold thread_step. rewrite Hi. cbn. rewrite Hop, Ewt. cbn.
        unfold gem_stripe_write_acquire. rewrite Ew, Hz. cbn. eauto.
      * eapply (holder_progress σ i th s ops true false); [done..|].
        pose proof (total_nonneg (holding s false) (sys_threads σ) ltac:(intros; apply holding_bounds)). lia.
    + destruct (Z.eqb_spec (waiting_writers (sys_stripes σ s)) 0) as [Hz|Hnz].
      * exists i. unfold thread_step. rewrite Hi. cbn. rewrite Hop. cbn.
        unfold gem_stripe_read_acquire. rewrite Ew, Hz. cbn. eauto.
      * (* a waiting writer would be the owner of the metadata lock *)
        exfalso. pose proof (total_nonneg (announced s) (sys_threads σ) ltac:(intros; apply announced_bounds)).
        destruct (total_pos (announced s) (sys_threads σ)) as (j & th' & Hj & Hp); [intros; apply announced_bounds|lia|].
        unfold announced in Hp. destruct (th_waiting th') eqn:Ewt; [|done].
        destruct (to_waiting _ _ (li_threads σ Hinv j th' Hj) Ewt) as (s' & ops' & Hop').
        pose proof (to_script _ _ (li_threads σ Hinv j th' Hj)) as Hsc'. rewrite Hop' in Hsc'. cbn in Hsc'.
        assert (owns σ j = true) as Hoj by (destruct (owns σ j); [done|by cbn in Hsc']).
        assert (i = j) as <-.
        { unfold owns in Ho, Hoj. destruct (sys_owner σ) as [[k ?]|]; [|done].
          apply bool_decide_eq_true in Ho, Hoj. congruence. }
        rewrite Hi in Hj. injection Hj as <-. congruence.
Qed.

Lemma progress σ i th :
  lock_inv σ -> sys_threads σ !! i = Some th -> th_ops th <> [] -> exists j σ', thread_step j σ = Some σ'.
Proof.
  intros Hinv Hi Hop. destruct (sys_owner σ) as [[j k]|] eqn:Ho.
  - destruct (li_owner σ Hinv j k Ho) as [_ [th' Hj]]. apply (owner_progress σ j th' Hinv Hj).
    unfold owns. rewrite Ho. by rewrite bool_decide_eq_true_2.
  - assert (owns σ i = false) as Hoi by (unfold owns; by rewrite Ho).
    pose proof (to_script _ _ (li_threads σ Hinv i th Hi)) as Hsc. rewrite Hoi in Hsc.
    exists i. unfold thread_step. rewrite Hi. cbn.
    destruct (th_ops th) as [|[| |s w|s w|] ops]; cbn in Hsc; [done| |done|done|by eauto|by eauto].
    rewrite Ho. cbn. eauto.
Qed.

(** ** Termination *)

(** Announcing a write is a step of its own. *)
Definition thread_work (th : thread) : Z := 2 * Z.of_nat (length (th_ops th)) - Z.b2z (th_waiting th).
Definition work (σ : system) : Z := total thread_work (sys_threads σ).

Lemma step_works σ σ' : lock_inv σ -> step σ σ' -> work σ' < work σ.
Proof.
  intros Hinv [i H]. unfold thread_step in H. apply bind_Some in H as (th & Hi & H).
  assert (forall th' owner stripes, thread_work th' < thread_work th ->
    work (System owner stripes (<[i := th']> (sys_threads σ))) < work σ) as Hw.
  { intros th' owner stripes Hlt. unfold work. cbn [sys_threads]. rewrite (total_insert _ _ _ _ _ Hi). lia. }
  assert (forall o ops held, th_ops th = o :: ops -> thread_work (Thread ops held false) < thread_work th) as Hlt.
  { intros o ops held Hop. unfold thread_work. cbn [th_ops th_waiting]. rewrite Hop. cbn [length Z.b2z].
    destruct (th_waiting th); cbn; lia. }
  destruct (th_ops th) as [|[| |s w|s w|] ops] eqn:Hop; [done| | | | |].
  - apply bind_Some in H as (owner & _ & [= <-]). eauto.
  - destruct (sys_owner σ) as [[j k]|]; [|done]. destruct (decide (i = j)); [|done]. injection H as <-. eauto.
  - destruct (w && negb (th_waiting th)) eqn:Ew.
    + apply andb_true_iff in Ew as [_ Ew]. apply negb_true_iff in Ew. injection H as <-. apply Hw.
      unfold thread_work. cbn [th_ops th_waiting]. rewrite Hop, Ew. cbn. lia.
    + apply bind_Some in H as (l & _ & [= <-]). eauto.
  - injection H as <-. eauto.
  - injection H as <-. eauto.
Qed.

Lemma work_nonneg σ : lock_inv σ -> 0 <= work σ.
Proof.
  intros Hinv. unfold work.
  assert (forall th, th ∈ sys_threads σ -> 0 <= thread_work th) as H.
  { intros th [i Hi]%list_elem_of_lookup_1. pose proof (to_waiting _ _ (li_threads σ Hinv i th Hi)) as Hw.
    unfold thread_work. destruct (th_waiting th); cbn; [|lia]. destruct Hw as (s & ops & ->); [done|]. cbn. lia. }
  revert H. generalize (sys_threads σ). intros l H. induction l as [|x l IH]; [done|]. rewrite total_cons.
  pose proof (H x (list_elem_of_here _ _)). assert (0 <= total thread_work l); [|lia].
  apply IH. intros th Hth. apply H. by apply list_elem_of_further.
Qed.

Lemma run_bounded n σ σ' : lock_inv σ -> nsteps step n σ σ' -> Z.of_nat n <= work σ.
Proof.
  intros Hinv H. induction H as [σ|n σ1 σ2 σ3 H _ IH].
  - by apply work_nonneg.
  - pose proof (step_works _ _ Hinv H). specialize (IH (step_inv _ _ Hinv H)). lia.
Qed.

(** C10: stripes are reader/writer locks.  However many threads run whatever
    calls, in every state they can reach, a stripe that one thread holds for
    writing is held by no other thread, for reading or writing. *)
Theorem stripes_exclusive pointer calls σ s i j thi thj w :
  Z.of_nat (length calls) < 2 ^ 32 -> rtc step (start pointer calls) σ ->
  sys_threads σ !! i = Some thi -> sys_threads σ !! j = Some thj -> i <> j ->
  (s, true) ∈ th_held thi -> (s, w) ∉ th_held thj.
Proof.
  intros Hlen Hr Hi Hj Hij Hs Hin. pose proof (reachable_inv _ _ _ Hlen Hr) as Hinv.
  destruct (li_stripes σ Hinv s) as [Hrd Hw _ He].
  assert (forall v th, 0 <= holding s v th) as Hh by (intros; apply holding_bounds).
  destruct w.
  - pose proof (total_lookup_two (holding s true) _ _ _ _ _ (Hh true) Hij Hi Hj) as H2.
    rewrite (holding_1 s true thi Hs), (holding_1 s true thj Hin), <- Hw in H2.
    destruct (writer (sys_stripes σ s)); cbn in H2; lia.
  - pose proof (total_lookup (holding s true) _ _ _ (Hh true) Hi) as H1.
    pose proof (total_lookup (holding s false) _ _ _ (Hh false) Hj) as H2.
    rewrite (holding_1 s true thi Hs), <- Hw in H1. rewrite (holding_1 s false thj Hin), <- Hrd in H2.
    destruct (writer (sys_stripes σ s)); cbn in H1; [rewrite He in H2 by done|]; lia.
Qed.


(** ** Concrete runs *)

(** Run the threads in the given order. *)
Fixpoint schedule (order : list nat) (σ : system) : option system :=
  match order with
  | [] => Some σ
  | i :: rest => σ ← thread_step i σ; schedule rest σ
  end.

Lemma schedule_reachable order σ σ' : schedule order σ = Some σ' -> rtc step σ σ'.
Proof.
  revert σ. induction order as [|i rest IH]; intros σ H; cbn in H; [injection H as <-; apply rtc_refl|].
  apply bind_Some in H as (σ1 & H1 & H). eapply rtc_l; [by exists i|]. by apply IH.
Qed.

(** A commit of one page, and a thread that reads it. *)
Definition no_memory : mem := Mem ∅ ∅ ∅ 0 0.
Definition racing_calls : list (list operation) :=
  [[OnCommit no_memory [TransactionPage 0x2000 1 1 0 3%nat 4 false] [PageWrite 0x1000 None] true];
   [OnRange no_memory 0x1000 8 false]; [OnMetadata]].
Definition racing : system := start (fun b => 64 * Z.of_nat b) racing_calls.
(** The commit has released the metadata lock; the reader has taken it. *)
Definition racing_schedule : list nat := replicate 7 0%nat ++ [1%nat].

Lemma stripes_exclusive_witness :
  exists σ th0 th1, schedule racing_schedule racing = Some σ /\
    sys_threads σ !! 0%nat = Some th0 /\ sys_threads σ !! 1%nat = Some th1 /\
    (1, true) ∈ th_held th0 /\ thread_step 1 σ = None /\ (1, false) ∉ th_held th1.
Proof.
  eexists _, _, _. split; [vm_compute; reflexivity|]. split; [vm_compute; reflexivity|].
  split; [vm_compute; reflexivity|]. split; [apply (bool_decide_unpack _); vm_compute; exact I|].
  split; [vm_compute; reflexivity|].
  eapply (stripes_exclusive (fun b => 64 * Z.of_nat b) racing_calls _ 1 0 1).
  - vm_compute. reflexivity.
  - apply (schedule_reachable racing_schedule). vm_compute. reflexivity.
  - vm_compute. reflexivity.
  - vm_compute. reflexivity.
  - discriminate.
  - apply (bool_decide_unpack _). vm_compute. exact I.
Defined.


(** The metadata lock is recursive, the stripes are not: a call made from
    within a read of the same page (a protection fault handled while the page is
    copied) that needs to write it waits for its own thread for ever. *)
Theorem reentrant_write_blocks :
  let stripes := [(address_stripe_index 0x1000, true)] in
  let thread := Thread ([OpLock; OpAcquire (address_stripe_index 0x1000) false] ++ locked_script stripes ++
    [OpRelease (address_stripe_index 0x1000) false; OpUnlock]) [] false in
  exists σ, schedule (replicate 4 0%nat) (System None (fun _ => idle_stripe) [thread]) = Some σ /\
    (exists th ops, sys_threads σ = [th] /\ th_ops th = OpAcquire (address_stripe_index 0x1000) true :: ops) /\
    forall i, thread_step i σ = None.
Proof.
  eexists. split; [vm_compute; reflexivity|]. split; [eexists _, _; split; reflexivity|].
  intros [|i]; [reflexivity|]. unfold thread_step. cbn. by destruct i.
Qed.
