(* ===== verification/CommitRace.v ===== *)
(** CommitRace: what another thread can see between the two halves of
    [gem_memory_transaction_commit_pages] (src/gem/memory.c, lines 1105-1283).
    The stripes of a commit are chosen before it makes its copies, so a copy it
    installs for a copy-on-write page is covered by the page's stripe only, and
    not by the stripe of the copy itself. *)
From S2P Require Import Prelude MemoryModel Memory MemoryInv MemorySpec.
From S2P Require Import Transaction TransactionWorld Stripes.

(** A copy-on-write page that the first transaction is about to write. *)
Definition race_events : list event :=
  EvCall <$> [CallReserve (Some 0) 4096; CallCommit 0x100000000 4096 GEM_PAGE_WRITECOPY].
Definition race_world : world := history (littered 0) race_events.
Definition race_writes : list gem_memory_page_write :=
  [PageWrite 0x100000000 (Some (replicate PAGE 5))].

(** The commit publishes the page; with the metadata lock free again, another
    thread aliases it at a second address and reads that address in a
    transaction; then the commit copies its bytes, and the second transaction
    finishes. *)
Record race_result : Type := RaceResult {
  ra_commit : gem_memory_error;
  ra_alias : gem_memory_error;
  ra_snapshot : gem_memory_error;
  ra_read : option Z;
  ra_finish : gem_memory_error;
  ra_copied : Z;
  (** the memory the alias and the snapshot find *)
  ra_published : mem;
  ra_aliased : mem }.

Section race.
Context {platform : Platform}.

Definition commit_race : M race_result :=
  '(r, _, pes, _) ← commit_publish [] race_writes;
  published ← get;
  alias ← alias_locked 0x200010000 0x100000000 4096 GEM_PAGE_READWRITE;
  aliased ← get;
  '(snapshot, t, out) ← gem_memory_transaction_snapshot_page (Some []) 0x200010000 true true;
  n ← copy_pending pes;
  '(finish, _) ← gem_memory_transaction_finish t;
  mret (RaceResult r.1 alias snapshot (out ≫= fun o => head o.1) finish n published aliased).
End race.

(** Every step of the second thread succeeds, and takes no stripe that the
    commit holds for writing; it reads the page before the commit's bytes are
    there, and its transaction finishes without a conflict although the bytes
    at its address have changed. *)
Theorem commit_alias_race :
  let pointer (b : bid) := 64 * Z.of_nat b in
  let m := wd_memory race_world in
  exists r m', commit_race (platform := littered 0) m = Ok (r, m') /\
    ra_commit r = GEM_MEMORY_OK /\ ra_alias r = GEM_MEMORY_OK /\ ra_snapshot r = GEM_MEMORY_OK /\
    ra_read r = Some 0 /\ view m' 0x200010000 = Some (replicate PAGE 5) /\
    ra_finish r = GEM_MEMORY_OK /\ ra_copied r = 4096 /\
    Forall (fun s => s ∉ (commit_stripes pointer m [] race_writes).*1)
      (range_stripes pointer (ra_published r) 0x200010000 4096 ++
       page_stripes pointer 0x200010000 (at_ (ra_aliased r) 0x200010000 ≫= p_backing) []).
Proof.
  eexists _, _. split; [vm_compute; reflexivity|].
  do 7 (split; [vm_compute; reflexivity|]).
  apply (bool_decide_unpack _). vm_compute. exact I.
Qed.
