(* ===== verification/Blink.v ===== *)
(** Blink: the interface of the emulator that executes x86 instructions, as the
    engine front ends use it (the calls [blink_gem_machine_*] of x64_blink.c and
    i386_blink.c).

    Blink itself is third-party code, so it is a parameter: the class [Blink].
    A call into it may call back into the front end any number of times, each
    time going on with the answer; it is therefore the finite tree of the
    callbacks it makes, and [run_blink] runs that tree against the callbacks the
    front end registered ([struct blink_gem_callbacks]). *)
From S2P Require Import Prelude Context MemoryModel MemoryLogic.

(** ** What is exchanged *)

Inductive blink_gem_outcome : Type :=
  | BLINK_GEM_RETIRED
  | BLINK_GEM_MEMORY_FAULT
  | BLINK_GEM_UNSUPPORTED
  | BLINK_GEM_INVALID
  | BLINK_GEM_EXCEPTION
  | BLINK_GEM_STOP_PC
  | BLINK_GEM_ASYNC_STOP
  | BLINK_GEM_QUANTUM_BOUNDARY.

#[export] Instance blink_gem_outcome_eq_dec : EqDecision blink_gem_outcome.
Proof. solve_decision. Defined.

Definition BLINK_GEM_ACCESS_FETCH : Z := 1.
Definition BLINK_GEM_ACCESS_READ : Z := 2.
Definition BLINK_GEM_ACCESS_WRITE : Z := 3.
Definition BLINK_GEM_HANDLER_OP_RET : Z := 9.
Definition BLINK_GEM_HANDLER_OP_CALL_JVDS : Z := 11.
Definition BLINK_GEM_HANDLER_OP_CALL_EQ : Z := 13.
Definition BLINK_GEM_ENGINE_STATUS_RESTARTABLE_REP : Z := 0x100.

Record blink_gem_segment : Type := BlinkSegment {
  bs_selector : Z; bs_base : Z; bs_limit : Z; bs_attributes : Z }.

Definition segment_zero : blink_gem_segment := BlinkSegment 0 0 0 0.
#[export] Instance blink_gem_segment_inhabited : Inhabited blink_gem_segment := populate segment_zero.

(** [struct blink_gem_state]; a 16-byte register is its two words. *)
Record blink_gem_state : Type := BlinkState {
  s_gpr : list Z;
  s_rip : Z;
  s_rflags : Z;
  s_xmm : list gem_u128;
  s_mxcsr : Z;
  s_fcw : Z;
  s_fsw : Z;
  s_x87 : list gem_u128;
  s_gs_base : Z;
  s_fs_base : Z;
  s_ftw : Z;
  s_fip : Z;
  s_fdp : Z;
  s_fcs : Z;
  s_fds : Z;
  s_fop : Z;
  s_segments : list blink_gem_segment }.

Record blink_gem_result : Type := BlinkResult {
  br_outcome : blink_gem_outcome;
  br_retired : Z;
  br_fault_address : Z;
  br_access : Z;
  br_memory_error : Z;
  br_engine_status : Z }.

Record blink_gem_decode_attempt : Type := DecodeAttempt {
  da_valid : bool;
  da_handler_id : Z;
  da_name : string }.

(** [struct blink_gem_write]: [size] is the length of the bytes. *)
Record blink_gem_write : Type := BlinkWrite {
  bw_address : Z;
  bw_data : list Z }.
Definition bw_size (w : blink_gem_write) : Z := Z.of_nat (length (bw_data w)).

Record blink_gem_run_request : Type := RunRequest {
  rq_instruction_budget : Z;
  rq_stop_pcs : list Z }.

(** The error of [enum gem_memory_error] as the [uint32_t] of the callbacks. *)
Definition memory_error_value (e : gem_memory_error) : Z :=
  match e with
  | GEM_MEMORY_OK => 0
  | GEM_MEMORY_INVALID_ARGUMENT => 1
  | GEM_MEMORY_OVERFLOW => 2
  | GEM_MEMORY_NO_MEMORY => 3
  | GEM_MEMORY_CONFLICT => 4
  | GEM_MEMORY_NOT_RESERVED => 5
  | GEM_MEMORY_NOT_COMMITTED => 6
  | GEM_MEMORY_ACCESS_DENIED => 7
  | GEM_MEMORY_GUARD_PAGE => 8
  | GEM_MEMORY_NOT_FOUND => 9
  end.

(** ** A call into Blink *)

Inductive blink_run (A : Type) : Type :=
  | BlinkReturn (a : A)
  | BlinkSnapshot (address : Z) (k : gem_memory_error -> option (list Z) -> option Z -> blink_run A)
  | BlinkValidate (address size access : Z) (k : gem_memory_error -> blink_run A)
  | BlinkCommit (writes : list blink_gem_write) (k : gem_memory_error -> option Z -> blink_run A)
  | BlinkAsyncStop (k : bool -> blink_run A).
Arguments BlinkReturn {_} _.
Arguments BlinkSnapshot {_} _ _.
Arguments BlinkValidate {_} _ _ _ _.
Arguments BlinkCommit {_} _ _.
Arguments BlinkAsyncStop {_} _.

(** The same call with its result converted. *)
Fixpoint run_map {A B} (f : A -> B) (t : blink_run A) : blink_run B :=
  match t with
  | BlinkReturn a => BlinkReturn (f a)
  | BlinkSnapshot a k => BlinkSnapshot a (fun e data protection => run_map f (k e data protection))
  | BlinkValidate a n x k => BlinkValidate a n x (fun e => run_map f (k e))
  | BlinkCommit ws k => BlinkCommit ws (fun e fault => run_map f (k e fault))
  | BlinkAsyncStop k => BlinkAsyncStop (fun b => run_map f (k b))
  end.

(** The callbacks, over what their opaque pointer designates.  [snapshot]
    returns the error and what it stores in the buffer and in [*protection];
    [commit] the error and what it stores in [*fault_address]. *)
Record blink_gem_callbacks (S : Type) : Type := BlinkCallbacks {
  cb_snapshot : Z -> S -> M (gem_memory_error * option (list Z) * option Z * S);
  cb_validate : Z -> Z -> Z -> S -> M (gem_memory_error * S);
  cb_commit : list blink_gem_write -> S -> M (gem_memory_error * option Z * S);
  cb_async_stop : S -> M (bool * S) }.
Arguments BlinkCallbacks {_} _ _ _ _.
Arguments cb_snapshot {_} _ _ _.
Arguments cb_validate {_} _ _ _ _ _.
Arguments cb_commit {_} _ _ _.
Arguments cb_async_stop {_} _ _.

Fixpoint run_blink {S A} (cb : blink_gem_callbacks S) (t : blink_run A) (s : S) : M (A * S) :=
  match t with
  | BlinkReturn a => mret (a, s)
  | BlinkSnapshot a k => '(e, data, protection, s) ← cb_snapshot cb a s; run_blink cb (k e data protection) s
  | BlinkValidate a n x k => '(e, s) ← cb_validate cb a n x s; run_blink cb (k e) s
  | BlinkCommit ws k => '(e, fault, s) ← cb_commit cb ws s; run_blink cb (k e fault) s
  | BlinkAsyncStop k => '(b, s) ← cb_async_stop cb s; run_blink cb (k b) s
  end.

(** The emulator: a machine and the calls on it.  [step] executes at most one
    instruction, [run] at most the requested number. *)
Class Blink : Type := {
  blink_machine : Type;
  (** whether the engine is the JIT, and whether the guest is 32-bit *)
  blink_gem_machine_create_with_config : bool -> bool -> option blink_machine;
  blink_gem_machine_step :
    blink_machine -> blink_gem_state -> blink_run (blink_machine * blink_gem_result * blink_gem_state);
  blink_gem_machine_run :
    blink_machine -> blink_gem_run_request -> blink_gem_state ->
    blink_run (blink_machine * blink_gem_result * blink_gem_state);
  blink_gem_machine_sync : blink_machine -> blink_run blink_machine;
  blink_gem_machine_decode_attempt_info : blink_machine -> option blink_gem_decode_attempt;
  blink_gem_machine_invalidate_code : blink_machine -> Z -> Z -> bool * blink_machine;
  blink_gem_machine_trace_reset : blink_machine -> blink_machine }.

(** [attempt.valid && strcmp(attempt.name, name) == 0], with [attempt] zeroed
    when there is no information. *)
Definition attempted (attempt : option blink_gem_decode_attempt) (name : string) : bool :=
  match attempt with
  | Some d => da_valid d && String.eqb (da_name d) name
  | None => false
  end.

(** [atomic_bool]: its value, and whether another thread stores true before
    each of the coming exchanges. *)
Record atomic_flag : Type := AtomicFlag { af_value : bool; af_stores : list bool }.

(** [atomic_exchange_explicit(flag, false, ...)] *)
Definition exchange_false (f : atomic_flag) : bool * atomic_flag :=
  (af_value f || default false (head (af_stores f)), AtomicFlag false (tail (af_stores f))).

(** ** A rule for invariants of the callbacks *)

Section rule.
Context {S A : Type}.
Variable cb : blink_gem_callbacks S.
Variable I : S -> mem -> Prop.

(** Every callback keeps the invariant and never meets undefined behaviour. *)
Record callbacks_keep : Prop := CallbacksKeep {
  keep_snapshot a s : triple (I s) (cb_snapshot cb a s) (fun r => I r.2);
  keep_validate a n x s : triple (I s) (cb_validate cb a n x s) (fun r => I r.2);
  keep_commit ws s : triple (I s) (cb_commit cb ws s) (fun r => I r.2);
  keep_async_stop s : triple (I s) (cb_async_stop cb s) (fun r => I r.2) }.

Lemma run_blink_keeps (t : blink_run A) s :
  callbacks_keep -> triple (I s) (run_blink cb t s) (fun r => I r.2).
Proof.
  intros [Hs Hv Hc Ha]. revert s.
  induction t as [a|a k IH|a n x k IH|ws k IH|k IH]; intros s; cbn [run_blink]; [by apply triple_ret|..].
  - eapply triple_bind; [apply Hs|]. intros [[[e d] p] s']. apply IH.
  - eapply triple_bind; [apply Hv|]. intros [e s']. apply IH.
  - eapply triple_bind; [apply Hc|]. intros [[e f] s']. apply IH.
  - eapply triple_bind; [apply Ha|]. intros [b s']. apply IH.
Qed.
End rule.
