(* ===== verification/X64Engine.v ===== *)
(** X64Engine: the x64 engine front end (src/gem/x64_engine.c) and its adapter to
    the emulator (src/gem/x64_blink.c).

    [gem_x64_runtime_run] executes one instruction at a time: it opens a memory
    transaction, lets Blink step, closes the transaction, and commits the new
    registers to the thread context.  The runtime is threaded through as the
    code threads its pointer; the opaque pointer of the callbacks is that
    runtime.  Diagnostics that only forward to Blink (the handler trace, engine
    identification) are left out. *)
From S2P Require Import Prelude Context Conversion MemoryModel Memory Transaction Blink.

Definition GEM_X64_DEFAULT_HOST_RETURN_SENTINEL : Z := 0xfffffffffffffff0.
Definition GEM_X64_BOUNDARY_WINDOWS_SYSCALL : Z := 1.
Definition GEM_X64_BOUNDARY_UNIX_CALL : Z := 2.
Definition GEM_X86_64_ENGINE_DEFAULT : Z := 0.
Definition GEM_X86_64_ENGINE_JIT : Z := 1.
Definition GEM_X86_64_ENGINE_INTERPRETER : Z := 2.

Record gem_x64_runtime_config : Type := X64Config {
  xc_host_return_sentinel : Z;
  xc_max_budget : Z;
  xc_windows_syscall_boundary : Z;
  xc_unix_call_boundary : Z;
  xc_engine_mode : Z;
  xc_reserved : Z }.

Record gem_x64_stop_info : Type := X64StopInfo {
  xs_reason : gem_stop_reason;
  xs_instructions_retired : Z;
  xs_fault_address : Z;
  xs_access : Z;
  xs_memory_error : Z;
  xs_engine_status : Z }.

(** [memset(&r->last_stop, 0, sizeof(r->last_stop))] *)
Definition x64_stop_zero : gem_x64_stop_info := X64StopInfo GEM_STOP_NONE 0 0 0 0 0.

Definition stop_with_reason (s : gem_x64_stop_info) (r : gem_stop_reason) : gem_x64_stop_info :=
  X64StopInfo r (xs_instructions_retired s) (xs_fault_address s) (xs_access s) (xs_memory_error s)
    (xs_engine_status s).
Definition stop_with_retired (s : gem_x64_stop_info) (n : Z) : gem_x64_stop_info :=
  X64StopInfo (xs_reason s) n (xs_fault_address s) (xs_access s) (xs_memory_error s)
    (xs_engine_status s).
Definition stop_with_status (s : gem_x64_stop_info) (status : Z) : gem_x64_stop_info :=
  X64StopInfo (xs_reason s) (xs_instructions_retired s) (xs_fault_address s) (xs_access s)
    (xs_memory_error s) status.

(** [c->stop_reason = reason] *)
Definition with_stop_reason (c : gem_thread_context) (r : gem_stop_reason) : gem_thread_context :=
  ThreadContext (c_layout_version c) (c_context_size c) (c_x c) (c_sp c) (c_pc c) (c_nzcv c)
    (c_fpcr c) (c_fpsr c) (c_reserved0 c) (c_v c) (c_x64_rflags c) (c_x64_mxcsr c) (c_x64_fcw c)
    (c_x64_fsw c) (c_x87 c) (c_teb c) (c_original_x64_sp c) (c_transition_cookie c) (c_isa c)
    (stop_value r).

(** The callback's protection bits: 1 readable, 2 writable, 4 executable. *)
Definition x64_protection_bits (gp : Z) : Z :=
  let b := gp .&~ GEM_PAGE_GUARD in
  if negb (b =? GEM_PAGE_NOACCESS) then
    let p := if negb (b =? GEM_PAGE_EXECUTE) then 1 else 0 in
    let p := if (b =? GEM_PAGE_READWRITE) || (b =? GEM_PAGE_WRITECOPY) ||
                (b =? GEM_PAGE_EXECUTE_READWRITE) || (b =? GEM_PAGE_EXECUTE_WRITECOPY)
             then p .| 2 else p in
    if (b =? GEM_PAGE_EXECUTE) || (b =? GEM_PAGE_EXECUTE_READ) ||
       (b =? GEM_PAGE_EXECUTE_READWRITE) || (b =? GEM_PAGE_EXECUTE_WRITECOPY)
    then p .| 4 else p
  else 0.

(** [memcpy] of a fixed-size array: its elements. *)
Definition array {A} `{Inhabited A} (n : nat) (l : list A) : list A := (fun i => l !!! i) <$> seq 0 n.

(** [import] and [export] of x64_blink.c. *)
Definition x64_import (s : gem_x64_context) : blink_gem_state :=
  BlinkState (array 16 (x_gpr s)) (x_rip s) (x_rflags s) (array 16 (x_xmm s)) (x_mxcsr s)
    (x_fcw s) (x_fsw s) (array 8 (x_x87 s)) (x_teb s) 0 0 0 0 0 0 0 (replicate 6 segment_zero).

(** The emulator stores a [struct blink_gem_state], whose fields are of these
    widths. *)
Definition x64_export (s : blink_gem_state) : gem_x64_context :=
  X64Context (wrap64 <$> array 16 (s_gpr s)) (wrap64 (s_rip s)) (wrap64 (s_rflags s))
    (wrap32 (s_mxcsr s)) (wrap16 (s_fcw s)) (wrap16 (s_fsw s)) (u128_typed <$> array 16 (s_xmm s))
    (u128_typed <$> array 8 (s_x87 s)) (wrap64 (s_gs_base s)).

Section runtime.
Context {platform : Platform} {blink : Blink}.

Record gem_x64_runtime : Type := X64Runtime {
  xr_config : gem_x64_runtime_config;
  xr_last_stop : gem_x64_stop_info;
  xr_backend : blink_machine;
  xr_transaction : option gem_memory_transaction;
  xr_running : bool;
  xr_last_instruction_was_call : bool;
  xr_last_instruction_was_ret : bool;
  xr_backend_failed : bool;
  xr_async_stop_requested : atomic_flag }.

Definition set_last_stop (r : gem_x64_runtime) (s : gem_x64_stop_info) : gem_x64_runtime :=
  X64Runtime (xr_config r) s (xr_backend r) (xr_transaction r) (xr_running r)
    (xr_last_instruction_was_call r) (xr_last_instruction_was_ret r) (xr_backend_failed r)
    (xr_async_stop_requested r).
Definition set_backend (r : gem_x64_runtime) (g : blink_machine) : gem_x64_runtime :=
  X64Runtime (xr_config r) (xr_last_stop r) g (xr_transaction r) (xr_running r)
    (xr_last_instruction_was_call r) (xr_last_instruction_was_ret r) (xr_backend_failed r)
    (xr_async_stop_requested r).
Definition set_transaction (r : gem_x64_runtime) (t : option gem_memory_transaction) : gem_x64_runtime :=
  X64Runtime (xr_config r) (xr_last_stop r) (xr_backend r) t (xr_running r)
    (xr_last_instruction_was_call r) (xr_last_instruction_was_ret r) (xr_backend_failed r)
    (xr_async_stop_requested r).
Definition set_running (r : gem_x64_runtime) (b : bool) : gem_x64_runtime :=
  X64Runtime (xr_config r) (xr_last_stop r) (xr_backend r) (xr_transaction r) b
    (xr_last_instruction_was_call r) (xr_last_instruction_was_ret r) (xr_backend_failed r)
    (xr_async_stop_requested r).
Definition set_last_instruction (r : gem_x64_runtime) (call ret : bool) : gem_x64_runtime :=
  X64Runtime (xr_config r) (xr_last_stop r) (xr_backend r) (xr_transaction r) (xr_running r)
    call ret (xr_backend_failed r) (xr_async_stop_requested r).
Definition set_backend_failed (r : gem_x64_runtime) : gem_x64_runtime :=
  X64Runtime (xr_config r) (xr_last_stop r) (xr_backend r) (xr_transaction r) (xr_running r)
    (xr_last_instruction_was_call r) (xr_last_instruction_was_ret r) true
    (xr_async_stop_requested r).
Definition set_async (r : gem_x64_runtime) (f : atomic_flag) : gem_x64_runtime :=
  X64Runtime (xr_config r) (xr_last_stop r) (xr_backend r) (xr_transaction r) (xr_running r)
    (xr_last_instruction_was_call r) (xr_last_instruction_was_ret r) (xr_backend_failed r) f.

(** ** The callbacks *)

Definition x64_snapshot (a : Z) (r : gem_x64_runtime)
  : M (gem_memory_error * option (list Z) * option Z * gem_x64_runtime) :=
  '(e, t, out) ← gem_memory_transaction_snapshot_page (xr_transaction r) a true true;
  mret (e, fst <$> out, Some (x64_protection_bits (from_option snd 0 out)), set_transaction r t).

Definition x64_validate (a n access : Z) (r : gem_x64_runtime) : M (gem_memory_error * gem_x64_runtime) :=
  '(e, t) ← gem_memory_transaction_validate (xr_transaction r) a n
              (access =? BLINK_GEM_ACCESS_WRITE) (access =? BLINK_GEM_ACCESS_FETCH);
  mret (e, set_transaction r t).

Definition x64_commit (ws : list blink_gem_write) (r : gem_x64_runtime)
  : M (gem_memory_error * option Z * gem_x64_runtime) :=
  if bool_decide (ws = []) then mret (GEM_MEMORY_OK, None, r)
  else
    p ← alloc;
    match p with
    | None => mret (GEM_MEMORY_NO_MEMORY, None, r)
    | Some _ =>
      if negb (forallb (fun w => bw_size w =? 4096) ws) then mret (GEM_MEMORY_INVALID_ARGUMENT, None, r)
      else
        '(e, fault, t, _) ← gem_memory_transaction_commit_pages (xr_transaction r)
            (Some ((fun w => PageWrite (bw_address w) (Some (bw_data w))) <$> ws)) (length ws);
        mret (e, fault, set_transaction r t)
    end.

(** The x64 front end never asks for batched runs, the only ones that poll. *)
Definition x64_callbacks : blink_gem_callbacks gem_x64_runtime :=
  BlinkCallbacks x64_snapshot x64_validate x64_commit (fun r => mret (false, r)).

(** [blink_gem_machine_step(r->backend, ...)] *)
Definition x64_machine_step (r : gem_x64_runtime) (s : blink_gem_state)
  : M (blink_gem_result * blink_gem_state * gem_x64_runtime) :=
  '(g, br, bo, r) ← run_blink x64_callbacks (blink_gem_machine_step (xr_backend r) s) r;
  mret (br, bo, set_backend r g).

(** The stop reason, the runtime, what is stored in [*out], and [*retired]. *)
Definition gem_x64_blink_step (r : gem_x64_runtime) (i : gem_x64_context)
  : M (gem_stop_reason * gem_x64_runtime * option gem_x64_context * Z) :=
  '(br, bo, r) ← x64_machine_step r (x64_import i);
  let retired := br_retired br in
  let r := set_last_stop r
    (X64StopInfo (xs_reason (xr_last_stop r)) (xs_instructions_retired (xr_last_stop r))
       (br_fault_address br) (br_access br) (br_memory_error br) (br_engine_status br)) in
  let attempt := blink_gem_machine_decode_attempt_info (xr_backend r) in
  match br_outcome br with
  | BLINK_GEM_RETIRED =>
    let r :=
      if br_retired br =? 1 then
        match attempt with
        | Some d =>
          if da_valid d then
            set_last_instruction r
              ((da_handler_id d =? BLINK_GEM_HANDLER_OP_CALL_JVDS) ||
               (da_handler_id d =? BLINK_GEM_HANDLER_OP_CALL_EQ))
              (da_handler_id d =? BLINK_GEM_HANDLER_OP_RET)
          else r
        | None => r
        end
      else r in
    mret (if br_retired br =? 1 then GEM_STOP_NONE else GEM_STOP_INVARIANT_VIOLATION, r,
          Some (x64_export bo), retired)
  | BLINK_GEM_MEMORY_FAULT => mret (GEM_STOP_MEMORY_FAULT, r, None, retired)
  | BLINK_GEM_UNSUPPORTED =>
    if attempted attempt "OpInterrupt3" then mret (GEM_STOP_WINDOWS_EXCEPTION, r, None, retired)
    else if attempted attempt "OpSyscall" then
      mret (GEM_STOP_SYSCALL,
            set_last_stop r (stop_with_status (xr_last_stop r) GEM_X64_BOUNDARY_WINDOWS_SYSCALL),
            None, retired)
    else mret (GEM_STOP_UNSUPPORTED_INSTRUCTION, r, None, retired)
  | _ => mret (GEM_STOP_INVARIANT_VIOLATION, r, None, retired)
  end.

Definition gem_x64_blink_create (c : gem_x64_runtime_config) : option blink_machine :=
  blink_gem_machine_create_with_config (xc_engine_mode c =? GEM_X86_64_ENGINE_JIT) false.

Definition gem_x64_blink_invalidate_code (r : gem_x64_runtime) (a n : Z) : bool * gem_x64_runtime :=
  let '(ok, g) := blink_gem_machine_invalidate_code (xr_backend r) a n in (ok, set_backend r g).

(** ** The front end *)

Definition boundary_status (r : gem_x64_runtime) (pc : Z) : Z :=
  if negb (xc_windows_syscall_boundary (xr_config r) =? 0) &&
     (pc =? xc_windows_syscall_boundary (xr_config r))
  then GEM_X64_BOUNDARY_WINDOWS_SYSCALL
  else if negb (xc_unix_call_boundary (xr_config r) =? 0) &&
          (pc =? xc_unix_call_boundary (xr_config r))
  then GEM_X64_BOUNDARY_UNIX_CALL
  else 0.

(** The checks and defaults applied to the configuration; [calloc] zeroes the
    one that is not given. *)
Definition x64_config_zero : gem_x64_runtime_config := X64Config 0 0 0 0 0 0.

Definition x64_configure (c : option gem_x64_runtime_config) : option gem_x64_runtime_config :=
  let c := default x64_config_zero c in
  if negb (xc_reserved c =? 0) ||
     (negb (xc_engine_mode c =? GEM_X86_64_ENGINE_DEFAULT) &&
      negb (xc_engine_mode c =? GEM_X86_64_ENGINE_JIT) &&
      negb (xc_engine_mode c =? GEM_X86_64_ENGINE_INTERPRETER))
  then None
  else
    let c := X64Config
      (if xc_host_return_sentinel c =? 0 then GEM_X64_DEFAULT_HOST_RETURN_SENTINEL
       else xc_host_return_sentinel c)
      (xc_max_budget c) (xc_windows_syscall_boundary c) (xc_unix_call_boundary c)
      (if xc_engine_mode c =? GEM_X86_64_ENGINE_DEFAULT then GEM_X86_64_ENGINE_JIT
       else xc_engine_mode c) (xc_reserved c) in
    if (negb (xc_windows_syscall_boundary c =? 0) &&
        (xc_windows_syscall_boundary c =? xc_host_return_sentinel c)) ||
       (negb (xc_unix_call_boundary c =? 0) &&
        (xc_unix_call_boundary c =? xc_host_return_sentinel c)) ||
       (negb (xc_windows_syscall_boundary c =? 0) && negb (xc_unix_call_boundary c =? 0) &&
        (xc_windows_syscall_boundary c =? xc_unix_call_boundary c))
    then None
    else Some c.

(** [arriving] is what other threads will do with the new flag. *)
Definition gem_x64_runtime_create (has_memory : bool) (c : option gem_x64_runtime_config)
    (arriving : list bool) : M (option gem_x64_runtime) :=
  if negb has_memory then mret None
  else
    p ← alloc;
    match p with
    | None => mret None
    | Some _ =>
      match x64_configure c with
      | None => mret None
      | Some c =>
        match gem_x64_blink_create c with
        | None => mret None
        | Some g =>
          mret (Some (X64Runtime c x64_stop_zero g None false false false false
                        (AtomicFlag false arriving)))
        end
      end
    end.

(** [while (retired < budget)], with [n = budget - retired]: the reason, the
    runtime, the context and the number of instructions retired.  [reason] is
    the variable of the code, which the loop leaves unchanged when it ends by
    its condition. *)
Fixpoint x64_run_loop (n : nat) (reason : gem_stop_reason) (r : gem_x64_runtime)
    (i : gem_x64_context) (c : gem_thread_context) (retired : Z)
  : M (gem_stop_reason * gem_x64_runtime * gem_thread_context * Z) :=
  match n with
  | O => mret (reason, r, c, retired)
  | S n =>
    if x_rip i =? xc_host_return_sentinel (xr_config r)
    then mret (GEM_STOP_HOST_RETURN, r, c, retired)
    else
      let '(stop, flag) := exchange_false (xr_async_stop_requested r) in
      let r := set_async r flag in
      if (stop : bool) then mret (GEM_STOP_ASYNC_REQUEST, r, c, retired)
      else
        let boundary := boundary_status r (x_rip i) in
        if negb (boundary =? 0)
        then mret (GEM_STOP_SYSCALL, set_last_stop r (stop_with_status (xr_last_stop r) boundary),
                   c, retired)
        else
          t ← gem_memory_transaction_begin;
          let r := set_transaction r t in
          match t with
          | None => mret (GEM_STOP_INVARIANT_VIOLATION, r, c, retired)
          | Some _ =>
            '(reason, r, out, one) ← gem_x64_blink_step r i;
            gem_memory_transaction_end (xr_transaction r);;
            let r := set_transaction r None in
            if negb (bool_decide (reason = GEM_STOP_NONE)) then mret (reason, r, c, retired)
            else if negb (one =? 1) then mret (GEM_STOP_INVARIANT_VIOLATION, r, c, retired)
            else
              match out with
              | None => fault
              | Some out =>
                match gem_context_x64_commit (Some out) (Some c) with
                | (true, Some c) =>
                  if c_pc c =? xc_host_return_sentinel (xr_config r)
                  then mret (GEM_STOP_HOST_RETURN, r, c, retired + 1)
                  else x64_run_loop n reason r out c (retired + 1)
                | _ => mret (GEM_STOP_INVARIANT_VIOLATION, r, c, retired)
                end
              end
          end
  end.

(** What follows the loop. *)
Definition x64_run_finish (reason : gem_stop_reason) (r : gem_x64_runtime) (c : gem_thread_context)
    (retired : Z) : gem_stop_reason * gem_x64_runtime * gem_thread_context :=
  let r := set_running r false in
  let reason := if bool_decide (reason = GEM_STOP_NONE) then GEM_STOP_BUDGET_EXPIRED else reason in
  let r := set_last_stop r (stop_with_retired (stop_with_reason (xr_last_stop r) reason) retired) in
  (reason, r, if bool_decide (reason = GEM_STOP_INVARIANT_VIOLATION) then c else with_stop_reason c reason).

(** A NULL runtime or context is [None]; they come back as they are left. *)
Definition gem_x64_runtime_run (r : option gem_x64_runtime) (c : option gem_thread_context)
    (budget : Z) : M (gem_stop_reason * option gem_x64_runtime * option gem_thread_context) :=
  match r with
  | None => mret (GEM_STOP_INVARIANT_VIOLATION, None, c)
  | Some r =>
    let r := set_last_instruction (set_last_stop r x64_stop_zero) false false in
    let rejected := mret (GEM_STOP_INVARIANT_VIOLATION,
      Some (set_last_stop r (stop_with_reason (xr_last_stop r) GEM_STOP_INVARIANT_VIOLATION)), c) in
    if xr_running r || xr_backend_failed r then rejected
    else
      match gem_context_x64_materialize c true, c with
      | Some i, Some c =>
        if negb (xc_max_budget (xr_config r) =? 0) && (xc_max_budget (xr_config r) <? budget)
        then rejected
        else if budget =? 0 then
          mret (GEM_STOP_BUDGET_EXPIRED,
                Some (set_last_stop r (stop_with_reason (xr_last_stop r) GEM_STOP_BUDGET_EXPIRED)),
                Some (with_stop_reason c GEM_STOP_BUDGET_EXPIRED))
        else
          '(reason, r, c, retired) ←
             x64_run_loop (Z.to_nat budget) GEM_STOP_BUDGET_EXPIRED (set_running r true) i c 0;
          let '(reason, r, c) := x64_run_finish reason r c retired in
          mret (reason, Some r, Some c)
      | _, _ => rejected
      end
  end.

Definition gem_x64_runtime_last_stop_info (r : option gem_x64_runtime) (has_out : bool)
  : option gem_x64_stop_info :=
  match r with Some r => if has_out then Some (xr_last_stop r) else None | None => None end.

Definition gem_x64_runtime_last_instruction_was_call (r : option gem_x64_runtime) : bool :=
  match r with
  | Some r => negb (xs_instructions_retired (xr_last_stop r) =? 0) && xr_last_instruction_was_call r
  | None => false
  end.

Definition gem_x64_runtime_last_instruction_was_ret (r : option gem_x64_runtime) : bool :=
  match r with
  | Some r => negb (xs_instructions_retired (xr_last_stop r) =? 0) && xr_last_instruction_was_ret r
  | None => false
  end.

(** [r->running || !gem_x64_blink_invalidate_code(...)] *)
Definition gem_x64_runtime_invalidate_code (r : option gem_x64_runtime) (a n : Z)
  : option gem_x64_runtime :=
  match r with
  | None => None
  | Some r =>
    if xr_running r then Some (set_backend_failed r)
    else
      let '(ok, r) := gem_x64_blink_invalidate_code r a n in
      Some (if negb ok then set_backend_failed r else r)
  end.

Definition gem_x64_runtime_request_async_stop (r : option gem_x64_runtime) : option gem_x64_runtime :=
  match r with
  | Some r => Some (set_async r (AtomicFlag true (af_stores (xr_async_stop_requested r))))
  | None => None
  end.

Definition gem_x64_runtime_handler_trace_reset (r : option gem_x64_runtime) : option gem_x64_runtime :=
  match r with
  | Some r => Some (set_backend r (blink_gem_machine_trace_reset (xr_backend r)))
  | None => None
  end.

Definition gem_x64_runtime_engine_name (r : option gem_x64_runtime) : string :=
  match r with
  | None => "unavailable"
  | Some r =>
    if xc_engine_mode (xr_config r) =? GEM_X86_64_ENGINE_JIT then "GEM_x86_64 Blink AArch64 JIT"
    else "GEM_x86_64 Blink interpreter oracle"
  end.

Definition gem_x64_runtime_engine_license (r : option gem_x64_runtime) : string :=
  match r with Some _ => "ISC" | None => "unavailable" end.
End runtime.
