(* ===== verification/X64EngineProperties.v ===== *)
(** X64EngineProperties: what a run of the x64 engine guarantees whatever the
    emulator does, and that a run can be cut into slices. *)
From S2P Require Import Prelude Context Conversion MemoryModel Memory MemoryLogic MemoryInv MemoryTotal MemorySpec.
From S2P Require Import Transaction TransactionInv TransactionWorld Blink X64Engine.

(** ** Arrays and views *)

Lemma length_array {A} `{Inhabited A} n (l : list A) : length (array n l) = n.
Proof. unfold array. by rewrite length_fmap, length_seq. Qed.

Lemma wrap64_u64 x : is_u64 (wrap64 x).
Proof. by apply Z.mod_pos_bound. Qed.
Lemma wrap32_u32 x : is_u32 (wrap32 x).
Proof. by apply Z.mod_pos_bound. Qed.
Lemma wrap16_u16 x : is_u16 (wrap16 x).
Proof. by apply Z.mod_pos_bound. Qed.
Lemma u128_typed_u128 v : is_u128 (u128_typed v).
Proof. split; apply wrap64_u64. Qed.
#[export] Hint Resolve wrap64_u64 wrap32_u32 wrap16_u16 u128_typed_u128 : gem.

Lemma is_u128_zero : is_u128 u128_zero.
Proof. done. Qed.
#[export] Hint Resolve is_u128_zero : gem.

Lemma with_stop_reason_wf c reason : context_wf c -> context_wf (with_stop_reason c reason).
Proof.
  intros (? & ? & ? & ? & ? & ? & ? & ? & ? & ? & ? & ? & ? & ? & ? & ? & ? & ? & ? & ? & ? & ? & ?).
  split_and!; try done; unfold is_u32; cbn; destruct reason; cbn; lia.
Qed.

(** What the emulator leaves has the C types. *)
Lemma x64_export_wf s : x64_wf (x64_export s).
Proof.
  unfold x64_wf, x64_export. cbn -[array]. rewrite !length_fmap, !length_array. change GEM_X64_GPR_COUNT with 16%nat.
  split_and!; auto with gem; apply Forall_fmap, Forall_true; intros; cbn; auto with gem.
Qed.

Lemma x_from_gpr_wf gpr teb x :
  length gpr = 16%nat -> Forall is_u64 gpr -> is_u64 teb -> Forall is_u64 x -> Forall is_u64 (x_from_gpr gpr teb x).
Proof.
  intros Hl Hg Ht Hx.
  assert (forall i, (i < 16)%nat -> is_u64 (gpr !!! i)) as Hi.
  { intros i Hi. rewrite Forall_forall in Hg. apply Hg, list_elem_of_lookup_2 with i, list_lookup_lookup_total_lt. lia. }
  unfold x_from_gpr. repeat apply Forall_insert; try done; apply Hi; vm_compute; lia.
Qed.

Lemma x64_commit_result_wf s d : x64_wf s -> context_wf d -> context_wf (x64_commit_result s d).
Proof.
  intros (Hl & Hg & ? & ? & ? & ? & ? & ? & ? & ? & ? & ?)
    (? & ? & ? & ? & ? & ? & ? & ? & ? & ? & ? & ? & ? & ? & ? & ? & ? & ? & ? & ? & ? & ? & ?).
  unfold context_wf, x64_commit_result.
  cbn [c_layout_version c_context_size c_x c_sp c_pc c_nzcv c_fpcr c_fpsr c_reserved0 c_v c_x64_rflags
    c_x64_mxcsr c_x64_fcw c_x64_fsw c_x87 c_teb c_original_x64_sp c_transition_cookie c_isa c_stop_reason].
  split_and!; try done.
  - unfold x_from_gpr. by rewrite !length_insert.
  - by apply x_from_gpr_wf.
  - rewrite Forall_forall in Hg. apply Hg, list_elem_of_lookup_2 with GEM_X64_RSP, list_lookup_lookup_total_lt.
    rewrite Hl. vm_compute. lia.
Qed.

(** A context that can run, and its x64 view. *)
Definition x64_view (c : gem_thread_context) (i : gem_x64_context) : Prop :=
  length (c_x c) = 31%nat /\ length (x_gpr i) = 16%nat /\
  gem_context_x64_materialize (Some c) true = Some i.

Lemma x64_view_pc c i : x64_view c i -> x_rip i = c_pc c.
Proof. by intros (_ & _ & (_ & _ & ->)%materialize_spec). Qed.

(** What an x64 run may not touch. *)
Definition x64_frame (c d : gem_thread_context) : Prop :=
  (forall i, i ∈ arm_only -> xreg d i = xreg c i) /\
  c_nzcv d = c_nzcv c /\ c_fpcr d = c_fpcr c /\ c_fpsr d = c_fpsr c /\ c_teb d = c_teb c /\
  c_original_x64_sp d = c_original_x64_sp c /\ c_transition_cookie d = c_transition_cookie c /\
  c_isa d = c_isa c /\ (xreg c 18 = c_teb c -> xreg d 18 = c_teb d).

#[export] Instance x64_frame_po : PreOrder x64_frame.
Proof.
  split.
  - by intros c.
  - intros a b c (Hab & ? & ? & ? & ? & ? & ? & ? & ?) (Hbc & ? & ? & ? & ? & ? & ? & ? & ?).
    split; [intros i Hi; by rewrite Hbc, Hab|]. split_and!; [by etrans..|auto].
Qed.

Lemma with_stop_reason_frame c r : x64_frame c (with_stop_reason c r).
Proof. by split_and!. Qed.

Lemma materialize_stop_reason c r :
  gem_context_x64_materialize (Some (with_stop_reason c r)) true = gem_context_x64_materialize (Some c) true.
Proof. by destruct c. Qed.

(** A commit into a context that can run: refused without effect, or a context
    whose view is what was committed. *)
Lemma x64_commit_view c i out :
  x64_view c i -> length (x_gpr out) = 16%nat ->
  gem_context_x64_commit (Some out) (Some c) = (false, Some c) \/
  exists d, gem_context_x64_commit (Some out) (Some c) = (true, Some d) /\ x64_view d out /\
    x64_frame c d /\ (x64_wf out -> context_wf c -> context_wf d).
Proof.
  intros (Hx & _ & (Hv & Hisa & _)%materialize_spec) Ho.
  rewrite x64_commit_result_spec, Hv, Hisa by done. cbn [andb]. rewrite Z.eqb_refl. cbn [andb].
  destruct (Z.eqb_spec (x_teb out) (c_teb c)) as [Ht|]; [right|by left].
  eexists. split; [done|]. split; [|split; [|intros; by apply x64_commit_result_wf]].
  - split; [|split; [done|]].
    + unfold x64_commit_result; cbn [c_x]. unfold x_from_gpr. by rewrite !length_insert.
    + apply materialize_spec. split; [by apply commit_result_valid|]. split; [done|].
      erewrite (x_gpr_x (x_gpr out)) by done. cbn. rewrite <- Ht. by destruct out.
  - split; [intros k Hk; by apply x_from_gpr_frame|]. split_and!; try done. intros _. by apply x_from_gpr_teb.
Qed.

Section runs.
Context {platform : Platform} {blink : Blink}.

(** ** One instruction *)

(** What a step leaves of the runtime. *)
Definition step_frame (r r' : gem_x64_runtime) : Prop :=
  xr_config r' = xr_config r /\ xr_running r' = xr_running r /\
  xr_backend_failed r' = xr_backend_failed r /\
  xr_async_stop_requested r' = xr_async_stop_requested r.

#[local] Instance step_frame_po : PreOrder step_frame.
Proof. split; [by intros r|]. intros a b c (? & ? & ? & ?) (? & ? & ? & ?). by split_and!; etrans. Qed.

Section safety.
Variable pins : bid -> Z.
Variable L : gmap Z (Z * Z).
Hypothesis Hp : forall b, 0 <= pins b.

(** The runtime's transaction owns its references. *)
Definition owned (r0 r : gem_x64_runtime) (m : mem) : Prop :=
  step_frame r0 r /\ st (pins_add pins (handle_refs (xr_transaction r))) L m.

Lemma owned_triple {A} (f : option gem_memory_transaction -> M A) g r0 r :
  (forall t, triple (st (pins_add pins (handle_refs t)) L) (f t)
     (fun a => st (pins_add pins (handle_refs (g a))) L)) ->
  triple (owned r0 r) (f (xr_transaction r)) (fun a => owned r0 (set_transaction r (g a))).
Proof.
  intros Hf m [Hr Hst]. specialize (Hf _ _ Hst). destruct (f _ m) as [[a m']| |]; [|done..].
  by split.
Qed.

Lemma x64_callbacks_keep r0 : callbacks_keep x64_callbacks (owned r0).
Proof.
  split.
  - intros a r. eapply triple_bind;
      [apply (owned_triple (fun t => gem_memory_transaction_snapshot_page t a true true) (fun x => x.1.2));
       intros t; by apply snapshot_owned|]. intros [[e t] o]. by apply triple_ret.
  - intros a n x r. eapply triple_bind;
      [apply (owned_triple (fun t => gem_memory_transaction_validate t a n _ _) (fun x => x.2));
       intros t; by apply validate_owned|]. intros [e t]. by apply triple_ret.
  - intros ws r. cbn [cb_commit x64_callbacks]. unfold x64_commit.
    destruct (bool_decide _); [by apply triple_ret|].
    eapply triple_bind.
    { intros m [Hr Hst]. pose proof (alloc_triple _ _ _ Hst) as Ha.
      instantiate (1 := fun _ => owned r0 r). by destruct (alloc m) as [[p m']| |]. }
    intros [p|]; [|by apply triple_ret]. destruct (negb _); [by apply triple_ret|].
    eapply triple_bind;
      [apply (owned_triple (fun t => gem_memory_transaction_commit_pages t _ _) (fun x => x.1.2));
       intros t; by apply commit_owned|]. intros [[[e f] t] k]. by apply triple_ret.
  - intros r. by apply triple_ret.
Qed.

(** What a step returns. *)
Definition step_post (r : gem_x64_runtime)
    (out : gem_stop_reason * gem_x64_runtime * option gem_x64_context * Z) (m : mem) : Prop :=
  let '(reason, r', o, one) := out in
  owned r r' m /\ reason <> GEM_STOP_HOST_RETURN /\ reason <> GEM_STOP_BUDGET_EXPIRED /\
  reason <> GEM_STOP_ASYNC_REQUEST /\ reason <> GEM_STOP_ARCH_TRANSITION /\
  (reason = GEM_STOP_NONE -> exists i, o = Some i /\ x64_wf i).

Lemma x64_blink_step_triple r i :
  triple (st (pins_add pins (handle_refs (xr_transaction r))) L) (gem_x64_blink_step r i) (step_post r).
Proof.
  unfold gem_x64_blink_step, x64_machine_step. eapply triple_bind.
  - eapply triple_bind.
    + eapply triple_conseq; [apply (run_blink_keeps x64_callbacks (owned r)), x64_callbacks_keep| |
        intros a m Hm; exact Hm]. by intros m Hm.
    + intros [[[g br] bo] r']. apply triple_ret. intros m Hm.
      instantiate (1 := fun x m => owned r x.2 m). exact Hm.
  - intros [[br bo] r']. cbn [snd].
    set (r1 := set_last_stop r' _).
    assert (forall m, owned r r' m -> owned r r1 m) as H1 by done.
    set (attempt := blink_gem_machine_decode_attempt_info (xr_backend r1)). clearbody attempt.
    destruct (br_outcome br); try (apply triple_ret; intros m Hm; by split_and!; auto).
    + apply triple_ret. intros m Hm. split; [|destruct (_ =? 1); split_and!; try done].
      * destruct (_ =? 1); [|auto]. destruct attempt as [d|]; [|auto]. destruct (da_valid d); auto.
      * intros _. eexists. split; [done|]. apply x64_export_wf.
    + destruct (attempted attempt "OpInterrupt3").
      { apply triple_ret. intros m Hm. by split_and!; auto. }
      destruct (attempted attempt "OpSyscall"); apply triple_ret; intros m Hm; by split_and!; auto.
Qed.

Lemma begin_owned :
  triple (st pins L) gem_memory_transaction_begin (fun t => st (pins_add pins (handle_refs t)) L).
Proof.
  unfold gem_memory_transaction_begin. eapply triple_bind; [apply alloc_triple|]. intros [p|];
    apply triple_ret; intros m Hm; by apply st_pins_nil.
Qed.

(** ** The loop *)

Definition loop_post (n : nat) (r : gem_x64_runtime) (c : gem_thread_context) (retired : Z)
    (out : gem_stop_reason * gem_x64_runtime * gem_thread_context * Z) (m : mem) : Prop :=
  let '(reason, r', c', retired') := out in
  st pins L m /\ xr_transaction r' = None /\ xr_config r' = xr_config r /\
  xr_backend_failed r' = xr_backend_failed r /\ x64_frame c c' /\
  (exists i, x64_view c' i) /\ retired <= retired' <= retired + Z.of_nat n /\
  (retired' = retired -> c' = c) /\ (context_wf c -> context_wf c') /\
  reason <> GEM_STOP_ARCH_TRANSITION /\
  (reason = GEM_STOP_NONE \/ reason = GEM_STOP_BUDGET_EXPIRED -> retired' = retired + Z.of_nat n) /\
  (reason = GEM_STOP_HOST_RETURN -> c_pc c' = xc_host_return_sentinel (xr_config r)).

Lemma x64_run_loop_triple n reason r i c retired :
  (n = O -> reason <> GEM_STOP_HOST_RETURN) -> reason <> GEM_STOP_ARCH_TRANSITION ->
  xr_transaction r = None -> x64_view c i ->
  triple (st pins L) (x64_run_loop n reason r i c retired) (loop_post n r c retired).
Proof.
  revert reason r i c retired. induction n as [|n IH]; intros reason r i c retired Hreason Harch Ht Hview;
    cbn [x64_run_loop].
  { apply triple_ret. intros m Hm. split_and!; try done; eauto; try lia; naive_solver. }
  assert (forall reason' r', (reason' = GEM_STOP_HOST_RETURN -> c_pc c = xc_host_return_sentinel (xr_config r)) ->
    reason' <> GEM_STOP_NONE -> reason' <> GEM_STOP_BUDGET_EXPIRED -> reason' <> GEM_STOP_ARCH_TRANSITION ->
    xr_transaction r' = None -> xr_config r' = xr_config r -> xr_backend_failed r' = xr_backend_failed r ->
    triple (st pins L) (mret (reason', r', c, retired)) (loop_post (S n) r c retired)) as Hstop.
  { intros reason' r' H1 H2 H3 H3' H4 H5 H6. apply triple_ret. intros m Hm.
    split_and!; try done; eauto; try lia; naive_solver. }
  destruct (Z.eqb_spec (x_rip i) (xc_host_return_sentinel (xr_config r))) as [Hrip|Hrip].
  { apply Hstop; try done. intros _. by rewrite <- (x64_view_pc c i). }
  destruct (exchange_false _) as [stop flag]. destruct stop; [by apply Hstop|].
  destruct (negb _); [by apply Hstop|].
  eapply triple_bind; [apply begin_owned|]. intros [t|];
    [|eapply triple_conseq; [by apply Hstop| |intros ? ? HQ; exact HQ]; intros m Hm;
      exact (proj1 (st_pins_nil pins L m) Hm)].
  eapply triple_bind; [apply (x64_blink_step_triple (set_transaction (set_async r flag) (Some t)))|].
  intros [[[reason' r'] out] one]. cbv beta.
  apply triple_pre. intros m ([(Hc & Hrun & Hbf & Has) Hst] & Hne1 & Hne2 & Hne3 & Hne4 & Hout).
  cbn [xr_config xr_running xr_backend_failed set_transaction set_async] in *.
  eapply triple_bind.
  { eapply triple_conseq; [apply (end_owned pins L (xr_transaction r') Hp)|by intros m' ->|].
    intros u m' Hm. exact (proj1 (st_pins_nil pins L m') Hm). }
  intros u. destruct (bool_decide_reflect (reason' = GEM_STOP_NONE)) as [->|Hnone]; cbn [negb];
    [|apply Hstop; done].
  destruct (Hout eq_refl) as (o & -> & Ho). destruct (Z.eqb_spec one 1); cbn [negb]; [|by apply Hstop].
  destruct (x64_commit_view c i o Hview (proj1 Ho)) as [-> | (d & -> & Hd & Hf & Hwf)]; [by apply Hstop|].
  cbn [xr_config set_transaction]. rewrite Hc.
  destruct (Z.eqb_spec (c_pc d) (xc_host_return_sentinel (xr_config r))) as [Hpc|Hpc].
  - apply triple_ret. intros m' Hm'. split_and!; try done; eauto; try lia; naive_solver.
  - eapply triple_conseq; [apply (IH GEM_STOP_NONE (set_transaction r' None) o d (retired + 1)); done|done|].
    intros [[[reason2 r2] c2] ret2] m' (? & ? & Hc2 & ? & Hf2 & ? & ? & ? & Hwf2 & ? & H7 & H8).
    cbn [xr_config xr_backend_failed set_transaction] in *. rewrite Hc in *.
    split_and!; try done; [congruence|by etrans|lia|lia|lia|auto|].
    intros H9. specialize (H7 H9). lia.
Qed.
End safety.

(** ** Runs *)

(** The runtime after the entry of a run. *)
Definition entered (r : gem_x64_runtime) (running : bool) : gem_x64_runtime :=
  set_running (set_last_instruction (set_last_stop r x64_stop_zero) false false) running.
Definition stopped_at_entry (r : gem_x64_runtime) (reason : gem_stop_reason) : gem_x64_runtime :=
  set_last_stop (entered r (xr_running r)) (stop_with_reason x64_stop_zero reason).

(** A run that passes its entry checks. *)
Definition x64_accepts (r : gem_x64_runtime) (d : gem_thread_context) (budget : Z) : Prop :=
  xr_running r = false /\ xr_backend_failed r = false /\
  gem_context_is_valid (Some d) = true /\ c_isa d = GEM_ISA_X64 /\
  (xc_max_budget (xr_config r) = 0 \/ budget <= xc_max_budget (xr_config r)).

(** The reason before the first instruction is never the one reported. *)
Lemma loop_reason n b r i c retired :
  x64_run_loop (S n) b r i c retired = x64_run_loop (S n) GEM_STOP_NONE r i c retired.
Proof. done. Qed.

Lemma run_accepted r d budget m :
  0 <= budget -> x64_accepts r d budget ->
  exists i, gem_context_x64_materialize (Some d) true = Some i /\
    gem_x64_runtime_run (Some r) (Some d) budget m =
      if budget =? 0
      then Ok ((GEM_STOP_BUDGET_EXPIRED, Some (stopped_at_entry r GEM_STOP_BUDGET_EXPIRED),
                Some (with_stop_reason d GEM_STOP_BUDGET_EXPIRED)), m)
      else
        ('(reason, r, d, retired) ←
           x64_run_loop (Z.to_nat budget) GEM_STOP_NONE (entered r true) i d 0;
         let '(reason, r, d) := x64_run_finish reason r d retired in
         mret (reason, Some r, Some d)) m.
Proof.
  intros Hpos (Hrun & Hbf & Hv & Hi & Hb). eexists. split; [by apply materialize_spec|].
  unfold gem_x64_runtime_run. cbn [xr_running xr_backend_failed xr_config set_last_instruction set_last_stop].
  rewrite Hrun, Hbf. cbn [orb].
  erewrite (proj2 (materialize_spec d _)) by done.
  assert (negb (xc_max_budget (xr_config r) =? 0) && (xc_max_budget (xr_config r) <? budget) = false) as ->.
  { apply andb_false_iff. destruct Hb as [->|]; [by left|right; by apply Z.ltb_ge]. }
  destruct (Z.eqb_spec budget 0); [done|]. destruct (Z.to_nat budget) eqn:E; [lia|].
  by rewrite loop_reason.
Qed.

Lemma run_rejected r c budget m :
  (forall d, c = Some d -> ~ x64_accepts r d budget) ->
  gem_x64_runtime_run (Some r) c budget m =
    Ok ((GEM_STOP_INVARIANT_VIOLATION, Some (stopped_at_entry r GEM_STOP_INVARIANT_VIOLATION), c), m).
Proof.
  intros Hn. unfold gem_x64_runtime_run.
  cbn [xr_running xr_backend_failed xr_config set_last_instruction set_last_stop].
  assert (forall b, set_last_stop (set_last_instruction (set_last_stop r x64_stop_zero) false false)
    (stop_with_reason (xr_last_stop (set_last_instruction (set_last_stop r x64_stop_zero) false false)) b)
    = stopped_at_entry r b) as Hst by (intros b; reflexivity).
  destruct (xr_running r) eqn:Hrun; cbn [orb]; [by rewrite <- Hst|].
  destruct (xr_backend_failed r) eqn:Hbf; [by rewrite <- Hst|].
  destruct c as [d|]; [|by rewrite <- Hst].
  destruct (gem_context_x64_materialize (Some d) true) as [i|] eqn:Hi; [|by rewrite <- Hst].
  apply materialize_spec in Hi as (Hv & Hisa & _).
  destruct (negb _ && _) eqn:Hb; [by rewrite <- Hst|]. destruct (Hn d eq_refl). split_and!; try done.
  apply andb_false_iff in Hb as [Hb|Hb]; bool_to_Z; auto.
Qed.

#[export] Instance x64_accepts_dec r d budget : Decision (x64_accepts r d budget).
Proof. unfold x64_accepts; apply _. Defined.

(** What a run that was accepted leaves of its context. *)
Definition x64_finished (r : gem_x64_runtime) (d : gem_thread_context) (budget : Z) (reason : gem_stop_reason)
    (r1 : gem_x64_runtime) (d' : gem_thread_context) : Prop :=
  let retired := xs_instructions_retired (xr_last_stop r1) in
  0 <= retired <= budget /\
  reason <> GEM_STOP_NONE /\ reason <> GEM_STOP_ARCH_TRANSITION /\
  (reason = GEM_STOP_BUDGET_EXPIRED -> retired = budget) /\
  x64_frame d d' /\ (context_wf d -> context_wf d') /\
  (exists i, gem_context_x64_materialize (Some d') true = Some i) /\
  (reason = GEM_STOP_HOST_RETURN -> c_pc d' = xc_host_return_sentinel (xr_config r)) /\
  (reason <> GEM_STOP_INVARIANT_VIOLATION -> c_stop_reason d' = stop_value reason).

(** What a run leaves of its runtime. *)
Definition x64_left (r r1 : gem_x64_runtime) : Prop :=
  xr_transaction r1 = None /\ xr_running r1 = xr_running r /\ xr_config r1 = xr_config r /\
  xr_backend_failed r1 = xr_backend_failed r.

Lemma x64_run_inside pins L r d budget m :
  (forall b, 0 <= pins b) -> 0 <= budget -> xr_transaction r = None -> st pins L m ->
  length (c_x d) = 31%nat -> x64_accepts r d budget ->
  match gem_x64_runtime_run (Some r) (Some d) budget m with
  | Fault => False
  | Err _ => True
  | Ok ((reason, r', c'), m') =>
    st pins L m' /\ exists r1 d', r' = Some r1 /\ c' = Some d' /\ x64_left r r1 /\
      xs_reason (xr_last_stop r1) = reason /\ x64_finished r d budget reason r1 d'
  end.
Proof.
  intros Hp Hb Ht Hst Hlen Ha.
  destruct (run_accepted r d budget m Hb Ha) as (i & Hi & ->).
  destruct (Z.eqb_spec budget 0) as [->|Hb0].
  { split; [done|]. eexists _, (with_stop_reason d GEM_STOP_BUDGET_EXPIRED).
    split; [done|]. split; [done|]. split; [done|]. split; [done|].
    split_and!; try done; [apply with_stop_reason_wf|]. eexists. by rewrite materialize_stop_reason. }
  unfold mbind, M_bind.
  assert (x64_view d i) as Hview.
  { split_and!; [done| |done]. apply materialize_spec in Hi as (_ & _ & ->).
    unfold gpr_from_context; cbn [x_gpr]. by rewrite !length_insert, length_replicate. }
  pose proof (x64_run_loop_triple pins L Hp (Z.to_nat budget) GEM_STOP_NONE
    (entered r true) i d 0 ltac:(done) ltac:(done) Ht Hview m Hst) as Hloop.
  destruct (x64_run_loop _ _ _ _ _ _ m) as [[[[[reason r'] d'] retired] m']| |]; [|done..].
  destruct Hloop as (Hst' & Ht' & Hc & Hbf & Hf & (i' & Hx' & _ & Hi') & Hret & Hsame & Hwf & Harch & Hexp & Hpc).
  rewrite Z2Nat.id, Z.add_0_l in * by lia. unfold x64_run_finish.
  set (final := if bool_decide (reason = GEM_STOP_NONE) then _ else _).
  assert (final <> GEM_STOP_NONE /\ final <> GEM_STOP_ARCH_TRANSITION /\ (final = GEM_STOP_BUDGET_EXPIRED -> retired = budget) /\
    (final = GEM_STOP_HOST_RETURN -> reason = GEM_STOP_HOST_RETURN)) as (H1 & H1' & H2 & H3).
  { subst final. destruct (bool_decide_reflect (reason = GEM_STOP_NONE)); naive_solver. }
  clearbody final. split; [done|].
  set (d2 := if bool_decide _ then _ else _).
  assert (d2 = d' \/ d2 = with_stop_reason d' final) as Hd2 by (subst d2; destruct (bool_decide _); auto).
  assert (x64_frame d' d2 /\ gem_context_x64_materialize (Some d2) true = Some i' /\
    (context_wf d' -> context_wf d2)) as (Hf2 & Hi2 & Hwf2).
  { destruct Hd2 as [-> | ->]; [done|]. split; [apply with_stop_reason_frame|].
    rewrite materialize_stop_reason. split; [done|]. apply with_stop_reason_wf. }
  eexists _, d2. split; [done|]. split; [done|]. split; [split_and!; [done|symmetry; apply Ha|done|done]|].
  split; [done|]. unfold x64_finished. cbn [xs_instructions_retired xr_last_stop set_last_stop stop_with_retired].
  split_and!; try done; try lia; [by etrans|auto|eauto| |].
  - intros Hh. specialize (Hpc (H3 Hh)). by destruct Hd2 as [-> | ->].
  - intros Hh. subst d2. by rewrite bool_decide_false.
Qed.

(** C12: a run of the x64 engine, whatever the emulator does through its
    callbacks, never reaches undefined behaviour and closes the transaction of
    every instruction: reference counts stay exact and no reservation changes.
    A refused run changes nothing.  Otherwise the run retires at most [budget]
    instructions, all of them exactly when it reports an expired budget; it
    touches only what the x64 view shows, keeps every field in its C type,
    leaves a context that can run again, and stops with the reason it records
    there; a host return is reported only at the sentinel. *)
Theorem x64_run_contract pins r c budget m :
  (forall b, 0 <= pins b) -> 0 <= budget -> xr_transaction r = None -> inv pins m ->
  (forall d, c = Some d -> length (c_x d) = 31%nat) ->
  match gem_x64_runtime_run (Some r) c budget m with
  | Fault => False
  | Err _ => True
  | Ok ((reason, r', c'), m') =>
    inv pins m' /\ layout m' = layout m /\
    exists r1, r' = Some r1 /\ x64_left r r1 /\ xs_reason (xr_last_stop r1) = reason /\
      match c with
      | Some d =>
        if bool_decide (x64_accepts r d budget)
        then exists d', c' = Some d' /\ x64_finished r d budget reason r1 d'
        else reason = GEM_STOP_INVARIANT_VIOLATION /\
             xs_instructions_retired (xr_last_stop r1) = 0 /\ c' = c /\ m' = m
      | None => reason = GEM_STOP_INVARIANT_VIOLATION /\
                xs_instructions_retired (xr_last_stop r1) = 0 /\ c' = c /\ m' = m
      end
  end.
Proof.
  intros Hp Hb Ht Hinv Hlen. destruct (inv_layout _ _ Hinv) as [Hst HL].
  destruct c as [d|]; [|rewrite run_rejected by done; split_and!; try done; eexists; by split_and!].
  destruct (bool_decide_reflect (x64_accepts r d budget)) as [Ha|Ha];
    [|rewrite run_rejected by naive_solver; split_and!; try done; eexists; by split_and!].
  pose proof (x64_run_inside pins (layout m) r d budget m Hp Hb Ht Hst (Hlen d eq_refl) Ha) as H.
  destruct (gem_x64_runtime_run _ _ _ m) as [[[[reason r'] c'] m']| |]; [|done..].
  destruct H as (Hst' & r1 & d' & -> & -> & Hl & Hr & Hfin).
  split; [by exists (layout m)|]. split; [by apply (st_layout pins)|]. exists r1. split_and!; try done. by exists d'.
Qed.
End runs.

(** ** A concrete emulator *)

(** Every instruction is sixteen bytes long and increments the first byte of
    its own page. *)
Definition bump (data : list Z) : list Z :=
  match data with b :: data => wrap8 (b + 1) :: data | [] => [] end.
Definition with_rip (s : blink_gem_state) (rip : Z) : blink_gem_state :=
  BlinkState (s_gpr s) rip (s_rflags s) (s_xmm s) (s_mxcsr s) (s_fcw s) (s_fsw s) (s_x87 s)
    (s_gs_base s) (s_fs_base s) (s_ftw s) (s_fip s) (s_fdp s) (s_fcs s) (s_fds s) (s_fop s)
    (s_segments s).
Definition blink_fault (a : Z) (e : gem_memory_error) : blink_gem_result :=
  BlinkResult BLINK_GEM_MEMORY_FAULT 0 a BLINK_GEM_ACCESS_FETCH (memory_error_value e) 0.
Definition counting_step (s : blink_gem_state) : blink_run (unit * blink_gem_result * blink_gem_state) :=
  let page := s_rip s .&~ 4095 in
  BlinkSnapshot page (fun e data _ =>
    match e, data with
    | GEM_MEMORY_OK, Some data =>
      BlinkValidate (s_rip s) 16 BLINK_GEM_ACCESS_FETCH (fun e =>
        match e with
        | GEM_MEMORY_OK =>
          BlinkCommit [BlinkWrite page (bump data)] (fun e _ =>
            match e with
            | GEM_MEMORY_OK =>
              BlinkReturn (tt, BlinkResult BLINK_GEM_RETIRED 1 0 0 0 0, with_rip s (s_rip s + 16))
            | e => BlinkReturn (tt, blink_fault page e, s)
            end)
        | e => BlinkReturn (tt, blink_fault page e, s)
        end)
    | e, _ => BlinkReturn (tt, blink_fault page e, s)
    end).
Definition counting : Blink :=
  {| blink_machine := unit;
     blink_gem_machine_create_with_config _ _ := Some tt;
     blink_gem_machine_step _ := counting_step;
     blink_gem_machine_run _ _ := counting_step;
     blink_gem_machine_sync g := BlinkReturn g;
     blink_gem_machine_decode_attempt_info _ := None;
     blink_gem_machine_invalidate_code _ _ _ := (true, tt);
     blink_gem_machine_trace_reset g := g |}.

(** One writable page of code. *)
Definition code_page : mem :=
  wd_memory (history (littered 0) (EvCall <$>
    [CallReserve (Some 0x140001000) 4096; CallCommit 0x140001000 4096 GEM_PAGE_EXECUTE_READWRITE])).
Definition counting_config : gem_x64_runtime_config := X64Config 0x140001030 0 0 0 0 0.
Definition counting_runtime : gem_x64_runtime (blink := counting) :=
  X64Runtime (blink := counting) (default x64_config_zero (x64_configure (Some counting_config)))
    x64_stop_zero tt None false false false false (AtomicFlag false []).

(** The reason, the instructions retired, the program counter and the first
    byte of the page. *)
Definition counting_run (budget : Z) : option (gem_stop_reason * Z * Z * option Z) :=
  match gem_x64_runtime_run (platform := littered 0) (blink := counting)
          (Some counting_runtime) (Some witness_x64_context) budget code_page with
  | Ok ((reason, Some r, Some c), m) =>
      Some (reason, xs_instructions_retired (xr_last_stop r), c_pc c, view m 0x140001000 ≫= head)
  | _ => None
  end.

Lemma code_page_inv : inv no_pins code_page.
Proof.
  assert (world_inv (history (littered 0) (EvCall <$>
    [CallReserve (Some 0x140001000) 4096; CallCommit 0x140001000 4096 GEM_PAGE_EXECUTE_READWRITE]))) as (L & Hst & HL).
  { apply history_inv; [apply (bool_decide_unpack _); vm_compute; exact I|vm_compute; reflexivity..]. }
  exists L. split; [|done]. revert Hst. apply st_pins_eq. intros b. unfold pins_add. vm_compute. by destruct (no_pins b).
Qed.

Lemma x64_run_contract_witness :
  counting_run 2 = Some (GEM_STOP_BUDGET_EXPIRED, 2, 0x140001020, Some 2) /\
  counting_run 9 = Some (GEM_STOP_HOST_RETURN, 3, 0x140001030, Some 3) /\
  exists reason r c m,
    gem_x64_runtime_run (platform := littered 0) (blink := counting)
      (Some counting_runtime) (Some witness_x64_context) 9 code_page = Ok ((reason, r, c), m) /\
    inv no_pins m.
Proof.
  split; [vm_compute; reflexivity|]. split; [vm_compute; reflexivity|].
  assert (exists reason r c m, gem_x64_runtime_run (platform := littered 0) (blink := counting)
    (Some counting_runtime) (Some witness_x64_context) 9 code_page = Ok ((reason, r, c), m)) as (reason & r & c & m & E).
  { eexists _, _, _, _. vm_compute. reflexivity. }
  pose proof (x64_run_contract (platform := littered 0) (blink := counting) no_pins counting_runtime
    (Some witness_x64_context) 9 code_page no_pins_nonneg ltac:(lia) eq_refl code_page_inv) as H.
  rewrite E in H. exists reason, r, c, m. split; [exact E|]. apply H.
  intros d [= <-]. reflexivity.
Defined.
