(* ===== verification/X64EngineSlices.v ===== *)
(** X64EngineSlices: running with a budget of n and, when it expires, again with
    a budget of k is running with a budget of n + k. *)
From S2P Require Import Prelude Context Conversion MemoryModel Memory MemoryLogic MemoryInv.
From S2P Require Import Transaction TransactionWorld Blink X64Engine X64EngineProperties.

(** Two outcomes that both fault, both abort, or both return related values in
    the same memory. *)
Definition outcomes {A} (R : A -> A -> Prop) (x y : result unit (A * mem)) : Prop :=
  match x, y with
  | Ok (a, m), Ok (b, m') => R a b /\ m = m'
  | Err _, Err _ => True
  | Fault, Fault => True
  | _, _ => False
  end.

Lemma outcomes_bind {A B} (R : A -> A -> Prop) (Q : B -> B -> Prop) (f g : M A) (h h' : A -> M B) m :
  outcomes R (f m) (g m) -> (forall a b m, R a b -> outcomes Q (h a m) (h' b m)) ->
  outcomes Q ((f ≫= h) m) ((g ≫= h') m).
Proof.
  intros Hfg Hh. unfold mbind, M_bind.
  destruct (f m) as [[a m1]| |], (g m) as [[b m2]| |]; cbn in *; try done.
  destruct Hfg as [Hab ->]. by apply Hh.
Qed.

Lemma outcomes_eq {A} (x : result unit (A * mem)) : outcomes eq x x.
Proof. by destruct x as [[a m]| |]. Qed.

(** [c->stop_reason = z] *)
Definition restop (c : gem_thread_context) (z : Z) : gem_thread_context :=
  ThreadContext (c_layout_version c) (c_context_size c) (c_x c) (c_sp c) (c_pc c) (c_nzcv c)
    (c_fpcr c) (c_fpsr c) (c_reserved0 c) (c_v c) (c_x64_rflags c) (c_x64_mxcsr c) (c_x64_fcw c)
    (c_x64_fsw c) (c_x87 c) (c_teb c) (c_original_x64_sp c) (c_transition_cookie c) (c_isa c) z.

(** Contexts that differ in their stop reason at most. *)
Definition same_context (c d : gem_thread_context) : Prop := d = restop c (c_stop_reason d).

Lemma restop_same c z : same_context c (restop c z).
Proof. done. Qed.

Lemma commit_same out c d :
  same_context c d ->
  match gem_context_x64_commit (Some out) (Some c), gem_context_x64_commit (Some out) (Some d) with
  | (true, Some c'), (true, Some d') => same_context c' d'
  | (false, _), (false, _) => True
  | _, _ => False
  end.
Proof.
  intros ->. generalize (c_stop_reason d). intros z. unfold gem_context_x64_commit.
  change (gem_context_is_valid (Some (restop c z))) with (gem_context_is_valid (Some c)).
  cbn [c_isa c_teb restop]. destruct (negb _ || _ || _); [done|].
  change (gem_context_is_valid (Some (x64_commit_result out (restop c z))))
    with (gem_context_is_valid (Some (x64_commit_result out c))).
  by destruct (negb _).
Qed.

Section slices.
Context {platform : Platform} {blink : Blink}.

(** The runtime without its report on the last run. *)
Definition relabel (s : gem_x64_stop_info) (call ret : bool) (r : gem_x64_runtime) : gem_x64_runtime :=
  set_last_instruction (set_last_stop r s) call ret.
Definition same_engine (r r' : gem_x64_runtime) : Prop :=
  relabel x64_stop_zero false false r = relabel x64_stop_zero false false r'.

Lemma same_engine_relabel r r' :
  same_engine r r' -> exists s call ret, r' = relabel s call ret r.
Proof.
  destruct r, r'. intros [= -> -> -> -> -> ->].
  by eexists _, _, _.
Qed.

#[local] Instance same_engine_equivalence : Equivalence same_engine.
Proof. split; [by intros r|by intros r r'|intros a b c; unfold same_engine; congruence]. Qed.

Ltac run_outcome f :=
  unfold mbind, M_bind; destruct f as [[? ?]| |]; [|done..].

Lemma run_blink_same {A} (t : blink_run A) r r' m :
  same_engine r r' ->
  outcomes (fun x y => x.1 = y.1 /\ same_engine x.2 y.2)
    (run_blink x64_callbacks t r m) (run_blink x64_callbacks t r' m).
Proof.
  intros (s & call & ret & ->)%same_engine_relabel. revert r m.
  induction t as [a|a k IH|a n x k IH|ws k IH|k IH]; intros r m; cbn [run_blink]; [done|..];
    cbn [cb_snapshot cb_validate cb_commit cb_async_stop x64_callbacks].
  - unfold x64_snapshot, mbind, M_bind. cbn [xr_transaction relabel set_last_instruction set_last_stop].
    destruct (gem_memory_transaction_snapshot_page _ _ _ _ m) as [[[[e t] o] m']| |]; [|done..]. apply IH.
  - unfold x64_validate, mbind, M_bind. cbn [xr_transaction relabel set_last_instruction set_last_stop].
    destruct (gem_memory_transaction_validate _ _ _ _ _ m) as [[[e t] m']| |]; [|done..]. apply IH.
  - unfold x64_commit. destruct (bool_decide _); [apply IH|]. unfold mbind, M_bind.
    destruct (alloc m) as [[[p|] m']| |]; [|apply IH|done..]. destruct (negb _); [apply IH|].
    cbn [xr_transaction relabel set_last_instruction set_last_stop].
    destruct (gem_memory_transaction_commit_pages _ _ _ m') as [[[[[e f] t] n] m2]| |]; [|done..]. apply IH.
  - apply IH.
Qed.

Definition same_step (x y : gem_stop_reason * gem_x64_runtime * option gem_x64_context * Z) : Prop :=
  x.1.1.1 = y.1.1.1 /\ same_engine x.1.1.2 y.1.1.2 /\ x.1.2 = y.1.2 /\ x.2 = y.2.

Lemma step_same r r' i m :
  same_engine r r' -> outcomes same_step (gem_x64_blink_step r i m) (gem_x64_blink_step r' i m).
Proof.
  intros Hr. unfold gem_x64_blink_step, x64_machine_step.
  assert (xr_backend r' = xr_backend r) as ->.
  { by apply same_engine_relabel in Hr as (s & call & ret & ->). }
  eapply (outcomes_bind (fun x y => x.1 = y.1 /\ same_engine x.2 y.2)).
  - eapply outcomes_bind; [by apply run_blink_same|].
    intros [[[g br] bo] r1] [[[g' br'] bo'] r1'] m1 [[= <- <- <-] Hr1]. cbn [snd] in Hr1. split; [|done]. split; [done|].
    apply same_engine_relabel in Hr1 as (s & call & ret & ->). done.
  - intros [[br bo] r1] [[br' bo'] r1'] m1 [[= <- <-] Hr1]. cbn [snd] in *.
    apply same_engine_relabel in Hr1 as (s & call & ret & ->).
    set (attempt := blink_gem_machine_decode_attempt_info _).
    change (blink_gem_machine_decode_attempt_info _) with attempt. clearbody attempt.
    destruct (br_outcome br); try done.
    + destruct (br_retired br =? 1); [|done]. destruct attempt as [a|]; [|done].
      by destruct (da_valid a).
    + destruct (attempted attempt "OpInterrupt3"); [done|]. by destruct (attempted attempt "OpSyscall").
Qed.

(** The end of a loop, [d] instructions further on. *)
Definition same_loop (d : Z) (x y : gem_stop_reason * gem_x64_runtime * gem_thread_context * Z) : Prop :=
  x.1.1.1 = y.1.1.1 /\ same_engine x.1.1.2 y.1.1.2 /\ same_context x.1.2 y.1.2 /\ x.2 = d + y.2.

Lemma loop_same d n r r' i c c' retired m :
  same_engine r r' -> same_context c c' ->
  outcomes (same_loop d) (x64_run_loop n GEM_STOP_NONE r i c (d + retired) m)
    (x64_run_loop n GEM_STOP_NONE r' i c' retired m).
Proof.
  revert r r' i c c' retired m. induction n as [|n IH]; intros r r' i c c' retired m Hr Hc;
    cbn [x64_run_loop]; [done|].
  assert (xr_config r' = xr_config r /\ xr_async_stop_requested r' = xr_async_stop_requested r /\
    forall pc, boundary_status r' pc = boundary_status r pc) as (-> & -> & Hb).
  { by apply same_engine_relabel in Hr as (s & call & ret & ->). }
  destruct (x_rip i =? _); [done|].
  destruct (exchange_false _) as [stop flag].
  assert (forall t, same_engine (set_transaction (set_async r flag) t) (set_transaction (set_async r' flag) t)) as Ht.
  { by apply same_engine_relabel in Hr as (s & call & ret & ->). }
  assert (same_engine (set_async r flag) (set_async r' flag)) as Ha.
  { by apply same_engine_relabel in Hr as (s & call & ret & ->). }
  destruct stop; [done|]. change (boundary_status (set_async r' flag) (x_rip i)) with (boundary_status r' (x_rip i)).
  rewrite Hb. change (boundary_status (set_async r flag) (x_rip i)) with (boundary_status r (x_rip i)).
  destruct (negb _).
  { split; [|done]. by split_and!. }
  eapply (outcomes_bind eq); [apply outcomes_eq|]. intros t _ m1 <-. destruct t as [t|]; [|by split; [split_and!; try apply (Ht None)|]].
  eapply outcomes_bind; [by apply step_same|].
  intros [[[reason r1] o] one] [[[reason' r1'] o'] one'] m2 (H1 & H2 & H3 & H4). cbn [fst snd] in *. subst.
  assert (xr_transaction r1' = xr_transaction r1 /\ xr_config r1' = xr_config r1) as [-> Hcfg].
  { by apply same_engine_relabel in H2 as (s & call & ret & ->). }
  assert (same_engine (set_transaction r1 None) (set_transaction r1' None)) as Hr1.
  { by apply same_engine_relabel in H2 as (s & call & ret & ->). }
  eapply (outcomes_bind eq); [apply outcomes_eq|]. intros u _ m3 <-. clear u.
  destruct (bool_decide_reflect (reason' = GEM_STOP_NONE)) as [->|]; cbn [negb]; [|done].
  destruct (negb _); [done|]. destruct o' as [o|]; [|done].
  pose proof (commit_same o c c' Hc) as Hcom. cbn [xr_config set_transaction]. rewrite Hcfg.
  destruct (gem_context_x64_commit (Some o) (Some c)) as [[] [c1|]],
    (gem_context_x64_commit (Some o) (Some c')) as [[] [c1'|]]; try done.
  assert (c_pc c1' = c_pc c1) as -> by by rewrite Hcom.
  rewrite <- Z.add_assoc. destruct (c_pc c1 =? _); [done|]. by apply IH.
Qed.

Lemma run_blink_frame {A} (t : blink_run A) r m a r' m' :
  run_blink x64_callbacks t r m = Ok ((a, r'), m') -> step_frame r r'.
Proof.
  revert r m. induction t as [b|b k IH|b n x k IH|ws k IH|k IH]; intros r m; cbn [run_blink];
    [by intros [= <- <- <-]|..]; cbn [cb_snapshot cb_validate cb_commit cb_async_stop x64_callbacks].
  - unfold x64_snapshot, mbind, M_bind.
    destruct (gem_memory_transaction_snapshot_page _ _ _ _ m) as [[[[e t] o] m1]| |]; [|done..]. apply IH.
  - unfold x64_validate, mbind, M_bind.
    destruct (gem_memory_transaction_validate _ _ _ _ _ m) as [[[e t] m1]| |]; [|done..]. apply IH.
  - unfold x64_commit. destruct (bool_decide _); [apply IH|]. unfold mbind, M_bind.
    destruct (alloc m) as [[[p|] m1]| |]; [|apply IH|done..]. destruct (negb _); [apply IH|].
    destruct (gem_memory_transaction_commit_pages _ _ _ m1) as [[[[[e f] t] n] m2]| |]; [|done..]. apply IH.
  - apply IH.
Qed.

Lemma step_facts r i m reason o r' one m' :
  gem_x64_blink_step r i m = Ok ((reason, r', o, one), m') ->
  step_frame r r' /\ reason <> GEM_STOP_BUDGET_EXPIRED /\
  (forall i', o = Some i' -> length (x_gpr i') = 16%nat).
Proof.
  unfold gem_x64_blink_step, x64_machine_step, mbind, M_bind. intros H.
  destruct (run_blink x64_callbacks _ r m) as [[[[[g br] bo] r1] m1]| |] eqn:E; [|done..].
  apply run_blink_frame in E as (? & ? & ? & ?). cbn in H.
  destruct (br_outcome br); try (by injection H as <- <- <- <- <-).
  - injection H as <- <- <- <- <-. split; [|split].
    + destruct (br_retired br =? 1); [|done]. destruct (blink_gem_machine_decode_attempt_info g) as [d|]; [|done].
      by destruct (da_valid d).
    + by destruct (_ =? _).
    + intros i' [= <-]. cbn [x64_export x_gpr]; rewrite length_fmap; apply length_array.
  - destruct (attempted _ "OpInterrupt3"); [by injection H as <- <- <- <- <-|].
    by destruct (attempted _ "OpSyscall"); injection H as <- <- <- <- <-.
Qed.

(** A loop that ends by its condition is the first part of a longer one; one
    that stops before is all of it. *)
Lemma loop_split n k r i c retired m :
  x64_view c i ->
  match x64_run_loop n GEM_STOP_NONE r i c retired m with
  | Ok ((GEM_STOP_NONE, r1, c1, retired1), m1) =>
      retired1 = retired + Z.of_nat n /\ xr_config r1 = xr_config r /\ xr_running r1 = xr_running r /\
      xr_backend_failed r1 = xr_backend_failed r /\ exists i1, x64_view c1 i1 /\
        x64_run_loop (n + k) GEM_STOP_NONE r i c retired m =
          x64_run_loop k GEM_STOP_NONE r1 i1 c1 retired1 m1
  | Ok ((GEM_STOP_BUDGET_EXPIRED, _, _, _), _) => False
  | x => x64_run_loop (n + k) GEM_STOP_NONE r i c retired m = x
  end.
Proof.
  revert r i c retired m. induction n as [|n IH]; intros r i c retired m Hv.
  { cbn. split_and!; [lia|done|done|done|]. by exists i. }
  cbn [x64_run_loop Nat.add]. destruct (x_rip i =? _); [done|].
  destruct (exchange_false _) as [stop flag]. destruct stop; [done|]. destruct (negb _); [done|].
  unfold mbind, M_bind. destruct (gem_memory_transaction_begin m) as [[[t|] m1]| |]; [|done..].
  destruct (gem_x64_blink_step _ i m1) as [[[[[reason r1] o] one] m2]| |] eqn:Hstep; [|done..].
  apply step_facts in Hstep as ((Hc & Hrun & Hbf & _) & Hne & Ho).
  destruct (gem_memory_transaction_end _ m2) as [[u m3]| |]; [|done..].
  destruct (bool_decide_reflect (reason = GEM_STOP_NONE)) as [->|]; cbn [negb]; [|by destruct reason].
  destruct (negb _); [done|]. destruct o as [o|]; [|done].
  destruct (x64_commit_view c i o Hv (Ho _ eq_refl)) as [-> | (d & -> & Hd & _)]; [done|].
  destruct (c_pc d =? _); [done|].
  specialize (IH (set_transaction r1 None) o d (retired + 1) m3 Hd).
  destruct (x64_run_loop n _ _ _ _ _ m3) as [[[[[reason2 r2] c2] ret2] m4]| |]; [|done..].
  destruct reason2; try done. destruct IH as (-> & Hc2 & Hrun2 & Hbf2 & i2 & Hv2 & ->).
  split_and!; [lia|by rewrite Hc2|by rewrite Hrun2|by rewrite Hbf2|]. by exists i2.
Qed.

(** ** Slices *)

Definition retired_by (r : option gem_x64_runtime) : Z :=
  from_option (fun r => xs_instructions_retired (xr_last_stop r)) 0 r.

(** A caller that gives the engine [n] instructions and then, if that budget
    expires, [k] more; with the number retired in all. *)
Definition x64_run_sliced (r : option gem_x64_runtime) (c : option gem_thread_context) (n k : Z)
  : M (gem_stop_reason * option gem_x64_runtime * option gem_thread_context * Z) :=
  '(reason, r, c) ← gem_x64_runtime_run r c n;
  if bool_decide (reason = GEM_STOP_BUDGET_EXPIRED) then
    '(reason', r', c') ← gem_x64_runtime_run r c k;
    mret (reason', r', c', retired_by r + retired_by r')
  else mret (reason, r, c, retired_by r).

Definition x64_run_counted (r : option gem_x64_runtime) (c : option gem_thread_context) (n : Z)
  : M (gem_stop_reason * option gem_x64_runtime * option gem_thread_context * Z) :=
  '(reason, r, c) ← gem_x64_runtime_run r c n; mret (reason, r, c, retired_by r).

(** The same reason, engine, context (but for the recorded reason when an
    invariant is violated) and number of instructions. *)
Definition same_run (x y : gem_stop_reason * option gem_x64_runtime * option gem_thread_context * Z) : Prop :=
  match x, y with
  | (reason, Some r, Some c, n), (reason', Some r', Some c', n') =>
      reason = reason' /\ same_engine r r' /\ same_context c c' /\
      (reason <> GEM_STOP_INVARIANT_VIOLATION -> c = c') /\ n = n'
  | _, _ => False
  end.

(** How a run ends. *)
Definition finish (x : gem_stop_reason * gem_x64_runtime * gem_thread_context * Z)
  : gem_stop_reason * option gem_x64_runtime * option gem_thread_context :=
  let '(reason, r, c, n) := x in
  let '(reason, r, c) := x64_run_finish reason r c n in (reason, Some r, Some c).

Lemma finish_same d x y :
  same_loop d x y ->
  same_run (finish x, retired_by (finish x).1.2) (finish y, d + retired_by (finish y).1.2).
Proof.
  destruct x as [[[reason r] c] n], y as [[[reason' r'] c'] n'].
  intros (H1 & H2 & H3 & H4). cbn [fst snd] in *. subst reason' n.
  unfold finish, x64_run_finish. set (final := if bool_decide (reason = GEM_STOP_NONE) then _ else _).
  clearbody final. split; [done|]. split; [|split; [|split; [|done]]].
  - by apply same_engine_relabel in H2 as (s & call & ret & ->).
  - destruct (bool_decide _); [done|]. by rewrite H3.
  - intros Hne. rewrite bool_decide_false by done. by rewrite H3.
Qed.

Lemma materialize_view c i :
  length (c_x c) = 31%nat -> gem_context_x64_materialize (Some c) true = Some i -> x64_view c i.
Proof.
  intros Hx Hi. split_and!; [done| |done]. apply materialize_spec in Hi as (_ & _ & ->).
  unfold gpr_from_context; cbn [x_gpr]. by rewrite !length_insert, length_replicate.
Qed.

(** A run from its entry to its result, in one equation. *)
Lemma run_accepted_finish r d budget m :
  0 < budget -> x64_accepts r d budget -> length (c_x d) = 31%nat ->
  exists i, x64_view d i /\
    gem_x64_runtime_run (Some r) (Some d) budget m =
      (x ← x64_run_loop (Z.to_nat budget) GEM_STOP_NONE (entered r true) i d 0; mret (finish x)) m.
Proof.
  intros Hb Ha Hx. destruct (run_accepted r d budget m ltac:(lia) Ha) as (i & Hi & ->).
  exists i. split; [by apply materialize_view|]. rewrite (proj2 (Z.eqb_neq budget 0)) by lia.
  unfold mbind, M_bind. destruct (x64_run_loop _ _ _ _ _ _ m) as [[[[[reason r'] d'] n] m']| |]; [|done..].
  unfold finish. by destruct (x64_run_finish reason r' d' n) as [[? ?] ?].
Qed.

(** The second slice goes on where the first one left the loop. *)
Lemma slice_tail d r0 r1 i c0 c1 k m :
  0 <= k -> x64_accepts r1 c1 k -> same_engine r0 (entered r1 true) -> same_context c0 c1 -> x64_view c0 i ->
  outcomes same_run
    ((x ← x64_run_loop (Z.to_nat k) GEM_STOP_NONE r0 i c0 d; mret (finish x, retired_by (finish x).1.2)) m)
    (('(reason, r, c) ← gem_x64_runtime_run (Some r1) (Some c1) k; mret (reason, r, c, d + retired_by r)) m).
Proof.
  intros Hk Ha Hr Hc Hv. assert (x64_view c1 i) as Hv1.
  { destruct Hv as (? & ? & ?). rewrite Hc. by split_and!. }
  destruct (Z.eqb_spec k 0) as [->|Hk0].
  - destruct (run_accepted r1 c1 0 m Hk Ha) as (i' & _ & Heq). unfold mbind at 2, M_bind at 2. rewrite Heq.
    split; [|done]. symmetry in Hr. apply same_engine_relabel in Hr as (s & call & ret & ->).
    split_and!; [done| | | |cbn; lia].
    + unfold same_engine, stopped_at_entry. by rewrite (proj1 Ha).
    + cbn. by rewrite Hc.
    + intros _. cbn. by rewrite Hc.
  - destruct (run_accepted_finish r1 c1 k m ltac:(lia) Ha (proj1 Hv1)) as (i' & (_ & _ & Hi') & Heq).
    destruct Hv1 as (_ & _ & Hi). rewrite Hi in Hi'. injection Hi' as <-.
    unfold mbind at 2, M_bind at 2. rewrite Heq. unfold mbind, M_bind.
    pose proof (loop_same d (Z.to_nat k) r0 (entered r1 true) i c0 c1 0 m Hr Hc) as Hl.
    rewrite Z.add_0_r in Hl.
    destruct (x64_run_loop _ _ _ _ _ d m) as [[x m1]| |], (x64_run_loop _ _ _ _ _ 0 m) as [[y m2]| |]; try done.
    destruct Hl as [Hxy%finish_same ->]. by destruct (finish y) as [[? ?] ?].
Qed.

(** C20: a run can be cut into slices: [n] instructions and, when that budget
    expires, [k] more have the same outcome as one run of [n + k] (the same stop
    reason, memory, machine, registers and number of instructions). *)
Theorem x64_run_slices r c n k m :
  0 <= n -> 0 <= k -> length (c_x c) = 31%nat -> x64_accepts r c (n + k) ->
  outcomes same_run (x64_run_counted (Some r) (Some c) (n + k) m)
    (x64_run_sliced (Some r) (Some c) n k m).
Proof.
  intros Hn Hk Hx Ha. assert (x64_accepts r c n) as Han.
  { destruct Ha as (? & ? & ? & ? & Hm). split_and!; try done. destruct Hm; [by left|right; lia]. }
  unfold x64_run_counted, x64_run_sliced.
  destruct (Z.eqb_spec n 0) as [->|Hn0].
  - rewrite Z.add_0_l in *. destruct (run_accepted r c 0 m Hn Han) as (i & Hi & Heq).
    assert (x64_accepts (stopped_at_entry r GEM_STOP_BUDGET_EXPIRED)
      (with_stop_reason c GEM_STOP_BUDGET_EXPIRED) k) as Ha'.
    { destruct Ha as (Hr & ? & ? & ? & Hm). by split_and!. }
    destruct (Z.eqb_spec k 0) as [->|Hk0].
    { unfold mbind, M_bind. rewrite Heq. destruct (run_accepted _ _ 0 m Hk Ha') as (? & _ & Heq').
      change (0 =? 0) with true. cbv beta iota. rewrite bool_decide_true by done. by rewrite Heq'. }
    destruct (run_accepted_finish r c k m ltac:(lia) Ha Hx) as (i' & Hv & Heq').
    pose proof (slice_tail 0 (entered r true) (stopped_at_entry r GEM_STOP_BUDGET_EXPIRED) i' c
      (with_stop_reason c GEM_STOP_BUDGET_EXPIRED) k m Hk Ha' eq_refl eq_refl Hv) as Htail.
    revert Htail. unfold mbind, M_bind. rewrite Heq, Heq'. unfold mbind, M_bind.
    change (0 =? 0) with true. cbv beta iota. rewrite bool_decide_true by done.
    change (retired_by (Some (stopped_at_entry r GEM_STOP_BUDGET_EXPIRED))) with 0.
    destruct (x64_run_loop _ _ _ _ _ _ m) as [[x m']| |]; cbv beta iota; [|done..].
    by destruct (finish x) as [[? ?] ?].
  - destruct (run_accepted_finish r c n m ltac:(lia) Han Hx) as (i & Hv & Heq).
    destruct (run_accepted_finish r c (n + k) m ltac:(lia) Ha Hx) as (i' & (_ & _ & Hi) & Heq').
    rewrite (proj2 (proj2 Hv)) in Hi. injection Hi as <-. rewrite Z2Nat.inj_add in Heq' by lia.
    pose proof (loop_split (Z.to_nat n) (Z.to_nat k) (entered r true) i c 0 m Hv) as Hsplit.
    unfold mbind, M_bind. rewrite Heq, Heq'. unfold mbind, M_bind.
    destruct (x64_run_loop (Z.to_nat n) _ _ _ _ _ m) as [[[[[reason r1] c1] ret1] m1]| |];
      [|by rewrite Hsplit..].
    destruct (bool_decide_reflect (reason = GEM_STOP_NONE)) as [->|Hne].
    + destruct Hsplit as (-> & Hc & Hrun & Hbf & i1 & Hv1 & ->). rewrite Z2Nat.id, Z.add_0_l by done.
      destruct (finish (GEM_STOP_NONE, r1, c1, n)) as [[reason [rf|]] [cf|]] eqn:Hf; try discriminate Hf.
      injection Hf as <- Hrf Hcf. assert (x64_accepts rf cf k) as Hakf.
      { destruct Ha as (_ & Hbr & _ & _ & Hm). destruct Hv1 as (_ & _ & (Hvc & Hic & _)%materialize_spec).
        subst rf cf. split_and!; [done|by rewrite <- Hbr|by destruct c1|done|]. change (xr_config _) with (xr_config r1).
        rewrite Hc. change (xr_config _) with (xr_config r). destruct Hm; [by left|right; lia]. }
      assert (same_engine r1 (entered rf true)) as Hsame.
      { subst rf. destruct r1. cbn in Hrun. by subst. }
      assert (same_context c1 cf) as Hctx by by subst cf.
      pose proof (slice_tail n r1 rf i1 c1 cf k m1 Hk Hakf Hsame Hctx Hv1) as Htail.
      revert Htail. unfold mbind, M_bind. cbn [mret M_ret]. rewrite bool_decide_true by done.
      assert (retired_by (Some rf) = n) as -> by by subst rf.
      destruct (x64_run_loop _ _ _ _ _ n m1) as [[x m']| |]; cbv beta iota; [|done..].
      by destruct (finish x) as [[? ?] ?].
    + assert (x64_run_loop (Z.to_nat n + Z.to_nat k) GEM_STOP_NONE (entered r true) i c 0 m =
        Ok (reason, r1, c1, ret1, m1)) as -> by by destruct reason.
      cbn [mret M_ret]. destruct (finish (reason, r1, c1, ret1)) as [[reason' [rf|]] [cf|]] eqn:Hf; try discriminate Hf.
      injection Hf as Hr' Hrf Hcf. rewrite bool_decide_false.
      { split; [|done]. split_and!; [done|done|by destruct cf|done|done]. }
      rewrite bool_decide_false in Hr' by done. subst reason'. by destruct reason.
Qed.
End slices.

Lemma x64_run_slices_witness :
  outcomes same_run
    (x64_run_counted (platform := littered 0) (blink := counting)
       (Some counting_runtime) (Some witness_x64_context) (1 + 4) code_page)
    (x64_run_sliced (platform := littered 0) (blink := counting)
       (Some counting_runtime) (Some witness_x64_context) 1 4 code_page) /\
  counting_run (1 + 4) = Some (GEM_STOP_HOST_RETURN, 3, 0x140001030, Some 3).
Proof.
  split; [|vm_compute; reflexivity].
  apply (x64_run_slices (platform := littered 0) (blink := counting)); [lia|lia|reflexivity|].
  apply (bool_decide_unpack _). vm_compute. exact I.
Defined.
