(* ===== verification/I386Memory.v ===== *)
(** I386Memory: the 32-bit guest's view of the address space: every operation is
    the 64-bit one behind a check that the range ends by 4 GiB
    (src/gem/i386_memory.c, include/metalsharp/gem/i386_memory.h). *)
From S2P Require Import Prelude MemoryModel Memory MemoryLogic MemoryInv MemoryAtomic MemoryTotal MemoryProperties.

Definition GEM_I386_ADDRESS_SPACE_SIZE : Z := 0x100000000.
Definition GEM_I386_LOWEST_ALLOCATION : Z := 0x00010000.
Definition GEM_I386_ALLOCATION_GRANULARITY : Z := 0x00010000.

Definition range_error (address size : Z) : gem_memory_error :=
  if size =? 0 then GEM_MEMORY_INVALID_ARGUMENT
  else if GEM_I386_ADDRESS_SPACE_SIZE <? size then GEM_MEMORY_OVERFLOW
  else if GEM_I386_ADDRESS_SPACE_SIZE - size <? address then GEM_MEMORY_OVERFLOW
  else GEM_MEMORY_OK.

Definition gem_i386_memory_range_valid (address size : Z) : bool :=
  (size <=? GEM_I386_ADDRESS_SPACE_SIZE) && bool_decide (range_error address size = GEM_MEMORY_OK).

Section i386.
Context {platform : Platform}.

(** The loop of [gem_i386_memory_reserve] from [candidate] on; [fuel] bounds the
    granules of the address space. *)
Fixpoint probe (fuel : nat) (m : option mem) (address : option Z) (size candidate : Z)
  : result unit ((gem_memory_error * option Z) * option mem) :=
  match fuel with
  | O => Fault
  | S fuel =>
    if GEM_I386_ADDRESS_SPACE_SIZE - size <? candidate then Ok ((GEM_MEMORY_NO_MEMORY, address), m)
    else
      '((e, requested), m) ← gem_memory_reserve m (Some candidate) size;
      match e with
      | GEM_MEMORY_OK => mret ((GEM_MEMORY_OK, wrap32 <$> requested), m)
      | GEM_MEMORY_CONFLICT => probe fuel m address size (candidate + GEM_I386_ALLOCATION_GRANULARITY)
      | e => mret ((e, address), m)
      end
  end.

Definition GRANULES : nat := Z.to_nat 65537.

Definition gem_i386_memory_reserve (m : option mem) (address : option Z) (size : Z)
  : result unit ((gem_memory_error * option Z) * option mem) :=
  if bool_decide (m = None) || bool_decide (address = None) || (size =? 0) || has_bits size 4095
     || (GEM_I386_ADDRESS_SPACE_SIZE <? size)
  then Ok ((GEM_MEMORY_INVALID_ARGUMENT, address), m)
  else
    let a := default 0 address in
    if negb (a =? 0) then
      if negb (bool_decide (range_error a size = GEM_MEMORY_OK))
      then Ok ((GEM_MEMORY_OVERFLOW, address), m)
      else
        '((e, _), m) ← gem_memory_reserve m (Some a) size;
        mret ((e, address), m)
    else probe GRANULES m address size GEM_I386_LOWEST_ALLOCATION.

(** [if (error != GEM_MEMORY_OK) return error; return target(...);] *)
Definition ranged {A} (address size : Z) (refused : gem_memory_error -> A)
    (target : option mem -> result unit (A * option mem)) (m : option mem)
  : result unit (A * option mem) :=
  match range_error address size with
  | GEM_MEMORY_OK => target m
  | e => Ok (refused e, m)
  end.

Definition gem_i386_memory_decommit (m : option mem) (a n : Z) :=
  ranged a n id (fun m => gem_memory_decommit m a n) m.
Definition gem_i386_memory_release (m : option mem) (a n : Z) :=
  ranged a n id (fun m => gem_memory_release m a n) m.
Definition gem_i386_memory_unmap (m : option mem) (a n : Z) :=
  ranged a n id (fun m => gem_memory_unmap m a n) m.
Definition gem_i386_memory_commit (m : option mem) (a n prot : Z) :=
  ranged a n id (fun m => gem_memory_commit m a n prot) m.
Definition gem_i386_memory_commit_host (m : option mem) (a h n prot : Z) :=
  ranged a n id (fun m => gem_memory_commit_external m a h n prot) m.
Definition gem_i386_memory_protect (m : option mem) (a n prot : Z) (old : option Z) :=
  ranged a n (fun e => (e, old)) (fun m => gem_memory_protect m a n prot old) m.
Definition gem_i386_memory_alias (m : option mem) (a s n prot : Z) :=
  ranged a n id (ranged s n id (fun m => gem_memory_alias m a s n prot)) m.
Definition gem_i386_memory_read (m : option mem) (a : Z) (b : option (list Z)) (n : Z) :=
  ranged a n (fun e => (e, b)) (fun m => gem_memory_read m a b n) m.
Definition gem_i386_memory_write (m : option mem) (a : Z) (b : option (list Z)) (n : Z) :=
  ranged a n (fun e => (e, b)) (fun m => gem_memory_write m a b n) m.
Definition gem_i386_memory_fetch (m : option mem) (a : Z) (b : option (list Z)) (n : Z) :=
  ranged a n (fun e => (e, b)) (fun m => gem_memory_fetch m a b n) m.
End i386.

(** ** Ranges *)

(** The range check is exact: it accepts precisely the non-empty ranges that
    end by 4 GiB, without wrapping at either width. *)
Theorem i386_range_exact a n :
  is_u32 a -> is_u64 n ->
  gem_i386_memory_range_valid a n = true <-> 0 < n /\ a + n <= 2 ^ 32.
Proof.
  unfold gem_i386_memory_range_valid, range_error, is_u32, is_u64, GEM_I386_ADDRESS_SPACE_SIZE.
  intros Ha Hn. rewrite andb_true_iff, bool_decide_eq_true, Z.leb_le.
  destruct (Z.eqb_spec n 0); [split; [intros [_ ?]; done|lia]|].
  destruct (Z.ltb_spec 0x100000000 n); [split; [intros [_ ?]; done|lia]|].
  destruct (Z.ltb_spec (0x100000000 - n) a); [split; [intros [_ ?]; done|lia]|].
  split; [lia|]. intros _. split; [lia|done].
Qed.

(** ** Reservation *)

Section reservation.
Context {platform : Platform}.

(** A page of the range is taken. *)
Definition occupied (m : mem) (a n : Z) : Prop :=
  exists x, a <= x < a + n /\ x mod 4096 = 0 /\ is_Some (m_pages m !! x).

Lemma conflict_occupied m a n a' m' :
  0 < a -> gem_memory_reserve (Some m) (Some a) n = Ok ((GEM_MEMORY_CONFLICT, a'), Some m') ->
  m' = m /\ occupied m a n.
Proof.
  intros Ha H. unfold gem_memory_reserve in H. apply locked_run in H. unfold reserve_locked in H.
  destruct (_ || _ || _); [done|]. apply bind_get_run in H.
  rewrite (proj2 (Z.eqb_neq a 0)) in H by lia.
  apply bind_run in H as (b & m1 & H1 & H). injection H1 as <- <-.
  destruct (range_ok a n) eqn:Hr; cbn [negb] in H; [|done].
  apply range_ok_spec in Hr as (Hn0 & Ham & Hnm & Hle).
  destruct (existsb _ _) eqn:Hx.
  - injection H as _ <-. split; [done|]. apply existsb_exists in Hx as (o & Ho & Hm).
    apply list_elem_of_In in Ho. pose proof (page_offset_aligned a o n Ham Ho) as Hal.
    apply elem_of_page_range in Ho. exists (a + o). split; [lia|]. split; [done|].
    unfold mapped, at_ in Hm. by destruct (m_pages m !! (a + o)).
  - apply bind_run in H as ([head|] & m1 & _ & H); [|done].
    by apply bind_run in H as (u & m2 & _ & H).
Qed.

(** The pages a successful reservation at [b] adds. *)
Definition reserved (m m' : mem) (b n : Z) : Prop :=
  forall x, if bool_decide (b <= x < b + n /\ x mod 4096 = 0)
    then m_pages m !! x = None /\ exists g, m_pages m' !! x = Some (Page b n None 0 g)
    else m_pages m' !! x = m_pages m !! x.

Definition outcome_ok (m : mem) (n : Z) (r : result unit ((gem_memory_error * option Z) * option mem))
  : Prop :=
  match r with
  | Ok ((e, a'), Some m') =>
    (e = GEM_MEMORY_OK /\ exists b, a' = Some b /\ b mod 0x10000 = 0 /\ 0x10000 <= b /\
       b + n <= 2 ^ 32 /\ (forall c, c mod 0x10000 = 0 -> 0x10000 <= c < b -> occupied m c n) /\
       reserved m m' b n) \/
    (e <> GEM_MEMORY_OK /\ a' = Some 0 /\ m_pages m' = m_pages m)
  | Ok (_, None) => False
  | Err _ => True
  | Fault => False
  end.

(** The 64-bit reservation returns the object it was given. *)
Lemma reserve_returns m c n :
  inv no_pins m -> is_u64 c -> is_u64 n ->
  match gem_memory_reserve (Some m) (Some c) n with
  | Ok (_, Some _) | Err _ => True
  | Ok (_, None) | Fault => False
  end.
Proof.
  intros Hm Hc Hn. destruct (run_call_safe (CallReserve (Some c) n) m) as (r & Hr & Hne & Hs); [by split|done|].
  cbn [run_call] in Hr. subst r.
  destruct (gem_memory_reserve _ _ _) as [[ea [m'|]]|[]|]; cbn in *; congruence || done.
Qed.

Lemma probe_spec fuel m n c :
  inv no_pins m -> 0 < n <= 2 ^ 32 -> (0 < fuel)%nat -> c mod 0x10000 = 0 -> 0x10000 <= c <= 2 ^ 33 ->
  2 ^ 32 - n < c + 0x10000 * (Z.of_nat fuel - 1) -> c + 0x10000 * Z.of_nat fuel < 2 ^ 34 ->
  (forall d, d mod 0x10000 = 0 -> 0x10000 <= d < c -> occupied m d n) ->
  outcome_ok m n (probe fuel (Some m) (Some 0) n c).
Proof.
  intros Hm Hn. revert c. induction fuel as [|fuel IH]; intros c Hfu Hcm Hc Hf Hf' Hocc; [lia|].
  cbn [probe]. unfold GEM_I386_ADDRESS_SPACE_SIZE, GEM_I386_ALLOCATION_GRANULARITY in *.
  destruct (Z.ltb_spec (0x100000000 - n) c) as [|Hfit]; [by right|].
  pose proof (reserve_returns m c n Hm ltac:(unfold is_u64; lia) ltac:(unfold is_u64; lia)) as Hret.
  destruct (gem_memory_reserve (Some m) (Some c) n) as [[[e r] [m'|]]|[]|] eqn:Hr; try done.
  cbn [mbind result_bind].
  pose proof (reserve_run m c n e r m' Hm ltac:(unfold is_u64; lia) ltac:(unfold is_u64; lia) Hr) as Hspec.
  destruct (decide (e = GEM_MEMORY_CONFLICT)) as [->|Hne].
  - destruct (conflict_occupied m c n r m' ltac:(lia) Hr) as [-> Hoc]. apply IH.
    + lia.
    + by rewrite Z.add_mod, Hcm by lia.
    + lia.
    + lia.
    + lia.
    + intros d Hd Hdc. destruct (decide (d < c)) as [|Hge]; [apply Hocc; [done|lia]|].
      assert (d = c) as ->; [|done]. pose proof (Z.div_mod d 0x10000). pose proof (Z.div_mod c 0x10000). lia.
  - destruct Hspec as [(He & _ & Hp) | (-> & b & -> & Hb & _ & _ & _ & _ & Hpages)].
    + destruct e; try done; by right.
    + left. split; [done|]. specialize (Hb ltac:(lia)) as ->. exists c.
      assert (wrap32 c = c) as Hw by (apply Z.mod_small; lia). cbn. rewrite Hw. by split_and!; try lia.
Qed.


End reservation.


Lemma i386_range_exact_witness :
  gem_i386_memory_range_valid 0xffff0000 0x10000 = true /\ 0 < 0x10000 /\ 0xffff0000 + 0x10000 <= 2 ^ 32.
Proof.
  assert (gem_i386_memory_range_valid 0xffff0000 0x10000 = true) as H by reflexivity.
  split; [exact H|]. apply (i386_range_exact 0xffff0000 0x10000).
  - apply (bool_decide_unpack _). vm_compute. exact I.
  - apply (bool_decide_unpack _). vm_compute. exact I.
  - exact H.
Defined.
