(* ===== verification/I386Engine.v ===== *)
(** I386Engine: the 32-bit engine front end (src/gem/i386_engine.c) and its
    adapter to the emulator (src/gem/i386_blink.c).

    [gem_i386_runtime_run] executes quanta: a transaction is opened, the back end
    runs up to a quantum of instructions, the transaction is checked for
    conflicts and closed.  A conflict is retried with a smaller quantum.  The
    back end is a table of operations ([struct gem_i386_engine_ops]); the table a
    runtime was created with is an argument here.  The time spent waiting for
    locks is left out of the performance record, and so are the queries that only
    forward to Blink. *)
From S2P Require Import Prelude Context MemoryModel Memory Transaction I386Memory Blink X64Engine.

Definition GEM_I386_DEFAULT_HOST_RETURN_SENTINEL : Z := 0xfffffff0.
Definition GEM_I386_BOUNDARY_WINDOWS_SYSCALL : Z := 1.
Definition GEM_I386_BOUNDARY_UNIX_CALL : Z := 2.
Definition GEM_I386_EXCEPTION_ILLEGAL_INSTRUCTION : Z := 1.
Definition GEM_I386_EXCEPTION_BREAKPOINT : Z := 2.
Definition GEM_I386_EXCEPTION_INTEGER_DIVIDE_BY_ZERO : Z := 3.
Definition GEM_I386_EXCEPTION_INTEGER_OVERFLOW : Z := 4.
Definition GEM_I386_ENGINE_STATUS_RESTARTABLE_REP : Z := 0x100.
Definition GEM_I386_ENGINE_DEFAULT : Z := 0.
Definition GEM_I386_ENGINE_JIT : Z := 1.
Definition GEM_I386_ENGINE_INTERPRETER : Z := 2.
Definition GEM_I386_ENGINE_OPS_ABI_VERSION : Z := 1.
Definition GEM_I386_FS : nat := 4.
Definition GEM_I386_GS : nat := 5.

(** [enum blink_gem_exception]. *)
Definition BLINK_GEM_EXCEPTION_ILLEGAL_INSTRUCTION : Z := 1.
Definition BLINK_GEM_EXCEPTION_DIVIDE : Z := 2.
Definition BLINK_GEM_EXCEPTION_OVERFLOW : Z := 3.

Record gem_i386_runtime_config : Type := I386Config {
  ic_host_return_sentinel : Z;
  ic_windows_syscall_boundary : Z;
  ic_unix_call_boundary : Z;
  ic_engine_mode : Z;
  ic_max_budget : Z;
  ic_max_generated_code_bytes : Z;
  ic_reserved : list Z }.

Definition i386_config_zero : gem_i386_runtime_config := I386Config 0 0 0 0 0 0 (replicate 4 0).

Record gem_i386_stop_info : Type := I386StopInfo {
  is_reason : gem_stop_reason;
  is_instructions_retired : Z;
  is_fault_address : Z;
  is_access : Z;
  is_memory_error : Z;
  is_engine_status : Z }.

Definition i386_stop_zero : gem_i386_stop_info := I386StopInfo GEM_STOP_NONE 0 0 0 0 0.

Record gem_i386_performance_info : Type := I386Performance {
  pf_retired_instructions : Z;
  pf_quanta : Z;
  pf_retries : Z;
  pf_page_snapshots : Z;
  pf_bytes_copied : Z;
  pf_bytes_committed : Z;
  pf_state_imports : Z;
  pf_state_exports : Z;
  pf_decode_resets : Z }.

Definition i386_performance_zero : gem_i386_performance_info := I386Performance 0 0 0 0 0 0 0 0 0.

(** The counters that one place of the code increases, by [n], wrapping. *)
Definition count_retired (n : Z) (p : gem_i386_performance_info) : gem_i386_performance_info :=
  I386Performance (wrap64 (pf_retired_instructions p + n)) (pf_quanta p) (pf_retries p)
    (pf_page_snapshots p) (pf_bytes_copied p) (pf_bytes_committed p) (pf_state_imports p)
    (pf_state_exports p) (pf_decode_resets p).
Definition count_quantum (p : gem_i386_performance_info) : gem_i386_performance_info :=
  I386Performance (pf_retired_instructions p) (wrap64 (pf_quanta p + 1)) (pf_retries p)
    (pf_page_snapshots p) (pf_bytes_copied p) (pf_bytes_committed p) (pf_state_imports p)
    (pf_state_exports p) (wrap64 (pf_decode_resets p + 1)).
Definition count_retry (p : gem_i386_performance_info) : gem_i386_performance_info :=
  I386Performance (pf_retired_instructions p) (pf_quanta p) (wrap64 (pf_retries p + 1))
    (pf_page_snapshots p) (pf_bytes_copied p) (pf_bytes_committed p) (pf_state_imports p)
    (pf_state_exports p) (pf_decode_resets p).
Definition count_snapshot (p : gem_i386_performance_info) : gem_i386_performance_info :=
  I386Performance (pf_retired_instructions p) (pf_quanta p) (pf_retries p)
    (wrap64 (pf_page_snapshots p + 1)) (wrap64 (pf_bytes_copied p + GEM_GUEST_PAGE_SIZE))
    (pf_bytes_committed p) (pf_state_imports p) (pf_state_exports p) (pf_decode_resets p).
Definition count_committed (n : Z) (p : gem_i386_performance_info) : gem_i386_performance_info :=
  I386Performance (pf_retired_instructions p) (pf_quanta p) (pf_retries p) (pf_page_snapshots p)
    (pf_bytes_copied p) (wrap64 (pf_bytes_committed p + n)) (pf_state_imports p)
    (pf_state_exports p) (pf_decode_resets p).
Definition count_import (p : gem_i386_performance_info) : gem_i386_performance_info :=
  I386Performance (pf_retired_instructions p) (pf_quanta p) (pf_retries p) (pf_page_snapshots p)
    (pf_bytes_copied p) (pf_bytes_committed p) (wrap64 (pf_state_imports p + 1))
    (pf_state_exports p) (pf_decode_resets p).
Definition count_export (p : gem_i386_performance_info) : gem_i386_performance_info :=
  I386Performance (pf_retired_instructions p) (pf_quanta p) (pf_retries p) (pf_page_snapshots p)
    (pf_bytes_copied p) (pf_bytes_committed p) (pf_state_imports p)
    (wrap64 (pf_state_exports p + 1)) (pf_decode_resets p).

(** [context->stop_reason = reason] *)
Definition i386_with_stop_reason (c : gem_i386_context) (r : gem_stop_reason) : gem_i386_context :=
  I386Context (i_layout_version c) (i_context_size c) (i_gpr c) (i_eip c) (i_eflags c) (i_segment c)
    (i_segment_base c) (i_segment_limit c) (i_segment_attributes c) (i_xmm c) (i_x87 c) (i_mxcsr c)
    (i_fcw c) (i_fsw c) (i_ftw c) (i_fop c) (i_teb c) (i_reserved0 c) (i_transition_cookie c)
    (stop_value r) (i_union c).

(** ** State conversion *)

Definition i386_range (a n : Z) : bool :=
  negb (n =? 0) && (n <=? GEM_I386_ADDRESS_SPACE_SIZE) && (a <=? GEM_I386_ADDRESS_SPACE_SIZE - n).

Definition import_state (c : gem_i386_context) : blink_gem_state :=
  let v2 := GEM_I386_CONTEXT_LAYOUT_VERSION_V2 <=? i_layout_version c in
  BlinkState (array 8 (i_gpr c) ++ replicate 8 0) (i_eip c)
    ((i_eflags c .&~ 0x3000) .| 0x200)
    (array 8 (i_xmm c) ++ replicate 8 u128_zero) (i_mxcsr c) (i_fcw c) (i_fsw c) (array 8 (i_x87 c))
    (i_segment_base c !!! GEM_I386_GS)
    (if negb ((i_segment_base c !!! GEM_I386_FS) =? 0) then i_segment_base c !!! GEM_I386_FS else i_teb c)
    (i_ftw c)
    (if v2 then i386_x87_fip c else 0) (if v2 then i386_x87_fdp c else 0)
    (if v2 then i386_x87_fcs c else 0) (if v2 then i386_x87_fds c else 0) (i_fop c)
    ((fun i => BlinkSegment (i_segment c !!! i) (i_segment_base c !!! i) (i_segment_limit c !!! i)
                 (i_segment_attributes c !!! i)) <$> seq 0 6).

Definition export_state (s : blink_gem_state) (input : gem_i386_context) : gem_i386_context :=
  let segment (f : blink_gem_segment -> Z) := (fun i => f (s_segments s !!! i)) <$> seq 0 6 in
  I386Context (i_layout_version input) (i_context_size input)
    (wrap32 <$> array 8 (s_gpr s)) (wrap32 (s_rip s))
    ((((wrap32 (s_rflags s)) .&~ 0x3000) .| 0x200) .| GEM_I386_EFLAGS_REQUIRED)
    (segment bs_selector) (segment bs_base) (segment bs_limit) (segment bs_attributes)
    (array 8 (s_xmm s)) (array 8 (s_x87 s)) (s_mxcsr s) (s_fcw s) (s_fsw s) (s_ftw s) (s_fop s)
    (i_teb input) (i_reserved0 input) (i_transition_cookie input) (i_stop_reason input)
    (if GEM_I386_CONTEXT_LAYOUT_VERSION_V2 <=? i_layout_version input
     then [s_fip s; s_fdp s; s_fcs s .| (s_fds s <<. 16); i_union input !!! 3%nat; i_union input !!! 4%nat]
     else i_union input).

(** The callback's protection bits: 1 readable, 2 writable, 4 executable, 8
    guarded, 16 owned by the caller. *)
Definition i386_protection_bits (gp : Z) (external : bool) : Z :=
  let p := if has_bits gp GEM_PAGE_GUARD then 8 else 0 in
  let p := if external then p .| 16 else p in
  let b := gp .&~ GEM_PAGE_GUARD in
  if negb (b =? GEM_PAGE_NOACCESS) then
    let p := if negb (b =? GEM_PAGE_EXECUTE) then p .| 1 else p in
    let p := if has_bits gp (((GEM_PAGE_READWRITE .| GEM_PAGE_WRITECOPY) .| GEM_PAGE_EXECUTE_READWRITE)
                               .| GEM_PAGE_EXECUTE_WRITECOPY) then p .| 2 else p in
    if has_bits gp (((GEM_PAGE_EXECUTE .| GEM_PAGE_EXECUTE_READ) .| GEM_PAGE_EXECUTE_READWRITE)
                      .| GEM_PAGE_EXECUTE_WRITECOPY) then p .| 4 else p
  else p.

(** The [switch] on a normalised exception. *)
Definition i386_exception (status : Z) : option Z :=
  if status =? BLINK_GEM_EXCEPTION_ILLEGAL_INSTRUCTION then Some GEM_I386_EXCEPTION_ILLEGAL_INSTRUCTION
  else if status =? BLINK_GEM_EXCEPTION_DIVIDE then Some GEM_I386_EXCEPTION_INTEGER_DIVIDE_BY_ZERO
  else if status =? BLINK_GEM_EXCEPTION_OVERFLOW then Some GEM_I386_EXCEPTION_INTEGER_OVERFLOW
  else None.

(** What an instruction Blink does not execute stops with, and the engine status
    it stores. *)
Definition i386_unsupported (attempt : option blink_gem_decode_attempt) : gem_stop_reason * option Z :=
  if attempted attempt "OpInterrupt3" then (GEM_STOP_WINDOWS_EXCEPTION, Some GEM_I386_EXCEPTION_BREAKPOINT)
  else if attempted attempt "OpInto" then (GEM_STOP_WINDOWS_EXCEPTION, Some GEM_I386_EXCEPTION_INTEGER_OVERFLOW)
  else if attempted attempt "OpUd" then (GEM_STOP_WINDOWS_EXCEPTION, Some GEM_I386_EXCEPTION_ILLEGAL_INSTRUCTION)
  else if attempted attempt "OpInterruptImm" || attempted attempt "OpSysenter"
  then (GEM_STOP_SYSCALL, Some GEM_I386_BOUNDARY_WINDOWS_SYSCALL)
  else (GEM_STOP_UNSUPPORTED_INSTRUCTION, None).

Section runtime.
Context {platform : Platform} {blink : Blink}.

Record gem_i386_runtime : Type := I386Runtime {
  ir_config : gem_i386_runtime_config;
  ir_last_stop : gem_i386_stop_info;
  ir_backend : option blink_machine;
  ir_transaction : option gem_memory_transaction;
  ir_performance : gem_i386_performance_info;
  ir_quantum_budget : Z;
  ir_consecutive_conflicts : Z;
  ir_running : bool;
  ir_backend_failed : bool;
  ir_async_stop_requested : atomic_flag }.

Definition i386_set_config (r : gem_i386_runtime) (c : gem_i386_runtime_config) : gem_i386_runtime :=
  I386Runtime c (ir_last_stop r) (ir_backend r) (ir_transaction r) (ir_performance r)
    (ir_quantum_budget r) (ir_consecutive_conflicts r) (ir_running r) (ir_backend_failed r)
    (ir_async_stop_requested r).
Definition i386_set_last_stop (r : gem_i386_runtime) (s : gem_i386_stop_info) : gem_i386_runtime :=
  I386Runtime (ir_config r) s (ir_backend r) (ir_transaction r) (ir_performance r)
    (ir_quantum_budget r) (ir_consecutive_conflicts r) (ir_running r) (ir_backend_failed r)
    (ir_async_stop_requested r).
Definition i386_set_backend (r : gem_i386_runtime) (g : option blink_machine) : gem_i386_runtime :=
  I386Runtime (ir_config r) (ir_last_stop r) g (ir_transaction r) (ir_performance r)
    (ir_quantum_budget r) (ir_consecutive_conflicts r) (ir_running r) (ir_backend_failed r)
    (ir_async_stop_requested r).
Definition i386_set_transaction (r : gem_i386_runtime) (t : option gem_memory_transaction)
  : gem_i386_runtime :=
  I386Runtime (ir_config r) (ir_last_stop r) (ir_backend r) t (ir_performance r)
    (ir_quantum_budget r) (ir_consecutive_conflicts r) (ir_running r) (ir_backend_failed r)
    (ir_async_stop_requested r).
Definition i386_count (f : gem_i386_performance_info -> gem_i386_performance_info)
    (r : gem_i386_runtime) : gem_i386_runtime :=
  I386Runtime (ir_config r) (ir_last_stop r) (ir_backend r) (ir_transaction r) (f (ir_performance r))
    (ir_quantum_budget r) (ir_consecutive_conflicts r) (ir_running r) (ir_backend_failed r)
    (ir_async_stop_requested r).
Definition i386_set_quantum (r : gem_i386_runtime) (quantum conflicts : Z) : gem_i386_runtime :=
  I386Runtime (ir_config r) (ir_last_stop r) (ir_backend r) (ir_transaction r) (ir_performance r)
    quantum conflicts (ir_running r) (ir_backend_failed r) (ir_async_stop_requested r).
Definition i386_set_running (r : gem_i386_runtime) (b : bool) : gem_i386_runtime :=
  I386Runtime (ir_config r) (ir_last_stop r) (ir_backend r) (ir_transaction r) (ir_performance r)
    (ir_quantum_budget r) (ir_consecutive_conflicts r) b (ir_backend_failed r)
    (ir_async_stop_requested r).
Definition i386_set_backend_failed (r : gem_i386_runtime) : gem_i386_runtime :=
  I386Runtime (ir_config r) (ir_last_stop r) (ir_backend r) (ir_transaction r) (ir_performance r)
    (ir_quantum_budget r) (ir_consecutive_conflicts r) (ir_running r) true
    (ir_async_stop_requested r).
Definition i386_set_async (r : gem_i386_runtime) (f : atomic_flag) : gem_i386_runtime :=
  I386Runtime (ir_config r) (ir_last_stop r) (ir_backend r) (ir_transaction r) (ir_performance r)
    (ir_quantum_budget r) (ir_consecutive_conflicts r) (ir_running r) (ir_backend_failed r) f.

(** [runtime->last_stop.engine_status = status] *)
Definition i386_set_status (r : gem_i386_runtime) (status : Z) : gem_i386_runtime :=
  let s := ir_last_stop r in
  i386_set_last_stop r (I386StopInfo (is_reason s) (is_instructions_retired s) (is_fault_address s)
    (is_access s) (is_memory_error s) status).
(** The four stores to [last_stop] that follow a call into Blink. *)
Definition i386_report (r : gem_i386_runtime) (br : blink_gem_result) : gem_i386_runtime :=
  let s := ir_last_stop r in
  i386_set_last_stop r (I386StopInfo (is_reason s) (is_instructions_retired s)
    (wrap32 (br_fault_address br)) (br_access br) (br_memory_error br) (br_engine_status br)).

(** ** The callbacks *)

Definition i386_snapshot (a : Z) (r : gem_i386_runtime)
  : M (gem_memory_error * option (list Z) * option Z * gem_i386_runtime) :=
  if negb (i386_range a GEM_GUEST_PAGE_SIZE) then mret (GEM_MEMORY_OVERFLOW, None, None, r)
  else
    '(e, t, out) ← gem_memory_transaction_snapshot_page (ir_transaction r) a true true;
    let r := i386_set_transaction r t in
    let ok := bool_decide (e = GEM_MEMORY_OK) in
    let r := if ok then i386_count count_snapshot r else r in
    let external := ok && gem_memory_transaction_page_is_external t a in
    mret (e, fst <$> out, Some (i386_protection_bits (from_option snd 0 out) external), r).

Definition i386_validate (a n access : Z) (r : gem_i386_runtime) : M (gem_memory_error * gem_i386_runtime) :=
  if negb (i386_range a n) then mret (GEM_MEMORY_OVERFLOW, r)
  else
    '(e, t) ← gem_memory_transaction_validate (ir_transaction r) a n
                (access =? BLINK_GEM_ACCESS_WRITE) (access =? BLINK_GEM_ACCESS_FETCH);
    mret (e, i386_set_transaction r t).

Definition i386_commit (ws : list blink_gem_write) (r : gem_i386_runtime)
  : M (gem_memory_error * option Z * gem_i386_runtime) :=
  if bool_decide (ws = []) then mret (GEM_MEMORY_OK, None, r)
  else
    p ← alloc;
    match p with
    | None => mret (GEM_MEMORY_NO_MEMORY, None, r)
    | Some _ =>
      if negb (forallb (fun w => (bw_size w =? GEM_GUEST_PAGE_SIZE) &&
                                 i386_range (bw_address w) (bw_size w)) ws)
      then mret (GEM_MEMORY_OVERFLOW, None, r)
      else
        '(e, fault, t, n) ← gem_memory_transaction_commit_pages (ir_transaction r)
            (Some ((fun w => PageWrite (bw_address w) (Some (bw_data w))) <$> ws)) (length ws);
        let r := i386_set_transaction r t in
        mret (e, fault,
          if bool_decide (e = GEM_MEMORY_OK) then i386_count (count_committed (default 0 n)) r else r)
    end.

Definition async_stop (r : gem_i386_runtime) : M (bool * gem_i386_runtime) :=
  let '(b, f) := exchange_false (ir_async_stop_requested r) in mret (b, i386_set_async r f).

Definition i386_callbacks : blink_gem_callbacks gem_i386_runtime :=
  BlinkCallbacks i386_snapshot i386_validate i386_commit async_stop.

(** A call on the machine; a NULL machine is undefined behaviour. *)
Definition i386_machine {A} (call : blink_machine -> blink_run (blink_machine * A))
    (r : gem_i386_runtime) : M (A * gem_i386_runtime) :=
  match ir_backend r with
  | None => fault
  | Some g =>
    '(g, a, r) ← run_blink i386_callbacks (call g) r;
    mret (a, i386_set_backend r (Some g))
  end.

(** ** The Blink operations *)

Definition gem_i386_blink_create (r : gem_i386_runtime) : bool * gem_i386_runtime :=
  let g := blink_gem_machine_create_with_config (ic_engine_mode (ir_config r) =? GEM_I386_ENGINE_JIT) true in
  (bool_decide (is_Some g), i386_set_backend r g).

Definition gem_i386_blink_destroy (r : gem_i386_runtime) : gem_i386_runtime := i386_set_backend r None.

Definition gem_i386_blink_sync (r : gem_i386_runtime) : M gem_i386_runtime :=
  '(_, r) ← i386_machine (fun g => run_map (fun g => (g, tt)) (blink_gem_machine_sync g)) r;
  mret r.

(** The pairs of a machine's step or run: the result and the state. *)
Definition with_result {A B C} (x : A * B * C) : A * (B * C) := let '(a, b, c) := x in (a, (b, c)).

(** The stop reason, the runtime, what is stored in [*out], and [*retired]. *)
Definition gem_i386_blink_step (r : gem_i386_runtime) (i : gem_i386_context)
  : M (gem_stop_reason * gem_i386_runtime * option gem_i386_context * Z) :=
  let r := i386_count count_import r in
  '((br, bo), r) ← i386_machine (fun g => run_map with_result (blink_gem_machine_step g (import_state i))) r;
  let r := i386_report r br in
  let retired := br_retired br in
  match br_outcome br with
  | BLINK_GEM_RETIRED =>
    mret (if br_retired br =? 1 then GEM_STOP_NONE else GEM_STOP_INVARIANT_VIOLATION,
          i386_count count_export r, Some (export_state bo i), retired)
  | BLINK_GEM_MEMORY_FAULT =>
    if br_engine_status br =? BLINK_GEM_ENGINE_STATUS_RESTARTABLE_REP
    then mret (GEM_STOP_MEMORY_FAULT, i386_set_status r GEM_I386_ENGINE_STATUS_RESTARTABLE_REP,
               Some (export_state bo i), retired)
    else mret (GEM_STOP_MEMORY_FAULT, r, None, retired)
  | BLINK_GEM_EXCEPTION =>
    match i386_exception (br_engine_status br) with
    | Some status => mret (GEM_STOP_WINDOWS_EXCEPTION, i386_set_status r status, None, retired)
    | None => mret (GEM_STOP_INVARIANT_VIOLATION, r, None, retired)
    end
  | BLINK_GEM_UNSUPPORTED =>
    let '(reason, status) :=
      i386_unsupported (ir_backend r ≫= blink_gem_machine_decode_attempt_info) in
    mret (reason, match status with Some status => i386_set_status r status | None => r end, None, retired)
  | _ => mret (GEM_STOP_INVARIANT_VIOLATION, r, None, retired)
  end.

(** The addresses a batched run stops at. *)
Definition i386_stop_pcs (c : gem_i386_runtime_config) : list Z :=
  [ic_host_return_sentinel c] ++
  (if negb (ic_windows_syscall_boundary c =? 0) then [ic_windows_syscall_boundary c] else []) ++
  (if negb (ic_unix_call_boundary c =? 0) then [ic_unix_call_boundary c] else []).

(** What a run that reached a stop address reports. *)
Definition i386_stop_pc (r : gem_i386_runtime) (eip : Z) : gem_stop_reason * gem_i386_runtime :=
  if eip =? ic_host_return_sentinel (ir_config r) then (GEM_STOP_HOST_RETURN, r)
  else
    let boundary :=
      if eip =? ic_windows_syscall_boundary (ir_config r) then GEM_I386_BOUNDARY_WINDOWS_SYSCALL
      else if eip =? ic_unix_call_boundary (ir_config r) then GEM_I386_BOUNDARY_UNIX_CALL
      else 0 in
    (if negb (boundary =? 0) then GEM_STOP_SYSCALL else GEM_STOP_INVARIANT_VIOLATION,
     i386_set_status r boundary).

(** Whether the state the machine returned is stored in [*out]. *)
Definition i386_exports (br : blink_gem_result) : bool :=
  match br_outcome br with
  | BLINK_GEM_RETIRED | BLINK_GEM_STOP_PC | BLINK_GEM_ASYNC_STOP | BLINK_GEM_QUANTUM_BOUNDARY => true
  | _ => negb (br_retired br =? 0) || (br_engine_status br =? BLINK_GEM_ENGINE_STATUS_RESTARTABLE_REP)
  end.

Definition gem_i386_blink_run (r : gem_i386_runtime) (i : gem_i386_context) (budget : Z)
  : M (gem_stop_reason * gem_i386_runtime * option gem_i386_context * Z) :=
  let request := RunRequest budget (i386_stop_pcs (ir_config r)) in
  let r := i386_count count_import r in
  '((br, bo), r) ← i386_machine (fun g => run_map with_result (blink_gem_machine_run g request (import_state i))) r;
  let r := i386_report r br in
  let retired := br_retired br in
  let out := if i386_exports br then Some (export_state bo i) else None in
  let r := if i386_exports br then i386_count count_export r else r in
  match br_outcome br with
  | BLINK_GEM_RETIRED =>
    mret (if br_retired br =? budget then GEM_STOP_NONE else GEM_STOP_INVARIANT_VIOLATION, r, out, retired)
  | BLINK_GEM_QUANTUM_BOUNDARY =>
    mret (if negb (br_retired br =? 0) && (br_retired br <=? budget) then GEM_STOP_NONE
          else GEM_STOP_INVARIANT_VIOLATION, r, out, retired)
  | BLINK_GEM_STOP_PC =>
    match out with
    | None => fault
    | Some o => let '(reason, r) := i386_stop_pc r (i_eip o) in mret (reason, r, out, retired)
    end
  | BLINK_GEM_ASYNC_STOP => mret (GEM_STOP_ASYNC_REQUEST, r, out, retired)
  | BLINK_GEM_MEMORY_FAULT =>
    mret (GEM_STOP_MEMORY_FAULT,
          if br_engine_status br =? BLINK_GEM_ENGINE_STATUS_RESTARTABLE_REP
          then i386_set_status r GEM_I386_ENGINE_STATUS_RESTARTABLE_REP else r, out, retired)
  | BLINK_GEM_EXCEPTION =>
    match i386_exception (br_engine_status br) with
    | Some status => mret (GEM_STOP_WINDOWS_EXCEPTION, i386_set_status r status, out, retired)
    | None => mret (GEM_STOP_INVARIANT_VIOLATION, r, out, retired)
    end
  | BLINK_GEM_UNSUPPORTED =>
    let '(reason, status) :=
      i386_unsupported (ir_backend r ≫= blink_gem_machine_decode_attempt_info) in
    mret (reason, match status with Some status => i386_set_status r status | None => r end, out, retired)
  | BLINK_GEM_INVALID => mret (GEM_STOP_INVARIANT_VIOLATION, r, out, retired)
  end.

Definition gem_i386_blink_invalidate_code (r : gem_i386_runtime) (a n : Z) : bool * gem_i386_runtime :=
  if negb (i386_range a n) then (false, r)
  else
    match ir_backend r with
    | None => (false, r)
    | Some g =>
      let '(ok, g) := blink_gem_machine_invalidate_code g a n in (ok, i386_set_backend r (Some g))
    end.

(** ** The table of operations *)

(** [struct gem_i386_engine_ops]; [op_complete] says that none of the function
    pointers is NULL. *)
Record gem_i386_engine_ops : Type := I386EngineOps {
  op_abi_version : Z;
  op_engine_mode : Z;
  op_engine_name : option string;
  op_complete : bool;
  op_create : gem_i386_runtime -> bool * gem_i386_runtime;
  op_destroy : gem_i386_runtime -> gem_i386_runtime;
  op_sync : gem_i386_runtime -> M gem_i386_runtime;
  op_step : gem_i386_runtime -> gem_i386_context ->
    M (gem_stop_reason * gem_i386_runtime * option gem_i386_context * Z);
  op_run : gem_i386_runtime -> gem_i386_context -> Z ->
    M (gem_stop_reason * gem_i386_runtime * option gem_i386_context * Z);
  op_invalidate_code : gem_i386_runtime -> Z -> Z -> bool * gem_i386_runtime }.

Definition gem_i386_blink_jit_ops : gem_i386_engine_ops :=
  I386EngineOps GEM_I386_ENGINE_OPS_ABI_VERSION GEM_I386_ENGINE_JIT
    (Some "GEM_i386 Blink AArch64 JIT"%string) true
    gem_i386_blink_create gem_i386_blink_destroy gem_i386_blink_sync gem_i386_blink_step
    gem_i386_blink_run gem_i386_blink_invalidate_code.

Definition gem_i386_blink_interpreter_ops : gem_i386_engine_ops :=
  I386EngineOps GEM_I386_ENGINE_OPS_ABI_VERSION GEM_I386_ENGINE_INTERPRETER
    (Some "GEM_i386 Blink interpreter"%string) true
    gem_i386_blink_create gem_i386_blink_destroy gem_i386_blink_sync gem_i386_blink_step
    gem_i386_blink_run gem_i386_blink_invalidate_code.

(** ** Creation *)

(** The checks on the configuration and the table's mode, with the defaults. *)
Definition i386_configure (c : option gem_i386_runtime_config) (mode : Z) : option gem_i386_runtime_config :=
  let c := default i386_config_zero c in
  if (negb (ic_engine_mode c =? GEM_I386_ENGINE_DEFAULT) &&
      negb (ic_engine_mode c =? GEM_I386_ENGINE_JIT) &&
      negb (ic_engine_mode c =? GEM_I386_ENGINE_INTERPRETER)) ||
     negb (forallb (fun w => w =? 0) (array 4 (ic_reserved c)))
  then None
  else
    let c := I386Config
      (if ic_host_return_sentinel c =? 0 then GEM_I386_DEFAULT_HOST_RETURN_SENTINEL
       else ic_host_return_sentinel c)
      (ic_windows_syscall_boundary c) (ic_unix_call_boundary c)
      (if ic_engine_mode c =? GEM_I386_ENGINE_DEFAULT then mode else ic_engine_mode c)
      (ic_max_budget c) (ic_max_generated_code_bytes c) (ic_reserved c) in
    if negb (ic_engine_mode c =? mode) then None
    else if (ic_windows_syscall_boundary c =? ic_host_return_sentinel c) ||
            (ic_unix_call_boundary c =? ic_host_return_sentinel c) ||
            (negb (ic_windows_syscall_boundary c =? 0) &&
             (ic_windows_syscall_boundary c =? ic_unix_call_boundary c))
    then None
    else Some c.

(** [arriving] is what other threads will do with the new flag. *)
Definition gem_i386_runtime_create_with_ops (has_memory : bool) (c : option gem_i386_runtime_config)
    (ops : option gem_i386_engine_ops) (arriving : list bool) : M (option gem_i386_runtime) :=
  match ops with
  | None => mret None
  | Some ops =>
    if negb has_memory || negb (op_abi_version ops =? GEM_I386_ENGINE_OPS_ABI_VERSION) ||
       (negb (op_engine_mode ops =? GEM_I386_ENGINE_JIT) &&
        negb (op_engine_mode ops =? GEM_I386_ENGINE_INTERPRETER)) ||
       negb (op_complete ops)
    then mret None
    else
      p ← alloc;
      match p with
      | None => mret None
      | Some _ =>
        match i386_configure c (op_engine_mode ops) with
        | None => mret None
        | Some c =>
          let '(ok, r) := op_create ops
            (I386Runtime c i386_stop_zero None None i386_performance_zero 0 0 false false
               (AtomicFlag false arriving)) in
          mret (if (ok : bool) then Some (i386_set_quantum r 64 (ir_consecutive_conflicts r)) else None)
        end
      end
  end.

Definition gem_i386_runtime_create (has_memory : bool) (c : option gem_i386_runtime_config)
    (arriving : list bool) : M (option gem_i386_runtime) :=
  let mode := from_option ic_engine_mode GEM_I386_ENGINE_DEFAULT c in
  gem_i386_runtime_create_with_ops has_memory c
    (Some (if mode =? GEM_I386_ENGINE_INTERPRETER then gem_i386_blink_interpreter_ops
           else gem_i386_blink_jit_ops)) arriving.

(** ** Running *)

Section run.
Variable ops : gem_i386_engine_ops.

(** Whether [*context] is overwritten after a quantum. *)
Definition i386_writes_back (r : gem_i386_runtime) (reason : gem_stop_reason) (quantum_retired : Z) : bool :=
  negb (quantum_retired =? 0) || bool_decide (reason = GEM_STOP_NONE) ||
  bool_decide (reason = GEM_STOP_HOST_RETURN) || bool_decide (reason = GEM_STOP_SYSCALL) ||
  bool_decide (reason = GEM_STOP_ASYNC_REQUEST) ||
  (bool_decide (reason = GEM_STOP_MEMORY_FAULT) &&
   (is_engine_status (ir_last_stop r) =? GEM_I386_ENGINE_STATUS_RESTARTABLE_REP)).

(** A conflict found when the transaction finishes: the registers go back to the
    start of the quantum. *)
Definition i386_conflict_stop (r : gem_i386_runtime) (fault : Z) : gem_i386_runtime :=
  let s := ir_last_stop r in
  i386_set_last_stop r (I386StopInfo (is_reason s) (is_instructions_retired s) (wrap32 fault) 0
    (memory_error_value GEM_MEMORY_CONFLICT) (is_engine_status s)).

(** One quantum, after its transaction has been opened: the reason, the runtime,
    [*context] and [quantum_retired]. *)
Definition i386_quantum (r : gem_i386_runtime) (c : gem_i386_context) (quantum_budget : Z)
  : M (gem_stop_reason * gem_i386_runtime * gem_i386_context * Z) :=
  r ← op_sync ops r;
  let r := i386_count count_quantum r in
  '(reason, r, output, quantum_retired) ← op_run ops r c quantum_budget;
  '(transaction_error, transaction_fault) ← gem_memory_transaction_finish (ir_transaction r);
  let '(reason, r, output, quantum_retired) :=
    if bool_decide (transaction_error = GEM_MEMORY_CONFLICT)
    then (GEM_STOP_MEMORY_FAULT, i386_conflict_stop r (default 0 transaction_fault), Some c, 0)
    else if negb (bool_decide (transaction_error = GEM_MEMORY_OK))
    then (GEM_STOP_INVARIANT_VIOLATION, r, output, quantum_retired)
    else (reason, r, output, quantum_retired) in
  '(reason, c) ← (if i386_writes_back r reason quantum_retired then
                   match output with
                   | None => fault
                   | Some o =>
                     if negb (gem_i386_context_is_valid (Some o))
                     then mret (GEM_STOP_INVARIANT_VIOLATION, c) else mret (reason, o)
                   end
                 else mret (reason, c));
  let r := i386_count (count_retired quantum_retired) r in
  gem_memory_transaction_end (ir_transaction r);;
  mret (reason, i386_set_transaction r None, c, quantum_retired).

(** The quantum after a conflict and after success. *)
Definition shrink_quantum (r : gem_i386_runtime) : gem_i386_runtime :=
  let conflicts := wrap32 (ir_consecutive_conflicts r + 1) in
  let quantum := if 1 <? ir_quantum_budget r then ir_quantum_budget r / 2 else ir_quantum_budget r in
  i386_set_quantum r quantum (if 8 <=? conflicts then 0 else conflicts).
Definition grow_quantum (r : gem_i386_runtime) : gem_i386_runtime :=
  let quantum := if ir_quantum_budget r <? 256 then wrap32 (ir_quantum_budget r * 2) else ir_quantum_budget r in
  i386_set_quantum r (if 256 <? quantum then 256 else quantum) (ir_consecutive_conflicts r).

Definition i386_is_conflict (r : gem_i386_runtime) (reason : gem_stop_reason) : bool :=
  bool_decide (reason = GEM_STOP_MEMORY_FAULT) &&
  (is_memory_error (ir_last_stop r) =? memory_error_value GEM_MEMORY_CONFLICT).

(** [while (retired < budget)].  The first component is false when the fuel ran
    out before the loop ended. *)
Fixpoint i386_run_loop (fuel : nat) (budget : Z) (reason : gem_stop_reason) (r : gem_i386_runtime)
    (c : gem_i386_context) (retired : Z)
  : M (bool * gem_stop_reason * gem_i386_runtime * gem_i386_context * Z) :=
  if negb (retired <? budget) then mret (true, reason, r, c, retired)
  else
    match fuel with
    | O => mret (false, reason, r, c, retired)
    | S fuel =>
      let remaining := budget - retired in
      let quantum_budget :=
        if remaining <? ir_quantum_budget r then wrap32 remaining else ir_quantum_budget r in
      t ← gem_memory_transaction_begin;
      let r := i386_set_transaction r t in
      match t with
      | None => mret (true, GEM_STOP_INVARIANT_VIOLATION, r, c, retired)
      | Some _ =>
        '(reason, r, c, quantum_retired) ← i386_quantum r c quantum_budget;
        let retired := wrap64 (retired + quantum_retired) in
        if i386_is_conflict r reason
        then i386_run_loop fuel budget GEM_STOP_NONE (shrink_quantum (i386_count count_retry r)) c retired
        else
          let r := i386_set_quantum r (ir_quantum_budget r) 0 in
          if bool_decide (reason = GEM_STOP_NONE)
          then i386_run_loop fuel budget reason (grow_quantum r) c retired
          else mret (true, reason, r, c, retired)
      end
    end.

(** What follows the loop. *)
Definition i386_run_finish (reason : gem_stop_reason) (r : gem_i386_runtime) (c : gem_i386_context)
    (retired : Z) : gem_stop_reason * gem_i386_runtime * gem_i386_context :=
  let r := i386_set_running r false in
  let reason := if bool_decide (reason = GEM_STOP_NONE) then GEM_STOP_BUDGET_EXPIRED else reason in
  let s := ir_last_stop r in
  let r := i386_set_last_stop r (I386StopInfo reason (wrap32 retired) (is_fault_address s) (is_access s)
             (is_memory_error s) (is_engine_status s)) in
  (reason, r,
   if bool_decide (reason = GEM_STOP_INVARIANT_VIOLATION) then c else i386_with_stop_reason c reason).

(** [last_stop.reason = reason] on the cleared report. *)
Definition i386_stop_with_reason (reason : gem_stop_reason) : gem_i386_stop_info :=
  I386StopInfo reason 0 0 0 0 0.

(** [None] when the fuel ran out. *)
Definition gem_i386_runtime_run (fuel : nat) (r : option gem_i386_runtime) (c : option gem_i386_context)
    (budget : Z) : M (option (gem_stop_reason * option gem_i386_runtime * option gem_i386_context)) :=
  match r with
  | None => mret (Some (GEM_STOP_INVARIANT_VIOLATION, None, c))
  | Some r =>
    let rejected := mret (Some (GEM_STOP_INVARIANT_VIOLATION,
      Some (i386_set_last_stop r (i386_stop_with_reason GEM_STOP_INVARIANT_VIOLATION)), c)) in
    match c with
    | None => rejected
    | Some d =>
      if ir_running r || ir_backend_failed r || negb (gem_i386_context_is_valid c) ||
         (negb (ic_max_budget (ir_config r) =? 0) && (ic_max_budget (ir_config r) <? budget))
      then rejected
      else if budget =? 0 then
        mret (Some (GEM_STOP_BUDGET_EXPIRED,
          Some (i386_set_last_stop r (i386_stop_with_reason GEM_STOP_BUDGET_EXPIRED)),
          Some (i386_with_stop_reason d GEM_STOP_BUDGET_EXPIRED)))
      else
        '(finished, reason, r, d, retired) ←
           i386_run_loop fuel budget GEM_STOP_BUDGET_EXPIRED
             (i386_set_running (i386_set_last_stop r i386_stop_zero) true) d 0;
        mret (if (finished : bool)
              then let '(reason, r, d) := i386_run_finish reason r d retired in Some (reason, Some r, Some d)
              else None)
    end
  end.

Definition gem_i386_runtime_invalidate_code (r : option gem_i386_runtime) (a n : Z)
  : option gem_i386_runtime :=
  match r with
  | None => None
  | Some r =>
    if ir_running r then Some (i386_set_backend_failed r)
    else
      let '(ok, r) := op_invalidate_code ops r a n in
      Some (if negb ok then i386_set_backend_failed r else r)
  end.

Definition gem_i386_runtime_engine_name (r : option gem_i386_runtime) : string :=
  match r with Some _ => default "unavailable"%string (op_engine_name ops) | None => "unavailable" end.
End run.

Definition gem_i386_runtime_last_stop_info (r : option gem_i386_runtime) (has_out : bool)
  : option gem_i386_stop_info :=
  match r with Some r => if has_out then Some (ir_last_stop r) else None | None => None end.

(** [abi_ok]: the caller's structure has the current version and size. *)
Definition gem_i386_runtime_performance_info (r : option gem_i386_runtime) (abi_ok : bool)
  : option gem_i386_performance_info :=
  match r with Some r => if abi_ok then Some (ir_performance r) else None | None => None end.

Definition gem_i386_runtime_request_async_stop (r : option gem_i386_runtime) : option gem_i386_runtime :=
  match r with
  | Some r => Some (i386_set_async r (AtomicFlag true (af_stores (ir_async_stop_requested r))))
  | None => None
  end.
End runtime.
