(* ===== verification/I386EngineProperties.v ===== *)
(** I386EngineProperties: what a run of the 32-bit engine guarantees.

    The front end is proved against an interface, [I386OpsOk]: what a table of
    engine operations promises.  The Blink tables implement it as long as the
    emulator does not meet a system call as the first instruction of a quantum;
    [i386_trap_uninitialised] shows what the code does then. *)
From S2P Require Import Prelude Context MemoryModel Memory MemoryLogic MemoryInv MemoryTotal MemorySpec.
From S2P Require Import Transaction TransactionInv TransactionWorld I386Memory Blink X64Engine X64EngineProperties I386Engine.

(** ** Results of Blink calls *)

(** Every result the call can return satisfies [P]. *)
Fixpoint returns {A} (P : A -> Prop) (t : blink_run A) : Prop :=
  match t with
  | BlinkReturn a => P a
  | BlinkSnapshot _ k => forall e data protection, returns P (k e data protection)
  | BlinkValidate _ _ _ k => forall e, returns P (k e)
  | BlinkCommit _ k => forall e fault, returns P (k e fault)
  | BlinkAsyncStop k => forall b, returns P (k b)
  end.

Lemma run_blink_returns {S A} (cb : blink_gem_callbacks S) (P : A -> Prop) (t : blink_run A) s m a s' m' :
  returns P t -> run_blink cb t s m = Ok ((a, s'), m') -> P a.
Proof.
  revert s m. induction t as [b|b k IH|b n x k IH|ws k IH|k IH]; intros s m Ht; cbn [run_blink];
    [by intros [= <- <- <-]|..]; unfold mbind, M_bind.
  - destruct (cb_snapshot cb b s m) as [[[[[e d] p] s1] m1]| |]; [|done..]. by apply IH.
  - destruct (cb_validate cb b n x s m) as [[[e s1] m1]| |]; [|done..]. by apply IH.
  - destruct (cb_commit cb ws s m) as [[[[e f] s1] m1]| |]; [|done..]. by apply IH.
  - destruct (cb_async_stop cb s m) as [[[c s1] m1]| |]; [|done..]. by apply IH.
Qed.

Lemma returns_map {A B} (P : B -> Prop) (f : A -> B) (t : blink_run A) :
  returns (fun a => P (f a)) t -> returns P (run_map f t).
Proof. induction t; cbn; eauto. Qed.

Lemma returns_True {A} (P : A -> Prop) (t : blink_run A) : (forall a, P a) -> returns P t.
Proof. intros HP. induction t; cbn; eauto. Qed.

(** ** Contexts *)

(** What an i386 run keeps of a context. *)
Definition i386_frame (c d : gem_i386_context) : Prop :=
  i_layout_version d = i_layout_version c /\ i_context_size d = i_context_size c /\
  i_teb d = i_teb c /\ i_reserved0 d = i_reserved0 c /\
  i_transition_cookie d = i_transition_cookie c /\
  gem_i386_context_is_valid (Some d) = gem_i386_context_is_valid (Some c).

#[export] Instance i386_frame_po : PreOrder i386_frame.
Proof.
  split; [by intros c|]. intros a b c (? & ? & ? & ? & ? & ?) (? & ? & ? & ? & ? & ?). by split_and!; etrans.
Qed.

(** The state that comes back from the emulator never makes a valid context
    invalid. *)
Lemma export_frame s c : gem_i386_context_is_valid (Some c) = true -> i386_frame c (export_state s c).
Proof.
  intros Hv. split_and!; [done..|]. rewrite Hv. revert Hv. unfold gem_i386_context_is_valid, export_state.
  cbn [i_layout_version i_context_size i_teb i_eflags i_reserved0 i_union i_stop_reason].
  assert (has_bits (((wrap32 (s_rflags s) .&~ 0x3000) .| 0x200) .| GEM_I386_EFLAGS_REQUIRED)
    GEM_I386_EFLAGS_REQUIRED = true) as ->.
  { unfold has_bits. apply negb_true_iff, Z.eqb_neq. intros H0.
    apply (f_equal (fun x => Z.testbit x 1)) in H0. rewrite Z.land_spec, Z.lor_spec in H0. cbn in H0.
    by rewrite orb_true_r in H0. }
  destruct (has_bits (i_eflags c) _); cbn [negb]; [|by rewrite !orb_true_r].
  destruct (_ || _); [done|]. intros H. revert H.
  unfold GEM_I386_CONTEXT_LAYOUT_VERSION_V1, GEM_I386_CONTEXT_LAYOUT_VERSION_V2.
  destruct (Z.leb_spec 2 (i_layout_version c)); [|by destruct (i_layout_version c =? 1)].
  rewrite (proj2 (Z.eqb_neq _ _)) by lia. unfold i386_x87_reserved. cbn [i_union]. done.
Qed.

Lemma i386_stop_frame c reason :
  gem_i386_context_is_valid (Some c) = true -> i386_frame c (i386_with_stop_reason c reason).
Proof.
  intros Hv. split_and!; [done..|]. rewrite Hv. revert Hv. unfold gem_i386_context_is_valid.
  cbn [i_layout_version i_context_size i_teb i_eflags i_reserved0 i_union i_stop_reason i386_with_stop_reason].
  change (i386_x87_reserved (i386_with_stop_reason c reason)) with (i386_x87_reserved c).
  destruct (_ || _); [done|]. destruct (negb _); [done|]. by destruct reason.
Qed.

(** ** The interface *)

Section safety.
Context {platform : Platform} {blink : Blink}.
Variable pins : bid -> Z.
Variable L : gmap Z (Z * Z).
Hypothesis Hp : forall b, 0 <= pins b.

(** The runtime's transaction owns its references. *)
Definition i386_owned (r : gem_i386_runtime) (m : mem) : Prop :=
  st (pins_add pins (handle_refs (ir_transaction r))) L m.

(** What the operations leave of the runtime. *)
Definition ops_frame (r r' : gem_i386_runtime) : Prop :=
  ir_config r' = ir_config r /\ ir_running r' = ir_running r /\
  ir_backend_failed r' = ir_backend_failed r /\ ir_quantum_budget r' = ir_quantum_budget r /\
  ir_consecutive_conflicts r' = ir_consecutive_conflicts r /\
  pf_retries (ir_performance r') = pf_retries (ir_performance r) /\
  (is_Some (ir_backend r) -> is_Some (ir_backend r')).

#[export] Instance ops_frame_po : PreOrder ops_frame.
Proof.
  split; [by intros r|]. intros a b c (? & ? & ? & ? & ? & ? & ?) (? & ? & ? & ? & ? & ? & ?).
  split_and!; try (by etrans). auto.
Qed.

(** The outcome of running a quantum of at most [b] instructions. *)
Definition op_run_post (r : gem_i386_runtime) (c : gem_i386_context) (b : Z)
    (out : gem_stop_reason * gem_i386_runtime * option gem_i386_context * Z) (m : mem) : Prop :=
  let '(reason, r', o, n) := out in
  i386_owned r' m /\ ops_frame r r' /\ 0 <= n <= b /\ reason <> GEM_STOP_BUDGET_EXPIRED /\
  (reason = GEM_STOP_NONE -> 1 <= n) /\
  (forall d, o = Some d -> i386_frame c d) /\
  (i386_writes_back r' reason n = true -> is_Some o) /\
  (reason = GEM_STOP_HOST_RETURN -> i_eip <$> o = Some (ic_host_return_sentinel (ir_config r))).

(** What a table of operations promises. *)
Class I386OpsOk (ops : gem_i386_engine_ops) : Prop := {
  op_sync_ok r : is_Some (ir_backend r) ->
    triple (i386_owned r) (op_sync ops r) (fun r' m => i386_owned r' m /\ ops_frame r r');
  op_run_ok r c b : is_Some (ir_backend r) -> 0 < b -> gem_i386_context_is_valid (Some c) = true ->
    triple (i386_owned r) (op_run ops r c b) (op_run_post r c b) }.

Section loop.
Context {ops : gem_i386_engine_ops} {Hops : I386OpsOk ops}.

(** ** One quantum *)

Lemma finish_owned r :
  triple (i386_owned r) (gem_memory_transaction_finish (ir_transaction r))
    (fun out m => i386_owned r m).
Proof.
  apply triple_pre. intros m Hm. unfold gem_memory_transaction_finish.
  destruct (ir_transaction r) as [t|] eqn:Ht; [|apply triple_ret; by intros ? ->].
  eapply triple_bind; [by eapply find_conflict_triple|]. intros c. apply triple_ret. by intros ? ->.
Qed.

Definition quantum_post (r : gem_i386_runtime) (c : gem_i386_context) (b : Z)
    (out : gem_stop_reason * gem_i386_runtime * gem_i386_context * Z) (m : mem) : Prop :=
  let '(reason, r', c', n) := out in
  st pins L m /\ ir_transaction r' = None /\ ops_frame r r' /\ 0 <= n <= b /\
  reason <> GEM_STOP_BUDGET_EXPIRED /\ (reason = GEM_STOP_NONE -> 1 <= n) /\ i386_frame c c' /\
  (reason = GEM_STOP_HOST_RETURN -> i_eip c' = ic_host_return_sentinel (ir_config r)).

Lemma i386_quantum_triple r c b :
  is_Some (ir_backend r) -> 0 < b -> gem_i386_context_is_valid (Some c) = true ->
  triple (i386_owned r) (i386_quantum ops r c b) (quantum_post r c b).
Proof.
  intros Hg Hb Hv. unfold i386_quantum. eapply triple_bind; [by apply op_sync_ok|]. intros r1.
  apply triple_pre. intros m [Hm Hf1].
  eapply triple_bind.
  { eapply triple_conseq; [apply (op_run_ok (i386_count count_quantum r1) c b); [by apply Hf1|done|done]| |
      intros a m' Hm'; exact Hm']. by intros m' ->. }
  intros [[[reason r2] o] n]. apply triple_pre. intros m2 (Hm2 & Hf2 & Hn & Hne & Hnone & Ho & Hsome & Hhost).
  assert (ops_frame r r2) as Hf by by etrans.
  eapply triple_bind; [eapply triple_conseq; [apply (finish_owned r2)|by intros ? ->|intros ? ? HQ; exact HQ]|].
  intros [te tf].
  set (post := if bool_decide (te = GEM_MEMORY_CONFLICT) then _ else _).
  assert (exists reason' r' o' n', post = (reason', r', o', n') /\ ir_transaction r' = ir_transaction r2 /\
    ops_frame r r' /\ 0 <= n' <= b /\ reason' <> GEM_STOP_BUDGET_EXPIRED /\
    (reason' = GEM_STOP_NONE -> 1 <= n') /\ (forall d, o' = Some d -> i386_frame c d) /\
    (i386_writes_back r' reason' n' = true -> is_Some o') /\
    (reason' = GEM_STOP_HOST_RETURN -> i_eip <$> o' = Some (ic_host_return_sentinel (ir_config r))))
    as (reason' & r' & o' & n' & -> & Ht & Hf' & Hn' & Hne' & Hnone' & Ho' & Hsome' & Hhost').
  { subst post. destruct (bool_decide (te = GEM_MEMORY_CONFLICT)).
    { eexists _, _, _, _. split; [done|]. split_and!; try done; try lia. by intros d [= <-]. }
    destruct (bool_decide (te = GEM_MEMORY_OK)); cbn [negb]; eexists _, _, _, _; (split; [done|]);
      split_and!; try done; try lia.
    - intros H. rewrite (Hhost H). destruct Hf1 as (Hc & _). cbn [ir_config i386_count]. by rewrite Hc.
    - unfold i386_writes_back. intros H. apply Hsome. unfold i386_writes_back.
      destruct (negb (n =? 0)); [done|]. cbn in H. discriminate. }
  clear Hhost Hsome Ho Hnone Hne Hn.
  assert (forall reason c', reason <> GEM_STOP_BUDGET_EXPIRED -> (reason = GEM_STOP_NONE -> 1 <= n') ->
    i386_frame c c' -> (reason = GEM_STOP_HOST_RETURN -> i_eip c' = ic_host_return_sentinel (ir_config r)) ->
    triple (i386_owned r2) (gem_memory_transaction_end (ir_transaction (i386_count (count_retired n') r'));;
      mret (reason, i386_set_transaction (i386_count (count_retired n') r') None, c', n')) (quantum_post r c b)) as Hend.
  { intros reason0 c' H1 H2 H3 H4. cbn [ir_transaction i386_count]. rewrite Ht.
    eapply triple_bind; [apply (end_owned pins L (ir_transaction r2) Hp)|]. intros u. apply triple_ret.
    intros m3 Hm3. split_and!; try done; [exact (proj1 (st_pins_nil pins L m3) Hm3)|lia..]. }
  destruct (i386_writes_back r' reason' n') eqn:Hw.
  - destruct (Hsome' eq_refl) as [d ->]. specialize (Ho' d eq_refl).
    destruct (negb (gem_i386_context_is_valid (Some d))).
    + by apply Hend.
    + apply Hend; try done. intros H. specialize (Hhost' H). by injection Hhost'.
  - apply Hend; try done. intros ->. unfold i386_writes_back in Hw. cbn in Hw. by rewrite orb_true_r in Hw.
Qed.
(** ** The loop *)

(** The adaptive quantum stays between 1 and 256. *)
Definition quantum_ok (r : gem_i386_runtime) : Prop :=
  1 <= ir_quantum_budget r <= 256 /\ 0 <= ir_consecutive_conflicts r < 8.

Lemma shrink_quantum_ok r : quantum_ok r -> quantum_ok (shrink_quantum r).
Proof.
  unfold quantum_ok, shrink_quantum. cbn [ir_quantum_budget ir_consecutive_conflicts i386_set_quantum].
  intros [Hq Hc]. unfold wrap32. rewrite Z.mod_small by lia. split.
  - destruct (Z.ltb_spec 1 (ir_quantum_budget r)); [|lia].
    split; [apply Z.div_le_lower_bound; lia|apply Z.div_le_upper_bound; lia].
  - destruct (Z.leb_spec 8 (ir_consecutive_conflicts r + 1)); lia.
Qed.

Lemma grow_quantum_ok r : quantum_ok r -> quantum_ok (grow_quantum r).
Proof.
  unfold quantum_ok, grow_quantum. cbn [ir_quantum_budget ir_consecutive_conflicts i386_set_quantum].
  intros [Hq Hc]. split; [|done]. unfold wrap32.
  destruct (Z.ltb_spec (ir_quantum_budget r) 256); [rewrite Z.mod_small by lia|].
  - destruct (Z.ltb_spec 256 (ir_quantum_budget r * 2)); lia.
  - destruct (Z.ltb_spec 256 (ir_quantum_budget r)); lia.
Qed.

(** What never changes during a run. *)
Definition run_frame (r r' : gem_i386_runtime) : Prop :=
  ir_config r' = ir_config r /\ ir_running r' = ir_running r /\ ir_backend_failed r' = ir_backend_failed r.

(** The number of conflicts so far is what [retries] has grown by. *)
Definition retried (r r' : gem_i386_runtime) (k : Z) : Prop :=
  pf_retries (ir_performance r') = wrap64 (pf_retries (ir_performance r) + k).

Definition i386_loop_post (fuel : nat) (budget : Z) (r : gem_i386_runtime) (c : gem_i386_context)
    (retired : Z) (out : bool * gem_stop_reason * gem_i386_runtime * gem_i386_context * Z) (m : mem) : Prop :=
  let '(finished, reason, r', c', retired') := out in
  st pins L m /\ ir_transaction r' = None /\ run_frame r r' /\ quantum_ok r' /\ is_Some (ir_backend r') /\
  i386_frame c c' /\ retired <= retired' <= budget /\
  (reason = GEM_STOP_NONE \/ reason = GEM_STOP_BUDGET_EXPIRED -> finished = true -> retired' = budget) /\
  (reason = GEM_STOP_HOST_RETURN -> i_eip c' = ic_host_return_sentinel (ir_config r)) /\
  exists k, 0 <= k <= Z.of_nat fuel /\ retried r r' k /\
    (finished = false -> Z.of_nat fuel <= k + (retired' - retired)).

Lemma i386_run_loop_triple fuel budget reason r c retired :
  reason <> GEM_STOP_HOST_RETURN -> 0 <= retired <= budget -> budget < 2 ^ 64 ->
  is_Some (ir_backend r) -> quantum_ok r -> gem_i386_context_is_valid (Some c) = true ->
  0 <= pf_retries (ir_performance r) < 2 ^ 64 -> ir_transaction r = None ->
  triple (st pins L) (i386_run_loop ops fuel budget reason r c retired) (i386_loop_post fuel budget r c retired).
Proof.
  revert reason r c retired. induction fuel as [|fuel IH];
    intros reason r c retired Hreason Hret Hbud Hg Hq Hv Hpf Ht; cbn [i386_run_loop];
    (destruct (Z.ltb_spec retired budget) as [Hlt|Hlt]; cbn [negb];
     [|apply triple_ret; intros m Hm; split_and!; try done; try lia;
       exists 0; unfold retried, wrap64; rewrite Z.mod_small by lia; split_and!; (done || lia)]).
  { apply triple_ret; intros m Hm; split_and!; try done; try lia.
    exists 0; unfold retried, wrap64; rewrite Z.mod_small by lia; split_and!; (done || lia). }
  set (b := if budget - retired <? ir_quantum_budget r then _ else _).
  assert (0 < b <= budget - retired) as Hb.
  { destruct Hq as [Hq _]. subst b. unfold wrap32.
    destruct (Z.ltb_spec (budget - retired) (ir_quantum_budget r)); [rewrite Z.mod_small by lia|]; lia. }
  clearbody b. eapply triple_bind; [apply (begin_owned pins L)|]. intros [t|].
  2:{ apply triple_ret. intros m Hm. split_and!; try done; try lia; try exact (proj1 (st_pins_nil pins L m) Hm); [naive_solver|].
      exists 0. unfold retried, wrap64. rewrite Z.add_0_r, Z.mod_small by done. done. }
  eapply triple_bind.
  { eapply triple_conseq; [apply (i386_quantum_triple (i386_set_transaction r (Some t)) c b); [done|lia|done]|done|
      intros a m Hm; exact Hm]. }
  intros [[[reason1 r1] c1] n]. apply triple_pre.
  intros m (Hm & Ht1 & (Hc1 & Hrun1 & Hbf1 & Hq1 & Hcc1 & Hpf1 & Hg1) & Hn & Hne & Hnone & Hf1 & Hhost).
  cbn [ir_config ir_running ir_backend_failed ir_quantum_budget ir_consecutive_conflicts ir_performance
    ir_backend i386_set_transaction] in *.
  assert (wrap64 (retired + n) = retired + n) as -> by (unfold wrap64; apply Z.mod_small; lia).
  assert (quantum_ok r1) as Hq1' by (unfold quantum_ok in *; by rewrite Hq1, Hcc1).
  assert (gem_i386_context_is_valid (Some c1) = true) as Hv1.
  { destruct Hf1 as (_ & _ & _ & _ & _ & ->). done. }
  assert (forall fuel' r2 k0 reason2, ir_transaction r2 = None -> run_frame r r2 -> quantum_ok r2 ->
      is_Some (ir_backend r2) -> retried r r2 k0 -> 0 <= k0 <= 1 -> (fuel' = S fuel) -> 1 <= k0 + n ->
      reason2 <> GEM_STOP_HOST_RETURN ->
      triple (st pins L) (i386_run_loop ops fuel budget reason2 r2 c1 (retired + n))
        (i386_loop_post (S fuel) budget r c retired)) as Hnext.
  { intros _ r2 k0 reason2 H1 (H2 & H3 & H4) H5 H6 H7 H8 _ H9 H10.
    eapply triple_conseq; [apply (IH reason2 r2 c1 (retired + n)); try done; [lia|]|done|].
    { rewrite H7. apply Z.mod_pos_bound. lia. }
    intros [[[[f3 reason3] r3] c3] ret3] m3 (? & ? & (E1 & E2 & E3) & ? & ? & ? & ? & ? & Hh3 & k & Hk & Hr3 & Hfu).
    rewrite H2 in Hh3. split_and!; try done; try lia; try (by etrans).
    - split_and!; by etrans.
    - exists (k0 + k). split; [lia|]. split; [|intros Hf3; specialize (Hfu Hf3); lia]. unfold retried in *. rewrite Hr3, H7.
      unfold wrap64. rewrite Zplus_mod_idemp_l. f_equal. lia. }
  destruct (i386_is_conflict r1 reason1).
  - eapply triple_conseq; [apply (Hnext (S fuel) _ 1); try done|by intros ? ->|done].
    + apply shrink_quantum_ok, Hq1'.
    + by apply Hg1.
    + unfold retried. cbn. by rewrite Hpf1.
    + lia.
  - destruct (bool_decide_reflect (reason1 = GEM_STOP_NONE)) as [->|Hr1].
    + specialize (Hnone eq_refl). eapply triple_conseq; [apply (Hnext (S fuel) _ 0); try done|by intros ? ->|done].
      * apply grow_quantum_ok. split; [apply Hq1'|cbn; lia].
      * by apply Hg1.
      * unfold retried. cbn. rewrite Hpf1, Z.add_0_r. unfold wrap64. by rewrite Z.mod_small.
    + apply triple_ret. intros m' ->. split_and!; try done; try lia.
      * split; [apply Hq1'|cbn; lia].
      * by apply Hg1.
      * naive_solver.
      * exists 0. unfold retried, wrap64. cbn. rewrite Hpf1, Z.add_0_r, Z.mod_small by done. done.
Qed.
End loop.

(** ** The Blink tables *)

Lemma i386_callbacks_keep r0 : callbacks_keep i386_callbacks (fun r m => i386_owned r m /\ ops_frame r0 r).
Proof.
  assert (forall (A : Type) f (g : A -> _) r,
    (forall t, triple (st (pins_add pins (handle_refs t)) L) (f t) (fun a => st (pins_add pins (handle_refs (g a))) L)) ->
    triple (fun m => i386_owned r m /\ ops_frame r0 r) (f (ir_transaction r))
      (fun a m => i386_owned (i386_set_transaction r (g a)) m /\ ops_frame r0 (i386_set_transaction r (g a)))) as Hown.
  { intros A f g r Hf m [Hm Hr]. specialize (Hf _ _ Hm). by destruct (f _ m) as [[a m']| |]. }
  split.
  - intros a r. cbn [cb_snapshot i386_callbacks]. unfold i386_snapshot. destruct (negb _); [by apply triple_ret|].
    eapply triple_bind;
      [apply (Hown _ (fun t => gem_memory_transaction_snapshot_page t a true true) (fun x => x.1.2));
       intros t; by apply snapshot_owned|]. intros [[e t] o]. apply triple_ret. intros m Hm. cbn [fst snd] in *.
    by destruct (bool_decide (e = GEM_MEMORY_OK)).
  - intros a n x r. cbn [cb_validate i386_callbacks]. unfold i386_validate. destruct (negb _); [by apply triple_ret|].
    eapply triple_bind;
      [apply (Hown _ (fun t => gem_memory_transaction_validate t a n _ _) (fun x => x.2));
       intros t; by apply validate_owned|]. intros [e t]. by apply triple_ret.
  - intros ws r. cbn [cb_commit i386_callbacks]. unfold i386_commit.
    destruct (bool_decide _); [by apply triple_ret|]. eapply triple_bind.
    { intros m [Hm Hr]. pose proof (alloc_triple _ _ _ Hm) as Ha.
      instantiate (1 := fun _ m => i386_owned r m /\ ops_frame r0 r). by destruct (alloc m) as [[p m']| |]. }
    intros [p|]; [|by apply triple_ret]. destruct (negb _); [by apply triple_ret|].
    eapply triple_bind;
      [apply (Hown _ (fun t => gem_memory_transaction_commit_pages t _ _) (fun x => x.1.2));
       intros t; by apply commit_owned|]. intros [[[e f] t] k]. apply triple_ret. intros m Hm. cbn [fst snd] in *.
    by destruct (bool_decide (e = GEM_MEMORY_OK)).
  - intros r. cbn [cb_async_stop i386_callbacks]. unfold async_stop.
    destruct (exchange_false _) as [b f]. by apply triple_ret.
Qed.

Lemma machine_triple {A} (call : blink_machine -> blink_run (blink_machine * A)) P r :
  is_Some (ir_backend r) -> (forall g, returns P (call g)) ->
  triple (i386_owned r) (i386_machine call r)
    (fun x m => i386_owned x.2 m /\ ops_frame r x.2 /\ exists g, ir_backend x.2 = Some g /\ P (g, x.1)).
Proof.
  intros [g Hg] HP m Hm. unfold i386_machine. rewrite Hg. unfold mbind, M_bind.
  pose proof (run_blink_keeps i386_callbacks _ (call g) r (i386_callbacks_keep r) m) as Hk.
  pose proof (run_blink_returns i386_callbacks P (call g) r m) as Hr.
  destruct (run_blink i386_callbacks (call g) r m) as [[[[g' a] r'] m']| |]; [|done|by apply Hk].
  specialize (Hk ltac:(by split)) as [Ho Hf]. specialize (Hr _ _ _ (HP g) eq_refl).
  split; [done|]. split; [|by exists g'].
  destruct Hf as (? & ? & ? & ? & ? & ? & _). by split_and!.
Qed.

(** What the emulator promises of a batched run: it retires no more than it was
    asked to, and does not meet a system call before anything has retired. *)
Definition i386_trap (attempt : option blink_gem_decode_attempt) : bool :=
  attempted attempt "OpInterruptImm" || attempted attempt "OpSysenter".
Definition run_leaf_ok (budget : Z) (x : blink_machine * blink_gem_result * blink_gem_state) : Prop :=
  let '(g, br, _) := x in
  0 <= br_retired br <= budget /\
  (br_outcome br = BLINK_GEM_UNSUPPORTED -> br_retired br = 0 ->
   i386_trap (blink_gem_machine_decode_attempt_info g) = false).
Class BlinkRunOk : Prop := blink_run_ok : forall g request s,
  0 < rq_instruction_budget request ->
  returns (run_leaf_ok (rq_instruction_budget request)) (blink_gem_machine_run g request s).

Lemma unsupported_reason attempt :
  let '(reason, _) := i386_unsupported attempt in
  (reason = GEM_STOP_WINDOWS_EXCEPTION \/ reason = GEM_STOP_UNSUPPORTED_INSTRUCTION) \/
  (reason = GEM_STOP_SYSCALL /\ i386_trap attempt = true).
Proof.
  unfold i386_unsupported, i386_trap. destruct (attempted attempt "OpInterrupt3"); [auto|].
  destruct (attempted attempt "OpInto"); [auto|]. destruct (attempted attempt "OpUd"); [auto|].
  destruct (_ || _); auto.
Qed.

Lemma returns_with_result (P : blink_machine * (blink_gem_result * blink_gem_state) -> Prop) t :
  returns (fun x => P (with_result x)) t -> returns P (run_map with_result t).
Proof. apply returns_map. Qed.

Lemma blink_run_triple `{!BlinkRunOk} r c b :
  is_Some (ir_backend r) -> 0 < b -> gem_i386_context_is_valid (Some c) = true ->
  triple (i386_owned r) (gem_i386_blink_run r c b) (op_run_post r c b).
Proof.
  intros Hg Hb Hv. unfold gem_i386_blink_run.
  eapply triple_bind.
  { eapply triple_conseq; [apply (machine_triple _ (fun '(g, (br, bo)) => run_leaf_ok b (g, br, bo))
      (i386_count count_import r)); [done|]|done|intros a m Hm; exact Hm].
    intros g. apply returns_with_result.
    pose proof (blink_run_ok g (RunRequest b (i386_stop_pcs (ir_config r))) (import_state c) Hb) as Hok.
    cbn [rq_instruction_budget] in Hok. revert Hok.
    generalize (blink_gem_machine_run g (RunRequest b (i386_stop_pcs (ir_config r))) (import_state c)).
    intros t. induction t; cbn; eauto. by destruct a as [[g' br] bo]. }
  intros [[br bo] r1]. cbn [fst snd]. apply triple_pre.
  intros m (Hm & (Hc & Hf) & g & Hg1 & Hn & Htrap). cbn [ir_config i386_count] in Hc.
  set (r2 := if i386_exports br then i386_count _ _ else _).
  set (o := if i386_exports br then _ else _).
  assert (ir_transaction r2 = ir_transaction r1 /\ ops_frame r r2 /\ ir_backend r2 = Some g /\
    is_engine_status (ir_last_stop r2) = br_engine_status br) as (Ht & Hf2 & Hg2 & Hst).
  { subst r2. destruct (i386_exports br); split_and!; done. }
  assert (forall d, o = Some d -> i386_frame c d) as Ho.
  { subst o. destruct (i386_exports br); [|done]. intros d [= <-]. by apply export_frame. }
  assert (i386_exports br = true -> o = Some (export_state bo c)) as Hexp by (subst o; by intros ->).
  clearbody o r2.
  assert (forall reason r3, ir_transaction r3 = ir_transaction r1 -> ops_frame r r3 ->
    reason <> GEM_STOP_BUDGET_EXPIRED -> (reason = GEM_STOP_NONE -> 1 <= br_retired br) ->
    (i386_writes_back r3 reason (br_retired br) = true -> i386_exports br = true) ->
    (reason = GEM_STOP_HOST_RETURN -> i_eip <$> o = Some (ic_host_return_sentinel (ir_config r))) ->
    triple (fun m' => m' = m) (mret (reason, r3, o, br_retired br)) (op_run_post r c b)) as Hpost.
  { intros reason r3 H1 H2 H3 H4 H5 H6. apply triple_ret. intros m' ->. split_and!; try done; [|lia|lia|].
    - unfold i386_owned in *. by rewrite H1.
    - intros Hw. by rewrite (Hexp (H5 Hw)). }
  destruct (br_outcome br) eqn:Hout.
  - apply Hpost; try done; [by destruct (_ =? _)|destruct (Z.eqb_spec (br_retired br) b); [lia|done]| |
      by destruct (_ =? _)].
    intros _. unfold i386_exports. by rewrite Hout.
  - apply Hpost; try done; [by destruct (_ =? _)|by destruct (_ =? _)|]. unfold i386_writes_back, i386_exports. rewrite Hout.
    destruct (negb (br_retired br =? 0)); [done|]. cbn [orb]. unfold BLINK_GEM_ENGINE_STATUS_RESTARTABLE_REP.
    destruct (Z.eqb_spec (br_engine_status br) 0x100) as [Heq|Hneq]; [done|]. rewrite Hst.
    intros Hw. cbn in Hw. by apply Z.eqb_eq in Hw.
  - rewrite Hg2. cbn [mbind option_bind]. specialize (Htrap eq_refl).
    pose proof (unsupported_reason (blink_gem_machine_decode_attempt_info g)) as Hu.
    destruct (i386_unsupported _) as [reason status].
    assert (reason <> GEM_STOP_BUDGET_EXPIRED /\ reason <> GEM_STOP_NONE /\ reason <> GEM_STOP_HOST_RETURN)
      as (? & ? & ?) by (destruct Hu as [[-> | ->]|[-> _]]; done).
    apply Hpost; [by destruct status|by destruct status|done|done| |done].
    + unfold i386_writes_back, i386_exports. rewrite Hout. destruct (Z.eqb_spec (br_retired br) 0) as [Hz|]; [|done].
      destruct Hu as [[-> | ->]|[-> Htr]]; cbn; try done. rewrite Htrap in Htr by done. done.
  - apply Hpost; try done. unfold i386_writes_back, i386_exports. rewrite Hout.
    destruct (negb (br_retired br =? 0)); done.
  - assert (forall reason r3, reason = GEM_STOP_WINDOWS_EXCEPTION \/ reason = GEM_STOP_INVARIANT_VIOLATION ->
      i386_writes_back r3 reason (br_retired br) = true -> i386_exports br = true) as Hw.
    { intros reason r3 Hr. unfold i386_writes_back, i386_exports. rewrite Hout.
      destruct (negb (br_retired br =? 0)); [done|]. by destruct Hr as [-> | ->]. }
    destruct (i386_exception _); apply Hpost; try done; apply Hw; auto.
  - specialize (Hexp ltac:(unfold i386_exports; by rewrite Hout)). subst o.
    assert (ic_host_return_sentinel (ir_config r2) = ic_host_return_sentinel (ir_config r)) as Hcfg
      by (destruct Hf2 as (Hf2 & _); by rewrite Hf2).
    unfold i386_stop_pc. destruct (Z.eqb_spec (i_eip (export_state bo c)) (ic_host_return_sentinel (ir_config r2)))
      as [He|He].
    + apply Hpost; try done; [by intros _; unfold i386_exports; rewrite Hout|]. intros _.
      cbn [fmap option_fmap option_map]. by rewrite He, Hcfg.
    + apply Hpost; try done; try (by destruct (negb _)). by intros _; unfold i386_exports; rewrite Hout.
  - apply Hpost; try done. by intros _; unfold i386_exports; rewrite Hout.
  - apply Hpost; try done; try (by destruct (_ && _)).
    + destruct (negb _ && _) eqn:E; [|done]. apply andb_true_iff in E as [E _]. bool_to_Z. lia.
    + by intros _; unfold i386_exports; rewrite Hout.
Qed.

Lemma blink_sync_triple r :
  is_Some (ir_backend r) ->
  triple (i386_owned r) (gem_i386_blink_sync r) (fun r' m => i386_owned r' m /\ ops_frame r r').
Proof.
  intros Hg. unfold gem_i386_blink_sync. eapply triple_bind.
  { apply (machine_triple _ (fun _ => True) r Hg). intros g. by apply returns_True. }
  intros [u r1]. apply triple_ret. by intros m (Hm & Hf & _).
Qed.

Definition is_blink_ops (ops : gem_i386_engine_ops) : Prop :=
  ops = gem_i386_blink_jit_ops \/ ops = gem_i386_blink_interpreter_ops.

(** The two tables of the code keep the promises of the interface. *)
Lemma blink_ops_ok `{!BlinkRunOk} ops : is_blink_ops ops -> I386OpsOk ops.
Proof.
  intros [-> | ->]; split; intros; by first [apply blink_sync_triple | apply blink_run_triple].
Qed.
End safety.

(** ** Runs *)

Section runs.
Context {platform : Platform} {blink : Blink}.

(** A runtime between runs. *)
Definition i386_ready (r : gem_i386_runtime) : Prop :=
  ir_transaction r = None /\ is_Some (ir_backend r) /\ quantum_ok r /\
  0 <= pf_retries (ir_performance r) < 2 ^ 64.

(** A run that passes its entry checks. *)
Definition i386_accepts (r : gem_i386_runtime) (d : gem_i386_context) (budget : Z) : Prop :=
  ir_running r = false /\ ir_backend_failed r = false /\ gem_i386_context_is_valid (Some d) = true /\
  (ic_max_budget (ir_config r) = 0 \/ budget <= ic_max_budget (ir_config r)).

#[export] Instance i386_accepts_dec r d budget : Decision (i386_accepts r d budget).
Proof. unfold i386_accepts; apply _. Defined.

Lemma i386_accepts_spec r d budget :
  ir_running r || ir_backend_failed r || negb (gem_i386_context_is_valid (Some d)) ||
    (negb (ic_max_budget (ir_config r) =? 0) && (ic_max_budget (ir_config r) <? budget)) =
  negb (bool_decide (i386_accepts r d budget)).
Proof.
  destruct (bool_decide_reflect (i386_accepts r d budget)) as [(-> & -> & -> & Hb)|Hn]; cbn [negb orb].
  - apply andb_false_iff. destruct Hb as [->|]; [by left|right; by apply Z.ltb_ge].
  - apply not_false_iff_true. intros Hf. destruct Hn. bool_to_Z. split_and!; try done.
    match goal with H : _ && _ = false |- _ => apply andb_false_iff in H as [H|H]; bool_to_Z; auto end.
Qed.

(** The run, for any layout of the reservations. *)
Lemma i386_run_inside `{!BlinkRunOk} pins L ops fuel r d budget m :
  is_blink_ops ops -> (forall b, 0 <= pins b) -> st pins L m -> i386_ready r -> 0 <= budget < 2 ^ 64 ->
  match gem_i386_runtime_run ops fuel (Some r) (Some d) budget m with
  | Fault => False
  | Err _ => True
  | Ok (None, m') => st pins L m'
  | Ok (Some (reason, r', c'), m') =>
    st pins L m' /\
    exists r1, r' = Some r1 /\ i386_ready r1 /\ ir_config r1 = ir_config r /\
      ir_running r1 = ir_running r /\ ir_backend_failed r1 = ir_backend_failed r /\
      is_reason (ir_last_stop r1) = reason /\
      if bool_decide (i386_accepts r d budget) then
        exists d' retired, c' = Some d' /\ is_instructions_retired (ir_last_stop r1) = wrap32 retired /\
          0 <= retired <= budget /\ reason <> GEM_STOP_NONE /\
          (reason = GEM_STOP_BUDGET_EXPIRED -> retired = budget) /\ i386_frame d d' /\
          (reason = GEM_STOP_HOST_RETURN -> i_eip d' = ic_host_return_sentinel (ir_config r)) /\
          (reason <> GEM_STOP_INVARIANT_VIOLATION -> i_stop_reason d' = stop_value reason)
      else r1 = i386_set_last_stop r (i386_stop_with_reason GEM_STOP_INVARIANT_VIOLATION) /\
           reason = GEM_STOP_INVARIANT_VIOLATION /\ c' = Some d /\ m' = m
  end.
Proof.
  intros Hops Hp Hst (Ht & Hg & Hq & Hpf) Hb.
  unfold gem_i386_runtime_run. rewrite i386_accepts_spec.
  destruct (bool_decide_reflect (i386_accepts r d budget)) as [Ha|Ha]; cbn [negb].
  2:{ split; [done|]. eexists. by split_and!. }
  destruct (Z.eqb_spec budget 0) as [->|Hb0].
  { split; [done|]. eexists. split_and!; try done. exists (i386_with_stop_reason d GEM_STOP_BUDGET_EXPIRED), 0.
    split_and!; try done. by apply i386_stop_frame, Ha. }
  unfold mbind, M_bind.
  pose proof (i386_run_loop_triple pins L Hp (ops := ops) (Hops := blink_ops_ok pins L Hp ops Hops)
    fuel budget GEM_STOP_BUDGET_EXPIRED (i386_set_running (i386_set_last_stop r i386_stop_zero) true) d 0
    ltac:(done) ltac:(lia) ltac:(lia) Hg Hq (proj1 (proj2 (proj2 Ha))) Hpf Ht m Hst) as Hloop.
  destruct (i386_run_loop _ _ _ _ _ _ _ m) as [[[[[[finished reason] r'] d'] retired] m']| |]; [|done..].
  destruct Hloop as (Hst' & Ht' & (Hc & _ & Hbf) & Hq' & Hg' & Hf & Hret & Hexp & Hhost & k & Hk & Hretried & _).
  destruct finished; [|done]. unfold i386_run_finish.
  set (final := if bool_decide (reason = GEM_STOP_NONE) then _ else _).
  assert (final <> GEM_STOP_NONE /\ (final = GEM_STOP_BUDGET_EXPIRED -> retired = budget) /\
    (final = GEM_STOP_HOST_RETURN -> reason = GEM_STOP_HOST_RETURN)) as (H1 & H2 & H3).
  { subst final. destruct (bool_decide_reflect (reason = GEM_STOP_NONE)); naive_solver. }
  clearbody final. split; [done|]. eexists. split_and!; try done.
  - split_and!; try done; unfold retried in Hretried; cbn [ir_performance i386_set_running i386_set_last_stop] in *;
      rewrite Hretried; apply Z.mod_pos_bound; lia.
  - symmetry. apply Ha.
  - set (d2 := if bool_decide _ then _ else _). exists d2, retired.
    assert (d2 = d' \/ d2 = i386_with_stop_reason d' final) as Hd2 by (subst d2; destruct (bool_decide _); auto).
    split_and!; try done; try lia.
    + etrans; [exact Hf|]. destruct Hd2 as [-> | ->]; [done|].
      apply i386_stop_frame. destruct Hf as (_ & _ & _ & _ & _ & ->). apply Ha.
    + intros Hh. specialize (Hhost (H3 Hh)). by destruct Hd2 as [-> | ->].
    + intros Hh. subst d2. by rewrite bool_decide_false.
Qed.


End runs.

(** ** Concrete emulators *)

(** One instruction per quantum, which increments the first byte of its page;
    the registers move on by sixteen bytes. *)
Definition quantum_end (outcome : blink_gem_outcome) (n : Z) : blink_gem_result := BlinkResult outcome n 0 0 0 0.
Definition counting32_run (request : blink_gem_run_request) (s : blink_gem_state)
  : blink_run (unit * blink_gem_result * blink_gem_state) :=
  if bool_decide (s_rip s ∈ rq_stop_pcs request) then BlinkReturn (tt, quantum_end BLINK_GEM_STOP_PC 0, s)
  else
    let page := s_rip s .&~ 4095 in
    BlinkSnapshot page (fun e data _ =>
      match e, data with
      | GEM_MEMORY_OK, Some data =>
        BlinkCommit [BlinkWrite page (bump data)] (fun e _ =>
          match e with
          | GEM_MEMORY_OK =>
            if 1 <=? rq_instruction_budget request
            then BlinkReturn (tt, quantum_end BLINK_GEM_QUANTUM_BOUNDARY 1, with_rip s (s_rip s + 16))
            else BlinkReturn (tt, quantum_end BLINK_GEM_INVALID 0, s)
          | e => BlinkReturn (tt, blink_fault page e, s)
          end)
      | e, _ => BlinkReturn (tt, blink_fault page e, s)
      end).
Definition machine32 (run : blink_gem_run_request -> blink_gem_state ->
    blink_run (unit * blink_gem_result * blink_gem_state))
    (attempt : option blink_gem_decode_attempt) : Blink :=
  {| blink_machine := unit;
     blink_gem_machine_create_with_config _ _ := Some tt;
     blink_gem_machine_step _ := counting_step;
     blink_gem_machine_run _ := run;
     blink_gem_machine_sync g := BlinkReturn g;
     blink_gem_machine_decode_attempt_info _ := attempt;
     blink_gem_machine_invalidate_code _ _ _ := (true, tt);
     blink_gem_machine_trace_reset g := g |}.
Definition counting32 : Blink := machine32 counting32_run None.

Lemma blink_fault_leaf run budget page e s :
  0 < budget -> run_leaf_ok (blink := machine32 run None) budget (tt, blink_fault page e, s).
Proof. intros Hb. split; [cbn; lia|done]. Qed.

Lemma counting32_ok : BlinkRunOk (blink := counting32).
Proof.
  intros [] request s Hb. cbn [blink_gem_machine_run counting32 machine32]. unfold counting32_run.
  destruct (bool_decide _); [split; [cbn; lia|done]|]. cbn [returns]. intros e data _.
  destruct e; try (by apply blink_fault_leaf). destruct data as [data|]; [|by apply blink_fault_leaf].
  intros e _. destruct e; try (by apply blink_fault_leaf).
  destruct (Z.leb_spec 1 (rq_instruction_budget request)); split; cbn; (lia || done).
Qed.

(** Code at 0x400000, and the 32-bit context that runs it. *)
Definition code32 (calls : list memory_call) : mem :=
  wd_memory (history (littered 0) (EvCall <$>
    [CallReserve (Some 0x400000) 8192; CallCommit 0x400000 4096 GEM_PAGE_EXECUTE_READWRITE] ++ calls)).
Definition context32 : gem_i386_context :=
  let c := gem_i386_context_initialize 0x7000 in
  I386Context (i_layout_version c) (i_context_size c) (i_gpr c) 0x400000 (i_eflags c) (i_segment c)
    (i_segment_base c) (i_segment_limit c) (i_segment_attributes c) (i_xmm c) (i_x87 c) (i_mxcsr c)
    (i_fcw c) (i_fsw c) (i_ftw c) (i_fop c) (i_teb c) (i_reserved0 c) (i_transition_cookie c)
    (i_stop_reason c) (i_union c).
Definition runtime32 (b : Blink) (g : blink_machine (Blink := b)) : gem_i386_runtime (blink := b) :=
  I386Runtime (blink := b)
    (default i386_config_zero (i386_configure (Some (I386Config 0x400030 0 0 0 0 0 [0; 0; 0; 0])) GEM_I386_ENGINE_JIT))
    i386_stop_zero (Some g) None i386_performance_zero 64 0 false false (AtomicFlag false []).

(** The reason, the instructions retired, the program counter and the first
    byte of the page. *)
Definition run32 (b : Blink) (g : blink_machine (Blink := b)) (m : mem) (fuel : nat) (budget : Z)
  : result unit (option (gem_stop_reason * Z * Z) * option Z) :=
  match gem_i386_runtime_run (platform := littered 0) (blink := b)
          (gem_i386_blink_jit_ops (platform := littered 0) (blink := b))
          fuel (Some (runtime32 b g)) (Some context32) budget m with
  | Ok (Some (reason, Some r, Some c), m) =>
      Ok (Some (reason, is_instructions_retired (ir_last_stop r), i_eip c), view m 0x400000 ≫= head)
  | Ok (_, m) => Ok (None, view m 0x400000 ≫= head)
  | Err e => Err e
  | Fault => Fault
  end.

Example run32_2 : run32 counting32 tt (code32 []) 5 2 = Ok (Some (GEM_STOP_BUDGET_EXPIRED, 2, 0x400020), Some 2).
Proof. vm_compute. reflexivity. Qed.
Example run32_9 : run32 counting32 tt (code32 []) 9 9 = Ok (Some (GEM_STOP_HOST_RETURN, 3, 0x400030), Some 3).
Proof. vm_compute. reflexivity. Qed.

Lemma code32_inv calls :
  Forall event_ok (EvCall <$> [CallReserve (Some 0x400000) 8192; CallCommit 0x400000 4096 GEM_PAGE_EXECUTE_READWRITE] ++ calls) ->
  3 + total_event_touches (EvCall <$> [CallReserve (Some 0x400000) 8192; CallCommit 0x400000 4096 GEM_PAGE_EXECUTE_READWRITE] ++ calls) < 2 ^ 64 ->
  world_refs (wd_handles (history (littered 0) (EvCall <$> [CallReserve (Some 0x400000) 8192; CallCommit 0x400000 4096 GEM_PAGE_EXECUTE_READWRITE] ++ calls))) = [] ->
  inv no_pins (code32 calls).
Proof.
  intros Hok Hn Hr.
  destruct (history_inv (littered 0) _ Hok ltac:(vm_compute; reflexivity) Hn) as (L & Hst & HL).
  exists L. split; [|done]. revert Hst. rewrite Hr. apply st_pins_nil.
Qed.

Lemma runtime32_ready : i386_ready (blink := counting32) (runtime32 counting32 tt).
Proof. split_and!; [done|by eexists|split; cbn; lia|cbn; lia|cbn; lia]. Qed.



(** ** What the code does not handle *)

(** An emulator that meets [int 0x2e] at once. *)
Definition trapping : Blink :=
  machine32 (fun _ s => BlinkReturn (tt, quantum_end BLINK_GEM_UNSUPPORTED 0, s))
    (Some (DecodeAttempt true 0 "OpInterruptImm")).

(** [gem_i386_blink_run] reports a system call without storing its output when
    nothing has retired in the quantum, and [gem_i386_runtime_run] then tests
    and copies that output: it reads an uninitialised structure. *)
Theorem i386_trap_uninitialised : run32 trapping tt (code32 []) 5 1 = Fault.
Proof. vm_compute. reflexivity. Qed.

(** An emulator whose instruction stores to two pages. *)
Definition store_across_run (_ : blink_gem_run_request) (s : blink_gem_state)
  : blink_run (unit * blink_gem_result * blink_gem_state) :=
  BlinkSnapshot 0x400000 (fun _ a _ =>
  BlinkSnapshot 0x401000 (fun _ b _ =>
  BlinkCommit [BlinkWrite 0x400000 (bump (default [] a)); BlinkWrite 0x401000 (bump (default [] b))] (fun e _ =>
    match e with
    | GEM_MEMORY_OK => BlinkReturn (tt, quantum_end BLINK_GEM_QUANTUM_BOUNDARY 1, with_rip s (s_rip s + 16))
    | e => BlinkReturn (tt, blink_fault 0x400000 e, s)
    end))).
Definition store_across : Blink := machine32 store_across_run None.

(** A conflict found when a quantum finishes sets the registers back but not the
    writes the quantum has committed, so the retry executes the instructions
    again.  When the two pages are aliases of each other, the commit itself makes
    the transaction conflict: one instruction that stores across both is
    executed once per retry, and the run never ends. *)
Theorem i386_conflict_replays :
  let m := code32 [CallUnmap 0x401000 4096; CallAlias 0x401000 0x400000 4096 GEM_PAGE_EXECUTE_READWRITE] in
  run32 store_across tt m 1 1 = Ok (None, Some 1) /\
  run32 store_across tt m 2 1 = Ok (None, Some 2) /\
  run32 store_across tt m 9 1 = Ok (None, Some 9).
Proof. vm_compute. split_and!; reflexivity. Qed.

(** The same store when the byte is still 0, and a poll for a stop request. *)
Definition store_once_run (_ : blink_gem_run_request) (s : blink_gem_state)
  : blink_run (unit * blink_gem_result * blink_gem_state) :=
  let retire := BlinkAsyncStop (fun stop =>
    BlinkReturn (tt, quantum_end (if stop : bool then BLINK_GEM_ASYNC_STOP else BLINK_GEM_QUANTUM_BOUNDARY) 1,
                 with_rip s (s_rip s + 16))) in
  BlinkSnapshot 0x400000 (fun _ a _ =>
  if bool_decide (a ≫= head = Some 0) then
    BlinkSnapshot 0x401000 (fun _ b _ =>
    BlinkCommit [BlinkWrite 0x400000 (bump (default [] a)); BlinkWrite 0x401000 (bump (default [] b))]
      (fun _ _ => retire))
  else retire).
Definition store_once : Blink := machine32 store_once_run None.

(** A stop request that the emulator consumed in a quantum that then conflicts
    is lost: the run goes on to the end of its budget.  Without the conflict
    (the pages are no aliases) it stops. *)
Theorem i386_async_request_lost :
  let run m :=
    match gem_i386_runtime_run (platform := littered 0) (blink := store_once)
            (gem_i386_blink_jit_ops (platform := littered 0) (blink := store_once)) 9
            (gem_i386_runtime_request_async_stop (Some (runtime32 store_once tt))) (Some context32) 2 m with
    | Ok (Some (reason, _, _), _) => Some reason
    | _ => None
    end in
  run (code32 [CallUnmap 0x401000 4096; CallAlias 0x401000 0x400000 4096 GEM_PAGE_EXECUTE_READWRITE])
    = Some GEM_STOP_BUDGET_EXPIRED /\
  run (code32 [CallCommit 0x401000 4096 GEM_PAGE_READWRITE]) = Some GEM_STOP_ASYNC_REQUEST.
Proof. vm_compute. split; reflexivity. Qed.
