(* ===== verification/Pe.v ===== *)
(** Pe: the bounded parser of PE/ARM64X images and the queries on its result
    (src/gem/pe_arm64x.c, include/metalsharp/gem/pe_arm64x.h).

    The caller's buffer is a list of bytes whose length is [byte_count]; a read
    outside it is [Fault].  A function returning [enum gem_pe_status] is a
    [result]: [Ok] for [GEM_PE_OK] with what the function stores through its out
    parameters, [Err] for every other status.  An out parameter is the flag [out]
    that says whether the pointer is non-NULL.  [calloc] and [malloc] are the
    class [Allocator]: which of a call's allocations succeed. *)
From S2P Require Import Prelude.

(** ** Constants, enums and data *)

Definition PE_DOS_HEADER_MIN_SIZE : Z := 64.
Definition PE_SIGNATURE : Z := 0x00004550.
Definition PE_MACHINE_ARM64X : Z := 0xA64E.
Definition PE_MACHINE_ARM64EC : Z := 0xA641.
Definition PE_MACHINE_ARM64 : Z := 0xAA64.
Definition PE_MACHINE_AMD64 : Z := 0x8664.
Definition PE_OPTIONAL_MAGIC_PE32_PLUS : Z := 0x020B.
Definition PE_DIRECTORY_LOAD_CONFIG : Z := 10.
Definition PE32_PLUS_DATA_DIRECTORY_OFFSET : Z := 112.
Definition PE_DATA_DIRECTORY_SIZE : Z := 8.
Definition PE_SECTION_HEADER_SIZE : Z := 40.
Definition PE_COFF_HEADER_SIZE : Z := 20.
Definition PE_LOAD_CONFIG_CHPE_POINTER_OFFSET : Z := 0xC8.
Definition PE_LOAD_CONFIG_CHPE_POINTER_END : Z := 0xD0.
Definition PE_CHPE_METADATA_V1_SIZE : Z := 80.
Definition PE_CHPE_METADATA_V2_SIZE : Z := 92.
Definition PE_CHPE_CODE_MAP_RECORD_SIZE : Z := 8.
Definition PE_CHPE_ENTRY_RECORD_SIZE : Z := 12.
Definition PE_CHPE_REDIRECTION_RECORD_SIZE : Z := 8.
Definition PE_SECTION_MEM_EXECUTE : Z := 0x20000000.
Definition PE_SECTION_MEM_READ : Z := 0x40000000.

Definition GEM_PE_ARM64X_PARSE_OPTIONS_VERSION : Z := 1.
Definition GEM_PE_ARM64X_DEFAULT_MAX_SECTIONS : Z := 96.
Definition GEM_PE_ARM64X_DEFAULT_MAX_CODE_RANGES : Z := 4096.
Definition GEM_PE_ARM64X_DEFAULT_MAX_ENTRY_RANGES : Z := 65536.
Definition GEM_PE_ARM64X_DEFAULT_MAX_REDIRECTIONS : Z := 65536.
Definition GEM_PE_ARM64X_DEFAULT_MAX_METADATA_BYTES : Z := 8388608.

Inductive gem_pe_status : Type :=
  | GEM_PE_OK
  | GEM_PE_ERROR_INVALID_ARGUMENT
  | GEM_PE_ERROR_UNSUPPORTED_FORMAT
  | GEM_PE_ERROR_TRUNCATED
  | GEM_PE_ERROR_OVERFLOW
  | GEM_PE_ERROR_LIMIT_EXCEEDED
  | GEM_PE_ERROR_BAD_DOS_HEADER
  | GEM_PE_ERROR_BAD_PE_SIGNATURE
  | GEM_PE_ERROR_BAD_COFF_HEADER
  | GEM_PE_ERROR_BAD_OPTIONAL_HEADER
  | GEM_PE_ERROR_BAD_SECTION_TABLE
  | GEM_PE_ERROR_BAD_RVA
  | GEM_PE_ERROR_BAD_LOAD_CONFIG
  | GEM_PE_ERROR_NO_CHPE_METADATA
  | GEM_PE_ERROR_BAD_CHPE_METADATA
  | GEM_PE_ERROR_UNSUPPORTED_CHPE_VERSION
  | GEM_PE_ERROR_UNSORTED_RANGES
  | GEM_PE_ERROR_OVERLAPPING_RANGES.

Inductive gem_pe_rva_class : Type :=
  | GEM_PE_RVA_INVALID
  | GEM_PE_RVA_DATA
  | GEM_PE_RVA_ARM64
  | GEM_PE_RVA_ARM64EC
  | GEM_PE_RVA_X64
  | GEM_PE_RVA_THUNK
  | GEM_PE_RVA_FAST_FORWARD.

#[export] Instance gem_pe_status_eq_dec : EqDecision gem_pe_status.
Proof. solve_decision. Defined.
#[export] Instance gem_pe_rva_class_eq_dec : EqDecision gem_pe_rva_class.
Proof. solve_decision. Defined.

Record parse_options : Type := ParseOptions {
  o_version : Z;
  o_max_sections : Z;
  o_max_code_ranges : Z;
  o_max_entry_ranges : Z;
  o_max_redirections : Z }.

Record pe_summary : Type := Summary {
  machine : Z;
  section_count : Z;
  image_base : Z;
  size_of_image : Z;
  size_of_headers : Z;
  address_of_entry_point : Z;
  load_config_rva : Z;
  load_config_size : Z;
  chpe_metadata_rva : Z;
  chpe_metadata_version : Z;
  code_range_count : Z;
  entry_range_count : Z;
  redirection_count : Z }.

Record pe_section : Type := Section_ {
  s_virtual_address : Z;
  s_virtual_size : Z;
  s_raw_size : Z;
  s_raw_pointer : Z;
  s_characteristics : Z }.

(** [struct gem_pe_arm64x_section]: what [gem_pe_arm64x_get_section] copies. *)
Record section_view : Type := SectionView {
  v_virtual_address : Z;
  v_virtual_size : Z;
  v_raw_size : Z;
  v_characteristics : Z }.

Record code_range : Type := CodeRange { cr_start : Z; cr_end : Z; cr_isa : gem_pe_rva_class }.
Record entry_range : Type := EntryRange { e_start : Z; e_end : Z; e_entry : Z }.
Record redirection : Type := Redirection { r_source : Z; r_destination : Z }.

(** [struct gem_pe_arm64x_image]; an array and its count. *)
Record image : Type := Image {
  i_summary : pe_summary;
  i_byte_count : Z;
  i_size_of_headers : Z;
  i_sections : list pe_section;
  i_code_ranges : list code_range;
  i_entry_ranges : list entry_range;
  i_redirections : list redirection }.

Record rva_info : Type := RvaInfo {
  classification : gem_pe_rva_class;
  code_map_isa : gem_pe_rva_class;
  info_rva : Z;
  containing_range_start_rva : Z;
  containing_range_end_rva : Z;
  entry_point_rva : Z;
  redirection_destination_rva : Z;
  section_index : Z;
  has_entry_point : bool;
  has_redirection : bool;
  executable_section : bool }.

(** [struct parser_state], less the image, which is passed along. *)
Record parser_state : Type := ParserState {
  st_bytes : list Z;
  st_byte_count : Z;
  st_loaded_base : Z;
  st_mapped : bool;
  st_options : parse_options }.

Record chpe_fields : Type := ChpeFields {
  f_version : Z;
  f_code_map_rva : Z;
  f_code_map_count : Z;
  f_entry_ranges_rva : Z;
  f_redirections_rva : Z;
  f_entry_range_count : Z;
  f_redirection_count : Z }.

(** The allocations one call makes, and whether each succeeds. *)
Inductive pe_block : Type :=
  | ImageBlock | SectionArray | CodeRangeArray | EntryRangeArray | RedirectionArray.
Class Allocator : Type := { allocates : pe_block -> bool }.

Definition pe_result : Type -> Type := result gem_pe_status.

(** ** Checked arithmetic and unchecked reads *)

Definition checked_add_size (a b : Z) : option Z := if SIZE_MAX - b <? a then None else Some (a + b).
Definition checked_mul_size (a b : Z) : option Z :=
  if negb (a =? 0) && (SIZE_MAX / a <? b) then None else Some (a * b).
Definition checked_add_u32 (a b : Z) : option Z := if UINT32_MAX - b <? a then None else Some (a + b).

Definition file_span_fits (byte_count offset size : Z) : bool :=
  match checked_add_size offset size with Some e => e <=? byte_count | None => false end.

Definition require_file_span (st : parser_state) (offset size : Z) : pe_result unit :=
  require (file_span_fits (st_byte_count st) offset size) GEM_PE_ERROR_TRUNCATED.

(** [bytes[offset]] *)
Definition byte_at (bytes : list Z) (offset : Z) : pe_result Z :=
  match bytes !! Z.to_nat offset with
  | Some b => if offset <? 0 then Fault else Ok b
  | None => Fault
  end.

Definition read_u16le_unchecked (bytes : list Z) (offset : Z) : pe_result Z :=
  b0 ← byte_at bytes offset;
  b1 ← byte_at bytes (offset + 1);
  mret (wrap16 (b0 .| (b1 <<. 8))).

Definition read_u32le_unchecked (bytes : list Z) (offset : Z) : pe_result Z :=
  b0 ← byte_at bytes offset;
  b1 ← byte_at bytes (offset + 1);
  b2 ← byte_at bytes (offset + 2);
  b3 ← byte_at bytes (offset + 3);
  mret (b0 .| (b1 <<. 8) .| (b2 <<. 16) .| (b3 <<. 24)).

Definition read_u64le_unchecked (bytes : list Z) (offset : Z) : pe_result Z :=
  lo ← read_u32le_unchecked bytes offset;
  hi ← read_u32le_unchecked bytes (offset + 4);
  mret (lo .| (hi <<. 32)).

(** ** Sections and RVAs *)

Definition section_virtual_extent (s : pe_section) : Z :=
  if s_raw_size s <? s_virtual_size s then s_virtual_size s else s_raw_size s.

Definition section_is_executable (s : pe_section) : bool :=
  has_bits (s_characteristics s) PE_SECTION_MEM_EXECUTE.

Definition rva_add_fits_image (rva size size_of_image : Z) : bool :=
  match checked_add_u32 rva size with Some e => e <=? size_of_image | None => false end.

Definition section_contains_span (s : pe_section) (rva size : Z) : bool :=
  match checked_add_u32 rva size, checked_add_u32 (s_virtual_address s) (section_virtual_extent s) with
  | Some e, Some section_end => (s_virtual_address s <=? rva) && (e <=? section_end)
  | _, _ => false
  end.

(** The first element the loop stops at, with its index. *)
Fixpoint find_first {A} (f : A -> bool) (i : Z) (l : list A) : option (Z * A) :=
  match l with
  | [] => None
  | x :: l => if f x then Some (i, x) else find_first f (i + 1) l
  end.

Definition find_section_for_span (im : image) (rva size : Z) : option (Z * pe_section) :=
  find_first (fun s => section_contains_span s rva size) 0 (i_sections im).

Definition rva_to_file_offset_internal (im : image) (rva size : Z) : pe_result Z :=
  if size =? 0 then Err GEM_PE_ERROR_INVALID_ARGUMENT
  else if negb (rva_add_fits_image rva size (size_of_image (i_summary im)))
  then Err GEM_PE_ERROR_BAD_RVA
  else if match checked_add_u32 rva size with
          | Some header_end => (rva <? i_size_of_headers im) && (header_end <=? i_size_of_headers im)
                               && (header_end <=? i_byte_count im)
          | None => false
          end
  then Ok rva
  else
    match find_section_for_span im rva size with
    | None => Err GEM_PE_ERROR_BAD_RVA
    | Some (_, section) =>
      let offset_in_section := rva - s_virtual_address section in
      match checked_add_u32 offset_in_section size with
      | Some raw_end =>
        if s_raw_size section <? raw_end then Err GEM_PE_ERROR_BAD_RVA
        else
          match checked_add_size (s_raw_pointer section) offset_in_section with
          | Some file_offset =>
            if file_span_fits (i_byte_count im) file_offset size then Ok file_offset
            else Err GEM_PE_ERROR_BAD_RVA
          | None => Err GEM_PE_ERROR_BAD_RVA
          end
      | None => Err GEM_PE_ERROR_BAD_RVA
      end
    end.

Definition rva_to_parser_offset (st : parser_state) (im : image) (rva size : Z) : pe_result Z :=
  if negb (st_mapped st) then rva_to_file_offset_internal im rva size
  else if size =? 0 then Err GEM_PE_ERROR_BAD_RVA
  else
    match checked_add_u32 rva size with
    | Some e =>
      if (size_of_image (i_summary im) <? e) || (st_byte_count st <? e)
      then Err GEM_PE_ERROR_BAD_RVA
      else Ok rva
    | None => Err GEM_PE_ERROR_BAD_RVA
    end.

Definition code_type_to_class (type : Z) : gem_pe_rva_class :=
  if type =? 0 then GEM_PE_RVA_ARM64
  else if type =? 1 then GEM_PE_RVA_ARM64EC
  else if type =? 2 then GEM_PE_RVA_X64
  else GEM_PE_RVA_INVALID.

(** [for (...) { if (rva < range->start_rva) return NULL; ... }] *)
Fixpoint scan_code_ranges (rva : Z) (l : list code_range) : option code_range :=
  match l with
  | [] => None
  | r :: l => if rva <? cr_start r then None
              else if rva <? cr_end r then Some r else scan_code_ranges rva l
  end.
Definition find_code_range (im : image) (rva : Z) : option code_range :=
  scan_code_ranges rva (i_code_ranges im).

Fixpoint scan_entry_ranges (rva : Z) (l : list entry_range) : option entry_range :=
  match l with
  | [] => None
  | r :: l => if rva <? e_start r then None
              else if rva <? e_end r then Some r else scan_entry_ranges rva l
  end.
Definition find_entry_range (im : image) (rva : Z) : option entry_range :=
  scan_entry_ranges rva (i_entry_ranges im).

Fixpoint scan_redirections (rva : Z) (l : list redirection) : option redirection :=
  match l with
  | [] => None
  | r :: l => if rva <? r_source r then None
              else if rva =? r_source r then Some r else scan_redirections rva l
  end.
Definition find_redirection (im : image) (rva : Z) : option redirection :=
  scan_redirections rva (i_redirections im).

Definition code_range_contains_class (im : image) (start end_ : Z) (isa : gem_pe_rva_class) : bool :=
  match find_code_range im start with
  | Some range => bool_decide (cr_isa range = isa) && (end_ <=? cr_end range)
  | None => false
  end.

(** ** The parser *)

Definition gem_pe_arm64x_default_parse_options : parse_options :=
  ParseOptions GEM_PE_ARM64X_PARSE_OPTIONS_VERSION GEM_PE_ARM64X_DEFAULT_MAX_SECTIONS
    GEM_PE_ARM64X_DEFAULT_MAX_CODE_RANGES GEM_PE_ARM64X_DEFAULT_MAX_ENTRY_RANGES
    GEM_PE_ARM64X_DEFAULT_MAX_REDIRECTIONS.

Definition copy_options (options : option parse_options) : pe_result parse_options :=
  match options with
  | None => Ok gem_pe_arm64x_default_parse_options
  | Some o =>
    if negb (o_version o =? GEM_PE_ARM64X_PARSE_OPTIONS_VERSION) || (o_max_sections o =? 0)
       || (o_max_code_ranges o =? 0) || (o_max_entry_ranges o =? 0) || (o_max_redirections o =? 0)
    then Err GEM_PE_ERROR_INVALID_ARGUMENT else Ok o
  end.

(** The zeroed image block, with [byte_count] set. *)
Definition empty_image (byte_count : Z) : image :=
  Image (Summary 0 0 0 0 0 0 0 0 0 0 0 0 0) byte_count 0 [] [] [] [].

(** The five fields read from one section header. *)
Definition read_section (bytes : list Z) (offset : Z) : pe_result pe_section :=
  virtual_size ← read_u32le_unchecked bytes (offset + 8);
  virtual_address ← read_u32le_unchecked bytes (offset + 12);
  raw_size ← read_u32le_unchecked bytes (offset + 16);
  raw_pointer ← read_u32le_unchecked bytes (offset + 20);
  characteristics ← read_u32le_unchecked bytes (offset + 36);
  mret (Section_ virtual_address virtual_size raw_size raw_pointer characteristics).

(** The section loop of [parse_headers]: [n] headers left from the i-th on,
    [front] the sections before it, the last of which ends at [previous_end]. *)
Fixpoint parse_sections (st : parser_state) (size_image table : Z) (n : nat) (i previous_end : Z)
    (front : list pe_section) : pe_result (list pe_section) :=
  match n with
  | O => Ok front
  | S n =>
    section ← read_section (st_bytes st) (table + i * PE_SECTION_HEADER_SIZE);
    require (negb (section_virtual_extent section =? 0)) GEM_PE_ERROR_BAD_SECTION_TABLE;;
    match checked_add_u32 (s_virtual_address section) (section_virtual_extent section) with
    | None => Err GEM_PE_ERROR_BAD_SECTION_TABLE
    | Some section_end =>
      require (section_end <=? size_image) GEM_PE_ERROR_BAD_SECTION_TABLE;;
      (match last front with
       | Some previous =>
         require (s_virtual_address previous <=? s_virtual_address section)
           GEM_PE_ERROR_UNSORTED_RANGES;;
         require (previous_end <=? s_virtual_address section) GEM_PE_ERROR_OVERLAPPING_RANGES
       | None => mret tt
       end);;
      (if negb (st_mapped st) && negb (s_raw_size section =? 0) then
         require (match checked_add_u32 (s_raw_pointer section) (s_raw_size section) with
                  | Some raw_end => raw_end <=? st_byte_count st
                  | None => false
                  end) GEM_PE_ERROR_BAD_SECTION_TABLE
       else mret tt);;
      parse_sections st size_image table n (i + 1) section_end (front ++ [section])
    end
  end.

Section allocator.
Context {allocator : Allocator}.

(** The image with its headers and sections, and [*out_load_config_dir_offset]. *)
Definition parse_headers (st : parser_state) (im : image) : pe_result (image * Z) :=
  let bytes := st_bytes st in
  require (negb (st_byte_count st <? PE_DOS_HEADER_MIN_SIZE)) GEM_PE_ERROR_TRUNCATED;;
  m ← byte_at bytes 0;
  (if negb (m =? 0x4d) then Err GEM_PE_ERROR_BAD_DOS_HEADER
   else z ← byte_at bytes 1; require (z =? 0x5a) GEM_PE_ERROR_BAD_DOS_HEADER);;
  e_lfanew ← read_u32le_unchecked bytes 0x3C;
  let pe_offset := e_lfanew in
  require (negb (pe_offset <? PE_DOS_HEADER_MIN_SIZE)) GEM_PE_ERROR_BAD_DOS_HEADER;;
  require_file_span st pe_offset (4 + PE_COFF_HEADER_SIZE);;
  signature ← read_u32le_unchecked bytes pe_offset;
  require (signature =? PE_SIGNATURE) GEM_PE_ERROR_BAD_PE_SIGNATURE;;
  let coff_offset := pe_offset + 4 in
  mach ← read_u16le_unchecked bytes coff_offset;
  count ← read_u16le_unchecked bytes (coff_offset + 2);
  optional_header_size ← read_u16le_unchecked bytes (coff_offset + 16);
  require (negb (negb (mach =? PE_MACHINE_ARM64) && negb (mach =? PE_MACHINE_ARM64X)
                 && (negb (st_mapped st)
                     || (negb (mach =? PE_MACHINE_ARM64EC) && negb (mach =? PE_MACHINE_AMD64)))))
    GEM_PE_ERROR_UNSUPPORTED_FORMAT;;
  require (negb ((count =? 0) || (o_max_sections (st_options st) <? count)))
    GEM_PE_ERROR_LIMIT_EXCEEDED;;
  let optional_offset := coff_offset + PE_COFF_HEADER_SIZE in
  match checked_add_size optional_offset optional_header_size with
  | None => Err GEM_PE_ERROR_OVERFLOW
  | Some section_table_offset =>
    require_file_span st optional_offset optional_header_size;;
    require (negb (optional_header_size <? PE32_PLUS_DATA_DIRECTORY_OFFSET +
                     (PE_DIRECTORY_LOAD_CONFIG + 1) * PE_DATA_DIRECTORY_SIZE))
      GEM_PE_ERROR_BAD_OPTIONAL_HEADER;;
    optional_magic ← read_u16le_unchecked bytes optional_offset;
    require (optional_magic =? PE_OPTIONAL_MAGIC_PE32_PLUS) GEM_PE_ERROR_UNSUPPORTED_FORMAT;;
    entry_point ← read_u32le_unchecked bytes (optional_offset + 16);
    base ← read_u64le_unchecked bytes (optional_offset + 24);
    section_alignment ← read_u32le_unchecked bytes (optional_offset + 32);
    file_alignment ← read_u32le_unchecked bytes (optional_offset + 36);
    size_image ← read_u32le_unchecked bytes (optional_offset + 56);
    size_headers ← read_u32le_unchecked bytes (optional_offset + 60);
    number_of_rva_and_sizes ← read_u32le_unchecked bytes (optional_offset + 108);
    require (negb ((section_alignment =? 0) || (file_alignment =? 0)
                   || (section_alignment <? file_alignment) || (size_image =? 0)
                   || (size_headers =? 0) || (number_of_rva_and_sizes <=? PE_DIRECTORY_LOAD_CONFIG)))
      GEM_PE_ERROR_BAD_OPTIONAL_HEADER;;
    require (negb (st_byte_count st <? size_headers)) GEM_PE_ERROR_BAD_OPTIONAL_HEADER;;
    require (negb (st_mapped st && (st_byte_count st <? size_image)))
      GEM_PE_ERROR_BAD_OPTIONAL_HEADER;;
    require (match checked_mul_size count PE_SECTION_HEADER_SIZE with
             | Some section_table_size =>
               file_span_fits (st_byte_count st) section_table_offset section_table_size
             | None => false
             end) GEM_PE_ERROR_BAD_SECTION_TABLE;;
    require (allocates SectionArray) GEM_PE_ERROR_LIMIT_EXCEEDED;;
    sections ← parse_sections st size_image section_table_offset (Z.to_nat count) 0 0 [];
    mret (Image (Summary mach count base size_image size_headers entry_point 0 0 0 0 0 0 0)
            (i_byte_count im) size_headers sections [] [] [],
          optional_offset + PE32_PLUS_DATA_DIRECTORY_OFFSET
            + PE_DIRECTORY_LOAD_CONFIG * PE_DATA_DIRECTORY_SIZE)
  end.

(** Every error of [r] is reported as [e]. *)
Definition as_error {A} (e : gem_pe_status) (r : pe_result A) : pe_result A := map_err (fun _ => e) r.

Definition set_chpe (im : image) (config_rva config_size metadata_rva version : Z) : image :=
  let s := i_summary im in
  Image (Summary (machine s) (section_count s) (image_base s) (size_of_image s) (size_of_headers s)
           (address_of_entry_point s) config_rva config_size metadata_rva version
           (code_range_count s) (entry_range_count s) (redirection_count s))
    (i_byte_count im) (i_size_of_headers im) (i_sections im) (i_code_ranges im)
    (i_entry_ranges im) (i_redirections im).

Definition parse_load_config_and_chpe (st : parser_state) (im : image) (dir_offset : Z)
  : pe_result (image * chpe_fields) :=
  let bytes := st_bytes st in
  config_rva ← read_u32le_unchecked bytes dir_offset;
  config_size ← read_u32le_unchecked bytes (dir_offset + 4);
  require (negb ((config_rva =? 0) || (config_size <? PE_LOAD_CONFIG_CHPE_POINTER_END)))
    GEM_PE_ERROR_BAD_LOAD_CONFIG;;
  load_config_offset ← as_error GEM_PE_ERROR_BAD_LOAD_CONFIG
    (rva_to_parser_offset st im config_rva PE_LOAD_CONFIG_CHPE_POINTER_END);
  internal_size ← read_u32le_unchecked bytes load_config_offset;
  require (negb (internal_size <? PE_LOAD_CONFIG_CHPE_POINTER_END)) GEM_PE_ERROR_BAD_LOAD_CONFIG;;
  chpe_va ← read_u64le_unchecked bytes (load_config_offset + PE_LOAD_CONFIG_CHPE_POINTER_OFFSET);
  require (negb (chpe_va =? 0)) GEM_PE_ERROR_NO_CHPE_METADATA;;
  let base := if st_mapped st then st_loaded_base st else image_base (i_summary im) in
  require (negb (chpe_va <? base)) GEM_PE_ERROR_BAD_LOAD_CONFIG;;
  let chpe_rva64 := chpe_va - base in
  require (negb (UINT32_MAX <? chpe_rva64)) GEM_PE_ERROR_BAD_LOAD_CONFIG;;
  let metadata_rva := chpe_rva64 in
  offset ← as_error GEM_PE_ERROR_BAD_CHPE_METADATA (rva_to_parser_offset st im metadata_rva 4);
  version ← read_u32le_unchecked bytes offset;
  require (negb (negb (version =? 1) && negb (version =? 2))) GEM_PE_ERROR_UNSUPPORTED_CHPE_VERSION;;
  let metadata_size := if version =? 1 then PE_CHPE_METADATA_V1_SIZE else PE_CHPE_METADATA_V2_SIZE in
  offset ← as_error GEM_PE_ERROR_BAD_CHPE_METADATA
    (rva_to_parser_offset st im metadata_rva metadata_size);
  code_map_rva ← read_u32le_unchecked bytes (offset + 4);
  code_map_count ← read_u32le_unchecked bytes (offset + 8);
  entry_ranges_rva ← read_u32le_unchecked bytes (offset + 12);
  redirections_rva ← read_u32le_unchecked bytes (offset + 16);
  entry_count ← read_u32le_unchecked bytes (offset + 48);
  redirect_count ← read_u32le_unchecked bytes (offset + 52);
  mret (set_chpe im config_rva config_size metadata_rva version,
        ChpeFields version code_map_rva code_map_count entry_ranges_rva redirections_rva
          entry_count redirect_count).

Definition SIZEOF_CODE_RANGE : Z := 12.
Definition SIZEOF_ENTRY_RANGE : Z := 12.
Definition SIZEOF_REDIRECTION : Z := 8.

Definition set_counts (im : image) (code entry redirect : Z) : image :=
  let s := i_summary im in
  Image (Summary (machine s) (section_count s) (image_base s) (size_of_image s) (size_of_headers s)
           (address_of_entry_point s) (load_config_rva s) (load_config_size s)
           (chpe_metadata_rva s) (chpe_metadata_version s) code entry redirect)
    (i_byte_count im) (i_size_of_headers im) (i_sections im) (i_code_ranges im)
    (i_entry_ranges im) (i_redirections im).

(** The arrays' total size, [None] when a product or a sum overflows. *)
Definition metadata_bytes (f : chpe_fields) : option Z :=
  code ← checked_mul_size (f_code_map_count f) SIZEOF_CODE_RANGE;
  entry ← checked_mul_size (f_entry_range_count f) SIZEOF_ENTRY_RANGE;
  redirect ← checked_mul_size (f_redirection_count f) SIZEOF_REDIRECTION;
  total ← checked_add_size code entry;
  checked_add_size total redirect.

Definition allocate_metadata_arrays (st : parser_state) (im : image) (f : chpe_fields)
  : pe_result image :=
  let o := st_options st in
  require (negb ((o_max_code_ranges o <? f_code_map_count f)
                 || (o_max_entry_ranges o <? f_entry_range_count f)
                 || (o_max_redirections o <? f_redirection_count f))) GEM_PE_ERROR_LIMIT_EXCEEDED;;
  match metadata_bytes f with
  | None => Err GEM_PE_ERROR_OVERFLOW
  | Some total =>
    require (negb (GEM_PE_ARM64X_DEFAULT_MAX_METADATA_BYTES <? total)) GEM_PE_ERROR_LIMIT_EXCEEDED;;
    require ((f_code_map_count f =? 0) || allocates CodeRangeArray) GEM_PE_ERROR_LIMIT_EXCEEDED;;
    require ((f_entry_range_count f =? 0) || allocates EntryRangeArray) GEM_PE_ERROR_LIMIT_EXCEEDED;;
    require ((f_redirection_count f =? 0) || allocates RedirectionArray)
      GEM_PE_ERROR_LIMIT_EXCEEDED;;
    mret (set_counts im (f_code_map_count f) (f_entry_range_count f) (f_redirection_count f))
  end.

Definition table_file_span (st : parser_state) (im : image) (rva count record_size : Z)
  : pe_result Z :=
  if count =? 0 then Ok 0
  else if rva =? 0 then Err GEM_PE_ERROR_BAD_CHPE_METADATA
  else
    match checked_mul_size count record_size with
    | Some table_size =>
      if UINT32_MAX <? table_size then Err GEM_PE_ERROR_OVERFLOW
      else rva_to_parser_offset st im rva table_size
    | None => Err GEM_PE_ERROR_OVERFLOW
    end.

(** [status == GEM_PE_ERROR_OVERFLOW ? status : GEM_PE_ERROR_BAD_CHPE_METADATA] *)
Definition table_error (e : gem_pe_status) : gem_pe_status :=
  match e with GEM_PE_ERROR_OVERFLOW => e | _ => GEM_PE_ERROR_BAD_CHPE_METADATA end.

(** One record of the code map, checked against the range before it. *)
Definition parse_code_record (bytes : list Z) (im : image) (offset : Z) (previous : option code_range)
  : pe_result code_range :=
  start_offset ← read_u32le_unchecked bytes offset;
  len ← read_u32le_unchecked bytes (offset + 4);
  let type := start_offset .& 3 in
  let start := start_offset .&~ 3 in
  require (negb ((len =? 0) || (type =? 3))) GEM_PE_ERROR_BAD_CHPE_METADATA;;
  match checked_add_u32 start len with
  | None => Err GEM_PE_ERROR_BAD_CHPE_METADATA
  | Some end_ =>
    require (end_ <=? size_of_image (i_summary im)) GEM_PE_ERROR_BAD_CHPE_METADATA;;
    (match previous with
     | Some previous =>
       require (cr_start previous <=? start) GEM_PE_ERROR_UNSORTED_RANGES;;
       require (cr_end previous <=? start) GEM_PE_ERROR_OVERLAPPING_RANGES
     | None => mret tt
     end);;
    require (match find_section_for_span im start 1, find_section_for_span im (end_ - 1) 1 with
             | Some (_, first), Some (_, final) =>
               section_is_executable first && section_is_executable final
             | _, _ => false
             end) GEM_PE_ERROR_BAD_CHPE_METADATA;;
    mret (CodeRange start end_ (code_type_to_class type))
  end.

(** The loop the three tables share: [n] records of [size] bytes left from the
    i-th on, each parsed with the record before it. *)
Fixpoint parse_records {A} (parse_record : Z -> option A -> pe_result A) (table size : Z) (n : nat)
    (i : Z) (front : list A) : pe_result (list A) :=
  match n with
  | O => Ok front
  | S n =>
    r ← parse_record (table + i * size) (last front);
    parse_records parse_record table size n (i + 1) (front ++ [r])
  end.

Definition set_code_ranges (im : image) (l : list code_range) : image :=
  Image (i_summary im) (i_byte_count im) (i_size_of_headers im) (i_sections im) l
    (i_entry_ranges im) (i_redirections im).

Definition parse_code_map (st : parser_state) (im : image) (f : chpe_fields) : pe_result image :=
  table ← map_err table_error
    (table_file_span st im (f_code_map_rva f) (f_code_map_count f) PE_CHPE_CODE_MAP_RECORD_SIZE);
  l ← parse_records (parse_code_record (st_bytes st) im) table PE_CHPE_CODE_MAP_RECORD_SIZE
    (Z.to_nat (f_code_map_count f)) 0 [];
  mret (set_code_ranges im l).

Definition parse_entry_record (bytes : list Z) (im : image) (offset : Z)
    (previous : option entry_range) : pe_result entry_range :=
  start ← read_u32le_unchecked bytes offset;
  end_ ← read_u32le_unchecked bytes (offset + 4);
  entry ← read_u32le_unchecked bytes (offset + 8);
  require (negb ((end_ <=? start) || (size_of_image (i_summary im) <? end_) || (entry <? start)
                 || (end_ <=? entry))) GEM_PE_ERROR_BAD_CHPE_METADATA;;
  (match previous with
   | Some previous =>
     require (e_start previous <=? start) GEM_PE_ERROR_UNSORTED_RANGES;;
     require (e_end previous <=? start) GEM_PE_ERROR_OVERLAPPING_RANGES
   | None => mret tt
   end);;
  require (code_range_contains_class im start end_ GEM_PE_RVA_X64) GEM_PE_ERROR_BAD_CHPE_METADATA;;
  mret (EntryRange start end_ entry).

Definition set_entry_ranges (im : image) (l : list entry_range) : image :=
  Image (i_summary im) (i_byte_count im) (i_size_of_headers im) (i_sections im) (i_code_ranges im)
    l (i_redirections im).

Definition parse_entry_ranges (st : parser_state) (im : image) (f : chpe_fields) : pe_result image :=
  table ← map_err table_error
    (table_file_span st im (f_entry_ranges_rva f) (f_entry_range_count f) PE_CHPE_ENTRY_RECORD_SIZE);
  l ← parse_records (parse_entry_record (st_bytes st) im) table PE_CHPE_ENTRY_RECORD_SIZE
    (Z.to_nat (f_entry_range_count f)) 0 [];
  mret (set_entry_ranges im l).

Definition parse_redirection_record (bytes : list Z) (im : image) (offset : Z)
    (previous : option redirection) : pe_result redirection :=
  source ← read_u32le_unchecked bytes offset;
  destination ← read_u32le_unchecked bytes (offset + 4);
  require (negb ((size_of_image (i_summary im) <=? source)
                 || (size_of_image (i_summary im) <=? destination))) GEM_PE_ERROR_BAD_CHPE_METADATA;;
  (match previous with
   | Some previous =>
     require (r_source previous <=? source) GEM_PE_ERROR_UNSORTED_RANGES;;
     require (negb (source =? r_source previous)) GEM_PE_ERROR_OVERLAPPING_RANGES
   | None => mret tt
   end);;
  mret (Redirection source destination).

Definition set_redirections (im : image) (l : list redirection) : image :=
  Image (i_summary im) (i_byte_count im) (i_size_of_headers im) (i_sections im) (i_code_ranges im)
    (i_entry_ranges im) l.

Definition parse_redirections (st : parser_state) (im : image) (f : chpe_fields) : pe_result image :=
  table ← map_err table_error
    (table_file_span st im (f_redirections_rva f) (f_redirection_count f)
       PE_CHPE_REDIRECTION_RECORD_SIZE);
  l ← parse_records (parse_redirection_record (st_bytes st) im) table
    PE_CHPE_REDIRECTION_RECORD_SIZE (Z.to_nat (f_redirection_count f)) 0 [];
  mret (set_redirections im l).

(** The parser; [bytes] is [None] for a NULL pointer. *)
Definition parse_image (bytes : option (list Z)) (byte_count loaded_base : Z) (mapped_image : bool)
    (options : option parse_options) (out : bool) : pe_result image :=
  if negb out then Err GEM_PE_ERROR_INVALID_ARGUMENT
  else
    match bytes with
    | None => Err GEM_PE_ERROR_INVALID_ARGUMENT
    | Some bytes =>
      require (negb ((byte_count =? 0) || (mapped_image && (loaded_base =? 0))))
        GEM_PE_ERROR_INVALID_ARGUMENT;;
      o ← copy_options options;
      let st := ParserState bytes byte_count loaded_base mapped_image o in
      require (allocates ImageBlock) GEM_PE_ERROR_LIMIT_EXCEEDED;;
      '(im, load_config_dir_offset) ← parse_headers st (empty_image byte_count);
      '(im, fields) ← parse_load_config_and_chpe st im load_config_dir_offset;
      im ← allocate_metadata_arrays st im fields;
      im ← parse_code_map st im fields;
      im ← parse_entry_ranges st im fields;
      parse_redirections st im fields
    end.

Definition gem_pe_arm64x_parse (bytes : option (list Z)) (byte_count : Z)
    (options : option parse_options) (out : bool) : pe_result image :=
  parse_image bytes byte_count 0 false options out.

Definition gem_pe_arm64x_parse_mapped (mapped_image : option (list Z)) (mapped_size loaded_base : Z)
    (options : option parse_options) (out : bool) : pe_result image :=
  parse_image mapped_image mapped_size loaded_base true options out.

(** [GEM_CLONE_ARRAY]: [count] elements of [size] bytes out of the array [l]. *)
Definition clone_array {A} (block : pe_block) (count size : Z) (l : list A) : pe_result (list A) :=
  if count =? 0 then Ok []
  else
    match checked_mul_size count size with
    | None => Err GEM_PE_ERROR_OVERFLOW
    | Some _ =>
      require (allocates block) GEM_PE_ERROR_LIMIT_EXCEEDED;;
      if Z.of_nat (length l) <? count then Fault else Ok (take (Z.to_nat count) l)
    end.

Definition SIZEOF_SECTION : Z := 20.

Definition gem_pe_arm64x_image_clone (im : option image) (out : bool) : pe_result image :=
  match im with
  | None => Err GEM_PE_ERROR_INVALID_ARGUMENT
  | Some im =>
    let s := i_summary im in
    require out GEM_PE_ERROR_INVALID_ARGUMENT;;
    require (allocates ImageBlock) GEM_PE_ERROR_LIMIT_EXCEEDED;;
    sections ← clone_array SectionArray (section_count s) SIZEOF_SECTION (i_sections im);
    codes ← clone_array CodeRangeArray (code_range_count s) SIZEOF_CODE_RANGE (i_code_ranges im);
    entries ← clone_array EntryRangeArray (entry_range_count s) SIZEOF_ENTRY_RANGE
                (i_entry_ranges im);
    redirs ← clone_array RedirectionArray (redirection_count s) SIZEOF_REDIRECTION
               (i_redirections im);
    mret (Image s (i_byte_count im) (i_size_of_headers im) sections codes entries redirs)
  end.
End allocator.

(** ** Queries *)

Definition gem_pe_arm64x_get_summary (im : option image) (out : bool) : pe_result pe_summary :=
  match im with
  | Some im => if out then Ok (i_summary im) else Err GEM_PE_ERROR_INVALID_ARGUMENT
  | None => Err GEM_PE_ERROR_INVALID_ARGUMENT
  end.

Definition gem_pe_arm64x_section_count (im : option image) : Z :=
  match im with Some im => section_count (i_summary im) | None => 0 end.
Definition gem_pe_arm64x_code_range_count (im : option image) : Z :=
  match im with Some im => code_range_count (i_summary im) | None => 0 end.
Definition gem_pe_arm64x_entry_range_count (im : option image) : Z :=
  match im with Some im => entry_range_count (i_summary im) | None => 0 end.
Definition gem_pe_arm64x_redirection_count (im : option image) : Z :=
  match im with Some im => redirection_count (i_summary im) | None => 0 end.

(** [array[index]] behind the code's test against the count. *)
Definition get_element {A} (l : list A) (count index : Z) (out : bool) : pe_result A :=
  if negb out || (count <=? index) then Err GEM_PE_ERROR_INVALID_ARGUMENT
  else match l !! Z.to_nat index with Some x => Ok x | None => Fault end.

Definition gem_pe_arm64x_get_section (im : option image) (index : Z) (out : bool)
  : pe_result section_view :=
  match im with
  | None => Err GEM_PE_ERROR_INVALID_ARGUMENT
  | Some im =>
    s ← get_element (i_sections im) (section_count (i_summary im)) index out;
    mret (SectionView (s_virtual_address s) (s_virtual_size s) (s_raw_size s) (s_characteristics s))
  end.
Definition gem_pe_arm64x_get_code_range (im : option image) (index : Z) (out : bool)
  : pe_result code_range :=
  match im with
  | None => Err GEM_PE_ERROR_INVALID_ARGUMENT
  | Some im => get_element (i_code_ranges im) (code_range_count (i_summary im)) index out
  end.
Definition gem_pe_arm64x_get_entry_range (im : option image) (index : Z) (out : bool)
  : pe_result entry_range :=
  match im with
  | None => Err GEM_PE_ERROR_INVALID_ARGUMENT
  | Some im => get_element (i_entry_ranges im) (entry_range_count (i_summary im)) index out
  end.
Definition gem_pe_arm64x_get_redirection (im : option image) (index : Z) (out : bool)
  : pe_result redirection :=
  match im with
  | None => Err GEM_PE_ERROR_INVALID_ARGUMENT
  | Some im => get_element (i_redirections im) (redirection_count (i_summary im)) index out
  end.

(** [memset(out_info, 0, ...)] and the three assignments after it. *)
Definition no_info (rva : Z) : rva_info :=
  RvaInfo GEM_PE_RVA_INVALID GEM_PE_RVA_INVALID rva 0 0 0 0 0 false false false.

Definition gem_pe_arm64x_classify_rva (im : option image) (rva : Z) (out : bool)
  : pe_result rva_info :=
  match im with
  | None => Err GEM_PE_ERROR_INVALID_ARGUMENT
  | Some im =>
    if negb out then Err GEM_PE_ERROR_INVALID_ARGUMENT
    else if size_of_image (i_summary im) <=? rva then Ok (no_info rva)
    else
      let section := find_section_for_span im rva 1 in
      let code := find_code_range im rva in
      let entry := find_entry_range im rva in
      let redir := find_redirection im rva in
      Ok {| classification :=
              match redir, entry, code, section with
              | Some _, _, _, _ => GEM_PE_RVA_FAST_FORWARD
              | None, Some _, _, _ => GEM_PE_RVA_THUNK
              | None, None, Some c, _ => cr_isa c
              | None, None, None, Some (_, s) =>
                if section_is_executable s then GEM_PE_RVA_INVALID else GEM_PE_RVA_DATA
              | None, None, None, None => GEM_PE_RVA_INVALID
              end;
            code_map_isa := match code with Some c => cr_isa c | None => GEM_PE_RVA_INVALID end;
            info_rva := rva;
            containing_range_start_rva :=
              match code, entry with
              | Some c, _ => cr_start c | None, Some e => e_start e | None, None => 0 end;
            containing_range_end_rva :=
              match code, entry with
              | Some c, _ => cr_end c | None, Some e => e_end e | None, None => 0 end;
            entry_point_rva := match entry with Some e => e_entry e | None => 0 end;
            redirection_destination_rva :=
              match redir with Some r => r_destination r | None => 0 end;
            section_index := match section with Some (i, _) => wrap32 (i + 1) | None => 0 end;
            has_entry_point := match entry with Some _ => true | None => false end;
            has_redirection := match redir with Some _ => true | None => false end;
            executable_section :=
              match section with Some (_, s) => section_is_executable s | None => false end |}
  end.

Definition gem_pe_arm64x_rva_to_file_offset (im : option image) (rva size : Z) (out : bool)
  : pe_result Z :=
  match im with
  | None => Err GEM_PE_ERROR_INVALID_ARGUMENT
  | Some im => if out then rva_to_file_offset_internal im rva size
               else Err GEM_PE_ERROR_INVALID_ARGUMENT
  end.

(** ** Names *)

Definition pe_status_names : list string :=
  ["ok"; "invalid-argument"; "unsupported-format"; "truncated"; "overflow"; "limit-exceeded";
   "bad-dos-header"; "bad-pe-signature"; "bad-coff-header"; "bad-optional-header";
   "bad-section-table"; "bad-rva"; "bad-load-config"; "no-chpe-metadata"; "bad-chpe-metadata";
   "unsupported-chpe-version"; "unsorted-ranges"; "overlapping-ranges"]%string.
Definition gem_pe_status_name (status : Z) : string :=
  if 18 <=? wrap32 status then "invalid"%string else pe_status_names !!! Z.to_nat (wrap32 status).

Definition pe_class_names : list string :=
  ["invalid"; "data"; "arm64"; "arm64ec"; "x64"; "thunk"; "fast-forward"]%string.
Definition gem_pe_rva_class_name (class : Z) : string :=
  if 7 <=? wrap32 class then "invalid"%string else pe_class_names !!! Z.to_nat (wrap32 class).
