(* ===== verification/PeInvariant.v ===== *)
(** PeInvariant: what a parsed image satisfies, and that the parser establishes
    it without ever reading outside the caller's buffer. *)
From Stdlib Require Import Sorted.
From S2P Require Import Prelude Pe.

(** ** Ordered spans *)

(** Non-empty half-open spans, each after the one before. *)
Definition before (a b : Z * Z) : Prop := a.2 <= b.1.
Definition ordered (l : list (Z * Z)) : Prop :=
  StronglySorted before l /\ Forall (fun a => a.1 < a.2) l.

Definition code_span (r : code_range) : Z * Z := (cr_start r, cr_end r).
Definition entry_span (r : entry_range) : Z * Z := (e_start r, e_end r).
Definition redirection_span (r : redirection) : Z * Z := (r_source r, r_source r + 1).
Definition section_span (s : pe_section) : Z * Z :=
  (s_virtual_address s, s_virtual_address s + section_virtual_extent s).

Definition contains (a : Z * Z) (x : Z) : Prop := a.1 <= x < a.2.

Lemma ordered_nil : ordered [].
Proof. split; constructor. Qed.

Lemma ordered_cons a l : ordered (a :: l) <-> a.1 < a.2 /\ Forall (before a) l /\ ordered l.
Proof.
  unfold ordered. rewrite Forall_cons. split.
  - intros [Hs [Ha Hl]]. inversion Hs; subst. by split_and!.
  - intros (Ha & Hb & Hs & Hl). split_and!; [by constructor|done..].
Qed.

(** A span that starts after the last one goes at the end. *)
Lemma ordered_snoc l b :
  ordered l -> b.1 < b.2 -> (forall a, last l = Some a -> a.2 <= b.1) -> ordered (l ++ [b]).
Proof.
  intros Hl Hb. induction l as [|a l IH]; intros Hlast.
  { apply ordered_cons. split_and!; [done|constructor|apply ordered_nil]. }
  apply ordered_cons in Hl as (Ha & Hal & Hl). cbn [app]. apply ordered_cons.
  destruct l as [|a' l].
  - split_and!; [done| |]; cbn; [|by apply IH]. constructor; [|constructor]. by apply Hlast.
  - split_and!; [done| |apply IH; [done|exact Hlast]].
    apply Forall_app; split; [done|]. constructor; [|constructor].
    destruct (last (a' :: l)) as [z|] eqn:Hz; [|by apply last_None in Hz].
    assert (z ∈ a' :: l) as Hin by (apply last_Some_elem_of; done).
    rewrite Forall_forall in Hal. pose proof (Hal z Hin). specialize (Hlast z Hz).
    destruct Hl as [_ Hne]. rewrite Forall_forall in Hne. specialize (Hne z Hin).
    unfold before in *. lia.
Qed.

(** At most one span of an ordered list contains a point. *)
Lemma ordered_unique {A} (span : A -> Z * Z) l i j a b x :
  ordered (span <$> l) -> l !! i = Some a -> l !! j = Some b ->
  contains (span a) x -> contains (span b) x -> i = j.
Proof.
  intros Hl. revert i j. induction l as [|c l IH]; intros i j Ha Hb Hax Hbx; [done|].
  cbn in Hl. apply ordered_cons in Hl as (_ & Hc & Hl). rewrite Forall_fmap, Forall_forall in Hc.
  unfold before, contains in *. destruct i as [|i], j as [|j]; cbn in Ha, Hb; [done| | |].
  - injection Ha as ->. specialize (Hc b (list_elem_of_lookup_2 _ _ _ Hb)). cbn in Hc. lia.
  - injection Hb as ->. specialize (Hc a (list_elem_of_lookup_2 _ _ _ Ha)). cbn in Hc. lia.
  - f_equal. by eapply IH.
Qed.

(** The loop the three [find] functions share. *)
Fixpoint scan {A} (span : A -> Z * Z) (x : Z) (l : list A) : option A :=
  match l with
  | [] => None
  | r :: l => if x <? (span r).1 then None
              else if x <? (span r).2 then Some r else scan span x l
  end.

Lemma scan_code x l : scan_code_ranges x l = scan code_span x l.
Proof. induction l as [|r l IH]; [done|]. cbn. by rewrite IH. Qed.
Lemma scan_entry x l : scan_entry_ranges x l = scan entry_span x l.
Proof. induction l as [|r l IH]; [done|]. cbn. by rewrite IH. Qed.
Lemma scan_redirection x l : scan_redirections x l = scan redirection_span x l.
Proof.
  induction l as [|r l IH]; [done|]. cbn. rewrite IH.
  destruct (Z.ltb_spec x (r_source r)); [done|].
  by destruct (Z.eqb_spec x (r_source r)), (Z.ltb_spec x (r_source r + 1)); try lia.
Qed.

(** Stopping at the first span that starts too late loses nothing. *)
Lemma scan_spec {A} (span : A -> Z * Z) x l r :
  ordered (span <$> l) -> scan span x l = Some r <-> r ∈ l /\ contains (span r) x.
Proof.
  intros Hl. induction l as [|a l IH]; cbn [scan].
  { split; [done|]. intros [Hr _]. by apply not_elem_of_nil in Hr. }
  cbn in Hl. apply ordered_cons in Hl as (Ha & Hal & Hl). rewrite Forall_fmap, Forall_forall in Hal.
  unfold before, contains in *. rewrite elem_of_cons.
  destruct (Z.ltb_spec x (span a).1).
  { split; [done|]. intros [[-> | Hr] Hx]; [lia|]. specialize (Hal r Hr). cbn in Hal. lia. }
  destruct (Z.ltb_spec x (span a).2).
  - split; [intros [= ->]; split; [by left|lia]|]. intros [[-> | Hr] Hx]; [done|].
    specialize (Hal r Hr). cbn in Hal. lia.
  - rewrite IH by done. split; [intros [Hr Hx]; split; [by right|done]|].
    intros [[-> | Hr] Hx]; [lia|done].
Qed.

Lemma scan_None {A} (span : A -> Z * Z) x l :
  ordered (span <$> l) -> scan span x l = None <-> forall r, r ∈ l -> ~ contains (span r) x.
Proof.
  intros Hl. split.
  - intros Hs r Hr Hx. assert (scan span x l = Some r) as Hs' by (by apply scan_spec). congruence.
  - intros Hn. destruct (scan span x l) as [r|] eqn:Hs; [|done].
    apply scan_spec in Hs as [Hr Hx]; [|done]. by destruct (Hn r).
Qed.

Lemma find_first_Some {A} (f : A -> bool) i l k x :
  find_first f i l = Some (k, x) ->
  exists j, k = i + Z.of_nat j /\ l !! j = Some x /\ f x = true /\
    forall j' y, (j' < j)%nat -> l !! j' = Some y -> f y = false.
Proof.
  revert i. induction l as [|a l IH]; intros i H; [done|]. cbn in H.
  destruct (f a) eqn:Ha.
  - injection H as <- <-. exists 0%nat. split_and!; [lia|done|done|lia].
  - apply IH in H as (j & -> & Hj & Hx & Hlt). exists (S j). split_and!; [lia|done|done|].
    intros [|j'] y Hj' Hy; [by injection Hy as <-|]. eapply (Hlt j'); [lia|done].
Qed.

Lemma find_first_None {A} (f : A -> bool) i l :
  find_first f i l = None <-> Forall (fun x => f x = false) l.
Proof.
  revert i. induction l as [|a l IH]; intros i; cbn; [split; [constructor|done]|].
  rewrite Forall_cons. destruct (f a); [|rewrite IH; tauto]. split; [done|]. by intros [? _].
Qed.

(** ** The invariant *)

Definition section_ok (byte_count : Z) (mapped : bool) (size_image : Z) (s : pe_section) : Prop :=
  is_u32 (s_virtual_address s) /\ is_u32 (s_virtual_size s) /\ is_u32 (s_raw_size s) /\
  is_u32 (s_raw_pointer s) /\ is_u32 (s_characteristics s) /\
  (section_span s).2 <= size_image /\
  (mapped = false -> s_raw_size s <> 0 -> s_raw_pointer s + s_raw_size s <= byte_count).

Definition executable_at (im : image) (x : Z) : Prop :=
  exists s, s ∈ i_sections im /\ contains (section_span s) x /\ section_is_executable s = true.

Definition code_ok (im : image) (r : code_range) : Prop :=
  0 <= cr_start r /\ cr_end r <= size_of_image (i_summary im) /\ cr_start r mod 4 = 0 /\
  cr_isa r ∈ [GEM_PE_RVA_ARM64; GEM_PE_RVA_ARM64EC; GEM_PE_RVA_X64] /\
  executable_at im (cr_start r) /\ executable_at im (cr_end r - 1).

Definition entry_ok (im : image) (r : entry_range) : Prop :=
  0 <= e_start r /\ contains (entry_span r) (e_entry r) /\
  exists c, c ∈ i_code_ranges im /\ cr_isa c = GEM_PE_RVA_X64 /\
    cr_start c <= e_start r /\ e_end r <= cr_end c.

Definition redirection_ok (im : image) (r : redirection) : Prop :=
  0 <= r_source r < size_of_image (i_summary im) /\
  0 <= r_destination r < size_of_image (i_summary im).

Record image_ok (mapped : bool) (im : image) : Prop := {
  ok_size : 0 < size_of_image (i_summary im) <= UINT32_MAX;
  ok_mapped : mapped = true -> size_of_image (i_summary im) <= i_byte_count im;
  ok_base : is_u64 (image_base (i_summary im));
  ok_headers : 0 < i_size_of_headers im <= UINT32_MAX /\ i_size_of_headers im <= i_byte_count im /\
    size_of_headers (i_summary im) = i_size_of_headers im;
  ok_section_count : section_count (i_summary im) = Z.of_nat (length (i_sections im)) /\
    section_count (i_summary im) <= UINT16_MAX;
  ok_sections : Forall (section_ok (i_byte_count im) mapped (size_of_image (i_summary im)))
    (i_sections im) /\ ordered (section_span <$> i_sections im);
  ok_code_count : code_range_count (i_summary im) = Z.of_nat (length (i_code_ranges im));
  ok_codes : Forall (code_ok im) (i_code_ranges im) /\ ordered (code_span <$> i_code_ranges im);
  ok_entry_count : entry_range_count (i_summary im) = Z.of_nat (length (i_entry_ranges im));
  ok_entries : Forall (entry_ok im) (i_entry_ranges im) /\
    ordered (entry_span <$> i_entry_ranges im);
  ok_redirection_count : redirection_count (i_summary im) = Z.of_nat (length (i_redirections im));
  ok_redirections : Forall (redirection_ok im) (i_redirections im) /\
    ordered (redirection_span <$> i_redirections im);
  ok_metadata : SIZEOF_CODE_RANGE * code_range_count (i_summary im)
    + SIZEOF_ENTRY_RANGE * entry_range_count (i_summary im)
    + SIZEOF_REDIRECTION * redirection_count (i_summary im)
    <= GEM_PE_ARM64X_DEFAULT_MAX_METADATA_BYTES }.

(** The parts of the invariant that hold once the headers are parsed. *)
Record headers_ok (st : parser_state) (im : image) : Prop := {
  hd_size : 0 < size_of_image (i_summary im) <= UINT32_MAX;
  hd_mapped : st_mapped st = true -> size_of_image (i_summary im) <= st_byte_count st;
  hd_base : is_u64 (image_base (i_summary im));
  hd_headers : 0 < i_size_of_headers im <= UINT32_MAX /\ i_size_of_headers im <= i_byte_count im /\
    size_of_headers (i_summary im) = i_size_of_headers im;
  hd_bytes : i_byte_count im = st_byte_count st;
  hd_section_count : section_count (i_summary im) = Z.of_nat (length (i_sections im)) /\
    section_count (i_summary im) <= UINT16_MAX /\
    section_count (i_summary im) <= o_max_sections (st_options st);
  hd_sections : Forall (section_ok (i_byte_count im) (st_mapped st) (size_of_image (i_summary im)))
    (i_sections im) /\ ordered (section_span <$> i_sections im) }.

(** ** Reads *)

Definition u16_at (bytes : list Z) (offset : Z) : Z := le_value (take 2 (drop (Z.to_nat offset) bytes)).
Definition u32_at (bytes : list Z) (offset : Z) : Z := le_value (take 4 (drop (Z.to_nat offset) bytes)).

Section reads.
Context (bytes : list Z) (Hbytes : Forall is_u8 bytes).

Lemma byte_at_Ok offset :
  0 <= offset < Z.of_nat (length bytes) ->
  exists b, bytes !! Z.to_nat offset = Some b /\ is_u8 b /\ byte_at bytes offset = Ok b.
Proof.
  intros Ho. destruct (lookup_lt_is_Some_2 bytes (Z.to_nat offset)) as [b Hb]; [lia|].
  exists b. split_and!; [done|by eapply Forall_lookup_1|].
  unfold byte_at. rewrite Hb. by destruct (Z.ltb_spec offset 0); [lia|].
Qed.

(** Four bytes joined by shifts spell a little-endian number. *)
Lemma join_bytes b0 b1 b2 b3 :
  is_u8 b0 -> is_u8 b1 -> is_u8 b2 -> is_u8 b3 ->
  b0 .| (b1 <<. 8) .| (b2 <<. 16) .| (b3 <<. 24) = le_value [b0; b1; b2; b3].
Proof.
  unfold is_u8. intros H0 H1 H2 H3. cbn [le_value].
  rewrite (lor_shift_add b0 b1 8) by lia. rewrite (lor_shift_add _ b2 16) by lia.
  rewrite (lor_shift_add _ b3 24) by lia. lia.
Qed.

Lemma read_u32_Ok offset :
  0 <= offset -> offset + 4 <= Z.of_nat (length bytes) ->
  read_u32le_unchecked bytes offset = Ok (u32_at bytes offset) /\ is_u32 (u32_at bytes offset).
Proof.
  intros Ho Hl. unfold read_u32le_unchecked, u32_at.
  destruct (byte_at_Ok offset) as (b0 & L0 & H0 & ->); [lia|].
  destruct (byte_at_Ok (offset + 1)) as (b1 & L1 & H1 & ->); [lia|].
  destruct (byte_at_Ok (offset + 2)) as (b2 & L2 & H2 & ->); [lia|].
  destruct (byte_at_Ok (offset + 3)) as (b3 & L3 & H3 & ->); [lia|].
  assert (take 4 (drop (Z.to_nat offset) bytes) = [b0; b1; b2; b3]) as ->.
  { rewrite (drop_S _ b0), (drop_S _ b1), (drop_S _ b2), (drop_S _ b3); [done|..];
      rewrite <- ?L0, <- ?L1, <- ?L2, <- ?L3; f_equal; lia. }
  cbn [mbind result_bind mret result_ret]. rewrite join_bytes by done. split; [done|].
  assert (Forall is_u8 [b0; b1; b2; b3]) as Hf by by (rewrite !Forall_cons, Forall_nil; by split_and!).
  pose proof (le_value_bound _ Hf). unfold is_u32. done.
Qed.

Lemma read_u16_Ok offset :
  0 <= offset -> offset + 2 <= Z.of_nat (length bytes) ->
  read_u16le_unchecked bytes offset = Ok (u16_at bytes offset) /\ is_u16 (u16_at bytes offset).
Proof.
  intros Ho Hl. unfold read_u16le_unchecked, u16_at.
  destruct (byte_at_Ok offset) as (b0 & L0 & H0 & ->); [lia|].
  destruct (byte_at_Ok (offset + 1)) as (b1 & L1 & H1 & ->); [lia|].
  assert (take 2 (drop (Z.to_nat offset) bytes) = [b0; b1]) as ->.
  { rewrite (drop_S _ b0), (drop_S _ b1); [done|..]; rewrite <- ?L0, <- ?L1; f_equal; lia. }
  cbn [mbind result_bind mret result_ret le_value]. unfold is_u8, is_u16, wrap16 in *.
  rewrite (lor_shift_add b0 b1 8) by lia. rewrite Z.mod_small by lia.
  split; [f_equal|]; lia.
Qed.

Lemma safe_u32 offset :
  0 <= offset -> offset + 4 <= Z.of_nat (length bytes) ->
  safe (fun v => v = u32_at bytes offset /\ is_u32 v) (read_u32le_unchecked bytes offset).
Proof. intros Ho Hl. destruct (read_u32_Ok offset Ho Hl) as [-> Hu]. done. Qed.

Lemma safe_u16 offset :
  0 <= offset -> offset + 2 <= Z.of_nat (length bytes) ->
  safe (fun v => v = u16_at bytes offset /\ is_u16 v) (read_u16le_unchecked bytes offset).
Proof. intros Ho Hl. destruct (read_u16_Ok offset Ho Hl) as [-> Hu]. done. Qed.

Lemma safe_u64 offset :
  0 <= offset -> offset + 8 <= Z.of_nat (length bytes) ->
  safe is_u64 (read_u64le_unchecked bytes offset).
Proof.
  intros Ho Hl. unfold read_u64le_unchecked.
  destruct (read_u32_Ok offset) as [-> H0]; [lia..|].
  destruct (read_u32_Ok (offset + 4)) as [-> H1]; [lia..|]. cbn. unfold is_u32, is_u64 in *.
  rewrite lor_shift_add by lia. lia.
Qed.

Lemma safe_byte offset :
  0 <= offset < Z.of_nat (length bytes) -> safe is_u8 (byte_at bytes offset).
Proof. intros Ho. by destruct (byte_at_Ok offset Ho) as (b & _ & Hb & ->). Qed.
End reads.

(** ** Offsets *)

Lemma checked_add_u32_Some a b c : checked_add_u32 a b = Some c <-> c = a + b /\ a + b <= UINT32_MAX.
Proof.
  unfold checked_add_u32. destruct (Z.ltb_spec (UINT32_MAX - b) a).
  - split; [done|]. intros [-> ?]; lia.
  - split; [intros [= <-]; split; [done|lia]|]. by intros [-> _].
Qed.

Lemma checked_add_size_Some a b c : checked_add_size a b = Some c <-> c = a + b /\ a + b <= SIZE_MAX.
Proof.
  unfold checked_add_size. destruct (Z.ltb_spec (SIZE_MAX - b) a).
  - split; [done|]. intros [-> ?]; lia.
  - split; [intros [= <-]; split; [done|lia]|]. by intros [-> _].
Qed.

Lemma file_span_fits_spec n off size :
  file_span_fits n off size = true <-> off + size <= SIZE_MAX /\ off + size <= n.
Proof.
  unfold file_span_fits. destruct (checked_add_size off size) as [e|] eqn:He.
  - apply checked_add_size_Some in He as [-> He]. rewrite Z.leb_le. tauto.
  - split; [done|]. intros [H _]. unfold checked_add_size in He.
    destruct (Z.ltb_spec (SIZE_MAX - size) off); [lia|done].
Qed.

Lemma section_extent_le s :
  s_virtual_size s <= section_virtual_extent s /\ s_raw_size s <= section_virtual_extent s.
Proof. unfold section_virtual_extent. destruct (Z.ltb_spec (s_raw_size s) (s_virtual_size s)); lia. Qed.

(** A section contains a span when its own span includes it. *)
Lemma section_contains_spec s rva size :
  section_contains_span s rva size = true <->
  rva + size <= UINT32_MAX /\ (section_span s).2 <= UINT32_MAX /\
  (section_span s).1 <= rva /\ rva + size <= (section_span s).2.
Proof.
  unfold section_contains_span, section_span. cbn.
  destruct (checked_add_u32 rva size) as [e|] eqn:He.
  - apply checked_add_u32_Some in He as [-> He].
    destruct (checked_add_u32 _ (section_virtual_extent s)) as [e'|] eqn:He'.
    + apply checked_add_u32_Some in He' as [-> He']. rewrite andb_true_iff, !Z.leb_le. lia.
    + split; [done|]. intros (_ & H & _). unfold checked_add_u32 in He'.
      destruct (Z.ltb_spec (UINT32_MAX - section_virtual_extent s) (s_virtual_address s)); [lia|done].
  - split; [done|]. intros (H & _). unfold checked_add_u32 in He.
    destruct (Z.ltb_spec (UINT32_MAX - size) rva); [lia|done].
Qed.

Lemma find_section_Some im rva size i s :
  find_section_for_span im rva size = Some (i, s) ->
  0 <= i /\ i_sections im !! Z.to_nat i = Some s /\ section_contains_span s rva size = true.
Proof.
  intros H. apply find_first_Some in H as (j & -> & Hj & Hs & _).
  split_and!; [lia| |done]. by rewrite Z.add_0_l, Nat2Z.id.
Qed.

(** What a successful translation promises, whatever the sections say. *)
Lemma file_offset_safe im rva size :
  0 <= rva -> 0 <= size -> Forall (fun s => is_u32 (s_raw_pointer s)) (i_sections im) ->
  safe (fun off => 0 <= off /\ off + size <= i_byte_count im) (rva_to_file_offset_internal im rva size).
Proof.
  intros Hr Hs Hraw. unfold rva_to_file_offset_internal.
  destruct (size =? 0); [done|]. destruct (negb _); [done|].
  destruct (checked_add_u32 rva size) as [e|] eqn:He.
  - apply checked_add_u32_Some in He as [-> He].
    destruct (_ && _ && _) eqn:Hh; [bool_to_Z; cbn; lia|].
    destruct (find_section_for_span im rva size) as [[i s]|] eqn:Hf; [|done].
    apply find_section_Some in Hf as (_ & Hi & Hc). apply section_contains_spec in Hc. cbn in Hc.
    rewrite Forall_forall in Hraw. specialize (Hraw s (list_elem_of_lookup_2 _ _ _ Hi)).
    unfold is_u32 in Hraw. destruct (checked_add_u32 _ size) as [raw_end|]; [|done].
    destruct (s_raw_size s <? raw_end); [done|]. destruct (checked_add_size _ _) as [off|] eqn:Ho; [|done].
    apply checked_add_size_Some in Ho as [-> Ho].
    destruct (file_span_fits _ _ _) eqn:Hfit; [|done]. apply file_span_fits_spec in Hfit. cbn. lia.
  - destruct (find_section_for_span im rva size) as [[i s]|] eqn:Hf; [|done].
    apply find_section_Some in Hf as (_ & Hi & Hc). apply section_contains_spec in Hc.
    unfold checked_add_u32 in He. destruct (Z.ltb_spec (UINT32_MAX - size) rva); [lia|done].
Qed.

Lemma parser_offset_safe st im rva size :
  headers_ok st im -> 0 <= rva -> 0 <= size ->
  safe (fun off => 0 <= off /\ off + size <= st_byte_count st) (rva_to_parser_offset st im rva size).
Proof.
  intros Him Hr Hs. unfold rva_to_parser_offset. destruct (negb (st_mapped st)).
  - rewrite <- (hd_bytes _ _ Him). apply file_offset_safe; [done|done|].
    eapply Forall_impl; [exact (proj1 (hd_sections _ _ Him))|].
    by intros s (_ & _ & _ & H & _).
  - destruct (size =? 0); [done|]. destruct (checked_add_u32 rva size) as [e|] eqn:He; [|done].
    apply checked_add_u32_Some in He as [-> He].
    destruct (_ || _) eqn:Hb; [done|]. bool_to_Z. cbn. lia.
Qed.

Lemma table_span_safe st im rva count record_size :
  headers_ok st im -> 0 <= rva -> 0 <= count -> 0 < record_size ->
  safe (fun off => 0 <= off /\ (0 < count -> off + count * record_size <= st_byte_count st))
    (table_file_span st im rva count record_size).
Proof.
  intros Him Hr Hc Hs. unfold table_file_span.
  destruct (Z.eqb_spec count 0) as [->|]; [cbn; lia|]. destruct (rva =? 0); [done|].
  unfold checked_mul_size. destruct (negb _ && _); [done|]. destruct (_ <? _); [done|].
  eapply safe_weaken; [apply parser_offset_safe; [done|done|lia]|]. cbn. tauto.
Qed.

(** ** The stages of the parser *)

(** One step of a stage: a read, a guard, a translated offset. *)
Ltac safe_step := first
  [ eapply safe_bind; [apply safe_require|intros [] ?; bool_to_Z]
  | eapply safe_bind; [apply safe_u32; [eassumption|lia|lia]|intros ? [-> ?]]
  | eapply safe_bind; [apply safe_u16; [eassumption|lia|lia]|intros ? [-> ?]]
  | eapply safe_bind; [apply safe_u64; [eassumption|lia|lia]|intros ? ?]
  | eapply safe_bind; [apply safe_byte; [eassumption|lia]|intros ? ?] ];
  repeat match goal with
  | H : file_span_fits _ _ _ = true |- _ => apply file_span_fits_spec in H; destruct H
  end.

(** The layout's constants, so that [lia] sees their values. *)
Ltac pe_unfold := unfold require_file_span, PE_DOS_HEADER_MIN_SIZE, PE_COFF_HEADER_SIZE,
  PE32_PLUS_DATA_DIRECTORY_OFFSET, PE_DIRECTORY_LOAD_CONFIG, PE_DATA_DIRECTORY_SIZE,
  PE_SECTION_HEADER_SIZE, PE_LOAD_CONFIG_CHPE_POINTER_END, PE_LOAD_CONFIG_CHPE_POINTER_OFFSET,
  PE_CHPE_METADATA_V1_SIZE, PE_CHPE_METADATA_V2_SIZE, PE_CHPE_CODE_MAP_RECORD_SIZE,
  PE_CHPE_ENTRY_RECORD_SIZE, PE_CHPE_REDIRECTION_RECORD_SIZE in *.

Section stages.
Context {allocator : Allocator} (st : parser_state).
Context (Hbytes : Forall is_u8 (st_bytes st)) (Hcount : st_byte_count st <= Z.of_nat (length (st_bytes st))).

Lemma read_section_safe offset :
  0 <= offset -> offset + 40 <= Z.of_nat (length (st_bytes st)) ->
  safe (fun s => is_u32 (s_virtual_address s) /\ is_u32 (s_virtual_size s) /\ is_u32 (s_raw_size s) /\
          is_u32 (s_raw_pointer s) /\ is_u32 (s_characteristics s)) (read_section (st_bytes st) offset).
Proof. intros Ho Hl. unfold read_section. do 5 safe_step. by split_and!. Qed.

Lemma section_extent_pos s :
  is_u32 (s_virtual_size s) -> is_u32 (s_raw_size s) -> section_virtual_extent s <> 0 ->
  0 < section_virtual_extent s.
Proof.
  unfold is_u32, section_virtual_extent. destruct (_ <? _); lia.
Qed.

Lemma parse_sections_safe size_image table n i previous_end front :
  0 <= table -> 0 <= i -> table + (i + Z.of_nat n) * 40 <= st_byte_count st ->
  Forall (section_ok (st_byte_count st) (st_mapped st) size_image) front ->
  ordered (section_span <$> front) ->
  (forall s, last front = Some s -> (section_span s).2 = previous_end) ->
  safe (fun l => length l = (length front + n)%nat /\
          Forall (section_ok (st_byte_count st) (st_mapped st) size_image) l /\
          ordered (section_span <$> l))
    (parse_sections st size_image table n i previous_end front).
Proof.
  intros Ht. revert i previous_end front. induction n as [|n IH]; intros i previous_end front Hi Hl Hd Ho Hp;
    cbn [parse_sections]; [cbn; split_and!; [lia|done..]|].
  eapply safe_bind; [apply read_section_safe; unfold PE_SECTION_HEADER_SIZE; lia|].
  intros s (Hva & Hvs & Hrs & Hrp & Hch). safe_step. rename H into Hext.
  destruct (checked_add_u32 _ _) as [e|] eqn:He; [|done].
  apply checked_add_u32_Some in He as [-> He]. safe_step.
  eapply (safe_bind (fun _ => forall p, last front = Some p -> (section_span p).2 <= s_virtual_address s)).
  { destruct (last front) as [p|] eqn:Hlast; [|done]. safe_step.
    eapply safe_weaken; [apply safe_require|]. intros [] Hle p' [= <-]. rewrite (Hp p eq_refl). lia. }
  intros [] Hprev.
  eapply (safe_bind (fun _ => st_mapped st = false -> s_raw_size s <> 0 ->
            s_raw_pointer s + s_raw_size s <= st_byte_count st)).
  { destruct (st_mapped st); [done|]. cbn [negb andb].
    destruct (Z.eqb_spec (s_raw_size s) 0) as [|]; [cbn; congruence|]. cbn [negb].
    eapply safe_weaken; [apply safe_require|]. intros [] Hle _ _.
    destruct (checked_add_u32 (s_raw_pointer s) _) as [e|] eqn:Hraw; [|done].
    apply checked_add_u32_Some in Hraw as [-> _]. lia. }
  intros [] Hraw.
  pose proof (section_extent_pos s Hvs Hrs Hext) as Hpos.
  eapply safe_weaken; [apply IH|].
  - lia.
  - lia.
  - apply Forall_app; split; [done|]. apply Forall_singleton. by split_and!.
  - rewrite fmap_app. apply ordered_snoc; [done|cbn; lia|].
    intros a Ha. rewrite fmap_last in Ha. destruct (last front) as [p|]; [|done].
    injection Ha as <-. by apply Hprev.
  - intros s' Hs'. rewrite last_snoc in Hs'. by injection Hs' as <-.
  - intros l (Hlen & Hl'). split; [|done]. rewrite Hlen, length_app. cbn. lia.
Qed.

Lemma parse_headers_safe im :
  i_byte_count im = st_byte_count st ->
  safe (fun '(im', dir) => headers_ok st im' /\ 0 <= dir /\ dir + 8 <= st_byte_count st)
    (parse_headers st im).
Proof.
  intros Him. unfold parse_headers. pe_unfold. safe_step. safe_step.
  eapply (safe_bind (fun _ => True)).
  { destruct (negb _); [done|]. safe_step. eapply safe_weaken; [apply safe_require|done]. }
  intros _ _. do 10 safe_step. unfold is_u32, is_u16 in *.
  destruct (checked_add_size _ _) as [table|] eqn:Ht; [|done].
  apply checked_add_size_Some in Ht as [-> Ht]. do 15 safe_step.
  match goal with H : match checked_mul_size ?a ?b with _ => _ end = true |- _ =>
    assert (checked_mul_size a b = Some (a * b)) as Hmul; [|rewrite Hmul in H] end.
  { unfold checked_mul_size. rewrite (proj2 (Z.ltb_ge _ _)); [by rewrite andb_false_r|].
    apply Z.div_le_lower_bound; unfold SIZE_MAX, UINT64_MAX; lia. }
  match goal with H : file_span_fits _ _ _ = true |- _ =>
    apply file_span_fits_spec in H as [_ Hfit] end.
  safe_step. eapply safe_bind.
  { apply parse_sections_safe with (front := []); [lia|lia| |constructor|apply ordered_nil|done].
    unfold is_u16 in *. rewrite Z2Nat.id by lia. rewrite Z.add_0_l. exact Hfit. }
  intros l (Hlen & Hl & Hord). cbn [safe mret result_ret]. rewrite <- Him in *.
  split; [|unfold is_u16, is_u32 in *; lia].
  unfold is_u16, is_u32, UINT16_MAX, UINT32_MAX in *. cbn [length plus] in Hlen.
  split; cbn; unfold UINT16_MAX, UINT32_MAX; try done; try lia.
  - intros Hmap. rewrite Hmap in *. cbn [andb] in *. bool_to_Z. lia.
Qed.

Lemma load_config_safe im dir :
  headers_ok st im -> 0 <= dir -> dir + 8 <= st_byte_count st ->
  safe (fun '(im', f) => (exists a b c d, im' = set_chpe im a b c d) /\
          is_u32 (f_code_map_rva f) /\ is_u32 (f_code_map_count f) /\
          is_u32 (f_entry_ranges_rva f) /\ is_u32 (f_redirections_rva f) /\
          is_u32 (f_entry_range_count f) /\ is_u32 (f_redirection_count f))
    (parse_load_config_and_chpe st im dir).
Proof.
  intros Him Hd Hd8. unfold parse_load_config_and_chpe, as_error. pe_unfold.
  do 3 safe_step. unfold is_u32 in *.
  eapply safe_bind; [apply safe_map_err, parser_offset_safe; [done|lia|lia]|intros off [Ho Hl]; cbn beta in *].
  do 6 safe_step.
  eapply safe_bind; [apply safe_map_err, parser_offset_safe; [done|lia|lia]|intros off' [Ho' Hl']; cbn beta in *].
  do 2 safe_step.
  eapply safe_bind; [apply safe_map_err, parser_offset_safe; [done|lia|destruct (_ =? _); lia]|].
  intros off2 [Ho2 Hl2]. cbn beta in *.
  assert (off2 + 80 <= st_byte_count st) as Hl3 by (destruct (_ =? _) in Hl2; lia).
  do 6 safe_step. cbn. split; [by do 4 eexists|]. unfold is_u32 in *; lia.
Qed.

Lemma checked_mul_Some a b c : checked_mul_size a b = Some c -> c = a * b.
Proof. unfold checked_mul_size. destruct (_ && _); [done|]. by intros [= <-]. Qed.

Lemma allocate_safe im f :
  safe (fun im' => im' = set_counts im (f_code_map_count f) (f_entry_range_count f) (f_redirection_count f)
          /\ 12 * f_code_map_count f + 12 * f_entry_range_count f + 8 * f_redirection_count f
             <= GEM_PE_ARM64X_DEFAULT_MAX_METADATA_BYTES
          /\ f_code_map_count f <= o_max_code_ranges (st_options st)
          /\ f_entry_range_count f <= o_max_entry_ranges (st_options st)
          /\ f_redirection_count f <= o_max_redirections (st_options st))
    (allocate_metadata_arrays st im f).
Proof.
  unfold allocate_metadata_arrays. safe_step.
  destruct (metadata_bytes f) as [total|] eqn:Ht; [|done]. do 4 safe_step. cbn.
  split; [done|]. unfold metadata_bytes, SIZEOF_CODE_RANGE, SIZEOF_ENTRY_RANGE, SIZEOF_REDIRECTION in Ht.
  apply bind_Some in Ht as (a & Ha%checked_mul_Some & Ht).
  apply bind_Some in Ht as (b & Hb%checked_mul_Some & Ht).
  apply bind_Some in Ht as (c & Hc%checked_mul_Some & Ht).
  apply bind_Some in Ht as (d & [Hd _]%checked_add_size_Some & [Ht _]%checked_add_size_Some).
  lia.
Qed.

(** ** The tables *)

(** A loop whose records are safe, ordered and spell their bytes. *)
Lemma parse_records_safe {A} (span : A -> Z * Z) (good : A -> Prop) (spells : Z -> A -> Prop)
    (f : Z -> option A -> pe_result A) table size n i front :
  0 <= table -> 0 <= i -> 0 < size ->
  (forall off previous, 0 <= off -> off + size <= st_byte_count st ->
     safe (fun r => good r /\ spells off r /\ (span r).1 < (span r).2 /\
            forall p, previous = Some p -> (span p).2 <= (span r).1) (f off previous)) ->
  (0 < Z.of_nat n -> table + (i + Z.of_nat n) * size <= st_byte_count st) ->
  i = Z.of_nat (length front) -> Forall good front -> ordered (span <$> front) ->
  (forall j r, front !! j = Some r -> spells (table + Z.of_nat j * size) r) ->
  safe (fun l => length l = (length front + n)%nat /\ Forall good l /\ ordered (span <$> l) /\
          forall j r, l !! j = Some r -> spells (table + Z.of_nat j * size) r)
    (parse_records f table size n i front).
Proof.
  intros Ht Hi0 Hs Hf. revert i front Hi0.
  induction n as [|n IH]; intros i front Hi0 Hl Hi Hg Ho Hsp; cbn [parse_records].
  { cbn. split_and!; [lia|done..]. }
  eapply safe_bind; [apply Hf; nia|]. intros r (Hr & Hrs & Hne & Hp).
  eapply safe_weaken; [apply IH|].
  - lia.
  - intros _. specialize (Hl ltac:(lia)). lia.
  - rewrite length_app. cbn. lia.
  - apply Forall_app; split; [done|]. by apply Forall_singleton.
  - rewrite fmap_app. apply ordered_snoc; [done|done|]. intros a Ha. rewrite fmap_last in Ha.
    destruct (last front) as [p|]; [|done]. injection Ha as <-. by apply Hp.
  - intros j r' Hj. apply lookup_app_Some in Hj as [Hj | [Hj Hr']]; [by apply Hsp|].
    apply list_lookup_singleton_Some in Hr' as [Hz <-].
    replace (table + Z.of_nat j * size) with (table + i * size) by nia. done.
  - intros l (Hlen & Hl'). split; [|done]. rewrite Hlen, length_app. cbn. lia.
Qed.

(** The whole loop over a table of [count] records. *)
Lemma parse_table_safe {A} (span : A -> Z * Z) (good : A -> Prop) (spells : Z -> A -> Prop)
    (f : Z -> option A -> pe_result A) table size count :
  0 <= table -> 0 < size -> 0 <= count ->
  (0 < count -> table + count * size <= st_byte_count st) ->
  (forall off previous, 0 <= off -> off + size <= st_byte_count st ->
     safe (fun r => good r /\ spells off r /\ (span r).1 < (span r).2 /\
            forall p, previous = Some p -> (span p).2 <= (span r).1) (f off previous)) ->
  safe (fun l => Z.of_nat (length l) = count /\ Forall good l /\ ordered (span <$> l) /\
          forall j r, l !! j = Some r -> spells (table + Z.of_nat j * size) r)
    (parse_records f table size (Z.to_nat count) 0 []).
Proof.
  intros Ht Hs Hc Hl Hf. eapply safe_weaken; [apply parse_records_safe; try done|].
  - rewrite Z2Nat.id, Z.add_0_l by done. exact Hl.
  - apply ordered_nil.
  - cbn. intros l (Hlen & Hrest). split; [lia|done].
Qed.

(** What a record's bytes must spell. *)
Definition code_spells (off : Z) (r : code_range) : Prop :=
  cr_start r = u32_at (st_bytes st) off .&~ 3 /\
  cr_end r = cr_start r + u32_at (st_bytes st) (off + 4) /\
  cr_isa r = code_type_to_class (u32_at (st_bytes st) off .& 3).
Definition entry_spells (off : Z) (r : entry_range) : Prop :=
  e_start r = u32_at (st_bytes st) off /\ e_end r = u32_at (st_bytes st) (off + 4) /\
  e_entry r = u32_at (st_bytes st) (off + 8).
Definition redirection_spells (off : Z) (r : redirection) : Prop :=
  r_source r = u32_at (st_bytes st) off /\ r_destination r = u32_at (st_bytes st) (off + 4).

(** The guard on the record before: [unsorted] and [overlapping]. *)
Lemma previous_safe {A} (previous : option A) (start end_ : A -> Z) (x : Z) :
  safe (fun _ => forall p, previous = Some p -> end_ p <= x)
    (match previous with
     | Some p => require (start p <=? x) GEM_PE_ERROR_UNSORTED_RANGES;;
                 require (end_ p <=? x) GEM_PE_ERROR_OVERLAPPING_RANGES
     | None => mret tt
     end).
Proof.
  destruct previous as [p|]; [|done]. safe_step. eapply safe_weaken; [apply safe_require|].
  intros [] He p' [= <-]. by apply Z.leb_le.
Qed.

Lemma executable_at_section im x i s :
  find_section_for_span im x 1 = Some (i, s) -> section_is_executable s = true -> executable_at im x.
Proof.
  intros (_ & Hi & Hc)%find_section_Some Hx. apply section_contains_spec in Hc.
  exists s. split_and!; [by eapply list_elem_of_lookup_2| |done]. unfold contains. lia.
Qed.

Lemma low_bits x : 0 <= x -> x .& 3 = x mod 4 /\ x .&~ 3 = x - x mod 4.
Proof.
  intros Hx. change 3 with (Z.ones 2). rewrite Z.land_ones, Z.ldiff_ones_r by lia.
  rewrite Z.shiftr_div_pow2, Z.shiftl_mul_pow2 by lia. pose proof (Z.div_mod x 4).
  change (2 ^ 2) with 4. lia.
Qed.

Lemma code_record_safe im off previous :
  0 <= off -> off + 8 <= st_byte_count st ->
  safe (fun r => code_ok im r /\ code_spells off r /\ (code_span r).1 < (code_span r).2 /\
          forall p, previous = Some p -> (code_span p).2 <= (code_span r).1)
    (parse_code_record (st_bytes st) im off previous).
Proof.
  intros Ho Hl. unfold parse_code_record. do 3 safe_step. unfold is_u32 in *.
  remember (u32_at (st_bytes st) off) as x eqn:Ex.
  remember (u32_at (st_bytes st) (off + 4)) as len eqn:El.
  destruct (low_bits x) as [Hlow Hhigh]; [lia|].
  pose proof (Z.mod_pos_bound x 4 ltac:(lia)) as Hm.
  pose proof (Z.mod_le x 4 ltac:(lia) ltac:(lia)) as Hmle.
  destruct (checked_add_u32 _ _) as [e|] eqn:He; [|done].
  apply checked_add_u32_Some in He as [-> He]. safe_step.
  eapply safe_bind; [apply previous_safe|]. intros [] Hp. cbn beta in Hp. safe_step.
  destruct (find_section_for_span im (x .&~ 3) 1) as [[i1 s1]|] eqn:Hs1; [|done].
  destruct (find_section_for_span im (_ - 1) 1) as [[i2 s2]|] eqn:Hs2; [|done]. bool_to_Z.
  cbn [safe mret result_ret]. unfold code_ok, code_spells, code_span. cbn -[Z.ldiff Z.land].
  rewrite <- Ex, <- El. split_and!; try done; try lia.
  - rewrite Hhigh. apply Z.mod_divide; [lia|]. exists (x / 4). pose proof (Z.div_mod x 4). lia.
  - rewrite Hlow in *. unfold code_type_to_class.
    assert (x mod 4 = 0 \/ x mod 4 = 1 \/ x mod 4 = 2) as [-> | [-> | ->]] by lia; cbn; set_solver.
  - by eapply executable_at_section.
  - by eapply executable_at_section.
Qed.

Lemma entry_record_safe im off previous :
  ordered (code_span <$> i_code_ranges im) -> 0 <= off -> off + 12 <= st_byte_count st ->
  safe (fun r => entry_ok im r /\ entry_spells off r /\ (entry_span r).1 < (entry_span r).2 /\
          forall p, previous = Some p -> (entry_span p).2 <= (entry_span r).1)
    (parse_entry_record (st_bytes st) im off previous).
Proof.
  intros Hord Ho Hl. unfold parse_entry_record. do 4 safe_step. unfold is_u32 in *.
  eapply safe_bind; [apply previous_safe|]. intros [] Hp. cbn beta in Hp. safe_step.
  unfold code_range_contains_class, find_code_range in *.
  destruct (scan_code_ranges _ _) as [c|] eqn:Hc; [|done]. bool_to_Z.
  rewrite scan_code in Hc. apply scan_spec in Hc as [Hin Hcon]; [|done].
  cbn [safe mret result_ret]. unfold entry_ok, entry_spells, entry_span, contains. cbn.
  split_and!; try done; try lia. exists c. split_and!; [done|by eapply bool_decide_eq_true_1| |done].
  unfold contains, code_span in Hcon. cbn in Hcon. lia.
Qed.

Lemma redirection_record_safe im off previous :
  0 <= off -> off + 8 <= st_byte_count st ->
  safe (fun r => redirection_ok im r /\ redirection_spells off r /\
          (redirection_span r).1 < (redirection_span r).2 /\
          forall p, previous = Some p -> (redirection_span p).2 <= (redirection_span r).1)
    (parse_redirection_record (st_bytes st) im off previous).
Proof.
  intros Ho Hl. unfold parse_redirection_record. do 3 safe_step. unfold is_u32 in *.
  eapply (safe_bind (fun _ => forall p, previous = Some p -> r_source p < u32_at (st_bytes st) off)).
  { destruct previous as [p|]; [|done]. safe_step. eapply safe_weaken; [apply safe_require|].
    intros [] He p' [= <-]. bool_to_Z. lia. }
  intros [] Hp. cbn [safe mret result_ret].
  unfold redirection_ok, redirection_spells, redirection_span. cbn.
  split_and!; try done; try lia. intros p Hq. specialize (Hp p Hq). lia.
Qed.
End stages.
