(* ===== verification/PeProperties.v ===== *)
(** PeProperties: the parser is safe and exact on every input, and the queries
    on a parsed image agree with a declarative reading of its tables. *)
From S2P Require Import Prelude Pe PeInvariant.

(** ** Parsing *)

(** The counts respect the options in force. *)
Definition within (o : parse_options) (im : image) : Prop :=
  section_count (i_summary im) <= o_max_sections o /\
  code_range_count (i_summary im) <= o_max_code_ranges o /\
  entry_range_count (i_summary im) <= o_max_entry_ranges o /\
  redirection_count (i_summary im) <= o_max_redirections o.

(** Three tables of the file spell the three lists of the image. *)
Definition spelled (st : parser_state) (im : image) : Prop :=
  exists code entry redirect : Z,
    (forall i r, i_code_ranges im !! i = Some r -> code_spells st (code + 8 * Z.of_nat i) r) /\
    (forall i r, i_entry_ranges im !! i = Some r -> entry_spells st (entry + 12 * Z.of_nat i) r) /\
    (forall i r, i_redirections im !! i = Some r ->
       redirection_spells st (redirect + 8 * Z.of_nat i) r).

Section parse.
Context {allocator : Allocator}.

Lemma copy_options_Ok options o :
  copy_options options = Ok o -> o = default gem_pe_arm64x_default_parse_options options.
Proof.
  unfold copy_options. destruct options as [o'|]; [|by intros [= <-]].
  destruct (_ || _); [done|]. by intros [= <-].
Qed.

Lemma parse_image_safe bytes byte_count loaded_base mapped options out :
  Forall is_u8 bytes -> 0 <= byte_count <= Z.of_nat (length bytes) ->
  let o := default gem_pe_arm64x_default_parse_options options in
  safe (fun im => image_ok mapped im /\ i_byte_count im = byte_count /\ within o im /\
          spelled (ParserState bytes byte_count loaded_base mapped o) im)
    (parse_image (Some bytes) byte_count loaded_base mapped options out).
Proof.
  intros Hbytes Hcount o. unfold parse_image. destruct out; [cbn [negb]|done].
  eapply safe_bind; [apply safe_require|intros [] _].
  destruct (copy_options options) as [o'|e|] eqn:Ho; [|done|]; [|by unfold copy_options in Ho; repeat case_match].
  apply copy_options_Ok in Ho as ->. change (default _ options) with o. cbn [mbind result_bind].
  set (st := ParserState bytes byte_count loaded_base mapped o).
  eapply safe_bind; [apply safe_require|intros [] _].
  eapply safe_bind; [apply (parse_headers_safe st); [done|cbn; lia|done]|].
  intros [im dir] (Hh & Hd & Hd8).
  eapply safe_bind; [apply (load_config_safe st); [done|cbn; lia|done..]|].
  intros [im1 f] ((a & b & c & d & ->) & Hf1 & Hf2 & Hf3 & Hf4 & Hf5 & Hf6). unfold is_u32 in *.
  assert (headers_ok st (set_chpe im a b c d)) as Hh1 by (destruct Hh; by split).
  eapply safe_bind; [apply allocate_safe|]. intros im2 (-> & Htotal & Hm1 & Hm2 & Hm3).
  match goal with |- context [parse_code_map st ?i f] => set (im2 := i); assert (headers_ok st im2) as Hh2 end.
  { destruct Hh1; by split. }
  eapply (safe_bind (fun im3 => exists l t, im3 = set_code_ranges im2 l /\
    Z.of_nat (length l) = f_code_map_count f /\ Forall (code_ok im2) l /\ ordered (code_span <$> l) /\
    forall i r, l !! i = Some r -> code_spells st (t + Z.of_nat i * 8) r)).
  { unfold parse_code_map. pe_unfold.
    eapply safe_bind; [apply safe_map_err, (table_span_safe st); [done|lia..]|]. intros t [Ht Htl].
    eapply safe_bind.
    { apply (parse_table_safe st code_span (code_ok im2) (code_spells st)); [done|done|lia|done|].
      intros. apply code_record_safe; [done|cbn; lia|done..]. }
    intros l (Hlen & Hl & Hord & Hsp). cbn. exists l, t. by split_and!. }
  intros im3 (cs & ct & -> & Hclen & Hc & Hcord & Hcsp).
  set (im3 := set_code_ranges im2 cs). assert (headers_ok st im3) as Hh3 by (destruct Hh2; by split).
  eapply (safe_bind (fun im4 => exists l t, im4 = set_entry_ranges im3 l /\
    Z.of_nat (length l) = f_entry_range_count f /\ Forall (entry_ok im3) l /\
    ordered (entry_span <$> l) /\ forall i r, l !! i = Some r -> entry_spells st (t + Z.of_nat i * 12) r)).
  { unfold parse_entry_ranges. pe_unfold.
    eapply safe_bind; [apply safe_map_err, (table_span_safe st); [done|lia..]|]. intros t [Ht Htl].
    eapply safe_bind.
    { apply (parse_table_safe st entry_span (entry_ok im3) (entry_spells st)); [done|done|lia|done|].
      intros. apply entry_record_safe; [done|cbn; lia|done..]. }
    intros l (Hlen & Hl & Hord & Hsp). cbn. exists l, t. by split_and!. }
  intros im4 (es & et & -> & Helen & He & Heord & Hesp).
  set (im4 := set_entry_ranges im3 es). assert (headers_ok st im4) as Hh4 by (destruct Hh3; by split).
  unfold parse_redirections. pe_unfold.
  eapply safe_bind; [apply safe_map_err, (table_span_safe st); [done|lia..]|]. intros rt [Ht Htl].
  eapply safe_bind.
  { apply (parse_table_safe st redirection_span (redirection_ok im4) (redirection_spells st));
      [done|done|lia|done|].
    intros. apply redirection_record_safe; [done|cbn; lia|done..]. }
  intros rs (Hrlen & Hr & Hrord & Hrsp). cbn [safe mret result_ret].
  destruct Hh as [S1 S2 S3 S4 S5 S6 S7]. split_and!.
  - split; cbn; try done; try (cbn in *; lia).
    intros Hm. rewrite S5. by apply S2.
  - done.
  - unfold within. cbn in *. lia.
  - exists ct, et, rt. split_and!.
    + intros i r Hi. rewrite Z.mul_comm. by apply Hcsp.
    + intros i r Hi. rewrite Z.mul_comm. by apply Hesp.
    + intros i r Hi. rewrite Z.mul_comm. by apply Hrsp.
Qed.

(** C8: parsing untrusted bytes is memory safe and establishes the image
    invariant.  On any bytes, any options and whichever allocations fail, the
    parser never reads outside the buffer; when it succeeds the sections, the
    code map, the entry ranges and the redirections are sorted and disjoint, lie
    inside the image, every code range starts and ends in an executable section,
    every entry range lies in one x64 code range and contains its entry point,
    and all counts respect the limits in force. *)
Theorem parse_image_ok bytes byte_count loaded_base mapped options out :
  Forall is_u8 bytes -> 0 <= byte_count <= Z.of_nat (length bytes) ->
  match parse_image (Some bytes) byte_count loaded_base mapped options out with
  | Fault => False
  | Err _ => True
  | Ok im => image_ok mapped im /\ i_byte_count im = byte_count /\
      within (default gem_pe_arm64x_default_parse_options options) im
  end.
Proof.
  intros Hb Hc. pose proof (parse_image_safe bytes byte_count loaded_base mapped options out Hb Hc) as H.
  cbn zeta in H. destruct (parse_image _ _ _ _ _ _) as [im|e|]; [cbn in H; tauto|done|done].
Qed.


Lemma clone_array_Ok {A} block count size (l : list A) :
  count = Z.of_nat (length l) -> count * size <= SIZE_MAX -> 0 < size ->
  clone_array block count size l =
    if (count =? 0) || allocates block then Ok l else Err GEM_PE_ERROR_LIMIT_EXCEEDED.
Proof.
  intros -> Hs Hs0. unfold clone_array.
  destruct (Z.eqb_spec (Z.of_nat (length l)) 0) as [H|H]; cbn [orb].
  { by destruct l. }
  unfold checked_mul_size. rewrite (proj2 (Z.ltb_ge _ _)), andb_false_r.
  2:{ apply Z.div_le_lower_bound; lia. }
  rewrite Z.ltb_irrefl, Nat2Z.id, take_ge by lia. by destruct (allocates block).
Qed.

(** The outcome of [gem_pe_arm64x_image_clone] on a parsed image. *)
Lemma clone_correct mapped im :
  image_ok mapped im ->
  gem_pe_arm64x_image_clone (Some im) true =
    if allocates ImageBlock
       && ((section_count (i_summary im) =? 0) || allocates SectionArray)
       && ((code_range_count (i_summary im) =? 0) || allocates CodeRangeArray)
       && ((entry_range_count (i_summary im) =? 0) || allocates EntryRangeArray)
       && ((redirection_count (i_summary im) =? 0) || allocates RedirectionArray)
    then Ok im else Err GEM_PE_ERROR_LIMIT_EXCEEDED.
Proof.
  intros Him. unfold gem_pe_arm64x_image_clone. cbn [require mbind result_bind].
  destruct (allocates ImageBlock); [|done]. cbn [require mbind result_bind andb].
  pose proof (ok_metadata _ _ Him) as Hm. pose proof (ok_section_count _ _ Him) as [Hs Hs'].
  pose proof (ok_code_count _ _ Him) as Hc. pose proof (ok_entry_count _ _ Him) as He.
  pose proof (ok_redirection_count _ _ Him) as Hr.
  unfold GEM_PE_ARM64X_DEFAULT_MAX_METADATA_BYTES, UINT16_MAX in *.
  unfold SIZEOF_CODE_RANGE, SIZEOF_ENTRY_RANGE, SIZEOF_REDIRECTION, SIZEOF_SECTION in *.
  assert (SIZE_MAX = 18446744073709551615) as HS by done.
  rewrite (clone_array_Ok SectionArray) by (done || lia).
  destruct (_ || allocates SectionArray); [|done]. cbn [mbind result_bind andb].
  rewrite (clone_array_Ok CodeRangeArray) by (done || lia).
  destruct (_ || allocates CodeRangeArray); [|done]. cbn [mbind result_bind andb].
  rewrite (clone_array_Ok EntryRangeArray) by (done || lia).
  destruct (_ || allocates EntryRangeArray); [|done]. cbn [mbind result_bind andb].
  rewrite (clone_array_Ok RedirectionArray) by (done || lia).
  destruct (_ || allocates RedirectionArray); [|done]. cbn. by destruct im.
Qed.

(** a clone of a parsed image is the image itself when every allocation it
    needs succeeds, and [GEM_PE_ERROR_LIMIT_EXCEEDED] otherwise; it never reads
    past an array and never overflows a size. *)
Theorem clone_exact mapped im :
  image_ok mapped im ->
  gem_pe_arm64x_image_clone (Some im) true =
    if allocates ImageBlock
       && ((section_count (i_summary im) =? 0) || allocates SectionArray)
       && ((code_range_count (i_summary im) =? 0) || allocates CodeRangeArray)
       && ((entry_range_count (i_summary im) =? 0) || allocates EntryRangeArray)
       && ((redirection_count (i_summary im) =? 0) || allocates RedirectionArray)
    then Ok im else Err GEM_PE_ERROR_LIMIT_EXCEEDED.
Proof. exact (clone_correct mapped im). Qed.
End parse.

(** ** Classification *)

Definition redirected (im : image) (x d : Z) : Prop :=
  exists r, r ∈ i_redirections im /\ r_source r = x /\ r_destination r = d.
Definition in_entry (im : image) (x e : Z) : Prop :=
  exists r, r ∈ i_entry_ranges im /\ contains (entry_span r) x /\ e_entry r = e.
Definition in_code (im : image) (x : Z) (isa : gem_pe_rva_class) : Prop :=
  exists r, r ∈ i_code_ranges im /\ contains (code_span r) x /\ cr_isa r = isa.
Definition in_section (im : image) (x : Z) (executable : bool) : Prop :=
  exists s, s ∈ i_sections im /\ contains (section_span s) x /\ section_is_executable s = executable.

(** What an RVA is, read off the tables; earlier roles take precedence. *)
Inductive classified (im : image) (x : Z) : gem_pe_rva_class -> Prop :=
  | classified_redirection d : redirected im x d -> classified im x GEM_PE_RVA_FAST_FORWARD
  | classified_thunk e :
      (forall d, ~ redirected im x d) -> in_entry im x e -> classified im x GEM_PE_RVA_THUNK
  | classified_code isa :
      (forall d, ~ redirected im x d) -> (forall e, ~ in_entry im x e) -> in_code im x isa ->
      classified im x isa
  | classified_data :
      (forall d, ~ redirected im x d) -> (forall e, ~ in_entry im x e) ->
      (forall isa, ~ in_code im x isa) -> in_section im x false -> classified im x GEM_PE_RVA_DATA
  | classified_invalid :
      (forall d, ~ redirected im x d) -> (forall e, ~ in_entry im x e) ->
      (forall isa, ~ in_code im x isa) -> ~ in_section im x false ->
      classified im x GEM_PE_RVA_INVALID.

Section queries.
Context (mapped : bool) (im : image) (Him : image_ok mapped im).

Lemma find_redirection_spec x :
  match find_redirection im x with
  | Some r => r ∈ i_redirections im /\ r_source r = x
  | None => forall d, ~ redirected im x d
  end.
Proof.
  pose proof (proj2 (ok_redirections _ _ Him)) as Ho. unfold find_redirection. rewrite scan_redirection.
  destruct (scan redirection_span x (i_redirections im)) as [r|] eqn:Hs.
  - apply scan_spec in Hs as [Hin Hc]; [|done]. split; [done|].
    unfold contains, redirection_span in Hc; cbn in Hc; lia.
  - intros d (r & Hin & Hr & _). destruct (proj1 (scan_None _ _ _ Ho) Hs r Hin).
    unfold contains, redirection_span; cbn; lia.
Qed.

Lemma find_entry_spec x :
  match find_entry_range im x with
  | Some r => r ∈ i_entry_ranges im /\ contains (entry_span r) x
  | None => forall e, ~ in_entry im x e
  end.
Proof.
  pose proof (proj2 (ok_entries _ _ Him)) as Ho. unfold find_entry_range. rewrite scan_entry.
  destruct (scan entry_span x (i_entry_ranges im)) as [r|] eqn:Hs.
  - by apply scan_spec in Hs.
  - intros e (r & Hin & Hr & _). by destruct (proj1 (scan_None _ _ _ Ho) Hs r Hin).
Qed.

Lemma find_code_spec x :
  match find_code_range im x with
  | Some r => r ∈ i_code_ranges im /\ contains (code_span r) x
  | None => forall isa, ~ in_code im x isa
  end.
Proof.
  pose proof (proj2 (ok_codes _ _ Him)) as Ho. unfold find_code_range. rewrite scan_code.
  destruct (scan code_span x (i_code_ranges im)) as [r|] eqn:Hs.
  - by apply scan_spec in Hs.
  - intros e (r & Hin & Hr & _). by destruct (proj1 (scan_None _ _ _ Ho) Hs r Hin).
Qed.

Lemma section_in_image s :
  s ∈ i_sections im -> (section_span s).2 <= size_of_image (i_summary im) /\ section_ok (i_byte_count im) mapped (size_of_image (i_summary im)) s.
Proof.
  intros Hs. pose proof (proj1 (ok_sections _ _ Him)) as Hall. rewrite Forall_forall in Hall.
  specialize (Hall s Hs). split; [apply Hall|done].
Qed.

(** The section scan finds the one section that contains an RVA. *)
Lemma find_section_spec x :
  match find_section_for_span im x 1 with
  | Some (i, s) => i_sections im !! Z.to_nat i = Some s /\ 0 <= i /\ contains (section_span s) x
  | None => forall b, ~ in_section im x b
  end.
Proof.
  destruct (find_section_for_span im x 1) as [[i s]|] eqn:Hf.
  - apply find_section_Some in Hf as (Hi0 & Hi & Hc). apply section_contains_spec in Hc.
    split_and!; [done|done|unfold contains; lia..].
  - intros b (s & Hin & Hc & _). apply find_first_None in Hf. rewrite Forall_forall in Hf.
    specialize (Hf s Hin). cbn beta in Hf. apply not_true_iff_false in Hf. apply Hf.
    apply section_contains_spec. destruct (section_in_image s Hin) as [He _].
    pose proof (ok_size _ _ Him). unfold contains in Hc. lia.
Qed.

Lemma in_section_unique x b b' : in_section im x b -> in_section im x b' -> b = b'.
Proof.
  intros (s & [i Hi]%list_elem_of_lookup & Hc & <-) (s' & [j Hj]%list_elem_of_lookup & Hc' & <-).
  pose proof (ordered_unique section_span _ i j s s' x (proj2 (ok_sections _ _ Him)) Hi Hj Hc Hc').
  congruence.
Qed.

(** Two members of an ordered list that contain the same point are equal. *)
Lemma ordered_member {A} (span : A -> Z * Z) l a b x :
  ordered (span <$> l) -> a ∈ l -> b ∈ l -> contains (span a) x -> contains (span b) x -> a = b.
Proof.
  intros Ho [i Hi]%list_elem_of_lookup [j Hj]%list_elem_of_lookup Ha Hb.
  pose proof (ordered_unique span l i j a b x Ho Hi Hj Ha Hb). congruence.
Qed.

Lemma redirected_iff x d :
  redirected im x d <-> exists r, find_redirection im x = Some r /\ r_destination r = d.
Proof.
  pose proof (find_redirection_spec x) as Hf. split.
  - intros (r & Hin & Hr & Hd). destruct (find_redirection im x) as [r'|]; [|by destruct (Hf d); exists r].
    exists r'. split; [done|]. destruct Hf as [Hin' Hr'].
    rewrite (ordered_member redirection_span (i_redirections im) r' r x); try done;
      [exact (proj2 (ok_redirections _ _ Him))|..]; unfold contains, redirection_span; cbn; lia.
  - intros (r & Hr & Hd). rewrite Hr in Hf. exists r. tauto.
Qed.

Lemma in_entry_iff x e :
  in_entry im x e <-> exists r, find_entry_range im x = Some r /\ e_entry r = e.
Proof.
  pose proof (find_entry_spec x) as Hf. split.
  - intros (r & Hin & Hr & Hd). destruct (find_entry_range im x) as [r'|]; [|by destruct (Hf e); exists r].
    exists r'. split; [done|]. destruct Hf as [Hin' Hr'].
    by rewrite (ordered_member entry_span (i_entry_ranges im) r' r x (proj2 (ok_entries _ _ Him))).
  - intros (r & Hr & Hd). rewrite Hr in Hf. exists r. tauto.
Qed.

Lemma in_code_iff x isa :
  in_code im x isa <-> exists r, find_code_range im x = Some r /\ cr_isa r = isa.
Proof.
  pose proof (find_code_spec x) as Hf. split.
  - intros (r & Hin & Hr & Hd). destruct (find_code_range im x) as [r'|]; [|by destruct (Hf isa); exists r].
    exists r'. split; [done|]. destruct Hf as [Hin' Hr'].
    by rewrite (ordered_member code_span (i_code_ranges im) r' r x (proj2 (ok_codes _ _ Him))).
  - intros (r & Hr & Hd). rewrite Hr in Hf. exists r. tauto.
Qed.

Lemma in_section_iff x b :
  in_section im x b <->
  exists i s, find_section_for_span im x 1 = Some (i, s) /\ section_is_executable s = b.
Proof.
  pose proof (find_section_spec x) as Hf. split.
  - intros Hb. destruct (find_section_for_span im x 1) as [[i s]|]; [|by destruct (Hf b)].
    exists i, s. split; [done|]. destruct Hf as (Hi & _ & Hc).
    eapply in_section_unique; [|exact Hb]. exists s. split_and!; [|done|done].
    by eapply list_elem_of_lookup_2.
  - intros (i & s & Hr & Hd). rewrite Hr in Hf. exists s. split_and!; [|tauto|done].
    eapply list_elem_of_lookup_2, Hf.
Qed.

Lemma in_code_isa x isa :
  in_code im x isa -> isa ∈ [GEM_PE_RVA_ARM64; GEM_PE_RVA_ARM64EC; GEM_PE_RVA_X64].
Proof.
  intros (r & Hin & _ & <-). pose proof (proj1 (ok_codes _ _ Him)) as Hall.
  rewrite Forall_forall in Hall. apply (Hall r Hin).
Qed.

(** The class and the fields [gem_pe_arm64x_classify_rva] reports. *)
Lemma classify_correct x :
  0 <= x ->
  exists info, gem_pe_arm64x_classify_rva (Some im) x true = Ok info /\ info_rva info = x /\
  (size_of_image (i_summary im) <= x -> info = no_info x) /\
  (x < size_of_image (i_summary im) ->
    classified im x (classification info) /\
    (forall d, redirected im x d <->
       has_redirection info = true /\ redirection_destination_rva info = d) /\
    (forall e, in_entry im x e <-> has_entry_point info = true /\ entry_point_rva info = e) /\
    (forall isa, in_code im x isa <-> code_map_isa info = isa /\ isa <> GEM_PE_RVA_INVALID) /\
    (in_section im x true <-> executable_section info = true)).
Proof.
  intros Hx. unfold gem_pe_arm64x_classify_rva. cbn [negb].
  destruct (Z.leb_spec (size_of_image (i_summary im)) x).
  { eexists. split_and!; [done|done|done|lia]. }
  eexists. split; [reflexivity|]. cbn [info_rva]. split; [done|]. split; [lia|]. intros _.
  pose proof (redirected_iff x) as Hr. pose proof (in_entry_iff x) as He.
  pose proof (in_code_iff x) as Hc. pose proof (in_section_iff x) as Hs. pose proof (in_code_isa x) as Hisa.
  cbn [classification code_map_isa redirection_destination_rva has_redirection has_entry_point
    entry_point_rva executable_section].
  split_and!.
  - destruct (find_redirection im x) as [r|].
    { eapply classified_redirection, Hr. by exists r. }
    assert (forall d, ~ redirected im x d) as Hr' by (intros d (r & ? & _)%Hr; done).
    destruct (find_entry_range im x) as [e|].
    { eapply classified_thunk; [done|]. apply He. by exists e. }
    assert (forall d, ~ in_entry im x d) as He' by (intros d (r & ? & _)%He; done).
    destruct (find_code_range im x) as [c|].
    { apply classified_code; [done|done|]. apply Hc. by exists c. }
    assert (forall d, ~ in_code im x d) as Hc' by (intros d (r & ? & _)%Hc; done).
    destruct (find_section_for_span im x 1) as [[i s]|].
    + destruct (section_is_executable s) eqn:Hse.
      * apply classified_invalid; try done. intros (i' & s' & [= <- <-] & Hf)%Hs. congruence.
      * apply classified_data; try done. apply Hs. by exists i, s.
    + apply classified_invalid; try done. by intros (i' & s' & ? & _)%Hs.
  - intros d. rewrite Hr. destruct (find_redirection im x) as [r|].
    + split; [intros (r' & [= <-] & Hd); done|]. intros [_ Hd]. by exists r.
    + split; [intros (r' & ? & _); done|]. by intros [? _].
  - intros d. rewrite He. destruct (find_entry_range im x) as [r|].
    + split; [intros (r' & [= <-] & Hd); done|]. intros [_ Hd]. by exists r.
    + split; [intros (r' & ? & _); done|]. by intros [? _].
  - intros isa. split.
    + intros Hi. specialize (Hisa isa Hi). apply Hc in Hi as (r & -> & Hd).
      split; [done|]. intros ->. set_solver.
    + intros [Hd Hne]. apply Hc. destruct (find_code_range im x) as [r|]; [by exists r|congruence].
  - rewrite Hs. destruct (find_section_for_span im x 1) as [[i s]|].
    + split; [by intros (i' & s' & [= <- <-] & ?)|]. intros ?. by exists i, s.
    + split; [by intros (i' & s' & ? & _)|done].
Qed.

(** C30: classification agrees with the tables.  For every RVA inside a parsed
    image the class returned is the one the tables give it, a redirection taking
    precedence over an entry range, an entry range over the code map, and the
    code map over the section's permissions; the other fields report exactly the
    redirection, the entry point, the instruction set and the section's
    executability, and an RVA past the image is invalid with nothing reported. *)
Theorem classify_rva_spec x :
  0 <= x ->
  exists info, gem_pe_arm64x_classify_rva (Some im) x true = Ok info /\ info_rva info = x /\
  (size_of_image (i_summary im) <= x -> info = no_info x) /\
  (x < size_of_image (i_summary im) ->
    classified im x (classification info) /\
    (forall d, redirected im x d <->
       has_redirection info = true /\ redirection_destination_rva info = d) /\
    (forall e, in_entry im x e <-> has_entry_point info = true /\ entry_point_rva info = e) /\
    (forall isa, in_code im x isa <-> code_map_isa info = isa /\ isa <> GEM_PE_RVA_INVALID) /\
    (in_section im x true <-> executable_section info = true)).
Proof. exact (classify_correct x). Qed.
End queries.

(** ** File offsets *)

(** Where a file keeps the bytes of a span of RVAs: the headers keep their
    place; a section's initialised part is at its raw pointer. *)
Definition stored_at (im : image) (rva size off : Z) : Prop :=
  if bool_decide (rva + size <= i_size_of_headers im) then off = rva
  else exists s, s ∈ i_sections im /\ s_virtual_address s <= rva /\
    rva + size <= s_virtual_address s + s_raw_size s /\
    off = s_raw_pointer s + (rva - s_virtual_address s).

(** Translation of an RVA span to a file offset is exact: it succeeds
    precisely when the span is non-empty, lies in the image, and is kept whole in
    the headers or in the initialised part of one section; the offset is then
    that of its first byte and the whole span lies inside the file.  In
    particular spans that cross sections, leave the raw data or overflow 32 bits
    are refused. *)
Theorem rva_to_file_offset_exact im rva size off :
  image_ok false im -> is_u32 rva -> is_u32 size ->
  gem_pe_arm64x_rva_to_file_offset (Some im) rva size true = Ok off <->
  0 < size /\ rva + size <= size_of_image (i_summary im) /\ stored_at im rva size off /\
  0 <= off /\ off + size <= i_byte_count im.
Proof.
  intros Him Hr Hs. unfold is_u32 in *. pose proof (ok_size _ _ Him). pose proof (ok_headers _ _ Him) as (Hh & Hhb & _).
  unfold gem_pe_arm64x_rva_to_file_offset, rva_to_file_offset_internal, stored_at.
  destruct (Z.eqb_spec size 0) as [->|Hne]; [split; [done|lia]|].
  assert (rva_add_fits_image rva size (size_of_image (i_summary im)) =
    (rva + size <=? size_of_image (i_summary im))) as ->.
  { unfold rva_add_fits_image, checked_add_u32.
    destruct (Z.ltb_spec (UINT32_MAX - size) rva); [|done]. symmetry. apply Z.leb_gt. lia. }
  destruct (Z.leb_spec (rva + size) (size_of_image (i_summary im))) as [Hfit|]; cbn [negb];
    [|split; [done|lia]].
  assert (checked_add_u32 rva size = Some (rva + size)) as ->.
  { apply checked_add_u32_Some. lia. }
  case_bool_decide as Hhead.
  { rewrite (proj2 (Z.ltb_lt _ _)), !(proj2 (Z.leb_le _ _)) by lia. cbn [andb].
    split; [intros [= <-]|]; [|intros (_ & _ & -> & _); done]. split_and!; lia. }
  rewrite (proj2 (Z.leb_gt _ _)), andb_false_r by lia. cbn [andb].
  destruct (find_section_for_span im rva size) as [[i s]|] eqn:Hf.
  - apply find_section_Some in Hf as (_ & Hi & Hc). apply section_contains_spec in Hc. cbn in Hc.
    apply list_elem_of_lookup_2 in Hi as Hin.
    destruct (section_in_image _ _ Him s Hin) as [_ (Hva & _ & Hrs & Hrp & _ & Hse & Hraw)].
    specialize (Hraw eq_refl). unfold is_u32 in *.
    assert (checked_add_u32 (rva - s_virtual_address s) size
      = Some (rva - s_virtual_address s + size)) as -> by (apply checked_add_u32_Some; lia).
    assert (forall s', s' ∈ i_sections im -> s_virtual_address s' <= rva ->
      rva + size <= s_virtual_address s' + s_raw_size s' -> s' = s) as Huniq.
    { intros s' Hin' Hlo Hhi. pose proof (section_extent_le s').
      eapply (ordered_member section_span (i_sections im) s' s rva); try done;
        [exact (proj2 (ok_sections _ _ Him))|..]; unfold contains, section_span; cbn; lia. }
    destruct (Z.ltb_spec (s_raw_size s) (rva - s_virtual_address s + size)) as [Hlt|Hge].
    { split; [done|]. intros (_ & _ & (s' & Hin' & Hlo & Hhi & _) & _).
      pose proof (Huniq s' Hin' Hlo Hhi) as ->. lia. }
    assert (s_raw_size s <> 0) as Hraw0 by lia. specialize (Hraw Hraw0).
    assert (checked_add_size (s_raw_pointer s) (rva - s_virtual_address s)
      = Some (s_raw_pointer s + (rva - s_virtual_address s))) as ->.
    { apply checked_add_size_Some. unfold SIZE_MAX, UINT64_MAX. lia. }
    assert (file_span_fits (i_byte_count im) (s_raw_pointer s + (rva - s_virtual_address s)) size = true) as ->.
    { apply file_span_fits_spec. unfold SIZE_MAX, UINT64_MAX. lia. }
    split.
    + intros [= <-]. split_and!; [lia|done| |lia|lia]. exists s. split_and!; [done|lia|lia|done].
    + intros (_ & _ & (s' & Hin' & Hlo & Hhi & ->) & _).
      by pose proof (Huniq s' Hin' Hlo Hhi) as ->.
  - split; [done|]. intros (_ & _ & (s & Hin & Hlo & Hhi & _) & _). apply find_first_None in Hf.
    rewrite Forall_forall in Hf. specialize (Hf s Hin). cbn beta in Hf.
    apply not_true_iff_false in Hf. destruct Hf. apply section_contains_spec.
    destruct (section_in_image _ _ Him s Hin) as [He _]. pose proof (section_extent_le s).
    cbn in *. lia.
Qed.

(** ** A concrete image *)

(** Little-endian words, and bytes written over a buffer. *)
Definition u32s (vs : list Z) : list Z := vs ≫= le_bytes 4.
Definition patch (off : Z) (bytes file : list Z) : list Z :=
  take (Z.to_nat off) file ++ bytes ++ drop (Z.to_nat off + length bytes) file.

(** Two sections at 0x1000 (code) and 0x2000 (data), two code ranges, one entry
    range and one redirection. *)
Definition sample_pe : list Z :=
  patch 0 [0x4d; 0x5a] $ patch 0x3c (u32s [64]) $ patch 64 (u32s [PE_SIGNATURE]) $
  patch 68 (le_bytes 2 PE_MACHINE_ARM64 ++ le_bytes 2 2) $ patch 84 (le_bytes 2 200) $
  patch 88 (le_bytes 2 PE_OPTIONAL_MAGIC_PE32_PLUS) $ patch 104 (u32s [0x1000]) $
  patch 112 (u32s [0x80000000; 1; 4096; 512]) $ patch 144 (u32s [0x3000; 0x200]) $
  patch 196 (u32s [16]) $ patch 280 (u32s [0x2000; 0xd0]) $
  patch 296 (u32s [0x800; 0x1000; 0x200; 0x200; 0; 0; 0; 0x60000020]) $
  patch 336 (u32s [0x200; 0x2000; 0x200; 0x400; 0; 0; 0; 0x40000040]) $
  patch 0x400 (u32s [0xd0]) $ patch 0x4c8 (u32s [0x800020d0; 1]) $
  patch 0x4d0 (u32s [1; 0x2120; 2; 0x2130; 0x213c]) $ patch 0x500 (u32s [1; 1]) $
  patch 0x520 (u32s [0x1001; 0x100; 0x1102; 0x100; 0x1100; 0x1180; 0x1110; 0x1000; 0x1040]) $
  replicate 0x600 0.

(** An allocator that never fails. *)
Definition generous : Allocator := {| allocates _ := true |}.

Definition sample_image : image :=
  match parse_image (allocator := generous) (Some sample_pe) 0x600 0 false None true with
  | Ok im => im
  | _ => empty_image 0
  end.

Lemma sample_parses :
  parse_image (allocator := generous) (Some sample_pe) 0x600 0 false None true = Ok sample_image.
Proof. vm_compute. reflexivity. Qed.

Lemma sample_bytes : Forall is_u8 sample_pe.
Proof. apply (bool_decide_unpack _). vm_compute. exact I. Qed.

Lemma sample_length : 0 <= 0x600 <= Z.of_nat (length sample_pe).
Proof. vm_compute. split; discriminate. Qed.

Lemma sample_ok : image_ok false sample_image.
Proof.
  pose proof (parse_image_safe (allocator := generous) sample_pe 0x600 0 false None true
    sample_bytes sample_length) as H.
  rewrite sample_parses in H. apply H.
Qed.

Lemma parse_image_ok_witness :
  parse_image (allocator := generous) (Some sample_pe) 0x600 0 false None true = Ok sample_image /\
  image_ok false sample_image /\ within gem_pe_arm64x_default_parse_options sample_image.
Proof.
  pose proof (parse_image_ok (allocator := generous) sample_pe 0x600 0 false None true
    sample_bytes sample_length) as H.
  split; [exact sample_parses|]. rewrite sample_parses in H. destruct H as (H1 & _ & H2).
  split; [exact H1|exact H2].
Defined.


Lemma clone_exact_witness :
  gem_pe_arm64x_image_clone (allocator := generous) (Some sample_image) true = Ok sample_image.
Proof. rewrite (clone_exact (allocator := generous) false sample_image sample_ok). reflexivity. Defined.

Lemma classify_rva_spec_witness :
  exists info, gem_pe_arm64x_classify_rva (Some sample_image) 0x1110 true = Ok info /\
    classification info = GEM_PE_RVA_THUNK /\ classified sample_image 0x1110 (classification info) /\
    (forall e, in_entry sample_image 0x1110 e <->
       has_entry_point info = true /\ entry_point_rva info = e).
Proof.
  destruct (classify_rva_spec false sample_image sample_ok 0x1110) as (info & Hi & _ & _ & H).
  - lia.
  - exists info. split; [exact Hi|]. destruct H as (Hc & _ & He & _); [vm_compute; reflexivity|].
    split; [|split; [exact Hc|exact He]]. vm_compute in Hi. injection Hi as <-. reflexivity.
Defined.

Lemma rva_to_file_offset_exact_witness :
  gem_pe_arm64x_rva_to_file_offset (Some sample_image) 0x2010 16 true = Ok 0x410 /\
  stored_at sample_image 0x2010 16 0x410.
Proof.
  assert (gem_pe_arm64x_rva_to_file_offset (Some sample_image) 0x2010 16 true = Ok 0x410) as H
    by (vm_compute; reflexivity).
  split; [exact H|].
  apply (rva_to_file_offset_exact sample_image 0x2010 16 0x410 sample_ok) in H.
  - tauto.
  - apply (bool_decide_unpack _). vm_compute. exact I.
  - apply (bool_decide_unpack _). vm_compute. exact I.
Defined.
