(* ===== verification/Target.v ===== *)
(** Target: the ARM64EC target map, which turns the address of an indirect call
    into a checked ARM64, ARM64EC or x64 target
    (src/gem/arm64ec_target.c, include/metalsharp/gem/arm64ec_target.h).

    A function returning [enum gem_arm64ec_target_status] is a [result]: [Err]
    stores nothing through the out parameters.  The CFG callback is a predicate
    on addresses; a policy is [None] for a NULL pointer, [Some None] for a NULL
    callback. *)
From S2P Require Import Prelude Context MemoryModel Memory Pe.

Inductive gem_arm64ec_target_status : Type :=
  | GEM_ARM64EC_TARGET_OK
  | GEM_ARM64EC_TARGET_INVALID_ARGUMENT
  | GEM_ARM64EC_TARGET_OVERFLOW
  | GEM_ARM64EC_TARGET_OUTSIDE_IMAGE
  | GEM_ARM64EC_TARGET_NOT_EXECUTABLE
  | GEM_ARM64EC_TARGET_MALFORMED_METADATA
  | GEM_ARM64EC_TARGET_MISALIGNED
  | GEM_ARM64EC_TARGET_MEMORY_FAULT
  | GEM_ARM64EC_TARGET_CFG_DENIED
  | GEM_ARM64EC_TARGET_DESCRIPTOR_UNSUPPORTED
  | GEM_ARM64EC_TARGET_RELOCATION_UNSUPPORTED.

Inductive gem_arm64ec_target_kind : Type :=
  | GEM_ARM64EC_TARGET_ARM64
  | GEM_ARM64EC_TARGET_ARM64EC
  | GEM_ARM64EC_TARGET_X64_BOUNDARY.

#[export] Instance gem_arm64ec_target_status_eq_dec : EqDecision gem_arm64ec_target_status.
Proof. solve_decision. Defined.
#[export] Instance gem_arm64ec_target_kind_eq_dec : EqDecision gem_arm64ec_target_kind.
Proof. solve_decision. Defined.

Record target_result : Type := TargetResult {
  requested_va : Z;
  resolved_va : Z;
  requested_rva : Z;
  resolved_rva : Z;
  kind : gem_arm64ec_target_kind;
  redirection_hops : Z }.

Record target_map : Type := TargetMap {
  tm_image : image;
  tm_summary : pe_summary;
  tm_loaded_base : Z;
  tm_loaded_end : Z }.

Definition target_status : Type -> Type := result gem_arm64ec_target_status.

Definition add_u64 (left right : Z) : option Z :=
  if UINT64_MAX - right <? left then None else Some (left + right).

(** [block] says whether the map's own [calloc] succeeds. *)
Definition gem_arm64ec_target_map_create {allocator : Allocator} (block : bool) (im : option image)
    (loaded_image_base : Z) (out : bool) : target_status target_map :=
  if bool_decide (im = None) || negb out then Err GEM_ARM64EC_TARGET_INVALID_ARGUMENT
  else if negb block then Err GEM_ARM64EC_TARGET_MALFORMED_METADATA
  else
    summary ← map_err (fun _ => GEM_ARM64EC_TARGET_MALFORMED_METADATA)
      (gem_pe_arm64x_get_summary im true);
    if size_of_image summary =? 0 then Err GEM_ARM64EC_TARGET_OVERFLOW
    else
      match add_u64 loaded_image_base (size_of_image summary) with
      | None => Err GEM_ARM64EC_TARGET_OVERFLOW
      | Some loaded_end =>
        clone ← map_err (fun _ => GEM_ARM64EC_TARGET_MALFORMED_METADATA)
          (gem_pe_arm64x_image_clone im true);
        mret (TargetMap clone summary loaded_image_base loaded_end)
      end.

(** [classify_terminal]: the kind it stores in [result]. *)
Definition classify_terminal (map : target_map) (rva resolved : Z)
  : target_status gem_arm64ec_target_kind :=
  info ← map_err (fun _ => GEM_ARM64EC_TARGET_MALFORMED_METADATA)
    (gem_pe_arm64x_classify_rva (Some (tm_image map)) rva true);
  if bool_decide (classification info = GEM_PE_RVA_INVALID) then
    Err (if size_of_image (tm_summary map) <=? rva then GEM_ARM64EC_TARGET_OUTSIDE_IMAGE
         else GEM_ARM64EC_TARGET_NOT_EXECUTABLE)
  else if negb (executable_section info) then Err GEM_ARM64EC_TARGET_NOT_EXECUTABLE
  else
    kind ← match classification info with
           | GEM_PE_RVA_ARM64 => Ok GEM_ARM64EC_TARGET_ARM64
           | GEM_PE_RVA_ARM64EC => Ok GEM_ARM64EC_TARGET_ARM64EC
           | GEM_PE_RVA_X64 => Ok GEM_ARM64EC_TARGET_X64_BOUNDARY
           | GEM_PE_RVA_THUNK =>
             match code_map_isa info with
             | GEM_PE_RVA_ARM64EC => Ok GEM_ARM64EC_TARGET_ARM64EC
             | GEM_PE_RVA_ARM64 => Ok GEM_ARM64EC_TARGET_ARM64
             | GEM_PE_RVA_X64 => Ok GEM_ARM64EC_TARGET_X64_BOUNDARY
             | _ => Err GEM_ARM64EC_TARGET_MALFORMED_METADATA
             end
           | _ => Err GEM_ARM64EC_TARGET_NOT_EXECUTABLE
           end;
    if negb (bool_decide (kind = GEM_ARM64EC_TARGET_X64_BOUNDARY)) && has_bits resolved 3
    then Err GEM_ARM64EC_TARGET_MISALIGNED
    else Ok kind.

(** The hop loop of [gem_arm64ec_target_resolve]: [fuel] is [hop_limit - hop],
    and the loop's exhaustion is the code's [hop == hop_limit]. *)
Fixpoint follow_redirections (im : image) (fuel : nat) (rva hops : Z) : target_status (Z * Z) :=
  match fuel with
  | O => Err GEM_ARM64EC_TARGET_MALFORMED_METADATA
  | S fuel =>
    info ← map_err (fun _ => GEM_ARM64EC_TARGET_MALFORMED_METADATA)
      (gem_pe_arm64x_classify_rva (Some im) rva true);
    if negb (has_redirection info) then Ok (rva, hops)
    else follow_redirections im fuel (redirection_destination_rva info) (wrap32 (hops + 1))
  end.

Definition gem_arm64ec_target_resolve (map : option target_map) (va : Z) (out : bool)
  : target_status target_result :=
  match map with
  | None => Err GEM_ARM64EC_TARGET_INVALID_ARGUMENT
  | Some map =>
    if negb out then Err GEM_ARM64EC_TARGET_INVALID_ARGUMENT
    else if (va <? tm_loaded_base map) || (tm_loaded_end map <=? va)
    then Err GEM_ARM64EC_TARGET_OUTSIDE_IMAGE
    else
      let requested := wrap32 (va - tm_loaded_base map) in
      let hop_limit := gem_pe_arm64x_redirection_count (Some (tm_image map)) + 1 in
      '(rva, hops) ← follow_redirections (tm_image map) (Z.to_nat hop_limit) requested 0;
      match add_u64 (tm_loaded_base map) rva with
      | None => Err GEM_ARM64EC_TARGET_OVERFLOW
      | Some resolved =>
        kind ← classify_terminal map rva resolved;
        mret (TargetResult va resolved requested rva kind hops)
      end
  end.

Definition cfg_policy : Type := option (Z -> bool).

Definition gem_arm64ec_cfg_authorize (policy : option cfg_policy) (target_va : Z)
  : target_status unit :=
  match policy with
  | Some (Some authorize) => require (authorize target_va) GEM_ARM64EC_TARGET_CFG_DENIED
  | _ => Err GEM_ARM64EC_TARGET_CFG_DENIED
  end.

Definition with_x (c : gem_thread_context) (x : list Z) : gem_thread_context :=
  ThreadContext (c_layout_version c) (c_context_size c) x (c_sp c) (c_pc c) (c_nzcv c) (c_fpcr c)
    (c_fpsr c) (c_reserved0 c) (c_v c) (c_x64_rflags c) (c_x64_mxcsr c) (c_x64_fcw c) (c_x64_fsw c)
    (c_x87 c) (c_teb c) (c_original_x64_sp c) (c_transition_cookie c) (c_isa c) (c_stop_reason c).

(** The context and the target it stores. *)
Definition gem_arm64ec_checker_dispatch (map : option target_map) (policy : option cfg_policy)
    (require_cfg : bool) (context : option gem_thread_context) (out_target : bool)
  : target_status (gem_thread_context * target_result) :=
  match context with
  | None => Err GEM_ARM64EC_TARGET_INVALID_ARGUMENT
  | Some c =>
    if bool_decide (map = None) || negb out_target || negb (gem_context_is_valid context)
       || negb (c_isa c =? GEM_ISA_ARM64EC)
    then Err GEM_ARM64EC_TARGET_INVALID_ARGUMENT
    else
      let original_target := xreg c 11 in
      target ← gem_arm64ec_target_resolve map original_target true;
      (if require_cfg then gem_arm64ec_cfg_authorize policy original_target else mret tt);;
      match kind target with
      | GEM_ARM64EC_TARGET_X64_BOUNDARY =>
        exit_thunk ← gem_arm64ec_target_resolve map (xreg c 10) true;
        require (negb (bool_decide (kind exit_thunk = GEM_ARM64EC_TARGET_X64_BOUNDARY)))
          GEM_ARM64EC_TARGET_NOT_EXECUTABLE;;
        mret (with_x c (<[11%nat := resolved_va exit_thunk]> (<[9%nat := original_target]> (c_x c))),
              target)
      | _ => mret (c, target)
      end
  end.

Section descriptor.
Context {platform : Platform}.

(** The memory afterwards: reading may consume a guard page. *)
Definition gem_arm64ec_descriptor_resolve (map : option target_map) (memory : option mem)
    (descriptor_va : Z) (policy : option cfg_policy) (out : bool)
  : result unit (target_status target_result * option mem) :=
  if bool_decide (map = None) || bool_decide (memory = None) || negb out
  then Ok (Err GEM_ARM64EC_TARGET_INVALID_ARGUMENT, memory)
  else if UINT64_MAX - 4 <? descriptor_va then Ok (Err GEM_ARM64EC_TARGET_OVERFLOW, memory)
  else
    '(r, memory) ← gem_memory_read memory descriptor_va (Some (replicate 4 0)) 4;
    match r with
    | (GEM_MEMORY_OK, Some descriptor) =>
      let encoded := (descriptor !!! 0%nat) .| ((descriptor !!! 1%nat) <<. 8)
        .| ((descriptor !!! 2%nat) <<. 16) .| ((descriptor !!! 3%nat) <<. 24) in
      let function_va := descriptor_va + 4 in
      mret (match add_u64 function_va (encoded .&~ 3) with
            | None => Err GEM_ARM64EC_TARGET_OVERFLOW
            | Some thunk_va =>
              r ← gem_arm64ec_target_resolve map thunk_va true;
              require (negb (bool_decide (kind r = GEM_ARM64EC_TARGET_X64_BOUNDARY)))
                GEM_ARM64EC_TARGET_NOT_EXECUTABLE;;
              (match policy with
               | Some _ => gem_arm64ec_cfg_authorize policy (resolved_va r)
               | None => mret tt
               end);;
              mret r
            end, memory)
    | _ => mret (Err GEM_ARM64EC_TARGET_MEMORY_FAULT, memory)
    end.
End descriptor.

Definition target_status_names : list string :=
  ["ok"; "invalid-argument"; "overflow"; "outside-image"; "not-executable"; "malformed-metadata";
   "misaligned"; "memory-fault"; "cfg-denied"; "descriptor-unsupported";
   "relocation-unsupported"]%string.
Definition gem_arm64ec_target_status_name (status : Z) : string :=
  if 11 <=? wrap32 status then "invalid"%string
  else target_status_names !!! Z.to_nat (wrap32 status).
