(* ===== verification/TargetProperties.v ===== *)
(** TargetProperties: target resolution is exact: its hop limit refuses
    redirection cycles and nothing else, and the kind it reports is that of the
    code map; the checker dispatch and the entry-thunk descriptor build on it. *)
From S2P Require Import Prelude Context MemoryModel Memory MemoryInv MemorySpec MemoryAtomic MemoryTotal Pe PeInvariant PeProperties Target.

(** ** Chains of redirections *)

(** [hops im n x y]: n redirections lead from x to y. *)
Inductive hops (im : image) : nat -> Z -> Z -> Prop :=
  | hops_0 x : hops im 0 x x
  | hops_S n x y z : redirected im x y -> hops im n y z -> hops im (S n) x z.

Definition terminal (im : image) (x : Z) : Prop := forall d, ~ redirected im x d.

Section chains.
Context (mapped : bool) (im : image) (Him : image_ok mapped im).

Lemma redirected_functional x y z : redirected im x y -> redirected im x z -> y = z.
Proof.
  intros (r & Hr & <-)%(redirected_iff mapped im Him) (r' & Hr' & <-)%(redirected_iff mapped im Him).
  congruence.
Qed.

Lemma redirected_in_image x y :
  redirected im x y -> 0 <= x < size_of_image (i_summary im) /\ 0 <= y < size_of_image (i_summary im).
Proof.
  intros (r & Hin & <- & <-). pose proof (proj1 (ok_redirections _ _ Him)) as Hall.
  rewrite Forall_forall in Hall. exact (Hall r Hin).
Qed.

Lemma hops_functional n x y z : hops im n x y -> hops im n x z -> y = z.
Proof.
  intros Hy. revert z. induction Hy as [x|n x y y' Hr _ IH]; intros z Hz.
  - by inversion Hz.
  - inversion Hz as [|? ? w ? Hr' Hw]; subst. apply IH. by rewrite (redirected_functional _ _ _ Hr Hr').
Qed.

(** A terminal is a fixed number of hops away. *)
Lemma terminal_distance n m x y z :
  hops im n x y -> terminal im y -> hops im m x z -> terminal im z -> n = m.
Proof.
  intros Hn. revert m z. induction Hn as [x|n x w y Hr _ IH]; intros m z Hy Hm Hz.
  - inversion Hm as [|? ? v ? Hr' _]; subst; [done|]. by destruct (Hy v).
  - inversion Hm as [|? ? v ? Hr' Hv]; subst; [by destruct (Hz w)|]. f_equal.
    eapply IH; [done| |exact Hz]. by rewrite (redirected_functional _ _ _ Hr Hr').
Qed.

Lemma hops_app n m x y z : hops im n x y -> hops im m y z -> hops im (n + m) x z.
Proof. induction 1; intros Hm; [done|]. cbn. econstructor; eauto. Qed.

Lemma hops_prefix n m x z :
  (m <= n)%nat -> hops im n x z -> exists y, hops im m x y /\ hops im (n - m) y z.
Proof.
  intros Hle H. revert m Hle. induction H as [x|n x w z Hr Hw IH]; intros m Hle.
  - assert (m = 0)%nat as -> by lia. exists x. split; constructor.
  - destruct m as [|m]; [exists x; split; [by constructor|by eapply hops_S]|].
    destruct (IH m ltac:(lia)) as (y & Hm & Hn). exists y. split; [by econstructor|done].
Qed.

(** The sources met on the way. *)
Fixpoint trail (n : nat) (x : Z) : list Z :=
  match n with
  | O => []
  | S n => x :: match find_redirection im x with
                | Some r => trail n (r_destination r)
                | None => []
                end
  end.

Lemma trail_spec n x z :
  hops im n x z -> length (trail n x) = n /\ Forall (fun y => y ∈ r_source <$> i_redirections im) (trail n x)
    /\ forall y, y ∈ trail n x -> exists j, (j < n)%nat /\ hops im j x y.
Proof.
  intros H. induction H as [x|n x w z Hr _ IH].
  { cbn. split_and!; [done|constructor|]. by intros y Hy%not_elem_of_nil. }
  cbn [trail]. pose proof Hr as (r & Hf & Hd)%(redirected_iff mapped im Him). rewrite Hf, Hd.
  destruct IH as (Hlen & Hsrc & Hreach). split_and!.
  - cbn. by rewrite Hlen.
  - constructor; [|done]. pose proof (find_redirection_spec mapped im Him x) as Hspec.
    rewrite Hf in Hspec. destruct Hspec as [Hin <-]. by apply list_elem_of_fmap_2.
  - intros y [-> | Hy]%elem_of_cons; [exists 0%nat; split; [lia|constructor]|].
    destruct (Hreach y Hy) as (j & Hj & Hh). exists (S j). split; [lia|by econstructor].
Qed.

Lemma trail_NoDup n x z : hops im n x z -> terminal im z -> NoDup (trail n x).
Proof.
  intros H Hz. induction H as [x|n x w z Hr Hh IH]; [constructor|].
  pose proof Hr as (r & Hf & Hd)%(redirected_iff mapped im Him).
  cbn [trail]. rewrite Hf, Hd. constructor; [|by apply IH].
  intros Hx. destruct (trail_spec n w z Hh) as (_ & _ & Hreach).
  destruct (Hreach x Hx) as (j & Hj & Hcycle).
  destruct (hops_prefix n j w z ltac:(lia) Hh) as (y & Hy & Hrest).
  rewrite (hops_functional j w y x Hy Hcycle) in Hrest.
  assert (hops im (S n) x z) as Hfull by (by econstructor).
  pose proof (terminal_distance _ _ _ _ _ Hrest Hz Hfull Hz). lia.
Qed.

(** A chain that ends visits each redirection at most once. *)
Lemma hops_bound n x z :
  hops im n x z -> terminal im z -> (n <= length (i_redirections im))%nat.
Proof.
  intros H Hz. destruct (trail_spec n x z H) as (Hlen & Hsrc & _). rewrite <- Hlen.
  rewrite <- (length_fmap r_source). rewrite Forall_forall in Hsrc.
  apply NoDup_incl_length; [by apply NoDup_ListNoDup, (trail_NoDup n x z)|].
  intros y Hy. apply list_elem_of_In, Hsrc, list_elem_of_In, Hy.
Qed.

(** ** The hop loop *)

Lemma follow_spec fuel x n :
  0 <= x < size_of_image (i_summary im) -> 0 <= n -> n + Z.of_nat fuel <= UINT32_MAX ->
  match follow_redirections im fuel x n with
  | Ok (y, m) => exists k, (k < fuel)%nat /\ hops im k x y /\ terminal im y /\ m = n + Z.of_nat k /\
                   0 <= y < size_of_image (i_summary im)
  | Err e => e = GEM_ARM64EC_TARGET_MALFORMED_METADATA /\ exists y, hops im fuel x y
  | Fault => False
  end.
Proof.
  revert x n. induction fuel as [|fuel IH]; intros x n Hx Hn Hf; cbn [follow_redirections].
  { split; [done|]. exists x. constructor. }
  destruct (classify_correct mapped im Him x ltac:(lia)) as (info & -> & _ & _ & H).
  destruct (H (proj2 Hx)) as (_ & Hr & _). cbn [map_err mbind result_bind].
  destruct (has_redirection info); cbn [negb].
  - specialize (Hr (redirection_destination_rva info)) as [_ Hr]. specialize (Hr (conj eq_refl eq_refl)).
    destruct (redirected_in_image _ _ Hr) as [_ Hd].
    assert (wrap32 (n + 1) = n + 1) as -> by (apply Z.mod_small; unfold UINT32_MAX in *; lia).
    specialize (IH (redirection_destination_rva info) (n + 1) Hd ltac:(lia) ltac:(lia)).
    destruct (follow_redirections im fuel _ _) as [[y m]|e|].
    + destruct IH as (k & Hk & Hh & Ht & -> & Hy). exists (S k).
      split_and!; [lia|by econstructor|done|lia|lia|lia].
    + destruct IH as (-> & y & Hy). split; [done|]. exists y. by econstructor.
    + done.
  - exists 0%nat. split_and!; [lia|constructor| |lia|lia|lia].
    intros d Hd%Hr. by destruct Hd.
Qed.

(** With one hop more than there are redirections the loop finds every end. *)
Lemma follow_exact x :
  0 <= x < size_of_image (i_summary im) -> redirection_count (i_summary im) < UINT32_MAX ->
  match follow_redirections im (Z.to_nat (redirection_count (i_summary im) + 1)) x 0 with
  | Ok (y, m) => exists k, hops im k x y /\ terminal im y /\ m = Z.of_nat k /\
                   0 <= y < size_of_image (i_summary im) /\ m <= redirection_count (i_summary im)
  | Err e => e = GEM_ARM64EC_TARGET_MALFORMED_METADATA /\ forall k y, hops im k x y -> ~ terminal im y
  | Fault => False
  end.
Proof.
  intros Hx Hc. pose proof (ok_redirection_count _ _ Him) as Hcount.
  pose proof (follow_spec (Z.to_nat (redirection_count (i_summary im) + 1)) x 0 Hx ltac:(lia) ltac:(lia)) as H.
  destruct (follow_redirections _ _ _ _) as [[y m]|e|].
  - destruct H as (k & Hk & Hh & Ht & -> & Hy). exists k. split_and!; [done|done|lia|lia|lia|].
    pose proof (hops_bound k x y Hh Ht). lia.
  - destruct H as (-> & y & Hy). split; [done|]. intros k z Hz Ht.
    pose proof (hops_bound k x z Hz Ht) as Hb.
    assert (k <= Z.to_nat (redirection_count (i_summary im) + 1))%nat as Hle by lia.
    destruct (hops_prefix _ k x y Hle Hy) as (w & Hw & Hrest).
    rewrite (hops_functional k x w z Hw Hz) in Hrest.
    inversion Hrest as [|? ? v ? Hr _]; subst; [lia|]. by destruct (Ht v).
  - done.
Qed.
End chains.

(** ** Resolution *)

(** The kind of target the code map's class makes. *)
Definition kind_of (isa : gem_pe_rva_class) : option gem_arm64ec_target_kind :=
  match isa with
  | GEM_PE_RVA_ARM64 => Some GEM_ARM64EC_TARGET_ARM64
  | GEM_PE_RVA_ARM64EC => Some GEM_ARM64EC_TARGET_ARM64EC
  | GEM_PE_RVA_X64 => Some GEM_ARM64EC_TARGET_X64_BOUNDARY
  | _ => None
  end.

(** What [gem_arm64ec_target_map_create] makes of a parsed image. *)
Definition map_ok (m : target_map) : Prop :=
  (exists mapped, image_ok mapped (tm_image m)) /\ tm_summary m = i_summary (tm_image m) /\
  is_u64 (tm_loaded_base m) /\
  tm_loaded_end m = tm_loaded_base m + size_of_image (tm_summary m) /\ tm_loaded_end m <= UINT64_MAX.

(** An executable address whose bytes the code map gives to [k], aligned when
    they are ARM code. *)
Definition runnable (im : image) (x v : Z) (k : gem_arm64ec_target_kind) : Prop :=
  exists isa, in_section im x true /\ in_code im x isa /\ kind_of isa = Some k /\
    (k <> GEM_ARM64EC_TARGET_X64_BOUNDARY -> v mod 4 = 0).

Lemma has_bits_3 v : has_bits v 3 = negb (v mod 4 =? 0).
Proof. unfold has_bits. change 3 with (Z.ones 2). by rewrite Z.land_ones by lia. Qed.

Section resolve.
Context (m : target_map) (Hm : map_ok m).

(** Entry ranges lie in x64 code, so a thunk is always an x64 boundary. *)
Lemma entry_is_x64 mapped x e :
  image_ok mapped (tm_image m) -> in_entry (tm_image m) x e -> in_code (tm_image m) x GEM_PE_RVA_X64.
Proof.
  intros Him (r & Hin & Hx & _). pose proof (proj1 (ok_entries _ _ Him)) as Hall.
  rewrite Forall_forall in Hall. destruct (Hall r Hin) as (_ & _ & c & Hc & Hisa & Hlo & Hhi).
  exists c. split_and!; [done| |done]. unfold contains, entry_span, code_span in *. cbn in *. lia.
Qed.

Lemma in_code_functional mapped x isa isa' :
  image_ok mapped (tm_image m) -> in_code (tm_image m) x isa -> in_code (tm_image m) x isa' -> isa = isa'.
Proof.
  intros Him (r & Hr & <-)%(in_code_iff mapped _ Him) (r' & Hr' & <-)%(in_code_iff mapped _ Him).
  congruence.
Qed.

Lemma classify_terminal_spec x v :
  0 <= x < size_of_image (tm_summary m) -> terminal (tm_image m) x ->
  match classify_terminal m x v with
  | Ok k => runnable (tm_image m) x v k
  | Err e => e <> GEM_ARM64EC_TARGET_MALFORMED_METADATA /\ forall k, ~ runnable (tm_image m) x v k
  | Fault => False
  end.
Proof.
  destruct Hm as ((mapped & Him) & Hs & _). intros Hx Ht. rewrite Hs in Hx.
  unfold classify_terminal. rewrite Hs.
  destruct (classify_correct mapped _ Him x ltac:(lia)) as (info & -> & _ & _ & H).
  destruct (H (proj2 Hx)) as (Hcl & _ & _ & Hcode & Hsec). clear H. cbn [map_err mbind result_bind].
  assert (forall isa, in_code (tm_image m) x isa -> executable_section info = true ->
    match (kind ← match kind_of isa with
                  | Some k => Ok k
                  | None => Err GEM_ARM64EC_TARGET_MALFORMED_METADATA end;
           if negb (bool_decide (kind = GEM_ARM64EC_TARGET_X64_BOUNDARY)) && has_bits v 3
           then Err GEM_ARM64EC_TARGET_MISALIGNED else Ok kind) with
    | Ok k => runnable (tm_image m) x v k
    | Err e => e <> GEM_ARM64EC_TARGET_MALFORMED_METADATA /\ forall k, ~ runnable (tm_image m) x v k
    | Fault => False
    end) as Hrun.
  { intros isa Hin Hexec. pose proof (in_code_isa mapped _ Him x isa Hin) as Hisa. rewrite has_bits_3.
    assert (exists k, kind_of isa = Some k) as [k Hk] by (destruct isa; set_solver). rewrite Hk.
    cbn [mbind result_bind]. destruct (negb _ && _) eqn:Hal.
    - apply andb_true_iff in Hal as [Hx64 Hv]. apply negb_true_iff in Hx64, Hv.
      apply bool_decide_eq_false in Hx64. apply Z.eqb_neq in Hv. split; [done|].
      intros k' (isa' & _ & Hin' & Hk' & Hv'). rewrite (in_code_functional mapped x isa' isa Him Hin' Hin) in Hk'.
      apply Hv, Hv'. congruence.
    - exists isa. split_and!; [by apply Hsec|done|done|]. intros Hne.
      rewrite bool_decide_eq_false_2 in Hal by done. cbn in Hal. by apply negb_false_iff, Z.eqb_eq in Hal. }
  assert (executable_section info = false -> forall k, ~ runnable (tm_image m) x v k) as Hnot.
  { intros Hf k (isa & Hse & _)%id. apply Hsec in Hse. congruence. }
  remember (classification info) as cls eqn:Ecls. clear Ecls.
  destruct Hcl as [d Hr|e Hr He|isa Hr He Hin|Hr He Hin Hd|Hr He Hin Hd].
  - by destruct (Ht d).
  - pose proof (entry_is_x64 mapped x e Him He) as Hin. specialize (Hrun _ Hin).
    rewrite bool_decide_eq_false_2 by done.
    destruct (executable_section info); cbn [negb]; [|split; [done|by apply Hnot]].
    apply Hcode in Hin as [-> _]. by apply Hrun.
  - pose proof (in_code_isa mapped _ Him x isa Hin) as Hisa. specialize (Hrun _ Hin).
    rewrite bool_decide_eq_false_2 by (intros ->; set_solver).
    destruct (executable_section info); cbn [negb]; [|split; [done|by apply Hnot]].
    specialize (Hrun eq_refl). by destruct isa; try set_solver.
  - rewrite bool_decide_eq_false_2 by done.
    assert (executable_section info = false) as ->.
    { apply not_true_iff_false. intros E%Hsec. by pose proof (in_section_unique mapped _ Him x _ _ E Hd). }
    split; [done|]. intros k (isa & _ & Hi & _). by destruct (Hin isa).
  - rewrite bool_decide_eq_true_2 by done. split; [by destruct (_ <=? _)|].
    intros k (isa & _ & Hi & _). by destruct (Hin isa).
Qed.

(** A redirection count fits far below the width of the hop counter. *)
Lemma redirection_count_small mapped im :
  image_ok mapped im -> redirection_count (i_summary im) < UINT32_MAX.
Proof.
  intros Him. pose proof (ok_metadata _ _ Him) as H. pose proof (ok_code_count _ _ Him).
  pose proof (ok_entry_count _ _ Him).
  unfold SIZEOF_CODE_RANGE, SIZEOF_ENTRY_RANGE, SIZEOF_REDIRECTION,
    GEM_PE_ARM64X_DEFAULT_MAX_METADATA_BYTES, UINT32_MAX in *. lia.
Qed.

Lemma resolve_spec va :
  is_u64 va ->
  match gem_arm64ec_target_resolve (Some m) va true with
  | Ok r => tm_loaded_base m <= va < tm_loaded_end m /\ requested_va r = va /\
      requested_rva r = va - tm_loaded_base m /\
      resolved_va r = tm_loaded_base m + resolved_rva r /\ resolved_va r < tm_loaded_end m /\
      (exists k, redirection_hops r = Z.of_nat k /\
        hops (tm_image m) k (va - tm_loaded_base m) (resolved_rva r)) /\
      redirection_hops r <= redirection_count (tm_summary m) /\
      terminal (tm_image m) (resolved_rva r) /\
      runnable (tm_image m) (resolved_rva r) (resolved_va r) (kind r)
  | Err e => tm_loaded_base m <= va < tm_loaded_end m ->
      (e = GEM_ARM64EC_TARGET_MALFORMED_METADATA /\
         forall k y, hops (tm_image m) k (va - tm_loaded_base m) y -> ~ terminal (tm_image m) y) \/
      (e <> GEM_ARM64EC_TARGET_MALFORMED_METADATA /\
       exists k y, hops (tm_image m) k (va - tm_loaded_base m) y /\ terminal (tm_image m) y /\
         forall kd, ~ runnable (tm_image m) y (tm_loaded_base m + y) kd)
  | Fault => False
  end.
Proof.
  pose proof Hm as ((mapped & Him) & Hs & Hb & He & He'). intros Hva. unfold is_u64 in *.
  unfold gem_arm64ec_target_resolve. cbn [negb gem_pe_arm64x_redirection_count].
  destruct (_ || _) eqn:Hrange.
  { intros Hin. apply orb_true_iff in Hrange as [?%Z.ltb_lt | ?%Z.leb_le]; lia. }
  bool_to_Z. pose proof (ok_size _ _ Him) as Hsize. rewrite <- Hs in Hsize.
  assert (wrap32 (va - tm_loaded_base m) = va - tm_loaded_base m) as ->.
  { apply Z.mod_small. unfold UINT32_MAX in *. lia. }
  pose proof (follow_exact mapped _ Him (va - tm_loaded_base m)) as Hf. rewrite <- Hs in Hf.
  specialize (Hf ltac:(lia)). rewrite Hs in Hf.
  specialize (Hf (redirection_count_small _ _ Him)).
  destruct (follow_redirections _ _ _ _) as [[y n]|e|]; cbn [mbind result_bind]; [| |done].
  - destruct Hf as (k & Hh & Ht & -> & Hy & Hk). rewrite <- Hs in Hy.
    unfold add_u64. rewrite (proj2 (Z.ltb_ge _ _)) by lia.
    pose proof (classify_terminal_spec y (tm_loaded_base m + y) Hy Ht) as Hc.
    destruct (classify_terminal _ _ _) as [kd|e|]; cbn [mbind result_bind mret result_ret]; [| |done].
    + cbn. rewrite Hs. split_and!; [lia|lia|done|done|done| | |done|done|done]; [lia|]. by exists k.
    + destruct Hc as [Hne Hc]. intros _. right. split; [done|]. by exists k, y.
  - destruct Hf as [-> Hf]. intros _. by left.
Qed.

(** C26: resolution is exact.  An address resolves to [r] precisely when it lies
    in the loaded image, following the image's redirections from its RVA ends at
    [r]'s RVA, that RVA is in an executable section and in a code range whose
    class gives [r]'s kind, and ARM targets are 4-byte aligned; the hop count is
    the length of the chain.  The hop limit therefore loses no chain. *)
Theorem target_resolve_exact va r :
  is_u64 va ->
  gem_arm64ec_target_resolve (Some m) va true = Ok r <->
  tm_loaded_base m <= va < tm_loaded_end m /\ requested_va r = va /\
  requested_rva r = va - tm_loaded_base m /\ resolved_va r = tm_loaded_base m + resolved_rva r /\
  (exists k, redirection_hops r = Z.of_nat k /\
     hops (tm_image m) k (va - tm_loaded_base m) (resolved_rva r)) /\
  terminal (tm_image m) (resolved_rva r) /\
  runnable (tm_image m) (resolved_rva r) (resolved_va r) (kind r).
Proof.
  intros Hva. pose proof Hm as ((mapped & Him) & _). pose proof (resolve_spec va Hva) as H. split.
  { intros Hr. rewrite Hr in H. tauto. }
  intros (Hrange & Hv & Hrv & Hres & (k & Hk & Hh) & Ht & Hrun).
  destruct (gem_arm64ec_target_resolve _ _ _) as [r'|e|].
  - destruct H as (_ & Hv' & Hrv' & Hres' & _ & (k' & Hk' & Hh') & _ & Ht' & Hrun').
    pose proof (terminal_distance mapped _ Him _ _ _ _ _ Hh Ht Hh' Ht') as <-.
    pose proof (hops_functional mapped _ Him _ _ _ _ Hh Hh') as Heq.
    destruct Hrun as (isa & _ & Hi & Hkd & _), Hrun' as (isa' & _ & Hi' & Hkd' & _).
    rewrite <- Heq in Hi'. rewrite (in_code_functional mapped _ _ _ Him Hi Hi') in Hkd.
    f_equal. destruct r, r'; cbn in *; congruence.
  - exfalso. destruct (H Hrange) as [[_ Hno] | (_ & k' & y & Hh' & Ht' & Hno)].
    + by destruct (Hno k (resolved_rva r)).
    + pose proof (terminal_distance mapped _ Him _ _ _ _ _ Hh Ht Hh' Ht') as <-.
      pose proof (hops_functional mapped _ Him _ _ _ _ Hh Hh') as Heq.
      apply (Hno (kind r)). by rewrite <- Heq, <- Hres.
  - done.
Qed.

(** The status [GEM_ARM64EC_TARGET_MALFORMED_METADATA] is reported exactly
    for the addresses of the image whose redirections never end. *)
Theorem target_malformed_exact va :
  is_u64 va ->
  gem_arm64ec_target_resolve (Some m) va true = Err GEM_ARM64EC_TARGET_MALFORMED_METADATA <->
  tm_loaded_base m <= va < tm_loaded_end m /\
  forall k y, hops (tm_image m) k (va - tm_loaded_base m) y -> ~ terminal (tm_image m) y.
Proof.
  intros Hva. pose proof (resolve_spec va Hva) as H. split.
  - intros Hr. assert (tm_loaded_base m <= va < tm_loaded_end m) as Hin.
    { unfold gem_arm64ec_target_resolve in Hr. cbn [negb] in Hr.
      destruct (_ || _) eqn:Hrange; [done|]. bool_to_Z. lia. }
    rewrite Hr in H. split; [done|]. by destruct (H Hin) as [[_ Hno] | [Hne _]].
  - intros [Hin Hno]. destruct (gem_arm64ec_target_resolve _ _ _) as [r|e|].
    + destruct H as (_ & _ & _ & _ & _ & (k & _ & Hh) & _ & Ht & _). by destruct (Hno k _ Hh).
    + destruct (H Hin) as [[-> _] | (_ & k & y & Hh & Ht & _)]; [done|]. by destruct (Hno k y Hh).
    + done.
Qed.
End resolve.

(** ** The map, the checker and the descriptor *)

Section clients.
Context {allocator : Allocator} {platform : Platform}.

(** a target map made from a parsed image holds an exact copy of it at the
    loaded base, with the image's end below 2^64; creation fails with
    [GEM_ARM64EC_TARGET_OVERFLOW] exactly when the end would wrap. *)
Theorem target_map_create_spec mapped im base :
  image_ok mapped im -> is_u64 base ->
  match gem_arm64ec_target_map_create true (Some im) base true with
  | Ok m => map_ok m /\ tm_image m = im /\ tm_loaded_base m = base
  | Err e => e = GEM_ARM64EC_TARGET_OVERFLOW /\ UINT64_MAX < base + size_of_image (i_summary im) \/
             e = GEM_ARM64EC_TARGET_MALFORMED_METADATA
  | Fault => False
  end.
Proof.
  intros Him Hb. unfold gem_arm64ec_target_map_create. rewrite bool_decide_eq_false_2 by done.
  cbn [negb orb gem_pe_arm64x_get_summary map_err mbind result_bind]. pose proof (ok_size _ _ Him) as Hs.
  rewrite (proj2 (Z.eqb_neq _ _)) by lia. unfold add_u64, is_u64 in *.
  destruct (Z.ltb_spec (UINT64_MAX - size_of_image (i_summary im)) base).
  { left. split; [done|lia]. }
  rewrite (clone_correct mapped im Him).
  destruct (_ && _); cbn; [|by right]. split; [|done]. unfold map_ok, is_u64. cbn.
  split; [by exists mapped|]. split; [done|]. lia.
Qed.


(** A descriptor resolves to the target its four bytes name.  On success the
    guest memory at the descriptor shows four bytes, the target is the code
    address four past the descriptor plus their displacement with the two tag
    bits cleared, without wrapping; it resolves to ARM code that the policy, when
    there is one, authorises; and no byte the memory shows has changed. *)
Theorem descriptor_resolve_spec m memory va policy r memory' :
  inv no_pins memory -> is_u64 va ->
  gem_arm64ec_descriptor_resolve (Some m) (Some memory) va policy true = Ok (Ok r, Some memory') ->
  exists b0 b1 b2 b3,
    byte_of memory va = Some b0 /\ byte_of memory (va + 1) = Some b1 /\
    byte_of memory (va + 2) = Some b2 /\ byte_of memory (va + 3) = Some b3 /\
    let target := va + 4 + ((b0 .| (b1 <<. 8) .| (b2 <<. 16) .| (b3 <<. 24)) .&~ 3) in
    target <= UINT64_MAX /\ gem_arm64ec_target_resolve (Some m) target true = Ok r /\
    kind r <> GEM_ARM64EC_TARGET_X64_BOUNDARY /\
    (forall p, policy = Some p -> exists f, p = Some f /\ f (resolved_va r) = true) /\
    (forall q, view memory' q = view memory q).
Proof.
  intros Hm Hva H. unfold gem_arm64ec_descriptor_resolve in H. cbn [bool_decide negb orb] in H.
  destruct (_ || _) eqn:Hnull; [done|]. destruct (Z.ltb_spec (UINT64_MAX - 4) va); [done|].
  apply result_bind_Ok in H as ([[e b'] memory1] & Hread & H).
  destruct e; try done. destruct b' as [out|]; [|done].
  destruct memory1 as [memory1|]; [|by injection H as _ ?]. injection H as H <-.
  unfold gem_memory_read in Hread. apply locked_run in Hread. unfold is_u64 in Hva.
  destruct (read_lemma no_pins memory va (replicate 4 0) 4 _ _ _ _ no_pins_nonneg Hm ltac:(lia) ltac:(lia)
    ltac:(cbn; lia) Hread) as (out' & [= <-] & Hlen & Hin & _ & Hv).
  rewrite length_replicate in Hlen.
  destruct out as [|b0 [|b1 [|b2 [|b3 [|]]]]]; try done. exists b0, b1, b2, b3.
  pose proof (Hin 0%nat ltac:(lia)) as Hb0. pose proof (Hin 1%nat ltac:(lia)) as Hb1.
  pose proof (Hin 2%nat ltac:(lia)) as Hb2. pose proof (Hin 3%nat ltac:(lia)) as Hb3.
  cbn [Z.of_nat Pos.of_succ_nat Pos.succ lookup list_lookup] in Hb0, Hb1, Hb2, Hb3. rewrite Z.add_0_r in Hb0.
  split; [done|]. split; [done|]. split; [done|]. split; [done|].
  destruct (add_u64 _ _) as [target|] eqn:Hadd; [|done]. unfold add_u64 in Hadd.
  destruct (_ <? _) eqn:Hlt in Hadd; [done|]. injection Hadd as <-. apply Z.ltb_ge in Hlt.
  change (b0 .| (b1 <<. 8) .| (b2 <<. 16) .| (b3 <<. 24)) with
    (([b0; b1; b2; b3] !!! 0%nat) .| (([b0; b1; b2; b3] !!! 1%nat) <<. 8)
     .| (([b0; b1; b2; b3] !!! 2%nat) <<. 16) .| (([b0; b1; b2; b3] !!! 3%nat) <<. 24)).
  apply result_bind_Ok in H as (r' & Hres & H). apply result_bind_Ok in H as ([] & Hne & H).
  apply result_bind_Ok in H as ([] & Hpol & H). injection H as <-.
  apply require_Ok, negb_true_iff, bool_decide_eq_false in Hne.
  split_and!; [lia|done|done| |done].
  intros p ->. unfold gem_arm64ec_cfg_authorize in Hpol. destruct p as [f|]; [|done].
  apply require_Ok in Hpol. by exists f.
Qed.
End clients.

(** ** Concrete runs *)

Definition sample_map : target_map :=
  TargetMap sample_image (i_summary sample_image) 0x100000000 0x100003000.

Lemma sample_map_ok : map_ok sample_map.
Proof.
  split; [exists false; exact sample_ok|]. split; [reflexivity|]. split; [split; vm_compute; congruence|].
  split; [vm_compute; reflexivity|vm_compute; congruence].
Qed.

(** 0x1000 is redirected to 0x1040, in ARM64EC code. *)
Definition sample_target : target_result :=
  TargetResult 0x100001000 0x100001040 0x1000 0x1040 GEM_ARM64EC_TARGET_ARM64EC 1.

Lemma target_resolve_exact_witness :
  gem_arm64ec_target_resolve (Some sample_map) 0x100001000 true = Ok sample_target /\
  runnable sample_image 0x1040 0x100001040 GEM_ARM64EC_TARGET_ARM64EC /\
  exists k, 1 = Z.of_nat k /\ hops sample_image k 0x1000 0x1040.
Proof.
  assert (gem_arm64ec_target_resolve (Some sample_map) 0x100001000 true = Ok sample_target) as H
    by (vm_compute; reflexivity).
  split; [exact H|]. apply (target_resolve_exact sample_map sample_map_ok 0x100001000 sample_target) in H.
  - destruct H as (_ & _ & _ & _ & Hk & _ & Hr). split; [exact Hr|exact Hk].
  - apply (bool_decide_unpack _). vm_compute. exact I.
Defined.

(** The sample with the redirection's destination pointing back at its source. *)
Definition cyclic_pe : list Z := patch 0x540 (u32s [0x1000]) sample_pe.

Definition cyclic_image : image :=
  match parse_image (allocator := generous) (Some cyclic_pe) 0x600 0 false None true with
  | Ok im => im
  | _ => empty_image 0
  end.

Lemma cyclic_ok : image_ok false cyclic_image.
Proof.
  assert (Forall is_u8 cyclic_pe) as Hb by (apply (bool_decide_unpack _); vm_compute; exact I).
  assert (0 <= 0x600 <= Z.of_nat (length cyclic_pe)) as Hl by (vm_compute; split; congruence).
  pose proof (parse_image_safe (allocator := generous) cyclic_pe 0x600 0 false None true Hb Hl) as H.
  assert (parse_image (allocator := generous) (Some cyclic_pe) 0x600 0 false None true = Ok cyclic_image) as E
    by (vm_compute; reflexivity).
  rewrite E in H. apply H.
Qed.

Definition cyclic_map : target_map :=
  TargetMap cyclic_image (i_summary cyclic_image) 0x100000000 0x100003000.

Lemma cyclic_map_ok : map_ok cyclic_map.
Proof.
  split; [exists false; exact cyclic_ok|]. split; [reflexivity|]. split; [split; vm_compute; congruence|].
  split; [vm_compute; reflexivity|vm_compute; congruence].
Qed.

Lemma target_malformed_exact_witness :
  gem_arm64ec_target_resolve (Some cyclic_map) 0x100001000 true
    = Err GEM_ARM64EC_TARGET_MALFORMED_METADATA /\
  forall k y, hops cyclic_image k 0x1000 y -> ~ terminal cyclic_image y.
Proof.
  assert (gem_arm64ec_target_resolve (Some cyclic_map) 0x100001000 true
    = Err GEM_ARM64EC_TARGET_MALFORMED_METADATA) as H by (vm_compute; reflexivity).
  split; [exact H|]. apply (target_malformed_exact cyclic_map cyclic_map_ok 0x100001000) in H.
  - apply H.
  - apply (bool_decide_unpack _). vm_compute. exact I.
Defined.

Lemma target_map_create_spec_witness :
  exists m, gem_arm64ec_target_map_create (allocator := generous) true (Some sample_image) 0x100000000 true = Ok m /\
    map_ok m /\ tm_image m = sample_image.
Proof.
  exists sample_map.
  assert (gem_arm64ec_target_map_create (allocator := generous) true (Some sample_image) 0x100000000 true
    = Ok sample_map) as H by (vm_compute; reflexivity).
  split; [exact H|].
  pose proof (target_map_create_spec (allocator := generous) false sample_image 0x100000000 sample_ok) as Hs.
  rewrite H in Hs. destruct Hs as (Hm & Hi & _).
  - apply (bool_decide_unpack _). vm_compute. exact I.
  - split; [exact Hm|exact Hi].
Defined.

(** x11 holds an x64 address, x10 the ARM64EC exit thunk. *)
Definition sample_context : gem_thread_context :=
  with_x (gem_context_initialize 0x7000 GEM_ISA_ARM64EC)
    (<[10%nat := 0x100001040]> (<[11%nat := 0x100001180]>
      (c_x (gem_context_initialize 0x7000 GEM_ISA_ARM64EC)))).


(** A descriptor at 0x100000ff0 with displacement 0x4c and a tag bit. *)
Definition descriptor_calls : list memory_call :=
  [CallReserve (Some 0) 4096; CallCommit 0x100000000 4096 GEM_PAGE_READWRITE;
   CallWrite 0x100000ff0 (Some [0x4d; 0; 0; 0]) 4].

Lemma descriptor_resolve_spec_witness :
  let memory := after (H := plenty 64) descriptor_calls in
  exists r memory', gem_arm64ec_descriptor_resolve (platform := plenty 64) (Some sample_map) (Some memory)
      0x100000ff0 None true = Ok (Ok r, Some memory') /\
    resolved_va r = 0x100001040 /\ kind r = GEM_ARM64EC_TARGET_ARM64EC /\
    byte_of memory 0x100000ff0 = Some 0x4d /\ forall q, view memory' q = view memory q.
Proof.
  cbv zeta. eexists _, _. split; [vm_compute; reflexivity|]. split; [reflexivity|]. split; [reflexivity|].
  split; [vm_compute; reflexivity|].
  edestruct (descriptor_resolve_spec (platform := plenty 64) sample_map
    (after (H := plenty 64) descriptor_calls) 0x100000ff0 None) as (b0 & b1 & b2 & b3 & _ & _ & _ & _ & _ & _ & _ & _ & Hv).
  - apply after_inv; [apply (bool_decide_unpack _); vm_compute; exact I|vm_compute; reflexivity..].
  - apply (bool_decide_unpack _). vm_compute. exact I.
  - vm_compute. reflexivity.
  - exact Hv.
Defined.
