(* ===== verification/Loader.v ===== *)
(** Loader: materialising a parsed image in guest memory at its preferred base
    (src/gem/pe_arm64x_loader.c, include/metalsharp/gem/pe_arm64x_loader.h).

    The body runs in the memory monad on the caller's object; the code's
    [goto Fail] is a status other than [GEM_PE_MATERIALIZE_OK].  The arrays the
    function frees before it returns are values here.  64-bit sums that the
    code's guards keep below 2^64 are plain sums. *)
From S2P Require Import Prelude MemoryModel Memory Pe.

Definition GEM_PE_ARM64X_MATERIALIZE_OPTIONS_VERSION : Z := 1.
Definition GEM_PE_ARM64X_MAX_BINDINGS : Z := 32.
Definition PE_SECTION_MEM_WRITE : Z := 0x80000000.

Inductive gem_pe_materialize_status : Type :=
  | GEM_PE_MATERIALIZE_OK
  | GEM_PE_MATERIALIZE_INVALID_ARGUMENT
  | GEM_PE_MATERIALIZE_PARSE_ERROR
  | GEM_PE_MATERIALIZE_RELOCATION_REQUIRED
  | GEM_PE_MATERIALIZE_OVERFLOW
  | GEM_PE_MATERIALIZE_CONFLICT
  | GEM_PE_MATERIALIZE_BAD_SECTION
  | GEM_PE_MATERIALIZE_PERMISSION_CONFLICT
  | GEM_PE_MATERIALIZE_BAD_BINDING
  | GEM_PE_MATERIALIZE_MEMORY_ERROR.

#[export] Instance gem_pe_materialize_status_eq_dec : EqDecision gem_pe_materialize_status.
Proof. solve_decision. Defined.

Record pe_binding : Type := Binding { bd_slot_rva : Z; bd_value : Z }.

(** [mo_bindings] is the array [bindings] points to. *)
Record materialize_options : Type := MaterializeOptions {
  mo_version : Z;
  mo_reserved : Z;
  mo_image_base : Z;
  mo_bindings : option (list pe_binding);
  mo_binding_count : Z }.

Record materialized_image : Type := MaterializedImage {
  mi_metadata : image;
  mi_base : Z;
  mi_size : Z }.

Definition add_u64 (a b : Z) : option Z := if UINT64_MAX - b <? a then None else Some (a + b).

Definition section_protection (characteristics : Z) : Z :=
  let read := has_bits characteristics PE_SECTION_MEM_READ in
  let write := has_bits characteristics PE_SECTION_MEM_WRITE in
  let execute := has_bits characteristics PE_SECTION_MEM_EXECUTE in
  if execute then
    if write then GEM_PAGE_EXECUTE_READWRITE
    else if read then GEM_PAGE_EXECUTE_READ else GEM_PAGE_EXECUTE
  else if write then GEM_PAGE_READWRITE else if read then GEM_PAGE_READONLY else GEM_PAGE_NOACCESS.

Definition view_extent (s : section_view) : Z :=
  if v_raw_size s <? v_virtual_size s then v_virtual_size s else v_raw_size s.

Definition section_contains (s : section_view) (rva size : Z) : bool :=
  let end_ := rva + size in
  (v_virtual_address s <=? rva) && (end_ <=? v_virtual_address s + view_extent s).

Definition materialize_status_names : list string :=
  ["ok"; "invalid-argument"; "parse-error"; "relocation-required"; "overflow"; "conflict";
   "bad-section"; "permission-conflict"; "bad-binding"; "memory-error"]%string.
Definition gem_pe_materialize_status_name (status : Z) : string :=
  if wrap32 status <? 10 then materialize_status_names !!! Z.to_nat (wrap32 status)
  else "invalid"%string.

(** A call of a public function on the object. *)
Definition call {A} (f : option mem -> result unit (A * option mem)) : M A := fun m =>
  match f (Some m) with
  | Ok (a, Some m') => Ok (a, m')
  | Ok (_, None) => Fault
  | Err e => Err e
  | Fault => Fault
  end.

(** The page loop of a section: [None] on a conflict. *)
Fixpoint paint (pages : list Z) (protection page_count : Z) (protections : list Z)
  : option (list Z) :=
  match pages with
  | [] => Some protections
  | page :: pages =>
    if page_count <=? page then None
    else
      let old := protections !!! Z.to_nat page in
      if negb (old =? 0) && negb (old =? protection) then None
      else paint pages protection page_count (<[Z.to_nat page := protection]> protections)
  end.

(** [for (page = first; page < last; ++page)] *)
Definition pages_between (first last : Z) : list Z := seqZ first (last - first).

Section loader.
Context {allocator : Allocator} {platform : Platform}.

(** The section loop from [index] on: the status and [page_protections]. *)
Fixpoint load_sections (bytes : list Z) (byte_count : Z) (metadata : image) (base page_count : Z)
    (n : nat) (index : Z) (protections : list Z) : M (gem_pe_materialize_status * list Z) :=
  match n with
  | O => mret (GEM_PE_MATERIALIZE_OK, protections)
  | S n =>
    match gem_pe_arm64x_get_section (Some metadata) index true with
    | Fault => fault
    | Err _ => mret (GEM_PE_MATERIALIZE_BAD_SECTION, protections)
    | Ok section =>
      match add_u64 (v_virtual_address section) (view_extent section) with
      | None => mret (GEM_PE_MATERIALIZE_BAD_SECTION, protections)
      | Some virtual_end =>
        if size_of_image (i_summary metadata) <? virtual_end
        then mret (GEM_PE_MATERIALIZE_BAD_SECTION, protections)
        else
          let first_page := v_virtual_address section / 4096 in
          let final_page := wrap32 ((virtual_end + 4096 - 1) / 4096) in
          let protection := section_protection (v_characteristics section) in
          match paint (pages_between first_page final_page) protection page_count protections with
          | None => mret (GEM_PE_MATERIALIZE_PERMISSION_CONFLICT, protections)
          | Some protections =>
            if v_raw_size section =? 0
            then load_sections bytes byte_count metadata base page_count n (index + 1) protections
            else
              match gem_pe_arm64x_rva_to_file_offset (Some metadata) (v_virtual_address section)
                      (v_raw_size section) true with
              | Fault => fault
              | Err _ => mret (GEM_PE_MATERIALIZE_BAD_SECTION, protections)
              | Ok file_offset =>
                if (byte_count <? file_offset) || (byte_count - file_offset <? v_raw_size section)
                then mret (GEM_PE_MATERIALIZE_BAD_SECTION, protections)
                else
                  '(e, _) ← call (fun m => gem_memory_write m (base + v_virtual_address section)
                                     (Some (drop (Z.to_nat file_offset) bytes)) (v_raw_size section));
                  if bool_decide (e = GEM_MEMORY_OK)
                  then load_sections bytes byte_count metadata base page_count n (index + 1) protections
                  else mret (GEM_PE_MATERIALIZE_BAD_SECTION, protections)
              end
          end
      end
    end
  end.

(** The first section that contains the slot. *)
Fixpoint find_slot (metadata : image) (slot : Z) (n : nat) (index : Z) : option section_view :=
  match n with
  | O => None
  | S n =>
    match gem_pe_arm64x_get_section (Some metadata) index true with
    | Ok section => if section_contains section slot 8 then Some section
                    else find_slot metadata slot n (index + 1)
    | _ => find_slot metadata slot n (index + 1)
    end
  end.

(** The binding loop: [n] bindings left from [index] on. *)
Fixpoint bind_slots (metadata : image) (base image_end : Z) (bindings : list pe_binding)
    (n : nat) (index : Z) : M gem_pe_materialize_status :=
  match n with
  | O => mret GEM_PE_MATERIALIZE_OK
  | S n =>
    match bindings !! Z.to_nat index with
    | None => fault
    | Some b =>
      match find_slot metadata (bd_slot_rva b)
              (Z.to_nat (gem_pe_arm64x_section_count (Some metadata))) 0 with
      | None => mret GEM_PE_MATERIALIZE_BAD_BINDING
      | Some section =>
        if has_bits (v_characteristics section) PE_SECTION_MEM_EXECUTE || (bd_value b =? 0)
           || ((base <=? bd_value b) && (bd_value b <? image_end))
           || existsb (fun other => bd_slot_rva other =? bd_slot_rva b)
                (take (Z.to_nat index) bindings)
        then mret GEM_PE_MATERIALIZE_BAD_BINDING
        else
          '(e, _) ← call (fun m => gem_memory_write m (base + bd_slot_rva b)
                             (Some (le_bytes 8 (bd_value b))) 8);
          if bool_decide (e = GEM_MEMORY_OK)
          then bind_slots metadata base image_end bindings n (index + 1)
          else mret GEM_PE_MATERIALIZE_MEMORY_ERROR
      end
    end
  end.

(** The final loop: [protections] from page [index] on. *)
Fixpoint protect_pages (base index : Z) (protections : list Z) : M gem_pe_materialize_status :=
  match protections with
  | [] => mret GEM_PE_MATERIALIZE_OK
  | p :: protections =>
    '(e, _) ← call (fun m => gem_memory_protect m (base + index * 4096) 4096
                       (if p =? 0 then GEM_PAGE_NOACCESS else p) None);
    if bool_decide (e = GEM_MEMORY_OK) then protect_pages base (index + 1) protections
    else mret GEM_PE_MATERIALIZE_MEMORY_ERROR
  end.

(** [page_protections] after the header loop. *)
Definition header_protections (headers page_count : Z) : list Z :=
  let k := Z.to_nat ((headers + 4096 - 1) / 4096) in
  replicate k GEM_PAGE_READONLY ++ replicate (Z.to_nat page_count - k) 0.

(** Everything between the reservation and the return or [Fail]. *)
Definition load_image (bytes : list Z) (byte_count : Z) (metadata : image)
    (bindings : list pe_binding) (binding_count base size page_count image_end : Z)
  : M gem_pe_materialize_status :=
  e ← call (fun m => gem_memory_commit m base size GEM_PAGE_READWRITE);
  if negb (bool_decide (e = GEM_MEMORY_OK)) then mret GEM_PE_MATERIALIZE_MEMORY_ERROR
  else
    let headers := size_of_headers (i_summary metadata) in
    '(e, _) ← call (fun m => gem_memory_write m base (Some bytes) headers);
    if negb (bool_decide (e = GEM_MEMORY_OK)) then mret GEM_PE_MATERIALIZE_MEMORY_ERROR
    else
      '(status, protections) ← load_sections bytes byte_count metadata base page_count
        (Z.to_nat (gem_pe_arm64x_section_count (Some metadata))) 0
        (header_protections headers page_count);
      match status with
      | GEM_PE_MATERIALIZE_OK =>
        status ← bind_slots metadata base image_end bindings (Z.to_nat binding_count) 0;
        match status with
        | GEM_PE_MATERIALIZE_OK => protect_pages base 0 protections
        | status => mret status
        end
      | status => mret status
      end.

(** The function on an object: [result_block] and [protections_block] say
    whether its two [calloc] succeed.  [None] is what it leaves in [*out_image]
    when it fails. *)
Definition materialize (result_block protections_block : bool) (bytes : option (list Z))
    (byte_count : Z) (options : option materialize_options)
  : M (gem_pe_materialize_status * option materialized_image) :=
  match bytes, options with
  | Some bytes, Some o =>
    if (byte_count =? 0) || negb (mo_version o =? GEM_PE_ARM64X_MATERIALIZE_OPTIONS_VERSION)
       || negb (mo_reserved o =? 0) || (GEM_PE_ARM64X_MAX_BINDINGS <? mo_binding_count o)
       || (negb (mo_binding_count o =? 0) && bool_decide (mo_bindings o = None))
    then mret (GEM_PE_MATERIALIZE_INVALID_ARGUMENT, None)
    else if negb result_block then mret (GEM_PE_MATERIALIZE_MEMORY_ERROR, None)
    else
      match gem_pe_arm64x_parse (Some bytes) byte_count None true with
      | Fault => fault
      | Err _ => mret (GEM_PE_MATERIALIZE_PARSE_ERROR, None)
      | Ok metadata =>
        let s := i_summary metadata in
        if negb (mo_image_base o =? image_base s)
        then mret (GEM_PE_MATERIALIZE_RELOCATION_REQUIRED, None)
        else
          match add_u64 (image_base s) (size_of_image s) with
          | None => mret (GEM_PE_MATERIALIZE_OVERFLOW, None)
          | Some image_end =>
            if has_bits (image_base s) 4095 || has_bits (size_of_image s) 4095
               || (size_of_headers s =? 0) || (size_of_image s <? size_of_headers s)
            then mret (GEM_PE_MATERIALIZE_OVERFLOW, None)
            else
              let base := image_base s in
              let size := size_of_image s in
              let page_count := size / 4096 in
              if negb protections_block then mret (GEM_PE_MATERIALIZE_MEMORY_ERROR, None)
              else
                '(e, reserved_base) ← call (fun m => gem_memory_reserve m (Some base) size);
                  if negb (bool_decide (e = GEM_MEMORY_OK))
                  then mret (GEM_PE_MATERIALIZE_CONFLICT, None)
                  else
                    status ← (if negb (bool_decide (reserved_base = Some base))
                              then mret GEM_PE_MATERIALIZE_MEMORY_ERROR
                              else load_image bytes byte_count metadata
                                     (default [] (mo_bindings o)) (mo_binding_count o) base size
                                     page_count image_end);
                    match status with
                    | GEM_PE_MATERIALIZE_OK =>
                      mret (GEM_PE_MATERIALIZE_OK, Some (MaterializedImage metadata base size))
                    | status =>
                      call (fun m => gem_memory_release m base size);;
                      mret (status, None)
                    end
          end
      end
  | _, _ => mret (GEM_PE_MATERIALIZE_INVALID_ARGUMENT, None)
  end.

Definition gem_pe_arm64x_materialize_preferred (result_block protections_block : bool)
    (memory : option mem) (bytes : option (list Z)) (byte_count : Z)
    (options : option materialize_options) (out : bool)
  : result unit ((gem_pe_materialize_status * option materialized_image) * option mem) :=
  if negb out then Ok ((GEM_PE_MATERIALIZE_INVALID_ARGUMENT, None), memory)
  else locked (GEM_PE_MATERIALIZE_INVALID_ARGUMENT, None)
         (materialize result_block protections_block bytes byte_count options) memory.
End loader.

Definition gem_pe_arm64x_materialized_metadata (im : option materialized_image) : option image :=
  mi_metadata <$> im.
Definition gem_pe_arm64x_materialized_base (im : option materialized_image) : Z :=
  match im with None => 0 | Some im => mi_base im end.
Definition gem_pe_arm64x_materialized_size (im : option materialized_image) : Z :=
  match im with None => 0 | Some im => mi_size im end.
