(* ===== verification/LoaderProperties.v ===== *)
(** LoaderProperties: materialising an image is all or nothing, and a loaded
    image has the protections its sections ask for. *)
From S2P Require Import Prelude MemoryModel Memory MemoryLogic MemoryInv MemoryTotal MemorySpec MemoryAtomic MemoryProperties MemoryFrame Pe PeInvariant PeProperties Loader.

Lemma triple_ext {A} P (f g : M A) (Q : A -> mem -> Prop) :
  (forall m, g m = f m) -> triple P f Q -> triple P g Q.
Proof. intros He Hf m Hm. rewrite He. by apply Hf. Qed.

Lemma call_locked {A} (d : A) (f : M A) m : call (fun m => locked d f m) m = f m.
Proof. unfold call, locked. by destruct (f m) as [[a m']| |]. Qed.

(** ** Sections seen through [gem_pe_arm64x_get_section] *)

Definition view_of (s : pe_section) : section_view :=
  SectionView (s_virtual_address s) (s_virtual_size s) (s_raw_size s) (s_characteristics s).

Lemma get_section_spec im i :
  image_ok false im -> 0 <= i < section_count (i_summary im) ->
  exists s, i_sections im !! Z.to_nat i = Some s /\
    gem_pe_arm64x_get_section (Some im) i true = Ok (view_of s).
Proof.
  intros Him Hi. destruct (ok_section_count _ _ Him) as [Hc _].
  destruct (lookup_lt_is_Some_2 (i_sections im) (Z.to_nat i)) as [s Hs]; [lia|].
  exists s. split; [done|]. unfold gem_pe_arm64x_get_section, get_element. cbn [negb orb].
  rewrite (proj2 (Z.leb_gt _ _)) by lia. by rewrite Hs.
Qed.

Lemma find_slot_spec im slot n i v :
  image_ok false im -> 0 <= i -> i + Z.of_nat n <= section_count (i_summary im) ->
  find_slot im slot n i = Some v ->
  exists s, s ∈ i_sections im /\ v = view_of s /\ s_virtual_address s <= slot /\
    slot + 8 <= s_virtual_address s + section_virtual_extent s.
Proof.
  intros Him. revert i. induction n as [|n IH]; intros i Hi Hn H; [done|]. cbn [find_slot] in H.
  destruct (get_section_spec im i Him ltac:(lia)) as (s & Hs & Hg). rewrite Hg in H.
  destruct (section_contains (view_of s) slot 8) eqn:Hc; [|apply (IH (i + 1)); [lia|lia|done]].
  injection H as <-. exists s. split; [by eapply list_elem_of_lookup_2|]. split; [done|].
  unfold section_contains, view_extent, section_virtual_extent in *. cbn in *. bool_to_Z. lia.
Qed.

(** ** Painting *)

Lemma paint_length pages prot count ps ps' :
  paint pages prot count ps = Some ps' -> length ps' = length ps.
Proof.
  revert ps. induction pages as [|p pages IH]; intros ps H; cbn [paint] in H; [by injection H as <-|].
  destruct (_ <=? _); [done|]. destruct (_ && _); [done|]. apply IH in H. by rewrite H, length_insert.
Qed.

Lemma header_protections_length headers count :
  0 <= count -> 0 <= headers <= count * 4096 ->
  length (header_protections headers count) = Z.to_nat count.
Proof.
  intros Hc Hh. unfold header_protections. rewrite length_app, !length_replicate.
  assert ((headers + 4096 - 1) / 4096 <= count); [|lia].
  apply Z.lt_succ_r. apply Z.div_lt_upper_bound; lia.
Qed.

(** ** Loading *)

Section loading.
Context {allocator : Allocator} {platform : Platform}.
Context (im : image) (Him : image_ok false im).
Context (m0 : mem) (L : gmap Z (Z * Z)) (base n : Z).
Context (Hbase : 0 <= base) (Hbm : base mod 4096 = 0) (Hnm : n mod 4096 = 0).
Context (Hn : n = size_of_image (i_summary im)).

(** A page of the image's reservation. *)
Definition inside (x : Z) : Prop := base <= x < base + n /\ x mod 4096 = 0.

Definition loading (m : mem) : Prop :=
  st no_pins L m /\ forall x, ~ inside x -> m_pages m !! x = m_pages m0 !! x.

Lemma loading_step {A} (f : M A) :
  triple (st no_pins L) f (fun _ => st no_pins L) -> touching inside f ->
  triple loading f (fun _ => loading).
Proof.
  intros Ht Hf m [Hm Hx]. specialize (Ht m Hm). specialize (Hf m).
  destruct (f m) as [[a m']| |]; [|done|done]. split; [done|].
  intros x Hi. destruct (Hf a m' eq_refl) as [Ho _]. rewrite Ho by done. by apply Hx.
Qed.

Lemma inside_offset o : o ∈ page_range 0 n -> inside (base + o).
Proof.
  intros Ho. split; [apply elem_of_page_range in Ho; lia|]. by eapply page_offset_aligned.
Qed.

Lemma loading_commit prot :
  triple loading (call (fun m => gem_memory_commit m base n prot)) (fun _ => loading).
Proof.
  eapply triple_ext; [intros m; apply call_locked|]. apply loading_step.
  - apply commit_locked_triple, no_pins_nonneg.
  - apply touching_commit, inside_offset.
Qed.

(** Writes within the image. *)
Lemma loading_write off b size :
  0 <= off -> 0 <= size -> off + size <= n ->
  triple loading (call (fun m => gem_memory_write m (base + off) b size)) (fun _ => loading).
Proof.
  intros Ho Hs Hfit. eapply triple_ext; [intros m; apply call_locked|]. apply loading_step.
  - apply access_memory_locked_triple; [apply no_pins_nonneg|lia|done|done].
  - apply touching_access; [lia|done|]. intros q Hq Hqm. unfold in_pages in Hq. split; [|done].
    pose proof (Z.div_mod q 4096). pose proof (Z.div_mod base 4096). lia.
Qed.

Lemma loading_protect i prot old :
  0 <= i -> i < n / 4096 ->
  triple loading (call (fun m => gem_memory_protect m (base + i * 4096) 4096 prot old))
    (fun _ => loading).
Proof.
  intros Hi Hin. eapply triple_ext; [intros m; apply call_locked|]. apply loading_step.
  - by apply protect_locked_triple.
  - apply touching_protect. intros o Ho. apply elem_of_page_range in Ho as [Ho Hom].
    rewrite Z.sub_0_r in Hom. pose proof (Z.div_mod o 4096). pose proof (Z.div_mod n 4096).
    pose proof (Z.div_mod base 4096). replace o with 0 by lia. split; [lia|].
    rewrite Z.add_0_r, Z.add_mod, Hbm, Z.mod_mul by lia. done.
Qed.

Lemma section_fits s :
  s ∈ i_sections im ->
  0 <= s_virtual_address s /\ 0 <= s_raw_size s <= section_virtual_extent s /\
  s_virtual_address s + section_virtual_extent s <= n.
Proof.
  intros Hs. destruct (section_in_image false im Him s Hs) as [He (Hva & _ & Hrs & _)].
  pose proof (section_extent_le s). unfold is_u32, section_span in *. cbn in *. lia.
Qed.

Lemma loading_sections bytes byte_count count k i ps :
  0 <= i -> i + Z.of_nat k <= section_count (i_summary im) ->
  triple loading (load_sections bytes byte_count im base count k i ps)
    (fun r m => loading m /\ length r.2 = length ps).
Proof.
  revert i ps. induction k as [|k IH]; intros i ps Hi Hk; cbn [load_sections].
  { by apply triple_ret. }
  destruct (get_section_spec im i Him ltac:(lia)) as (s & Hs & ->).
  apply list_elem_of_lookup_2 in Hs as Hin. destruct (section_fits s Hin) as (Hva & Hrs & Hfit).
  destruct (add_u64 _ _) as [virtual_end|]; [|by apply triple_ret].
  destruct (_ <? _); [by apply triple_ret|].
  destruct (paint _ _ _ _) as [ps'|] eqn:Hpaint; [|by apply triple_ret].
  apply paint_length in Hpaint as Hlen. cbn [view_of v_raw_size v_virtual_address].
  assert (triple loading (load_sections bytes byte_count im base count k (i + 1) ps')
    (fun r m => loading m /\ length r.2 = length ps)) as Hrest.
  { eapply triple_conseq; [apply IH; lia|done|]. intros r m. cbv beta. by rewrite Hlen. }
  destruct (_ =? 0); [done|].
  pose proof (file_offset_safe im (s_virtual_address s) (s_raw_size s)) as Hoff.
  cbn [gem_pe_arm64x_rva_to_file_offset].
  assert (Forall (fun s => is_u32 (s_raw_pointer s)) (i_sections im)) as Hraw.
  { eapply Forall_impl; [exact (proj1 (ok_sections _ _ Him))|]. by intros ? (_ & _ & _ & ? & _). }
  specialize (Hoff Hva ltac:(lia) Hraw).
  destruct (rva_to_file_offset_internal _ _ _) as [off| |]; [|by apply triple_ret|done].
  destruct (_ || _); [by apply triple_ret|].
  eapply triple_bind; [apply loading_write; lia|]. intros [e b]. cbv beta.
  destruct (bool_decide _); [done|by apply triple_ret].
Qed.

Lemma loading_bindings image_end bs k i :
  0 <= i -> i + Z.of_nat k <= Z.of_nat (length bs) ->
  triple loading (bind_slots im base image_end bs k i) (fun _ => loading).
Proof.
  revert i. induction k as [|k IH]; intros i Hi Hk; cbn [bind_slots]; [by apply triple_ret|].
  destruct (lookup_lt_is_Some_2 bs (Z.to_nat i)) as [b ->]; [lia|].
  destruct (find_slot _ _ _ _) as [v|] eqn:Hv; [|by apply triple_ret].
  destruct (ok_section_count _ _ Him) as [Hc _].
  apply find_slot_spec in Hv as (s & Hin & -> & Hlo & Hhi); [|done|lia|cbn; lia].
  destruct (section_fits s Hin) as (Hva & Hrs & Hfit).
  destruct (_ || _); [by apply triple_ret|].
  eapply triple_bind; [apply loading_write; lia|]. intros [e buf]. cbv beta.
  destruct (bool_decide _); [apply IH; lia|by apply triple_ret].
Qed.

Lemma loading_protections i ps :
  0 <= i -> i + Z.of_nat (length ps) <= n / 4096 ->
  triple loading (protect_pages base i ps) (fun _ => loading).
Proof.
  revert i. induction ps as [|p ps IH]; intros i Hi Hl; cbn [protect_pages length] in *;
    [by apply triple_ret|].
  eapply triple_bind; [apply loading_protect; lia|]. intros [e old]. cbv beta.
  destruct (bool_decide _); [apply IH; lia|by apply triple_ret].
Qed.

Lemma loading_image bytes byte_count bs count image_end :
  0 <= count <= Z.of_nat (length bs) -> size_of_headers (i_summary im) <= n ->
  triple loading (load_image bytes byte_count im bs count base n (n / 4096) image_end)
    (fun _ => loading).
Proof.
  intros Hc Hh. pose proof (ok_size _ _ Him) as Hsize. pose proof (ok_headers _ _ Him) as (H0 & _ & Hhs).
  destruct (ok_section_count _ _ Him) as [Hsc _]. pose proof (Z.div_mod n 4096) as Hdm.
  unfold load_image. eapply triple_bind; [apply loading_commit|]. intros e. cbv beta.
  destruct (negb _); [by apply triple_ret|].
  eapply triple_bind.
  { replace base with (base + 0) by lia. apply loading_write; lia. }
  intros [e1 b1]. cbv beta. destruct (negb _); [by apply triple_ret|].
  eapply triple_bind; [apply loading_sections; cbn; lia|]. intros [status ps]. cbn [fst snd].
  apply triple_pre. intros m [Hm Hlen]. rewrite header_protections_length in Hlen by lia.
  destruct status; try (apply triple_ret; by intros ? ->).
  eapply triple_bind.
  { eapply triple_conseq; [apply loading_bindings; lia|by intros ? ->|intros ? ? HQ; exact HQ]. }
  intros status. cbv beta. destruct status; try (by apply triple_ret).
  apply loading_protections; lia.
Qed.
End loading.

(** ** Release *)

Section whole.
Context {allocator : Allocator} {platform : Platform}.

(** Releasing a whole reservation over [m0] gives [m0]'s pages back. *)
Lemma release_loading m0 L base n :
  inv no_pins m0 -> layout_ok L -> 0 < n -> L !! base = Some (base, n) ->
  (forall x, inside base n x -> m_pages m0 !! x = None) ->
  triple (loading m0 L base n) (call (fun m => gem_memory_release m base n))
    (fun _ m => inv no_pins m /\ m_pages m = m_pages m0).
Proof.
  intros H0 HL Hn Hb Hfree. eapply triple_ext; [intros m; apply call_locked|].
  destruct (HL _ _ _ Hb) as (Hb0 & Hbm & Hnm & Hend & _ & _ & Hall).
  apply triple_pre. intros m [Hm Hout].
  assert (layout m = L) as HLm by apply (st_layout _ _ _ Hm).
  assert (check m base n false = GEM_MEMORY_OK) as Hc.
  { apply check_intro; [apply range_ok_spec; lia|]. intros o Ho. apply layout_is_Some. rewrite HLm.
    rewrite (Hall (base + o)); [by eexists| |by eapply page_offset_aligned].
    apply elem_of_page_range in Ho. lia. }
  pose proof (release_locked_triple no_pins base n no_pins_nonneg ltac:(lia)) as Hinv.
  intros m1 ->. specialize (Hinv m ltac:(by exists L)). revert Hinv.
  assert (exists p, m_pages m !! base = Some p /\ p_reservation_base p = base /\ p_reservation_size p = n)
    as (p & Hp & Hpb & Hpn).
  { rewrite <- HLm, layout_lookup in Hb. destruct (m_pages m !! base) as [p|]; [|done].
    injection Hb as ? ?. by exists p. }
  assert (release_locked base n m = match remove_pages base n m with
    | Ok (_, m') => Ok (GEM_MEMORY_OK, m') | Err e => Err e | Fault => Fault end) as ->.
  { unfold release_locked, deref_page, mbind, M_bind, get, at_. rewrite Hc, Hp.
    cbn [mret M_ret]. by rewrite Hpb, Hpn, !Z.eqb_refl. }
  pose proof (remove_pages_triple no_pins L base n (m_pages m) no_pins_nonneg m (conj Hm eq_refl)) as Hrm.
  destruct (remove_pages base n m) as [[u m2]| |]; [|done|done].
  cbn. intros Hinv. split; [done|]. apply map_eq. intros x. destruct Hrm as [_ Hx]. rewrite Hx.
  rewrite wrap64_small by (unfold UINT64_MAX in *; lia).
  destruct (decide (inside base n x)) as [Hi|Hi].
  - rewrite bool_decide_eq_true_2 by apply Hi. symmetry. by apply Hfree.
  - rewrite <- (Hout x Hi). case_bool_decide as Hr; [|done].
    destruct (m_pages m !! x) as [q|] eqn:Hq; [|done]. exfalso. apply Hi. split; [done|].
    destruct H0 as (L0 & Hm0 & HL0). rewrite (Hout x Hi) in Hq.
    apply (HL0 x (p_reservation_base q) (p_reservation_size q)).
    rewrite <- (st_layout _ _ _ Hm0), layout_lookup, Hq. done.
Qed.

(** The caller's side of the contract: bytes, and an array of bindings as long
    as it says. *)
Definition arguments_ok (bytes : option (list Z)) (byte_count : Z) (o : option materialize_options)
  : Prop :=
  match bytes with
  | Some l => Forall is_u8 l /\ 0 <= byte_count <= Z.of_nat (length l)
  | None => True
  end /\
  match o with
  | Some o => 0 <= mo_binding_count o /\
      (forall bs, mo_bindings o = Some bs -> mo_binding_count o <= Z.of_nat (length bs))
  | None => True
  end.

(** What the caller finds afterwards. *)
Definition all_or_nothing (m : mem) (r : gem_pe_materialize_status * option materialized_image)
    (m' : mem) : Prop :=
  inv no_pins m' /\
  match r.2 with
  | None => r.1 <> GEM_PE_MATERIALIZE_OK /\ m_pages m' = m_pages m
  | Some im => r.1 = GEM_PE_MATERIALIZE_OK /\
      (forall x, ~ inside (mi_base im) (mi_size im) x -> m_pages m' !! x = m_pages m !! x) /\
      (forall x, inside (mi_base im) (mi_size im) x -> m_pages m !! x = None /\
         layout m' !! x = Some (mi_base im, mi_size im))
  end.

Lemma materialize_triple m b1 b2 bytes byte_count o :
  inv no_pins m -> arguments_ok bytes byte_count o ->
  (forall o', o = Some o' -> 0 < mo_image_base o') ->
  triple (fun m' => m' = m) (materialize b1 b2 bytes byte_count o) (all_or_nothing m).
Proof.
  intros Hm [Hbytes Hopt] Hbase. unfold materialize.
  assert (forall e, e <> GEM_PE_MATERIALIZE_OK ->
    triple (fun m' => m' = m) (mret (e, None)) (all_or_nothing m)) as Herr.
  { intros e He. apply triple_ret. intros m' ->. by split. }
  destruct bytes as [bytes|]; [|by apply Herr]. destruct o as [o|]; [|by apply Herr].
  destruct (_ || _) eqn:Hargs; [by apply Herr|].
  assert (mo_bindings o = None -> mo_binding_count o = 0) as Hnull.
  { intros E. apply orb_false_iff in Hargs as [_ Hargs]. rewrite bool_decide_eq_true_2 in Hargs by done.
    rewrite andb_true_r in Hargs. by apply negb_false_iff, Z.eqb_eq in Hargs. }
  destruct (negb b1); [by apply Herr|].
  destruct Hbytes as [Hu8 Hlen]. destruct Hopt as [Hcount Hbs].
  pose proof (parse_image_safe bytes byte_count 0 false None true Hu8 Hlen) as Hparse.
  cbn zeta in Hparse. unfold gem_pe_arm64x_parse.
  destruct (parse_image _ _ _ _ _ _) as [im|e|]; [|by apply Herr|done].
  destruct Hparse as (Him & _). specialize (Hbase o eq_refl).
  destruct (mo_image_base o =? image_base (i_summary im)) eqn:Hpref; cbn [negb]; [|by apply Herr].
  apply Z.eqb_eq in Hpref.
  destruct (add_u64 _ _) as [image_end|] eqn:Hadd; [|by apply Herr].
  unfold add_u64 in Hadd. destruct (Z.ltb_spec (UINT64_MAX - size_of_image (i_summary im)) (image_base (i_summary im))); [done|].
  injection Hadd as <-.
  destruct (has_bits (image_base (i_summary im)) 4095 || _ || _ || _) eqn:Hg; [by apply Herr|]. bool_to_Z.
  destruct (negb b2); [by apply Herr|].
  set (base := image_base (i_summary im)) in *. set (n := size_of_image (i_summary im)) in *.
  pose proof (ok_size _ _ Him) as Hsize. fold n in Hsize.
  repeat match goal with H : has_bits _ 4095 = false |- _ =>
    rewrite has_bits_4095 in H; apply negb_false_iff, Z.eqb_eq in H end.
  apply triple_pre. intros m' ->.
  eapply triple_bind.
  { eapply triple_ext; [intros m1; apply call_locked|].
    eapply triple_conseq; [apply (reserve_locked_triple no_pins base n (m_pages m) no_pins_nonneg); lia|
      by intros ? ->|intros ? ? HQ; exact HQ]. }
  intros [e reserved]. cbn [fst snd]. apply triple_pre. intros m1 [Hi1 Hr].
  destruct Hr as [(He & _ & Hps) | (b & head & [= -> ->] & _ & Hbb & Hro & _ & Hfree & Hnew & Hnone & Hps)].
  { rewrite bool_decide_eq_false_2 by done. apply triple_ret. intros m2 ->. by split. }
  specialize (Hbb ltac:(lia)) as ->. rewrite !bool_decide_eq_true_2 by done. cbn [negb].
  pose proof Hi1 as (L & Hm1 & HL). destruct Hnew as (Hnd & Hkeys & _).
  assert (forall x, inside base n x -> m_pages m !! x = None /\ L !! x = Some (base, n)) as Hins.
  { intros x [Hx Hxm]. assert (x - base ∈ page_range 0 n) as Hin by (by apply in_page_range).
    split; [by apply Hfree|]. apply Hkeys, list_elem_of_fmap in Hin as ([y p] & -> & Hin).
    destruct (Hnone _ _ Hin) as [g ->]. cbn. rewrite <- (st_layout _ _ _ Hm1), layout_lookup, Hps.
    erewrite lookup_union_Some_l by (apply elem_of_list_to_map_1; [exact Hnd|exact Hin]). done. }
  assert (loading m L base n m1) as Hload.
  { split; [done|]. intros x Hx. rewrite Hps. apply lookup_union_r, not_elem_of_list_to_map_1.
    rewrite Hkeys. intros Hin. apply Hx. split; [apply elem_of_page_range in Hin; lia|].
    pose proof (page_offset_aligned base _ n ltac:(done) Hin) as Hal.
    by replace (base + (x - base)) with x in Hal by lia. }
  eapply triple_bind.
  { eapply triple_conseq; [apply (loading_image im Him m L base n); try done; try lia| |
      intros ? ? HQ; exact HQ].
    - split; [done|]. destruct (mo_bindings o) as [bs|] eqn:Eb; [by apply Hbs|].
      by rewrite Hnull.
    - by intros ? ->. }
  intros status. cbv beta.
  assert (status <> GEM_PE_MATERIALIZE_OK -> triple (loading m L base n)
    (call (fun m => gem_memory_release m base n);; mret (status, None)) (all_or_nothing m)) as Hfail.
  { intros Hs. eapply triple_bind.
    - apply (release_loading m L base n); [done|done|lia|apply Hins; split; [lia|done]|].
      intros x Hx. by apply Hins.
    - intros u. apply triple_ret. intros m2 [Hm2 Hp2]. by split. }
  destruct status; try (by apply Hfail).
  apply triple_ret. intros m2 [Hm2 Hout]. split; [by exists L|]. cbn. split; [done|]. split; [done|].
  intros x Hx. rewrite (st_layout _ _ _ Hm2). by apply Hins.
Qed.
End whole.

(** ** Protections *)

Lemma section_protection_nonzero c : section_protection c <> 0.
Proof. unfold section_protection. by repeat case_match. Qed.

(** The pages a section's span meets. *)
Definition covers (s : pe_section) (i : Z) : Prop :=
  s_virtual_address s / 4096 <= i <
    (s_virtual_address s + section_virtual_extent s + 4095) / 4096.

#[export] Instance covers_dec s i : Decision (covers s i).
Proof. unfold covers. apply _. Defined.

Lemma paint_spec pages prot count ps ps' :
  (forall x, x ∈ pages -> 0 <= x) -> count = Z.of_nat (length ps) ->
  paint pages prot count ps = Some ps' ->
  (forall i, 0 <= i -> ps' !! Z.to_nat i = if decide (i ∈ pages) then Some prot else ps !! Z.to_nat i) /\
  (forall i, i ∈ pages -> ps !!! Z.to_nat i = 0 \/ ps !!! Z.to_nat i = prot).
Proof.
  revert ps. induction pages as [|p pages IH]; intros ps Hpos Hlen H; cbn [paint] in H.
  { injection H as <-. split; [|intros i Hi; by apply not_elem_of_nil in Hi].
    intros i Hi. by rewrite decide_False by apply not_elem_of_nil. }
  destruct (Z.leb_spec count p) as [|Hp]; [done|].
  destruct (negb (ps !!! Z.to_nat p =? 0) && negb (ps !!! Z.to_nat p =? prot)) eqn:Hold; [done|].
  assert (0 <= p) as Hp0 by (apply Hpos; set_solver).
  apply IH in H as [Hnew Hprev]; [|set_solver|by rewrite length_insert].
  assert (ps !!! Z.to_nat p = 0 \/ ps !!! Z.to_nat p = prot) as Hpp.
  { apply andb_false_iff in Hold as [Hq%negb_false_iff%Z.eqb_eq | Hq%negb_false_iff%Z.eqb_eq]; tauto. }
  split.
  - intros i Hi. rewrite Hnew by done. destruct (decide (i ∈ pages)).
    + by rewrite decide_True by set_solver.
    + destruct (decide (i = p)) as [->|Hne].
      * rewrite decide_True by set_solver. apply list_lookup_insert_eq. lia.
      * rewrite decide_False by set_solver. apply list_lookup_insert_ne. lia.
  - intros i [-> | Hi]%elem_of_cons; [done|]. destruct (decide (i = p)) as [->|Hne]; [done|].
    specialize (Hprev i Hi). assert (0 <= i) by (apply Hpos; set_solver).
    by rewrite list_lookup_total_insert_ne in Hprev by lia.
Qed.

(** [ps] after the sections [front], over the header's protections. *)
Definition painted (header ps : list Z) (front : list pe_section) : Prop :=
  length ps = length header /\
  (forall s i, s ∈ front -> covers s i -> 0 <= i -> i < Z.of_nat (length ps) ->
     ps !! Z.to_nat i = Some (section_protection (s_characteristics s))) /\
  (forall i, 0 <= i -> (forall s, s ∈ front -> ~ covers s i) -> ps !! Z.to_nat i = header !! Z.to_nat i).

Lemma painted_snoc header ps front s pages ps' count :
  painted header ps front -> count = Z.of_nat (length ps) ->
  (forall i, i ∈ pages <-> covers s i) -> (forall i, covers s i -> 0 <= i) ->
  paint pages (section_protection (s_characteristics s)) count ps = Some ps' ->
  painted header ps' (front ++ [s]).
Proof.
  intros (Hlen & Hcov & Hrest) Hcount Hpages Hpos Hpaint. apply paint_length in Hpaint as Hlen'.
  apply paint_spec in Hpaint as [Hnew Hprev]; [|by intros x Hx%Hpages; auto|done].
  split_and!.
  - by rewrite Hlen'.
  - intros s' i Hs' Hc Hi Hlt. rewrite Hnew by done. destruct (decide (i ∈ pages)) as [Hin|Hnin].
    + apply elem_of_app in Hs' as [Hs' | ->%list_elem_of_singleton]; [|done].
      specialize (Hcov s' i Hs' Hc Hi ltac:(lia)). specialize (Hprev i Hin).
      rewrite (list_lookup_total_correct _ _ _ Hcov) in Hprev.
      destruct Hprev as [Hz | ->]; [|done]. by destruct (section_protection_nonzero (s_characteristics s')).
    + apply elem_of_app in Hs' as [Hs' | ->%list_elem_of_singleton]; [apply Hcov; [done..|lia]|].
      by destruct Hnin; apply Hpages.
  - intros i Hi Hno. rewrite Hnew by done. rewrite decide_False.
    + apply Hrest; [done|]. intros s' Hs'. apply Hno. set_solver.
    + rewrite Hpages. apply Hno. set_solver.
Qed.

Section protections.
Context {allocator : Allocator} {platform : Platform}.
Context (im : image) (Him : image_ok false im).

Lemma load_sections_run bytes byte_count base count k i ps ps' header m m' :
  count = Z.of_nat (length ps) -> 0 <= i -> i + Z.of_nat k = section_count (i_summary im) ->
  painted header ps (take (Z.to_nat i) (i_sections im)) ->
  load_sections bytes byte_count im base count k i ps m = Ok ((GEM_PE_MATERIALIZE_OK, ps'), m') ->
  painted header ps' (i_sections im).
Proof.
  destruct (ok_section_count _ _ Him) as [Hsc _].
  revert i ps m. induction k as [|k IH]; intros i ps m Hcount Hi Hk Hp H; cbn [load_sections] in H.
  { injection H as <- _. rewrite take_ge in Hp by lia. done. }
  destruct (get_section_spec im i Him ltac:(lia)) as (s & Hs & Hg). rewrite Hg in H.
  apply list_elem_of_lookup_2 in Hs as Hin.
  destruct (section_fits im Him _ eq_refl s Hin) as (Hva & Hrs & Hfit).
  cbn [view_of v_virtual_address v_raw_size v_characteristics] in H.
  change (view_extent (view_of s)) with (section_virtual_extent s) in H.
  destruct (add_u64 _ _) as [e|] eqn:He; [|done]. unfold add_u64 in He.
  destruct (UINT64_MAX - section_virtual_extent s <? s_virtual_address s); [done|]. injection He as <-.
  destruct (_ <? _); [done|].
  destruct (paint _ _ _ _) as [ps1|] eqn:Hpaint; [|done].
  apply paint_length in Hpaint as Hlen1.
  assert (painted header ps1 (take (Z.to_nat (i + 1)) (i_sections im))) as Hp1.
  { replace (Z.to_nat (i + 1)) with (S (Z.to_nat i)) by lia. rewrite (take_S_r _ _ s) by done.
    eapply painted_snoc; [exact Hp|exact Hcount| | |exact Hpaint].
    - intros x. unfold pages_between, covers, wrap32. rewrite elem_of_seqZ.
      rewrite Z.mod_small; [|]; cycle 1.
      { pose proof (ok_size _ _ Him). unfold UINT32_MAX in *. split; [apply Z.div_pos; lia|].
        apply Z.div_lt_upper_bound; lia. }
      replace (s_virtual_address s + section_virtual_extent s + 4096 - 1)
        with (s_virtual_address s + section_virtual_extent s + 4095) by lia. lia.
    - intros x [Hx _]. pose proof (Z.div_pos (s_virtual_address s) 4096 Hva). lia. }
  assert (load_sections bytes byte_count im base count k (i + 1) ps1 m = Ok ((GEM_PE_MATERIALIZE_OK, ps'), m')
    -> painted header ps' (i_sections im)) as Hdone.
  { intros H1. eapply (IH (i + 1) ps1 m); try done; [by rewrite Hlen1|lia|lia]. }
  destruct (s_raw_size s =? 0); [by apply Hdone|].
  destruct (gem_pe_arm64x_rva_to_file_offset _ _ _ _) as [off| |]; [|done|done].
  destruct (_ || _); [done|]. apply bind_run in H as ([e b] & m1 & _ & H).
  destruct (bool_decide _); [|done]. eapply (IH (i + 1) ps1 m1); try done; [by rewrite Hlen1|lia|lia].
Qed.

End protections.

Section pages.
Context {platform : Platform}.

(** What one call of [gem_memory_protect] on a page does. *)
Lemma protect_page_run a prot m old m' :
  call (fun m => gem_memory_protect m a 4096 prot None) m = Ok ((GEM_MEMORY_OK, old), m') ->
  (exists p, m_pages m' !! a = Some p /\ p_protection p = prot /\ is_Some (p_backing p)) /\
  forall x, x <> a -> m_pages m' !! x = m_pages m !! x.
Proof.
  intros H. unfold gem_memory_protect in H. rewrite call_locked in H.
  split; [|intros x Hx; refine (proj1 (touching_protect (fun y => y = a) a 4096 prot None _ _ _ _ H) x Hx)].
  2:{ intros o Ho%elem_of_page_range. destruct Ho as [Ho Hom]. rewrite Z.sub_0_r in Hom.
      pose proof (Z.div_mod o 4096). lia. }
  unfold protect_locked in H. apply bind_get_run in H.
  destruct (check m a 4096 true) eqn:Hc; try done. destruct (negb (prot_ok prot)); [done|].
  apply check_OK in Hc as [_ Hc]. change (page_range 0 4096) with [0] in *.
  destruct (Hc 0 ltac:(set_solver)) as (p & Hp & Hb). specialize (Hb eq_refl). rewrite Z.add_0_r in Hp.
  apply bind_run in H as (first & m1 & H1 & H).
  pose proof (keeps_deref_page (fun m => m) _ _ _ _ H1) as Hm1. cbn in Hm1. subst m1.
  apply bind_run in H as (u & m2 & H2 & H). apply bind_run in H as (v & m3 & H3 & H). injection H as _ <-.
  cbn [for_each] in H2, H3. apply bind_run in H2 as (w & m4 & H2 & E). injection E as _ <-.
  apply bind_run in H3 as (w' & m5 & H3 & E). injection E as _ <-. rewrite Z.add_0_r in H2, H3.
  unfold modify_page, deref_page, put_page, mbind, M_bind, get, put, at_ in H2. rewrite Hp in H2.
  injection H2 as _ <-. unfold touch_page in H3. apply bind_run in H3 as (g & m5' & Hg & H3).
  pose proof (keeps_bump m_pages ltac:(done) _ _ _ Hg) as Hk. cbn in Hk.
  unfold modify_page, deref_page, put_page, mbind, M_bind, get, put, at_ in H3.
  rewrite Hk, lookup_insert_eq in H3. injection H3 as _ <-. cbn.
  eexists. rewrite lookup_insert_eq. split; [done|]. cbn. by split.
Qed.

Lemma protect_pages_run base i ps m m' :
  0 <= i -> protect_pages base i ps m = Ok (GEM_PE_MATERIALIZE_OK, m') ->
  (forall j prot, ps !! j = Some prot ->
     exists p, m_pages m' !! (base + (i + Z.of_nat j) * 4096) = Some p /\
       p_protection p = (if prot =? 0 then GEM_PAGE_NOACCESS else prot) /\ is_Some (p_backing p)) /\
  forall x, (x < base + i * 4096) -> m_pages m' !! x = m_pages m !! x.
Proof.
  revert i m. induction ps as [|prot ps IH]; intros i m Hi H; cbn [protect_pages] in H.
  { injection H as <-. by split. }
  apply bind_run in H as ([e old] & m1 & H1 & H). destruct (bool_decide _) eqn:He; [|done].
  apply bool_decide_eq_true in He as ->. apply protect_page_run in H1 as [Hp Hx].
  apply IH in H as [Hrest Hbelow]; [|lia]. split.
  - intros [|j] q Hj; cbn in Hj.
    + injection Hj as <-. rewrite Z.add_0_r. destruct Hp as (p & Hp & ? & ?). exists p.
      by rewrite Hbelow by lia.
    + destruct (Hrest j q Hj) as (p & Hpp & ?). exists p. split; [|done].
      rewrite <- Hpp. f_equal. lia.
  - intros x Hlt. rewrite Hbelow by lia. apply Hx. lia.
Qed.

Lemma header_protections_lookup headers count i :
  0 <= i < count -> 0 <= headers ->
  header_protections headers count !! Z.to_nat i =
    Some (if bool_decide (i * 4096 < headers) then GEM_PAGE_READONLY else 0).
Proof.
  intros Hi Hh. unfold header_protections.
  assert (i < (headers + 4096 - 1) / 4096 <-> i * 4096 < headers) as Hiff.
  { pose proof (Z.div_mod (headers + 4096 - 1) 4096). pose proof (Z.mod_pos_bound (headers + 4096 - 1) 4096). lia. }
  pose proof (Z.div_pos (headers + 4096 - 1) 4096).
  case_bool_decide as Hb.
  - rewrite lookup_app_l by (rewrite length_replicate; lia). apply lookup_replicate_2. lia.
  - rewrite lookup_app_r by (rewrite length_replicate; lia). rewrite length_replicate.
    apply lookup_replicate_2. lia.
Qed.
End pages.

Section results.
Context {allocator : Allocator} {platform : Platform}.


(** The steps of a successful run. *)
Lemma materialize_OK_run m b1 b2 bytes byte_count o out m' :
  materialize b1 b2 bytes byte_count o m = Ok ((GEM_PE_MATERIALIZE_OK, out), m') ->
  exists l o' im image_end m1, bytes = Some l /\ o = Some o' /\
    gem_pe_arm64x_parse (Some l) byte_count None true = Ok im /\
    out = Some (MaterializedImage im (image_base (i_summary im)) (size_of_image (i_summary im))) /\
    size_of_image (i_summary im) mod 4096 = 0 /\ size_of_headers (i_summary im) <= size_of_image (i_summary im) /\
    load_image l byte_count im (default [] (mo_bindings o')) (mo_binding_count o')
      (image_base (i_summary im)) (size_of_image (i_summary im)) (size_of_image (i_summary im) / 4096)
      image_end m1 = Ok (GEM_PE_MATERIALIZE_OK, m').
Proof.
  unfold materialize. intros H. destruct bytes as [l|]; [|done]. destruct o as [o|]; [|done].
  destruct (_ || _); [done|]. destruct (negb b1); [done|].
  destruct (gem_pe_arm64x_parse _ _ _ _) as [im|e|] eqn:Hp; [|done|done].
  destruct (mo_image_base o =? image_base (i_summary im)); cbn [negb] in H; [|done].
  destruct (add_u64 _ _) as [image_end|]; [|done].
  destruct (has_bits (image_base (i_summary im)) 4095 || _ || _ || _) eqn:Hg; [done|]. bool_to_Z.
  destruct (negb b2); [done|]. apply bind_run in H as ([e r] & m1 & _ & H).
  destruct (bool_decide (e = GEM_MEMORY_OK)); cbn [negb] in H; [|done].
  apply bind_run in H as (status & m2 & Hl & H).
  destruct (bool_decide (r = Some (image_base (i_summary im)))); cbn [negb] in Hl;
    [|injection Hl as <- <-; by apply bind_run in H as (? & ? & _ & H)].
  destruct status; try (by apply bind_run in H as (? & ? & _ & H)). injection H as <- <-.
  exists l, o, im, image_end, m1. split_and!; try done.
  match goal with H : has_bits (size_of_image _) 4095 = false |- _ =>
    rewrite has_bits_4095 in H; by apply negb_false_iff, Z.eqb_eq in H end.
Qed.

(** C33: final protections.  After a successful load every page of the image is
    committed; a page that sections meet has the protection each of them asks
    for (so sections that disagree about a page cannot have loaded), a page of
    the headers that no section meets is read-only, and every other page is
    inaccessible. *)
Theorem materialize_protections m b1 b2 bytes byte_count o out m' :
  arguments_ok bytes byte_count o ->
  gem_pe_arm64x_materialize_preferred b1 b2 (Some m) bytes byte_count o true
    = Ok ((GEM_PE_MATERIALIZE_OK, Some out), Some m') ->
  let im := mi_metadata out in
  forall i, 0 <= i < mi_size out / 4096 ->
  exists p, m_pages m' !! (mi_base out + i * 4096) = Some p /\ is_Some (p_backing p) /\
    (forall s, s ∈ i_sections im -> covers s i ->
       p_protection p = section_protection (s_characteristics s)) /\
    ((forall s, s ∈ i_sections im -> ~ covers s i) ->
       p_protection p = if bool_decide (i * 4096 < size_of_headers (i_summary im))
                        then GEM_PAGE_READONLY else GEM_PAGE_NOACCESS).
Proof.
  intros Ha H im i Hi. unfold gem_pe_arm64x_materialize_preferred in H. cbn [negb] in H.
  apply locked_run in H.
  apply materialize_OK_run in H as (l & o' & im' & image_end & m1 & -> & -> & Hp & [= ->] & Hnm & Hh & H).
  subst im. cbn [mi_metadata mi_base mi_size] in *. destruct Ha as [[Hu8 Hlen] _].
  pose proof (parse_image_safe l byte_count 0 false None true Hu8 Hlen) as Him.
  unfold gem_pe_arm64x_parse in Hp. rewrite Hp in Him. destruct Him as (Him & _).
  pose proof (ok_size _ _ Him) as Hsize. destruct (ok_headers _ _ Him) as (Hhp & _ & Hhs).
  pose proof (Z.div_mod (size_of_image (i_summary im')) 4096) as Hdm.
  unfold load_image in H. apply bind_run in H as (e & m2 & _ & H). destruct (bool_decide _); [|done].
  cbn [negb] in H. apply bind_run in H as ([e1 b] & m3 & _ & H). destruct (bool_decide _); [|done].
  cbn [negb] in H. apply bind_run in H as ([status ps] & m4 & Hs & H). destruct status; try done.
  apply bind_run in H as (status & m5 & _ & H). destruct status; try done.
  set (header := header_protections (size_of_headers (i_summary im')) (size_of_image (i_summary im') / 4096)) in *.
  assert (length header = Z.to_nat (size_of_image (i_summary im') / 4096)) as Hlh.
  { apply header_protections_length; lia. }
  assert (painted header ps (i_sections im')) as (Hpl & Hcov & Hrest).
  { eapply (load_sections_run im' Him); [|reflexivity| | |exact Hs]; [lia| |].
    - cbn [gem_pe_arm64x_section_count]. destruct (ok_section_count _ _ Him). lia.
    - split; [done|]. split; [|done]. intros s j Hs'. by apply not_elem_of_nil in Hs'. }
  apply protect_pages_run in H as [Hpages _]; [|lia].
  destruct (lookup_lt_is_Some_2 ps (Z.to_nat i)) as [prot Hprot]; [lia|].
  destruct (Hpages _ _ Hprot) as (p & Hpp & Hpr & Hb).
  replace (0 + Z.of_nat (Z.to_nat i)) with i in Hpp by lia.
  exists p. split_and!; [done|done| |].
  - intros s Hin Hc. specialize (Hcov s i Hin Hc ltac:(lia) ltac:(lia)). rewrite Hcov in Hprot.
    injection Hprot as <-. rewrite Hpr. by rewrite (proj2 (Z.eqb_neq _ _) (section_protection_nonzero _)).
  - intros Hno. specialize (Hrest i ltac:(lia) Hno). rewrite Hrest in Hprot.
    unfold header in Hprot. rewrite header_protections_lookup in Hprot by lia. injection Hprot as <-.
    rewrite Hpr. by case_bool_decide.
Qed.
End results.

(** ** Concrete runs *)

Definition sample_options (base : Z) : materialize_options :=
  MaterializeOptions 1 0 base (Some [Binding 0x2180 0x7000]) 1.

Lemma sample_arguments : arguments_ok (Some sample_pe) 0x600 (Some (sample_options 0x180000000)).
Proof.
  split; [split; [exact sample_bytes|exact sample_length]|]. split; [vm_compute; congruence|].
  intros bs [= <-]. vm_compute. congruence.
Qed.


(** A successful load: code is executable, data is not writable. *)
Lemma materialize_protections_witness :
  exists out m', gem_pe_arm64x_materialize_preferred (allocator := generous) (platform := plenty 64) true true
      (Some (created (H := plenty 64))) (Some sample_pe) 0x600 (Some (sample_options 0x180000000)) true
      = Ok ((GEM_PE_MATERIALIZE_OK, Some out), Some m') /\
    mi_metadata out = sample_image /\
    exists p, m_pages m' !! 0x180001000 = Some p /\ p_protection p = GEM_PAGE_EXECUTE_READ.
Proof.
  assert (exists m', gem_pe_arm64x_materialize_preferred (allocator := generous) (platform := plenty 64)
      true true (Some (created (H := plenty 64))) (Some sample_pe) 0x600
      (Some (sample_options 0x180000000)) true
      = Ok ((GEM_PE_MATERIALIZE_OK, Some (MaterializedImage sample_image 0x180000000 0x3000)), Some m'))
    as (m' & E) by (eexists; vm_compute; reflexivity).
  eexists _, m'. split; [exact E|]. split; [reflexivity|].
  destruct (materialize_protections (allocator := generous) (platform := plenty 64)
    (created (H := plenty 64)) true true (Some sample_pe) 0x600 (Some (sample_options 0x180000000)) _ _
    sample_arguments E 1) as (p & Hp & _ & Hs & _).
  - vm_compute. split; congruence.
  - exists p. split; [exact Hp|].
    apply (Hs (Section_ 0x1000 0x800 0x200 0x200 0x60000020)).
    + vm_compute. left.
    + vm_compute. split; congruence.
Defined.

(** The sample with a preferred base of zero. *)
Definition zero_base_pe : list Z :=
  patch 112 (u32s [0; 0]) $ patch 0x4c8 (u32s [0x20d0; 0]) sample_pe.

(** An image whose preferred base is zero leaks its reservation: address
    zero asks [gem_memory_reserve] for any address, the load then fails because
    the address differs, and the release names the preferred base instead of the
    one reserved, so the reservation stays. *)
Theorem materialize_base_zero :
  exists m', gem_pe_arm64x_materialize_preferred (allocator := generous) (platform := plenty 64) true true
      (Some (created (H := plenty 64))) (Some zero_base_pe) 0x600 (Some (sample_options 0)) true
      = Ok ((GEM_PE_MATERIALIZE_MEMORY_ERROR, None), Some m') /\
    layout (created (H := plenty 64)) !! 0x100000000 = None /\
    layout m' !! 0x100000000 = Some (0x100000000, 0x3000).
Proof.
  eexists. split; [vm_compute; reflexivity|]. split; vm_compute; reflexivity.
Qed.
