(* ===== verification/Control.v ===== *)
(** Control: function bodies with a state of their own, early returns, and loops
    that may not end, over the memory monad [M].

    The engines and coordinators update several objects through pointers and
    return from the middle of loops.  A body is a [K S R A]: it runs in a state
    [S], over guest memory, and either goes on with an [A] or returns an [R]
    from the function.  Its outcome [None] says that the fuel of a loop ended.
    [kwp] is the weakest precondition, which the rules below compute. *)
From S2P Require Import Prelude MemoryModel MemoryLogic.

Definition K (S R A : Type) : Type := S -> M (option ((R + A) * S)).

#[export] Instance K_ret {S R} : MRet (K S R) := fun A a s => mret (Some (inr a, s)).
#[export] Instance K_bind {S R} : MBind (K S R) := fun A B f k s =>
  o ← k s;
  match o with
  | None => mret None
  | Some (inl r, s) => mret (Some (inl r, s))
  | Some (inr a, s) => f a s
  end.

Section control.
Context {S R : Type}.

(** [return r;] *)
Definition return_ {A} (r : R) : K S R A := fun s => mret (Some (inl r, s)).

(** What the state holds, and an assignment to it. *)
Definition gets {A} (f : S -> A) : K S R A := fun s => mret (Some (inr (f s), s)).
Definition modify (f : S -> S) : K S R unit := fun s => mret (Some (inr tt, f s)).

(** A call that only works on guest memory. *)
Definition lift {A} (f : M A) : K S R A := fun s => a ← f; mret (Some (inr a, s)).

(** The fuel of a loop ended. *)
Definition stuck {A} : K S R A := fun _ => mret None.

(** [if (b) k;] *)
Definition when (b : bool) (k : K S R unit) : K S R unit := if b then k else mret tt.

(** The function whose body is [k]. *)
Definition body (k : K S R R) : S -> M (option (R * S)) := fun s =>
  o ← k s;
  mret (match o with
        | None => None
        | Some (inl r, s) | Some (inr r, s) => Some (r, s)
        end).

(** ** The rules *)

(** [live] says whether a loop may run out of fuel. *)
Definition kwp {A} (live : Prop) (k : K S R A) (Q : A -> S -> mem -> Prop)
    (E : R -> S -> mem -> Prop) (s : S) (m : mem) : Prop :=
  match k s m with
  | Ok (Some (inr a, s'), m') => Q a s' m'
  | Ok (Some (inl r, s'), m') => E r s' m'
  | Ok (None, _) => live
  | Err _ => True
  | Fault => False
  end.

Section rules.
Context {A B : Type} (live : Prop).
Implicit Types (Q : A -> S -> mem -> Prop) (E : R -> S -> mem -> Prop).

Lemma kwp_ret a Q E s m : Q a s m -> kwp live (mret a) Q E s m.
Proof. done. Qed.

Lemma kwp_return r Q E s m : E r s m -> kwp live (return_ r) Q E s m.
Proof. done. Qed.

Lemma kwp_gets f Q E s m : Q (f s) s m -> kwp live (gets f) Q E s m.
Proof. done. Qed.

Lemma kwp_bind (k : K S R B) (f : B -> K S R A) Q E s m :
  kwp live k (fun b => kwp live (f b) Q E) E s m -> kwp live (k ≫= f) Q E s m.
Proof.
  unfold kwp, mbind, K_bind, mbind, M_bind.
  destruct (k s m) as [[[[[r|b] s']|] m']| |]; done.
Qed.

Lemma kwp_mono k Q Q' E E' s m :
  kwp live k Q E s m -> (forall a s' m', Q a s' m' -> Q' a s' m') ->
  (forall r s' m', E r s' m' -> E' r s' m') -> kwp live k Q' E' s m.
Proof. unfold kwp. destruct (k s m) as [[[[[r|b] s']|] m']| |]; auto. Qed.

(** A call on guest memory, through its triple. *)
Lemma kwp_lift (f : M A) P T Q E s m :
  triple P f T -> P m -> (forall a m', T a m' -> Q a s m') -> kwp live (lift f) Q E s m.
Proof.
  intros Hf Hm HQ. specialize (Hf m Hm). unfold kwp, lift, mbind, M_bind.
  destruct (f m) as [[a m']| |]; [by apply HQ|done..].
Qed.
End rules.

Lemma kwp_modify live f Q E s m : Q tt (f s) m -> kwp live (modify f) Q E s m.
Proof. done. Qed.

Lemma kwp_when live b k Q E s m :
  (b = true -> kwp live k Q E s m) -> (b = false -> Q tt s m) -> kwp live (when b k) Q E s m.
Proof. intros H1 H2. destruct b; [by apply H1|by apply H2]. Qed.

(** What a function's body returns. *)
Lemma kwp_body live (k : K S R R) E s m :
  kwp live k E E s m ->
  match body k s m with
  | Ok (Some (r, s'), m') => E r s' m'
  | Ok (None, _) => live
  | Err _ => True
  | Fault => False
  end.
Proof.
  unfold kwp, body, mbind, M_bind. by destruct (k s m) as [[[[[r|r] s']|] m']| |].
Qed.
End control.

(** ** Calls into functions with another state *)

(** The part [T] of the state that a callee works on. *)
Definition zoom {S T R A} (get : S -> T) (set : S -> T -> S) (f : T -> M (option (A * T))) : K S R A :=
  fun s =>
    o ← f (get s);
    mret (match o with
          | None => None
          | Some (a, t) => Some (inr a, set s t)
          end).

Lemma kwp_zoom {S T R A} live (get : S -> T) set (f : T -> M (option (A * T)))
    (Q : A -> S -> mem -> Prop) (E : R -> S -> mem -> Prop) s m :
  match f (get s) m with
  | Ok (Some (a, t), m') => Q a (set s t) m'
  | Ok (None, _) => live
  | Err _ => True
  | Fault => False
  end ->
  kwp live (zoom get set f) Q E s m.
Proof.
  unfold kwp, zoom, mbind, M_bind. by destruct (f (get s) m) as [[[[a t]|] m']| |].
Qed.

(** Steps through a body up to the next call or branch. *)
Ltac kstep :=
  first
  [ apply kwp_bind
  | apply kwp_ret
  | apply kwp_return
  | apply kwp_gets
  | apply kwp_modify
  | apply kwp_when; intros ? ]; cbv beta.

(** A public call of memory.c on the object in hand. *)
Definition in_memory {A} (f : option mem -> result unit (A * option mem)) : M A := fun m =>
  match f (Some m) with
  | Ok (a, Some m) => Ok (a, m)
  | Ok (_, None) => Fault
  | Err e => Err e
  | Fault => Fault
  end.
