(* ===== verification/Dynarmic.v ===== *)
(** Dynarmic: the interface of the recompiler that executes ARM64 instructions,
    as arm64ec_dynarmic.cpp uses it.

    Dynarmic is third-party code, so it is a parameter: the class [Dynarmic].
    [Run] and [Step] call back into [Environment] any number of times, going on
    with the answer and with the halt word, which a callback may set; such a call
    is therefore the finite tree of the callbacks it makes. *)
From S2P Require Import Prelude Context MemoryModel.

(** [struct CpuSnapshot]: what [GetRegisters], [GetVectors], ... return. *)
Record CpuSnapshot : Type := Cpu {
  cpu_regs : list Z;
  cpu_vectors : list gem_u128;
  cpu_sp : Z;
  cpu_pc : Z;
  cpu_pstate : Z;
  cpu_fpcr : Z;
  cpu_fpsr : Z }.

Definition with_cpu_pc (c : CpuSnapshot) (pc : Z) : CpuSnapshot :=
  Cpu (cpu_regs c) (cpu_vectors c) (cpu_sp c) pc (cpu_pstate c) (cpu_fpcr c) (cpu_fpsr c).

(** The registers as the C types of the getters hold them: 31 and 32 registers
    of 64 and 128 bits, and the other fields of their widths. *)
Definition cpu_typed (c : CpuSnapshot) : CpuSnapshot :=
  Cpu ((fun i => wrap64 (cpu_regs c !!! i)) <$> seq 0 31)
    ((fun i => u128_typed (cpu_vectors c !!! i)) <$> seq 0 32)
    (wrap64 (cpu_sp c)) (wrap64 (cpu_pc c)) (wrap32 (cpu_pstate c)) (wrap32 (cpu_fpcr c))
    (wrap32 (cpu_fpsr c)).

Inductive a64_exception : Type :=
  | NoExecuteFault
  | Breakpoint
  | Yield
  | UnallocatedEncoding
  | ReservedValue
  | UnpredictableInstruction
  | WaitForInterrupt
  | WaitForEvent
  | SendEvent
  | SendEventLocal
  | OtherException (value : Z).

Inductive data_cache_operation : Type :=
  | ZeroByVA
  | OtherDataCacheOperation.

(** The width of a scalar access, in bytes. *)
Inductive access_width : Type := Width8 | Width16 | Width32 | Width64.
Definition width_bytes (w : access_width) : nat :=
  match w with Width8 => 1 | Width16 => 2 | Width32 => 4 | Width64 => 8 end.

(** A call of [Run] or [Step].  Every continuation takes the halt word last. *)
Inductive jit_call (A : Type) : Type :=
  | JitDone (a : A)
  | JitReadCode (va : Z) (k : option Z -> Z -> jit_call A)
  | JitRead (w : access_width) (va : Z) (k : Z -> Z -> jit_call A)
  | JitRead128 (va : Z) (k : gem_u128 -> Z -> jit_call A)
  | JitWrite (w : access_width) (va value : Z) (k : Z -> jit_call A)
  | JitWrite128 (va : Z) (value : gem_u128) (k : Z -> jit_call A)
  | JitWriteExclusive (w : access_width) (va value expected : Z) (k : bool -> Z -> jit_call A)
  | JitWriteExclusive128 (va : Z) (value expected : gem_u128) (k : bool -> Z -> jit_call A)
  | JitInterpreterFallback (pc : Z) (k : Z -> jit_call A)
  | JitCallSVC (swi pc : Z) (k : Z -> jit_call A)
  | JitException (pc : Z) (e : a64_exception) (k : Z -> jit_call A)
  | JitDataCache (op : data_cache_operation) (va : Z) (k : Z -> jit_call A)
  | JitInstructionCache (k : Z -> jit_call A)
  | JitAddTicks (n : Z) (k : Z -> jit_call A)
  | JitTicksRemaining (k : Z -> Z -> jit_call A)
  | JitCNTPCT (k : Z -> Z -> jit_call A).
Arguments JitDone {_} _.
Arguments JitReadCode {_} _ _.
Arguments JitRead {_} _ _ _.
Arguments JitRead128 {_} _ _.
Arguments JitWrite {_} _ _ _ _.
Arguments JitWrite128 {_} _ _ _.
Arguments JitWriteExclusive {_} _ _ _ _ _.
Arguments JitWriteExclusive128 {_} _ _ _ _.
Arguments JitInterpreterFallback {_} _ _.
Arguments JitCallSVC {_} _ _ _.
Arguments JitException {_} _ _ _.
Arguments JitDataCache {_} _ _ _.
Arguments JitInstructionCache {_} _.
Arguments JitAddTicks {_} _ _.
Arguments JitTicksRemaining {_} _.
Arguments JitCNTPCT {_} _.

(** What [Run] or [Step] leaves: the recompiler, the registers, the halt word
    and the [HaltReason] it returns. *)
Record jit_result (core : Type) : Type := JitResult {
  jr_core : core;
  jr_cpu : CpuSnapshot;
  jr_halts : Z;
  jr_halt : Z }.
Arguments JitResult {_} _ _ _ _.
Arguments jr_core {_} _.
Arguments jr_cpu {_} _.
Arguments jr_halts {_} _.
Arguments jr_halt {_} _.

Class Dynarmic : Type := {
  (** a [Dynarmic::A64::Jit] with its code cache and exclusive monitor *)
  dyn_core : Type;
  (** [None] when construction throws; the argument is [all_safe_optimizations] *)
  jit_new : bool -> option (dyn_core * CpuSnapshot);
  jit_Run : dyn_core -> CpuSnapshot -> Z -> jit_call (jit_result dyn_core);
  jit_Step : dyn_core -> CpuSnapshot -> Z -> jit_call (jit_result dyn_core);
  jit_Reset : dyn_core -> CpuSnapshot -> dyn_core * CpuSnapshot;
  jit_ClearCache : dyn_core -> dyn_core;
  jit_ClearExclusiveState : dyn_core -> dyn_core;
  monitor_Clear : dyn_core -> dyn_core;
  (** the members of [Dynarmic::HaltReason] the adapter uses *)
  HaltStep : Z;
  HaltCacheInvalidation : Z;
  HaltMemoryAbort : Z;
  HaltUserDefined1 : Z;
  HaltUserDefined2 : Z;
  HaltUserDefined3 : Z;
  (** [static_cast<uint32_t>(exception)] *)
  exception_value : a64_exception -> Z;
  (** whether the build uses a system library, and the decoder's answer on an
      instruction word: whether it names a forbidden register *)
  dynarmic_system : bool;
  decode_forbidden : Z -> option bool }.
