(* ===== verification/Arm64ecEngine.v ===== *)
(** Arm64ecEngine: the ARM64EC engine (src/gem/arm64ec_engine.c) and its adapter
    to the recompiler (src/gem/arm64ec_dynarmic.cpp).

    [Environment] answers the recompiler's callbacks from guest memory and
    remembers the first event that must stop the guest.  [gem_arm64ec_dynarmic_run]
    runs translated segments (SVC-trap delivery), then one native block, then
    single instructions, and asks the boundary broker at architectural
    boundaries.  The broker is a function over what its opaque pointer
    designates, the type [S]; the loop over translated segments has fuel, since a
    broker may resume for ever.  The halt word of the attached recompiler is a
    field of the environment. *)
From S2P Require Import Prelude Context MemoryModel Memory MemoryLogic Pe Target Control Dynarmic Blink X64Engine.

Definition GEM_ARM64EC_DEFAULT_HOST_RETURN_SENTINEL : Z := 0xfffffffffffffff0.
Definition GEM_ARM64EC_DEFAULT_ARCH_TRANSITION_SENTINEL : Z := 0xffffffffffffffe0.
Definition GEM_ARM64EC_BOUNDARY_SVC : Z := 0x474d.

(** [enum gem_arm64ec_boundary_kind] *)
Definition GEM_ARM64EC_BOUNDARY_CHECK_ICALL : Z := 1.
Definition GEM_ARM64EC_BOUNDARY_CHECK_ICALL_CFG : Z := 2.
Definition GEM_ARM64EC_BOUNDARY_DISPATCH_CALL : Z := 3.
Definition GEM_ARM64EC_BOUNDARY_DISPATCH_RETURN : Z := 4.

(** [enum gem_arm64ec_boundary_action] *)
Definition GEM_ARM64EC_BOUNDARY_NOT_HANDLED : Z := 0.
Definition GEM_ARM64EC_BOUNDARY_RESUME : Z := 1.
Definition GEM_ARM64EC_BOUNDARY_STOP : Z := 2.
Definition GEM_ARM64EC_BOUNDARY_FAIL : Z := 3.

(** [enum gem_arm64ec_memory_access] *)
Definition GEM_ARM64EC_ACCESS_NONE : Z := 0.
Definition GEM_ARM64EC_ACCESS_FETCH : Z := 1.
Definition GEM_ARM64EC_ACCESS_READ : Z := 2.
Definition GEM_ARM64EC_ACCESS_WRITE : Z := 3.

(** [enum gem_arm64ec_execution_profile], [enum gem_arm64ec_boundary_delivery] *)
Definition GEM_ARM64EC_PROFILE_STRICT : Z := 0.
Definition GEM_ARM64EC_PROFILE_NATIVE_ARM64 : Z := 1.
Definition GEM_ARM64EC_BOUNDARY_PRECISE : Z := 0.
Definition GEM_ARM64EC_BOUNDARY_SVC_TRAP : Z := 1.

Definition kNzcvMask : Z := 0xf0000000.
Definition kDczvaBytes : nat := 64.
Definition kMetadataRedirection : Z := 0x52454449.
Definition kInvariantTebMetadataRedirect : Z := 0x54454201.
Definition kInvariantTebBoundary : Z := 0x54454202.
Definition kInvariantTebBudget : Z := 0x54454203.
Definition kInvariantTebRunExit : Z := 0x54454204.

Record gem_arm64ec_runtime_config : Type := Arm64ecConfig {
  ac_host_return_sentinel : Z;
  ac_arch_transition_sentinel : Z;
  ac_max_budget : Z;
  ac_max_transitions : Z;
  ac_execution_profile : Z;
  ac_boundary_delivery : Z }.

Record gem_arm64ec_stop_info : Type := Arm64ecStopInfo {
  ai_reason : gem_stop_reason;
  ai_instructions_retired : Z;
  ai_fault_address : Z;
  ai_access : Z;
  ai_memory_error : Z;
  ai_engine_status : Z }.

Definition arm64ec_stop_zero : gem_arm64ec_stop_info := Arm64ecStopInfo GEM_STOP_NONE 0 0 0 0 0.

(** The status as its integer. *)
Definition target_status_value (s : gem_arm64ec_target_status) : Z :=
  match s with
  | GEM_ARM64EC_TARGET_OK => 0
  | GEM_ARM64EC_TARGET_INVALID_ARGUMENT => 1
  | GEM_ARM64EC_TARGET_OVERFLOW => 2
  | GEM_ARM64EC_TARGET_OUTSIDE_IMAGE => 3
  | GEM_ARM64EC_TARGET_NOT_EXECUTABLE => 4
  | GEM_ARM64EC_TARGET_MALFORMED_METADATA => 5
  | GEM_ARM64EC_TARGET_MISALIGNED => 6
  | GEM_ARM64EC_TARGET_MEMORY_FAULT => 7
  | GEM_ARM64EC_TARGET_CFG_DENIED => 8
  | GEM_ARM64EC_TARGET_DESCRIPTOR_UNSUPPORTED => 9
  | GEM_ARM64EC_TARGET_RELOCATION_UNSUPPORTED => 10
  end.

Definition is_native (c : gem_arm64ec_runtime_config) : bool :=
  ac_execution_profile c =? GEM_ARM64EC_PROFILE_NATIVE_ARM64.
Definition is_svc_trap (c : gem_arm64ec_runtime_config) : bool :=
  ac_boundary_delivery c =? GEM_ARM64EC_BOUNDARY_SVC_TRAP.

(** [gem_arm64ec_target_resolve_fn] with its opaque pointer. *)
Definition target_resolve_fn : Type := Z -> target_status target_result.

(** A call that returns a status and, on OK, stores a target. *)
Definition target_call {A} (r : target_status A) : M (gem_arm64ec_target_status + A) :=
  match r with Ok a => mret (inr a) | Err e => mret (inl e) | Fault => fault end.

(** [gem_arm64ec_boundary_fn]: the PC, the context and [*out_kind] go in; the
    action, [*out_kind], the context and the opaque object come out. *)
Definition boundary_fn (S : Type) : Type :=
  Z -> gem_thread_context -> Z -> S -> M (Z * Z * gem_thread_context * S).

(** ** The environment of the recompiler *)

Record environment : Type := Env {
  e_pending_reason : gem_stop_reason;
  e_pending_access : Z;
  e_pending_memory_error : gem_memory_error;
  e_pending_fault_address : Z;
  e_pending_engine_status : Z;
  e_cache_dirty : bool;
  e_cntpct : Z;
  e_deferred_guard : bool;
  e_ticks_left : Z;
  e_halts : Z }.

Definition ResetInstruction (e : environment) : environment :=
  Env GEM_STOP_NONE GEM_ARM64EC_ACCESS_NONE GEM_MEMORY_OK 0 0 false (e_cntpct e)
    (e_deferred_guard e) 1 (e_halts e).
Definition ResetRun (e : environment) : environment :=
  Env GEM_STOP_NONE GEM_ARM64EC_ACCESS_NONE GEM_MEMORY_OK 0 0 false 0 (e_deferred_guard e) 1
    (e_halts e).
Definition SetDeferredGuard (deferred : bool) (e : environment) : environment :=
  Env (e_pending_reason e) (e_pending_access e) (e_pending_memory_error e)
    (e_pending_fault_address e) (e_pending_engine_status e) (e_cache_dirty e) (e_cntpct e)
    deferred (e_ticks_left e) (e_halts e).
Definition SetTickBudget (ticks : Z) (e : environment) : environment :=
  Env (e_pending_reason e) (e_pending_access e) (e_pending_memory_error e)
    (e_pending_fault_address e) (e_pending_engine_status e) (e_cache_dirty e) (e_cntpct e)
    (e_deferred_guard e) ticks (e_halts e).
Definition set_cntpct (cntpct : Z) (e : environment) : environment :=
  Env (e_pending_reason e) (e_pending_access e) (e_pending_memory_error e)
    (e_pending_fault_address e) (e_pending_engine_status e) (e_cache_dirty e) cntpct
    (e_deferred_guard e) (e_ticks_left e) (e_halts e).
Definition set_cache_dirty (dirty : bool) (e : environment) : environment :=
  Env (e_pending_reason e) (e_pending_access e) (e_pending_memory_error e)
    (e_pending_fault_address e) (e_pending_engine_status e) dirty (e_cntpct e)
    (e_deferred_guard e) (e_ticks_left e) (e_halts e).
Definition set_halts (halts : Z) (e : environment) : environment :=
  Env (e_pending_reason e) (e_pending_access e) (e_pending_memory_error e)
    (e_pending_fault_address e) (e_pending_engine_status e) (e_cache_dirty e) (e_cntpct e)
    (e_deferred_guard e) (e_ticks_left e) halts.

(** [AddTicks] *)
Definition AddTicks (ticks : Z) (e : environment) : environment :=
  SetTickBudget (if e_ticks_left e <? ticks then 0 else e_ticks_left e - ticks) e.

(** [IsBrk] and [IsUdf], on an instruction word. *)
Definition IsBrk (word : Z) : bool := (word .& 0xffe0001f) =? 0xd4200000.
Definition IsUdf (word : Z) : bool := (word .& 0xffff0000) =? 0.

Section engine.
Context {platform : Platform} {dynarmic : Dynarmic}.

(** [jit->HaltExecution(flag)] *)
Definition HaltExecution (flag : Z) (e : environment) : environment :=
  set_halts (e_halts e .| flag) e.

Definition SetFault (va access : Z) (error : gem_memory_error) (e : environment) : environment :=
  HaltExecution HaltMemoryAbort
    (if bool_decide (e_pending_reason e = GEM_STOP_NONE)
     then Env GEM_STOP_MEMORY_FAULT access error va (memory_error_value error) (e_cache_dirty e)
            (e_cntpct e) (e_deferred_guard e) (e_ticks_left e) (e_halts e)
     else e).

Definition SetStop (reason : gem_stop_reason) (address status : Z) (e : environment) : environment :=
  HaltExecution HaltUserDefined1
    (if bool_decide (e_pending_reason e = GEM_STOP_NONE)
     then Env reason (e_pending_access e) (e_pending_memory_error e) address status
            (e_cache_dirty e) (e_cntpct e) (e_deferred_guard e) (e_ticks_left e) (e_halts e)
     else e).

(** [HasForbiddenArm64ecRegister] *)
Definition HasForbiddenArm64ecRegister (word : Z) : bool :=
  dynarmic_system || default true (decode_forbidden word).

Section runtime.
Context {S : Type}.

(** [struct Backend]: the environment, the recompiler and its registers. *)
Record backend : Type := Backend {
  bk_env : environment;
  bk_core : dyn_core;
  bk_cpu : CpuSnapshot }.

Record gem_arm64ec_runtime : Type := Arm64ecRuntime {
  ar_config : gem_arm64ec_runtime_config;
  ar_last_stop : gem_arm64ec_stop_info;
  ar_target_map : option target_map;
  ar_target_resolver : option target_resolve_fn;
  ar_boundary_broker : option (boundary_fn S);
  ar_boundary_return_pc : Z;
  ar_transition_count : Z;
  ar_native_upper_simd : list gem_u128;
  ar_running : bool;
  ar_backend : option backend }.

Definition set_ar_last_stop (r : gem_arm64ec_runtime) (i : gem_arm64ec_stop_info) : gem_arm64ec_runtime :=
  Arm64ecRuntime (ar_config r) i (ar_target_map r) (ar_target_resolver r) (ar_boundary_broker r)
    (ar_boundary_return_pc r) (ar_transition_count r) (ar_native_upper_simd r) (ar_running r)
    (ar_backend r).
Definition set_ar_target_map (r : gem_arm64ec_runtime) (map : option target_map) : gem_arm64ec_runtime :=
  Arm64ecRuntime (ar_config r) (ar_last_stop r) map (ar_target_resolver r) (ar_boundary_broker r)
    (ar_boundary_return_pc r) (ar_transition_count r) (ar_native_upper_simd r) (ar_running r)
    (ar_backend r).
Definition set_ar_target_resolver (r : gem_arm64ec_runtime) (f : option target_resolve_fn)
    : gem_arm64ec_runtime :=
  Arm64ecRuntime (ar_config r) (ar_last_stop r) (ar_target_map r) f (ar_boundary_broker r)
    (ar_boundary_return_pc r) (ar_transition_count r) (ar_native_upper_simd r) (ar_running r)
    (ar_backend r).
Definition set_ar_boundary_broker (r : gem_arm64ec_runtime) (f : option (boundary_fn S))
    : gem_arm64ec_runtime :=
  Arm64ecRuntime (ar_config r) (ar_last_stop r) (ar_target_map r) (ar_target_resolver r) f
    (ar_boundary_return_pc r) (ar_transition_count r) (ar_native_upper_simd r) (ar_running r)
    (ar_backend r).
Definition set_ar_boundary_return_pc (r : gem_arm64ec_runtime) (pc : Z) : gem_arm64ec_runtime :=
  Arm64ecRuntime (ar_config r) (ar_last_stop r) (ar_target_map r) (ar_target_resolver r)
    (ar_boundary_broker r) pc (ar_transition_count r) (ar_native_upper_simd r) (ar_running r)
    (ar_backend r).
Definition set_ar_transition_count (r : gem_arm64ec_runtime) (n : Z) : gem_arm64ec_runtime :=
  Arm64ecRuntime (ar_config r) (ar_last_stop r) (ar_target_map r) (ar_target_resolver r)
    (ar_boundary_broker r) (ar_boundary_return_pc r) n (ar_native_upper_simd r) (ar_running r)
    (ar_backend r).
Definition set_ar_native_upper_simd (r : gem_arm64ec_runtime) (v : list gem_u128) : gem_arm64ec_runtime :=
  Arm64ecRuntime (ar_config r) (ar_last_stop r) (ar_target_map r) (ar_target_resolver r)
    (ar_boundary_broker r) (ar_boundary_return_pc r) (ar_transition_count r) v (ar_running r)
    (ar_backend r).
Definition set_ar_running (r : gem_arm64ec_runtime) (b : bool) : gem_arm64ec_runtime :=
  Arm64ecRuntime (ar_config r) (ar_last_stop r) (ar_target_map r) (ar_target_resolver r)
    (ar_boundary_broker r) (ar_boundary_return_pc r) (ar_transition_count r)
    (ar_native_upper_simd r) b (ar_backend r).
Definition set_ar_backend (r : gem_arm64ec_runtime) (b : option backend) : gem_arm64ec_runtime :=
  Arm64ecRuntime (ar_config r) (ar_last_stop r) (ar_target_map r) (ar_target_resolver r)
    (ar_boundary_broker r) (ar_boundary_return_pc r) (ar_transition_count r)
    (ar_native_upper_simd r) (ar_running r) b.

(** ** The callbacks *)

Definition ResolveTarget (r : gem_arm64ec_runtime) (requested : Z)
  : M (gem_arm64ec_target_status + target_result) :=
  match ar_target_resolver r, ar_target_map r with
  | Some resolver, _ => target_call (resolver requested)
  | None, Some map => target_call (gem_arm64ec_target_resolve (Some map) requested true)
  | None, None => mret (inl GEM_ARM64EC_TARGET_OUTSIDE_IMAGE)
  end.

(** The kind of code an address holds when no metadata says. *)
Definition default_kind (c : gem_arm64ec_runtime_config) : gem_arm64ec_target_kind :=
  if is_native c then GEM_ARM64EC_TARGET_ARM64 else GEM_ARM64EC_TARGET_ARM64EC.

Definition has_metadata (r : gem_arm64ec_runtime) : bool :=
  negb (bool_decide (ar_target_map r = None)) ||
  match ar_target_resolver r with Some _ => true | None => false end.

(** The four bytes of an instruction. *)
Definition fetch_word (va : Z) : M (gem_memory_error * Z) :=
  '(error, bytes) ← in_memory (fun m => gem_memory_fetch m va (Some (replicate 4 0)) 4);
  mret (error, le_value (default [] bytes)).

(** What metadata says of a fetch: go on with a kind, or the stop it causes. *)
Definition fetch_target (r : gem_arm64ec_runtime) (va : Z)
  : M (gem_arm64ec_target_kind + (gem_stop_reason * Z * Z)) :=
  if negb (has_metadata r) then mret (inl (default_kind (ar_config r)))
  else
    t ← ResolveTarget r va;
    mret (match t with
          | inl status =>
            inr (GEM_STOP_INVARIANT_VIOLATION, va, target_status_value status)
          | inr target =>
            if negb (resolved_va target =? va) ||
               bool_decide (kind target = GEM_ARM64EC_TARGET_X64_BOUNDARY)
            then inr (GEM_STOP_ARCH_TRANSITION, resolved_va target,
                      if negb (resolved_va target =? va) &&
                         negb (bool_decide (kind target = GEM_ARM64EC_TARGET_X64_BOUNDARY))
                      then kMetadataRedirection
                      else target_status_value GEM_ARM64EC_TARGET_OK)
            else inl (kind target)
          end).

Definition MemoryReadCode (r : gem_arm64ec_runtime) (va : Z) (e : environment)
  : M (option Z * environment) :=
  if va =? ac_host_return_sentinel (ar_config r)
  then mret (None, SetStop GEM_STOP_HOST_RETURN va 0 e)
  else if va =? ac_arch_transition_sentinel (ar_config r)
  then mret (None, SetStop GEM_STOP_ARCH_TRANSITION va 0 e)
  else if is_svc_trap (ar_config r) && negb (ar_boundary_return_pc r =? 0) &&
          (va =? ar_boundary_return_pc r)
  then mret (None, SetStop GEM_STOP_ARCH_TRANSITION va 0 e)
  else
    t ← fetch_target r va;
    match t with
    | inr (reason, address, status) => mret (None, SetStop reason address status e)
    | inl target_kind =>
      '(error, instruction) ← fetch_word va;
      if negb (bool_decide (error = GEM_MEMORY_OK))
      then mret (None, SetFault va GEM_ARM64EC_ACCESS_FETCH error e)
      else if IsBrk instruction || IsUdf instruction
      then mret (None, SetStop (if IsBrk instruction then GEM_STOP_WINDOWS_EXCEPTION
                                else GEM_STOP_UNSUPPORTED_INSTRUCTION) va instruction e)
      else if bool_decide (target_kind = GEM_ARM64EC_TARGET_ARM64EC) &&
              HasForbiddenArm64ecRegister instruction
      then mret (None, SetStop GEM_STOP_UNSUPPORTED_INSTRUCTION va instruction e)
      else mret (Some instruction, e)
    end.

(** [gem_memory_read], or its variant that leaves guards alone, into a zeroed
    array. *)
Definition env_read (va : Z) (n : nat) (e : environment) : M (gem_memory_error * list Z) :=
  '(error, bytes) ← in_memory (fun m =>
     (if e_deferred_guard e then gem_memory_read_deferred_guard else gem_memory_read)
       m va (Some (replicate n 0)) (Z.of_nat n));
  mret (error, default [] bytes).

Definition env_write (va : Z) (bytes : list Z) (e : environment) : M gem_memory_error :=
  '(error, _) ← in_memory (fun m =>
     (if e_deferred_guard e then gem_memory_write_deferred_guard else gem_memory_write)
       m va (Some bytes) (Z.of_nat (length bytes)));
  mret error.

(** [ReadScalar] and [ReadVector] *)
Definition ReadScalar (w : access_width) (va : Z) (e : environment) : M (Z * environment) :=
  '(error, bytes) ← env_read va (width_bytes w) e;
  mret (if negb (bool_decide (error = GEM_MEMORY_OK))
        then (0, SetFault va GEM_ARM64EC_ACCESS_READ error e) else (le_value bytes, e)).

Definition ReadVector (va : Z) (e : environment) : M (gem_u128 * environment) :=
  '(error, bytes) ← env_read va 16 e;
  mret (if negb (bool_decide (error = GEM_MEMORY_OK))
        then (u128_zero, SetFault va GEM_ARM64EC_ACCESS_READ error e)
        else (U128 (le_value (take 8 bytes)) (le_value (drop 8 bytes)), e)).

(** [WriteScalar] and [MemoryWrite128], on the bytes they store. *)
Definition WriteBytes (r : gem_arm64ec_runtime) (va : Z) (bytes : list Z) (e : environment)
  : M environment :=
  error ← env_write va bytes e;
  if negb (bool_decide (error = GEM_MEMORY_OK))
  then mret (SetFault va GEM_ARM64EC_ACCESS_WRITE error e)
  else
    invalidate ← (if negb (is_native (ar_config r)) then mret true
                  else in_memory (fun m => gem_memory_is_executable m va (Z.of_nat (length bytes))));
    let e := set_cache_dirty (e_cache_dirty e || invalidate) e in
    mret (if (invalidate : bool) then HaltExecution HaltCacheInvalidation e else e).

Definition WriteScalar (r : gem_arm64ec_runtime) (w : access_width) (va value : Z) (e : environment)
  : M environment := WriteBytes r va (le_bytes (width_bytes w) value) e.

Definition MemoryWrite128 (r : gem_arm64ec_runtime) (va : Z) (value : gem_u128) (e : environment)
  : M environment := WriteBytes r va (le_bytes 8 (lo value) ++ le_bytes 8 (hi value)) e.

Definition ExclusiveWriteScalar (r : gem_arm64ec_runtime) (w : access_width) (va value expected : Z)
    (e : environment) : M (bool * environment) :=
  '(current, e) ← ReadScalar w va e;
  if negb (bool_decide (e_pending_reason e = GEM_STOP_NONE)) then mret (false, e)
  else if negb (current =? expected) then mret (false, e)
  else
    e ← WriteScalar r w va value e;
    mret (bool_decide (e_pending_reason e = GEM_STOP_NONE), e).

Definition MemoryWriteExclusive128 (r : gem_arm64ec_runtime) (va : Z) (value expected : gem_u128)
    (e : environment) : M (bool * environment) :=
  '(current, e) ← ReadVector va e;
  if negb (bool_decide (e_pending_reason e = GEM_STOP_NONE)) then mret (false, e)
  else if negb (bool_decide (current = expected)) then mret (false, e)
  else
    e ← MemoryWrite128 r va value e;
    mret (bool_decide (e_pending_reason e = GEM_STOP_NONE), e).

(** [pc] is [jit->GetPC()]. *)
Definition CallSVC (r : gem_arm64ec_runtime) (swi pc : Z) (e : environment) : environment :=
  if is_svc_trap (ar_config r) && (swi =? GEM_ARM64EC_BOUNDARY_SVC)
  then SetStop GEM_STOP_ARCH_TRANSITION (if 4 <=? pc then pc - 4 else 0) swi e
  else SetStop GEM_STOP_SYSCALL 0 swi e.

Definition ExceptionRaised (pc : Z) (x : a64_exception) (e : environment) : environment :=
  match x with
  | NoExecuteFault => SetFault pc GEM_ARM64EC_ACCESS_FETCH GEM_MEMORY_ACCESS_DENIED e
  | Breakpoint => SetStop GEM_STOP_WINDOWS_EXCEPTION pc (exception_value x) e
  | Yield => e
  | _ => SetStop GEM_STOP_UNSUPPORTED_INSTRUCTION pc (exception_value x) e
  end.

Definition DataCacheOperationRaised (op : data_cache_operation) (va : Z) (e : environment)
  : M environment :=
  match op with
  | ZeroByVA =>
    error ← env_write va (replicate kDczvaBytes 0) e;
    mret (if negb (bool_decide (error = GEM_MEMORY_OK))
          then SetFault va GEM_ARM64EC_ACCESS_WRITE error e else set_cache_dirty true e)
  | OtherDataCacheOperation => mret (set_cache_dirty true e)
  end.

(** A call into the recompiler; an address is a [uint64_t]. *)
Fixpoint run_jit {A} (r : gem_arm64ec_runtime) (t : jit_call A) (e : environment)
  : M (A * environment) :=
  match t with
  | JitDone a => mret (a, e)
  | JitReadCode va k => '(w, e) ← MemoryReadCode r (wrap64 va) e; run_jit r (k w (e_halts e)) e
  | JitRead w va k => '(v, e) ← ReadScalar w (wrap64 va) e; run_jit r (k v (e_halts e)) e
  | JitRead128 va k => '(v, e) ← ReadVector (wrap64 va) e; run_jit r (k v (e_halts e)) e
  | JitWrite w va v k => e ← WriteScalar r w (wrap64 va) v e; run_jit r (k (e_halts e)) e
  | JitWrite128 va v k => e ← MemoryWrite128 r (wrap64 va) v e; run_jit r (k (e_halts e)) e
  | JitWriteExclusive w va v x k =>
      '(b, e) ← ExclusiveWriteScalar r w (wrap64 va) v x e; run_jit r (k b (e_halts e)) e
  | JitWriteExclusive128 va v x k =>
      '(b, e) ← MemoryWriteExclusive128 r (wrap64 va) v x e; run_jit r (k b (e_halts e)) e
  | JitInterpreterFallback pc k =>
      let e := SetStop GEM_STOP_UNSUPPORTED_INSTRUCTION (wrap64 pc) 0 e in run_jit r (k (e_halts e)) e
  | JitCallSVC swi pc k => let e := CallSVC r swi (wrap64 pc) e in run_jit r (k (e_halts e)) e
  | JitException pc x k => let e := ExceptionRaised (wrap64 pc) x e in run_jit r (k (e_halts e)) e
  | JitDataCache op va k => e ← DataCacheOperationRaised op (wrap64 va) e; run_jit r (k (e_halts e)) e
  | JitInstructionCache k => let e := set_cache_dirty true e in run_jit r (k (e_halts e)) e
  | JitAddTicks n k => let e := AddTicks (wrap64 n) e in run_jit r (k (e_halts e)) e
  | JitTicksRemaining k => run_jit r (k (e_ticks_left e) (e_halts e)) e
  | JitCNTPCT k => run_jit r (k (e_cntpct e) (e_halts e)) e
  end.

(** ** The adapter *)

(** What a run works on: the objects its pointers designate, each once; the
    runtime here is without its back end. *)
Record arm_state : Type := ArmState {
  st_runtime : gem_arm64ec_runtime;
  st_backend : backend;
  st_context : gem_thread_context;
  st_opaque : S }.
Notation Arm := (K arm_state gem_stop_reason).

Definition mod_runtime (f : gem_arm64ec_runtime -> gem_arm64ec_runtime) : Arm unit :=
  modify (fun s => ArmState (f (st_runtime s)) (st_backend s) (st_context s) (st_opaque s)).
Definition mod_backend (f : backend -> backend) : Arm unit :=
  modify (fun s => ArmState (st_runtime s) (f (st_backend s)) (st_context s) (st_opaque s)).
Definition put_context (c : gem_thread_context) : Arm unit :=
  modify (fun s => ArmState (st_runtime s) (st_backend s) c (st_opaque s)).
Definition put_opaque (o : S) : Arm unit :=
  modify (fun s => ArmState (st_runtime s) (st_backend s) (st_context s) o).
Definition mod_env (f : environment -> environment) : Arm unit :=
  mod_backend (fun b => Backend (f (bk_env b)) (bk_core b) (bk_cpu b)).
Definition mod_core (f : dyn_core -> dyn_core) : Arm unit :=
  mod_backend (fun b => Backend (bk_env b) (f (bk_core b)) (bk_cpu b)).
Definition mod_cpu (f : CpuSnapshot -> CpuSnapshot) : Arm unit :=
  mod_backend (fun b => Backend (bk_env b) (bk_core b) (f (bk_cpu b))).

Definition the_env : Arm environment := gets (fun s => bk_env (st_backend s)).
Definition GetPC : Arm Z := gets (fun s => cpu_pc (bk_cpu (st_backend s))).
Definition GetRegister (i : nat) : Arm Z := gets (fun s => cpu_regs (bk_cpu (st_backend s)) !!! i).
Definition SetPC (pc : Z) : Arm unit := mod_cpu (fun c => with_cpu_pc c (wrap64 pc)).

Definition TakeSnapshot : Arm CpuSnapshot := gets (fun s => bk_cpu (st_backend s)).
Definition RestoreSnapshot (snapshot : CpuSnapshot) : Arm unit := mod_cpu (fun _ => snapshot).

Definition import_cpu (r : gem_arm64ec_runtime) (c : gem_thread_context) : CpuSnapshot :=
  Cpu (array 31 (c_x c))
    (array 16 (c_v c) ++ (if is_native (ar_config r) then array 16 (ar_native_upper_simd r)
                          else replicate 16 u128_zero))
    (c_sp c) (c_pc c) (c_nzcv c .& kNzcvMask) (c_fpcr c) (c_fpsr c).

Definition ImportContext (c : gem_thread_context) : Arm unit :=
  r ← gets st_runtime;
  mod_cpu (fun _ => import_cpu r c);;
  mod_core jit_ClearExclusiveState.

Definition export_cpu (cpu : CpuSnapshot) (c : gem_thread_context) : gem_thread_context :=
  ThreadContext (c_layout_version c) (c_context_size c) (array 31 (cpu_regs cpu)) (cpu_sp cpu)
    (cpu_pc cpu) (cpu_pstate cpu .& kNzcvMask) (cpu_fpcr cpu) (cpu_fpsr cpu) (c_reserved0 c)
    (array 16 (cpu_vectors cpu)) (c_x64_rflags c) (c_x64_mxcsr c) (c_x64_fcw c) (c_x64_fsw c)
    (c_x87 c) (c_teb c) (c_original_x64_sp c) (c_transition_cookie c) (c_isa c) (c_stop_reason c).

(** [ExportContext] into a context of the caller; the runtime keeps v16-v31. *)
Definition export_to (c : gem_thread_context) : Arm gem_thread_context :=
  cpu ← TakeSnapshot;
  mod_runtime (fun r =>
    if is_native (ar_config r) then set_ar_native_upper_simd r (array 16 (drop 16 (cpu_vectors cpu)))
    else r);;
  mret (export_cpu cpu c).
Definition ExportContext : Arm unit :=
  c ← gets st_context; c ← export_to c; put_context c.

Definition SetStopInfo (reason : gem_stop_reason) (retired fault_address access : Z)
    (error : gem_memory_error) (status : Z) : Arm unit :=
  mod_runtime (fun r => set_ar_last_stop r
    (Arm64ecStopInfo reason retired fault_address access (memory_error_value error) status)).

Definition HasHalt (value flag : Z) : bool := has_bits value flag.

Definition clear_transient (halts : Z) : Z :=
  halts .&~ HaltStep .&~ HaltCacheInvalidation .&~ HaltMemoryAbort .&~ HaltUserDefined1
    .&~ HaltUserDefined2 .&~ HaltUserDefined3.
Definition ClearTransientHalts : Arm unit := mod_env (fun e => set_halts (clear_transient (e_halts e)) e).

(** [SetStopInfo(...); return reason;], without and with
    [ClearTransientHalts(jit)] in between. *)
Definition stop_info {A} (reason : gem_stop_reason) (retired fault_address access : Z)
    (error : gem_memory_error) (status : Z) : Arm A :=
  SetStopInfo reason retired fault_address access error status;; return_ reason.
Definition stop_clear {A} (reason : gem_stop_reason) (retired fault_address access : Z)
    (error : gem_memory_error) (status : Z) : Arm A :=
  SetStopInfo reason retired fault_address access error status;;
  ClearTransientHalts;; return_ reason.

(** [jit.Run()] and [jit.Step()]: the halt reason.  The getters return the
    registers at their C types. *)
Definition execute (call : dyn_core -> CpuSnapshot -> Z -> jit_call (jit_result dyn_core)) : Arm Z :=
  s ← gets id;
  let b := st_backend s in
  '(res, e) ← lift (run_jit (st_runtime s) (call (bk_core b) (bk_cpu b) (e_halts (bk_env b))) (bk_env b));
  mod_backend (fun _ => Backend (set_halts (jr_halts res) e) (jr_core res) (cpu_typed (jr_cpu res)));;
  mret (jr_halt res).

(** A call of the boundary broker, whose [boundary_kind] starts as CHECK_ICALL. *)
Definition call_broker (broker : boundary_fn S) (pc : Z) (c : gem_thread_context)
  : Arm (Z * Z * gem_thread_context) :=
  o ← gets st_opaque;
  '(action, boundary_kind, c, o) ← lift (broker pc c GEM_ARM64EC_BOUNDARY_CHECK_ICALL o);
  put_opaque o;;
  mret (action, boundary_kind, c).

(** The condition under which a handled boundary is an invariant violation. *)
Definition broker_rejected (r : gem_arm64ec_runtime) (teb pc action boundary_kind : Z)
    (bc : gem_thread_context) : bool :=
  (boundary_kind <? GEM_ARM64EC_BOUNDARY_CHECK_ICALL) ||
  (GEM_ARM64EC_BOUNDARY_DISPATCH_RETURN <? boundary_kind) ||
  (action =? GEM_ARM64EC_BOUNDARY_FAIL) || negb (gem_context_is_valid (Some bc)) ||
  negb (xreg bc 18 =? teb) ||
  ((action =? GEM_ARM64EC_BOUNDARY_STOP) && negb (c_pc bc =? pc)) ||
  ((action =? GEM_ARM64EC_BOUNDARY_RESUME) && (c_pc bc =? pc)) ||
  (negb (ac_max_transitions (ar_config r) =? 0) &&
   (ac_max_transitions (ar_config r) <=? ar_transition_count r)).

Definition count_transition : Arm unit :=
  mod_runtime (fun r => set_ar_transition_count r (wrap64 (ar_transition_count r + 1))).

(** The guest changed x18: back to [before], with its value as the fault
    address. *)
Definition teb_guard (before : CpuSnapshot) (retired_before status : Z) : Arm unit :=
  c ← gets st_context;
  when (negb (xreg c 18 =? c_teb c))
    (RestoreSnapshot before;; ExportContext;;
     stop_clear GEM_STOP_INVARIANT_VIOLATION retired_before (xreg c 18) GEM_ARM64EC_ACCESS_NONE
       GEM_MEMORY_OK status).

(** How a round of the segment loop ends, unless it returns. *)
Inductive svc_next : Type :=
  | SvcContinue (retired zero_progress_resumes : Z)
  | SvcBreak (retired : Z).

(** A pending stop at the end of a segment. *)
Definition svc_pending (before : CpuSnapshot) (retired_before retired zero_progress_resumes : Z)
  : Arm svc_next :=
  e ← the_env;
  let pending := e_pending_reason e in
  let svc_boundary := bool_decide (pending = GEM_STOP_ARCH_TRANSITION) &&
                      (e_pending_engine_status e =? GEM_ARM64EC_BOUNDARY_SVC) in
  let fetch_boundary := bool_decide (pending = GEM_STOP_HOST_RETURN) ||
                        (bool_decide (pending = GEM_STOP_ARCH_TRANSITION) && negb svc_boundary) in
  pc ← GetPC;
  (if fetch_boundary || svc_boundary then SetPC (e_pending_fault_address e)
   else when (4 <=? pc) (SetPC (pc - 4)));;
  let boundary_retired := if svc_boundary && (retired_before <? retired) then retired - 1 else retired in
  ExportContext;;
  teb_guard before retired_before kInvariantTebBoundary;;
  r ← gets st_runtime;
  c ← gets st_context;
  resumed ←
    (match ar_boundary_broker r with
     | Some broker =>
       if bool_decide (pending = GEM_STOP_ARCH_TRANSITION) then
         '(action, boundary_kind, bc) ← call_broker broker (c_pc c) c;
         if action =? GEM_ARM64EC_BOUNDARY_NOT_HANDLED then mret false
         else if broker_rejected r (c_teb c) (c_pc c) action boundary_kind bc
         then stop_clear GEM_STOP_INVARIANT_VIOLATION boundary_retired (c_pc c)
                GEM_ARM64EC_ACCESS_NONE GEM_MEMORY_OK (wrap32 action)
         else
           count_transition;;
           if action =? GEM_ARM64EC_BOUNDARY_STOP
           then put_context bc;;
                stop_clear GEM_STOP_ARCH_TRANSITION boundary_retired (c_pc bc)
                  GEM_ARM64EC_ACCESS_NONE GEM_MEMORY_OK (wrap32 boundary_kind)
           else ImportContext bc;; put_context bc;; ClearTransientHalts;; mret true
       else mret false
     | None => mret false
     end);
  if (resumed : bool) then mret (SvcContinue boundary_retired zero_progress_resumes)
  else stop_clear pending boundary_retired (e_pending_fault_address e) (e_pending_access e)
         (e_pending_memory_error e) (e_pending_engine_status e).

(** The end of a segment that no callback stopped. *)
Definition svc_halted (before : CpuSnapshot) (halt budget retired_before retired zero_progress_resumes : Z)
  : Arm svc_next :=
  when (HasHalt halt HaltUserDefined2)
    (ExportContext;; teb_guard before retired_before kInvariantTebBudget;;
     stop_clear GEM_STOP_BUDGET_EXPIRED retired 0 GEM_ARM64EC_ACCESS_NONE GEM_MEMORY_OK 0);;
  when (HasHalt halt HaltMemoryAbort)
    (RestoreSnapshot before;; ExportContext;;
     stop_clear GEM_STOP_INVARIANT_VIOLATION retired_before 0 GEM_ARM64EC_ACCESS_NONE GEM_MEMORY_OK
       HaltMemoryAbort);;
  when (HasHalt halt HaltUserDefined3)
    (ExportContext;;
     stop_clear GEM_STOP_ASYNC_REQUEST retired 0 GEM_ARM64EC_ACCESS_NONE GEM_MEMORY_OK 0);;
  ExportContext;;
  teb_guard before retired_before kInvariantTebRunExit;;
  when (retired =? budget)
    (stop_clear GEM_STOP_BUDGET_EXPIRED retired 0 GEM_ARM64EC_ACCESS_NONE GEM_MEMORY_OK 0);;
  ClearTransientHalts;;
  mret (SvcContinue retired zero_progress_resumes).

(** One round of [while (retired < budget)] under SVC-trap delivery. *)
Definition svc_round (budget retired_before zero_progress_resumes : Z) : Arm svc_next :=
  let remaining := budget - retired_before in
  before ← TakeSnapshot;
  mod_env (fun e => SetTickBudget remaining (SetDeferredGuard true (ResetInstruction e)));;
  halt ← execute jit_Run;
  mod_env (SetDeferredGuard false);;
  e ← the_env;
  pc ← GetPC;
  let ticked := wrap64 (remaining - e_ticks_left e) in
  let unticked_write := (ticked =? 0) && e_cache_dirty e in
  when (unticked_write && (pc =? cpu_pc before))
    (RestoreSnapshot before;; ExportContext;;
     stop_clear GEM_STOP_INVARIANT_VIOLATION retired_before (cpu_pc before) GEM_ARM64EC_ACCESS_NONE
       GEM_MEMORY_OK HaltCacheInvalidation);;
  let segment_retired := if unticked_write then 1 else ticked in
  let retired := retired_before + segment_retired in
  let stalled := (segment_retired =? 0) && bool_decide (e_pending_reason e = GEM_STOP_NONE) &&
                 negb (e_cache_dirty e) in
  let zero_progress_resumes :=
    if stalled then zero_progress_resumes + 1
    else if negb (segment_retired =? 0) then 0 else zero_progress_resumes in
  when (stalled && (1024 <? zero_progress_resumes))
    (ExportContext;;
     c ← gets st_context;
     stop_clear GEM_STOP_INVARIANT_VIOLATION retired (c_pc c) GEM_ARM64EC_ACCESS_NONE GEM_MEMORY_OK halt);;
  when (e_cache_dirty e || HasHalt halt HaltCacheInvalidation) (mod_core jit_ClearCache);;
  if bool_decide (e_pending_reason e = GEM_STOP_MEMORY_FAULT) then
    RestoreSnapshot before;; ExportContext;; mod_env ResetInstruction;; ClearTransientHalts;;
    mret (SvcBreak retired_before)
  else if bool_decide (e_pending_reason e = GEM_STOP_ARCH_TRANSITION) &&
          (e_pending_engine_status e =? kMetadataRedirection) then
    SetPC (e_pending_fault_address e);; ExportContext;;
    teb_guard before retired_before kInvariantTebMetadataRedirect;;
    mod_env ResetInstruction;; ClearTransientHalts;;
    mret (SvcContinue retired zero_progress_resumes)
  else if negb (bool_decide (e_pending_reason e = GEM_STOP_NONE))
  then svc_pending before retired_before retired zero_progress_resumes
  else svc_halted before halt budget retired_before retired zero_progress_resumes.

(** The loop: the instructions retired when the rest of the run takes over. *)
Fixpoint svc_loop (fuel : nat) (budget retired zero_progress_resumes : Z) : Arm Z :=
  if negb (retired <? budget) then mret retired
  else
    match fuel with
    | O => stuck
    | Datatypes.S fuel =>
      n ← svc_round budget retired zero_progress_resumes;
      match n with
      | SvcContinue retired zero_progress_resumes => svc_loop fuel budget retired zero_progress_resumes
      | SvcBreak retired => mret retired
      end
    end.

(** The block run of the native profile: the instructions retired. *)
Definition native_block (budget : Z) : Arm Z :=
  let teb_check (before : CpuSnapshot) : Arm unit :=
    c ← gets st_context;
    when (negb (xreg c 18 =? c_teb c))
      (RestoreSnapshot before;; ExportContext;;
       stop_clear GEM_STOP_INVARIANT_VIOLATION 0 0 GEM_ARM64EC_ACCESS_NONE GEM_MEMORY_OK 0) in
  before ← TakeSnapshot;
  mod_env (fun e => SetTickBudget budget (SetDeferredGuard true e));;
  halt ← execute jit_Run;
  mod_env (SetDeferredGuard false);;
  e ← the_env;
  let native_retired := wrap64 (budget - e_ticks_left e) in
  when (e_cache_dirty e || HasHalt halt HaltCacheInvalidation) (mod_core jit_ClearCache);;
  native_retired ←
    (if bool_decide (e_pending_reason e = GEM_STOP_MEMORY_FAULT) then
       RestoreSnapshot before;; ExportContext;; mod_env ResetInstruction;; ClearTransientHalts;;
       mret 0
     else if negb (bool_decide (e_pending_reason e = GEM_STOP_NONE)) then
       let fetch_boundary := bool_decide (e_pending_reason e = GEM_STOP_HOST_RETURN) ||
                             bool_decide (e_pending_reason e = GEM_STOP_ARCH_TRANSITION) in
       pc ← GetPC;
       (if fetch_boundary then SetPC (e_pending_fault_address e) else when (4 <=? pc) (SetPC (pc - 4)));;
       ExportContext;;
       teb_check before;;
       stop_clear (e_pending_reason e)
         (if fetch_boundary || (native_retired =? 0) then native_retired else native_retired - 1)
         (e_pending_fault_address e) (e_pending_access e) (e_pending_memory_error e)
         (e_pending_engine_status e)
     else if HasHalt halt HaltMemoryAbort then
       RestoreSnapshot before;; ExportContext;;
       stop_clear GEM_STOP_INVARIANT_VIOLATION 0 0 GEM_ARM64EC_ACCESS_NONE GEM_MEMORY_OK HaltMemoryAbort
     else if HasHalt halt HaltUserDefined3 then
       ExportContext;;
       stop_clear GEM_STOP_ASYNC_REQUEST native_retired 0 GEM_ARM64EC_ACCESS_NONE GEM_MEMORY_OK 0
     else mret native_retired);
  ExportContext;;
  teb_check before;;
  when (native_retired =? budget)
    (stop_clear GEM_STOP_BUDGET_EXPIRED native_retired 0 GEM_ARM64EC_ACCESS_NONE GEM_MEMORY_OK 0);;
  ClearTransientHalts;;
  mret native_retired.

(** The boundary broker before an instruction: the PC, and whether it resumed. *)
Definition precise_broker (retired : Z) : Arm (Z * bool) :=
  pc_before ← GetPC;
  r ← gets st_runtime;
  match ar_boundary_broker r with
  | None => mret (pc_before, false)
  | Some broker =>
    c ← gets st_context;
    bc ← export_to c;
    '(action, boundary_kind, bc) ← call_broker broker pc_before bc;
    if action =? GEM_ARM64EC_BOUNDARY_NOT_HANDLED then mret (pc_before, false)
    else if broker_rejected r (c_teb c) pc_before action boundary_kind bc
    then ExportContext;;
         stop_info GEM_STOP_INVARIANT_VIOLATION retired pc_before GEM_ARM64EC_ACCESS_NONE
           GEM_MEMORY_OK (wrap32 action)
    else
      count_transition;;
      if action =? GEM_ARM64EC_BOUNDARY_STOP
      then put_context bc;;
           stop_info GEM_STOP_ARCH_TRANSITION retired pc_before GEM_ARM64EC_ACCESS_NONE
             GEM_MEMORY_OK (wrap32 boundary_kind)
      else if negb (action =? GEM_ARM64EC_BOUNDARY_RESUME)
      then ExportContext;;
           stop_info GEM_STOP_INVARIANT_VIOLATION retired pc_before GEM_ARM64EC_ACCESS_NONE
             GEM_MEMORY_OK (wrap32 action)
      else ImportContext bc;; put_context bc;; mret (c_pc bc, true)
  end.

Definition no_target_map (r : gem_arm64ec_runtime) : bool := bool_decide (ar_target_map r = None).

(** The sentinels, checked before metadata. *)
Definition precise_sentinels (pc : Z) (broker_resumed : bool) (retired : Z) : Arm unit :=
  r ← gets st_runtime;
  when ((pc =? ac_host_return_sentinel (ar_config r)) && (no_target_map r || broker_resumed))
    (ExportContext;;
     stop_info GEM_STOP_HOST_RETURN retired 0 GEM_ARM64EC_ACCESS_NONE GEM_MEMORY_OK 0);;
  when ((pc =? ac_arch_transition_sentinel (ar_config r)) && (no_target_map r || broker_resumed))
    (ExportContext;;
     stop_info GEM_STOP_ARCH_TRANSITION retired 0 GEM_ARM64EC_ACCESS_NONE GEM_MEMORY_OK 0).

(** Metadata: the PC after redirection and the kind of code there. *)
Definition precise_target (pc retired : Z) : Arm (Z * gem_arm64ec_target_kind) :=
  r ← gets st_runtime;
  if negb (has_metadata r) then mret (pc, default_kind (ar_config r))
  else
    t ← lift (ResolveTarget r pc);
    match t with
    | inl status =>
      ExportContext;;
      stop_info GEM_STOP_INVARIANT_VIOLATION retired pc GEM_ARM64EC_ACCESS_NONE GEM_MEMORY_OK
        (target_status_value status)
    | inr target =>
      if bool_decide (kind target = GEM_ARM64EC_TARGET_X64_BOUNDARY) then
        SetPC (resolved_va target);; ExportContext;;
        stop_info GEM_STOP_ARCH_TRANSITION retired (resolved_va target) GEM_ARM64EC_ACCESS_NONE
          GEM_MEMORY_OK 0
      else
        when (negb (resolved_va target =? pc)) (SetPC (resolved_va target));;
        mret (resolved_va target, kind target)
    end.

(** The checked fetch that precedes a step. *)
Definition precise_fetch (pc : Z) (target_kind : gem_arm64ec_target_kind) (retired : Z) : Arm unit :=
  '(fetch_error, instruction) ← lift (fetch_word pc);
  when (negb (bool_decide (fetch_error = GEM_MEMORY_OK)))
    (ExportContext;;
     stop_info GEM_STOP_MEMORY_FAULT retired pc GEM_ARM64EC_ACCESS_FETCH fetch_error
       (memory_error_value fetch_error));;
  when (IsBrk instruction || IsUdf instruction)
    (ExportContext;;
     stop_info (if IsBrk instruction then GEM_STOP_WINDOWS_EXCEPTION
                else GEM_STOP_UNSUPPORTED_INSTRUCTION)
       retired pc GEM_ARM64EC_ACCESS_NONE GEM_MEMORY_OK instruction);;
  when (bool_decide (target_kind = GEM_ARM64EC_TARGET_ARM64EC) && HasForbiddenArm64ecRegister instruction)
    (ExportContext;;
     stop_info GEM_STOP_UNSUPPORTED_INSTRUCTION retired pc GEM_ARM64EC_ACCESS_NONE GEM_MEMORY_OK
       instruction).

(** One instruction. *)
Definition precise_step (pc retired : Z) : Arm unit :=
  mod_env ResetInstruction;;
  before ← TakeSnapshot;
  halt ← execute jit_Step;
  e ← the_env;
  r ← gets st_runtime;
  c ← gets st_context;
  when (e_cache_dirty e || HasHalt halt HaltCacheInvalidation) (mod_core jit_ClearCache);;
  pc_after ← GetPC;
  x18 ← GetRegister 18;
  when (bool_decide (e_pending_reason e = GEM_STOP_ARCH_TRANSITION))
    (if (pc_after =? e_pending_fault_address e) && (x18 =? c_teb c) then
       ExportContext;;
       stop_clear GEM_STOP_ARCH_TRANSITION (retired + 1) (e_pending_fault_address e)
         GEM_ARM64EC_ACCESS_NONE GEM_MEMORY_OK 0
     else
       RestoreSnapshot before;; ExportContext;;
       stop_clear GEM_STOP_INVARIANT_VIOLATION retired (e_pending_fault_address e)
         GEM_ARM64EC_ACCESS_NONE GEM_MEMORY_OK (e_pending_engine_status e));;
  when (negb (bool_decide (e_pending_reason e = GEM_STOP_NONE)))
    (RestoreSnapshot before;; ExportContext;;
     stop_clear (e_pending_reason e) retired (e_pending_fault_address e) (e_pending_access e)
       (e_pending_memory_error e) (e_pending_engine_status e));;
  when (HasHalt halt HaltMemoryAbort)
    (RestoreSnapshot before;; ExportContext;;
     if is_native (ar_config r) && negb (e_pending_access e =? GEM_ARM64EC_ACCESS_NONE)
     then stop_clear GEM_STOP_MEMORY_FAULT retired pc (e_pending_access e)
            (e_pending_memory_error e) (e_pending_engine_status e)
     else stop_clear GEM_STOP_INVARIANT_VIOLATION retired 0 GEM_ARM64EC_ACCESS_NONE GEM_MEMORY_OK
            HaltMemoryAbort);;
  when (HasHalt halt HaltUserDefined3)
    (ExportContext;;
     stop_clear GEM_STOP_ASYNC_REQUEST retired 0 GEM_ARM64EC_ACCESS_NONE GEM_MEMORY_OK 0);;
  mod_env (set_cntpct (retired + 1));;
  when (negb (x18 =? c_teb c))
    (RestoreSnapshot before;; ExportContext;;
     stop_clear GEM_STOP_INVARIANT_VIOLATION retired 0 GEM_ARM64EC_ACCESS_NONE GEM_MEMORY_OK 0);;
  when (no_target_map r && (pc_after =? ac_host_return_sentinel (ar_config r)))
    (ExportContext;;
     stop_clear GEM_STOP_HOST_RETURN (retired + 1) 0 GEM_ARM64EC_ACCESS_NONE GEM_MEMORY_OK 0);;
  when (no_target_map r && (pc_after =? ac_arch_transition_sentinel (ar_config r)))
    (ExportContext;;
     stop_clear GEM_STOP_ARCH_TRANSITION (retired + 1) 0 GEM_ARM64EC_ACCESS_NONE GEM_MEMORY_OK 0);;
  ClearTransientHalts.

(** One round of the precise loop: it returns, or one more instruction is
    retired. *)
Definition precise_round (retired : Z) : Arm unit :=
  '(pc, broker_resumed) ← precise_broker retired;
  precise_sentinels pc broker_resumed retired;;
  '(pc, target_kind) ← precise_target pc retired;
  precise_fetch pc target_kind retired;;
  precise_step pc retired.

(** [while (retired < budget)], with [n = budget - retired]. *)
Fixpoint precise_loop (n : nat) (retired : Z) : Arm Z :=
  match n with
  | O => mret retired
  | Datatypes.S n => precise_round retired;; precise_loop n (retired + 1)
  end.

(** The body of [gem_arm64ec_dynarmic_run]. *)
Definition dynarmic_body (fuel : nat) (budget : Z) : Arm gem_stop_reason :=
  mod_env ResetRun;;
  mod_core monitor_Clear;;
  mod_backend (fun b => let '(core, cpu) := jit_Reset (bk_core b) (bk_cpu b) in Backend (bk_env b) core cpu);;
  mod_core jit_ClearExclusiveState;;
  r ← gets st_runtime;
  when (negb (is_native (ar_config r)) && negb (is_svc_trap (ar_config r))) (mod_core jit_ClearCache);;
  c ← gets st_context;
  ImportContext c;;
  ClearTransientHalts;;
  retired ← (if is_svc_trap (ar_config r) then svc_loop fuel budget 0 0 else mret 0);
  retired ←
    (if is_native (ar_config r) && no_target_map r &&
        match ar_boundary_broker r with None => true | Some _ => false end
     then native_block budget else mret retired);
  retired ← precise_loop (Z.to_nat (budget - retired)) retired;
  ExportContext;;
  stop_info GEM_STOP_BUDGET_EXPIRED retired 0 GEM_ARM64EC_ACCESS_NONE GEM_MEMORY_OK 0.

Definition gem_arm64ec_dynarmic_run (fuel : nat) (r : gem_arm64ec_runtime) (c : gem_thread_context)
    (o : S) (budget : Z)
  : M (option (gem_stop_reason * gem_arm64ec_runtime * gem_thread_context * S)) :=
  match ar_backend r with
  | None => mret (Some (GEM_STOP_INVARIANT_VIOLATION, r, c, o))
  | Some b =>
    out ← body (dynarmic_body fuel budget) (ArmState (set_ar_backend r None) b c o);
    mret (match out with
          | Some (reason, s) =>
              Some (reason, set_ar_backend (st_runtime s) (Some (st_backend s)), st_context s, st_opaque s)
          | None => None
          end)
  end.

(** [Backend(runtime)] and [RecreateJit]: the optimizations of [MakeConfig]; an
    exception of the latter ends the process. *)
Definition all_safe_optimizations (c : gem_arm64ec_runtime_config) : bool := is_native c || is_svc_trap c.

Definition env_initial : environment :=
  Env GEM_STOP_NONE GEM_ARM64EC_ACCESS_NONE GEM_MEMORY_OK 0 0 false 0 false 1 0.

Definition gem_arm64ec_dynarmic_create (r : gem_arm64ec_runtime) : M (bool * gem_arm64ec_runtime) :=
  p ← alloc;
  mret (match p, jit_new (all_safe_optimizations (ar_config r)) with
        | Some _, Some (core, cpu) => (true, set_ar_backend r (Some (Backend env_initial core cpu)))
        | _, _ => (false, set_ar_backend r None)
        end).

Definition gem_arm64ec_dynarmic_invalidate_code (r : gem_arm64ec_runtime) (address size : Z)
  : result unit gem_arm64ec_runtime :=
  match ar_backend r with
  | None => Ok r
  | Some b =>
    if size =? 0 then Ok r
    else
      match jit_new (all_safe_optimizations (ar_config r)) with
      | None => Err tt
      | Some (core, cpu) => Ok (set_ar_backend r (Some (Backend (set_halts 0 (bk_env b)) core cpu)))
      end
  end.

Definition gem_arm64ec_dynarmic_request_async_stop (r : gem_arm64ec_runtime) : gem_arm64ec_runtime :=
  match ar_backend r with
  | None => r
  | Some b =>
      set_ar_backend r (Some (Backend (HaltExecution HaltUserDefined3 (bk_env b)) (bk_core b) (bk_cpu b)))
  end.

(** ** The front end *)

Definition reset_stop (r : gem_arm64ec_runtime) (reason : gem_stop_reason) : gem_arm64ec_runtime :=
  set_ar_last_stop r (Arm64ecStopInfo reason 0 0 0 0 0).

(** [runtime->last_stop.reason = reason] *)
Definition set_stop_reason (r : gem_arm64ec_runtime) (reason : gem_stop_reason) : gem_arm64ec_runtime :=
  let i := ar_last_stop r in
  set_ar_last_stop r (Arm64ecStopInfo reason (ai_instructions_retired i) (ai_fault_address i)
                        (ai_access i) (ai_memory_error i) (ai_engine_status i)).
Definition set_stop_retired (r : gem_arm64ec_runtime) (n : Z) : gem_arm64ec_runtime :=
  let i := ar_last_stop r in
  set_ar_last_stop r (Arm64ecStopInfo (ai_reason i) n (ai_fault_address i) (ai_access i)
                        (ai_memory_error i) (ai_engine_status i)).

(** [finish_stop], for a non-NULL runtime and context. *)
Definition finish_stop (r : gem_arm64ec_runtime) (c : gem_thread_context) (reason : gem_stop_reason)
  : gem_stop_reason * gem_arm64ec_runtime * gem_thread_context :=
  (reason, set_stop_reason r reason, with_stop_reason c reason).

Definition context_is_arm64ec_valid (c : option gem_thread_context) : bool :=
  gem_context_is_valid c && from_option (fun c => c_isa c =? GEM_ISA_ARM64EC) false c.

Definition arm64ec_config_zero : gem_arm64ec_runtime_config := Arm64ecConfig 0 0 0 0 0 0.

(** The checks and defaults applied to the configuration. *)
Definition arm64ec_configure (c : option gem_arm64ec_runtime_config) : option gem_arm64ec_runtime_config :=
  let c := default arm64ec_config_zero c in
  if (ac_execution_profile c <? GEM_ARM64EC_PROFILE_STRICT) ||
     (GEM_ARM64EC_PROFILE_NATIVE_ARM64 <? ac_execution_profile c) ||
     (ac_boundary_delivery c <? GEM_ARM64EC_BOUNDARY_PRECISE) ||
     (GEM_ARM64EC_BOUNDARY_SVC_TRAP <? ac_boundary_delivery c) ||
     ((ac_boundary_delivery c =? GEM_ARM64EC_BOUNDARY_SVC_TRAP) &&
      negb (ac_execution_profile c =? GEM_ARM64EC_PROFILE_STRICT))
  then None
  else
    Some (Arm64ecConfig
      (if ac_host_return_sentinel c =? 0 then GEM_ARM64EC_DEFAULT_HOST_RETURN_SENTINEL
       else ac_host_return_sentinel c)
      (if ac_arch_transition_sentinel c =? 0 then GEM_ARM64EC_DEFAULT_ARCH_TRANSITION_SENTINEL
       else ac_arch_transition_sentinel c)
      (ac_max_budget c) (ac_max_transitions c) (ac_execution_profile c) (ac_boundary_delivery c)).

Definition gem_arm64ec_runtime_create (has_memory : bool) (c : option gem_arm64ec_runtime_config)
  : M (option gem_arm64ec_runtime) :=
  if negb has_memory then mret None
  else
    p ← alloc;
    match p with
    | None => mret None
    | Some _ =>
      match arm64ec_configure c with
      | None => mret None
      | Some c =>
        '(ok, r) ← gem_arm64ec_dynarmic_create
          (Arm64ecRuntime c arm64ec_stop_zero None None None 0 0 (replicate 16 u128_zero) false None);
        mret (if (ok : bool) then Some r else None)
      end
    end.

Definition is_strict (c : gem_arm64ec_runtime_config) : bool :=
  ac_execution_profile c =? GEM_ARM64EC_PROFILE_STRICT.

(** [block] says whether the allocation of the map succeeds. *)
Definition gem_arm64ec_runtime_attach_arm64x {allocator : Allocator} (block : bool)
    (r : option gem_arm64ec_runtime) (im : option image) (loaded_image_base : Z)
  : result unit (bool * option gem_arm64ec_runtime) :=
  match r with
  | None => Ok (false, r)
  | Some rt =>
    if bool_decide (im = None) || ar_running rt || negb (is_strict (ar_config rt)) then Ok (false, r)
    else
      match gem_arm64ec_target_map_create block im loaded_image_base true with
      | Fault => Fault
      | Err _ => Ok (false, r)
      | Ok map =>
        rt ← gem_arm64ec_dynarmic_invalidate_code (set_ar_target_map rt (Some map)) loaded_image_base
               UINT64_MAX;
        Ok (true, Some rt)
      end
  end.

(** [opaque] says whether the opaque pointer is non-NULL. *)
Definition gem_arm64ec_runtime_set_target_resolver (r : option gem_arm64ec_runtime)
    (resolver : option target_resolve_fn) (opaque : bool) : bool * option gem_arm64ec_runtime :=
  match r with
  | None => (false, r)
  | Some rt =>
    if ar_running rt || negb (is_strict (ar_config rt)) ||
       negb (Bool.eqb (match resolver with None => true | Some _ => false end) (negb opaque))
    then (false, r)
    else (true, Some (set_ar_target_resolver rt resolver))
  end.

Definition gem_arm64ec_runtime_run (fuel : nat) (r : option gem_arm64ec_runtime)
    (c : option gem_thread_context) (o : S) (budget : Z)
  : M (option (gem_stop_reason * option gem_arm64ec_runtime * option gem_thread_context * S)) :=
  match r with
  | None => mret (Some (GEM_STOP_INVARIANT_VIOLATION, None, c, o))
  | Some r =>
    let r := set_ar_transition_count (reset_stop r GEM_STOP_NONE) 0 in
    let rejected := mret (Some (GEM_STOP_INVARIANT_VIOLATION,
      Some (set_stop_reason r GEM_STOP_INVARIANT_VIOLATION), c, o)) in
    match c with
    | None => rejected
    | Some c =>
      if negb (context_is_arm64ec_valid (Some c)) then rejected
      else if negb (ac_max_budget (ar_config r) =? 0) && (ac_max_budget (ar_config r) <? budget)
      then rejected
      else if budget =? 0 then
        let '(reason, r, c) := finish_stop (set_stop_retired r 0) c GEM_STOP_BUDGET_EXPIRED in
        mret (Some (reason, Some r, Some c, o))
      else if ar_running r then rejected
      else
        out ← gem_arm64ec_dynarmic_run fuel (set_ar_running r true) c o budget;
        mret (match out with
              | None => None
              | Some (reason, r, c, o) =>
                let r := set_ar_running r false in
                let '(reason, r, c) :=
                  if negb (context_is_arm64ec_valid (Some c))
                  then finish_stop (set_stop_retired r 0) c GEM_STOP_INVARIANT_VIOLATION
                  else finish_stop r c reason in
                Some (reason, Some r, Some c, o)
              end)
    end
  end.

Definition gem_arm64ec_runtime_request_async_stop (r : option gem_arm64ec_runtime)
  : option gem_arm64ec_runtime := gem_arm64ec_dynarmic_request_async_stop <$> r.

Definition gem_arm64ec_runtime_last_stop_info (r : option gem_arm64ec_runtime) (has_out : bool)
  : option gem_arm64ec_stop_info :=
  match r with Some r => if has_out then Some (ar_last_stop r) else None | None => None end.

Definition gem_arm64ec_runtime_set_native_upper_simd (r : option gem_arm64ec_runtime)
    (vectors : option (list gem_u128)) : bool * option gem_arm64ec_runtime :=
  match r, vectors with
  | Some rt, Some vectors =>
    if ar_running rt || negb (is_native (ar_config rt)) then (false, r)
    else (true, Some (set_ar_native_upper_simd rt (array 16 vectors)))
  | _, _ => (false, r)
  end.

Definition gem_arm64ec_runtime_get_native_upper_simd (r : option gem_arm64ec_runtime) (has_out : bool)
  : option (list gem_u128) :=
  match r with
  | Some r =>
    if negb has_out || ar_running r || negb (is_native (ar_config r)) then None
    else Some (ar_native_upper_simd r)
  | None => None
  end.

Definition gem_arm64ec_runtime_set_boundary_broker (r : option gem_arm64ec_runtime)
    (broker : option (boundary_fn S)) : bool * option gem_arm64ec_runtime :=
  match r with
  | Some rt => if ar_running rt then (false, r) else (true, Some (set_ar_boundary_broker rt broker))
  | None => (false, r)
  end.

Definition gem_arm64ec_runtime_set_boundary_return_pc (r : option gem_arm64ec_runtime) (return_pc : Z)
  : bool * option gem_arm64ec_runtime :=
  match r with
  | Some rt =>
    if ar_running rt || negb (is_svc_trap (ar_config rt)) then (false, r)
    else (true, Some (set_ar_boundary_return_pc rt return_pc))
  | None => (false, r)
  end.

Definition gem_arm64ec_runtime_transition_count (r : option gem_arm64ec_runtime) : Z :=
  match r with Some r => ar_transition_count r | None => 0 end.

Definition gem_arm64ec_runtime_invalidate_code (r : option gem_arm64ec_runtime) (address size : Z)
  : result unit (option gem_arm64ec_runtime) :=
  match r with
  | Some rt =>
    if size =? 0 then Ok r
    else rt ← gem_arm64ec_dynarmic_invalidate_code rt address size; Ok (Some rt)
  | None => Ok None
  end.

(** [gem_current_runtime] is the thread's current runtime. *)
Definition gem_run_arm64ec (fuel : nat) (gem_current_runtime : option gem_arm64ec_runtime)
    (c : option gem_thread_context) (o : S) (budget : Z)
  : M (option (gem_stop_reason * option gem_arm64ec_runtime * option gem_thread_context * S)) :=
  match gem_current_runtime with
  | None => mret (Some (GEM_STOP_INVARIANT_VIOLATION, None, c, o))
  | Some r => gem_arm64ec_runtime_run fuel (Some r) c o budget
  end.
End runtime.
End engine.

Definition gem_arm64ec_dynarmic_engine_name : string := "Dynarmic".
Definition gem_arm64ec_dynarmic_engine_version : string := "6.7.0".
Definition gem_arm64ec_dynarmic_engine_license : string := "ISC".
Definition gem_arm64ec_dynarmic_engine_provenance {dynarmic : Dynarmic} : string :=
  if dynarmic_system then "system (non-conformance developer mode)"
  else "https://github.com/lioncash/dynarmic.git@a41c380246d3d9f9874f0f792d234dc0cc17c180".
