(* ===== verification/Arm64ecEngineLogic.v ===== *)
(** Arm64ecEngineLogic: rules for the body of an ARM64EC run (Arm64ecEngine) and
    the proof that it keeps memory, the context and the broker's contract,
    whatever the recompiler does.  [base] holds between any two steps, [ready]
    where guest code may run, [run_post] when the body returns. *)
From S2P Require Import Prelude Context MemoryModel Memory MemoryLogic MemoryInv MemoryTotal.
From S2P Require Import Pe PeInvariant PeProperties Target TargetProperties Control Dynarmic Blink X64Engine X64EngineProperties Arm64ecEngine.

(** ** Registers and contexts *)

Definition cpu_wf (c : CpuSnapshot) : Prop :=
  Forall is_u64 (cpu_regs c) /\ Forall is_u128 (cpu_vectors c) /\ is_u64 (cpu_sp c) /\
  is_u64 (cpu_pc c) /\ is_u32 (cpu_pstate c) /\ is_u32 (cpu_fpcr c) /\ is_u32 (cpu_fpsr c).

Lemma Forall_array {A} `{Inhabited A} (P : A -> Prop) n (l : list A) :
  P inhabitant -> Forall P l -> Forall P (array n l).
Proof.
  intros Hi Hl. unfold array. apply Forall_fmap, Forall_forall. intros i _. cbn.
  rewrite list_lookup_total_alt. destruct (l !! i) as [x|] eqn:E; [|done].
  cbn. rewrite Forall_forall in Hl. apply Hl, list_elem_of_lookup. eauto.
Qed.

Lemma mask_u32 x y : is_u32 x -> 0 <= y -> is_u32 (x .& y).
Proof.
  unfold is_u32. intros Hx Hy. split; [apply Z.land_nonneg; left; lia|].
  destruct (Z.eq_dec (x .& y) 0) as [->|Hn]; [lia|].
  assert (0 <= x .& y) by (apply Z.land_nonneg; lia).
  apply Z.log2_lt_pow2; [lia|]. eapply Z.le_lt_trans; [apply Z.log2_land; lia|].
  destruct (Z.eq_dec x 0) as [->|]; [by rewrite Z.land_0_l in Hn|].
  eapply Z.le_lt_trans; [apply Z.le_min_l|]. apply Z.log2_lt_pow2; lia.
Qed.

Lemma cpu_typed_wf c : cpu_wf (cpu_typed c).
Proof.
  unfold cpu_wf, cpu_typed. cbn [cpu_regs cpu_vectors cpu_sp cpu_pc cpu_pstate cpu_fpcr cpu_fpsr].
  split_and!; auto with gem; apply Forall_fmap, Forall_forall; intros i _; cbn; auto with gem.
Qed.

Lemma with_cpu_pc_wf c pc : cpu_wf c -> cpu_wf (with_cpu_pc c (wrap64 pc)).
Proof. intros (? & ? & ? & ? & ? & ? & ?). split_and!; try done. apply wrap64_u64. Qed.

(** What the engine leaves of a context. *)
Definition arm_frame (c d : gem_thread_context) : Prop :=
  c_layout_version d = c_layout_version c /\ c_context_size d = c_context_size c /\
  c_reserved0 d = c_reserved0 c /\ c_x64_rflags d = c_x64_rflags c /\
  c_x64_mxcsr d = c_x64_mxcsr c /\ c_x64_fcw d = c_x64_fcw c /\ c_x64_fsw d = c_x64_fsw c /\
  c_x87 d = c_x87 c /\ c_teb d = c_teb c /\ c_original_x64_sp d = c_original_x64_sp c /\
  c_transition_cookie d = c_transition_cookie c /\ c_isa d = c_isa c.

#[export] Instance arm_frame_po : PreOrder arm_frame.
Proof.
  split; [by intros c|].
  intros a b c (? & ? & ? & ? & ? & ? & ? & ? & ? & ? & ? & ?) (? & ? & ? & ? & ? & ? & ? & ? & ? & ? & ? & ?).
  split_and!; etrans; eassumption.
Qed.

Lemma arm_export_frame cpu c : arm_frame c (export_cpu cpu c).
Proof. done. Qed.

Lemma export_wf cpu c : cpu_wf cpu -> context_wf c -> context_wf (export_cpu cpu c).
Proof.
  intros (Hr & Hv & ? & ? & ? & ? & ?). unfold context_wf, export_cpu.
  cbn [c_layout_version c_context_size c_x c_sp c_pc c_nzcv c_fpcr c_fpsr c_reserved0 c_v c_x64_rflags
    c_x64_mxcsr c_x64_fcw c_x64_fsw c_x87 c_teb c_original_x64_sp c_transition_cookie c_isa c_stop_reason].
  intros (? & ? & ? & ? & ? & ? & ? & ? & ? & ? & ? & ? & ? & ? & ? & ? & ? & ? & ? & ? & ? & ? & ?).
  split_and!; try done; try apply length_array.
  - by apply Forall_array.
  - by apply mask_u32.
  - apply Forall_array; auto with gem.
Qed.

(** The context is valid for the engine. *)
Lemma arm64ec_valid_spec c :
  context_is_arm64ec_valid (Some c) = true <->
  c_layout_version c = 1 /\ c_context_size c = 720 /\ c_teb c <> 0 /\ xreg c 18 = c_teb c /\
  c_isa c = GEM_ISA_ARM64EC.
Proof.
  unfold context_is_arm64ec_valid. cbn [from_option]. rewrite andb_true_iff, gem_context_is_valid_spec, Z.eqb_eq.
  naive_solver.
Qed.

Lemma arm64ec_valid_frame c d :
  context_is_arm64ec_valid (Some c) = true -> arm_frame c d -> xreg d 18 = c_teb c ->
  context_is_arm64ec_valid (Some d) = true.
Proof.
  rewrite !arm64ec_valid_spec.
  intros (? & ? & ? & ? & ?) (Hl & Hz & _ & _ & _ & _ & _ & _ & Ht & _ & _ & Hi) Hx.
  rewrite Hl, Hz, Ht, Hi. by split_and!.
Qed.

Lemma with_stop_reason_arm_frame c reason : arm_frame c (with_stop_reason c reason).
Proof. done. Qed.

(** ** The callbacks *)

Section engine.
Context {platform : Platform} {dynarmic : Dynarmic} {S : Type}.
Implicit Types (r : gem_arm64ec_runtime (S := S)).

(** The metadata an engine may hold. *)
Definition resolver_ok (f : target_resolve_fn) : Prop :=
  forall va, is_u64 va -> match f va with Ok t => is_u64 (resolved_va t) | Err _ => True | Fault => False end.
Definition metadata_ok r : Prop :=
  (forall map, ar_target_map r = Some map -> map_ok map) /\
  (forall f, ar_target_resolver r = Some f -> resolver_ok f).

Lemma resolve_is_u64 map : map_ok map -> resolver_ok (fun va => gem_arm64ec_target_resolve (Some map) va true).
Proof.
  intros Hm va Hva. pose proof (resolve_spec map Hm va Hva) as H.
  destruct (gem_arm64ec_target_resolve _ _ _) as [t|e|]; [|done|done].
  destruct Hm as ((mapped & Him) & _ & Hb & He & Hmax). unfold is_u64, UINT64_MAX in *.
  destruct H as (_ & _ & _ & Hr & ? & _ & _ & _ & (? & (sec & Hin & (Hlo & _) & _) & _)).
  pose proof (proj1 (ok_sections _ _ Him)) as Hall. rewrite Forall_forall in Hall.
  destruct (Hall sec Hin) as (? & _). unfold is_u32 in *. cbn [fst section_span] in Hlo. lia.
Qed.

(** A pending reason is never one the adapter reports by itself, and the tick
    budget only goes down. *)
Definition env_ok (e : environment) : Prop :=
  e_pending_reason e <> GEM_STOP_BUDGET_EXPIRED /\ e_pending_reason e <> GEM_STOP_ASYNC_REQUEST /\
  0 <= e_ticks_left e.
Definition env_after (e e' : environment) : Prop := env_ok e' /\ e_ticks_left e' <= e_ticks_left e.

Lemma env_after_refl e : env_ok e -> env_after e e.
Proof. by split. Qed.
Lemma env_after_trans e1 e2 e3 : env_after e1 e2 -> env_after e2 e3 -> env_after e1 e3.
Proof. intros [_ ?] [? ?]. split; [done|lia]. Qed.

Lemma SetFault_after va access error e : env_ok e -> env_after e (SetFault va access error e).
Proof.
  intros (? & ? & ?). unfold SetFault. destruct (bool_decide_reflect (e_pending_reason e = GEM_STOP_NONE));
    unfold env_after, env_ok; cbn; split_and!; done.
Qed.

Lemma SetStop_after reason address status e :
  reason <> GEM_STOP_BUDGET_EXPIRED -> reason <> GEM_STOP_ASYNC_REQUEST -> env_ok e ->
  env_after e (SetStop reason address status e).
Proof.
  intros ? ? (? & ? & ?). unfold SetStop. destruct (bool_decide_reflect (e_pending_reason e = GEM_STOP_NONE));
    unfold env_after, env_ok; cbn; split_and!; done.
Qed.

Lemma CallSVC_after r swi pc e : env_ok e -> env_after e (CallSVC r swi pc e).
Proof. intros. unfold CallSVC. destruct (_ && _); by apply SetStop_after. Qed.

Lemma ExceptionRaised_after pc x e : env_ok e -> env_after e (ExceptionRaised pc x e).
Proof. intros. destruct x; first [by apply SetFault_after|by apply SetStop_after|by apply env_after_refl]. Qed.

Lemma AddTicks_after n e : env_ok e -> 0 <= n -> env_after e (AddTicks n e).
Proof.
  intros (? & ? & ?) Hn. unfold AddTicks, env_after, env_ok. cbn.
  destruct (Z.ltb_spec (e_ticks_left e) n); split_and!; try done; lia.
Qed.

#[local] Hint Resolve env_after_refl SetFault_after CallSVC_after ExceptionRaised_after : gem.
#[local] Hint Extern 2 (env_after _ (SetStop _ _ _ _)) => apply SetStop_after; [done..|] : gem.

Section memory.
Variable pins : bid -> Z.
Variable L : gmap Z (Z * Z).
Hypothesis Hp : forall b, 0 <= pins b.

Lemma in_memory_triple {A} (d : A) (f : M A) P Q :
  triple P f Q -> triple P (in_memory (fun m => locked d f m)) Q.
Proof.
  intros Hf m Hm. specialize (Hf m Hm). unfold in_memory, locked. by destruct (f m) as [[a m']| |].
Qed.

Lemma env_read_triple va n e :
  is_u64 va -> triple (st pins L) (env_read va n e) (fun _ => st pins L).
Proof.
  intros [Hva _]. unfold env_read. eapply triple_bind.
  - destruct (e_deferred_guard e); apply in_memory_triple; apply access_memory_locked_triple; (done || lia).
  - intros [error bytes]. by apply triple_ret.
Qed.

Lemma env_write_triple va bytes e :
  is_u64 va -> triple (st pins L) (env_write va bytes e) (fun _ => st pins L).
Proof.
  intros [Hva _]. unfold env_write. eapply triple_bind.
  - destruct (e_deferred_guard e); apply in_memory_triple; apply access_memory_locked_triple; (done || lia).
  - intros [error b]. by apply triple_ret.
Qed.

Lemma fetch_word_triple va : is_u64 va -> triple (st pins L) (fetch_word va) (fun _ => st pins L).
Proof.
  intros [Hva _]. unfold fetch_word. eapply triple_bind.
  - apply in_memory_triple. apply access_memory_locked_triple; (done || lia).
  - intros [error b]. by apply triple_ret.
Qed.

Lemma executable_triple va n :
  is_u64 va -> 0 <= n ->
  triple (st pins L) (in_memory (fun m => gem_memory_is_executable m va n)) (fun _ => st pins L).
Proof.
  intros [Hva _] Hn. apply in_memory_triple. eapply triple_bind.
  - apply access_memory_locked_triple; (done || lia).
  - intros [error b]. by apply triple_ret.
Qed.

Lemma target_call_triple {A} (t : target_status A) P :
  t <> Fault -> triple P (target_call t) (fun x m => P m /\ forall a, x = inr a -> t = Ok a).
Proof. intros Ht. destruct t as [a|e|]; cbn; [| |done]; apply triple_ret; naive_solver. Qed.

Lemma ResolveTarget_triple r va P :
  metadata_ok r -> is_u64 va ->
  triple P (ResolveTarget r va) (fun x m => P m /\ forall t, x = inr t -> is_u64 (resolved_va t)).
Proof.
  intros [Hm Hf] Hva. unfold ResolveTarget.
  assert (forall f, resolver_ok f ->
    triple P (target_call (f va)) (fun x m => P m /\ forall t, x = inr t -> is_u64 (resolved_va t))) as Hcall.
  { intros f Hok. specialize (Hok va Hva). eapply triple_conseq; [apply (target_call_triple (f va) P)|done|].
    - by intros E; rewrite E in Hok.
    - intros x m [HP Hx]. split; [done|]. intros t Ht. by rewrite (Hx t Ht) in Hok. }
  destruct (ar_target_resolver r) as [f|]; [by apply Hcall, Hf|].
  destruct (ar_target_map r) as [map|]; [|by apply triple_ret].
  apply (Hcall (fun va => gem_arm64ec_target_resolve (Some map) va true)). by apply resolve_is_u64, Hm.
Qed.

(** What every callback keeps. *)
Notation kept e := (fun x m => st pins L m /\ env_after e x.2).

Lemma kept_ret {A} e (a : A) e' : env_after e e' -> triple (st pins L) (mret (a, e')) (kept e).
Proof. intros He. by apply triple_ret. Qed.

Lemma fetch_target_triple r va :
  metadata_ok r -> is_u64 va ->
  triple (st pins L) (fetch_target r va) (fun t m => st pins L m /\ forall reason a s, t = inr (reason, a, s) ->
    reason <> GEM_STOP_BUDGET_EXPIRED /\ reason <> GEM_STOP_ASYNC_REQUEST).
Proof.
  intros Hr Hva. unfold fetch_target. destruct (negb _); [by apply triple_ret|].
  eapply triple_bind; [by apply ResolveTarget_triple|]. intros [status|t]; apply triple_ret; intros m [Hm _].
  - split; [done|]. naive_solver.
  - split; [done|]. intros reason a s. destruct (_ || _); naive_solver.
Qed.

Lemma MemoryReadCode_triple r va e :
  metadata_ok r -> is_u64 va -> env_ok e -> triple (st pins L) (MemoryReadCode r va e) (kept e).
Proof.
  intros Hr Hva He. unfold MemoryReadCode.
  do 2 (destruct (va =? _); [apply kept_ret; auto with gem|]).
  destruct (_ && _ && _); [apply kept_ret; auto with gem|].
  eapply triple_bind; [by apply fetch_target_triple|].
  intros [k|[[reason a] status]]; apply triple_pre; intros m [Hm Hreason].
  - eapply triple_conseq; [|by intros ? ->|intros ? ? H; exact H].
    eapply triple_bind; [by apply fetch_word_triple|]. intros [error w].
    destruct (negb _); [apply kept_ret; auto with gem|].
    destruct (_ || _); [apply kept_ret; destruct (IsBrk w); auto with gem|].
    destruct (_ && _); apply kept_ret; auto with gem.
  - apply triple_ret. intros ? ->. destruct (Hreason _ _ _ eq_refl). split; [done|]. by apply SetStop_after.
Qed.

Lemma ReadScalar_triple w va e : is_u64 va -> env_ok e -> triple (st pins L) (ReadScalar w va e) (kept e).
Proof.
  intros Hva He. unfold ReadScalar. eapply triple_bind; [by apply env_read_triple|]. intros [error bytes].
  destruct (negb _); apply kept_ret; auto with gem.
Qed.

Lemma ReadVector_triple va e : is_u64 va -> env_ok e -> triple (st pins L) (ReadVector va e) (kept e).
Proof.
  intros Hva He. unfold ReadVector. eapply triple_bind; [by apply env_read_triple|]. intros [error bytes].
  destruct (negb _); apply kept_ret; auto with gem.
Qed.

(** A callback that only returns its environment. *)
Notation keeps_env e := (fun e' m => st pins L m /\ env_after e e').

Lemma WriteBytes_triple r va bytes e :
  is_u64 va -> env_ok e -> triple (st pins L) (WriteBytes r va bytes e) (keeps_env e).
Proof.
  intros Hva He. unfold WriteBytes. eapply triple_bind; [by apply env_write_triple|]. intros error.
  destruct (negb _); [apply triple_ret; intros m Hm; split; [done|by apply SetFault_after]|].
  eapply (triple_bind _ _ _ (fun _ => st pins L)).
  { destruct (negb _); [by apply triple_ret|]. apply executable_triple; [done|lia]. }
  intros invalidate. apply triple_ret. intros m Hm. split; [done|].
  destruct He as (? & ? & ?). destruct invalidate; unfold env_after, env_ok; cbn; by split_and!.
Qed.

(** A read, then perhaps a write. *)
Lemma exclusive_triple {A} (read : M (A * environment)) (same : A -> bool) (write : environment -> M environment) e :
  triple (st pins L) read (kept e) -> (forall e', env_ok e' -> triple (st pins L) (write e') (keeps_env e')) ->
  triple (st pins L)
    ('(current, e) ← read;
     if negb (bool_decide (e_pending_reason e = GEM_STOP_NONE)) then mret (false, e)
     else if negb (same current) then mret (false, e)
     else e ← write e; mret (bool_decide (e_pending_reason e = GEM_STOP_NONE), e)) (kept e).
Proof.
  intros Hread Hwrite. eapply triple_bind; [exact Hread|]. intros [current e1]. cbn [snd].
  apply triple_pre. intros m [Hm He1].
  destruct (negb _); [by apply triple_ret; intros ? ->|].
  destruct (negb _); [by apply triple_ret; intros ? ->|].
  eapply triple_bind; [eapply triple_conseq; [apply Hwrite, He1|by intros ? ->|intros ? ? H; exact H]|].
  intros e2. apply triple_ret. intros m' [Hm' He2]. split; [done|]. by eapply env_after_trans.
Qed.

Lemma DataCache_triple op va e :
  is_u64 va -> env_ok e -> triple (st pins L) (DataCacheOperationRaised op va e) (keeps_env e).
Proof.
  intros Hva He. assert (env_after e (set_cache_dirty true e)) as Hd.
  { destruct He as (? & ? & ?). unfold env_after, env_ok; cbn; by split_and!. }
  destruct op; cbn [DataCacheOperationRaised]; [|by apply triple_ret].
  eapply triple_bind; [by apply env_write_triple|]. intros error. destruct (negb _);
    apply triple_ret; intros m Hm; split; auto with gem.
Qed.

(** Whatever the recompiler does. *)
Lemma run_jit_triple {A} r (t : jit_call A) e :
  metadata_ok r -> env_ok e -> triple (st pins L) (run_jit r t e) (kept e).
Proof.
  intros Hr. revert e.
  assert (forall B e (f : M (B * environment)) (g : B -> environment -> M (A * environment)),
    triple (st pins L) f (kept e) -> (forall b e', env_ok e' -> triple (st pins L) (g b e') (kept e')) ->
    triple (st pins L) ('(b, e) ← f; g b e) (kept e)) as Hpair.
  { intros B e f g Hf Hg. eapply triple_bind; [exact Hf|]. intros [b e']. cbn [snd]. apply triple_pre.
    intros m [Hm He']. eapply triple_conseq; [apply Hg, He'|by intros ? ->|].
    intros [a e''] m' [Hm' He'']. split; [done|]. by eapply env_after_trans. }
  assert (forall e (f : M environment) (g : environment -> M (A * environment)),
    triple (st pins L) f (keeps_env e) -> (forall e', env_ok e' -> triple (st pins L) (g e') (kept e')) ->
    triple (st pins L) (e ← f; g e) (kept e)) as Hone.
  { intros e f g Hf Hg. eapply triple_bind; [exact Hf|]. intros e'. apply triple_pre.
    intros m [Hm He']. eapply triple_conseq; [apply Hg, He'|by intros ? ->|].
    intros [a e''] m' [Hm' He'']. split; [done|]. by eapply env_after_trans. }
  assert (forall e e' (k : environment -> M (A * environment)), env_after e e' ->
    (forall e', env_ok e' -> triple (st pins L) (k e') (kept e')) -> triple (st pins L) (k e') (kept e)) as Hpure.
  { intros e e' k He' Hk. eapply triple_conseq; [apply Hk, He'|done|].
    intros [a e''] m' [Hm' He'']. split; [done|]. by eapply env_after_trans. }
  induction t as [a|va k IH|w va k IH|va k IH|w va v k IH|va v k IH|w va v x k IH|va v x k IH|pc k IH
    |swi pc k IH|pc x k IH|op va k IH|k IH|n k IH|k IH|k IH]; intros e He; cbn [run_jit].
  - apply kept_ret. by apply env_after_refl.
  - apply Hpair; [apply MemoryReadCode_triple; auto with gem|]. intros b e' He'. by apply IH.
  - apply Hpair; [apply ReadScalar_triple; auto with gem|]. intros b e' He'. by apply IH.
  - apply Hpair; [apply ReadVector_triple; auto with gem|]. intros b e' He'. by apply IH.
  - apply Hone; [apply WriteBytes_triple; auto with gem|]. intros e' He'. by apply IH.
  - apply Hone; [apply WriteBytes_triple; auto with gem|]. intros e' He'. by apply IH.
  - apply Hpair; [|intros b e' He'; by apply IH].
    apply exclusive_triple; [apply ReadScalar_triple; auto with gem|]. intros e' He'.
    apply WriteBytes_triple; auto with gem.
  - apply Hpair; [|intros b e' He'; by apply IH].
    apply (exclusive_triple _ (fun current => bool_decide (current = x)));
      [apply ReadVector_triple; auto with gem|]. intros e' He'. apply WriteBytes_triple; auto with gem.
  - apply (Hpure e _ (fun e => run_jit r (k (e_halts e)) e)); [by apply SetStop_after|]. intros e' He'. by apply IH.
  - apply (Hpure e _ (fun e => run_jit r (k (e_halts e)) e)); [by apply CallSVC_after|]. intros e' He'. by apply IH.
  - apply (Hpure e _ (fun e => run_jit r (k (e_halts e)) e)); [by apply ExceptionRaised_after|].
    intros e' He'. by apply IH.
  - apply Hone; [apply DataCache_triple; auto with gem|]. intros e' He'. by apply IH.
  - apply (Hpure e _ (fun e => run_jit r (k (e_halts e)) e)); [|intros e' He'; by apply IH].
    destruct He as (? & ? & ?). unfold env_after, env_ok; cbn; by split_and!.
  - apply (Hpure e _ (fun e => run_jit r (k (e_halts e)) e)); [|intros e' He'; by apply IH].
    apply AddTicks_after; [done|]. pose proof (wrap64_u64 n) as [? _]. lia.
  - by apply IH.
  - by apply IH.
Qed.

(** ** The body of a run *)

(** What the broker promises: it keeps memory and the frame of the context, and
    its own invariant [Js]; when it stops a run it leaves the context alone,
    names a boundary and reaches [Jstop]. *)
Variables (Js Jstop : S -> Prop).
Definition broker_ok (broker : boundary_fn S) : Prop :=
  forall pc c o, Js o -> context_wf c -> context_is_arm64ec_valid (Some c) = true -> c_pc c = pc ->
  triple (st pins L) (broker pc c GEM_ARM64EC_BOUNDARY_CHECK_ICALL o) (fun '(action, boundary_kind, d, o') m =>
    st pins L m /\ arm_frame c d /\ context_wf d /\
    if action =? GEM_ARM64EC_BOUNDARY_STOP then d = c /\ 1 <= boundary_kind <= 4 /\ Jstop o' else Js o').

Variables (r0 : gem_arm64ec_runtime (S := S)) (c0 : gem_thread_context) (budget : Z).
Hypothesis Hmeta : metadata_ok r0.
Hypothesis Hbroker : forall broker, ar_boundary_broker r0 = Some broker -> broker_ok broker.
Hypothesis Hvalid : context_is_arm64ec_valid (Some c0) = true.
Hypothesis Hbudget : is_u64 budget.

(** What a run leaves of its runtime. *)
Definition same_runtime r : Prop :=
  ar_config r = ar_config r0 /\ ar_target_map r = ar_target_map r0 /\
  ar_target_resolver r = ar_target_resolver r0 /\ ar_boundary_broker r = ar_boundary_broker r0 /\
  ar_boundary_return_pc r = ar_boundary_return_pc r0 /\ ar_running r = ar_running r0 /\
  Forall is_u128 (ar_native_upper_simd r).

Notation cpu_of s := (bk_cpu (st_backend s)).

Record base (s : arm_state (S := S)) (m : mem) : Prop := Base {
  base_memory : st pins L m;
  base_runtime : same_runtime (st_runtime s);
  base_frame : arm_frame c0 (st_context s);
  base_context : context_wf (st_context s);
  base_cpu : cpu_wf (cpu_of s) }.

(** Ready to run guest code: x18 is the TEB in the context and the registers. *)
Record ready (s : arm_state) (m : mem) : Prop := Ready {
  ready_base : base s m;
  ready_x18 : xreg (st_context s) 18 = c_teb c0;
  ready_reg : cpu_regs (cpu_of s) !!! 18%nat = c_teb c0;
  ready_opaque : Js (st_opaque s) }.

Let live : Prop := is_svc_trap (ar_config r0) = true.

(** What the broker's object satisfies when the run stops for a reason. *)
Definition opaque_ok (reason : gem_stop_reason) (o : S) (c : gem_thread_context) : Prop :=
  Js o \/ (Jstop o /\ ((reason = GEM_STOP_ARCH_TRANSITION /\ xreg c 18 = c_teb c0) \/
                       ac_max_transitions (ar_config r0) <> 0)).

Definition stop_ok (reason : gem_stop_reason) (retired : Z) (o : S) (c : gem_thread_context) : Prop :=
  0 <= retired <= budget /\ (reason = GEM_STOP_BUDGET_EXPIRED -> live \/ retired = budget) /\
  opaque_ok reason o c.

Definition run_post (reason : gem_stop_reason) (s : arm_state) (m : mem) : Prop :=
  base s m /\ ai_reason (ar_last_stop (st_runtime s)) = reason /\
  stop_ok reason (ai_instructions_retired (ar_last_stop (st_runtime s))) (st_opaque s) (st_context s).

Notation wp k Q := (kwp live k Q run_post).

(** Steps over the primitive operations. *)
Ltac astep :=
  unfold stop_clear, stop_info, ClearTransientHalts, SetStopInfo, SetPC, RestoreSnapshot, TakeSnapshot,
    GetPC, GetRegister, the_env, mod_env, mod_core, mod_cpu, mod_runtime, mod_backend, put_context, put_opaque;
  repeat first [apply kwp_bind | apply kwp_gets | apply kwp_modify | apply kwp_return | apply kwp_ret];
  cbv beta.

Lemma kwp_stop_info {A} reason retired a x er status (Q : A -> arm_state -> mem -> Prop) s m :
  base s m -> stop_ok reason retired (st_opaque s) (st_context s) -> wp (stop_info reason retired a x er status) Q s m.
Proof. intros [] Hs. astep. by split. Qed.

Lemma kwp_stop_clear {A} reason retired a x er status (Q : A -> arm_state -> mem -> Prop) s m :
  base s m -> stop_ok reason retired (st_opaque s) (st_context s) -> wp (stop_clear reason retired a x er status) Q s m.
Proof. intros [] Hs. astep. by split. Qed.

(** The operations on the recompiler and the context. *)
Definition moves (s s' : arm_state (S := S)) : Prop :=
  st_context s' = st_context s /\ st_opaque s' = st_opaque s.

Lemma kwp_env f (Q : unit -> arm_state -> mem -> Prop) s m :
  base s m ->
  (forall s', base s' m -> moves s s' -> cpu_of s' = cpu_of s -> bk_env (st_backend s') = f (bk_env (st_backend s)) ->
    Q tt s' m) -> wp (mod_env f) Q s m.
Proof. intros [] HQ. astep. by apply HQ. Qed.

Lemma kwp_core f (Q : unit -> arm_state -> mem -> Prop) s m :
  base s m ->
  (forall s', base s' m -> moves s s' -> cpu_of s' = cpu_of s -> bk_env (st_backend s') = bk_env (st_backend s) ->
    Q tt s' m) -> wp (mod_core f) Q s m.
Proof. intros [] HQ. astep. by apply HQ. Qed.

Lemma kwp_clear (Q : unit -> arm_state -> mem -> Prop) s m :
  base s m -> (forall s', base s' m -> moves s s' -> cpu_of s' = cpu_of s -> Q tt s' m) ->
  wp ClearTransientHalts Q s m.
Proof. intros Hb HQ. apply kwp_env; [done|]. intros s' ? ? ? _. by apply HQ. Qed.

Lemma kwp_SetPC pc (Q : unit -> arm_state -> mem -> Prop) s m :
  base s m ->
  (forall s', base s' m -> moves s s' -> cpu_regs (cpu_of s') = cpu_regs (cpu_of s) -> Q tt s' m) ->
  wp (SetPC pc) Q s m.
Proof. intros [] HQ. astep. apply HQ; [|done..]. split; try done. by apply with_cpu_pc_wf. Qed.

Lemma kwp_restore before (Q : unit -> arm_state -> mem -> Prop) s m :
  base s m -> cpu_wf before ->
  (forall s', base s' m -> moves s s' -> cpu_of s' = before -> Q tt s' m) -> wp (RestoreSnapshot before) Q s m.
Proof. intros [] Hb HQ. astep. by apply HQ. Qed.

Lemma kwp_export_to d (Q : gem_thread_context -> arm_state -> mem -> Prop) s m :
  base s m -> (forall s', base s' m -> moves s s' -> cpu_of s' = cpu_of s -> Q (export_cpu (cpu_of s) d) s' m) ->
  wp (export_to d) Q s m.
Proof.
  intros [? Hr ? ? Hcpu] HQ. unfold export_to. astep. apply HQ; [|done..]. split; try done.
  cbn [st_runtime]. destruct (is_native _); [|done].
  destruct Hr as (? & ? & ? & ? & ? & ? & ?). split_and!; try done.
  apply Forall_array; [done|]. apply Forall_drop, Hcpu.
Qed.

Lemma kwp_export (Q : unit -> arm_state -> mem -> Prop) s m :
  base s m ->
  (forall s', base s' m -> st_context s' = export_cpu (cpu_of s) (st_context s) ->
    st_opaque s' = st_opaque s -> cpu_of s' = cpu_of s -> Q tt s' m) -> wp ExportContext Q s m.
Proof.
  intros Hb HQ. unfold ExportContext. apply kwp_bind, kwp_gets, kwp_bind, kwp_export_to; [done|].
  intros s' [] [Hc Ho] Hcpu. astep. apply HQ; try done. split; try done.
  - cbn [st_context put_context]. etrans; [apply (base_frame _ _ Hb)|apply arm_export_frame].
  - apply export_wf; apply Hb.
Qed.

Lemma export_x18 cpu c : xreg (export_cpu cpu c) 18 = cpu_regs cpu !!! 18%nat.
Proof. done. Qed.

Lemma base_teb s m : base s m -> c_teb (st_context s) = c_teb c0.
Proof. intros [_ _ (_ & _ & _ & _ & _ & _ & _ & _ & H & _) _ _]. exact H. Qed.

Lemma ready_valid s m : ready s m -> context_is_arm64ec_valid (Some (st_context s)) = true.
Proof. intros [[] ? _ _]. by eapply arm64ec_valid_frame. Qed.

#[local] Opaque stop_clear stop_info ClearTransientHalts SetPC RestoreSnapshot ExportContext export_to
  mod_env mod_core ImportContext execute teb_guard call_broker count_transition.

(** The steps of a body, by the lemmas above; what they leave is the facts on
    the new state. *)
Ltac step_with H Hb s :=
  apply kwp_bind; apply H; [exact Hb|..].

Lemma kwp_teb_guard before retired_before status (Q : unit -> arm_state -> mem -> Prop) s m :
  base s m -> cpu_wf before -> Js (st_opaque s) -> 0 <= retired_before <= budget ->
  (xreg (st_context s) 18 = c_teb c0 -> Q tt s m) -> wp (teb_guard before retired_before status) Q s m.
Proof.
  intros Hb Hbefore Ho Hret HQ. Transparent teb_guard. unfold teb_guard. Opaque teb_guard.
  apply kwp_bind, kwp_gets. apply kwp_when; intros Hx.
  - apply kwp_bind, kwp_restore; [done..|]. intros s1 Hb1 [Hc1 Ho1] Hcpu1.
    apply kwp_bind, kwp_export; [done|]. intros s2 Hb2 Hc2 Ho2 Hcpu2.
    apply kwp_stop_clear; [done|]. split_and!; try lia; [done|]. left. by rewrite Ho2, Ho1.
  - apply HQ. apply negb_false_iff, Z.eqb_eq in Hx. rewrite Hx. by eapply base_teb.
Qed.

Lemma same_runtime_metadata r : same_runtime r -> metadata_ok r.
Proof. intros (_ & Hm & Hf & _). unfold metadata_ok. by rewrite Hm, Hf. Qed.

(** A run or a step of the recompiler: new registers, memory and environment. *)
Lemma kwp_execute call (Q : Z -> arm_state -> mem -> Prop) s m :
  base s m -> env_ok (bk_env (st_backend s)) ->
  (forall halt s' m', base s' m' -> moves s s' ->
    env_ok (bk_env (st_backend s')) ->
    e_ticks_left (bk_env (st_backend s')) <= e_ticks_left (bk_env (st_backend s)) -> Q halt s' m') ->
  wp (execute call) Q s m.
Proof.
  intros [Hm Hr Hf Hc Hcpu] He HQ. Transparent execute. unfold execute. Opaque execute.
  apply kwp_bind, kwp_gets, kwp_bind. eapply kwp_lift;
    [apply (run_jit_triple (st_runtime s) _ _ (same_runtime_metadata _ Hr) He)|exact Hm|].
  intros [res e] m' [Hm' [He' Ht]]. apply kwp_bind. apply kwp_modify. apply kwp_ret.
  apply HQ; [|done..]. split; try done. apply cpu_typed_wf.
Qed.

Lemma import_cpu_wf r c : same_runtime r -> context_wf c -> cpu_wf (import_cpu r c).
Proof.
  intros (_ & _ & _ & _ & _ & _ & Hu) (_ & _ & _ & Hx & ? & ? & ? & ? & ? & _ & _ & Hv & _).
  unfold import_cpu, cpu_wf. cbn [cpu_regs cpu_vectors cpu_sp cpu_pc cpu_pstate cpu_fpcr cpu_fpsr].
  split_and!; try done; [by apply Forall_array| |by apply mask_u32].
  apply Forall_app. split; [apply Forall_array; auto with gem|].
  destruct (is_native _); [apply Forall_array; auto with gem|]. apply Forall_replicate. auto with gem.
Qed.

Lemma kwp_import c (Q : unit -> arm_state -> mem -> Prop) s m :
  base s m -> context_wf c ->
  (forall s', base s' m -> moves s s' -> bk_env (st_backend s') = bk_env (st_backend s) ->
    cpu_regs (cpu_of s') = array 31 (c_x c) -> cpu_pc (cpu_of s') = c_pc c -> Q tt s' m) ->
  wp (ImportContext c) Q s m.
Proof.
  intros [Hm Hr Hf Hc Hcpu] Hwf HQ. Transparent ImportContext. unfold ImportContext. Opaque ImportContext.
  apply kwp_bind, kwp_gets, kwp_bind. apply kwp_modify.
  Transparent mod_core. apply kwp_modify. Opaque mod_core. apply HQ; [|done..]. split; try done.
  by apply import_cpu_wf.
Qed.

Lemma array_x18 c : context_wf c -> array 31 (c_x c) !!! 18%nat = xreg c 18.
Proof. intros _. reflexivity. Qed.

(** The broker: what it leaves when it did not handle the boundary, or when its
    answer passes the checks. *)
Lemma broker_accepts r teb pc action boundary_kind d :
  broker_rejected r teb pc action boundary_kind d = false ->
  action <> GEM_ARM64EC_BOUNDARY_FAIL /\ xreg d 18 = teb /\ gem_context_is_valid (Some d) = true.
Proof.
  unfold broker_rejected. intros H. bool_to_Z. split_and!; [done|done|].
  repeat match goal with H : negb _ = false |- _ => apply negb_false_iff in H end. done.
Qed.

Lemma kwp_call_broker broker pc c (Q : Z * Z * gem_thread_context -> arm_state -> mem -> Prop) s m :
  base s m -> Js (st_opaque s) -> ar_boundary_broker (st_runtime s) = Some broker ->
  context_wf c -> context_is_arm64ec_valid (Some c) = true -> c_pc c = pc ->
  (forall action boundary_kind d s' m', base s' m' -> st_context s' = st_context s -> cpu_of s' = cpu_of s ->
    arm_frame c d -> context_wf d ->
    (if action =? GEM_ARM64EC_BOUNDARY_STOP then d = c /\ 1 <= boundary_kind <= 4 /\ Jstop (st_opaque s')
     else Js (st_opaque s')) -> Q (action, boundary_kind, d) s' m') ->
  wp (call_broker broker pc c) Q s m.
Proof.
  intros [Hm Hr Hf Hc Hcpu] Ho Hb Hwf Hv Hpc HQ. Transparent call_broker. unfold call_broker. Opaque call_broker.
  pose proof Hr as (_ & _ & _ & Hbr & _). rewrite Hb in Hbr. symmetry in Hbr.
  apply kwp_bind, kwp_gets, kwp_bind. eapply kwp_lift; [by apply (Hbroker broker Hbr pc c)|exact Hm|].
  intros [[[action boundary_kind] d] o'] m' (Hm' & Hfd & Hwd & Hst). apply kwp_bind. apply kwp_modify, kwp_ret.
  by apply HQ.
Qed.

Lemma kwp_count (Q : unit -> arm_state -> mem -> Prop) s m :
  base s m -> (forall s', base s' m -> moves s s' -> cpu_of s' = cpu_of s -> Q tt s' m) ->
  wp count_transition Q s m.
Proof. intros [] HQ. Transparent count_transition. by apply kwp_modify, HQ. Opaque count_transition. Qed.

Lemma kwp_put_context c (Q : unit -> arm_state -> mem -> Prop) s m :
  base s m -> arm_frame c0 c -> context_wf c ->
  (forall s', base s' m -> st_context s' = c -> st_opaque s' = st_opaque s -> cpu_of s' = cpu_of s -> Q tt s' m) ->
  wp (put_context c) Q s m.
Proof. intros [] Hf Hc HQ. by apply kwp_modify, HQ. Qed.
#[local] Opaque put_context.

(** A stopping broker is only overruled by the transition limit. *)
Lemma stop_rejected r teb pc action boundary_kind c :
  context_is_arm64ec_valid (Some c) = true -> xreg c 18 = teb -> c_pc c = pc ->
  action = GEM_ARM64EC_BOUNDARY_STOP -> 1 <= boundary_kind <= 4 ->
  broker_rejected r teb pc action boundary_kind c = true -> ac_max_transitions (ar_config r) <> 0.
Proof.
  intros [Hv _]%andb_true_iff Hx Hpc -> Hk. unfold broker_rejected, GEM_ARM64EC_BOUNDARY_CHECK_ICALL,
    GEM_ARM64EC_BOUNDARY_DISPATCH_RETURN.
  rewrite Hv, Hx, Hpc, !Z.eqb_refl, (proj2 (Z.ltb_ge boundary_kind 1)), (proj2 (Z.ltb_ge 4 boundary_kind)) by lia.
  cbn. intros [H _]%andb_true_iff. by apply negb_true_iff, Z.eqb_neq in H.
Qed.

Lemma stop_ok_other reason retired o :
  reason <> GEM_STOP_BUDGET_EXPIRED -> 0 <= retired <= budget -> Js o -> forall c, stop_ok reason retired o c.
Proof. intros. split_and!; try lia; [done|]. by left. Qed.

Lemma stop_ok_full reason o : Js o -> forall c, stop_ok reason budget o c.
Proof. intros. unfold is_u64 in Hbudget. split_and!; try lia. by left. Qed.

Lemma stop_ok_live reason retired o : live -> 0 <= retired <= budget -> Js o -> forall c, stop_ok reason retired o c.
Proof. intros. split_and!; try lia; [by left|]. by left. Qed.

(** What a round of the segment loop leaves when it goes on. *)
Definition round_ok (n : svc_next) (s : arm_state) (m : mem) : Prop :=
  ready s m /\ match n with SvcContinue retired _ | SvcBreak retired => 0 <= retired <= budget end.

Lemma kwp_svc_pending before retired_before retired zero s m :
  base s m -> cpu_wf before -> Js (st_opaque s) -> env_ok (bk_env (st_backend s)) ->
  0 <= retired_before <= retired /\ retired <= budget ->
  wp (svc_pending before retired_before retired zero) round_ok s m.
Proof.
  intros Hb Hbefore Ho (Hne1 & Hne2 & _) Hret. unfold svc_pending. apply kwp_bind, kwp_gets.
  set (e := bk_env (st_backend s)) in *. cbv zeta.
  set (svc_boundary := bool_decide (e_pending_reason e = GEM_STOP_ARCH_TRANSITION) &&
                       (e_pending_engine_status e =? GEM_ARM64EC_BOUNDARY_SVC)).
  set (fetch_boundary := bool_decide (e_pending_reason e = GEM_STOP_HOST_RETURN) ||
                         (bool_decide (e_pending_reason e = GEM_STOP_ARCH_TRANSITION) && negb svc_boundary)).
  set (boundary_retired := if svc_boundary && (retired_before <? retired) then retired - 1 else retired).
  assert (0 <= boundary_retired <= budget) as Hbr.
  { subst boundary_retired. destruct svc_boundary; cbn [andb]; [|lia].
    destruct (Z.ltb_spec retired_before retired); lia. }
  clearbody svc_boundary fetch_boundary boundary_retired.
  set (pc := cpu_pc (cpu_of s)).
  assert (forall Q : unit -> arm_state -> mem -> Prop,
    (forall s1, base s1 m -> moves s s1 -> Q tt s1 m) ->
    wp (if fetch_boundary || svc_boundary then SetPC (e_pending_fault_address e)
        else when (4 <=? pc) (SetPC (pc - 4))) Q s m) as Hset.
  { intros Q HQ. destruct (_ || _); [apply kwp_SetPC; auto|].
    apply kwp_when; intros _; [apply kwp_SetPC; auto|]. by apply HQ. }
  apply kwp_bind, kwp_gets, kwp_bind, Hset. clear Hset. intros s1 Hb1 [Hc1 Ho1].
  apply kwp_bind, kwp_export; [done|]. intros s2 Hb2 Hc2 Ho2 Hcpu2.
  apply kwp_bind, kwp_teb_guard; [done..|by rewrite Ho2, Ho1|lia|]. intros Hx.
  apply kwp_bind, kwp_gets, kwp_bind, kwp_gets, kwp_bind.
  assert (Js (st_opaque s2)) as Ho'' by (by rewrite Ho2, Ho1).
  assert (forall s3 m3, base s3 m3 -> Js (st_opaque s3) ->
    wp (stop_clear (A := svc_next) (e_pending_reason e) boundary_retired (e_pending_fault_address e)
          (e_pending_access e) (e_pending_memory_error e) (e_pending_engine_status e)) round_ok s3 m3) as Hstop.
  { intros s3 m3 Hb3 Ho3. apply kwp_stop_clear; [done|]. by apply stop_ok_other. }
  assert (context_is_arm64ec_valid (Some (st_context s2)) = true) as Hv2
    by (by eapply arm64ec_valid_frame; [|apply Hb2|]).
  destruct (ar_boundary_broker (st_runtime s2)) as [broker|] eqn:Ebr; [|by apply kwp_ret, Hstop].
  destruct (bool_decide _); [|by apply kwp_ret, Hstop].
  apply kwp_bind, kwp_call_broker; [done..|by apply Hb2|done|done|].
  intros action boundary_kind d s3 m3 Hb3 Hc3 Hcpu3 Hfd Hwd Hstp.
  destruct (Z.eqb_spec action GEM_ARM64EC_BOUNDARY_NOT_HANDLED) as [->|Hna]; [by apply kwp_ret, Hstop|].
  destruct (broker_rejected _ _ _ _ _ _) eqn:Erej.
  { apply kwp_stop_clear; [done|]. split_and!; try lia; [done|].
    destruct (Z.eqb_spec action GEM_ARM64EC_BOUNDARY_STOP) as [Ea|]; [|by left].
    destruct Hstp as (-> & Hk & Ho3). right. split; [done|]. right.
    destruct (base_runtime _ _ Hb2) as (<- & _). eapply stop_rejected; [exact Hv2| | |exact Ea|exact Hk|exact Erej]; [|done].
    by rewrite Hx, (base_teb _ _ Hb2). }
  apply kwp_bind, kwp_count; [done|]. intros s4 Hb4 [Hc4 Ho4] Hcpu4.
  assert (arm_frame c0 d) as Hfd0 by (etrans; [apply (base_frame _ _ Hb2)|done]).
  destruct (Z.eqb_spec action GEM_ARM64EC_BOUNDARY_STOP) as [Ea|Hns].
  - destruct Hstp as (-> & Hk & Ho3). apply kwp_bind, kwp_put_context; [done..|]. intros s5 Hb5 Hc5 Ho5 _.
    apply kwp_stop_clear; [done|]. split_and!; try lia; [done|]. right. rewrite Ho5, Ho4. split; [done|]. left. by rewrite Hc5.
  - apply broker_accepts in Erej as (_ & Hxd & _). rewrite (base_teb _ _ Hb2) in Hxd.
    apply kwp_bind, kwp_import; [done..|]. intros s5 Hb5 [Hc5 Ho5] _ Hregs5 _.
    apply kwp_bind, kwp_put_context; [done..|]. intros s6 Hb6 Hc6 Ho6 Hcpu6.
    apply kwp_bind, kwp_clear; [done|]. intros s7 Hb7 [Hc7 Ho7] Hcpu7. apply kwp_ret, kwp_ret.
    split; [|done]. split; [done| | |].
    + by rewrite Hc7, Hc6.
    + by rewrite Hcpu7, Hcpu6, Hregs5, array_x18.
    + by rewrite Ho7, Ho6, Ho5, Ho4.
Qed.

Lemma kwp_svc_halted before halt retired_before retired zero s m :
  base s m -> cpu_wf before -> Js (st_opaque s) -> 0 <= retired_before <= retired /\ retired <= budget ->
  live -> wp (svc_halted before halt budget retired_before retired zero) round_ok s m.
Proof.
  intros Hb Hbefore Ho Hret Hlive. unfold svc_halted.
  apply kwp_bind, kwp_when; intros _.
  { apply kwp_bind, kwp_export; [done|]. intros s1 Hb1 Hc1 Ho1 _.
    apply kwp_bind, kwp_teb_guard; [done..|by rewrite Ho1|lia|]. intros _.
    apply kwp_stop_clear; [done|]. apply stop_ok_live; [done|lia|]. by rewrite Ho1. }
  apply kwp_bind, kwp_when; intros _.
  { apply kwp_bind, kwp_restore; [done..|]. intros s1 Hb1 [Hc1 Ho1] _.
    apply kwp_bind, kwp_export; [done|]. intros s2 Hb2 Hc2 Ho2 _.
    apply kwp_stop_clear; [done|]. apply stop_ok_other; [done|lia|]. by rewrite Ho2, Ho1. }
  apply kwp_bind, kwp_when; intros _.
  { apply kwp_bind, kwp_export; [done|]. intros s2 Hb2 Hc2 Ho2 _.
    apply kwp_stop_clear; [done|]. apply stop_ok_other; [done|lia|]. by rewrite Ho2. }
  apply kwp_bind, kwp_export; [done|]. intros s1 Hb1 Hc1 Ho1 Hcpu1.
  apply kwp_bind, kwp_teb_guard; [done..|by rewrite Ho1|lia|]. intros Hx.
  apply kwp_bind, kwp_when; intros Hr.
  { apply kwp_stop_clear; [done|]. apply stop_ok_live; [done|lia|]. by rewrite Ho1. }
  apply kwp_bind, kwp_clear; [done|]. intros s2 Hb2 [Hc2 Ho2] Hcpu2. apply kwp_ret. split; [|lia].
  split; [done| | |].
  - by rewrite Hc2.
  - by rewrite Hcpu2, Hcpu1, <- Hx, Hc1.
  - by rewrite Ho2, Ho1.
Qed.

Lemma env_ok_reset ticks deferred e :
  0 <= ticks -> env_ok (SetTickBudget ticks (SetDeferredGuard deferred (ResetInstruction e))).
Proof. by repeat split. Qed.

(** Back to the registers before a segment, whose context is ready again. *)
Lemma kwp_back before (Q : unit -> arm_state -> mem -> Prop) s m :
  base s m -> cpu_wf before -> cpu_regs before !!! 18%nat = c_teb c0 -> Js (st_opaque s) ->
  (forall s', ready s' m -> Q tt s' m) -> wp (RestoreSnapshot before;; ExportContext) Q s m.
Proof.
  intros Hb Hbefore Hreg Ho HQ. apply kwp_bind, kwp_restore; [done..|]. intros s1 Hb1 [Hc1 Ho1] Hcpu1.
  apply kwp_export; [done|]. intros s2 Hb2 Hc2 Ho2 Hcpu2. apply HQ. split; [done| | |].
  - by rewrite Hc2, export_x18, Hcpu1.
  - by rewrite Hcpu2, Hcpu1.
  - by rewrite Ho2, Ho1.
Qed.

Lemma kwp_assoc {A B C} (k : K (arm_state (S := S)) gem_stop_reason A) (f : A -> K arm_state gem_stop_reason B)
    (g : B -> K arm_state gem_stop_reason C) Q s m :
  wp ((k ≫= f) ≫= g) Q s m -> wp (k ≫= fun a => f a ≫= g) Q s m.
Proof.
  unfold kwp, mbind, K_bind, mbind, M_bind. by destruct (k s m) as [[[[[r|a] s']|] m']| |].
Qed.

Lemma ready_env s s' m : ready s m -> base s' m -> moves s s' -> cpu_of s' = cpu_of s -> ready s' m.
Proof. intros [] Hb [Hc Ho] Hcpu. split; [done|by rewrite Hc|by rewrite Hcpu|by rewrite Ho]. Qed.

Lemma kwp_svc_round retired_before zero s m :
  ready s m -> 0 <= retired_before < budget -> live -> wp (svc_round budget retired_before zero) round_ok s m.
Proof.
  intros [Hb Hx Hreg Ho] Hret Hlive. unfold svc_round. cbv zeta.
  pose proof (base_cpu _ _ Hb) as Hbefore.
  apply kwp_bind, kwp_gets, kwp_bind, kwp_env; [done|]. intros s1 Hb1 [Hc1 Ho1] Hcpu1 He1.
  apply kwp_bind, kwp_execute; [done|rewrite He1; apply env_ok_reset; lia|].
  rewrite He1. cbn [e_ticks_left SetTickBudget]. intros halt s2 m2 Hb2 [Hc2 Ho2] Hok2 Ht2.
  apply kwp_bind, kwp_env; [done|]. intros s3 Hb3 [Hc3 Ho3] Hcpu3 He3.
  assert (env_ok (bk_env (st_backend s3)) /\
    0 <= e_ticks_left (bk_env (st_backend s3)) <= budget - retired_before) as [Hok3 Ht3].
  { rewrite He3. destruct Hok2 as (? & ? & ?). split; [by repeat split|]. cbn. lia. }
  assert (Js (st_opaque s3)) as Ho3' by (by rewrite Ho3, Ho2, Ho1).
  clear s1 Hb1 Hc1 Ho1 Hcpu1 He1 s2 Hb2 Hc2 Ho2 Hok2 Ht2 Hc3 Ho3 Hcpu3 He3.
  apply kwp_bind, kwp_gets, kwp_bind, kwp_gets.
  set (e := bk_env (st_backend s3)) in *.
  unfold is_u64 in Hbudget. unfold wrap64. rewrite Z.mod_small by lia.
  set (ticked := budget - retired_before - e_ticks_left e).
  set (unticked_write := (ticked =? 0) && e_cache_dirty e).
  set (retired := retired_before + (if unticked_write then 1 else ticked)).
  assert (0 <= retired_before <= retired /\ retired <= budget) as Hret2.
  { subst retired unticked_write ticked. destruct (_ && _); lia. }
  clearbody retired. set (stalled := _ && negb (e_cache_dirty e)). clearbody stalled.
  set (zero' := if stalled then _ else _). clearbody zero'.
  apply kwp_bind, kwp_when; intros _.
  { apply kwp_assoc. apply kwp_bind, kwp_back; [done..|]. intros s4 [Hb4 _ _ Ho4].
    apply kwp_stop_clear; [done|]. apply stop_ok_other; [done|lia|done]. }
  apply kwp_bind, kwp_when; intros _.
  { apply kwp_bind, kwp_export; [done|]. intros s4 Hb4 Hc4 Ho4 _. apply kwp_bind, kwp_gets.
    apply kwp_stop_clear; [done|]. apply stop_ok_other; [done|lia|by rewrite Ho4]. }
  apply kwp_bind.
  assert (forall Q : unit -> arm_state -> mem -> Prop,
    (forall s4, base s4 m2 -> Js (st_opaque s4) -> bk_env (st_backend s4) = e -> Q tt s4 m2) ->
    wp (when (e_cache_dirty e || HasHalt halt HaltCacheInvalidation) (mod_core jit_ClearCache)) Q s3 m2) as Hclear.
  { intros Q HQ. apply kwp_when; intros _; [|by apply HQ].
    apply kwp_core; [done|]. intros s4 Hb4 [Hc4 Ho4] _ He4. apply HQ; [done|by rewrite Ho4|done]. }
  apply Hclear. clear Hclear. intros s4 Hb4 Ho4 He4.
  destruct (bool_decide_reflect (e_pending_reason e = GEM_STOP_MEMORY_FAULT)).
  { apply kwp_assoc. apply kwp_bind, kwp_back; [done..|]. intros s5 Hr5.
    apply kwp_bind, kwp_env; [apply Hr5|]. intros s6 Hb6 Hm6 Hcpu6 _.
    apply kwp_bind, kwp_clear; [done|]. intros s7 Hb7 Hm7 Hcpu7. apply kwp_ret. split; [|lia].
    by apply (ready_env s6 s7); [apply (ready_env s5 s6)|..]. }
  destruct (bool_decide (e_pending_reason e = GEM_STOP_ARCH_TRANSITION) && _).
  { apply kwp_bind, kwp_SetPC; [done|]. intros s5 Hb5 [Hc5 Ho5] Hregs5.
    apply kwp_bind, kwp_export; [done|]. intros s6 Hb6 Hc6 Ho6 Hcpu6.
    apply kwp_bind, kwp_teb_guard; [done..|by rewrite Ho6, Ho5|lia|]. intros Hx6.
    assert (ready s6 m2) as Hr6.
    { split; [done|done| |by rewrite Ho6, Ho5]. by rewrite Hcpu6, <- Hx6, Hc6. }
    apply kwp_bind, kwp_env; [done|]. intros s7 Hb7 Hm7 Hcpu7 _.
    apply kwp_bind, kwp_clear; [done|]. intros s8 Hb8 Hm8 Hcpu8. apply kwp_ret. split; [|lia].
    by apply (ready_env s7 s8); [apply (ready_env s6 s7)|..]. }
  destruct (negb _); [apply kwp_svc_pending; (done || by rewrite He4)|by apply kwp_svc_halted].
Qed.

Lemma kwp_svc_loop fuel retired zero s m :
  ready s m -> 0 <= retired <= budget -> live ->
  wp (svc_loop fuel budget retired zero) (fun retired' s' m' => ready s' m' /\ 0 <= retired' <= budget) s m.
Proof.
  intros Hr Hret Hlive. revert retired zero s m Hr Hret. induction fuel as [|fuel IH]; intros retired zero s m Hr Hret;
    cbn [svc_loop]; destruct (Z.ltb_spec retired budget); cbn [negb]; try by apply kwp_ret.
  - exact Hlive.
  - apply kwp_bind. eapply kwp_mono; [apply kwp_svc_round; [done|lia|done]| |done].
    intros [retired' zero'|retired'] s' m' [Hr' Hret']; [by apply IH|by apply kwp_ret].
Qed.

(** The native profile's own check of x18. *)
Lemma kwp_teb_check before (Q : unit -> arm_state -> mem -> Prop) s m :
  base s m -> cpu_wf before -> Js (st_opaque s) ->
  (xreg (st_context s) 18 = c_teb c0 -> Q tt s m) ->
  wp (c ← gets st_context;
      when (negb (xreg c 18 =? c_teb c))
        (RestoreSnapshot before;; ExportContext;;
         stop_clear GEM_STOP_INVARIANT_VIOLATION 0 0 GEM_ARM64EC_ACCESS_NONE GEM_MEMORY_OK 0)) Q s m.
Proof.
  intros Hb Hbefore Ho HQ. apply kwp_bind, kwp_gets. apply kwp_when; intros Hx.
  - apply kwp_bind, kwp_restore; [done..|]. intros s1 Hb1 [Hc1 Ho1] Hcpu1.
    apply kwp_bind, kwp_export; [done|]. intros s2 Hb2 Hc2 Ho2 Hcpu2.
    unfold is_u64 in Hbudget. apply kwp_stop_clear; [done|]. apply stop_ok_other; [done|lia|]. by rewrite Ho2, Ho1.
  - apply HQ. apply negb_false_iff, Z.eqb_eq in Hx. rewrite Hx. by eapply base_teb.
Qed.

Lemma kwp_clear_cache b s m (Q : unit -> arm_state -> mem -> Prop) :
  base s m ->
  (forall s', base s' m -> moves s s' -> cpu_of s' = cpu_of s ->
    bk_env (st_backend s') = bk_env (st_backend s) -> Q tt s' m) ->
  wp (when b (mod_core jit_ClearCache)) Q s m.
Proof. intros Hb HQ. apply kwp_when; intros _; [by apply kwp_core|by apply HQ]. Qed.

Lemma kwp_native_block s m :
  ready s m -> env_ok (bk_env (st_backend s)) ->
  wp (native_block budget) (fun retired s' m' => ready s' m' /\ 0 <= retired <= budget) s m.
Proof.
  intros [Hb Hx Hreg Ho] Henv. unfold native_block. cbv zeta. unfold is_u64 in Hbudget.
  pose proof (base_cpu _ _ Hb) as Hbefore.
  apply kwp_bind, kwp_gets, kwp_bind, kwp_env; [done|]. intros s1 Hb1 [Hc1 Ho1] Hcpu1 He1.
  apply kwp_bind, kwp_execute; [done| |].
  { rewrite He1. destruct Henv as (? & ? & ?). repeat split; try done. cbn. lia. }
  rewrite He1. cbn [e_ticks_left SetTickBudget]. intros halt s2 m2 Hb2 [Hc2 Ho2] Hok2 Ht2.
  apply kwp_bind, kwp_env; [done|]. intros s3 Hb3 [Hc3 Ho3] Hcpu3 He3.
  assert (env_ok (bk_env (st_backend s3)) /\ 0 <= e_ticks_left (bk_env (st_backend s3)) <= budget) as [Hok3 Ht3].
  { rewrite He3. destruct Hok2 as (? & ? & ?). split; [by repeat split|]. cbn. lia. }
  assert (Js (st_opaque s3)) as Ho3' by (by rewrite Ho3, Ho2, Ho1).
  clear s1 Hb1 Hc1 Ho1 Hcpu1 He1 s2 Hb2 Hc2 Ho2 Hok2 Ht2 Hc3 Ho3 Hcpu3 He3.
  apply kwp_bind, kwp_gets. set (e := bk_env (st_backend s3)) in *.
  unfold wrap64. rewrite Z.mod_small by lia. set (native_retired := budget - e_ticks_left e).
  assert (0 <= native_retired <= budget) as Hret by lia. clearbody native_retired.
  apply kwp_bind, kwp_clear_cache; [done|]. intros s4 Hb4 [Hc4 Ho4] _ _.
  assert (Js (st_opaque s4)) as Ho4' by (by rewrite Ho4).
  apply kwp_bind. eapply (kwp_mono _ _ (fun retired s5 m5 => base s5 m5 /\ Js (st_opaque s5) /\ 0 <= retired <= budget));
    [| |done].
  - destruct (bool_decide_reflect (e_pending_reason e = GEM_STOP_MEMORY_FAULT)).
    { apply kwp_assoc. apply kwp_bind, kwp_back; [done..|]. intros s5 Hr5.
      apply kwp_bind, kwp_env; [apply Hr5|]. intros s6 Hb6 [Hc6 Ho6] _ _.
      apply kwp_bind, kwp_clear; [done|]. intros s7 Hb7 [Hc7 Ho7] _. apply kwp_ret. split_and!; [done| |lia|lia].
      rewrite Ho7, Ho6. apply Hr5. }
    destruct (negb _).
    { set (fetch_boundary := _ || bool_decide (e_pending_reason e = GEM_STOP_ARCH_TRANSITION)).
      clearbody fetch_boundary. apply kwp_bind, kwp_gets. set (pc := cpu_pc _).
      assert (forall Q : unit -> arm_state -> mem -> Prop,
        (forall s5, base s5 m2 -> moves s4 s5 -> Q tt s5 m2) ->
        wp (if fetch_boundary then SetPC (e_pending_fault_address e) else when (4 <=? pc) (SetPC (pc - 4))) Q s4 m2)
        as Hset.
      { intros Q HQ. destruct fetch_boundary; [apply kwp_SetPC; auto|].
        apply kwp_when; intros _; [apply kwp_SetPC; auto|]. by apply HQ. }
      apply kwp_bind, Hset. intros s5 Hb5 [Hc5 Ho5].
      apply kwp_bind, kwp_export; [done|]. intros s6 Hb6 Hc6 Ho6 _.
      apply kwp_bind, kwp_teb_check; [done..|by rewrite Ho6, Ho5|]. intros _.
      apply kwp_stop_clear; [done|]. destruct Hok3 as (? & _).
      apply stop_ok_other; [done| |by rewrite Ho6, Ho5].
      destruct (fetch_boundary || _) eqn:E; [lia|]. apply orb_false_iff in E as [_ ?%Z.eqb_neq]. lia. }
    destruct (HasHalt halt HaltMemoryAbort).
    { apply kwp_assoc. apply kwp_bind, kwp_back; [done..|]. intros s5 [Hb5 _ _ Ho5].
      apply kwp_stop_clear; [done|]. apply stop_ok_other; [done|lia|done]. }
    destruct (HasHalt halt HaltUserDefined3).
    { apply kwp_bind, kwp_export; [done|]. intros s5 Hb5 _ Ho5 _.
      apply kwp_stop_clear; [done|]. apply stop_ok_other; [done|lia|by rewrite Ho5]. }
    apply kwp_ret. exact (conj Hb4 (conj Ho4' Hret)).
  - cbv beta. intros retired s5 m5 (Hb5 & Ho5 & Hret5).
    apply kwp_bind, kwp_export; [done|]. intros s6 Hb6 Hc6 Ho6 Hcpu6.
    apply kwp_bind, kwp_teb_check; [done..|by rewrite Ho6|]. intros Hx6.
    assert (ready s6 m5) as Hr6 by (split; [done|done|by rewrite Hcpu6, <- Hx6, Hc6|by rewrite Ho6]).
    apply kwp_bind, kwp_when; intros Hfull.
    { apply kwp_stop_clear; [done|]. apply Z.eqb_eq in Hfull as ->. apply stop_ok_full. by rewrite Ho6. }
    apply kwp_bind, kwp_clear; [done|]. intros s7 Hb7 Hm7 Hcpu7. apply kwp_ret. split; [|done].
    by apply (ready_env s6 s7).
Qed.

(** ** The precise loop *)

Lemma base_mem s m m' : base s m -> st pins L m' -> base s m'.
Proof. intros [] Hm. by split. Qed.
Lemma ready_mem s m m' : ready s m -> st pins L m' -> ready s m'.
Proof. intros [Hb] Hm. split; [by eapply base_mem|done..]. Qed.

(** Publish the registers and stop: nothing else happens to a ready state. *)
Lemma kwp_export_stop {A} reason retired a x er status (Q : A -> arm_state -> mem -> Prop) s m :
  base s m -> (forall c, stop_ok reason retired (st_opaque s) c) ->
  wp (ExportContext;; stop_info reason retired a x er status) Q s m.
Proof.
  intros Hb Hs. apply kwp_bind, kwp_export; [done|]. intros s1 Hb1 _ Ho1 _.
  apply kwp_stop_info; [done|]. by rewrite Ho1.
Qed.

Lemma kwp_export_clear {A} reason retired a x er status (Q : A -> arm_state -> mem -> Prop) s m :
  base s m -> (forall c, stop_ok reason retired (st_opaque s) c) ->
  wp (ExportContext;; stop_clear reason retired a x er status) Q s m.
Proof.
  intros Hb Hs. apply kwp_bind, kwp_export; [done|]. intros s1 Hb1 _ Ho1 _.
  apply kwp_stop_clear; [done|]. by rewrite Ho1.
Qed.

Lemma kwp_restore_clear {A} before reason retired a x er status (Q : A -> arm_state -> mem -> Prop) s m :
  base s m -> cpu_wf before -> (forall c, stop_ok reason retired (st_opaque s) c) ->
  wp (RestoreSnapshot before;; ExportContext;; stop_clear reason retired a x er status) Q s m.
Proof.
  intros Hb Hbefore Hs. apply kwp_bind, kwp_restore; [done..|]. intros s1 Hb1 [_ Ho1] _.
  apply kwp_export_clear; [done|]. by rewrite Ho1.
Qed.

Lemma kwp_precise_broker retired s m :
  ready s m -> 0 <= retired <= budget ->
  wp (precise_broker retired) (fun x s' m' => ready s' m' /\ is_u64 x.1) s m.
Proof.
  intros Hr Hret. pose proof Hr as [Hb Hx Hreg Ho]. unfold precise_broker.
  apply kwp_bind, kwp_gets, kwp_bind, kwp_gets.
  assert (is_u64 (cpu_pc (cpu_of s))) as Hpc by apply Hb.
  destruct (ar_boundary_broker (st_runtime s)) as [broker|] eqn:Ebr; [|by apply kwp_ret].
  apply kwp_bind, kwp_gets, kwp_bind, kwp_export_to; [done|]. intros s1 Hb1 [Hc1 Ho1] Hcpu1.
  set (c := st_context s) in *. set (bc := export_cpu (cpu_of s) c).
  assert (xreg bc 18 = c_teb c) as Hx18.
  { subst bc c. rewrite export_x18, Hreg. symmetry. by eapply base_teb. }
  assert (context_is_arm64ec_valid (Some bc) = true) as Hvbc.
  { eapply arm64ec_valid_frame; [by eapply ready_valid|apply arm_export_frame|exact Hx18]. }
  assert (arm_frame c0 bc) as Hfbc by (etrans; [apply (base_frame _ _ Hb)|apply arm_export_frame]).
  assert (context_wf bc) as Hwbc by (apply export_wf; apply Hb).
  apply kwp_bind, kwp_call_broker; [done|by rewrite Ho1| |done..|].
  { destruct (base_runtime _ _ Hb) as (_ & _ & _ & E & _). destruct (base_runtime _ _ Hb1) as (_ & _ & _ & E1 & _).
    by rewrite E1, <- E. }
  intros action boundary_kind d s2 m2 Hb2 Hc2 Hcpu2 Hfd Hwd Hstp. rewrite Hc1 in Hc2. rewrite Hcpu1 in Hcpu2.
  destruct (Z.eqb_spec action GEM_ARM64EC_BOUNDARY_NOT_HANDLED) as [->|Hna].
  { apply kwp_ret. split; [|done]. split; [done|by rewrite Hc2|by rewrite Hcpu2|done]. }
  destruct (broker_rejected _ _ _ _ _ _) eqn:Erej.
  { apply kwp_export_stop; [done|]. intros c'. split_and!; try lia; [done|].
    destruct (Z.eqb_spec action GEM_ARM64EC_BOUNDARY_STOP) as [Ea|]; [|by left].
    destruct Hstp as (-> & Hk & Ho3). right. split; [done|]. right.
    destruct (base_runtime _ _ Hb) as (<- & _).
    eapply stop_rejected; [exact Hvbc|exact Hx18|reflexivity|exact Ea|exact Hk|exact Erej]. }
  apply kwp_bind, kwp_count; [done|]. intros s3 Hb3 [Hc3 Ho3] Hcpu3.
  assert (arm_frame c0 d) as Hfd0 by (by etrans).
  destruct (Z.eqb_spec action GEM_ARM64EC_BOUNDARY_STOP) as [Ea|Hns].
  { destruct Hstp as (-> & Hk & Ho4). apply kwp_bind, kwp_put_context; [done..|]. intros s4 Hb4 Hc4 Ho5 _.
    apply kwp_stop_info; [done|]. split_and!; try lia; [done|]. right. rewrite Ho5, Ho3. split; [done|]. left.
    rewrite Hc4, Hx18. split; [done|]. by eapply base_teb. }
  destruct (negb _).
  { apply kwp_export_stop; [done|]. apply stop_ok_other; [done|done|by rewrite Ho3]. }
  apply broker_accepts in Erej as (_ & Hxd & _).
  assert (c_teb c = c_teb c0) as Hteb by (by eapply base_teb).
  apply kwp_bind, kwp_import; [done..|]. intros s4 Hb4 [Hc4 Ho4] _ Hregs4 _.
  apply kwp_bind, kwp_put_context; [done..|]. intros s5 Hb5 Hc5 Ho5 Hcpu5. apply kwp_ret. split; [|by apply Hwd].
  split; [done| | |].
  - by rewrite Hc5, Hxd.
  - by rewrite Hcpu5, Hregs4, array_x18, Hxd.
  - by rewrite Ho5, Ho4, Ho3.
Qed.

Lemma kwp_precise_sentinels pc resumed retired (Q : unit -> arm_state -> mem -> Prop) s m :
  ready s m -> 0 <= retired <= budget -> Q tt s m -> wp (precise_sentinels pc resumed retired) Q s m.
Proof.
  intros [Hb _ _ Ho] Hret HQ. unfold precise_sentinels. apply kwp_bind, kwp_gets.
  apply kwp_bind, kwp_when; intros _; [by apply kwp_export_stop; [|apply stop_ok_other]|].
  apply kwp_when; intros _; [by apply kwp_export_stop; [|apply stop_ok_other]|done].
Qed.

Lemma kwp_precise_target pc retired s m :
  ready s m -> 0 <= retired <= budget -> is_u64 pc ->
  wp (precise_target pc retired) (fun x s' m' => ready s' m' /\ is_u64 x.1) s m.
Proof.
  intros Hr Hret Hpc. pose proof Hr as [Hb _ Hreg Ho]. unfold precise_target. apply kwp_bind, kwp_gets.
  destruct (negb _); [by apply kwp_ret|].
  apply kwp_bind. eapply kwp_lift; [eapply (ResolveTarget_triple (st_runtime s) pc (st pins L)); [|done]|apply Hb|].
  { apply same_runtime_metadata, Hb. }
  intros t m1 [Hm1 Ht]. apply (ready_mem _ _ _ Hr) in Hm1 as Hr1. pose proof Hr1 as [Hb1 _ _ _].
  destruct t as [status|target].
  { by apply kwp_export_stop; [|apply stop_ok_other]. }
  specialize (Ht _ eq_refl).
  destruct (bool_decide (kind target = _)).
  { apply kwp_bind, kwp_SetPC; [done|]. intros s2 Hb2 [_ Ho2] _.
    apply kwp_export_stop; [done|]. apply stop_ok_other; [done|done|by rewrite Ho2]. }
  apply kwp_bind, kwp_when; intros _; [|by apply kwp_ret].
  apply kwp_SetPC; [done|]. intros s2 Hb2 [Hc2 Ho2] Hregs2. apply kwp_ret. split; [|done].
  split; [done|by rewrite Hc2; apply Hr|by rewrite Hregs2|by rewrite Ho2].
Qed.

Lemma kwp_precise_fetch pc target_kind retired s m :
  ready s m -> 0 <= retired <= budget -> is_u64 pc ->
  wp (precise_fetch pc target_kind retired) (fun _ s' m' => ready s' m') s m.
Proof.
  intros Hr Hret Hpc. unfold precise_fetch. apply kwp_bind.
  eapply kwp_lift; [by apply (fetch_word_triple pc Hpc)|apply Hr|]. intros [error word] m1 Hm1.
  apply (ready_mem _ _ _ Hr) in Hm1 as Hr1. pose proof Hr1 as [Hb1 _ _ Ho1].
  apply kwp_bind, kwp_when; intros _; [by apply kwp_export_stop; [|apply stop_ok_other]|].
  apply kwp_bind, kwp_when; intros _.
  { apply kwp_export_stop; [done|]. apply stop_ok_other; [by destruct (IsBrk word)|done..]. }
  apply kwp_when; intros _; [by apply kwp_export_stop; [|apply stop_ok_other]|done].
Qed.

Lemma kwp_precise_step pc retired s m :
  ready s m -> 0 <= retired < budget -> wp (precise_step pc retired) (fun _ s' m' => ready s' m') s m.
Proof.
  intros [Hb Hx Hreg Ho] Hret. unfold precise_step. pose proof (base_cpu _ _ Hb) as Hbefore.
  apply kwp_bind, kwp_env; [done|]. intros s1 Hb1 [Hc1 Ho1] Hcpu1 He1.
  apply kwp_bind, kwp_gets. rewrite Hcpu1.
  apply kwp_bind, kwp_execute; [done|rewrite He1; by repeat split|].
  intros halt s2 m2 Hb2 [Hc2 Ho2] Hok2 _. apply kwp_bind, kwp_gets, kwp_bind, kwp_gets, kwp_bind, kwp_gets.
  set (e := bk_env (st_backend s2)) in *. pose proof (base_teb _ _ Hb2) as Hteb.
  assert (Js (st_opaque s2)) as Ho2' by (by rewrite Ho2, Ho1).
  set (r := st_runtime s2). rewrite Hteb. clearbody r.
  apply kwp_bind, kwp_clear_cache; [done|]. intros s3 Hb3 [Hc3 Ho3] Hcpu3 _.
  assert (Js (st_opaque s3)) as Ho3' by (by rewrite Ho3).
  assert (forall k, 0 <= k <= 1 -> 0 <= retired + k <= budget) as Hk by lia.
  destruct Hok2 as (Hne1 & _).
  apply kwp_bind, kwp_gets, kwp_bind, kwp_gets, kwp_bind, kwp_when; intros _.
  { destruct (_ && _).
    - by apply kwp_export_clear; [|apply stop_ok_other; [|apply Hk|]].
    - apply kwp_restore_clear; [done..|]. by apply stop_ok_other; [|lia|]. }
  apply kwp_bind, kwp_when; intros _.
  { apply kwp_restore_clear; [done..|]. by apply stop_ok_other; [|lia|]. }
  apply kwp_bind, kwp_when; intros _.
  { apply kwp_bind, kwp_restore; [done..|]. intros s4 Hb4 [_ Ho4] _.
    apply kwp_bind, kwp_export; [done|]. intros s5 Hb5 _ Ho5 _.
    destruct (_ && _); apply kwp_stop_clear; try done; (apply stop_ok_other; [done|lia|]); by rewrite Ho5, Ho4. }
  apply kwp_bind, kwp_when; intros _.
  { apply kwp_export_clear; [done..|]. by apply stop_ok_other; [|lia|]. }
  apply kwp_bind, kwp_env; [done|]. intros s4 Hb4 [Hc4 Ho4] Hcpu4 _.
  assert (Js (st_opaque s4)) as Ho4' by (by rewrite Ho4).
  apply kwp_bind, kwp_when; intros Hx18.
  { apply kwp_restore_clear; [done..|]. by apply stop_ok_other; [|lia|]. }
  apply kwp_bind, kwp_when; intros _.
  { by apply kwp_export_clear; [|apply stop_ok_other; [|apply Hk|]]. }
  apply kwp_bind, kwp_when; intros _.
  { by apply kwp_export_clear; [|apply stop_ok_other; [|apply Hk|]]. }
  apply kwp_clear; [done|]. intros s5 Hb5 [Hc5 Ho5] Hcpu5. split; [done| | |].
  - by rewrite Hc5, Hc4, Hc3, Hc2, Hc1.
  - rewrite Hcpu5, Hcpu4. by apply negb_false_iff, Z.eqb_eq in Hx18.
  - by rewrite Ho5.
Qed.

Lemma kwp_precise_loop n retired s m :
  ready s m -> 0 <= retired -> retired + Z.of_nat n <= budget ->
  wp (precise_loop n retired) (fun retired' s' m' => ready s' m' /\ retired' = retired + Z.of_nat n) s m.
Proof.
  revert retired s m. induction n as [|n IH]; intros retired s m Hr Hlo Hhi; cbn [precise_loop].
  { apply kwp_ret. split; [done|lia]. }
  apply kwp_bind. unfold precise_round. apply kwp_bind.
  eapply kwp_mono; [apply kwp_precise_broker; [done|lia]| |done]. intros [pc resumed] s1 m1 [Hr1 Hpc1].
  apply kwp_bind, kwp_precise_sentinels; [done|lia|]. apply kwp_bind.
  eapply kwp_mono; [apply kwp_precise_target; [done|lia|done]| |done]. intros [pc2 k] s2 m2 [Hr2 Hpc2].
  apply kwp_bind. eapply kwp_mono; [apply kwp_precise_fetch; [done|lia|done]| |done]. intros [] s3 m3 Hr3.
  eapply kwp_mono; [apply kwp_precise_step; [done|lia]| |done]. intros [] s4 m4 Hr4.
  eapply kwp_mono; [apply IH; [done|lia|lia]| |done]. intros retired' s5 m5 [Hr5 ->]. split; [done|lia].
Qed.

(** ** The whole run *)

(** What the configuration checks ensure. *)
Hypothesis Hprofile : is_svc_trap (ar_config r0) = true -> is_native (ar_config r0) = false.

#[local] Opaque svc_loop native_block precise_loop.

Lemma kwp_dynarmic_body fuel r b o m :
  st pins L m -> same_runtime r -> context_wf c0 -> Js o ->
  wp (dynarmic_body fuel budget) run_post (ArmState r b c0 o) m.
Proof.
  intros Hm Hr Hwf Ho. unfold dynarmic_body.
  assert (xreg c0 18 = c_teb c0) as Hx by apply arm64ec_valid_spec, Hvalid.
  Transparent mod_env mod_core ImportContext ClearTransientHalts.
  do 4 (apply kwp_bind, kwp_modify). apply kwp_bind, kwp_gets.
  apply kwp_bind.
  eapply (kwp_mono _ _ (fun _ s1 m1 => m1 = m /\ st_runtime s1 = r /\ st_context s1 = c0 /\ st_opaque s1 = o /\
    e_pending_reason (bk_env (st_backend s1)) = GEM_STOP_NONE /\ e_ticks_left (bk_env (st_backend s1)) = 1)); [| |done].
  { apply kwp_when; intros _; [apply kwp_modify|]; cbn [st_runtime st_context st_opaque st_backend bk_env];
      by destruct (jit_Reset _ _). }
  intros [] [r1 b1 c1 o1] m1 (-> & Hr1 & Hc1 & Ho1 & Hpend & Hticks).
  cbn [st_runtime st_backend st_context st_opaque] in *. subst r1 c1 o1.
  apply kwp_bind, kwp_gets. unfold ImportContext. apply kwp_bind, kwp_bind, kwp_gets, kwp_bind, kwp_modify, kwp_modify.
  Opaque mod_env mod_core ImportContext ClearTransientHalts.
  cbn [st_runtime st_backend st_context st_opaque bk_env bk_core bk_cpu].
  set (s2 := ArmState _ _ c0 o).
  assert (ready s2 m) as Hr2.
  { split; [split; try done; by apply import_cpu_wf|done|exact Hx|done]. }
  Transparent ClearTransientHalts. apply kwp_bind, kwp_env; [apply Hr2|]. Opaque ClearTransientHalts.
  intros s3 Hb3 Hm3 Hcpu3 He3. assert (ready s3 m) as Hr3 by (by apply (ready_env s2 s3)).
  assert (env_ok (bk_env (st_backend s3))) as Hok3 by (rewrite He3; unfold env_ok; cbn; split_and!; (congruence || lia)).
  clearbody s2. clear s2 Hr2 Hb3 Hm3 Hcpu3 He3 Hpend Hticks b1. destruct Hr as (Hconf & _). rewrite Hconf.
  apply kwp_bind. eapply (kwp_mono _ _ (fun retired s4 m4 => ready s4 m4 /\ 0 <= retired <= budget /\
    (is_native (ar_config r0) = true -> env_ok (bk_env (st_backend s4))))); [| |done].
  { unfold is_u64 in Hbudget. destruct (Bool.bool_dec (is_svc_trap (ar_config r0)) true) as [Esvc|Esvc].
    2:{ apply not_true_iff_false in Esvc. rewrite Esvc. apply kwp_ret. split_and!; (done || lia). }
    rewrite Esvc.
    eapply kwp_mono; [apply kwp_svc_loop; [done|lia|done]| |done]. intros retired s4 m4 [Hr4 Hret4].
    split; [done|]. split; [done|]. by rewrite Hprofile. }
  intros retired s4 m4 (Hr4 & Hret4 & Hnat4). apply kwp_bind.
  eapply (kwp_mono _ _ (fun retired s5 m5 => ready s5 m5 /\ 0 <= retired <= budget)); [| |done].
  { destruct (is_native (ar_config r0)); cbn [andb]; [|by apply kwp_ret].
    destruct (_ && _); [by apply kwp_native_block; [|apply Hnat4]|by apply kwp_ret]. }
  intros retired5 s5 m5 [Hr5 Hret5]. apply kwp_bind.
  eapply kwp_mono; [apply kwp_precise_loop; [done|lia|rewrite Z2Nat.id; lia]| |done].
  intros retired6 s6 m6 [[Hb6 _ _ Ho6] ->]. rewrite Z2Nat.id by lia.
  apply kwp_export_stop; [done|]. replace (retired5 + (budget - retired5)) with budget by lia. by apply stop_ok_full.
Qed.
End memory.

(** ** Runs *)

(** A runtime as creation, attachment and earlier runs leave it. *)
Record arm64ec_wf r : Prop := Arm64ecWf {
  aw_metadata : metadata_ok r;
  aw_upper : Forall is_u128 (ar_native_upper_simd r);
  aw_profile : is_svc_trap (ar_config r) = true -> is_native (ar_config r) = false }.

(** A run that passes its entry checks. *)
Definition arm64ec_accepts r (d : gem_thread_context) (budget : Z) : Prop :=
  context_is_arm64ec_valid (Some d) = true /\
  (ac_max_budget (ar_config r) = 0 \/ budget <= ac_max_budget (ar_config r)) /\
  (budget = 0 \/ ar_running r = false).
#[export] Instance arm64ec_accepts_dec r d budget : Decision (arm64ec_accepts r d budget).
Proof. unfold arm64ec_accepts; apply _. Defined.

Definition arm64ec_entered r : gem_arm64ec_runtime := set_ar_transition_count (reset_stop r GEM_STOP_NONE) 0.

Lemma arm64ec_run_rejected fuel r c (o : S) budget m :
  (forall d, c = Some d -> ~ arm64ec_accepts r d budget) ->
  gem_arm64ec_runtime_run fuel (Some r) c o budget m =
    Ok (Some (GEM_STOP_INVARIANT_VIOLATION,
              Some (set_stop_reason (arm64ec_entered r) GEM_STOP_INVARIANT_VIOLATION), c, o), m).
Proof.
  intros Hn. unfold gem_arm64ec_runtime_run. destruct c as [d|]; [|done].
  destruct (context_is_arm64ec_valid (Some d)) eqn:Hv; cbn [negb]; [|done].
  destruct (negb _ && _) eqn:Hb; [done|].
  assert (ac_max_budget (ar_config r) = 0 \/ budget <= ac_max_budget (ar_config r)) as Hmax.
  { apply andb_false_iff in Hb as [Hb|Hb]; bool_to_Z; auto. }
  destruct (Z.eqb_spec budget 0) as [->|]; [by destruct (Hn d eq_refl); split_and!; auto|].
  destruct (ar_running (set_ar_transition_count _ 0)) eqn:Hr; [done|].
  destruct (Hn d eq_refl). split_and!; auto.
Qed.

Lemma arm64ec_run_accepted fuel r d (o : S) budget m :
  arm64ec_accepts r d budget -> budget <> 0 ->
  gem_arm64ec_runtime_run fuel (Some r) (Some d) o budget m =
    (out ← gem_arm64ec_dynarmic_run fuel (set_ar_running (arm64ec_entered r) true) d o budget;
     mret (match out with
           | None => None
           | Some (reason, r, c, o) =>
             let r := set_ar_running r false in
             let '(reason, r, c) :=
               if negb (context_is_arm64ec_valid (Some c))
               then finish_stop (set_stop_retired r 0) c GEM_STOP_INVARIANT_VIOLATION
               else finish_stop r c reason in
             Some (reason, Some r, Some c, o)
           end)) m.
Proof.
  intros (Hv & Hmax & Hrun) Hb. unfold gem_arm64ec_runtime_run. rewrite Hv. cbn [negb].
  assert (negb (ac_max_budget (ar_config r) =? 0) && (ac_max_budget (ar_config r) <? budget) = false) as Hm.
  { apply andb_false_iff. destruct Hmax as [->|]; [by left|right; by apply Z.ltb_ge]. }
  cbn [ar_config set_ar_transition_count reset_stop set_ar_last_stop]. rewrite Hm.
  rewrite (proj2 (Z.eqb_neq _ _) Hb). destruct Hrun as [->|Hrun]; [done|].
  cbn [ar_running set_ar_transition_count reset_stop set_ar_last_stop]. by rewrite Hrun.
Qed.

Lemma same_runtime_entered r :
  Forall is_u128 (ar_native_upper_simd r) -> same_runtime (set_ar_running (arm64ec_entered r) true)
    (set_ar_running (arm64ec_entered r) true).
Proof. by repeat split. Qed.

(** What holds of a finished run. *)
Definition arm64ec_finished (Js Jstop : S -> Prop) r (d : gem_thread_context) (budget : Z)
    (reason : gem_stop_reason) r1 (d' : gem_thread_context) (o' : S) : Prop :=
  let retired := ai_instructions_retired (ar_last_stop r1) in
  0 <= retired <= budget /\
  (reason = GEM_STOP_BUDGET_EXPIRED -> is_svc_trap (ar_config r) = true \/ retired = budget) /\
  context_wf d' /\ arm_frame d d' /\ c_stop_reason d' = stop_value reason /\
  (reason <> GEM_STOP_INVARIANT_VIOLATION -> context_is_arm64ec_valid (Some d') = true) /\
  (Js o' \/ (Jstop o' /\ (reason = GEM_STOP_ARCH_TRANSITION \/ ac_max_transitions (ar_config r) <> 0))).

Lemma arm64ec_finished_intro Js Jstop r d budget reason r1 d1 o1 :
  let retired := ai_instructions_retired (ar_last_stop r1) in
  0 <= retired <= budget -> (reason = GEM_STOP_BUDGET_EXPIRED -> is_svc_trap (ar_config r) = true \/ retired = budget) ->
  context_wf d1 -> arm_frame d d1 ->
  (reason <> GEM_STOP_INVARIANT_VIOLATION -> context_is_arm64ec_valid (Some d1) = true) ->
  Js o1 \/ (Jstop o1 /\ (reason = GEM_STOP_ARCH_TRANSITION \/ ac_max_transitions (ar_config r) <> 0)) ->
  arm64ec_finished Js Jstop r d budget reason r1 (with_stop_reason d1 reason) o1.
Proof.
  intros retired Hret Hexp Hwf Hf Hv Ho. split; [done|]. split; [done|]. split; [by apply with_stop_reason_wf|].
  split; [done|]. split; [done|]. split; [|done]. intros H. specialize (Hv H). by destruct d1.
Qed.

(** What a run leaves of its runtime. *)
Definition arm64ec_left r r1 : Prop :=
  ar_config r1 = ar_config r /\ ar_target_map r1 = ar_target_map r /\
  ar_target_resolver r1 = ar_target_resolver r /\ ar_boundary_broker r1 = ar_boundary_broker r /\
  ar_boundary_return_pc r1 = ar_boundary_return_pc r /\ ar_running r1 = ar_running r /\
  Forall is_u128 (ar_native_upper_simd r1).

Lemma arm64ec_left_wf r r1 : arm64ec_wf r -> arm64ec_left r r1 -> arm64ec_wf r1.
Proof.
  intros [[Hm Hf] Hu Hprof] (Hc & Hmap & Hres & _ & _ & _ & Hu1). split; [split| |]; rewrite ?Hc, ?Hmap, ?Hres; done.
Qed.

(** The run itself, once it is accepted. *)
Lemma arm64ec_run_inside pins L Js Jstop fuel r d (o : S) budget m :
  (forall b, 0 <= pins b) -> st pins L m -> arm64ec_wf r ->
  (forall broker, ar_boundary_broker r = Some broker -> broker_ok pins L Js Jstop broker) ->
  is_u64 budget -> context_wf d -> Js o -> arm64ec_accepts r d budget ->
  match gem_arm64ec_runtime_run fuel (Some r) (Some d) o budget m with
  | Fault => False
  | Err _ => True
  | Ok (None, _) => is_svc_trap (ar_config r) = true
  | Ok (Some (reason, r', c', o'), m') =>
    st pins L m' /\ exists r1 d', r' = Some r1 /\ c' = Some d' /\ arm64ec_left r r1 /\
      ai_reason (ar_last_stop r1) = reason /\ arm64ec_finished Js Jstop r d budget reason r1 d' o'
  end.
Proof.
  intros Hp Hm [Hmeta Hup Hprof] Hbr Hb Hwf Ho Ha. destruct (Z.eqb_spec budget 0) as [->|Hb0].
  { destruct Ha as (Hv & Hmax & _). unfold gem_arm64ec_runtime_run. rewrite Hv. cbn [negb].
    rewrite (proj2 (andb_false_iff _ _)) by (destruct Hmax as [E|E]; [left|right];
      cbn [ar_config set_ar_transition_count reset_stop set_ar_last_stop]; [by rewrite E|by apply Z.ltb_ge]).
    split; [done|]. eexists _, _. split; [done|]. split; [done|]. split; [by repeat split|]. split; [done|].
    apply arm64ec_finished_intro; try done; [by right|by left]. }
  rewrite arm64ec_run_accepted by done. destruct Ha as (Hv & _ & Hrun).
  destruct Hrun as [|Hrun]; [done|].
  unfold gem_arm64ec_dynarmic_run. cbn [ar_backend set_ar_running arm64ec_entered set_ar_transition_count reset_stop set_ar_last_stop].
  destruct (ar_backend r) as [b|].
  2:{ unfold mbind, M_bind, mret, M_ret. rewrite Hv. cbn [negb finish_stop]. split; [done|]. eexists _, _.
      split; [done|]. split; [done|]. split; [by repeat split|]. split; [done|].
      unfold is_u64 in Hb. apply arm64ec_finished_intro; try done; [cbn; lia|by left]. }
  set (re := set_ar_backend _ None).
  pose proof (kwp_dynarmic_body pins L Hp Js Jstop re d budget Hmeta Hbr Hv Hb Hprof fuel re b o m Hm
    (same_runtime_entered r Hup) Hwf Ho) as Hwp.
  unfold mbind, M_bind.
  apply kwp_body in Hwp. destruct (body _ _ m) as [[[[reason s]|] m']| |]; [|done..].
  destruct s as [r1 b1 d1 o1]. destruct Hwp as ([Hm' Hs Hf Hwf' _] & Hreason & (Hret & Hexp & Hopq)).
  cbn [st_runtime st_backend st_context st_opaque mret M_ret] in *. destruct Hs as (Hc & Hmap & Hres & Hbrk & Hpc & _ & Hu1).
  destruct (context_is_arm64ec_valid (Some d1)) eqn:Hv1; cbn [negb finish_stop].
  - split; [done|]. eexists _, _. split; [done|]. split; [done|]. split; [by split_and!|]. split; [done|].
    apply arm64ec_finished_intro; try done. destruct Hopq as [|[? [[? _]|?]]]; auto.
  - split; [done|]. eexists _, _. split; [done|]. split; [done|]. split; [by split_and!|]. split; [done|].
    unfold is_u64 in Hb. apply arm64ec_finished_intro; try done; [cbn; lia|].
    destruct Hopq as [|[? [[_ Hx]|?]]]; [by left| |right; auto].
    by rewrite (arm64ec_valid_frame d d1) in Hv1.
Qed.
End engine.
