(* ===== verification/Arm64ecEngineProperties.v ===== *)
(** Arm64ecEngineProperties: what a run of the ARM64EC engine guarantees whatever
    the recompiler does, for any boundary broker that keeps its own contract; and
    two ways in which the adapter departs from what it promises, on a small
    recompiler. *)
From S2P Require Import Prelude Context Conversion MemoryModel Memory MemoryLogic MemoryInv MemoryTotal MemorySpec.
From S2P Require Import Transaction TransactionInv TransactionWorld.
From S2P Require Import Pe Target TargetProperties Control Dynarmic Blink X64Engine X64EngineProperties.
From S2P Require Import Arm64ecEngine Arm64ecEngineLogic.

Section contract.
Context {platform : Platform} {dynarmic : Dynarmic} {S : Type}.

(** C13: a run of the ARM64EC engine, whatever the recompiler does through its
    callbacks and whatever the boundary broker does within its contract
    ([broker_ok]), never reaches undefined behaviour, keeps reference counts
    exact and changes no reservation; only SVC-trap delivery may go on for ever.
    A refused run changes nothing but the stop information.  Otherwise the run
    retires at most [budget] instructions (all of them when instructions are
    single-stepped and the budget expires), changes only what the ARM64EC view
    shows, keeps every field of the context in its C type, stops with the reason
    it records, and leaves a context that can run again unless it reports an
    invariant violation.  When the broker stopped the run, the reason is an
    architecture transition, transition limits aside. *)
Theorem arm64ec_run_contract pins (Js Jstop : S -> Prop) fuel r c o budget m :
  (forall b, 0 <= pins b) -> inv pins m -> arm64ec_wf r ->
  (forall broker, ar_boundary_broker r = Some broker -> broker_ok pins (layout m) Js Jstop broker) ->
  is_u64 budget -> (forall d, c = Some d -> context_wf d) -> Js o ->
  match gem_arm64ec_runtime_run fuel (Some r) c o budget m with
  | Fault => False
  | Err _ => True
  | Ok (None, _) => is_svc_trap (ar_config r) = true
  | Ok (Some (reason, r', c', o'), m') =>
    inv pins m' /\ layout m' = layout m /\
    exists r1, r' = Some r1 /\ arm64ec_wf r1 /\ arm64ec_left r r1 /\ ai_reason (ar_last_stop r1) = reason /\
      match c with
      | Some d =>
        if bool_decide (arm64ec_accepts r d budget)
        then exists d', c' = Some d' /\ arm64ec_finished Js Jstop r d budget reason r1 d' o'
        else reason = GEM_STOP_INVARIANT_VIOLATION /\ c' = c /\ o' = o /\ m' = m
      | None => reason = GEM_STOP_INVARIANT_VIOLATION /\ c' = c /\ o' = o /\ m' = m
      end
  end.
Proof.
  intros Hp Hinv Hwf Hbr Hb Hc Ho. destruct (inv_layout _ _ Hinv) as [Hst HL].
  assert (forall r1, arm64ec_left r r1 -> arm64ec_wf r1) as Hleft by (intros; by eapply arm64ec_left_wf).
  assert (arm64ec_left r (set_stop_reason (arm64ec_entered r) GEM_STOP_INVARIANT_VIOLATION)) as Hsame.
  { destruct Hwf. by repeat split. }
  destruct c as [d|]; [|rewrite arm64ec_run_rejected by done; split_and!; try done; eexists; by split_and!; auto].
  destruct (bool_decide_reflect (arm64ec_accepts r d budget)) as [Ha|Ha];
    [|rewrite arm64ec_run_rejected by naive_solver; split_and!; try done; eexists; by split_and!; auto].
  pose proof (arm64ec_run_inside pins (layout m) Js Jstop fuel r d o budget m Hp Hst Hwf Hbr Hb (Hc d eq_refl) Ho Ha) as H.
  destruct (gem_arm64ec_runtime_run _ _ _ _ _ m) as [[[[[[reason r'] c'] o']|] m']| |]; [|done..].
  destruct H as (Hm' & r1 & d' & -> & -> & Hl & Hr & Hfin).
  split; [by exists (layout m)|]. split; [by apply (st_layout pins)|].
  exists r1. split; [done|]. split; [by apply Hleft|]. split; [done|]. split; [done|]. by exists d'.
Qed.
End contract.

(** ** A concrete recompiler *)

(** Three instructions: add one to the byte at x0, load the byte at x1, and the
    boundary trap.  It stops translating when a halt is requested or the tick
    budget is used up. *)
Definition INC : Z := 0x91000000.
Definition LOAD : Z := 0x39400000.
Definition TRAP : Z := 0xd40e0001.
Definition tiny_next (c : CpuSnapshot) : CpuSnapshot := with_cpu_pc c (cpu_pc c + 4).
Definition tiny_done (c : CpuSnapshot) (halts : Z) : jit_call (jit_result unit) :=
  JitDone (JitResult tt c 0 halts).
Fixpoint tiny_run (n : nat) (c : CpuSnapshot) : jit_call (jit_result unit) :=
  match n with
  | O => JitTicksRemaining (fun _ halts => tiny_done c halts)
  | S n =>
    JitTicksRemaining (fun ticks halts =>
      if (ticks =? 0) || negb (halts =? 0) then tiny_done c halts
      else
        JitReadCode (cpu_pc c) (fun word halts =>
          match word with
          | None => tiny_done c halts
          | Some word =>
            if word =? INC then
              JitRead Width8 (cpu_regs c !!! 0%nat) (fun v _ =>
                JitWrite Width8 (cpu_regs c !!! 0%nat) (v + 1) (fun _ =>
                  JitAddTicks 1 (fun _ => tiny_run n (tiny_next c))))
            else if word =? LOAD then
              JitRead Width8 (cpu_regs c !!! 1%nat) (fun _ _ =>
                JitAddTicks 1 (fun _ => tiny_run n (tiny_next c)))
            else
              JitCallSVC GEM_ARM64EC_BOUNDARY_SVC (cpu_pc c + 4) (fun _ =>
                JitAddTicks 1 (fun _ => tiny_run n (tiny_next c)))
          end))
  end.
Definition tiny_cpu : CpuSnapshot := Cpu (replicate 31 0) (replicate 32 u128_zero) 0 0 0 0 0.
Definition tiny : Dynarmic :=
  {| dyn_core := unit;
     jit_new _ := Some (tt, tiny_cpu);
     jit_Run _ c _ := tiny_run 16 c;
     jit_Step _ c _ := tiny_run 1 c;
     jit_Reset _ c := (tt, c);
     jit_ClearCache g := g;
     jit_ClearExclusiveState g := g;
     monitor_Clear g := g;
     HaltStep := 1;
     HaltCacheInvalidation := 2;
     HaltMemoryAbort := 4;
     HaltUserDefined1 := 0x1000000;
     HaltUserDefined2 := 0x2000000;
     HaltUserDefined3 := 0x4000000;
     exception_value _ := 0;
     dynarmic_system := false;
     decode_forbidden _ := Some false |}.

(** Two increments and a load, then the trap; the data page is not executable. *)
Definition tiny_code : list Z := le_bytes 4 INC ++ le_bytes 4 INC ++ le_bytes 4 LOAD ++ le_bytes 4 TRAP.
Definition tiny_calls : list event := EvCall <$>
  [CallReserve (Some 0x10000) 4096; CallCommit 0x10000 4096 GEM_PAGE_EXECUTE_READWRITE;
   CallWrite 0x10000 (Some tiny_code) 16;
   CallReserve (Some 0x20000) 4096; CallCommit 0x20000 4096 GEM_PAGE_READWRITE].
Definition tiny_memory : mem := wd_memory (history (littered 0) tiny_calls).

Lemma tiny_memory_inv : inv no_pins tiny_memory.
Proof.
  assert (world_inv (history (littered 0) tiny_calls)) as (L & Hst & HL).
  { apply history_inv; [apply (bool_decide_unpack _); vm_compute; exact I|vm_compute; reflexivity..]. }
  exists L. split; [|done]. revert Hst. apply st_pins_eq. intros b. unfold pins_add. vm_compute.
  by destruct (no_pins b).
Qed.

(** x0 is the data page, x1 is [x1], the program starts at the first increment. *)
Definition tiny_context (x1 : Z) : gem_thread_context :=
  ThreadContext 1 720 (<[18%nat := 0x7000]> (<[0%nat := 0x20000]> (<[1%nat := x1]> (replicate 31 0))))
    0x1000 0x10000 0 0 0 0 (replicate 16 u128_zero) 0x246 0x1f80 0x37f 0 (replicate 8 u128_zero)
    0x7000 0 0 GEM_ISA_ARM64EC 0.

Definition tiny_runtime {S} (profile delivery : Z) (broker : option (boundary_fn S))
    : gem_arm64ec_runtime (dynarmic := tiny) (S := S) :=
  Arm64ecRuntime (dynarmic := tiny)
    (Arm64ecConfig GEM_ARM64EC_DEFAULT_HOST_RETURN_SENTINEL GEM_ARM64EC_DEFAULT_ARCH_TRANSITION_SENTINEL 0 0
       profile delivery) arm64ec_stop_zero None None broker 0 0 (replicate 16 u128_zero) false
    (Some (Backend (dynarmic := tiny) env_initial tt tiny_cpu)).

(** The reason, the instructions retired, the program counter, the byte. *)
Definition tiny_result {S} (out : result unit (option (gem_stop_reason *
      option (gem_arm64ec_runtime (dynarmic := tiny) (S := S)) * option gem_thread_context * S) * mem))
  : option (gem_stop_reason * Z * Z * option Z * S) :=
  match out with
  | Ok (Some (reason, Some r, Some c, o), m) =>
      Some (reason, ai_instructions_retired (ar_last_stop r), c_pc c, view m 0x20000 ≫= head, o)
  | _ => None
  end.
Definition tiny_outcome (profile delivery : Z) (x1 budget : Z) : option (gem_stop_reason * Z * Z * option Z * unit) :=
  tiny_result (gem_arm64ec_runtime_run (platform := littered 0) (dynarmic := tiny) 32
    (Some (tiny_runtime profile delivery None)) (Some (tiny_context x1)) tt budget tiny_memory).

Example tiny_runs :
  tiny_outcome GEM_ARM64EC_PROFILE_STRICT GEM_ARM64EC_BOUNDARY_PRECISE 0x20000 3
    = Some (GEM_STOP_BUDGET_EXPIRED, 3, 0x1000c, Some 2, tt).
Proof. vm_compute. reflexivity. Qed.

(** A broker that counts: it stops the run at the third instruction. *)
Definition counting_broker : boundary_fn nat := fun pc c boundary_kind o =>
  if pc =? 0x10008 then mret (GEM_ARM64EC_BOUNDARY_STOP, 3, c, Datatypes.S o)
  else mret (GEM_ARM64EC_BOUNDARY_NOT_HANDLED, boundary_kind, c, o).

Lemma counting_broker_ok pins L : broker_ok pins L (fun o => o = 0%nat) (fun o => o = 1%nat) counting_broker.
Proof.
  intros pc c o -> Hc Hv Hpc m Hm. unfold counting_broker.
  destruct (pc =? 0x10008); cbn; by split_and!.
Qed.

Definition counted_runtime : gem_arm64ec_runtime (dynarmic := tiny) (S := nat) :=
  tiny_runtime GEM_ARM64EC_PROFILE_STRICT GEM_ARM64EC_BOUNDARY_PRECISE (Some counting_broker).

Lemma tiny_runtime_wf {S} profile delivery broker :
  delivery = GEM_ARM64EC_BOUNDARY_PRECISE -> arm64ec_wf (tiny_runtime (S := S) profile delivery broker).
Proof.
  intros ->. split; [by split| |done]. apply Forall_replicate. by vm_compute.
Qed.

Lemma arm64ec_run_contract_witness :
  exists r c m,
    gem_arm64ec_runtime_run (platform := littered 0) (dynarmic := tiny) 0 (Some counted_runtime)
      (Some (tiny_context 0x20000)) 0%nat 9 tiny_memory
      = Ok (Some (GEM_STOP_ARCH_TRANSITION, Some r, Some c, 1%nat), m) /\
    ai_instructions_retired (ar_last_stop r) = 2 /\ view m 0x20000 ≫= head = Some 2 /\
    inv no_pins m /\ arm64ec_wf r.
Proof.
  assert (tiny_result (gem_arm64ec_runtime_run (platform := littered 0) (dynarmic := tiny) 0 (Some counted_runtime)
      (Some (tiny_context 0x20000)) 0%nat 9 tiny_memory)
    = Some (GEM_STOP_ARCH_TRANSITION, 2, 0x10008, Some 2, 1%nat)) as E by (vm_compute; reflexivity).
  pose proof (arm64ec_run_contract (platform := littered 0) (dynarmic := tiny) no_pins
    (fun o => o = 0%nat) (fun o => o = 1%nat) 0 counted_runtime (Some (tiny_context 0x20000)) 0%nat 9 tiny_memory
    no_pins_nonneg tiny_memory_inv (tiny_runtime_wf _ _ _ eq_refl)) as H.
  destruct (gem_arm64ec_runtime_run _ _ _ _ _ _) as [[[[[[reason [r|]] [c|]] o]|] m]| |]; try discriminate E.
  cbn in E. injection E as -> Hret Hpc Hb ->. exists r, c, m. split; [reflexivity|].
  destruct H as (Hinv & _ & r1 & [= <-] & Hwf & _).
  - intros broker [= <-]. apply counting_broker_ok.
  - by vm_compute.
  - intros d [= <-]. apply (bool_decide_unpack _). vm_compute. exact I.
  - reflexivity.
  - split; [exact Hret|]. split; [exact Hb|]. split; [exact Hinv|exact Hwf].
Defined.

(** ** Where the adapter departs from its promises *)

(** A block that faults in the native profile is run again from its start, and
    the stores it had made are made twice: the same two increments leave 4 where
    stepping leaves 2. *)
Theorem arm64ec_native_replays_stores :
  tiny_outcome GEM_ARM64EC_PROFILE_STRICT GEM_ARM64EC_BOUNDARY_PRECISE 0x90000 3
    = Some (GEM_STOP_MEMORY_FAULT, 2, 0x10008, Some 2, tt) /\
  tiny_outcome GEM_ARM64EC_PROFILE_NATIVE_ARM64 GEM_ARM64EC_BOUNDARY_PRECISE 0x90000 3
    = Some (GEM_STOP_MEMORY_FAULT, 2, 0x10008, Some 4, tt).
Proof. split; vm_compute; reflexivity. Qed.


Section async.
Context {platform : Platform} {dynarmic : Dynarmic} {S : Type}.

Lemma clear_transient_requested h : clear_transient (h .| HaltUserDefined3) = clear_transient h.
Proof.
  apply Z.bits_inj'. intros n Hn. unfold clear_transient. rewrite !Z.ldiff_spec, Z.lor_spec by done.
  by destruct (Z.testbit h n), (Z.testbit HaltUserDefined3 n); rewrite ?andb_false_r.
Qed.

(** The preparation of a run, one statement at a time, on a state in parts. *)
Section steps.
Context {R A : Type} (r : gem_arm64ec_runtime (S := S)) (e : environment) (core : dyn_core) (cpu : CpuSnapshot)
  (c : gem_thread_context) (o : S).
Notation state := (ArmState r (Backend e core cpu) c o).

Lemma env_step f (k : unit -> K (arm_state (S := S)) gem_stop_reason A) m :
  (mod_env f ≫= k) state m = k tt (ArmState r (Backend (f e) core cpu) c o) m.
Proof. done. Qed.
Lemma core_step f (k : unit -> K (arm_state (S := S)) gem_stop_reason A) m :
  (mod_core f ≫= k) state m = k tt (ArmState r (Backend e (f core) cpu) c o) m.
Proof. done. Qed.
Lemma backend_step f (k : unit -> K (arm_state (S := S)) gem_stop_reason A) m :
  (mod_backend f ≫= k) state m = k tt (ArmState r (f (Backend e core cpu)) c o) m.
Proof. done. Qed.
Lemma gets_step {B} (f : arm_state (S := S) -> B) (k : B -> K (arm_state (S := S)) gem_stop_reason A) m :
  (gets f ≫= k) state m = k (f state) state m.
Proof. done. Qed.
Lemma when_core_step b f (k : unit -> K (arm_state (S := S)) gem_stop_reason A) m :
  (when b (mod_core f) ≫= k) state m = k tt (ArmState r (Backend e (if b then f core else core) cpu) c o) m.
Proof. by destruct b. Qed.
Lemma import_step d (k : unit -> K (arm_state (S := S)) gem_stop_reason A) m :
  (ImportContext d ≫= k) state m
    = k tt (ArmState r (Backend e (jit_ClearExclusiveState core) (import_cpu r d)) c o) m.
Proof. done. Qed.
End steps.

(** The preparation of a run reads none of the halts and clears the request. *)
Lemma dynarmic_body_requested fuel budget (r : gem_arm64ec_runtime (S := S)) b c o m :
  dynarmic_body fuel budget (ArmState r (Backend (HaltExecution HaltUserDefined3 (bk_env b)) (bk_core b) (bk_cpu b)) c o) m
  = dynarmic_body fuel budget (ArmState r b c o) m.
Proof.
  destruct b as [e core cpu]. unfold dynarmic_body. cbn [bk_env bk_core bk_cpu].
  rewrite !env_step, !core_step, !backend_step. cbn [bk_env bk_core bk_cpu].
  destruct (jit_Reset (monitor_Clear core) cpu) as [core1 cpu1].
  rewrite !core_step, !gets_step, !when_core_step, !gets_step, !import_step. unfold ClearTransientHalts.
  rewrite !env_step. cbn [st_runtime].
  assert (forall x, set_halts (clear_transient (e_halts (ResetRun (HaltExecution HaltUserDefined3 x))))
                      (ResetRun (HaltExecution HaltUserDefined3 x))
                    = set_halts (clear_transient (e_halts (ResetRun x))) (ResetRun x)) as ->; [|done].
  intros []. cbn. by rewrite clear_transient_requested.
Qed.

(** A request that arrives while no run is under way is forgotten: the run that
    follows is the run without it. *)
Theorem arm64ec_async_request_lost fuel (r : gem_arm64ec_runtime (S := S)) c (o : S) budget m :
  arm64ec_accepts r c budget -> budget <> 0 ->
  gem_arm64ec_runtime_run fuel (gem_arm64ec_runtime_request_async_stop (Some r)) (Some c) o budget m
    = gem_arm64ec_runtime_run fuel (Some r) (Some c) o budget m.
Proof.
  intros Ha Hb. unfold gem_arm64ec_runtime_request_async_stop, gem_arm64ec_dynarmic_request_async_stop.
  destruct r as [config stop map resolver broker return_pc n upper running [b|]]; [|done].
  cbn [fmap option_fmap option_map ar_backend]. rewrite !arm64ec_run_accepted by done.
  unfold gem_arm64ec_dynarmic_run, mbind, M_bind. cbn. unfold body, mbind, M_bind.
  by rewrite dynarmic_body_requested.
Qed.
End async.
