(* ===== verification/Hybrid.v ===== *)
(** Hybrid: the coordinator that lets one thread cross between ARM64EC and x64
    code (src/gem/hybrid_runtime.c): its data, the boundary broker it gives to
    the ARM64EC engine, the records it keeps on the guest's stack, and the
    stateful run with its two transition frames.

    The broker is called by the ARM64EC engine while the coordinator waits for
    it, and works on the same object; that part of the object ([hybrid_core])
    is the opaque value of the engine's runtime.  A body works on a
    [hybrid_state]: the core, the two engines, the context of the caller and
    what its [stats] pointer designates.  Integers are stored in guest memory in
    little-endian order, that of the only host. *)
From S2P Require Import Prelude Context MemoryModel Memory Transaction Pe Target.
From S2P Require Import Blink X64Engine Control Dynarmic Arm64ecEngine.

Definition GEM_HYBRID_RUNTIME_CONFIG_VERSION : Z := 1.
Definition GEM_HYBRID_INTERNAL_HOST_RETURN : Z := 0xfffffffffffff800.

(** ** Data *)

Inductive hybrid_stage : Type :=
  | HYBRID_STAGE_IDLE
  | HYBRID_STAGE_ARM_TO_X64
  | HYBRID_STAGE_ARM_ENTRY
  | HYBRID_STAGE_ARM_RETURN
  | HYBRID_STAGE_CALLBACK_X64
  | HYBRID_STAGE_CALLBACK_ARM_ENTRY.
Inductive hybrid_operation : Type :=
  | HYBRID_OPERATION_NONE
  | HYBRID_OPERATION_ROUNDTRIP_RETURN
  | HYBRID_OPERATION_CALLBACK_RESUME
  | HYBRID_OPERATION_NESTED.
Inductive hybrid_generic_stage : Type :=
  | HYBRID_GENERIC_IDLE
  | HYBRID_GENERIC_ARM
  | HYBRID_GENERIC_X64
  | HYBRID_GENERIC_ARM_CALLBACK.
Inductive hybrid_generic_callback : Type :=
  | HYBRID_GENERIC_CALLBACK_NONE
  | HYBRID_GENERIC_CALLBACK_CALL
  | HYBRID_GENERIC_CALLBACK_TAIL.
Inductive gem_hybrid_stop_source : Type :=
  | GEM_HYBRID_STOP_SOURCE_BROKER
  | GEM_HYBRID_STOP_SOURCE_ARM64EC
  | GEM_HYBRID_STOP_SOURCE_X64.

#[export] Instance hybrid_stage_eq_dec : EqDecision hybrid_stage.
Proof. solve_decision. Defined.
#[export] Instance hybrid_operation_eq_dec : EqDecision hybrid_operation.
Proof. solve_decision. Defined.
#[export] Instance hybrid_generic_stage_eq_dec : EqDecision hybrid_generic_stage.
Proof. solve_decision. Defined.
#[export] Instance hybrid_generic_callback_eq_dec : EqDecision hybrid_generic_callback.
Proof. solve_decision. Defined.
#[export] Instance gem_hybrid_stop_source_eq_dec : EqDecision gem_hybrid_stop_source.
Proof. solve_decision. Defined.

(** The resolver, and whether its opaque pointer is non-NULL. *)
Record gem_hybrid_runtime_config : Type := HybridConfig {
  yc_version : Z;
  yc_boundary_delivery : Z;
  yc_loaded_base : Z;
  yc_checker_helper : Z;
  yc_dispatch_call_helper : Z;
  yc_dispatch_jump_helper : Z;
  yc_dispatch_ret_helper : Z;
  yc_x64_return_sentinel : Z;
  yc_host_return_sentinel : Z;
  yc_max_budget : Z;
  yc_target_resolver : option target_resolve_fn;
  yc_target_resolver_opaque : bool }.

Record hybrid_frame : Type := HybridFrame {
  hf_arm_resume_pc : Z;
  hf_dispatch_sp : Z;
  hf_original_x64_sp : Z;
  hf_arm_entry_sp : Z;
  hf_x64_return : Z;
  hf_callback_target : Z;
  hf_callback_call_sp : Z;
  hf_callback_record_address : Z;
  hf_callback_resume_pc : Z;
  hf_callback_original_x64_sp : Z;
  hf_callback_arm_entry_sp : Z;
  hf_cookie : Z;
  hf_operation : hybrid_operation;
  hf_active : bool }.
Definition hybrid_frame_zero : hybrid_frame :=
  HybridFrame 0 0 0 0 0 0 0 0 0 0 0 0 HYBRID_OPERATION_NONE false.

Record hybrid_generic_frame : Type := GenericFrame {
  gf_cookie : Z;
  gf_arm_resume_pc : Z;
  gf_arm_resume_sp : Z;
  gf_prior_original_x64_sp : Z;
  gf_record_address : Z;
  gf_old_record : Z;
  gf_callback_resume_pc : Z;
  gf_callback_pre_call_sp : Z;
  gf_callback_arm_entry_sp : Z;
  gf_callback_prior_original_x64_sp : Z;
  gf_callback : hybrid_generic_callback;
  gf_record_written : bool;
  gf_resume_arm_callback : bool;
  gf_callback_nested : bool }.

Definition set_gf_callback (r : hybrid_generic_frame) (v : hybrid_generic_callback) : hybrid_generic_frame :=
  GenericFrame (gf_cookie r) (gf_arm_resume_pc r) (gf_arm_resume_sp r)
    (gf_prior_original_x64_sp r) (gf_record_address r) (gf_old_record r)
    (gf_callback_resume_pc r) (gf_callback_pre_call_sp r) (gf_callback_arm_entry_sp r)
    (gf_callback_prior_original_x64_sp r) v (gf_record_written r) (gf_resume_arm_callback r)
    (gf_callback_nested r).
Definition set_gf_callback_nested (r : hybrid_generic_frame) (v : bool) : hybrid_generic_frame :=
  GenericFrame (gf_cookie r) (gf_arm_resume_pc r) (gf_arm_resume_sp r)
    (gf_prior_original_x64_sp r) (gf_record_address r) (gf_old_record r)
    (gf_callback_resume_pc r) (gf_callback_pre_call_sp r) (gf_callback_arm_entry_sp r)
    (gf_callback_prior_original_x64_sp r) (gf_callback r) (gf_record_written r)
    (gf_resume_arm_callback r) v.
Definition generic_frame_zero : hybrid_generic_frame :=
  GenericFrame 0 0 0 0 0 0 0 0 0 0 HYBRID_GENERIC_CALLBACK_NONE false false false.

Record hybrid_generic_state : Type := GenericState {
  gs_frames : list hybrid_generic_frame;
  gs_stage : hybrid_generic_stage;
  gs_depth : Z;
  gs_native_return_pc : Z;
  gs_pending_x64_target : Z;
  gs_pending_arm_resume_pc : Z;
  gs_pending_arm_resume_sp : Z;
  gs_active : bool;
  gs_pending_dispatch : bool;
  gs_pending_callback_return : bool;
  gs_pending_native_return : bool;
  gs_boundary_failure : Z }.

Definition set_gs_frames (r : hybrid_generic_state) (v : list hybrid_generic_frame) : hybrid_generic_state :=
  GenericState v (gs_stage r) (gs_depth r) (gs_native_return_pc r) (gs_pending_x64_target r)
    (gs_pending_arm_resume_pc r) (gs_pending_arm_resume_sp r) (gs_active r)
    (gs_pending_dispatch r) (gs_pending_callback_return r) (gs_pending_native_return r)
    (gs_boundary_failure r).
Definition set_gs_stage (r : hybrid_generic_state) (v : hybrid_generic_stage) : hybrid_generic_state :=
  GenericState (gs_frames r) v (gs_depth r) (gs_native_return_pc r) (gs_pending_x64_target r)
    (gs_pending_arm_resume_pc r) (gs_pending_arm_resume_sp r) (gs_active r)
    (gs_pending_dispatch r) (gs_pending_callback_return r) (gs_pending_native_return r)
    (gs_boundary_failure r).
Definition set_gs_depth (r : hybrid_generic_state) (v : Z) : hybrid_generic_state :=
  GenericState (gs_frames r) (gs_stage r) v (gs_native_return_pc r) (gs_pending_x64_target r)
    (gs_pending_arm_resume_pc r) (gs_pending_arm_resume_sp r) (gs_active r)
    (gs_pending_dispatch r) (gs_pending_callback_return r) (gs_pending_native_return r)
    (gs_boundary_failure r).
Definition set_gs_pending_callback_return (r : hybrid_generic_state) (v : bool) : hybrid_generic_state :=
  GenericState (gs_frames r) (gs_stage r) (gs_depth r) (gs_native_return_pc r)
    (gs_pending_x64_target r) (gs_pending_arm_resume_pc r) (gs_pending_arm_resume_sp r)
    (gs_active r) (gs_pending_dispatch r) v (gs_pending_native_return r)
    (gs_boundary_failure r).
Definition set_gs_pending_native_return (r : hybrid_generic_state) (v : bool) : hybrid_generic_state :=
  GenericState (gs_frames r) (gs_stage r) (gs_depth r) (gs_native_return_pc r)
    (gs_pending_x64_target r) (gs_pending_arm_resume_pc r) (gs_pending_arm_resume_sp r)
    (gs_active r) (gs_pending_dispatch r) (gs_pending_callback_return r) v
    (gs_boundary_failure r).
Definition set_gs_boundary_failure (r : hybrid_generic_state) (v : Z) : hybrid_generic_state :=
  GenericState (gs_frames r) (gs_stage r) (gs_depth r) (gs_native_return_pc r)
    (gs_pending_x64_target r) (gs_pending_arm_resume_pc r) (gs_pending_arm_resume_sp r)
    (gs_active r) (gs_pending_dispatch r) (gs_pending_callback_return r)
    (gs_pending_native_return r) v.
Definition generic_state_zero : hybrid_generic_state :=
  GenericState (replicate 2 generic_frame_zero) HYBRID_GENERIC_IDLE 0 0 0 0 0 false false false false 0.

Record gem_hybrid_stop_info : Type := HybridStopInfo {
  yi_reason : gem_stop_reason;
  yi_source : gem_hybrid_stop_source;
  yi_arm64ec : gem_arm64ec_stop_info;
  yi_x64 : gem_x64_stop_info }.
Definition hybrid_stop_zero : gem_hybrid_stop_info :=
  HybridStopInfo GEM_STOP_NONE GEM_HYBRID_STOP_SOURCE_BROKER arm64ec_stop_zero x64_stop_zero.

Record gem_hybrid_roundtrip_stats : Type := RoundtripStats {
  rs_arm64ec_instructions_retired : Z;
  rs_x64_instructions_retired : Z;
  rs_checker_boundaries : Z;
  rs_dispatch_call_boundaries : Z;
  rs_x64_to_arm64ec_boundaries : Z;
  rs_descriptor_resolutions : Z;
  rs_dispatch_ret_boundaries : Z;
  rs_frame_pushes : Z;
  rs_frame_pops : Z;
  rs_maximum_frame_depth : Z;
  rs_final_frame_depth : Z }.

Definition set_rs_arm64ec_instructions_retired (r : gem_hybrid_roundtrip_stats) (v : Z) : gem_hybrid_roundtrip_stats :=
  RoundtripStats v (rs_x64_instructions_retired r) (rs_checker_boundaries r)
    (rs_dispatch_call_boundaries r) (rs_x64_to_arm64ec_boundaries r)
    (rs_descriptor_resolutions r) (rs_dispatch_ret_boundaries r) (rs_frame_pushes r)
    (rs_frame_pops r) (rs_maximum_frame_depth r) (rs_final_frame_depth r).
Definition set_rs_x64_instructions_retired (r : gem_hybrid_roundtrip_stats) (v : Z) : gem_hybrid_roundtrip_stats :=
  RoundtripStats (rs_arm64ec_instructions_retired r) v (rs_checker_boundaries r)
    (rs_dispatch_call_boundaries r) (rs_x64_to_arm64ec_boundaries r)
    (rs_descriptor_resolutions r) (rs_dispatch_ret_boundaries r) (rs_frame_pushes r)
    (rs_frame_pops r) (rs_maximum_frame_depth r) (rs_final_frame_depth r).
Definition set_rs_checker_boundaries (r : gem_hybrid_roundtrip_stats) (v : Z) : gem_hybrid_roundtrip_stats :=
  RoundtripStats (rs_arm64ec_instructions_retired r) (rs_x64_instructions_retired r) v
    (rs_dispatch_call_boundaries r) (rs_x64_to_arm64ec_boundaries r)
    (rs_descriptor_resolutions r) (rs_dispatch_ret_boundaries r) (rs_frame_pushes r)
    (rs_frame_pops r) (rs_maximum_frame_depth r) (rs_final_frame_depth r).
Definition set_rs_dispatch_call_boundaries (r : gem_hybrid_roundtrip_stats) (v : Z) : gem_hybrid_roundtrip_stats :=
  RoundtripStats (rs_arm64ec_instructions_retired r) (rs_x64_instructions_retired r)
    (rs_checker_boundaries r) v (rs_x64_to_arm64ec_boundaries r) (rs_descriptor_resolutions r)
    (rs_dispatch_ret_boundaries r) (rs_frame_pushes r) (rs_frame_pops r)
    (rs_maximum_frame_depth r) (rs_final_frame_depth r).
Definition set_rs_x64_to_arm64ec_boundaries (r : gem_hybrid_roundtrip_stats) (v : Z) : gem_hybrid_roundtrip_stats :=
  RoundtripStats (rs_arm64ec_instructions_retired r) (rs_x64_instructions_retired r)
    (rs_checker_boundaries r) (rs_dispatch_call_boundaries r) v (rs_descriptor_resolutions r)
    (rs_dispatch_ret_boundaries r) (rs_frame_pushes r) (rs_frame_pops r)
    (rs_maximum_frame_depth r) (rs_final_frame_depth r).
Definition set_rs_descriptor_resolutions (r : gem_hybrid_roundtrip_stats) (v : Z) : gem_hybrid_roundtrip_stats :=
  RoundtripStats (rs_arm64ec_instructions_retired r) (rs_x64_instructions_retired r)
    (rs_checker_boundaries r) (rs_dispatch_call_boundaries r) (rs_x64_to_arm64ec_boundaries r) v
    (rs_dispatch_ret_boundaries r) (rs_frame_pushes r) (rs_frame_pops r)
    (rs_maximum_frame_depth r) (rs_final_frame_depth r).
Definition set_rs_dispatch_ret_boundaries (r : gem_hybrid_roundtrip_stats) (v : Z) : gem_hybrid_roundtrip_stats :=
  RoundtripStats (rs_arm64ec_instructions_retired r) (rs_x64_instructions_retired r)
    (rs_checker_boundaries r) (rs_dispatch_call_boundaries r) (rs_x64_to_arm64ec_boundaries r)
    (rs_descriptor_resolutions r) v (rs_frame_pushes r) (rs_frame_pops r)
    (rs_maximum_frame_depth r) (rs_final_frame_depth r).
Definition set_rs_frame_pushes (r : gem_hybrid_roundtrip_stats) (v : Z) : gem_hybrid_roundtrip_stats :=
  RoundtripStats (rs_arm64ec_instructions_retired r) (rs_x64_instructions_retired r)
    (rs_checker_boundaries r) (rs_dispatch_call_boundaries r) (rs_x64_to_arm64ec_boundaries r)
    (rs_descriptor_resolutions r) (rs_dispatch_ret_boundaries r) v (rs_frame_pops r)
    (rs_maximum_frame_depth r) (rs_final_frame_depth r).
Definition set_rs_frame_pops (r : gem_hybrid_roundtrip_stats) (v : Z) : gem_hybrid_roundtrip_stats :=
  RoundtripStats (rs_arm64ec_instructions_retired r) (rs_x64_instructions_retired r)
    (rs_checker_boundaries r) (rs_dispatch_call_boundaries r) (rs_x64_to_arm64ec_boundaries r)
    (rs_descriptor_resolutions r) (rs_dispatch_ret_boundaries r) (rs_frame_pushes r) v
    (rs_maximum_frame_depth r) (rs_final_frame_depth r).
Definition set_rs_maximum_frame_depth (r : gem_hybrid_roundtrip_stats) (v : Z) : gem_hybrid_roundtrip_stats :=
  RoundtripStats (rs_arm64ec_instructions_retired r) (rs_x64_instructions_retired r)
    (rs_checker_boundaries r) (rs_dispatch_call_boundaries r) (rs_x64_to_arm64ec_boundaries r)
    (rs_descriptor_resolutions r) (rs_dispatch_ret_boundaries r) (rs_frame_pushes r)
    (rs_frame_pops r) v (rs_final_frame_depth r).
Definition set_rs_final_frame_depth (r : gem_hybrid_roundtrip_stats) (v : Z) : gem_hybrid_roundtrip_stats :=
  RoundtripStats (rs_arm64ec_instructions_retired r) (rs_x64_instructions_retired r)
    (rs_checker_boundaries r) (rs_dispatch_call_boundaries r) (rs_x64_to_arm64ec_boundaries r)
    (rs_descriptor_resolutions r) (rs_dispatch_ret_boundaries r) (rs_frame_pushes r)
    (rs_frame_pops r) (rs_maximum_frame_depth r) v.
Definition stats_zero : gem_hybrid_roundtrip_stats := RoundtripStats 0 0 0 0 0 0 0 0 0 0 0.

(** [struct gem_hybrid_runtime], less the engines. *)
Record hybrid_core : Type := HybridCore {
  hy_map : option target_map;
  hy_config : gem_hybrid_runtime_config;
  hy_frame : hybrid_frame;
  hy_nested_frame : hybrid_frame;
  hy_stats : gem_hybrid_roundtrip_stats;
  hy_last_stop : gem_hybrid_stop_info;
  hy_stage : hybrid_stage;
  hy_generation : Z;
  hy_running : bool;
  hy_return_mode : Z;
  hy_expected_x64_target : Z;
  hy_expected_nested_x64_target : Z;
  hy_generic : hybrid_generic_state;
  hy_async_stop_requested : atomic_flag }.

Definition set_hy_frame (r : hybrid_core) (v : hybrid_frame) : hybrid_core :=
  HybridCore (hy_map r) (hy_config r) v (hy_nested_frame r) (hy_stats r) (hy_last_stop r)
    (hy_stage r) (hy_generation r) (hy_running r) (hy_return_mode r) (hy_expected_x64_target r)
    (hy_expected_nested_x64_target r) (hy_generic r) (hy_async_stop_requested r).
Definition set_hy_nested_frame (r : hybrid_core) (v : hybrid_frame) : hybrid_core :=
  HybridCore (hy_map r) (hy_config r) (hy_frame r) v (hy_stats r) (hy_last_stop r) (hy_stage r)
    (hy_generation r) (hy_running r) (hy_return_mode r) (hy_expected_x64_target r)
    (hy_expected_nested_x64_target r) (hy_generic r) (hy_async_stop_requested r).
Definition set_hy_stats (r : hybrid_core) (v : gem_hybrid_roundtrip_stats) : hybrid_core :=
  HybridCore (hy_map r) (hy_config r) (hy_frame r) (hy_nested_frame r) v (hy_last_stop r)
    (hy_stage r) (hy_generation r) (hy_running r) (hy_return_mode r) (hy_expected_x64_target r)
    (hy_expected_nested_x64_target r) (hy_generic r) (hy_async_stop_requested r).
Definition set_hy_last_stop (r : hybrid_core) (v : gem_hybrid_stop_info) : hybrid_core :=
  HybridCore (hy_map r) (hy_config r) (hy_frame r) (hy_nested_frame r) (hy_stats r) v
    (hy_stage r) (hy_generation r) (hy_running r) (hy_return_mode r) (hy_expected_x64_target r)
    (hy_expected_nested_x64_target r) (hy_generic r) (hy_async_stop_requested r).
Definition set_hy_stage (r : hybrid_core) (v : hybrid_stage) : hybrid_core :=
  HybridCore (hy_map r) (hy_config r) (hy_frame r) (hy_nested_frame r) (hy_stats r)
    (hy_last_stop r) v (hy_generation r) (hy_running r) (hy_return_mode r)
    (hy_expected_x64_target r) (hy_expected_nested_x64_target r) (hy_generic r)
    (hy_async_stop_requested r).
Definition set_hy_generation (r : hybrid_core) (v : Z) : hybrid_core :=
  HybridCore (hy_map r) (hy_config r) (hy_frame r) (hy_nested_frame r) (hy_stats r)
    (hy_last_stop r) (hy_stage r) v (hy_running r) (hy_return_mode r) (hy_expected_x64_target r)
    (hy_expected_nested_x64_target r) (hy_generic r) (hy_async_stop_requested r).
Definition set_hy_running (r : hybrid_core) (v : bool) : hybrid_core :=
  HybridCore (hy_map r) (hy_config r) (hy_frame r) (hy_nested_frame r) (hy_stats r)
    (hy_last_stop r) (hy_stage r) (hy_generation r) v (hy_return_mode r)
    (hy_expected_x64_target r) (hy_expected_nested_x64_target r) (hy_generic r)
    (hy_async_stop_requested r).
Definition set_hy_return_mode (r : hybrid_core) (v : Z) : hybrid_core :=
  HybridCore (hy_map r) (hy_config r) (hy_frame r) (hy_nested_frame r) (hy_stats r)
    (hy_last_stop r) (hy_stage r) (hy_generation r) (hy_running r) v (hy_expected_x64_target r)
    (hy_expected_nested_x64_target r) (hy_generic r) (hy_async_stop_requested r).
Definition set_hy_expected_x64_target (r : hybrid_core) (v : Z) : hybrid_core :=
  HybridCore (hy_map r) (hy_config r) (hy_frame r) (hy_nested_frame r) (hy_stats r)
    (hy_last_stop r) (hy_stage r) (hy_generation r) (hy_running r) (hy_return_mode r) v
    (hy_expected_nested_x64_target r) (hy_generic r) (hy_async_stop_requested r).
Definition set_hy_expected_nested_x64_target (r : hybrid_core) (v : Z) : hybrid_core :=
  HybridCore (hy_map r) (hy_config r) (hy_frame r) (hy_nested_frame r) (hy_stats r)
    (hy_last_stop r) (hy_stage r) (hy_generation r) (hy_running r) (hy_return_mode r)
    (hy_expected_x64_target r) v (hy_generic r) (hy_async_stop_requested r).
Definition set_hy_generic (r : hybrid_core) (v : hybrid_generic_state) : hybrid_core :=
  HybridCore (hy_map r) (hy_config r) (hy_frame r) (hy_nested_frame r) (hy_stats r)
    (hy_last_stop r) (hy_stage r) (hy_generation r) (hy_running r) (hy_return_mode r)
    (hy_expected_x64_target r) (hy_expected_nested_x64_target r) v (hy_async_stop_requested r).
Definition set_hy_async_stop_requested (r : hybrid_core) (v : atomic_flag) : hybrid_core :=
  HybridCore (hy_map r) (hy_config r) (hy_frame r) (hy_nested_frame r) (hy_stats r)
    (hy_last_stop r) (hy_stage r) (hy_generation r) (hy_running r) (hy_return_mode r)
    (hy_expected_x64_target r) (hy_expected_nested_x64_target r) (hy_generic r) v.
(** ** Updates of single fields *)

Definition with_sp (c : gem_thread_context) (v : Z) : gem_thread_context :=
  ThreadContext (c_layout_version c) (c_context_size c) (c_x c) v (c_pc c) (c_nzcv c) (c_fpcr c)
    (c_fpsr c) (c_reserved0 c) (c_v c) (c_x64_rflags c) (c_x64_mxcsr c) (c_x64_fcw c)
    (c_x64_fsw c) (c_x87 c) (c_teb c) (c_original_x64_sp c) (c_transition_cookie c) (c_isa c)
    (c_stop_reason c).
Definition with_pc (c : gem_thread_context) (v : Z) : gem_thread_context :=
  ThreadContext (c_layout_version c) (c_context_size c) (c_x c) (c_sp c) v (c_nzcv c) (c_fpcr c)
    (c_fpsr c) (c_reserved0 c) (c_v c) (c_x64_rflags c) (c_x64_mxcsr c) (c_x64_fcw c)
    (c_x64_fsw c) (c_x87 c) (c_teb c) (c_original_x64_sp c) (c_transition_cookie c) (c_isa c)
    (c_stop_reason c).
Definition with_original_x64_sp (c : gem_thread_context) (v : Z) : gem_thread_context :=
  ThreadContext (c_layout_version c) (c_context_size c) (c_x c) (c_sp c) (c_pc c) (c_nzcv c)
    (c_fpcr c) (c_fpsr c) (c_reserved0 c) (c_v c) (c_x64_rflags c) (c_x64_mxcsr c) (c_x64_fcw c)
    (c_x64_fsw c) (c_x87 c) (c_teb c) v (c_transition_cookie c) (c_isa c) (c_stop_reason c).
Definition with_transition_cookie (c : gem_thread_context) (v : Z) : gem_thread_context :=
  ThreadContext (c_layout_version c) (c_context_size c) (c_x c) (c_sp c) (c_pc c) (c_nzcv c)
    (c_fpcr c) (c_fpsr c) (c_reserved0 c) (c_v c) (c_x64_rflags c) (c_x64_mxcsr c) (c_x64_fcw c)
    (c_x64_fsw c) (c_x87 c) (c_teb c) (c_original_x64_sp c) v (c_isa c) (c_stop_reason c).
Definition with_isa (c : gem_thread_context) (v : Z) : gem_thread_context :=
  ThreadContext (c_layout_version c) (c_context_size c) (c_x c) (c_sp c) (c_pc c) (c_nzcv c)
    (c_fpcr c) (c_fpsr c) (c_reserved0 c) (c_v c) (c_x64_rflags c) (c_x64_mxcsr c) (c_x64_fcw c)
    (c_x64_fsw c) (c_x87 c) (c_teb c) (c_original_x64_sp c) (c_transition_cookie c) v
    (c_stop_reason c).
Definition with_reg (i : nat) (v : Z) (c : gem_thread_context) : gem_thread_context :=
  with_x c (<[i := v]> (c_x c)).

(** [++stats->...] *)
Definition count_stat (get : gem_hybrid_roundtrip_stats -> Z)
    (set : gem_hybrid_roundtrip_stats -> Z -> gem_hybrid_roundtrip_stats) (h : hybrid_core) : hybrid_core :=
  set_hy_stats h (set (hy_stats h) (wrap64 (get (hy_stats h) + 1))).
Notation count_checker := (count_stat rs_checker_boundaries set_rs_checker_boundaries).
Notation count_dispatch_call := (count_stat rs_dispatch_call_boundaries set_rs_dispatch_call_boundaries).
Notation count_x64_to_arm64ec := (count_stat rs_x64_to_arm64ec_boundaries set_rs_x64_to_arm64ec_boundaries).
Notation count_descriptor := (count_stat rs_descriptor_resolutions set_rs_descriptor_resolutions).
Notation count_dispatch_ret := (count_stat rs_dispatch_ret_boundaries set_rs_dispatch_ret_boundaries).
Notation count_push := (count_stat rs_frame_pushes set_rs_frame_pushes).
Notation count_pop := (count_stat rs_frame_pops set_rs_frame_pops).
Notation count_x64 := (count_stat rs_x64_instructions_retired set_rs_x64_instructions_retired).

(** ** The frame contract *)

Record gem_hybrid_frame_contract : Type := FrameContract {
  fc_expected_cookie : Z;
  fc_observed_cookie : Z;
  fc_expected_return_pc : Z;
  fc_observed_return_pc : Z;
  fc_expected_sp : Z;
  fc_observed_sp : Z;
  fc_expected_original_x64_sp : Z;
  fc_observed_original_x64_sp : Z;
  fc_expected_record : Z;
  fc_observed_record : Z;
  fc_depth : Z;
  fc_maximum_depth : Z;
  fc_active : bool;
  fc_require_record : bool;
  fc_record_readable : bool }.

Definition gem_hybrid_frame_contract_validate (f : option gem_hybrid_frame_contract) : bool :=
  match f with
  | None => false
  | Some f =>
    fc_active f && negb (fc_depth f =? 0) && (fc_depth f <=? fc_maximum_depth f) &&
    (fc_maximum_depth f =? 2) && negb (fc_expected_cookie f =? 0) &&
    (fc_observed_cookie f =? fc_expected_cookie f) &&
    (fc_observed_return_pc f =? fc_expected_return_pc f) &&
    (fc_observed_sp f =? fc_expected_sp f) &&
    (fc_observed_original_x64_sp f =? fc_expected_original_x64_sp f) &&
    (negb (fc_require_record f) ||
     (fc_record_readable f && (fc_observed_record f =? fc_expected_record f)))
  end.

Section hybrid.
Context {platform : Platform}.

(** ** Targets *)

Definition hybrid_resolve (h : hybrid_core) (requested_va : Z)
  : M (gem_arm64ec_target_status + target_result) :=
  target_call (match yc_target_resolver (hy_config h) with
               | Some f => f requested_va
               | None => gem_arm64ec_target_resolve (hy_map h) requested_va true
               end).

(** The status or the target, and the context; [out_target] is non-NULL at every
    call. *)
Definition hybrid_checker_dispatch (h : hybrid_core) (c : gem_thread_context)
  : M ((gem_arm64ec_target_status + target_result) * gem_thread_context) :=
  if negb (gem_context_is_valid (Some c)) || negb (c_isa c =? GEM_ISA_ARM64EC)
  then mret (inl GEM_ARM64EC_TARGET_INVALID_ARGUMENT, c)
  else
    let original_target := xreg c 11 in
    t ← hybrid_resolve h original_target;
    match t with
    | inl status => mret (inl status, c)
    | inr target =>
      if bool_decide (kind target = GEM_ARM64EC_TARGET_X64_BOUNDARY) then
        t ← hybrid_resolve h (xreg c 10);
        match t with
        | inl status => mret (inl status, c)
        | inr exit_thunk =>
          if bool_decide (kind exit_thunk = GEM_ARM64EC_TARGET_X64_BOUNDARY)
          then mret (inl GEM_ARM64EC_TARGET_NOT_EXECUTABLE, c)
          else mret (inr target, with_reg 11 (resolved_va exit_thunk) (with_reg 9 original_target c))
        end
      else mret (inr target, c)
    end.

(** [gem_memory_read] of [n] bytes, at most eight, into a variable: the error and
    the value. *)
Definition read_value (n : nat) (va : Z) : M (gem_memory_error * Z) :=
  '(error, bytes) ← in_memory (fun m => gem_memory_read m va (Some (replicate n 0)) (Z.of_nat n));
  mret (error, wrap64 (le_value (default [] bytes))).

Definition hybrid_descriptor_resolve (h : hybrid_core) (descriptor_va : Z)
  : M (gem_arm64ec_target_status + target_result) :=
  if UINT64_MAX - 4 <? descriptor_va then mret (inl GEM_ARM64EC_TARGET_INVALID_ARGUMENT)
  else
    '(error, encoded) ← read_value 4 descriptor_va;
    if negb (bool_decide (error = GEM_MEMORY_OK)) then mret (inl GEM_ARM64EC_TARGET_MEMORY_FAULT)
    else
      let function_va := descriptor_va + 4 in
      let offset := encoded .&~ 3 in
      if UINT64_MAX - offset <? function_va then mret (inl GEM_ARM64EC_TARGET_OVERFLOW)
      else hybrid_resolve h (function_va + offset).

(** [hybrid_resolve(...) == GEM_ARM64EC_TARGET_OK && target.kind == k] *)
Definition resolve_to (h : hybrid_core) (va : Z) (k : gem_arm64ec_target_kind) : M (option target_result) :=
  t ← hybrid_resolve h va;
  mret (match t with
        | inr target => if bool_decide (kind target = k) then Some target else None
        | inl _ => None
        end).

(** ** Records on the guest's stack *)

(** What a snapshot stored in [page] and [protection], which starts as 0. *)
Definition snapshot_of (out : option (list Z * Z)) : list Z * Z := default ([], 0) out.

Definition stack_record_supported (address : Z) : M bool :=
  transaction ← gem_memory_transaction_begin;
  match transaction with
  | None => mret false
  | Some _ =>
    '(error, transaction, out) ←
      gem_memory_transaction_snapshot_page transaction (address .&~ 4095) true true;
    gem_memory_transaction_end transaction;;
    mret (bool_decide (error = GEM_MEMORY_OK) && ((snapshot_of out).2 =? GEM_PAGE_READWRITE))
  end.

(** The error, and what is stored in [*old_value]. *)
Definition replace_stack_record (address value : Z) : M (gem_memory_error * option Z) :=
  let page_address := address .&~ 4095 in
  let offset := address - page_address in
  if GEM_GUEST_PAGE_SIZE - 8 <? offset then mret (GEM_MEMORY_INVALID_ARGUMENT, None)
  else
    transaction ← gem_memory_transaction_begin;
    match transaction with
    | None => mret (GEM_MEMORY_INVALID_ARGUMENT, None)
    | Some _ =>
      '(error, transaction, out) ←
        gem_memory_transaction_snapshot_page transaction page_address true true;
      let '(page, protection) := snapshot_of out in
      let error :=
        if bool_decide (error = GEM_MEMORY_OK) && negb (protection =? GEM_PAGE_READWRITE)
        then GEM_MEMORY_ACCESS_DENIED else error in
      '(error, transaction, old_value) ←
        (if bool_decide (error = GEM_MEMORY_OK) then
           let old_value := wrap64 (le_value (bytes_at page offset 8)) in
           let page := memcpy page offset (le_bytes 8 value) in
           '(error, _, transaction, _) ← gem_memory_transaction_commit_pages transaction
             (Some [PageWrite page_address (Some page)]) 1;
           mret (error, transaction, Some old_value)
         else mret (error, transaction, None));
      gem_memory_transaction_end transaction;;
      mret (error, old_value)
    end.

(** ** The boundary broker *)

Notation boundary_result := (Z * Z * gem_thread_context * hybrid_core)%type.

Definition generic_current_frame (g : hybrid_generic_state) : option hybrid_generic_frame :=
  if (gs_depth g =? 0) || (2 <? gs_depth g) then None else gs_frames g !! Z.to_nat (gs_depth g - 1).

Definition fail_bit (b : bool) (n : Z) : Z := if b then 1 <<. n else 0.

(** The failed conditions of a return to the dispatcher, as bits. *)
Definition callback_failure (g : hybrid_generic_state) (c : gem_thread_context) : Z :=
  let frame := generic_current_frame g in
  let differs (f : hybrid_generic_frame -> bool) := from_option f false frame in
  fail_bit (negb (bool_decide (gs_stage g = HYBRID_GENERIC_ARM_CALLBACK))) 0
  .| fail_bit (bool_decide (frame = None)) 1
  .| fail_bit (differs (fun f => bool_decide (gf_callback f = HYBRID_GENERIC_CALLBACK_NONE))) 2
  .| fail_bit (gs_pending_callback_return g) 3
  .| fail_bit (differs (fun f => negb (c_transition_cookie c =? gf_cookie f))) 4
  .| fail_bit (differs (fun f => negb (xreg c 30 =? gf_callback_resume_pc f))) 5
  .| fail_bit (differs (fun f => negb (c_sp c =? gf_callback_arm_entry_sp f))) 6
  .| fail_bit (differs (fun f => negb (c_original_x64_sp c =? gf_callback_pre_call_sp f))) 7.

Definition set_pending_dispatch (g : hybrid_generic_state) (b : bool) (target pc sp : Z)
  : hybrid_generic_state :=
  GenericState (gs_frames g) (gs_stage g) (gs_depth g) (gs_native_return_pc g) target pc sp
    (gs_active g) b (gs_pending_callback_return g) (gs_pending_native_return g)
    (gs_boundary_failure g).

Definition fail_with (h : hybrid_core) (c : gem_thread_context) (boundary_kind code : Z)
  : M boundary_result :=
  mret (GEM_ARM64EC_BOUNDARY_FAIL, boundary_kind, c,
        set_hy_generic h (set_gs_boundary_failure (hy_generic h) code)).

Definition generic_boundary (pc : Z) (c : gem_thread_context) (boundary_kind : Z) (h : hybrid_core)
  : M boundary_result :=
  if negb (gs_active (hy_generic h))
  then mret (GEM_ARM64EC_BOUNDARY_NOT_HANDLED, boundary_kind, c, h)
  else
    let h := set_hy_generic h (set_gs_boundary_failure (hy_generic h) 0) in
    let g := hy_generic h in
    let config := hy_config h in
    if negb (xreg c 18 =? c_teb c) ||
       (negb (bool_decide (gs_stage g = HYBRID_GENERIC_ARM)) &&
        negb (bool_decide (gs_stage g = HYBRID_GENERIC_ARM_CALLBACK)))
    then fail_with h c boundary_kind 0x47420001
    else if pc =? yc_checker_helper config then
      '(t, c) ← hybrid_checker_dispatch h c;
      match t with
      | inl _ => mret (GEM_ARM64EC_BOUNDARY_FAIL, GEM_ARM64EC_BOUNDARY_CHECK_ICALL, c, h)
      | inr _ =>
        mret (GEM_ARM64EC_BOUNDARY_RESUME, GEM_ARM64EC_BOUNDARY_CHECK_ICALL,
              with_pc c (xreg c 30), count_checker h)
      end
    else if (pc =? yc_dispatch_call_helper config) ||
            (negb (yc_dispatch_jump_helper config =? 0) && (pc =? yc_dispatch_jump_helper config))
    then
      if gs_pending_dispatch g || (2 <=? gs_depth g)
      then mret (GEM_ARM64EC_BOUNDARY_FAIL, GEM_ARM64EC_BOUNDARY_DISPATCH_CALL, c, h)
      else
        t ← resolve_to h (xreg c 9) GEM_ARM64EC_TARGET_X64_BOUNDARY;
        match t with
        | None => mret (GEM_ARM64EC_BOUNDARY_FAIL, GEM_ARM64EC_BOUNDARY_DISPATCH_CALL, c, h)
        | Some target =>
          mret (GEM_ARM64EC_BOUNDARY_STOP, GEM_ARM64EC_BOUNDARY_DISPATCH_CALL, c,
                count_dispatch_call (set_hy_generic h
                  (set_pending_dispatch g true (resolved_va target) (xreg c 30) (c_sp c))))
        end
    else if pc =? yc_dispatch_ret_helper config then
      let failure := callback_failure g c in
      if negb (failure =? 0)
      then fail_with h c GEM_ARM64EC_BOUNDARY_DISPATCH_RETURN (0x47520000 .| failure)
      else mret (GEM_ARM64EC_BOUNDARY_STOP, GEM_ARM64EC_BOUNDARY_DISPATCH_RETURN, c,
                 count_dispatch_ret (set_hy_generic h (set_gs_pending_callback_return g true)))
    else if (gs_depth g =? 0) && bool_decide (gs_stage g = HYBRID_GENERIC_ARM) &&
            (pc =? gs_native_return_pc g)
    then mret (GEM_ARM64EC_BOUNDARY_STOP, GEM_ARM64EC_BOUNDARY_DISPATCH_RETURN, c,
               set_hy_generic h (set_gs_pending_native_return g true))
    else mret (GEM_ARM64EC_BOUNDARY_NOT_HANDLED, boundary_kind, c, h).

Definition bump_resume (boundary_kind : Z) (c : gem_thread_context) (h : hybrid_core) : boundary_result :=
  (GEM_ARM64EC_BOUNDARY_RESUME, boundary_kind, with_pc c (xreg c 30), count_checker h).

(** The checker on the way from ARM64EC to x64. *)
Definition checker_boundary (c : gem_thread_context) (boundary_kind : Z) (h : hybrid_core)
  : M boundary_result :=
  if negb (rs_checker_boundaries (hy_stats h) =? 0)
  then mret (GEM_ARM64EC_BOUNDARY_FAIL, boundary_kind, c, h)
  else if negb (hy_return_mode h =? 0) then
    t ← resolve_to h (xreg c 11) GEM_ARM64EC_TARGET_X64_BOUNDARY;
    mret (if from_option (fun target => resolved_va target =? hy_expected_x64_target h) false t
          then bump_resume GEM_ARM64EC_BOUNDARY_CHECK_ICALL c h
          else (GEM_ARM64EC_BOUNDARY_FAIL, GEM_ARM64EC_BOUNDARY_CHECK_ICALL, c, h))
  else
    '(t, c) ← hybrid_checker_dispatch h c;
    mret (if match t with
             | inl _ => false
             | inr target =>
               bool_decide (kind target = GEM_ARM64EC_TARGET_X64_BOUNDARY) &&
               (xreg c 11 =? xreg c 10) &&
               ((hy_expected_x64_target h =? 0) || (resolved_va target =? hy_expected_x64_target h))
             end
          then bump_resume GEM_ARM64EC_BOUNDARY_CHECK_ICALL_CFG c h
          else (GEM_ARM64EC_BOUNDARY_FAIL, GEM_ARM64EC_BOUNDARY_CHECK_ICALL_CFG, c, h)).

(** The checker inside a nested callback. *)
Definition nested_checker_boundary (c : gem_thread_context) (h : hybrid_core) : M boundary_result :=
  let failed := mret (GEM_ARM64EC_BOUNDARY_FAIL, GEM_ARM64EC_BOUNDARY_CHECK_ICALL, c, h) in
  if negb (rs_checker_boundaries (hy_stats h) =? 1) || hf_active (hy_nested_frame h) then failed
  else
    t ← resolve_to h (xreg c 11) GEM_ARM64EC_TARGET_X64_BOUNDARY;
    if from_option (fun target => resolved_va target =? hy_expected_nested_x64_target h) false t
    then mret (bump_resume GEM_ARM64EC_BOUNDARY_CHECK_ICALL c h) else failed.

Definition dispatch_call_boundary (c : gem_thread_context) (h : hybrid_core) : M boundary_result :=
  let failed := mret (GEM_ARM64EC_BOUNDARY_FAIL, GEM_ARM64EC_BOUNDARY_DISPATCH_CALL, c, h) in
  let f := hy_frame h in
  if negb (rs_dispatch_call_boundaries (hy_stats h) =? 0) || hf_active f then failed
  else
    t ← resolve_to h (xreg c 9) GEM_ARM64EC_TARGET_X64_BOUNDARY;
    if from_option (fun target => (hy_expected_x64_target h =? 0) ||
                                  (resolved_va target =? hy_expected_x64_target h)) false t
    then
      mret (GEM_ARM64EC_BOUNDARY_STOP, GEM_ARM64EC_BOUNDARY_DISPATCH_CALL, c,
            count_dispatch_call (set_hy_frame h
              (HybridFrame (xreg c 30) (c_sp c) (hf_original_x64_sp f) (hf_arm_entry_sp f)
                 (yc_x64_return_sentinel (hy_config h)) (hf_callback_target f) (hf_callback_call_sp f)
                 (hf_callback_record_address f) (hf_callback_resume_pc f)
                 (hf_callback_original_x64_sp f) (hf_callback_arm_entry_sp f) (hf_cookie f)
                 (hf_operation f) (hf_active f))))
    else failed.

(** The contract of the frame at a return to the dispatcher. *)
Definition return_contract (h : hybrid_core) (c : gem_thread_context) (require_record readable : bool)
    (callback_record : Z) : gem_hybrid_frame_contract :=
  let f := hy_frame h in
  let callback := bool_decide (hy_stage h = HYBRID_STAGE_CALLBACK_ARM_ENTRY) in
  FrameContract (hf_cookie f) (c_transition_cookie c)
    (if callback then hf_callback_resume_pc f else hf_x64_return f) (xreg c 30)
    (if callback then hf_callback_arm_entry_sp f else hf_arm_entry_sp f) (c_sp c)
    (if callback then hf_callback_original_x64_sp f else hf_original_x64_sp f) (c_original_x64_sp c)
    (hf_callback_resume_pc f) callback_record
    (if hf_active (hy_nested_frame h) then 2 else if hf_active f then 1 else 0) 2
    (hf_active f) require_record readable.

Definition dispatch_ret_boundary (c : gem_thread_context) (h : hybrid_core) : M boundary_result :=
  let f := hy_frame h in
  let callback := bool_decide (hy_stage h = HYBRID_STAGE_CALLBACK_ARM_ENTRY) in
  let require_record := callback && bool_decide (hf_operation f = HYBRID_OPERATION_CALLBACK_RESUME) in
  '(readable, callback_record) ←
    (if require_record then
       '(error, record) ← read_value 8 (hf_callback_record_address f);
       mret (bool_decide (error = GEM_MEMORY_OK), record)
     else mret (false, 0));
  let operation_valid :=
    if callback then bool_decide (hf_operation f = HYBRID_OPERATION_CALLBACK_RESUME) ||
                     bool_decide (hf_operation f = HYBRID_OPERATION_NESTED)
    else bool_decide (hf_operation f = HYBRID_OPERATION_ROUNDTRIP_RETURN) in
  mret (if negb operation_valid ||
           negb (gem_hybrid_frame_contract_validate
                   (Some (return_contract h c require_record readable callback_record))) ||
           negb (rs_dispatch_ret_boundaries (hy_stats h) =? 0)
        then (GEM_ARM64EC_BOUNDARY_FAIL, GEM_ARM64EC_BOUNDARY_DISPATCH_RETURN, c, h)
        else (GEM_ARM64EC_BOUNDARY_STOP, GEM_ARM64EC_BOUNDARY_DISPATCH_RETURN, c, count_dispatch_ret h)).

Definition hybrid_boundary : boundary_fn hybrid_core := fun pc c boundary_kind h =>
  let config := hy_config h in
  let at_stage s := bool_decide (hy_stage h = s) in
  if gs_active (hy_generic h) then generic_boundary pc c boundary_kind h
  else if negb (xreg c 18 =? c_teb c)
  then mret (GEM_ARM64EC_BOUNDARY_FAIL, boundary_kind, c, h)
  else if at_stage HYBRID_STAGE_ARM_TO_X64 && (pc =? yc_checker_helper config)
  then checker_boundary c boundary_kind h
  else if at_stage HYBRID_STAGE_CALLBACK_ARM_ENTRY &&
          bool_decide (hf_operation (hy_frame h) = HYBRID_OPERATION_NESTED) &&
          (pc =? yc_checker_helper config)
  then nested_checker_boundary c h
  else if at_stage HYBRID_STAGE_ARM_TO_X64 && (pc =? yc_dispatch_call_helper config)
  then dispatch_call_boundary c h
  else if (at_stage HYBRID_STAGE_ARM_ENTRY || at_stage HYBRID_STAGE_CALLBACK_ARM_ENTRY) &&
          (pc =? yc_dispatch_ret_helper config)
  then dispatch_ret_boundary c h
  else if at_stage HYBRID_STAGE_ARM_RETURN && (pc =? yc_host_return_sentinel config)
  then mret (GEM_ARM64EC_BOUNDARY_RESUME, GEM_ARM64EC_BOUNDARY_DISPATCH_RETURN,
             with_pc c GEM_HYBRID_INTERNAL_HOST_RETURN, h)
  else mret (GEM_ARM64EC_BOUNDARY_NOT_HANDLED, boundary_kind, c, h).

(** ** Frames *)

(** The frame on top, if any, and the stack with it replaced. *)
Definition set_frame (g : hybrid_generic_state) (i : nat) (f : hybrid_generic_frame) : hybrid_generic_state :=
  set_gs_frames g (<[i := f]> (gs_frames g)).
Definition next_generation (generation : Z) : Z :=
  if generation =? UINT64_MAX then 1 else generation + 1.

(** Functions that return a [bool] also return the object and the context. *)
Definition generic_push_x64 (h : hybrid_core) (c : gem_thread_context)
    (target_va arm_resume_pc arm_resume_sp : Z) : M (bool * hybrid_core * gem_thread_context) :=
  let resume_arm_callback := bool_decide (gs_stage (hy_generic h) = HYBRID_GENERIC_ARM_CALLBACK) in
  if (2 <=? gs_depth (hy_generic h)) || (c_sp c <? 8) || negb (c_sp c =? arm_resume_sp)
  then mret (false, h, c)
  else
    t ← resolve_to h target_va GEM_ARM64EC_TARGET_X64_BOUNDARY;
    match t with
    | None => mret (false, h, c)
    | Some target =>
      supported ← stack_record_supported (c_sp c - 8);
      let parent := generic_current_frame (hy_generic h) in
      if negb supported ||
         (resume_arm_callback &&
          from_option (fun f => bool_decide (gf_callback f = HYBRID_GENERIC_CALLBACK_NONE)) true parent)
      then mret (false, h, c)
      else
        let depth := gs_depth (hy_generic h) in
        let g :=
          match parent with
          | Some f => if resume_arm_callback
                      then set_frame (hy_generic h) (Z.to_nat (depth - 1)) (set_gf_callback_nested f true)
                      else hy_generic h
          | None => hy_generic h
          end in
        let h := set_hy_generation h (next_generation (hy_generation h)) in
        let frame := GenericFrame (hy_generation h) arm_resume_pc arm_resume_sp (c_original_x64_sp c)
          (c_sp c - 8) 0 0 0 0 0 HYBRID_GENERIC_CALLBACK_NONE false resume_arm_callback false in
        '(error, old_record) ←
          replace_stack_record (gf_record_address frame) (yc_x64_return_sentinel (hy_config h));
        if negb (bool_decide (error = GEM_MEMORY_OK))
        then mret (false, set_hy_generic h (set_frame g (Z.to_nat depth) generic_frame_zero), c)
        else
          let frame := GenericFrame (hy_generation h) arm_resume_pc arm_resume_sp (c_original_x64_sp c)
            (c_sp c - 8) (default 0 old_record) 0 0 0 0 HYBRID_GENERIC_CALLBACK_NONE true
            resume_arm_callback false in
          let g := set_gs_stage (set_gs_depth (set_frame g (Z.to_nat depth) frame) (depth + 1))
                     HYBRID_GENERIC_X64 in
          let h := count_push (set_hy_generic h g) in
          let h := if rs_maximum_frame_depth (hy_stats h) <? depth + 1
                   then set_hy_stats h (set_rs_maximum_frame_depth (hy_stats h) (depth + 1)) else h in
          mret (true, h,
            with_stop_reason (with_transition_cookie (with_isa (with_pc (with_sp c (gf_record_address frame))
              (resolved_va target)) GEM_ISA_X64) (gf_cookie frame)) GEM_STOP_NONE)
    end.

Definition generic_pop_x64 (h : hybrid_core) (c : gem_thread_context)
  : M (bool * hybrid_core * gem_thread_context) :=
  let g := hy_generic h in
  if gs_depth g =? 0 then mret (false, h, c)
  else
    match gs_frames g !! Z.to_nat (gs_depth g - 1) with
    | None => fault
    | Some frame =>
      if negb (gf_record_written frame) || negb (c_sp c =? wrap64 (gf_record_address frame + 8))
      then mret (false, h, c)
      else
        '(error, _) ← replace_stack_record (gf_record_address frame) (gf_old_record frame);
        if negb (bool_decide (error = GEM_MEMORY_OK)) then mret (false, h, c)
        else
          let g := set_gs_depth (set_frame g (Z.to_nat (gs_depth g - 1)) generic_frame_zero)
                     (gs_depth g - 1) in
          let c := with_isa (with_original_x64_sp (with_sp (with_pc (with_reg 0 (xreg c 8) c)
            (gf_arm_resume_pc frame)) (gf_arm_resume_sp frame)) (gf_prior_original_x64_sp frame))
            GEM_ISA_ARM64EC in
          let c := with_transition_cookie c (from_option gf_cookie 0 (generic_current_frame g)) in
          mret (true,
            count_pop (set_hy_generic h (set_gs_stage g
              (if gf_resume_arm_callback frame then HYBRID_GENERIC_ARM_CALLBACK else HYBRID_GENERIC_ARM))),
            with_stop_reason (with_reg 18 (c_teb c) c) GEM_STOP_NONE)
    end.

(** The frame with its callback begun, the context, and the x64 stack pointer
    from before the transfer; [None] when the transfer is refused. *)
Definition callback_transfer (h : hybrid_core) (frame : hybrid_generic_frame) (c : gem_thread_context)
    (pre_step_sp : Z) (was_call : bool)
  : M (option (hybrid_generic_callback * Z * gem_thread_context * Z)) :=
  if was_call then
    if (pre_step_sp <? 8) || negb (c_sp c =? pre_step_sp - 8) then mret None
    else
      '(error, record) ← read_value 8 (c_sp c);
      mret (if negb (bool_decide (error = GEM_MEMORY_OK)) then None
            else Some (HYBRID_GENERIC_CALLBACK_CALL, record, c, pre_step_sp))
  else if negb (c_sp c =? gf_record_address frame) then mret None
  else
    '(error, record) ← read_value 8 (c_sp c);
    mret (if negb (bool_decide (error = GEM_MEMORY_OK)) ||
             negb (record =? yc_x64_return_sentinel (hy_config h)) then None
          else
            let original_x64_sp := wrap64 (c_sp c + 8) in
            Some (HYBRID_GENERIC_CALLBACK_TAIL, yc_x64_return_sentinel (hy_config h),
                  with_sp c original_x64_sp, original_x64_sp)).

Definition set_callback (f : hybrid_generic_frame) (callback : hybrid_generic_callback)
    (resume_pc pre_call_sp arm_entry_sp prior_original_x64_sp : Z) : hybrid_generic_frame :=
  GenericFrame (gf_cookie f) (gf_arm_resume_pc f) (gf_arm_resume_sp f) (gf_prior_original_x64_sp f)
    (gf_record_address f) (gf_old_record f) resume_pc pre_call_sp arm_entry_sp prior_original_x64_sp
    callback (gf_record_written f) (gf_resume_arm_callback f) (gf_callback_nested f).

Definition generic_enter_callback (h : hybrid_core) (c : gem_thread_context) (target : target_result)
    (pre_step_sp : Z) (was_call : bool) : M (bool * hybrid_core * gem_thread_context) :=
  let g := hy_generic h in
  match generic_current_frame g with
  | None => mret (false, h, c)
  | Some frame =>
    if negb (bool_decide (gf_callback frame = HYBRID_GENERIC_CALLBACK_NONE)) || (resolved_va target <? 4)
    then mret (false, h, c)
    else
      r ← callback_transfer h frame c pre_step_sp was_call;
      match r with
      | None => mret (false, h, c)
      | Some (callback, resume_pc, c, original_x64_sp) =>
        let put f := set_hy_generic h (set_frame g (Z.to_nat (gs_depth g - 1)) f) in
        let undone := put (set_callback frame HYBRID_GENERIC_CALLBACK_NONE resume_pc
          (gf_callback_pre_call_sp frame) (gf_callback_arm_entry_sp frame)
          (gf_callback_prior_original_x64_sp frame)) in
        t ← hybrid_descriptor_resolve h (resolved_va target - 4);
        match t with
        | inl _ => mret (false, undone, c)
        | inr thunk =>
          if bool_decide (kind thunk = GEM_ARM64EC_TARGET_X64_BOUNDARY) then mret (false, undone, c)
          else
            let arm_entry_sp := original_x64_sp .&~ 15 in
            let h := put (set_callback frame callback resume_pc original_x64_sp arm_entry_sp
                            (c_original_x64_sp c)) in
            let h := count_descriptor (count_x64_to_arm64ec h) in
            let c := with_reg 9 (resolved_va target) (with_reg 4 original_x64_sp (with_reg 30 resume_pc c)) in
            let c := with_isa (with_pc (with_sp (with_original_x64_sp c original_x64_sp) arm_entry_sp)
                       (resolved_va thunk)) GEM_ISA_ARM64EC in
            mret (true, set_hy_generic h (set_gs_stage (hy_generic h) HYBRID_GENERIC_ARM_CALLBACK),
                  with_stop_reason (with_reg 18 (c_teb c) c) GEM_STOP_NONE)
        end
      end
  end.

Definition generic_finish_callback (h : hybrid_core) (c : gem_thread_context)
  : M (bool * hybrid_core * gem_thread_context) :=
  match generic_current_frame (hy_generic h) with
  | None => mret (false, h, c)
  | Some frame =>
    let h' := set_hy_generic h (set_gs_pending_callback_return (hy_generic h) false) in
    let g := hy_generic h' in
    match gf_callback frame with
    | HYBRID_GENERIC_CALLBACK_NONE => mret (false, h, c)
    | HYBRID_GENERIC_CALLBACK_CALL =>
      let c := with_isa (with_original_x64_sp (with_sp (with_pc c (gf_callback_resume_pc frame))
        (gf_callback_pre_call_sp frame)) (gf_callback_prior_original_x64_sp frame)) GEM_ISA_X64 in
      mret (true,
        set_hy_generic h' (set_gs_stage (set_frame g (Z.to_nat (gs_depth g - 1))
          (set_callback frame HYBRID_GENERIC_CALLBACK_NONE 0 0 0 0)) HYBRID_GENERIC_X64),
        with_stop_reason (with_transition_cookie c (gf_cookie frame)) GEM_STOP_NONE)
    | HYBRID_GENERIC_CALLBACK_TAIL =>
      generic_pop_x64 h' (with_sp c (wrap64 (gf_record_address frame + 8)))
    end
  end.

Definition generic_begin (h : hybrid_core) (c : gem_thread_context)
  : M (bool * hybrid_core * gem_thread_context) :=
  if negb (c_isa c =? GEM_ISA_ARM64EC) || negb (c_transition_cookie c =? 0) ||
     negb (xreg c 18 =? c_teb c) || (xreg c 30 =? 0)
  then mret (false, h, c)
  else
    t ← hybrid_resolve h (c_pc c);
    match t with
    | inl _ => mret (false, h, c)
    | inr target =>
      if bool_decide (kind target = GEM_ARM64EC_TARGET_X64_BOUNDARY) then mret (false, h, c)
      else
        mret (true,
          set_hy_generic h (GenericState (replicate 2 generic_frame_zero) HYBRID_GENERIC_ARM 0
            (if yc_boundary_delivery (hy_config h) =? GEM_ARM64EC_BOUNDARY_SVC_TRAP
             then yc_host_return_sentinel (hy_config h) else xreg c 30)
            0 0 0 true false false false 0),
          with_pc c (resolved_va target))
    end.

Definition generic_context_valid (h : hybrid_core) (c : option gem_thread_context) : bool :=
  let g := hy_generic h in
  match c with
  | None => false
  | Some c =>
    gem_context_is_valid (Some c) && (xreg c 18 =? c_teb c) && (gs_depth g <=? 2) &&
    match gs_stage g with
    | HYBRID_GENERIC_X64 => c_isa c =? GEM_ISA_X64
    | HYBRID_GENERIC_ARM | HYBRID_GENERIC_ARM_CALLBACK => c_isa c =? GEM_ISA_ARM64EC
    | HYBRID_GENERIC_IDLE => false
    end &&
    (c_transition_cookie c =?
       if gs_depth g =? 0 then 0
       else from_option gf_cookie 0 (gs_frames g !! Z.to_nat (gs_depth g - 1)))
  end.

(** ** Stops *)

Definition record_broker_stop (h : hybrid_core) (reason : gem_stop_reason) : hybrid_core :=
  set_hy_last_stop h (HybridStopInfo reason GEM_HYBRID_STOP_SOURCE_BROKER arm64ec_stop_zero x64_stop_zero).

(** [fail(context)] *)
Definition fail (c : option gem_thread_context) : gem_stop_reason * option gem_thread_context :=
  (GEM_STOP_INVARIANT_VIOLATION, (fun c => with_stop_reason c GEM_STOP_INVARIANT_VIOLATION) <$> c).

(** ** The object with its engines *)

Section engines.
Context {dynarmic : Dynarmic} {blink : Blink}.

Notation arm_runtime := (gem_arm64ec_runtime (S := hybrid_core)).

Record gem_hybrid_runtime : Type := HybridRuntime {
  hr_core : hybrid_core;
  hr_arm : arm_runtime;
  hr_x64 : gem_x64_runtime }.

Definition capture_arm_stop (h : hybrid_core) (arm : arm_runtime) : bool * hybrid_core :=
  match gem_arm64ec_runtime_last_stop_info (Some arm) true with
  | None => (false, set_hy_last_stop h (HybridStopInfo GEM_STOP_NONE GEM_HYBRID_STOP_SOURCE_ARM64EC
                                          arm64ec_stop_zero x64_stop_zero))
  | Some i =>
    let failure := gs_boundary_failure (hy_generic h) in
    let i :=
      if bool_decide (ai_reason i = GEM_STOP_INVARIANT_VIOLATION) &&
         (ai_engine_status i =? GEM_ARM64EC_BOUNDARY_FAIL) && negb (failure =? 0)
      then Arm64ecStopInfo (ai_reason i) (ai_instructions_retired i) (ai_fault_address i) (ai_access i)
             (ai_memory_error i) failure
      else i in
    (true, set_hy_last_stop h (HybridStopInfo (ai_reason i) GEM_HYBRID_STOP_SOURCE_ARM64EC i x64_stop_zero))
  end.

(** Whether the stop is consistent, the object, and [*budget]. *)
Definition consume_arm_budget (h : hybrid_core) (arm : arm_runtime) (budget : Z) : bool * hybrid_core * Z :=
  let '(ok, h) := capture_arm_stop h arm in
  let retired := ai_instructions_retired (yi_arm64ec (hy_last_stop h)) in
  if negb ok || (budget <? retired) then (false, h, budget)
  else (true, set_hy_stats h (set_rs_arm64ec_instructions_retired (hy_stats h)
                                (wrap64 (rs_arm64ec_instructions_retired (hy_stats h) + retired))),
        budget - retired).

Definition capture_x64_stop (h : hybrid_core) (x64 : gem_x64_runtime) : bool * hybrid_core :=
  match gem_x64_runtime_last_stop_info (Some x64) true with
  | None => (false, set_hy_last_stop h (HybridStopInfo GEM_STOP_NONE GEM_HYBRID_STOP_SOURCE_X64
                                          arm64ec_stop_zero x64_stop_zero))
  | Some i => (true, set_hy_last_stop h (HybridStopInfo (xs_reason i) GEM_HYBRID_STOP_SOURCE_X64
                                           arm64ec_stop_zero i))
  end.

Definition hybrid_config_ok (c : gem_hybrid_runtime_config) : bool :=
  let jump := negb (yc_dispatch_jump_helper c =? 0) in
  let bad :=
    negb (yc_version c =? GEM_HYBRID_RUNTIME_CONFIG_VERSION) ||
    (yc_boundary_delivery c <? GEM_ARM64EC_BOUNDARY_PRECISE) ||
    (GEM_ARM64EC_BOUNDARY_SVC_TRAP <? yc_boundary_delivery c) || (yc_loaded_base c =? 0) ||
    (yc_checker_helper c =? 0) || (yc_dispatch_call_helper c =? 0) ||
    (yc_dispatch_ret_helper c =? 0) || (yc_x64_return_sentinel c =? 0) ||
    (yc_host_return_sentinel c =? 0) ||
    (yc_checker_helper c =? yc_dispatch_call_helper c) ||
    (yc_checker_helper c =? yc_dispatch_ret_helper c) ||
    (yc_dispatch_call_helper c =? yc_dispatch_ret_helper c) ||
    (jump && ((yc_dispatch_jump_helper c =? yc_checker_helper c) ||
              (yc_dispatch_jump_helper c =? yc_dispatch_call_helper c) ||
              (yc_dispatch_jump_helper c =? yc_dispatch_ret_helper c))) ||
    (yc_x64_return_sentinel c =? yc_host_return_sentinel c) ||
    (yc_x64_return_sentinel c =? yc_checker_helper c) ||
    (yc_x64_return_sentinel c =? yc_dispatch_call_helper c) ||
    (yc_x64_return_sentinel c =? yc_dispatch_ret_helper c) ||
    (jump && (yc_x64_return_sentinel c =? yc_dispatch_jump_helper c)) ||
    (yc_host_return_sentinel c =? yc_checker_helper c) ||
    (yc_host_return_sentinel c =? yc_dispatch_call_helper c) ||
    (yc_host_return_sentinel c =? yc_dispatch_ret_helper c) ||
    (jump && (yc_host_return_sentinel c =? yc_dispatch_jump_helper c)) ||
    (yc_max_budget c =? 0) ||
    negb (Bool.eqb (match yc_target_resolver c with None => true | Some _ => false end)
            (negb (yc_target_resolver_opaque c))) in
  negb bad.

(** [blocks] says whether the allocations of the two target maps succeed,
    [arriving] and [arriving_x64] what other threads store in the flags. *)
Definition gem_hybrid_runtime_create {allocator : Allocator} (blocks : bool * bool)
    (has_memory : bool) (im : option image) (config : option gem_hybrid_runtime_config)
    (arriving arriving_x64 : list bool) : M (option gem_hybrid_runtime) :=
  match config with
  | None => mret None
  | Some config =>
    if negb has_memory || bool_decide (im = None) || negb (hybrid_config_ok config) then mret None
    else
      p ← alloc;
      map ← target_call (match p with
                         | Some _ => gem_arm64ec_target_map_create blocks.1 im (yc_loaded_base config) true
                         | None => Err GEM_ARM64EC_TARGET_INVALID_ARGUMENT
                         end);
      match map with
      | inr map =>
        arm ← gem_arm64ec_runtime_create true (Some (Arm64ecConfig GEM_HYBRID_INTERNAL_HOST_RETURN
                0xffffffffffffffe0 (yc_max_budget config) 0 GEM_ARM64EC_PROFILE_STRICT
                (yc_boundary_delivery config)));
        match arm with
        | None => mret None
        | Some arm =>
          match gem_arm64ec_runtime_attach_arm64x blocks.2 (Some arm) im (yc_loaded_base config) with
          | Ok (true, arm) =>
            let '(ok, arm) :=
              match yc_target_resolver config with
              | Some f => gem_arm64ec_runtime_set_target_resolver arm (Some f)
                            (yc_target_resolver_opaque config)
              | None => (true, arm)
              end in
            let '(ok2, arm) := gem_arm64ec_runtime_set_boundary_broker arm (Some hybrid_boundary) in
            if negb ok || negb ok2 then mret None
            else
              x64 ← gem_x64_runtime_create true
                (Some (X64Config (yc_x64_return_sentinel config) (yc_max_budget config) 0 0
                         GEM_X86_64_ENGINE_INTERPRETER 0)) arriving_x64;
              mret (match x64, arm with
                    | Some x64, Some arm =>
                      Some (HybridRuntime
                        (HybridCore (Some map) config hybrid_frame_zero hybrid_frame_zero stats_zero
                           hybrid_stop_zero HYBRID_STAGE_IDLE 0 false 0 0 0 generic_state_zero
                           (AtomicFlag false arriving)) arm x64)
                    | _, _ => None
                    end)
          | Ok (false, _) => mret None
          | Err _ => abort
          | Fault => fault
          end
        end
      | inl _ => mret None
      end
  end.

Definition gem_hybrid_runtime_last_stop_info (r : option gem_hybrid_runtime) (has_out : bool)
  : option gem_hybrid_stop_info :=
  match r with
  | None => None
  | Some r =>
    let i := hy_last_stop (hr_core r) in
    if negb has_out || bool_decide (yi_reason i = GEM_STOP_NONE) then None else Some i
  end.

Definition gem_hybrid_runtime_coordinator_active (r : option gem_hybrid_runtime) : bool :=
  from_option (fun r => gs_active (hy_generic (hr_core r))) false r.

(** ** The stateful run *)

(** [hs_stats] is what [stats] points to, [None] for NULL. *)
Record hybrid_state : Type := HybridState {
  hs_core : hybrid_core;
  hs_arm : arm_runtime;
  hs_x64 : gem_x64_runtime;
  hs_context : gem_thread_context;
  hs_stats : option gem_hybrid_roundtrip_stats }.
Notation Hy := (K hybrid_state gem_stop_reason).

Definition put_hybrid (h : hybrid_core) : Hy unit :=
  modify (fun s => HybridState h (hs_arm s) (hs_x64 s) (hs_context s) (hs_stats s)).
Definition mod_hybrid (f : hybrid_core -> hybrid_core) : Hy unit :=
  modify (fun s => HybridState (f (hs_core s)) (hs_arm s) (hs_x64 s) (hs_context s) (hs_stats s)).
Definition put_hybrid_context (c : gem_thread_context) : Hy unit :=
  modify (fun s => HybridState (hs_core s) (hs_arm s) (hs_x64 s) c (hs_stats s)).
Definition mod_context (f : gem_thread_context -> gem_thread_context) : Hy unit :=
  modify (fun s => HybridState (hs_core s) (hs_arm s) (hs_x64 s) (f (hs_context s)) (hs_stats s)).
Definition mod_generic (f : hybrid_generic_state -> hybrid_generic_state) : Hy unit :=
  mod_hybrid (fun h => set_hy_generic h (f (hy_generic h))).
Definition the_core : Hy hybrid_core := gets hs_core.
Definition the_generic : Hy hybrid_generic_state := gets (fun s => hy_generic (hs_core s)).
Definition the_context : Hy gem_thread_context := gets hs_context.

(** A call of a function on the object and the context that returns a [bool]. *)
Definition call_bool (f : hybrid_core -> gem_thread_context -> M (bool * hybrid_core * gem_thread_context))
  : Hy bool :=
  h ← the_core; c ← the_context;
  '(b, h, c) ← lift (f h c);
  put_hybrid h;; put_hybrid_context c;; mret b.

(** [gem_arm64ec_runtime_run(runtime->arm, context, budget)], whose broker works
    on the object itself. *)
Definition run_arm (fuel : nat) (budget : Z) : Hy gem_stop_reason :=
  zoom id (fun _ s => s) (fun s =>
    out ← gem_arm64ec_runtime_run fuel (Some (hs_arm s)) (Some (hs_context s)) (hs_core s) budget;
    match out with
    | Some (reason, Some arm, Some c, h) => mret (Some (reason, HybridState h arm (hs_x64 s) c (hs_stats s)))
    | Some _ => fault
    | None => mret None
    end).

Definition run_x64 (budget : Z) : Hy gem_stop_reason :=
  s ← gets id;
  '(reason, x64, c) ← lift (gem_x64_runtime_run (Some (hs_x64 s)) (Some (hs_context s)) budget);
  match x64, c with
  | Some x64, Some c =>
    modify (fun s => HybridState (hs_core s) (hs_arm s) x64 c (hs_stats s));; mret reason
  | _, _ => lift fault
  end.

(** [consume_arm_budget(runtime, &remaining)] and [capture_x64_stop(runtime)] *)
Definition consume_arm (budget : Z) : Hy (bool * Z) :=
  s ← gets id;
  let '(ok, h, budget) := consume_arm_budget (hs_core s) (hs_arm s) budget in
  put_hybrid h;; mret (ok, budget).
Definition capture_x64 : Hy bool :=
  s ← gets id;
  let '(ok, h) := capture_x64_stop (hs_core s) (hs_x64 s) in
  put_hybrid h;; mret ok.

Definition publish_stats : Hy unit :=
  modify (fun s => HybridState (hs_core s) (hs_arm s) (hs_x64 s) (hs_context s)
                     ((fun _ => hy_stats (hs_core s)) <$> hs_stats s)).
Definition generic_publish_stats : Hy unit :=
  mod_hybrid (fun h => set_hy_stats h (set_rs_final_frame_depth (hy_stats h) (gs_depth (hy_generic h))));;
  publish_stats.

Definition generic_return {A} (reason : gem_stop_reason) : Hy A :=
  mod_context (fun c => with_stop_reason c reason);;
  mod_hybrid (fun h => set_hy_running h false);;
  generic_publish_stats;;
  return_ reason.

(** The records of the [depth] frames below the top, from the top. *)
Fixpoint restore_records (depth : nat) (frames : list hybrid_generic_frame) : M bool :=
  match depth with
  | O => mret true
  | Datatypes.S depth =>
    match frames !! depth with
    | None => fault
    | Some frame =>
      restored ←
        (if gf_record_written frame then
           '(error, _) ← replace_stack_record (gf_record_address frame) (gf_old_record frame);
           mret (bool_decide (error = GEM_MEMORY_OK))
         else mret true);
      rest ← restore_records depth frames;
      mret (restored && rest)
    end
  end.
Definition generic_restore_records (g : hybrid_generic_state) : M bool :=
  restore_records (Z.to_nat (gs_depth g)) (gs_frames g).

Definition generic_invariant_at {A} (source_line : Z) : Hy A :=
  g ← the_generic;
  _ ← lift (generic_restore_records g);
  c ← the_context;
  mod_hybrid (fun h => set_hy_last_stop (set_hy_generic h generic_state_zero)
    (HybridStopInfo GEM_STOP_INVARIANT_VIOLATION GEM_HYBRID_STOP_SOURCE_BROKER
       (Arm64ecStopInfo GEM_STOP_NONE 0 (c_pc c) 0 0 source_line) x64_stop_zero));;
  mod_context (fun c => with_isa (with_transition_cookie c 0) GEM_ISA_ARM64EC);;
  generic_return GEM_STOP_INVARIANT_VIOLATION.

(** [if (b) return generic_invariant(...);] on the given line *)
Definition fail_when (b : bool) (line : Z) : Hy unit := when b (generic_invariant_at line).

(** The ARM64EC engine has stopped at an architecture transition. *)
Definition arm_transition : Hy unit :=
  g ← the_generic; c ← the_context;
  if gs_pending_native_return g then
    fail_when (negb (gs_depth g =? 0) || negb (c_pc c =? gs_native_return_pc g)) 879;;
    mod_generic (fun _ => generic_state_zero);;
    mod_context (fun c => with_isa (with_transition_cookie c 0) GEM_ISA_ARM64EC);;
    mod_hybrid (fun h => record_broker_stop h GEM_STOP_ARCH_TRANSITION);;
    generic_return GEM_STOP_ARCH_TRANSITION
  else if gs_pending_callback_return g then
    ok ← call_bool generic_finish_callback;
    fail_when (negb ok) 888
  else if gs_pending_dispatch g then
    mod_generic (fun g => set_pending_dispatch g false 0 0 0);;
    ok ← call_bool (fun h c => generic_push_x64 h c (gs_pending_x64_target g)
                                 (gs_pending_arm_resume_pc g) (gs_pending_arm_resume_sp g));
    fail_when (negb ok) 900
  else
    h ← the_core;
    t ← lift (resolve_to h (c_pc c) GEM_ARM64EC_TARGET_X64_BOUNDARY);
    match t with
    | None => generic_invariant_at 907
    | Some target =>
      ok ← call_bool (fun h c => generic_push_x64 h c (resolved_va target) (xreg c 30) (c_sp c));
      fail_when (negb ok) 907
    end.

(** One round while ARM64EC code runs: what remains of the budget. *)
Definition arm_round (fuel : nat) (remaining : Z) : Hy Z :=
  h ← the_core;
  let svc_trap := yc_boundary_delivery (hy_config h) =? GEM_ARM64EC_BOUNDARY_SVC_TRAP in
  let g := hy_generic h in
  let arm_budget := if svc_trap then remaining else if remaining <? 4096 then remaining else 4096 in
  (if svc_trap then
     s ← gets id;
     let '(ok, arm) := gem_arm64ec_runtime_set_boundary_return_pc (Some (hs_arm s))
       (if bool_decide (gs_stage g = HYBRID_GENERIC_ARM) && (gs_depth g =? 0)
        then gs_native_return_pc g else 0) in
     modify (fun s => HybridState (hs_core s) (default (hs_arm s) arm) (hs_x64 s) (hs_context s) (hs_stats s));;
     fail_when (negb ok) 863
   else mret tt);;
  reason ← run_arm fuel arm_budget;
  '(ok, remaining) ← consume_arm remaining;
  h ← the_core;
  fail_when (negb ok || negb (bool_decide (yi_reason (hy_last_stop h) = reason))) 866;;
  when (negb (bool_decide (reason = GEM_STOP_ARCH_TRANSITION))) (generic_return reason);;
  arm_transition;;
  mret remaining.

(** One round while x64 code runs. *)
Definition x64_round (remaining : Z) : Hy Z :=
  c ← the_context;
  let pre_step_sp := c_sp c in
  reason ← run_x64 1;
  ok ← capture_x64;
  h ← the_core;
  let retired := xs_instructions_retired (yi_x64 (hy_last_stop h)) in
  fail_when (negb ok || negb (bool_decide (yi_reason (hy_last_stop h) = reason)) || (remaining <? retired)) 916;;
  mod_hybrid (fun h => set_hy_stats h (set_rs_x64_instructions_retired (hy_stats h)
                       (wrap64 (rs_x64_instructions_retired (hy_stats h) + retired))));;
  let remaining := remaining - retired in
  when (negb (bool_decide (reason = GEM_STOP_BUDGET_EXPIRED)) &&
        negb (bool_decide (reason = GEM_STOP_HOST_RETURN))) (generic_return reason);;
  fail_when (negb (retired =? 1)) 922;;
  h ← the_core; c ← the_context; x64 ← gets hs_x64;
  if c_pc c =? yc_x64_return_sentinel (hy_config h) then
    if negb (bool_decide (reason = GEM_STOP_HOST_RETURN)) ||
       negb (gem_x64_runtime_last_instruction_was_ret (Some x64))
    then generic_invariant_at 927
    else
      ok ← call_bool generic_pop_x64;
      fail_when (negb ok) 927;;
      mret remaining
  else
    fail_when (negb (bool_decide (reason = GEM_STOP_BUDGET_EXPIRED))) 932;;
    t ← lift (hybrid_resolve h (c_pc c));
    match t with
    | inl _ => generic_invariant_at 932
    | inr target =>
      if bool_decide (kind target = GEM_ARM64EC_TARGET_X64_BOUNDARY) then
        fail_when (negb (resolved_va target =? c_pc c)) 935;;
        mod_context (fun c => with_stop_reason c GEM_STOP_NONE);;
        mret remaining
      else
        ok ← call_bool (fun h c => generic_enter_callback h c target pre_step_sp
                                     (gem_x64_runtime_last_instruction_was_call (Some x64)));
        fail_when (negb ok) 943;;
        mret remaining
    end.

(** One round of [for (;;)]. *)
Definition hybrid_round (fuel : nat) (remaining : Z) : Hy Z :=
  h ← the_core;
  let '(requested, flag) := exchange_false (hy_async_stop_requested h) in
  mod_hybrid (fun h => set_hy_async_stop_requested h flag);;
  when requested
    (mod_hybrid (fun h => record_broker_stop h GEM_STOP_ASYNC_REQUEST);;
     generic_return GEM_STOP_ASYNC_REQUEST);;
  when (remaining =? 0)
    (when (negb (bool_decide (yi_reason (hy_last_stop h) = GEM_STOP_BUDGET_EXPIRED)))
       (mod_hybrid (fun h => record_broker_stop h GEM_STOP_BUDGET_EXPIRED));;
     generic_return GEM_STOP_BUDGET_EXPIRED);;
  match gs_stage (hy_generic h) with
  | HYBRID_GENERIC_ARM | HYBRID_GENERIC_ARM_CALLBACK => arm_round fuel remaining
  | HYBRID_GENERIC_X64 => x64_round remaining
  | HYBRID_GENERIC_IDLE => generic_invariant_at 946
  end.

Fixpoint hybrid_loop (rounds fuel : nat) (remaining : Z) : Hy gem_stop_reason :=
  match rounds with
  | O => stuck
  | Datatypes.S rounds => remaining ← hybrid_round fuel remaining; hybrid_loop rounds fuel remaining
  end.

(** What a run returns: the reason, the object, the context and [*stats]. *)
Notation hybrid_outcome :=
  (option (gem_stop_reason * option gem_hybrid_runtime * option gem_thread_context *
           option gem_hybrid_roundtrip_stats)).

Definition hybrid_finished (out : option (gem_stop_reason * hybrid_state)) : hybrid_outcome :=
  match out with
  | Some (reason, s) =>
      Some (reason, Some (HybridRuntime (hs_core s) (hs_arm s) (hs_x64 s)), Some (hs_context s), hs_stats s)
  | None => None
  end.

(** A run refused by its entry checks. *)
Definition hybrid_rejected (r : gem_hybrid_runtime) (c : option gem_thread_context)
    (stats : option gem_hybrid_roundtrip_stats) : hybrid_outcome :=
  let '(reason, c) := fail c in
  Some (reason, Some (HybridRuntime (record_broker_stop (hr_core r) GEM_STOP_INVARIANT_VIOLATION)
                        (hr_arm r) (hr_x64 r)), c, stats).

(** [fuel] bounds the segment loop of the ARM64EC engine, [rounds] the loop of
    the coordinator. *)
Definition gem_hybrid_runtime_run (rounds fuel : nat) (r : option gem_hybrid_runtime)
    (c : option gem_thread_context) (budget : Z) (has_stats : bool) : M hybrid_outcome :=
  let stats := if has_stats then Some stats_zero else None in
  match r with
  | None => let '(reason, c) := fail c in mret (Some (reason, None, c, stats))
  | Some r =>
    match c with
    | None => mret (hybrid_rejected r None stats)
    | Some c =>
      let h := hr_core r in
      if hy_running h || negb (gem_context_is_valid (Some c)) || (budget =? 0) ||
         (yc_max_budget (hy_config h) <? budget) || negb (c_stop_reason c =? stop_value GEM_STOP_NONE)
      then mret (hybrid_rejected r (Some c) stats)
      else
        '(ok, h, c) ← (if gs_active (hy_generic h) then mret (true, h, c) else generic_begin h c);
        if negb ok || negb (generic_context_valid h (Some c))
        then mret (hybrid_rejected (HybridRuntime h (hr_arm r) (hr_x64 r)) (Some c) stats)
        else
          let h := set_hy_stats h (set_rs_maximum_frame_depth stats_zero (gs_depth (hy_generic h))) in
          let h := set_hy_running (set_hy_last_stop h hybrid_stop_zero) true in
          out ← body (hybrid_loop rounds fuel budget) (HybridState h (hr_arm r) (hr_x64 r) c stats);
          mret (hybrid_finished out)
    end
  end.

(** [arriving] is what other threads store in the flag afterwards; a request is
    one of these stores, or the present value. *)
Definition gem_hybrid_runtime_request_async_stop (r : option gem_hybrid_runtime)
  : option gem_hybrid_runtime :=
  (fun r => HybridRuntime (set_hy_async_stop_requested (hr_core r)
              (AtomicFlag true (af_stores (hy_async_stop_requested (hr_core r))))) (hr_arm r) (hr_x64 r)) <$> r.

Definition gem_hybrid_runtime_invalidate_code (r : option gem_hybrid_runtime) (address size : Z)
  : result unit (option gem_hybrid_runtime) :=
  match r with
  | None => Ok None
  | Some rt =>
    if size =? 0 then Ok r
    else
      arm ← gem_arm64ec_runtime_invalidate_code (Some (hr_arm rt)) address size;
      let x64 := gem_x64_runtime_invalidate_code (Some (hr_x64 rt)) address size in
      Ok (Some (HybridRuntime (hr_core rt) (default (hr_arm rt) arm) (default (hr_x64 rt) x64)))
  end.
End engines.
End hybrid.
