(* ===== verification/HybridRecord.v ===== *)
(** HybridRecord: the records that the coordinator keeps on the guest's stack.
    Writing one changes exactly its eight bytes, in every page that shows the
    store they are in, and nothing at all when it fails; putting the old value
    back restores every page. *)
From S2P Require Import Prelude Context MemoryModel Memory MemoryLogic MemoryInv MemorySpec MemoryAtomic MemoryHistory.
From S2P Require Import Transaction TransactionInv TransactionWorld TransactionCommit.
From S2P Require Import Blink X64Engine X64EngineProperties Control Dynarmic Arm64ecEngine Hybrid.

(** ** Views across the steps that keep bytes *)

Lemma pages_same_views pins L m m' :
  st pins L m' -> m_pages m' = m_pages m -> data_shrinks m m' -> same_views m m'.
Proof.
  intros Hst Hps [Hh Hb] q. unfold view, shown, location_of, backing_location. rewrite Hps.
  destruct (m_pages m !! q) as [p|] eqn:Hq; cbn; [|done]. destruct (p_backing p) as [i|] eqn:Hi; cbn; [|done].
  rewrite <- Hps in Hq. destruct (st_page_live _ _ _ _ _ _ Hst Hq Hi) as [bk' Hbk'].
  destruct (Hb _ _ Hbk') as (bk & Hbk & Hd). rewrite Hbk, Hbk'. cbn. rewrite Hd. split; [|done].
  unfold contents, host_page. by rewrite Hd, Hh.
Qed.

Lemma same_memory_views m m' : same_memory m m' -> same_views m m'.
Proof.
  intros (Hps & Hb & Hh) q. unfold view, shown, location_of, backing_location, contents, host_page.
  by rewrite Hps, Hb, Hh.
Qed.

Lemma same_views_sym m m' : same_views m m' -> same_views m' m.
Proof. intros H q. by destruct (H q) as [-> ->]. Qed.

Section record.
Context {platform : Platform}.

Lemma begin_run m t m' :
  gem_memory_transaction_begin m = Ok (t, m') ->
  (t = None \/ t = Some []) /\ m_pages m' = m_pages m /\ data_shrinks m m' /\ m_backings m' = m_backings m.
Proof.
  intros H. unfold gem_memory_transaction_begin in H. apply bind_run in H as (p & m1 & H1 & H).
  injection H as <- <-. split; [destruct p; auto|].
  pose proof (keeps_alloc (fun m => (m_pages m, m_backings m, m_host m)) ltac:(done) _ _ _ H1) as Hk.
  injection Hk as -> Hb Hh. split; [done|]. split; [|done]. split; [done|]. rewrite Hb. eauto.
Qed.

Lemma end_run t m u m' :
  gem_memory_transaction_end t m = Ok (u, m') -> m_pages m' = m_pages m /\ data_shrinks m m'.
Proof.
  destruct t as [t|]; intros H; [|injection H as _ <-; split; [done|apply data_shrinks_refl]].
  unfold gem_memory_transaction_end in H.
  split.
  - eapply (keeps_for_each m_pages); [|exact H]. intros d. by apply keeps_drop.
  - eapply shrinks_for_each; [|exact H]. intros d. apply shrinks_drop.
Qed.

(** The first snapshot of a transaction. *)
Lemma snapshot_run a m e t' out m' :
  gem_memory_transaction_snapshot_page (Some []) a true true m = Ok ((e, t', out), m') ->
  (exists t, t' = Some t) /\ m_pages m' = m_pages m /\ data_shrinks m m' /\
  (e = GEM_MEMORY_OK -> exists p data, m_pages m !! a = Some p /\ view m a = Some data /\
     out = Some (data, p_protection p)).
Proof.
  intros H. unfold gem_memory_transaction_snapshot_page in H. cbn [negb orb] in H.
  destruct (has_bits a 4095); [injection H as <- <- _ <-; split_and!; [eauto|done|apply data_shrinks_refl|done]|].
  apply bind_run in H as ([[e1 t1] o1] & m1 & H & Hret). injection Hret as <- <- <- <-.
  split; [eauto|]. unfold snapshot_locked in H. apply bind_get_run in H.
  assert (forall e t o m', (mret (e, t, o) : M _) m = Ok ((e1, t1, o1), m') -> e <> GEM_MEMORY_OK ->
    m_pages m' = m_pages m /\ data_shrinks m m' /\
    (e1 = GEM_MEMORY_OK -> exists p data, m_pages m !! a = Some p /\ view m a = Some data /\
       o1 = Some (data, p_protection p))) as Hstop.
  { intros e2 t2 o2 m2 [= <- _ _ <-] Hne. split_and!; [done|apply data_shrinks_refl|done]. }
  unfold at_ in H. destruct (m_pages m !! a) as [p|] eqn:Hp; [|by eapply Hstop].
  destruct (p_backing p) as [i|] eqn:Hi; [|by eapply Hstop].
  apply bind_run in H as ([b bk] & m2 & (Hb & -> & Hbk)%deref_backing_cases & H). injection Hb as ->.
  destruct (match b_data bk with Owned _ => _ | Host _ => _ end); [by eapply Hstop|].
  cbn [find_dependency] in H. change (find_dependency [] a) with (@None (nat * transaction_page)) in H. cbv iota in H.
  rewrite bool_decide_eq_false_2 in H by (by vm_compute).
  apply bind_run in H as (u & m3 & Hr & H). injection H as <- _ <- <-.
  split; [by apply (keeps_add_ref m_pages) in Hr|]. split; [by apply shrinks_add_ref in Hr|].
  intros _. exists p, (contents m bk). split_and!; [done| |done].
  unfold view. by rewrite (proj2 (shown_Some m a bk)) by eauto.
Qed.

(** ** Triples *)

Lemma stack_record_supported_triple pins L a :
  (forall b, 0 <= pins b) -> triple (st pins L) (stack_record_supported a) (fun _ => st pins L).
Proof.
  intros Hp. unfold stack_record_supported. eapply triple_bind; [apply begin_owned|].
  intros [t|]; [|apply triple_ret; intros m; by apply st_pins_nil].
  eapply triple_bind; [by apply snapshot_owned|]. intros [[e t'] o]. cbn [fst snd].
  eapply triple_bind; [by apply end_owned|]. intros u. apply triple_ret. intros m; by apply st_pins_nil.
Qed.

Lemma replace_stack_record_triple pins L a v :
  (forall b, 0 <= pins b) ->
  triple (st pins L) (replace_stack_record a v) (fun x m => st pins L m /\ is_u64 (default 0 x.2)).
Proof.
  intros Hp. unfold replace_stack_record. destruct (_ <? _); [by apply triple_ret|].
  eapply triple_bind; [apply begin_owned|].
  intros [t|]; [|apply triple_ret; intros m Hm; split; [by apply st_pins_nil|done]].
  eapply triple_bind; [by apply snapshot_owned|]. intros [[e t'] o]. cbn [fst snd].
  destruct (snapshot_of o) as [page protection].
  eapply (triple_bind _ _ _ (fun r m => st (pins_add pins (handle_refs r.1.2)) L m /\ is_u64 (default 0 r.2))).
  - destruct (bool_decide _); [|by apply triple_ret].
    eapply triple_bind; [by apply commit_owned|]. intros [[[e2 f] t2] k]. apply triple_ret. intros m Hm.
    split; [done|apply wrap64_u64].
  - intros [[e2 t2] o2]. cbn [fst snd]. apply triple_pre. intros m0 [Hm0 Ho].
    eapply triple_bind; [eapply triple_conseq; [by apply end_owned|by intros m ->|intros ? ? H; exact H]|].
    intros u. apply triple_ret. intros m Hm. split; [by apply st_pins_nil|done].
Qed.

Lemma view_location m q : is_Some (view m q) -> is_Some (location_of m q).
Proof.
  unfold view, shown, location_of, backing_location. destruct (m_pages m !! q) as [p|]; cbn; [|by intros []].
  destruct (p_backing p) as [i|]; cbn; [|by intros []]. destruct (m_backings m !! i); cbn; [eauto|by intros []].
Qed.

(** ** What replacing a record does *)

(** The page of [a] with the eight bytes at [a] set to [v]. *)
Definition with_record (page : list Z) (a v : Z) : list Z := memcpy page (a - a .&~ 4095) (le_bytes 8 v).
Definition record_value (page : list Z) (a : Z) : Z := wrap64 (le_value (bytes_at page (a - a .&~ 4095) 8)).

(** [m'] is [m] but for the record at [a], in every page that shows its store. *)
Definition record_set (m m' : mem) (a v : Z) (page : list Z) : Prop :=
  forall q, location_of m' q = location_of m q /\
    view m' q = if decide (location_of m q = location_of m (a .&~ 4095))
                then Some (with_record page a v) else view m q.

Lemma length_with_record page a v :
  0 <= a - a .&~ 4095 <= 4088 -> length page = PAGE -> length (with_record page a v) = PAGE.
Proof.
  intros Ha Hl. unfold with_record. rewrite length_memcpy; [done|]. rewrite length_le_bytes, Hl.
  change PAGE with (Z.to_nat 4096). lia.
Qed.

Lemma slot_bounds a : 0 <= a -> 0 <= a - a .&~ 4095 < 4096.
Proof. intros Ha. rewrite ldiff_4095. pose proof (Z.div_mod a 4096). pose proof (Z.mod_pos_bound a 4096). lia. Qed.

Lemma replace_stack_record_run pins L a v m e old m' :
  (forall b, 0 <= pins b) -> st pins L m -> 0 <= a ->
  replace_stack_record a v m = Ok ((e, old), m') ->
  st pins L m' /\
  if decide (e = GEM_MEMORY_OK) then
    exists p page, m_pages m !! (a .&~ 4095) = Some p /\ p_protection p = GEM_PAGE_READWRITE /\
      view m (a .&~ 4095) = Some page /\ a - a .&~ 4095 <= 4088 /\
      old = Some (record_value page a) /\ record_set m m' a v page
  else same_views m m'.
Proof.
  intros Hp Hst Ha H.
  pose proof (triple_run _ _ _ _ _ _ (replace_stack_record_triple pins L a v Hp) Hst H) as [Hst' _]. split; [done|].
  unfold replace_stack_record in H. change (GEM_GUEST_PAGE_SIZE - 8) with 4088 in H.
  pose proof (slot_bounds a Ha) as Hslot. set (q := a .&~ 4095) in *. set (off := a - q) in *.
  destruct (Z.ltb_spec 4088 off) as [|Hoff]; [injection H as <- _ <-; by rewrite decide_False|].
  apply bind_run in H as (t0 & m1 & Hb & H). pose proof (triple_run _ _ _ _ _ _ (begin_owned pins L) Hst Hb) as Hst1.
  apply begin_run in Hb as (Ht & Hps1 & Hs1 & Hb1).
  destruct Ht as [-> | ->]; [injection H as <- _ <-; rewrite decide_False by done; eapply pages_same_views; done|].
  apply bind_run in H as ([[e1 t1] out] & m2 & Hsn & H).
  pose proof (triple_run _ _ _ _ _ _ (snapshot_owned pins L (Some []) q Hp) Hst1 Hsn) as Hst2.
  apply snapshot_run in Hsn as ((t & ->) & Hps2 & Hs2 & Hout). cbn [fst snd] in Hst2.
  assert (same_views m m2) as Hv2.
  { eapply pages_same_views; [exact Hst2|congruence|by eapply data_shrinks_trans]. }
  destruct (snapshot_of out) as [page protection] eqn:Eo.
  apply bind_run in H as ([[e2 t2] o2] & m3 & H & Hend).
  apply bind_run in Hend as (u & m4 & Hend & Hret). injection Hret as -> -> ->.
  pose proof (end_run _ _ _ _ Hend) as [Hps4 Hs4].
  assert (forall pins' L', st pins' L' m3 -> same_views m3 m') as Hv4.
  { intros pins' L' Hst3. eapply pages_same_views; [|exact Hps4|exact Hs4]. exact Hst'. }
  case_bool_decide as He.
  2:{ injection H as <- <- <- <-. rewrite decide_False by done. eapply same_views_trans; [exact Hv2|by eapply Hv4]. }
  assert (e1 = GEM_MEMORY_OK /\ protection = GEM_PAGE_READWRITE) as [-> ->].
  { case_bool_decide; cbn [andb] in He; [|done]. destruct (Z.eqb_spec protection GEM_PAGE_READWRITE); done. }
  cbn in He. clear He. destruct (Hout eq_refl) as (p & data & Hpq & Hview & ->). cbn in Eo. injection Eo as -> Hprot.
  apply bind_run in H as ([[[e3 f] t3] k] & m5 & Hc & Hret). injection Hret as <- <- <- ->.
  pose proof (triple_run _ _ _ _ _ _ (commit_owned pins L _ _ _ Hp) Hst2 Hc) as Hst3. specialize (Hv4 _ _ Hst3).
  assert (view m2 q = Some page) as Hview2.
  { rewrite <- Hview. apply (pages_same_views _ _ _ _ Hst2 Hps2 Hs2). }
  assert (view m q = Some page) as Hview0 by by rewrite <- (proj1 (Hv2 q)).
  rewrite Hps1 in Hpq. assert (m_pages m2 !! q = Some p) as Hpq2 by by rewrite Hps2, Hps1.
  change (memcpy page off (le_bytes 8 v)) with (with_record page a v) in Hc.
  set (w := PageWrite q (Some (with_record page a v))) in *.
  assert (copied m2 q = false) as Hcop by (unfold copied; rewrite Hpq2, Hprot; by destruct (shown m2 q)).
  destruct (decide (e3 = GEM_MEMORY_OK)) as [->|He3].
  - exists p, page. split_and!; try done. unfold gem_memory_transaction_commit_pages in Hc. cbn [negb] in Hc.
    destruct (_ || _); [done|]. apply bind_run in Hc as ([[[e4 f4] t4] k4] & m6 & Hc & Hret).
    injection Hret as -> _ _ _ ->. cbn [take default] in Hc.
    assert (whole_pages [w]) as Hwhole.
    { constructor; [|constructor]. cbn. apply length_with_record; [fold q off; lia|].
      by eapply view_length; [apply (st_data _ _ _ Hst)|]. }
    assert (separate m2 [w]) as Hsep by (intros w1 w2 ->%list_elem_of_singleton ->%list_elem_of_singleton; done).
    assert (forall w', w' ∈ [w] -> copied m2 (w_address w') = false) as Hnc.
    { by intros w' ->%list_elem_of_singleton. }
    pose proof (commit_correct pins L Hp _ _ _ _ _ _ _ Hst2 Hwhole Hsep Hc) as [Hin Hout2].
    pose proof (commit_locations pins L Hp _ _ _ _ _ _ _ Hst2 Hwhole Hnc Hc) as Hloc.
    intros q'. destruct (Hv4 q') as [-> ->]. rewrite Hloc, <- (proj2 (Hv2 q')), <- (proj2 (Hv2 (a .&~ 4095))). fold q.
    split; [done|]. rewrite <- (proj1 (Hv2 q')).
    destruct (decide (q' = q)) as [->|Hq'].
    { rewrite decide_True by done. apply (Hin w). set_solver. }
    specialize (Hout2 q' ltac:(set_solver)) as [Hsame Hother].
    destruct (decide (location_of m2 q' = location_of m2 q)) as [Hl|Hl].
    + apply (Hsame w); [set_solver|done| |done]. rewrite Hl. apply view_location. eauto.
    + apply Hother. intros w' ->%list_elem_of_singleton _ E. done.
  - pose proof (commit_failed pins L t (Some [w]) 1 m2 e3 f) as Hf.
    destruct t3 as [t3|].
    2:{ exfalso. unfold gem_memory_transaction_commit_pages in Hc. destruct (_ || _); [done|].
        apply bind_run in Hc as ([[[e4 f4] t4] k4] & m6 & Hc & Hret). done. }
    destruct (Hf t3 k _ Hp Hst2 Hc He3) as [(_ & Hsame & _)|(-> & (w' & p' & g & Hw' & Hp' & Hg & _) & _)].
    + eapply same_views_trans; [exact Hv2|]. eapply same_views_trans; [by apply same_memory_views|done].
    + exfalso. apply list_elem_of_singleton in Hw' as ->. cbn [w_address w] in Hp'. rewrite Hpq2 in Hp'.
      injection Hp' as <-. by rewrite Hprot in Hg.
Qed.

(** ** Putting the old value back *)

Lemma location_view m q q' : is_Some (location_of m q) -> location_of m q' = location_of m q -> view m q' = view m q.
Proof.
  unfold location_of, backing_location, view, shown.
  destruct (m_pages m !! q) as [p|]; cbn; [|by intros []]. destruct (p_backing p) as [i|]; cbn; [|by intros []].
  destruct (m_backings m !! i) as [bk|] eqn:Hbk; cbn; [|by intros []]. intros _.
  destruct (m_pages m !! q') as [p'|]; cbn; [|done]. destruct (p_backing p') as [i'|]; cbn; [|done].
  destruct (m_backings m !! i') as [bk'|] eqn:Hbk'; cbn; [|done]. unfold contents.
  destruct (b_data bk) eqn:E, (b_data bk') eqn:E'; intros [= H]; try done.
  - subst i'. rewrite Hbk in Hbk'. injection Hbk' as <-. rewrite E in E'. by injection E' as <-.
  - by subst.
Qed.

Lemma with_record_restores page a v :
  0 <= a - a .&~ 4095 <= 4088 -> length page = PAGE -> Forall is_u8 page ->
  with_record (with_record page a v) a (record_value page a) = page.
Proof.
  unfold with_record, record_value. set (off := a - a .&~ 4095). intros Hoff Hlen Hu.
  assert (length (bytes_at page off 8) = 8%nat) as Hl8.
  { unfold bytes_at. rewrite length_take, length_drop, Hlen. change PAGE with (Z.to_nat 4096). lia. }
  assert (Forall is_u8 (bytes_at page off 8)) as Hu8 by (unfold bytes_at; by apply Forall_take, Forall_drop).
  unfold wrap64. rewrite Z.mod_small.
  2:{ pose proof (le_value_bound _ Hu8) as Hb. rewrite Hl8 in Hb. exact Hb. }
  assert (le_bytes 8 (le_value (bytes_at page off 8)) = bytes_at page off 8) as ->.
  { rewrite <- (le_bytes_value (bytes_at page off 8)) at 2 by done. by rewrite Hl8. }
  change PAGE with (Z.to_nat 4096) in Hlen.
  apply list_eq. intros i. rewrite lookup_memcpy; [|lia|].
  2:{ rewrite Hl8, length_memcpy; rewrite ?length_le_bytes; lia. }
  rewrite Hl8, lookup_memcpy, length_le_bytes; [|lia|rewrite length_le_bytes; lia].
  case_decide as Hi; [|done]. rewrite lookup_bytes_at by lia. f_equal. lia.
Qed.

Lemma record_value_with_record page a v :
  0 <= a - a .&~ 4095 <= 4088 -> length page = PAGE -> record_value (with_record page a v) a = wrap64 v.
Proof.
  unfold with_record, record_value. set (off := a - a .&~ 4095). intros Hoff Hlen. change PAGE with (Z.to_nat 4096) in Hlen.
  assert (bytes_at (memcpy page off (le_bytes 8 v)) off 8 = le_bytes 8 v) as ->.
  { apply list_eq. intros i. destruct (decide (i < Z.to_nat 8)%nat) as [Hi|Hi].
    - rewrite lookup_bytes_at by done. rewrite lookup_memcpy; rewrite ?length_le_bytes; [|lia..].
      rewrite decide_True by lia. f_equal. lia.
    - rewrite !lookup_ge_None_2; [done|rewrite length_le_bytes; lia|].
      pose proof (length_bytes_at (memcpy page off (le_bytes 8 v)) off 8). lia. }
  rewrite le_value_bytes. unfold wrap64. by rewrite Z.mod_mod.
Qed.

(** C23: a record that is written into a stack slot and taken out again leaves
    no trace.  [replace_stack_record] puts [v] at [a]; when putting back what
    it gave succeeds too, the second call gives the 64 bits that were written,
    and every page of the address space - the page of [a], any other page that
    shows the same store, and all the rest - has the bytes and the store it had
    before the first.  No reference and no lock is kept by either call. *)
Theorem stack_record_roundtrip pins L a v m old m1 out m2 :
  (forall b, 0 <= pins b) -> st pins L m -> 0 <= a ->
  (forall page, view m (a .&~ 4095) = Some page -> Forall is_u8 page) ->
  replace_stack_record a v m = Ok ((GEM_MEMORY_OK, Some old), m1) ->
  replace_stack_record a old m1 = Ok ((GEM_MEMORY_OK, out), m2) ->
  out = Some (wrap64 v) /\ same_views m m2 /\ st pins L m2.
Proof.
  intros Hp Hst Ha Hu H1 H2.
  apply (replace_stack_record_run pins L) in H1 as [Hst1 H1]; [|done..]. rewrite decide_True in H1 by done.
  apply (replace_stack_record_run pins L) in H2 as [Hst2 H2]; [|done..]. rewrite decide_True in H2 by done.
  destruct H1 as (p1 & page & _ & _ & Hv & Hoff & [= ->] & Hs1).
  destruct H2 as (p2 & page2 & _ & _ & Hv2 & _ & -> & Hs2). specialize (Hu _ Hv).
  pose proof (slot_bounds a Ha) as Hslot. set (q := a .&~ 4095) in *.
  assert (length page = PAGE) as Hlen by (eapply view_length; [apply (st_data _ _ _ Hst)|done]).
  assert (page2 = with_record page a v) as ->.
  { destruct (Hs1 q) as [_ E]. rewrite decide_True in E by done. rewrite Hv2 in E. by injection E. }
  split_and!; [|intros q'|done].
  - by rewrite record_value_with_record by (done || lia).
  - destruct (Hs2 q') as [Hl' Hw']. destruct (Hs1 q') as [Hl Hw]. fold q in Hw, Hw'. rewrite Hw', Hw, Hl', Hl, (proj1 (Hs1 q)).
    split; [|done]. case_decide as Hd; [|done]. rewrite with_record_restores by (done || lia).
    rewrite <- Hv. symmetry. apply location_view; [|done]. apply view_location. eauto.
Qed.
End record.

(** ** A concrete run *)

(** The third page of the world of the commits, which another shows too. *)
Definition record_slot : Z := 0x100001ff8.

Lemma stack_record_roundtrip_witness :
  exists old m1 m2,
    replace_stack_record (platform := littered 0) record_slot (2 ^ 64 - 2) (wd_memory commit_world) =
      Ok ((GEM_MEMORY_OK, Some old), m1) /\
    view m1 0x300000000 <> view (wd_memory commit_world) 0x300000000 /\
    replace_stack_record (platform := littered 0) record_slot old m1 = Ok ((GEM_MEMORY_OK, Some (2 ^ 64 - 2)), m2) /\
    view m2 0x300000000 = view (wd_memory commit_world) 0x300000000.
Proof.
  assert (exists old m1 out m2,
    replace_stack_record (platform := littered 0) record_slot (2 ^ 64 - 2) (wd_memory commit_world) =
      Ok ((GEM_MEMORY_OK, Some old), m1) /\
    view m1 0x300000000 <> view (wd_memory commit_world) 0x300000000 /\
    replace_stack_record (platform := littered 0) record_slot old m1 = Ok ((GEM_MEMORY_OK, out), m2))
    as (old & m1 & out & m2 & E1 & Hne & E2).
  { eexists _, _, _, _. split; [vm_compute; reflexivity|]. split; [apply (bool_decide_unpack _); vm_compute; exact I|].
    vm_compute. reflexivity. }
  assert (inv (pins_add no_pins (dep_refs commit_transaction)) (wd_memory commit_world)) as (L & Hst & _).
  { apply (single_owner commit_world); [|vm_compute; reflexivity].
    apply history_inv; [apply (bool_decide_unpack _); vm_compute; exact I|vm_compute; reflexivity..]. }
  destruct (stack_record_roundtrip (platform := littered 0) (pins_add no_pins (dep_refs commit_transaction)) L record_slot (2 ^ 64 - 2)
    (wd_memory commit_world) old m1 out m2) as (-> & Hv & _).
  - apply pins_add_nonneg. exact no_pins_nonneg.
  - exact Hst.
  - apply (bool_decide_unpack _). vm_compute. exact I.
  - intros page Hpage. assert (from_option (fun l => forallb (fun b => (0 <=? b) && (b <? 256)) l) false
      (view (wd_memory commit_world) (record_slot .&~ 4095)) = true) as Hb by (vm_compute; reflexivity).
    rewrite Hpage in Hb. cbn in Hb. rewrite forallb_forall in Hb. apply Forall_forall.
    intros b Hin%list_elem_of_In. specialize (Hb b Hin). unfold is_u8. lia.
  - exact E1.
  - exact E2.
  - exists old, m1, m2. split; [exact E1|]. split; [exact Hne|]. split; [exact E2|]. apply (Hv 0x300000000).
Defined.
