(* ===== verification/HybridLogic.v ===== *)
(** HybridLogic: the invariant of the coordinator (Hybrid) and what each of its
    steps does to it.  The live frames form a stack ([coordinated]) that only
    pushes, pops, callbacks and their returns change; [ready] holds before every
    round of the run, [halted] when it returns. *)
From S2P Require Import Prelude Context Conversion MemoryModel Memory MemoryLogic MemoryInv MemoryTotal.
From S2P Require Import Transaction TransactionInv Pe Target TargetProperties Control Dynarmic Blink.
From S2P Require Import X64Engine X64EngineProperties Arm64ecEngine Arm64ecEngineLogic Hybrid HybridRecord.

(** ** Single fields of a context *)

Lemma xreg_u64 c i : context_wf c -> is_u64 (xreg c i).
Proof.
  intros (_ & _ & _ & Hx & _). unfold xreg. rewrite list_lookup_total_alt.
  destruct (c_x c !! i) as [v|] eqn:E; [|done]. cbn. rewrite Forall_forall in Hx. apply Hx, list_elem_of_lookup. eauto.
Qed.

Ltac context_wf_tac :=
  unfold context_wf; cbn [c_layout_version c_context_size c_x c_sp c_pc c_nzcv c_fpcr c_fpsr c_reserved0 c_v
    c_x64_rflags c_x64_mxcsr c_x64_fcw c_x64_fsw c_x87 c_teb c_original_x64_sp c_transition_cookie c_isa
    c_stop_reason with_sp with_pc with_original_x64_sp with_transition_cookie with_isa with_reg with_x];
  intros; destruct_and!; split_and!; done.

Lemma with_sp_wf c v : is_u64 v -> context_wf c -> context_wf (with_sp c v).
Proof. context_wf_tac. Qed.
Lemma with_pc_wf c v : is_u64 v -> context_wf c -> context_wf (with_pc c v).
Proof. context_wf_tac. Qed.
Lemma with_original_x64_sp_wf c v : is_u64 v -> context_wf c -> context_wf (with_original_x64_sp c v).
Proof. context_wf_tac. Qed.
Lemma with_transition_cookie_wf c v : is_u64 v -> context_wf c -> context_wf (with_transition_cookie c v).
Proof. context_wf_tac. Qed.
Lemma with_isa_wf c v : is_u32 v -> context_wf c -> context_wf (with_isa c v).
Proof. context_wf_tac. Qed.
Lemma with_reg_wf i v c : is_u64 v -> context_wf c -> context_wf (with_reg i v c).
Proof.
  intros Hv (? & ? & Hl & Hx & ?). unfold with_reg, with_x, context_wf.
  cbn [c_layout_version c_context_size c_x c_sp c_pc c_nzcv c_fpcr c_fpsr c_reserved0 c_v
    c_x64_rflags c_x64_mxcsr c_x64_fcw c_x64_fsw c_x87 c_teb c_original_x64_sp c_transition_cookie c_isa c_stop_reason].
  split; [done|]. split; [done|]. split; [by rewrite length_insert|]. split; [|done].
  by apply Forall_insert.
Qed.

Lemma isa_u32 i : i = GEM_ISA_ARM64EC \/ i = GEM_ISA_X64 -> is_u32 i.
Proof. by intros [-> | ->]. Qed.

Lemma teb_u64 c : context_wf c -> is_u64 (c_teb c).
Proof. unfold context_wf. intros. by destruct_and!. Qed.
Lemma sp_u64 c : context_wf c -> is_u64 (c_sp c).
Proof. unfold context_wf. intros. by destruct_and!. Qed.
Lemma pc_u64 c : context_wf c -> is_u64 (c_pc c).
Proof. unfold context_wf. intros. by destruct_and!. Qed.
Lemma original_u64 c : context_wf c -> is_u64 (c_original_x64_sp c).
Proof. unfold context_wf. intros. by destruct_and!. Qed.

#[export] Hint Resolve with_sp_wf with_pc_wf with_original_x64_sp_wf with_transition_cookie_wf with_isa_wf
  with_reg_wf with_stop_reason_wf xreg_u64 teb_u64 sp_u64 pc_u64 original_u64 : gem.
#[export] Hint Extern 1 (is_u32 GEM_ISA_ARM64EC) => (by apply isa_u32; auto) : gem.
#[export] Hint Extern 1 (is_u32 GEM_ISA_X64) => (by apply isa_u32; auto) : gem.

#[export] Hint Extern 1 (is_u64 0) => done : gem.

Lemma xreg_with_reg i v c : (i < length (c_x c))%nat -> xreg (with_reg i v c) i = v.
Proof. intros Hi. unfold xreg, with_reg, with_x. cbn. by rewrite list_lookup_total_insert_eq. Qed.

Lemma xreg_stop_reason c reason i : xreg (with_stop_reason c reason) i = xreg c i.
Proof. done. Qed.

(** ** The stack of frames *)

Definition frame_typed (f : hybrid_generic_frame) : Prop :=
  is_u64 (gf_cookie f) /\ is_u64 (gf_arm_resume_pc f) /\ is_u64 (gf_arm_resume_sp f) /\
  is_u64 (gf_prior_original_x64_sp f) /\ is_u64 (gf_record_address f) /\ is_u64 (gf_old_record f) /\
  is_u64 (gf_callback_resume_pc f) /\ is_u64 (gf_callback_pre_call_sp f) /\
  is_u64 (gf_callback_arm_entry_sp f) /\ is_u64 (gf_callback_prior_original_x64_sp f).

Definition is_arm_stage (s : hybrid_generic_stage) : Prop :=
  s = HYBRID_GENERIC_ARM \/ s = HYBRID_GENERIC_ARM_CALLBACK.

(** A frame that can lie on the code that runs in [below]. *)
Definition frame_ok (below : hybrid_generic_stage) (f : hybrid_generic_frame) : Prop :=
  frame_typed f /\ gf_cookie f <> 0 /\ gf_record_written f = true /\ is_arm_stage below /\
  gf_resume_arm_callback f = bool_decide (below = HYBRID_GENERIC_ARM_CALLBACK).

(** The stages a stack of frames, innermost first, can be in: the outermost code
    is ARM64EC; a frame is pushed for a call into x64, and its callback runs
    while it is marked. *)
Inductive coordinated : hybrid_generic_stage -> list hybrid_generic_frame -> Prop :=
  | coordinated_arm : coordinated HYBRID_GENERIC_ARM []
  | coordinated_x64 below f fs :
      coordinated below fs -> frame_ok below f -> gf_callback f = HYBRID_GENERIC_CALLBACK_NONE ->
      coordinated HYBRID_GENERIC_X64 (f :: fs)
  | coordinated_callback below f fs :
      coordinated below fs -> frame_ok below f -> gf_callback f <> HYBRID_GENERIC_CALLBACK_NONE ->
      coordinated HYBRID_GENERIC_ARM_CALLBACK (f :: fs).

(** The live frames of the coordinator, innermost first. *)
Definition stack (g : hybrid_generic_state) : list hybrid_generic_frame :=
  reverse (take (Z.to_nat (gs_depth g)) (gs_frames g)).
Definition shape (g : hybrid_generic_state) : Prop := length (gs_frames g) = 2%nat /\ 0 <= gs_depth g <= 2.

Lemma shape_cases g :
  shape g -> exists a b, gs_frames g = [a; b] /\
    ((gs_depth g = 0 /\ stack g = []) \/ (gs_depth g = 1 /\ stack g = [a]) \/ (gs_depth g = 2 /\ stack g = [b; a])).
Proof.
  intros [Hl Hd]. unfold stack. destruct (gs_frames g) as [|a [|b [|]]]; try done. exists a, b. split; [done|].
  assert (gs_depth g = 0 \/ gs_depth g = 1 \/ gs_depth g = 2) as [E|[E|E]] by lia; rewrite E; auto.
Qed.

Ltac by_shape g :=
  let a := fresh "a" in let b := fresh "b" in let Hf := fresh "Hf" in let Hd := fresh "Hd" in
  let Hs := fresh "Hs" in
  destruct (shape_cases g) as (a & b & Hf & [[Hd Hs]|[[Hd Hs]|[Hd Hs]]]); [assumption| | |];
  cbn [gs_frames gs_depth set_gs_depth set_gs_frames set_frame] in *; rewrite ?Hf, ?Hd in *; cbn.

Lemma current_frame_stack g : shape g -> generic_current_frame g = head (stack g).
Proof. intros H. unfold generic_current_frame. by_shape g; by rewrite Hs. Qed.

Lemma stack_empty g : shape g -> stack g = [] <-> gs_depth g = 0.
Proof. intros H. by_shape g; rewrite Hs; split; intros; (done || lia). Qed.

Lemma length_stack g : shape g -> Z.of_nat (length (stack g)) = gs_depth g.
Proof. intros H. by_shape g; by rewrite Hs. Qed.

(** The frame on top replaced. *)
Lemma stack_set_top g f f0 fs :
  shape g -> stack g = f0 :: fs -> stack (set_frame g (Z.to_nat (gs_depth g - 1)) f) = f :: fs /\
    shape (set_frame g (Z.to_nat (gs_depth g - 1)) f).
Proof.
  intros H E. unfold stack at 1, shape. by_shape g; rewrite Hs in E; try done; injection E as -> <-;
    (split; [done|split; [done|lia]]).
Qed.

(** A frame pushed, in two steps, and popped. *)
Lemma stack_push g f :
  shape g -> gs_depth g < 2 ->
  stack (set_gs_depth (set_frame g (Z.to_nat (gs_depth g)) f) (gs_depth g + 1)) = f :: stack g /\
  shape (set_gs_depth (set_frame g (Z.to_nat (gs_depth g)) f) (gs_depth g + 1)).
Proof.
  intros H Hlt. unfold stack at 1, shape. by_shape g; try lia; rewrite Hs; (split; [done|split; [done|lia]]).
Qed.

Lemma stack_pop g f f0 fs :
  shape g -> stack g = f0 :: fs ->
  stack (set_gs_depth (set_frame g (Z.to_nat (gs_depth g - 1)) f) (gs_depth g - 1)) = fs /\
  shape (set_gs_depth (set_frame g (Z.to_nat (gs_depth g - 1)) f) (gs_depth g - 1)).
Proof.
  intros H E. unfold stack at 1, shape. by_shape g; rewrite Hs in E; try done; injection E as -> <-;
    (split; [done|split; [done|lia]]).
Qed.

Lemma frames_top g f fs :
  shape g -> stack g = f :: fs -> gs_frames g !! Z.to_nat (gs_depth g - 1) = Some f.
Proof. intros H E. by_shape g; rewrite Hs in E; try done; by injection E as -> <-. Qed.

Lemma shape_set_frame g i f : shape g -> shape (set_frame g i f).
Proof. intros [H1 H2]. split; [|done]. unfold set_frame. cbn. by rewrite length_insert. Qed.

(** ** The invariant of the coordinator *)

Definition no_pending (g : hybrid_generic_state) : Prop :=
  gs_pending_dispatch g = false /\ gs_pending_callback_return g = false /\ gs_pending_native_return g = false.

Record live_ok (g : hybrid_generic_state) : Prop := LiveOk {
  lo_shape : shape g;
  lo_stack : coordinated (gs_stage g) (stack g);
  lo_pending : no_pending g;
  lo_active : gs_active g = true }.

(** The instruction set and the cookie of the code that runs. *)
Definition isa_of (s : hybrid_generic_stage) : Z :=
  if bool_decide (s = HYBRID_GENERIC_X64) then GEM_ISA_X64 else GEM_ISA_ARM64EC.
Definition cookie_of (g : hybrid_generic_state) : Z := from_option gf_cookie 0 (head (stack g)).

Definition context_fits (g : hybrid_generic_state) (c : gem_thread_context) : Prop :=
  c_layout_version c = 1 /\ c_context_size c = 720 /\ c_teb c <> 0 /\ xreg c 18 = c_teb c /\
  c_isa c = isa_of (gs_stage g) /\ c_transition_cookie c = cookie_of g.

Lemma coordinated_not_idle s fs : coordinated s fs -> s <> HYBRID_GENERIC_IDLE.
Proof. by destruct 1. Qed.

Lemma context_valid_fits h c :
  live_ok (hy_generic h) -> generic_context_valid h (Some c) = true <-> context_fits (hy_generic h) c.
Proof.
  intros [Hs Hco _ _]. unfold generic_context_valid, context_fits, isa_of, cookie_of.
  pose proof (coordinated_not_idle _ _ Hco) as Hi. rewrite !andb_true_iff, gem_context_is_valid_spec, !Z.eqb_eq, Z.leb_le.
  assert ((if gs_depth (hy_generic h) =? 0 then 0
    else from_option gf_cookie 0 (gs_frames (hy_generic h) !! Z.to_nat (gs_depth (hy_generic h) - 1))) =
    from_option gf_cookie 0 (head (stack (hy_generic h)))) as ->.
  { destruct (stack (hy_generic h)) as [|f fs] eqn:E.
    - apply stack_empty in E; [|done]. by rewrite E.
    - rewrite (frames_top _ f fs Hs E). destruct (Z.eqb_spec (gs_depth (hy_generic h)) 0) as [E0|]; [|done].
      apply stack_empty in E0; [|done]. congruence. }
  destruct Hs as [_ Hd].
  destruct (gs_stage (hy_generic h)); try done; rewrite Z.eqb_eq; cbn; naive_solver lia.
Qed.

(** What no step of a run changes in the object. *)
Definition core_kept (h h' : hybrid_core) : Prop :=
  hy_map h' = hy_map h /\ hy_config h' = hy_config h /\ hy_frame h' = hy_frame h /\
  hy_nested_frame h' = hy_nested_frame h /\ hy_stage h' = hy_stage h /\
  hy_return_mode h' = hy_return_mode h /\ hy_expected_x64_target h' = hy_expected_x64_target h /\
  hy_expected_nested_x64_target h' = hy_expected_nested_x64_target h.

#[export] Instance core_kept_po : PreOrder core_kept.
Proof.
  split; [by intros h|].
  intros a b c (? & ? & ? & ? & ? & ? & ? & ?) (? & ? & ? & ? & ? & ? & ? & ?). split_and!; etrans; eassumption.
Qed.

(** Pushes less pops less the depth, which every step keeps. *)
Definition balance (h : hybrid_core) : Z :=
  wrap64 (rs_frame_pushes (hy_stats h) - rs_frame_pops (hy_stats h) - gs_depth (hy_generic h)).
(** The deepest stack of the run. *)
Definition deep_enough (h : hybrid_core) : Prop :=
  gs_depth (hy_generic h) <= rs_maximum_frame_depth (hy_stats h) <= 2.

Lemma balance_push p q d : wrap64 (wrap64 (p + 1) - q - (d + 1)) = wrap64 (p - q - d).
Proof. unfold wrap64. Z.to_euclidean_division_equations. lia. Qed.
Lemma balance_pop p q d : wrap64 (p - wrap64 (q + 1) - (d - 1)) = wrap64 (p - q - d).
Proof. unfold wrap64. Z.to_euclidean_division_equations. lia. Qed.

(** What a step on the frames does to the object, whether it succeeds or not. *)
Definition stepped (h h' : hybrid_core) : Prop :=
  core_kept h h' /\ is_u64 (hy_generation h') /\ shape (hy_generic h') /\
  hy_last_stop h' = hy_last_stop h /\ hy_running h' = hy_running h /\
  hy_async_stop_requested h' = hy_async_stop_requested h /\
  rs_arm64ec_instructions_retired (hy_stats h') = rs_arm64ec_instructions_retired (hy_stats h) /\
  rs_x64_instructions_retired (hy_stats h') = rs_x64_instructions_retired (hy_stats h).

(** What it does when it succeeds. *)
Definition moved (h h' : hybrid_core) (c' : gem_thread_context) : Prop :=
  live_ok (hy_generic h') /\ context_fits (hy_generic h') c' /\ balance h' = balance h /\
  (deep_enough h -> deep_enough h') /\
  gs_native_return_pc (hy_generic h') = gs_native_return_pc (hy_generic h).

Lemma stepped_refl h : is_u64 (hy_generation h) -> shape (hy_generic h) -> stepped h h.
Proof. intros. by split_and!. Qed.

Lemma next_generation_u64 n : is_u64 n -> is_u64 (next_generation n) /\ next_generation n <> 0.
Proof. unfold is_u64, next_generation, UINT64_MAX. intros Hn. case_match eqn:E; bool_to_Z; lia. Qed.

(** What the object relies on to resolve an address. *)
Definition core_meta (h : hybrid_core) : Prop :=
  (forall map, hy_map h = Some map -> map_ok map) /\
  (forall f, yc_target_resolver (hy_config h) = Some f -> resolver_ok f).

Lemma core_meta_kept h h' : core_kept h h' -> core_meta h -> core_meta h'.
Proof. intros (Hm & Hc & _) [H1 H2]. split; [rewrite Hm|rewrite Hc]; done. Qed.

Section logic.
Context {platform : Platform}.
Variable pins : bid -> Z.
Variable L : gmap Z (Z * Z).
Hypothesis Hp : forall b, 0 <= pins b.

Lemma hybrid_resolve_triple h va P :
  core_meta h -> is_u64 va ->
  triple P (hybrid_resolve h va) (fun x m => P m /\ forall t, x = inr t -> is_u64 (resolved_va t)).
Proof.
  intros [Hm Hf] Hva. unfold hybrid_resolve.
  assert (forall r, match r with Ok t => is_u64 (resolved_va t) | Err _ => True | Fault => False end ->
    triple P (target_call r) (fun x m => P m /\ forall t, x = inr t -> is_u64 (resolved_va t))) as Hcall.
  { intros r Hr. eapply triple_conseq; [apply (target_call_triple r P)|done|].
    - by intros E; rewrite E in Hr.
    - intros x m [HP Hx]. split; [done|]. intros t Ht. by rewrite (Hx t Ht) in Hr. }
  apply Hcall. destruct (yc_target_resolver (hy_config h)) as [f|]; [by apply (Hf f)|].
  destruct (hy_map h) as [map|]; [|done]. by apply (resolve_is_u64 map (Hm map eq_refl)).
Qed.

Lemma resolve_to_triple h va k P :
  core_meta h -> is_u64 va ->
  triple P (resolve_to h va k) (fun x m => P m /\ forall t, x = Some t -> is_u64 (resolved_va t)).
Proof.
  intros Hm Hva. unfold resolve_to. eapply triple_bind; [by apply hybrid_resolve_triple|].
  intros [e|t]; apply triple_ret; intros m [HP Ht]; (split; [done|]); [done|].
  case_match; [|done]. intros t' [= <-]. by apply Ht.
Qed.

Lemma read_value_triple n va :
  is_u64 va -> triple (st pins L) (read_value n va) (fun x m => st pins L m /\ is_u64 x.2).
Proof.
  intros [Hva _]. unfold read_value. eapply triple_bind.
  - apply in_memory_triple. apply access_memory_locked_triple; (done || lia).
  - intros [error bytes]. apply triple_ret. intros m Hm. split; [done|apply wrap64_u64].
Qed.

Lemma descriptor_resolve_triple h va :
  core_meta h -> is_u64 va ->
  triple (st pins L) (hybrid_descriptor_resolve h va)
    (fun x m => st pins L m /\ forall t, x = inr t -> is_u64 (resolved_va t)).
Proof.
  intros Hm Hva. unfold hybrid_descriptor_resolve. destruct (Z.ltb_spec (UINT64_MAX - 4) va); [by apply triple_ret|].
  eapply triple_bind; [by apply read_value_triple|]. intros [error encoded]. cbn [snd].
  apply triple_pre. intros m0 [Hm0 Hu]. destruct (negb _); [by apply triple_ret; intros m ->|].
  destruct (Z.ltb_spec (UINT64_MAX - encoded .&~ 3) (va + 4)); [by apply triple_ret; intros m ->|].
  eapply triple_conseq; [apply (hybrid_resolve_triple h (va + 4 + encoded .&~ 3) (st pins L) Hm)|by intros m ->|done].
  unfold is_u64, UINT64_MAX in *. assert (0 <= encoded .&~ 3) by (apply Z.ldiff_nonneg; lia). lia.
Qed.

(** The conclusion of a step that returns a [bool]. *)
Definition step_result (h : hybrid_core) (goal : hybrid_generic_stage -> Z -> Prop)
    (x : bool * hybrid_core * gem_thread_context) (m : mem) : Prop :=
  let '(b, h', c') := x in
  st pins L m /\ stepped h h' /\ context_wf c' /\
  (b = true -> moved h h' c' /\ goal (gs_stage (hy_generic h')) (gs_depth (hy_generic h'))).

Lemma step_refused h goal c m :
  st pins L m -> is_u64 (hy_generation h) -> shape (hy_generic h) -> context_wf c -> step_result h goal (false, h, c) m.
Proof. intros. split; [done|]. split; [by apply stepped_refl|]. by split. Qed.

(** *** Entering x64 code *)

(** The stack with the frame of a running callback marked. *)
Lemma push_parent g :
  live_ok g -> is_arm_stage (gs_stage g) ->
  (bool_decide (gs_stage g = HYBRID_GENERIC_ARM_CALLBACK) &&
   from_option (fun f => bool_decide (gf_callback f = HYBRID_GENERIC_CALLBACK_NONE)) true (generic_current_frame g)) = false ->
  let g1 :=
    match generic_current_frame g with
    | Some f => if bool_decide (gs_stage g = HYBRID_GENERIC_ARM_CALLBACK)
                then set_frame g (Z.to_nat (gs_depth g - 1)) (set_gf_callback_nested f true) else g
    | None => g
    end in
  shape g1 /\ coordinated (gs_stage g) (stack g1) /\ (g1 = g \/ exists i f, g1 = set_frame g i f).
Proof.
  intros [Hs Hco _ _] Harm _. rewrite current_frame_stack by done.
  destruct (stack g) as [|f fs] eqn:E; cbn [head].
  { split; [done|]. split; [by rewrite E|by left]. }
  case_bool_decide as Hcb; [|split; [done|]; split; [by rewrite E|by left]].
  destruct (stack_set_top g (set_gf_callback_nested f true) f fs Hs E) as [Hst Hsh].
  split; [done|]. split; [|right; eauto]. rewrite Hst, Hcb in *. inversion Hco as [| |below ? ? Hbelow Hf Hn]; subst.
  by apply (coordinated_callback below).
Qed.

Lemma generic_push_triple h c target pc sp :
  core_meta h -> is_u64 (hy_generation h) -> live_ok (hy_generic h) -> is_arm_stage (gs_stage (hy_generic h)) ->
  context_wf c -> context_fits (hy_generic h) c -> is_u64 target -> is_u64 pc ->
  triple (st pins L) (generic_push_x64 h c target pc sp)
    (step_result h (fun stage _ => stage = HYBRID_GENERIC_X64)).
Proof.
  intros Hmeta Hgen Hlive Harm Hwf (Hlay & Hsize & Hteb & Hx & _ & _) Htarget Hpc. pose proof (lo_shape _ Hlive) as Hs.
  unfold generic_push_x64.
  assert (forall m, st pins L m -> step_result h (fun stage _ => stage = HYBRID_GENERIC_X64) (false, h, c) m) as Hno.
  { intros m Hm. by apply step_refused. }
  destruct (Z.leb_spec 2 (gs_depth (hy_generic h))) as [|Hd]; [by apply triple_ret|].
  destruct (Z.ltb_spec (c_sp c) 8) as [|Hsp]; [by apply triple_ret|]. cbn [orb].
  destruct (Z.eqb_spec (c_sp c) sp) as [<-|]; [|by apply triple_ret]. cbn [negb].
  eapply triple_bind; [by apply resolve_to_triple|]. intros [t|]; [|by apply triple_ret; intros m [Hm _]; apply Hno].
  apply triple_pre. intros m0 [Hm0 Ht]. specialize (Ht _ eq_refl).
  eapply triple_bind; [eapply triple_conseq; [by apply stack_record_supported_triple|by intros m ->|intros ? ? H; exact H]|].
  intros supported. destruct supported; cbn [negb orb]; [|by apply triple_ret].
  destruct (_ && _) eqn:Eparent; [by apply triple_ret|].
  pose proof (push_parent _ Hlive Harm Eparent) as Hg1. cbv zeta in Hg1.
  set (g1 := match generic_current_frame (hy_generic h) with Some _ => _ | None => _ end) in *. clearbody g1.
  destruct Hg1 as (Hs1 & Hco1 & Hg1).
  assert (gs_depth g1 = gs_depth (hy_generic h) /\ no_pending g1 /\ gs_active g1 = true /\
    gs_native_return_pc g1 = gs_native_return_pc (hy_generic h)) as (Hd1 & Hn1 & Ha1 & Hr1).
  { destruct Hlive. destruct Hg1 as [-> |(i & f & ->)]; done. }
  destruct (next_generation_u64 _ Hgen) as [Hcu Hc0].
  cbn [gf_record_address hy_generation set_hy_generation hy_config set_hy_generic].
  eapply triple_bind; [by apply replace_stack_record_triple|]. intros [error old]. cbn [snd].
  apply triple_pre. intros m1 [Hm1 Hold]. pose proof (sp_u64 _ Hwf) as Hspu.
  assert (is_u64 (c_sp c - 8)) as Haddr by (unfold is_u64 in *; lia).
  destruct (bool_decide (error = GEM_MEMORY_OK)); cbn [negb].
  2:{ apply triple_ret. intros m ->. split; [done|]. split; [|by split].
      split_and!; try done. by apply shape_set_frame. }
  apply triple_ret. intros m ->. set (f := GenericFrame _ _ _ _ _ _ _ _ _ _ _ _ _ _).
  rewrite <- Hd1. rewrite <- Hd1 in Hd. destruct (stack_push g1 f Hs1 Hd) as [Hst Hsh].
  set (g2 := set_gs_stage (set_gs_depth (set_frame g1 _ f) _) _).
  assert (stack g2 = f :: stack g1) as Hst2 by exact Hst.
  assert (shape g2) as Hsh2 by exact Hsh.
  assert (coordinated (gs_stage g2) (stack g2)) as Hco2.
  { rewrite Hst2. apply (coordinated_x64 (gs_stage (hy_generic h))); try done.
    split; [|by split_and!]. unfold frame_typed, f; cbn. split_and!; auto with gem; done. }
  split; [done|].
  assert (forall s, rs_arm64ec_instructions_retired s = rs_arm64ec_instructions_retired (hy_stats h) ->
    rs_x64_instructions_retired s = rs_x64_instructions_retired (hy_stats h) ->
    stepped h (set_hy_stats (set_hy_generic (set_hy_generation h (next_generation (hy_generation h))) g2) s)) as Hstep.
  { intros s H1 H2. by split_and!. }
  split; [|split].
  - unfold count_stat. destruct (_ <? _); by apply Hstep.
  - unfold f; cbn [gf_record_address gf_cookie]. auto 10 with gem.
  - intros _. split; [|by destruct (_ <? _)].
    assert (forall s, rs_frame_pushes s = wrap64 (rs_frame_pushes (hy_stats h) + 1) ->
      rs_frame_pops s = rs_frame_pops (hy_stats h) ->
      rs_maximum_frame_depth s = Z.max (rs_maximum_frame_depth (hy_stats h)) (gs_depth g1 + 1) ->
      moved h (set_hy_stats (set_hy_generic (set_hy_generation h (next_generation (hy_generation h))) g2) s)
        (with_stop_reason (with_transition_cookie (with_isa (with_pc (with_sp c (c_sp c - 8)) (resolved_va t)) GEM_ISA_X64)
          (next_generation (hy_generation h))) GEM_STOP_NONE)) as Hmove.
    { intros s H1 H2 H3. split; [by split|]. split; [|split; [|split]].
      - split_and!; try done. change (gf_cookie f = from_option gf_cookie 0 (head (stack g2))). by rewrite Hst2.
      - unfold balance. cbn [hy_generic set_hy_stats set_hy_generic hy_stats g2 gs_depth set_gs_stage set_gs_depth].
        by rewrite H1, H2, balance_push, Hd1.
      - unfold deep_enough. cbn [hy_generic set_hy_stats set_hy_generic hy_stats g2 gs_depth set_gs_stage set_gs_depth].
        rewrite H3. lia.
      - done. }
    unfold count_stat. case_match eqn:Hlt; bool_to_Z; apply Hmove; try done; cbn in *; lia.
Qed.

(** *** Leaving x64 code *)

(** The frame taken off, from x64 code or from a callback that replaced it. *)
Lemma pop_parts g :
  live_ok g -> gs_depth g <> 0 ->
  exists below f fs, stack g = f :: fs /\ coordinated below fs /\ frame_ok below f.
Proof.
  intros [Hs Hco _ _] Hd. inversion Hco as [E|below f fs Hb Hf _ E|below f fs Hb Hf _ E]; [|eauto 10..].
  exfalso. by apply Hd, stack_empty.
Qed.

Lemma generic_pop_triple h c :
  is_u64 (hy_generation h) -> live_ok (hy_generic h) -> context_wf c ->
  c_layout_version c = 1 -> c_context_size c = 720 -> c_teb c <> 0 ->
  triple (st pins L) (generic_pop_x64 h c)
    (step_result h (fun stage d => is_arm_stage stage /\ d = gs_depth (hy_generic h) - 1)).
Proof.
  intros Hgen Hlive Hwf Hlay Hsize Hteb. pose proof (lo_shape _ Hlive) as Hs. unfold generic_pop_x64.
  set (goal := fun stage d => is_arm_stage stage /\ d = gs_depth (hy_generic h) - 1).
  assert (forall m, st pins L m -> step_result h goal (false, h, c) m) as Hno.
  { intros m Hm. by apply step_refused. }
  destruct (Z.eqb_spec (gs_depth (hy_generic h)) 0) as [|Hd]; [by apply triple_ret|].
  destruct (pop_parts _ Hlive Hd) as (below & f & fs & E & Hco & (Htyped & Hc0 & Hwr & Harm & Hres)).
  rewrite (frames_top _ f fs Hs E).
  destruct (_ || _); [by apply triple_ret|].
  eapply triple_bind; [by apply replace_stack_record_triple|]. intros [error old]. cbn [snd].
  apply triple_pre. intros m0 [Hm0 _].
  destruct (bool_decide (error = GEM_MEMORY_OK)); cbn [negb]; [|apply triple_ret; intros m ->; by apply Hno].
  destruct (stack_pop (hy_generic h) generic_frame_zero f fs Hs E) as [Hst Hsh].
  set (g1 := set_gs_depth (set_frame _ _ _) _) in *. rewrite (current_frame_stack g1) by done. rewrite Hst, Hres.
  assert ((if bool_decide (below = HYBRID_GENERIC_ARM_CALLBACK) then HYBRID_GENERIC_ARM_CALLBACK else HYBRID_GENERIC_ARM)
    = below) as ->. { by destruct Harm as [-> | ->]. }
  assert (length (c_x c) = 31%nat) as Hlen by apply Hwf.
  assert (is_u64 (from_option gf_cookie 0 (head fs))) as Hck.
  { inversion Hco as [|? f' ? ? Hf'|? f' ? ? Hf']; subst; [done|apply Hf'|apply Hf']. }
  destruct Htyped as (? & ? & ? & ? & ? & ? & ?).
  apply triple_ret. intros m ->. split; [done|]. split; [by split_and!|]. split; [auto 20 with gem|].
  intros _. split; [|done]. split; [|split; [|split; [|split]]].
  - destruct Hlive. split; [done| |done|done].
    change (coordinated below (stack g1)). by rewrite Hst.
  - split_and!; try done.
    + rewrite xreg_stop_reason, xreg_with_reg; [done|]. cbn. rewrite length_insert. lia.
    + by destruct Harm as [-> | ->].
    + change (from_option gf_cookie 0 (head fs) = from_option gf_cookie 0 (head (stack g1))). by rewrite Hst.
  - apply balance_pop.
  - unfold deep_enough. cbn. lia.
  - done.
Qed.

(** *** Callbacks *)

Lemma callback_transfer_triple h f c pre_step_sp was_call :
  frame_typed f -> is_u64 (yc_x64_return_sentinel (hy_config h)) -> context_wf c -> is_u64 pre_step_sp ->
  triple (st pins L) (callback_transfer h f c pre_step_sp was_call) (fun x m => st pins L m /\
    forall callback pc c' sp, x = Some (callback, pc, c', sp) ->
      callback <> HYBRID_GENERIC_CALLBACK_NONE /\ is_u64 pc /\ is_u64 sp /\ (c' = c \/ c' = with_sp c sp)).
Proof.
  intros Hf Hsent Hwf Hpre. pose proof (sp_u64 _ Hwf) as Hsp. unfold callback_transfer. destruct was_call.
  - destruct (_ || _); [by apply triple_ret|]. eapply triple_bind; [by apply read_value_triple|].
    intros [error v]. apply triple_ret. intros m [Hm Hv]. split; [done|]. intros callback pc c' sp.
    destruct (negb _); [done|]. intros [= <- <- <- <-]. by split_and!; auto.
  - destruct (negb _); [by apply triple_ret|]. eapply triple_bind; [by apply read_value_triple|].
    intros [error v]. apply triple_ret. intros m [Hm Hv]. split; [done|]. intros callback pc c' sp.
    destruct (_ || _); [done|]. intros [= <- <- <- <-]. split_and!; auto with gem.
Qed.

(** The frame on top with a callback that begins or has ended. *)
Lemma set_callback_ok below f callback pc pre entry prior :
  frame_ok below f -> is_u64 pc -> is_u64 pre -> is_u64 entry -> is_u64 prior ->
  frame_ok below (set_callback f callback pc pre entry prior).
Proof. intros ((? & ? & ? & ? & ? & ? & ?) & ? & ? & ? & ?) ? ? ? ?. by split_and!. Qed.

Lemma generic_enter_triple h c target pre_step_sp was_call :
  core_meta h -> is_u64 (yc_x64_return_sentinel (hy_config h)) ->
  is_u64 (hy_generation h) -> live_ok (hy_generic h) -> gs_stage (hy_generic h) = HYBRID_GENERIC_X64 ->
  context_wf c -> context_fits (hy_generic h) c -> is_u64 (resolved_va target) -> is_u64 pre_step_sp ->
  triple (st pins L) (generic_enter_callback h c target pre_step_sp was_call)
    (step_result h (fun stage _ => stage = HYBRID_GENERIC_ARM_CALLBACK)).
Proof.
  intros Hmeta Hsent Hgen Hlive Hx64 Hwf (Hlay & Hsize & Hteb & _ & _ & Hck) Htarget Hpre.
  pose proof (lo_shape _ Hlive) as Hs. unfold generic_enter_callback. rewrite current_frame_stack by done.
  set (goal := fun stage (_ : Z) => stage = HYBRID_GENERIC_ARM_CALLBACK).
  assert (forall m, st pins L m -> step_result h goal (false, h, c) m) as Hno.
  { intros m Hm. by apply step_refused. }
  pose proof (lo_stack _ Hlive) as Hco. rewrite Hx64 in Hco.
  inversion Hco as [|below f fs Hb Hf Hnone E0 E|]; clear E0; subst. cbn [head].
  destruct (Z.ltb_spec (resolved_va target) 4) as [|H4]; [rewrite orb_true_r; by apply triple_ret|].
  rewrite orb_false_r. destruct (negb _); [by apply triple_ret|].
  eapply triple_bind; [apply callback_transfer_triple; try done; apply Hf|].
  intros [[[[callback pc] c1] sp]|]; [|apply triple_ret; intros m [Hm _]; by apply Hno].
  apply triple_pre. intros m0 [Hm0 Htr]. destruct (Htr _ _ _ _ eq_refl) as (Hcb & Hpc & Hsp & Hc1). clear Htr.
  assert (context_wf c1 /\ c_layout_version c1 = 1 /\ c_context_size c1 = 720 /\ c_teb c1 <> 0 /\
    c_transition_cookie c1 = cookie_of (hy_generic h)) as (Hwf1 & Hlay1 & Hsize1 & Hteb1 & Hck1).
  { destruct Hc1 as [-> | ->]; split_and!; auto with gem. }
  symmetry in E.
  eapply triple_bind.
  { eapply triple_conseq; [apply (descriptor_resolve_triple h (resolved_va target - 4) Hmeta)|by intros m ->|
      intros ? ? Hq; exact Hq]. unfold is_u64 in *. lia. }
  assert (forall r s, step_result h goal (false, set_hy_generic h (set_frame (hy_generic h) r s), c1) m0) as Hundone.
  { intros r s. split; [done|]. split; [|by split]. split_and!; try done. by apply shape_set_frame. }
  intros [e|thunk]; [apply triple_ret; intros m [Hm _]; split; [done|apply Hundone]|].
  apply triple_pre. intros m1 [Hm1 Hthunk]. specialize (Hthunk _ eq_refl).
  case_bool_decide; [apply triple_ret; intros m ->; split; [done|apply Hundone]|].
  assert (is_u64 (sp .&~ 15)) as Hentry.
  { change 15 with (Z.ones 4). rewrite Z.ldiff_ones_r, Z.shiftl_mul_pow2, Z.shiftr_div_pow2 by lia.
    unfold is_u64 in *. Z.to_euclidean_division_equations. lia. }
  pose proof (original_u64 _ Hwf1) as Hprior.
  set (f' := set_callback f callback pc sp (sp .&~ 15) (c_original_x64_sp c1)).
  assert (frame_ok below f') as Hf' by by apply set_callback_ok.
  destruct (stack_set_top (hy_generic h) f' f fs Hs E) as [Hst Hsh].
  assert (length (c_x c1) = 31%nat) as Hlen by apply Hwf1.
  apply triple_ret. intros m ->. split; [done|]. split; [by split_and!|]. split; [auto 20 with gem|].
  intros _. split; [|done]. split; [|split; [|split; [|split]]].
  - destruct Hlive. split; [done| |done|done].
    change (coordinated HYBRID_GENERIC_ARM_CALLBACK (stack (set_frame (hy_generic h) (Z.to_nat (gs_depth (hy_generic h) - 1)) f'))).
    rewrite Hst. by apply (coordinated_callback below).
  - split_and!; try done.
    + rewrite xreg_stop_reason, xreg_with_reg; [done|]. cbn. rewrite !length_insert. lia.
    + transitivity (cookie_of (hy_generic h)); [done|]. unfold cookie_of.
      change (from_option gf_cookie 0 (head (stack (hy_generic h))) =
        from_option gf_cookie 0 (head (stack (set_frame (hy_generic h) (Z.to_nat (gs_depth (hy_generic h) - 1)) f')))).
      by rewrite Hst, E.
  - done.
  - done.
  - done.
Qed.

(** Before a callback returns its flag is still up: [g] is what clearing it gives. *)
Lemma generic_finish_triple h c :
  let g := set_gs_pending_callback_return (hy_generic h) false in
  is_u64 (hy_generation h) -> live_ok g -> is_arm_stage (gs_stage g) -> context_wf c -> context_fits g c ->
  triple (st pins L) (generic_finish_callback h c)
    (step_result h (fun stage d => stage = HYBRID_GENERIC_X64 /\ d = gs_depth g \/
                                   is_arm_stage stage /\ d = gs_depth g - 1)).
Proof.
  intros g Hgen Hlive Harm Hwf (Hlay & Hsize & Hteb & Hx & _ & Hck).
  pose proof (lo_shape _ Hlive) as Hs. assert (shape (hy_generic h)) as Hs0 by exact Hs.
  set (goal := fun stage d => _ \/ _). unfold generic_finish_callback. fold g.
  assert (forall m, st pins L m -> step_result h goal (false, h, c) m) as Hno.
  { intros m Hm. by apply step_refused. }
  rewrite current_frame_stack by done. change (stack (hy_generic h)) with (stack g).
  pose proof (lo_stack _ Hlive) as Hco. destruct (stack g) as [|f fs] eqn:E; [by apply triple_ret|]. cbn [head].
  destruct Harm as [Harm|Harm]; rewrite Harm in Hco; [by inversion Hco|].
  inversion Hco as [| |below ? ? Hb Hf Hn E1 E2]; subst f0 fs0.
  destruct (gf_callback f) eqn:Hcb; [done| |].
  - set (f' := set_callback f _ _ _ _ _). assert (frame_ok below f') as Hf' by by apply set_callback_ok.
    destruct (stack_set_top g f' f fs Hs E) as [Hst Hsh].
    destruct Hf as ((? & ? & ? & ? & ? & ? & ? & ? & ? & ?) & ?).
    apply triple_ret. intros m Hm. split; [done|]. split; [by split_and!|]. split; [auto 20 with gem|].
    intros _. split; [|by left]. split; [|split; [split_and!; try done|by split_and!]].
    + destruct Hlive. split; [done| |done|done].
      change (coordinated HYBRID_GENERIC_X64 (stack (set_frame g (Z.to_nat (gs_depth g - 1)) f'))).
      rewrite Hst. by apply (coordinated_x64 below).
    + change (gf_cookie f = from_option gf_cookie 0 (head (stack (set_frame g (Z.to_nat (gs_depth g - 1)) f')))).
      by rewrite Hst.
  - assert (is_u64 (wrap64 (gf_record_address f + 8))) as Hsp by apply wrap64_u64.
    eapply triple_conseq; [apply (generic_pop_triple (set_hy_generic h g)); auto with gem|done|].
    intros [[b h'] c'] m (Hm & Hst & Hwf' & Hmv). split; [done|]. split; [exact Hst|]. split; [done|].
    intros Hbt. destruct (Hmv Hbt) as [Hmv' Hg]. split; [exact Hmv'|by right].
Qed.

(** Where the native caller waits: the sentinel, or the link register. *)
Definition native_caller (h : hybrid_core) (c : gem_thread_context) : Z :=
  if yc_boundary_delivery (hy_config h) =? GEM_ARM64EC_BOUNDARY_SVC_TRAP
  then yc_host_return_sentinel (hy_config h) else xreg c 30.

Lemma generic_begin_triple h c P :
  core_meta h -> context_wf c -> gem_context_is_valid (Some c) = true ->
  triple P (generic_begin h c) (fun '(b, h', c') m => P m /\ context_wf c' /\
    if b : bool then
      exists g, h' = set_hy_generic h g /\ live_ok g /\ context_fits g c' /\ gs_depth g = 0 /\
        gs_native_return_pc g = native_caller h c
    else h' = h /\ c' = c).
Proof.
  intros Hmeta Hwf (Hlay & Hsize & Hteb & Hx & _)%gem_context_is_valid_spec. unfold generic_begin.
  destruct (Z.eqb_spec (c_isa c) GEM_ISA_ARM64EC) as [Hisa|]; [|by apply triple_ret].
  destruct (Z.eqb_spec (c_transition_cookie c) 0) as [Hck|]; [|by apply triple_ret]. cbn [negb orb].
  destruct (_ || _); [by apply triple_ret|].
  eapply triple_bind; [apply hybrid_resolve_triple; auto with gem|].
  intros [e|t]; [by apply triple_ret; intros m [Hm _]|].
  case_bool_decide; [by apply triple_ret; intros m [Hm _]|].
  apply triple_ret. intros m [Hm Ht]. specialize (Ht _ eq_refl). split; [done|]. split; [auto with gem|].
  eexists. split; [done|]. split; [|by split_and!]. split; [done|apply coordinated_arm|done|done].
Qed.

(** ** The broker *)

(** The object during a run of the ARM64EC engine that started with [h]: the
    broker counts what it sees and notes why it failed, no more. *)
Definition counts_kept (s s' : gem_hybrid_roundtrip_stats) : Prop :=
  rs_arm64ec_instructions_retired s' = rs_arm64ec_instructions_retired s /\
  rs_x64_instructions_retired s' = rs_x64_instructions_retired s /\
  rs_frame_pushes s' = rs_frame_pushes s /\ rs_frame_pops s' = rs_frame_pops s /\
  rs_maximum_frame_depth s' = rs_maximum_frame_depth s.
Definition brokered (h o : hybrid_core) : Prop :=
  exists s n, o = set_hy_stats (set_hy_generic h (set_gs_boundary_failure (hy_generic h) n)) s /\
    counts_kept (hy_stats h) s.

(** What the broker leaves for the coordinator when it stops the engine. *)
Inductive pending_of (g : hybrid_generic_state) : hybrid_generic_state -> Prop :=
  | pending_nothing : pending_of g g
  | pending_dispatch target pc sp : is_u64 target -> is_u64 pc ->
      pending_of g (set_pending_dispatch g true target pc sp)
  | pending_callback : pending_of g (set_gs_pending_callback_return g true)
  | pending_native : gs_stage g = HYBRID_GENERIC_ARM -> pending_of g (set_gs_pending_native_return g true).
Definition stopped_by_broker (h o : hybrid_core) : Prop :=
  exists o1 g, brokered h o1 /\ pending_of (hy_generic o1) g /\
    exists s, o = set_hy_stats (set_hy_generic o1 g) s /\ counts_kept (hy_stats o1) s.

Lemma brokered_refl h : brokered h h.
Proof. exists (hy_stats h), (gs_boundary_failure (hy_generic h)). by destruct h as [? ? ? ? ? ? ? ? ? ? ? ? [] ?]. Qed.

Lemma brokered_live h o : live_ok (hy_generic h) -> brokered h o -> live_ok (hy_generic o).
Proof. intros [] (s & n & -> & _). by split. Qed.

Lemma checker_triple h c :
  core_meta h -> context_wf c ->
  triple (st pins L) (hybrid_checker_dispatch h c)
    (fun x m => st pins L m /\ context_wf x.2 /\ arm_frame c x.2).
Proof.
  intros Hmeta Hwf. unfold hybrid_checker_dispatch. destruct (_ || _); [by apply triple_ret|].
  eapply triple_bind; [apply hybrid_resolve_triple; auto with gem|].
  intros [e|t]; [by apply triple_ret; intros m [Hm _]|].
  case_bool_decide; [|by apply triple_ret; intros m [Hm _]].
  apply triple_pre. intros m0 [Hm0 _].
  eapply triple_bind; [apply hybrid_resolve_triple; auto with gem|].
  intros [e|x]; [by apply triple_ret; intros m [-> _]|].
  case_bool_decide; apply triple_ret; intros m [-> Hx]; [by split_and!|].
  specialize (Hx _ eq_refl). split; [done|]. split; [cbn; auto with gem|done].
Qed.

(** The broker of a live coordinator that waits for ARM64EC code. *)
Lemma hybrid_broker_ok h :
  core_meta h -> live_ok (hy_generic h) ->
  broker_ok pins L (brokered h) (stopped_by_broker h) hybrid_boundary.
Proof.
  intros Hmeta Hlive pc c o (s & n & -> & Hs) Hwf Hv Hpc. unfold hybrid_boundary.
  set (h1 := set_hy_stats _ s).
  assert (live_ok (hy_generic h1)) as Hlive1 by (apply (brokered_live h); [done|by exists s, n]).
  assert (core_meta h1) as Hmeta1 by done.
  rewrite (lo_active _ Hlive1). unfold generic_boundary. rewrite (lo_active _ Hlive1). cbn [negb].
  set (h2 := set_hy_generic h1 _).
  assert (forall g, hy_generic h2 = g -> brokered h h2) as Hbr by (intros; by exists s, 0).
  specialize (Hbr _ eq_refl).
  assert (live_ok (hy_generic h2)) as Hlive2 by by apply (brokered_live h).
  assert (core_meta h2) as Hmeta2 by done.
  assert (forall n, brokered h (set_hy_generic h2 (set_gs_boundary_failure (hy_generic h2) n))) as Hfail.
  { intros k. by exists s, k. }
  set (post := fun '(action, boundary_kind, d, o') m => st pins L m /\ _).
  assert (forall action k o m, (action =? GEM_ARM64EC_BOUNDARY_STOP) = false -> brokered h o -> st pins L m ->
    post (action, k, c, o) m) as Hno.
  { intros action k o m Ha Ho Hm. unfold post. rewrite Ha. split; [done|]. by split. }
  assert (forall k o m, 1 <= k <= 4 -> stopped_by_broker h o -> st pins L m ->
    post (GEM_ARM64EC_BOUNDARY_STOP, k, c, o) m) as Hstop.
  { intros. split; [done|]. split; [done|]. by split. }
  destruct (_ || _); [apply triple_ret; intros m Hm; by apply Hno|].
  destruct (pc =? yc_checker_helper _).
  { eapply triple_bind; [by apply checker_triple|]. intros [t d]. cbn [snd]. destruct t as [e|t];
      apply triple_ret; intros m (Hm & Hwfd & Hf); (split; [done|]).
    - by split_and!.
    - split; [exact Hf|]. split; [auto with gem|]. change (brokered h (count_checker h2)). exists (set_rs_checker_boundaries s (wrap64 (rs_checker_boundaries s + 1))), 0.
      split; [done|]. by destruct Hs as (? & ? & ? & ? & ?). }
  destruct (_ || _).
  { destruct (_ || _); [apply triple_ret; intros m Hm; by apply Hno|].
    eapply triple_bind; [apply resolve_to_triple; auto with gem|].
    intros [t|]; apply triple_ret; intros m [Hm Ht]; [|by apply Hno]. apply Hstop; [done| |done].
    exists h2. eexists. split; [done|].
    split; [apply (pending_dispatch _ (resolved_va t) (xreg c 30) (c_sp c)); auto with gem|]. by eexists. }
  destruct (pc =? yc_dispatch_ret_helper _).
  { destruct (negb (_ =? 0)); apply triple_ret; intros m Hm; [by apply Hno|]. apply Hstop; [done| |done].
    exists h2. eexists. split; [done|]. split; [apply pending_callback|]. by eexists. }
  destruct (_ && _) eqn:Hnative; apply triple_ret; intros m Hm; [|by apply Hno].
  apply andb_true_iff in Hnative as [[_ Harm%bool_decide_eq_true]%andb_true_iff _]. apply Hstop; [done| |done].
  exists h2. eexists. split; [done|]. split; [by apply pending_native|]. by exists (hy_stats h2).
Qed.

(** ** The run *)

Lemma restore_records_triple n frames :
  (n <= length frames)%nat -> triple (st pins L) (restore_records n frames) (fun _ => st pins L).
Proof.
  induction n as [|n IH]; intros Hn; cbn [restore_records]; [by apply triple_ret|].
  destruct (frames !! n) as [f|] eqn:E; [|apply lookup_ge_None in E; lia].
  eapply (triple_bind _ _ _ (fun _ => st pins L)).
  - destruct (gf_record_written f); [|by apply triple_ret].
    eapply triple_bind; [by apply replace_stack_record_triple|]. intros [e o].
    apply triple_ret. by intros m [Hm _].
  - intros b. eapply triple_bind; [apply IH; lia|]. intros b'. by apply triple_ret.
Qed.

Section run.
Context {dynarmic : Dynarmic} {blink : Blink}.

(** The engines as the object made them. *)
Definition arm_fits (h : hybrid_core) (arm : gem_arm64ec_runtime (S := hybrid_core)) : Prop :=
  arm64ec_wf arm /\ ar_boundary_broker arm = Some hybrid_boundary /\
  ac_max_transitions (ar_config arm) = 0 /\ ac_max_budget (ar_config arm) = yc_max_budget (hy_config h) /\
  is_svc_trap (ar_config arm) = (yc_boundary_delivery (hy_config h) =? GEM_ARM64EC_BOUNDARY_SVC_TRAP) /\
  ar_running arm = false.
Definition x64_fits (h : hybrid_core) (x64 : gem_x64_runtime) : Prop :=
  xr_transaction x64 = None /\ xr_running x64 = false /\
  xc_max_budget (xr_config x64) = yc_max_budget (hy_config h) /\
  xc_host_return_sentinel (xr_config x64) = yc_x64_return_sentinel (hy_config h).

Notation arm_retired h := (rs_arm64ec_instructions_retired (hy_stats h)).
Notation x64_retired h := (rs_x64_instructions_retired (hy_stats h)).

(** A run of [h0] with this [budget]; [has] says whether [stats] is non-NULL. *)
Variables (h0 : hybrid_core) (budget : Z) (has : bool).
Hypothesis Hmeta : core_meta h0.
Hypothesis Hsentinel : is_u64 (yc_x64_return_sentinel (hy_config h0)).
Hypothesis Hbudget : is_u64 budget.
Hypothesis Hmax : budget <= yc_max_budget (hy_config h0).

Record common (s : hybrid_state) (m : mem) : Prop := Common {
  co_memory : st pins L m;
  co_core : core_kept h0 (hs_core s);
  co_generation : is_u64 (hy_generation (hs_core s));
  co_shape : shape (hy_generic (hs_core s));
  co_context : context_wf (hs_context s);
  co_arm : arm_fits h0 (hs_arm s);
  co_x64 : x64_fits h0 (hs_x64 s);
  co_stats : bool_decide (is_Some (hs_stats s)) = has;
  co_retired : 0 <= arm_retired (hs_core s) /\ 0 <= x64_retired (hs_core s) /\
    arm_retired (hs_core s) + x64_retired (hs_core s) <= budget }.

(** The accounts of a run that goes on with [remaining]. *)
Definition accounts (remaining : Z) (h : hybrid_core) : Prop :=
  0 <= remaining /\ arm_retired h + x64_retired h + remaining = budget /\
  balance h = balance h0 /\ deep_enough h /\
  gs_native_return_pc (hy_generic h) = gs_native_return_pc (hy_generic h0).

Record ready (remaining : Z) (s : hybrid_state) (m : mem) : Prop := Ready {
  rd_common : common s m;
  rd_live : live_ok (hy_generic (hs_core s));
  rd_context : context_fits (hy_generic (hs_core s)) (hs_context s);
  rd_accounts : accounts remaining (hs_core s) }.

(** Between the stop of the ARM64EC engine by the broker and what follows. *)
Definition paused (remaining : Z) (g : hybrid_generic_state) (s : hybrid_state) (m : mem) : Prop :=
  common s m /\ live_ok g /\ is_arm_stage (gs_stage g) /\ context_fits g (hs_context s) /\
  pending_of g (hy_generic (hs_core s)) /\ accounts remaining (hs_core s).

(** The run has returned [reason]. *)
Record halted (reason : gem_stop_reason) (s : hybrid_state) (m : mem) : Prop := Halted {
  ha_common : common s m;
  ha_reason : yi_reason (hy_last_stop (hs_core s)) = reason;
  ha_stop : c_stop_reason (hs_context s) = stop_value reason;
  ha_running : hy_running (hs_core s) = false;
  ha_stats : hs_stats s = if has then Some (hy_stats (hs_core s)) else None;
  ha_depth : rs_final_frame_depth (hy_stats (hs_core s)) = gs_depth (hy_generic (hs_core s));
  ha_generic : hy_generic (hs_core s) = generic_state_zero \/ live_ok (hy_generic (hs_core s));
  ha_accounts : reason <> GEM_STOP_INVARIANT_VIOLATION ->
    balance (hs_core s) = balance h0 /\ deep_enough (hs_core s);
  ha_resume : reason <> GEM_STOP_INVARIANT_VIOLATION -> reason <> GEM_STOP_ARCH_TRANSITION ->
    live_ok (hy_generic (hs_core s)) /\ context_fits (hy_generic (hs_core s)) (hs_context s);
  ha_done : reason = GEM_STOP_ARCH_TRANSITION ->
    hy_generic (hs_core s) = generic_state_zero /\ c_pc (hs_context s) = gs_native_return_pc (hy_generic h0) /\
    c_isa (hs_context s) = GEM_ISA_ARM64EC /\ c_transition_cookie (hs_context s) = 0 }.

Variable live : Prop.
Implicit Types (s : hybrid_state) (m : mem).

(** Steps up to the next call or branch. *)
Ltac ksteps := repeat (first [apply kwp_bind|apply kwp_gets|apply kwp_modify|apply kwp_ret]; cbv beta).

(** What is left to show when a run returns. *)
Lemma kwp_return_halted A reason (Q : A -> hybrid_state -> mem -> Prop) s m :
  common s m -> yi_reason (hy_last_stop (hs_core s)) = reason ->
  (hy_generic (hs_core s) = generic_state_zero \/ live_ok (hy_generic (hs_core s))) ->
  (reason <> GEM_STOP_INVARIANT_VIOLATION -> balance (hs_core s) = balance h0 /\ deep_enough (hs_core s)) ->
  (reason <> GEM_STOP_INVARIANT_VIOLATION -> reason <> GEM_STOP_ARCH_TRANSITION ->
    live_ok (hy_generic (hs_core s)) /\ context_fits (hy_generic (hs_core s)) (hs_context s)) ->
  (reason = GEM_STOP_ARCH_TRANSITION ->
    hy_generic (hs_core s) = generic_state_zero /\ c_pc (hs_context s) = gs_native_return_pc (hy_generic h0) /\
    c_isa (hs_context s) = GEM_ISA_ARM64EC /\ c_transition_cookie (hs_context s) = 0) ->
  kwp live (generic_return (A := A) reason) Q halted s m.
Proof.
  intros [] Hr Hg Hacc Hres Hdone. unfold generic_return, generic_publish_stats, publish_stats. repeat kstep.
  split; try done.
  - split; try done; [by apply with_stop_reason_wf|]. cbn. by destruct (hs_stats s).
  - cbn. destruct (hs_stats s) as [x|]; cbn in *; by subst has.
Qed.

#[local] Opaque generic_return.

Lemma kwp_invariant A line (Q : A -> hybrid_state -> mem -> Prop) s m :
  common s m -> kwp live (generic_invariant_at (A := A) line) Q halted s m.
Proof.
  intros [Hm Hcore Hgen [Hl Hd] Hwf Harm Hx64 Hst Hret]. unfold generic_invariant_at. do 2 kstep.
  eapply kwp_lift; [apply restore_records_triple|exact Hm|].
  { rewrite Hl. lia. }
  intros b m' Hm'. ksteps.
  apply kwp_return_halted; try done; [|by left].
  split; try done. cbn [hs_context]. auto with gem.
Qed.
#[local] Opaque generic_invariant_at.

Lemma kwp_fail_when b line (Q : unit -> hybrid_state -> mem -> Prop) s m :
  common s m -> (b = false -> Q tt s m) -> kwp live (fail_when b line) Q halted s m.
Proof.
  intros Hc HQ. unfold fail_when. apply kwp_when; intros Hb; [by apply kwp_invariant|by apply HQ].
Qed.
#[local] Opaque fail_when.

(** A step on the frames. *)
Lemma kwp_call_bool f goal (Q : bool -> hybrid_state -> mem -> Prop) E s m :
  common s m -> triple (st pins L) (f (hs_core s) (hs_context s)) (step_result (hs_core s) goal) ->
  (forall b s' m', common s' m' -> stepped (hs_core s) (hs_core s') -> hs_x64 s' = hs_x64 s ->
    (b = true -> moved (hs_core s) (hs_core s') (hs_context s') /\
      goal (gs_stage (hy_generic (hs_core s'))) (gs_depth (hy_generic (hs_core s')))) -> Q b s' m') ->
  kwp live (call_bool f) Q E s m.
Proof.
  intros [Hm Hcore Hgen Hsh Hwf Harm Hx64 Hst Hret] Hf HQ. unfold call_bool. ksteps.
  eapply kwp_lift; [exact Hf|exact Hm|]. intros [[b h'] c'] m' (Hm' & Hstep & Hwf' & Hmove).
  ksteps. apply HQ; try done.
  destruct Hstep as (Hk & Hg & Hs & _ & _ & _ & Ha & Hx). split; try done; [by etrans|].
  cbn [hs_core]. by rewrite Ha, Hx.
Qed.
#[local] Opaque call_bool.

Lemma moved_ready remaining s s' m' :
  accounts remaining (hs_core s) -> common s' m' -> stepped (hs_core s) (hs_core s') ->
  moved (hs_core s) (hs_core s') (hs_context s') -> ready remaining s' m'.
Proof.
  intros (Hr & Hsum & Hbal & Hdeep & Hnat) Hc (_ & _ & _ & _ & _ & _ & Ha & Hx) (Hl & Hf & Hb & Hd & Hn).
  split; try done. split; [done|]. rewrite Ha, Hx, Hb, Hn. split_and!; auto.
Qed.

(** How much of the loop is left: rounds that retire nothing return to x64 code
    or take a frame off. *)
Definition measure (remaining : Z) (h : hybrid_core) : Z :=
  4 * remaining +
  (if bool_decide (gs_stage (hy_generic h) = HYBRID_GENERIC_X64) then 0 else 1 + gs_depth (hy_generic h)).

Lemma measure_bound remaining h :
  0 <= remaining -> shape (hy_generic h) -> 0 <= measure remaining h <= 4 * remaining + 3.
Proof. intros Hr [_ Hd]. unfold measure. case_bool_decide; lia. Qed.

Lemma pending_shape g g' : pending_of g g' -> shape g' <-> shape g.
Proof. by destruct 1. Qed.
Lemma pending_depth g g' : pending_of g g' -> gs_depth g' = gs_depth g /\ gs_stage g' = gs_stage g.
Proof. by destruct 1. Qed.

(** *** The stop of the ARM64EC engine at a boundary *)

Definition arm_next (remaining : Z) (g : hybrid_generic_state) (s : hybrid_state) (m : mem) : Prop :=
  ready remaining s m /\ measure remaining (hs_core s) < 4 * remaining + 1 + gs_depth g.

Lemma stage_measure remaining g h :
  gs_depth g >= 0 -> is_arm_stage (gs_stage g) ->
  (gs_stage (hy_generic h) = HYBRID_GENERIC_X64 \/
   is_arm_stage (gs_stage (hy_generic h)) /\ gs_depth (hy_generic h) = gs_depth g - 1) ->
  measure remaining h < 4 * remaining + 1 + gs_depth g.
Proof. intros Hd _ [H|[[H|H] E]]; unfold measure; case_bool_decide; (lia || congruence). Qed.

(** The push of a frame, and the failure when it is refused. *)
Lemma kwp_push remaining g f target pc sp line s m :
  f (hs_core s) (hs_context s) = generic_push_x64 (hs_core s) (hs_context s) target pc sp ->
  paused remaining g s m -> hy_generic (hs_core s) = g -> is_u64 target -> is_u64 pc ->
  kwp live (call_bool f)
    (fun ok => kwp live (fail_when (negb ok) line) (fun _ => arm_next remaining g) halted) halted s m.
Proof.
  intros Eq (Hc & Hlive & Harm & Hf & _ & Hacc) <- Ht Hpc.
  eapply kwp_call_bool; [done|rewrite Eq; apply generic_push_triple; try done; try apply Hc|].
  { by eapply core_meta_kept; [apply Hc|]. }
  intros b s' m' Hc' Hstep _ Hmv. apply kwp_fail_when; [done|]. intros Hb.
  destruct Hmv as [Hmv Hst]; [by destruct b|]. split; [by eapply moved_ready|].
  apply stage_measure; [pose proof (lo_shape _ Hlive) as [_ ?]; lia|done|by left].
Qed.

Lemma kwp_arm_transition remaining g s m :
  paused remaining g s m -> kwp live arm_transition (fun _ => arm_next remaining g) halted s m.
Proof.
  intros Hpaused. pose proof Hpaused as (Hc & Hlive & Harm & Hf & Hpend & Hacc).
  unfold arm_transition. ksteps. pose proof (lo_pending _ Hlive) as (Hn1 & Hn2 & Hn3).
  assert (forall s' g', hs_core s' = set_hy_generic (hs_core s) g' -> hs_context s' = hs_context s ->
    hs_arm s' = hs_arm s -> hs_x64 s' = hs_x64 s -> hs_stats s' = hs_stats s -> shape g' -> common s' m) as Hset.
  { intros s' g' H1 H2 H3 H4 H5 H6. destruct Hc. split; rewrite ?H1, ?H2, ?H3, ?H4, ?H5; done. }
  destruct (gs_pending_native_return (hy_generic (hs_core s))) eqn:Hnative.
  { inversion Hpend as [E| ? ? ? ? ? E| E|Hst E]; rewrite <- E in Hnative; cbn in Hnative; try congruence.
    rewrite E. ksteps. apply kwp_fail_when; [done|]. intros Hchk.
    assert (gs_depth g = 0 /\ c_pc (hs_context s) = gs_native_return_pc g) as [Hd0 Hpc].
    { rewrite <- E in Hchk. by apply orb_false_iff in Hchk as [H1%negb_false_iff%Z.eqb_eq H2%negb_false_iff%Z.eqb_eq]. }
    ksteps. destruct Hacc as (? & ? & Hbal & Hdeep & Hnat). rewrite <- E in Hnat.
    apply kwp_return_halted; try done; [|by left| |].
    - destruct Hc. split; try done. cbn [hs_context]. auto with gem.
    - intros _. unfold balance, deep_enough in *. rewrite <- E in Hbal, Hdeep. cbn in Hbal, Hdeep |- *.
      rewrite Hd0 in Hbal, Hdeep. split; [done|lia].
    - intros _. split; [done|]. split; [|done]. cbn. by rewrite Hpc. }
  destruct (gs_pending_callback_return (hy_generic (hs_core s))) eqn:Hcb.
  { assert (live_ok (set_gs_pending_callback_return (hy_generic (hs_core s)) false)) as Hl'.
    { destruct Hlive. inversion Hpend as [E| ? ? ? ? ? E| E|Hst E]; rewrite <- E in Hcb; cbn in Hcb; try congruence. by split. }
    destruct (pending_depth _ _ Hpend) as [Hd Hstage].
    ksteps. eapply kwp_call_bool; [done|apply generic_finish_triple; try done; try apply Hc|].
    { cbn. by rewrite Hstage. }
    { destruct Hf as (? & ? & ? & ? & Hisa & Hck). split_and!; try done; cbn; [by rewrite Hstage|].
      rewrite Hck. by inversion Hpend. }
    intros b s' m' Hc' Hstep _ Hmv. apply kwp_fail_when; [done|]. intros Hb.
    destruct Hmv as [Hmv Hst]; [by destruct b|]. split; [by eapply moved_ready|].
    apply stage_measure; [pose proof (lo_shape _ Hlive) as [_ ?]; lia|done|].
    cbn in Hst. rewrite Hd in Hst. destruct Hst as [[? _]|?]; auto. }
  destruct (gs_pending_dispatch (hy_generic (hs_core s))) eqn:Hdis.
  { inversion Hpend as [E| ? ? ? Ht Hpc E| E|Hst E]; rewrite <- E in Hdis, Hcb, Hnative; cbn in Hdis, Hcb, Hnative; try congruence.
    unfold mod_generic. ksteps.
    apply (kwp_push remaining (set_pending_dispatch g false 0 0 0) _ target pc sp); try done.
    { split; [by apply (Hset _ (set_pending_dispatch (hy_generic (hs_core s)) false 0 0 0)); try apply Hc|].
      split; [by destruct Hlive; split|]. split; [done|]. split; [done|].
      split; [cbn; rewrite <- E; apply pending_nothing|].
      exact Hacc. }
    all: rewrite <- E; done. }
  assert (hy_generic (hs_core s) = g) as Hg.
  { inversion Hpend as [E| ? ? ? ? ? E| E|Hst E]; [done|..]; rewrite <- E in Hdis, Hcb, Hnative; done. }
  ksteps. eapply kwp_lift; [apply (resolve_to_triple _ _ _ (st pins L))|apply Hc|].
  { by eapply core_meta_kept; [apply Hc|]. }
  { apply pc_u64, Hc. }
  intros t m' [Hm' Ht].
  assert (paused remaining g s m') as Hpaused'.
  { split; [|done]. by destruct Hc. }
  destruct t as [t|]; [|apply kwp_invariant, Hpaused'].
  ksteps. eapply kwp_push; [reflexivity|done|done|by apply Ht|]. apply xreg_u64, Hc.
Qed.
#[local] Opaque arm_transition.

(** *** A round of ARM64EC code *)

Hypothesis Hlive : yc_boundary_delivery (hy_config h0) = GEM_ARM64EC_BOUNDARY_SVC_TRAP -> live.

(** What the engine's stop means for the coordinator. *)
Definition arm_stopped (reason : gem_stop_reason) (s s' : hybrid_state) : Prop :=
  let g := hy_generic (hs_core s) in
  (exists o g1, brokered (hs_core s) o /\ g1 = hy_generic o /\
     pending_of g1 (hy_generic (hs_core s')) /\
     (reason = GEM_STOP_ARCH_TRANSITION \/ hy_generic (hs_core s') = g1)) /\
  core_kept (hs_core s) (hs_core s') /\ hy_generation (hs_core s') = hy_generation (hs_core s) /\
  counts_kept (hy_stats (hs_core s)) (hy_stats (hs_core s')) /\
  context_wf (hs_context s') /\ arm_frame (hs_context s) (hs_context s') /\
  (reason <> GEM_STOP_INVARIANT_VIOLATION -> xreg (hs_context s') 18 = c_teb (hs_context s')).

Lemma counts_kept_trans a b c : counts_kept a b -> counts_kept b c -> counts_kept a c.
Proof. intros (? & ? & ? & ? & ?) (? & ? & ? & ? & ?). split_and!; etrans; eassumption. Qed.

Lemma fits_arm64ec_valid g c :
  is_arm_stage (gs_stage g) -> context_fits g c -> context_is_arm64ec_valid (Some c) = true.
Proof.
  intros Harm (? & ? & ? & ? & Hisa & _). apply arm64ec_valid_spec. split_and!; try done.
  rewrite Hisa. by destruct Harm as [-> | ->].
Qed.

Lemma kwp_run_arm fuel b (Q : gem_stop_reason -> hybrid_state -> mem -> Prop) E remaining s m :
  ready remaining s m -> is_arm_stage (gs_stage (hy_generic (hs_core s))) -> 0 < b <= remaining ->
  (forall reason s' m', common s' m' -> hs_x64 s' = hs_x64 s -> arm_stopped reason s s' ->
    ai_reason (ar_last_stop (hs_arm s')) = reason ->
    0 <= ai_instructions_retired (ar_last_stop (hs_arm s')) <= b -> Q reason s' m') ->
  kwp live (run_arm fuel b) Q E s m.
Proof.
  intros [Hc Hlv Hf (Hr0 & Hsum & _)] Harm Hb HQ. unfold run_arm. apply kwp_zoom. unfold id.
  assert (core_meta (hs_core s)) as Hmeta' by (eapply core_meta_kept; [apply Hc|done]).
  destruct Hc as [Hm Hcore Hgen Hsh Hwf Ha Hx64 Hst Hret].
  pose proof Ha as (Hawf & Hbr & Htr & Hamax & Hsvc & Hrun). unfold is_u64 in Hbudget.
  pose proof (arm64ec_run_inside pins L (brokered (hs_core s)) (stopped_by_broker (hs_core s)) fuel (hs_arm s)
    (hs_context s) (hs_core s) b m Hp Hm Hawf) as Hin.
  specialize (Hin ltac:(intros broker; rewrite Hbr; intros [= <-]; by apply hybrid_broker_ok)).
  specialize (Hin ltac:(unfold is_u64; lia) Hwf (brokered_refl _)).
  assert (arm64ec_accepts (hs_arm s) (hs_context s) b) as Hacc.
  { split_and!; [by eapply fits_arm64ec_valid|right; rewrite Hamax; lia|by right]. }
  specialize (Hin Hacc). unfold mbind, M_bind.
  destruct (gem_arm64ec_runtime_run _ _ _ _ b m) as [[[[[[reason r'] c'] o']|] m']| |]; [| |done|done].
  2:{ apply Hlive. apply Z.eqb_eq. congruence. }
  destruct Hin as (Hm' & r1 & d & -> & -> & Hleft & Hreason & (Hrt & _ & Hwfd & Hfr & _ & Hval & Ho)).
  rewrite Htr in Ho.
  assert (exists o g1, brokered (hs_core s) o /\ g1 = hy_generic o /\ pending_of g1 (hy_generic o') /\
    (reason = GEM_STOP_ARCH_TRANSITION \/ hy_generic o' = g1) /\
    core_kept (hs_core s) o' /\ hy_generation o' = hy_generation (hs_core s) /\
    counts_kept (hy_stats (hs_core s)) (hy_stats o')) as (o & g1 & Hbo & Hg1 & Hpend & Hor & Hk & Hg & Hcnt).
  { destruct Ho as [Hj|[(o & g' & Hbo & Hpend & st' & -> & Hcnt') [Hr|[]%(fun H => H eq_refl)]]].
    - destruct Hj as (st' & n & -> & Hcnt). eexists _, _. split; [by exists st', n|]. split; [done|].
      split; [apply pending_nothing|]. by split_and!; auto.
    - exists o, (hy_generic o). split; [done|]. split; [done|]. split; [done|]. split; [by left|].
      destruct Hbo as (st'' & n & -> & Hcnt). split; [done|]. split; [done|]. by eapply counts_kept_trans. }
  apply HQ; cbn [hs_core hs_arm hs_x64 hs_context]; try done.
  - pose proof Hcnt as (Hca & Hcx & _). destruct Hleft as (Hl1 & Hl2 & Hl3 & Hl4 & Hl5 & Hl6 & Hl7).
    split; cbn [hs_core hs_arm hs_x64 hs_context hs_stats]; try done.
    + by etrans.
    + by rewrite Hg.
    + apply (proj2 (pending_shape _ _ Hpend)). subst g1. by apply (brokered_live _ o) in Hbo as [].
    + split; [eapply arm64ec_left_wf; [exact Hawf|by split_and!]|]. rewrite Hl1, Hl4, Hl6. by split_and!.
    + by rewrite Hca, Hcx.
  - split; [by exists o, g1|]. split; [exact Hk|]. split; [exact Hg|]. split; [exact Hcnt|].
    split; [exact Hwfd|]. split; [exact Hfr|]. intros Hne. specialize (Hval Hne).
    apply arm64ec_valid_spec in Hval as (_ & _ & _ & Hx & _). exact Hx.
Qed.
#[local] Opaque run_arm.

(** The accounts after the engine has retired some of the budget. *)
Lemma kwp_consume_arm b (Q : bool * Z -> hybrid_state -> mem -> Prop) E s m :
  let retired := ai_instructions_retired (ar_last_stop (hs_arm s)) in
  common s m -> arm_retired (hs_core s) + x64_retired (hs_core s) + b = budget -> 0 <= retired <= b ->
  (forall s', common s' m -> hs_context s' = hs_context s -> hs_arm s' = hs_arm s -> hs_x64 s' = hs_x64 s ->
    hy_generic (hs_core s') = hy_generic (hs_core s) ->
    yi_reason (hy_last_stop (hs_core s')) = ai_reason (ar_last_stop (hs_arm s)) ->
    arm_retired (hs_core s') = arm_retired (hs_core s) + retired -> x64_retired (hs_core s') = x64_retired (hs_core s) ->
    rs_frame_pushes (hy_stats (hs_core s')) = rs_frame_pushes (hy_stats (hs_core s)) ->
    rs_frame_pops (hy_stats (hs_core s')) = rs_frame_pops (hy_stats (hs_core s)) ->
    rs_maximum_frame_depth (hy_stats (hs_core s')) = rs_maximum_frame_depth (hy_stats (hs_core s)) ->
    Q (true, b - retired) s' m) ->
  kwp live (consume_arm b) Q E s m.
Proof.
  intros retired Hc Hsum Hret HQ. unfold consume_arm. ksteps. unfold consume_arm_budget, capture_arm_stop.
  cbn [gem_arm64ec_runtime_last_stop_info id].
  set (i := if _ && _ && _ then _ else _).
  assert (ai_reason i = ai_reason (ar_last_stop (hs_arm s)) /\ ai_instructions_retired i = retired) as [Hir Hii].
  { subst i. by destruct (_ && _ && _). }
  clearbody i. cbn [hy_last_stop set_hy_last_stop yi_arm64ec negb orb hy_stats]. rewrite Hii.
  destruct (Z.ltb_spec b retired); [lia|]. ksteps. pose proof (co_retired _ _ Hc) as (H1 & H2 & H3).
  assert (wrap64 (arm_retired (hs_core s) + retired) = arm_retired (hs_core s) + retired) as Hw.
  { unfold wrap64. unfold is_u64 in Hbudget. apply Z.mod_small. lia. }
  apply HQ; try done.
  destruct Hc. split; try done. cbn [hs_core set_hy_stats hy_stats rs_arm64ec_instructions_retired
    set_rs_arm64ec_instructions_retired rs_x64_instructions_retired]. rewrite Hw. lia.
Qed.
#[local] Opaque consume_arm.

(** The coordinator after the engine's stop has been accounted for. *)
Lemma arm_stopped_facts reason remaining retired s s' s2 m m2 :
  ready remaining s m -> is_arm_stage (gs_stage (hy_generic (hs_core s))) -> arm_stopped reason s s' ->
  0 <= retired <= remaining -> common s2 m2 -> hs_context s2 = hs_context s' ->
  hy_generic (hs_core s2) = hy_generic (hs_core s') ->
  arm_retired (hs_core s2) = arm_retired (hs_core s') + retired -> x64_retired (hs_core s2) = x64_retired (hs_core s') ->
  rs_frame_pushes (hy_stats (hs_core s2)) = rs_frame_pushes (hy_stats (hs_core s')) ->
  rs_frame_pops (hy_stats (hs_core s2)) = rs_frame_pops (hy_stats (hs_core s')) ->
  rs_maximum_frame_depth (hy_stats (hs_core s2)) = rs_maximum_frame_depth (hy_stats (hs_core s')) ->
  exists g, live_ok g /\ is_arm_stage (gs_stage g) /\ gs_depth g = gs_depth (hy_generic (hs_core s)) /\
    pending_of g (hy_generic (hs_core s2)) /\
    (reason = GEM_STOP_ARCH_TRANSITION \/ hy_generic (hs_core s2) = g) /\
    (reason <> GEM_STOP_INVARIANT_VIOLATION -> context_fits g (hs_context s2)) /\
    accounts (remaining - retired) (hs_core s2).
Proof.
  intros [Hc Hlv Hf (Hr0 & Hsum & Hbal & Hdeep & Hnat)] Harm.
  intros ((o & g1 & Hbo & -> & Hpend & Hor) & Hk & Hgen & (Ha & Hx & Hpu & Hpo & Hmx) & Hwf & Hfr & Hx18).
  intros Hret Hc2 Hctx Hg2 Ha2 Hx2 Hpu2 Hpo2 Hmx2.
  pose proof (brokered_live _ _ Hlv Hbo) as Hl1.
  assert (gs_depth (hy_generic o) = gs_depth (hy_generic (hs_core s)) /\
    gs_stage (hy_generic o) = gs_stage (hy_generic (hs_core s)) /\
    stack (hy_generic o) = stack (hy_generic (hs_core s)) /\
    gs_native_return_pc (hy_generic o) = gs_native_return_pc (hy_generic (hs_core s))) as (Hd & Hs & Hst & Hn).
  { by destruct Hbo as (st' & n & -> & _). }
  assert (gs_depth (hy_generic (hs_core s')) = gs_depth (hy_generic o) /\
    gs_native_return_pc (hy_generic (hs_core s')) = gs_native_return_pc (hy_generic o)) as [Hd' Hn'] by by destruct Hpend.
  exists (hy_generic o). rewrite Hs, Hg2, Hctx. do 5 (split; [done|]). split.
  - intros Hne. specialize (Hx18 Hne). destruct Hf as (? & ? & ? & ? & ? & ?).
    destruct Hfr as (? & ? & _ & _ & _ & _ & _ & _ & Hteb & _ & Hck & Hisa).
    split_and!; try congruence. unfold cookie_of. by rewrite Hck, Hst.
  - split; [lia|]. split; [lia|]. unfold balance, deep_enough in *.
    rewrite Hg2, Hpu2, Hpo2, Hmx2, Hpu, Hpo, Hmx, Hd', Hd, Hn', Hn. done.
Qed.

Lemma kwp_return_pc_update remaining (b : bool) v (Q : unit -> hybrid_state -> mem -> Prop) s m :
  ready remaining s m -> b = (yc_boundary_delivery (hy_config h0) =? GEM_ARM64EC_BOUNDARY_SVC_TRAP) ->
  (forall s', ready remaining s' m -> hs_core s' = hs_core s -> Q tt s' m) ->
  kwp live (if b then
     s ← gets id;
     let '(ok, arm) := gem_arm64ec_runtime_set_boundary_return_pc (Some (hs_arm s)) v in
     modify (fun s => HybridState (hs_core s) (default (hs_arm s) arm) (hs_x64 s) (hs_context s) (hs_stats s));;
     fail_when (negb ok) 863
   else mret tt) Q halted s m.
Proof.
  intros Hrd Hb HQ. destruct b; [|ksteps; by apply HQ].
  assert (exists arm, gem_arm64ec_runtime_set_boundary_return_pc (Some (hs_arm s)) v = (true, Some arm) /\
    arm_fits h0 arm) as (arm & E & Hfit).
  { destruct Hrd as [[_ _ _ _ _ ([Hm Hu Hpf] & ? & ? & ? & Hsvc & Hrun) _ _ _] _ _ _].
    unfold gem_arm64ec_runtime_set_boundary_return_pc. rewrite Hrun, Hsvc, <- Hb. cbn [orb negb].
    eexists. split; [done|]. split; [by split|]. by split_and!. }
  ksteps. unfold id. rewrite E. ksteps.
  assert (ready remaining (HybridState (hs_core s) arm (hs_x64 s) (hs_context s) (hs_stats s)) m) as Hrd'.
  { destruct Hrd as [[] ? ? ?]. split; [by split|done..]. }
  apply kwp_fail_when; [apply Hrd'|]. intros _. by apply HQ.
Qed.

Definition advances (remaining : Z) (h : hybrid_core) (remaining' : Z) (s' : hybrid_state) (m' : mem) : Prop :=
  ready remaining' s' m' /\ measure remaining' (hs_core s') < measure remaining h.

Lemma kwp_arm_round fuel remaining s m :
  ready remaining s m -> is_arm_stage (gs_stage (hy_generic (hs_core s))) -> remaining <> 0 ->
  kwp live (arm_round fuel remaining) (advances remaining (hs_core s)) halted s m.
Proof.
  intros Hrd Harm Hne. pose proof (rd_accounts _ _ _ Hrd) as (Hr0 & Hsum & _). unfold arm_round. ksteps.
  assert (hy_config (hs_core s) = hy_config h0) as Hcfg by apply (co_core _ _ (rd_common _ _ _ Hrd)).
  rewrite Hcfg. set (b := _ =? _).
  set (arm_budget := if b then remaining else _).
  assert (0 < arm_budget <= remaining) as Hab.
  { subst arm_budget. destruct b; [lia|]. destruct (Z.ltb_spec remaining 4096); lia. }
  apply (kwp_return_pc_update remaining b); [done|done|]. intros s1 Hrd1 Hcore1.
  rewrite <- Hcore1 in *. clear Hcore1 s Hrd. ksteps.
  eapply kwp_run_arm; [exact Hrd1|done|exact Hab|]. intros reason s2 m2 Hc2 _ Hstop Hreason Hret.
  ksteps. pose proof Hstop as (_ & _ & _ & (Ha & Hx & _) & _).
  apply kwp_consume_arm; [done|by rewrite Ha, Hx|lia|].
  intros s3 Hc3 Hctx Harm3 Hx64 Hg Hr Hret3 Hx3 Hpu Hpo Hmx.
  edestruct (arm_stopped_facts reason remaining (ai_instructions_retired (ar_last_stop (hs_arm s2))) s1 s2 s3)
    as (g & Hlv & Hga & Hgd & Hpend & Hor & Hfit & Hacc); try eassumption; [lia|]. rewrite Hreason in Hr.
  set (remaining' := remaining - _) in *.
  ksteps. apply kwp_fail_when; [done|]. intros _. ksteps.
  apply kwp_when; intros Harch; ksteps.
  - apply negb_true_iff in Harch. apply bool_decide_eq_false in Harch.
    destruct Hor as [|Hor]; [done|]. destruct Hacc as (? & ? & ? & ? & ?).
    apply kwp_return_halted; try done; [right; by rewrite Hor|]. intros Hinv _. rewrite Hor. auto.
  - eapply kwp_mono; [apply (kwp_arm_transition remaining' g)| |done].
    + assert (reason = GEM_STOP_ARCH_TRANSITION) as -> by (apply negb_false_iff in Harch; by apply bool_decide_eq_true in Harch).
      split; [done|]. split; [done|]. split; [done|]. split; [by apply Hfit|]. by split.
    + intros _ s4 m4 [Hrd4 Hms]. ksteps. split; [done|]. unfold measure at 2.
      rewrite bool_decide_eq_false_2 by (destruct Harm as [-> | ->]; done). subst remaining'. lia.
Qed.
#[local] Opaque arm_round.

(** *** A round of x64 code *)

Lemma kwp_run_x64 (Q : gem_stop_reason -> hybrid_state -> mem -> Prop) E remaining s m :
  ready remaining s m -> gs_stage (hy_generic (hs_core s)) = HYBRID_GENERIC_X64 -> remaining <> 0 ->
  (forall reason s' m', common s' m' -> hs_core s' = hs_core s ->
    context_fits (hy_generic (hs_core s)) (hs_context s') ->
    xs_reason (xr_last_stop (hs_x64 s')) = reason -> reason <> GEM_STOP_ARCH_TRANSITION ->
    0 <= xs_instructions_retired (xr_last_stop (hs_x64 s')) <= 1 -> Q reason s' m') ->
  kwp live (run_x64 1) Q E s m.
Proof.
  intros [Hc Hlv Hf (Hr0 & Hsum & _)] Hstage Hne HQ. unfold run_x64. ksteps.
  destruct Hc as [Hm Hcore Hgen Hsh Hwf Ha Hx64 Hst (H1 & H2 & H3)].
  pose proof Hx64 as (Htr & Hrun & Hxmax & Hxs).
  destruct (xr_backend_failed (hs_x64 s)) eqn:Hbf.
  { unfold kwp, lift, mbind, M_bind, id. rewrite run_rejected by (intros d _ (_ & Hok & _); by rewrite Hbf in Hok).
    by apply HQ. }
  destruct Hf as (Hlay & Hsize & Hteb & Hx18 & Hisa & Hck). rewrite Hstage in Hisa. cbn in Hisa.
  assert (x64_accepts (hs_x64 s) (hs_context s) 1) as Hacc.
  { split; [done|]. split; [done|]. split; [apply gem_context_is_valid_spec; by split_and!; auto|]. split; [done|].
    right. rewrite Hxmax. lia. }
  pose proof (x64_run_inside pins L (hs_x64 s) (hs_context s) 1 m Hp ltac:(lia) Htr Hm ltac:(apply Hwf) Hacc) as Hin.
  unfold kwp, lift, mbind, M_bind, id in *.
  destruct (gem_x64_runtime_run _ _ 1 m) as [[[[reason r'] c'] m']| |]; [|done..].
  destruct Hin as (Hm' & r1 & d & -> & -> & (Hl1 & Hl2 & Hl3 & Hl4) & Hreason & Hfin).
  destruct Hfin as (Hret & _ & Harch & _ & Hfr & Hwfd & (i & Hi) & _).
  cbn [hs_core hs_x64 hs_context K_bind modify mret]. apply HQ; cbn [hs_core hs_x64 hs_context]; try done.
  - split; try done; cbn [hs_core hs_x64 hs_context]; [by apply Hwfd|].
    split; [done|]. rewrite Hl2, Hl3. by split_and!.
  - apply materialize_spec in Hi as (Hv & Hisa' & _). apply gem_context_is_valid_spec in Hv as (? & ? & ? & ? & _).
    destruct Hfr as (_ & _ & _ & _ & _ & _ & Hck' & _). split_and!; try done; [by rewrite Hstage|by rewrite Hck'].
Qed.
#[local] Opaque run_x64.

(** The accounts after the instruction. *)
Lemma accounts_x64 remaining retired h g x :
  accounts remaining h -> 0 <= retired <= remaining -> 0 <= arm_retired h -> 0 <= x64_retired h ->
  gs_depth g = gs_depth (hy_generic h) -> gs_native_return_pc g = gs_native_return_pc (hy_generic h) ->
  accounts (remaining - retired)
    (set_hy_stats (set_hy_last_stop (set_hy_generic h g) x)
       (set_rs_x64_instructions_retired (hy_stats h) (wrap64 (x64_retired h + retired)))).
Proof.
  intros (Hr & Hsum & Hbal & Hdeep & Hnat) Hret Ha Hx Hd Hn. unfold accounts, balance, deep_enough in *.
  cbn [hy_stats hy_generic set_hy_stats set_hy_last_stop set_hy_generic rs_arm64ec_instructions_retired
    rs_x64_instructions_retired set_rs_x64_instructions_retired rs_frame_pushes rs_frame_pops rs_maximum_frame_depth].
  rewrite Hd, Hn. assert (wrap64 (x64_retired h + retired) = x64_retired h + retired) as ->.
  { unfold wrap64. unfold is_u64 in Hbudget. apply Z.mod_small. lia. }
  split_and!; try done; lia.
Qed.

Lemma set_generic_same h : set_hy_generic h (hy_generic h) = h.
Proof. by destruct h. Qed.

Lemma kwp_x64_round remaining s m :
  ready remaining s m -> gs_stage (hy_generic (hs_core s)) = HYBRID_GENERIC_X64 -> remaining <> 0 ->
  kwp live (x64_round remaining) (advances remaining (hs_core s)) halted s m.
Proof.
  intros Hrd Hstage Hne. pose proof (rd_accounts _ _ _ Hrd) as (Hr0 & Hsum & _).
  pose proof (co_retired _ _ (rd_common _ _ _ Hrd)) as (Hra & Hrx & _).
  assert (is_u64 (c_sp (hs_context s))) as Hpre by apply sp_u64, (co_context _ _ (rd_common _ _ _ Hrd)).
  unfold x64_round. ksteps. eapply kwp_run_x64; [exact Hrd|done|done|].
  intros reason s1 m1 Hc1 Hcore1 Hf1 Hreason Harch Hret. unfold capture_x64. ksteps.
  cbn [id capture_x64_stop gem_x64_runtime_last_stop_info hs_core hs_x64]. ksteps.
  set (last := HybridStopInfo _ _ _ _).
  assert (forall s', hs_core s' = set_hy_last_stop (hs_core s1) last -> hs_arm s' = hs_arm s1 -> hs_x64 s' = hs_x64 s1 ->
    hs_context s' = hs_context s1 -> hs_stats s' = hs_stats s1 -> common s' m1) as Hlast.
  { intros s' E1 E2 E3 E4 E5. destruct Hc1. split; rewrite ?E1, ?E2, ?E3, ?E4, ?E5; done. }
  apply kwp_fail_when; [by apply Hlast|]. intros _. ksteps. cbn [hs_core hs_x64 hs_context hy_last_stop set_hy_last_stop yi_x64 last].
  set (retired := xs_instructions_retired (xr_last_stop (hs_x64 s1))) in *.
  match goal with |- kwp _ _ _ _ ?x _ => set (s2 := x) end.
  assert (accounts (remaining - retired) (hs_core s2)) as Hacc2.
  { pose proof (accounts_x64 remaining retired (hs_core s) (hy_generic (hs_core s)) last (rd_accounts _ _ _ Hrd)
      ltac:(lia) Hra Hrx eq_refl eq_refl) as Hacc. rewrite set_generic_same, <- Hcore1 in Hacc. exact Hacc. }
  assert (common s2 m1) as Hc2.
  { destruct Hacc2 as (? & Hsum2 & _). destruct Hc1. split; try done. revert Hsum2. cbn [s2 hs_core].
    rewrite Hcore1. cbn [hs_core hy_stats set_hy_stats set_hy_last_stop rs_arm64ec_instructions_retired
    rs_x64_instructions_retired set_rs_x64_instructions_retired].
    pose proof (wrap64_u64 (x64_retired (hs_core s) + retired)) as [? _]. lia. }
  assert (live_ok (hy_generic (hs_core s2))) as Hlv2.
  { change (live_ok (hy_generic (hs_core s1))). rewrite Hcore1. apply Hrd. }
  assert (context_fits (hy_generic (hs_core s2)) (hs_context s2)) as Hf2.
  { change (context_fits (hy_generic (hs_core s1)) (hs_context s1)). by rewrite Hcore1. }
  assert (gs_stage (hy_generic (hs_core s2)) = HYBRID_GENERIC_X64) as Hst2.
  { change (gs_stage (hy_generic (hs_core s1)) = HYBRID_GENERIC_X64). by rewrite Hcore1. }
  assert (yi_reason (hy_last_stop (hs_core s2)) = reason) as Hr2 by exact Hreason.
  assert (retired = 1 -> forall s' m', ready (remaining - retired) s' m' -> advances remaining (hs_core s) (remaining - retired) s' m') as Hdone.
  { intros E s' m' Hrd'. split; [done|]. pose proof (measure_bound (remaining - retired) (hs_core s')) as Hb.
    unfold measure at 2. rewrite Hstage. cbn [bool_decide]. rewrite bool_decide_eq_true_2 by done.
    specialize (Hb ltac:(lia) (lo_shape _ (rd_live _ _ _ Hrd'))). lia. }
  assert (hy_config (hs_core s2) = hy_config h0) as Hcfg by apply Hc2.
  clearbody s2 retired. clear Hlast Hcore1 Hc1 last s1 Hf1 Hreason Hret.
  ksteps. apply kwp_when; intros Hgo; ksteps.
  { destruct Hacc2 as (? & ? & ? & ? & ?). by apply kwp_return_halted; auto. }
  apply kwp_fail_when; [done|]. intros H1%negb_false_iff%Z.eqb_eq. specialize (Hdone H1). ksteps.
  assert (forall s' m' (b : bool) goal, common s' m' -> stepped (hs_core s2) (hs_core s') ->
    (b = true -> moved (hs_core s2) (hs_core s') (hs_context s') /\
       goal (gs_stage (hy_generic (hs_core s'))) (gs_depth (hy_generic (hs_core s')))) -> b = true ->
    advances remaining (hs_core s) (remaining - retired) s' m') as Hstep.
  { intros s' m' b goal Hc' Hs' Hmv Hb. apply Hdone. destruct (Hmv Hb) as [Hmv' _]. by eapply moved_ready. }
  destruct (c_pc (hs_context s2) =? _).
  { destruct (_ || _); [by apply kwp_invariant|]. ksteps. destruct Hf2 as (? & ? & ? & _).
    eapply kwp_call_bool; [done|apply generic_pop_triple; try done; apply Hc2|].
    intros b s' m' Hc' Hs' _ Hmv. ksteps. apply kwp_fail_when; [done|]. intros Hb. ksteps.
    eapply Hstep; try done. by destruct b. }
  ksteps. apply kwp_fail_when; [done|]. intros _. ksteps. eapply kwp_lift; [apply (hybrid_resolve_triple _ _ (st pins L))|apply Hc2|].
  { by eapply core_meta_kept; [apply Hc2|]. }
  { apply pc_u64, Hc2. }
  intros t m' [Hm' Ht]. assert (common s2 m') as Hc2' by (destruct Hc2; by split).
  destruct t as [e|t]; [by apply kwp_invariant|].
  destruct (bool_decide (kind t = _)).
  - ksteps. apply kwp_fail_when; [done|]. intros _. ksteps. apply Hdone. split; try done.
    destruct Hc2'. split; try done. by apply with_stop_reason_wf.
  - ksteps. eapply kwp_call_bool; [done|apply generic_enter_triple; try done; try apply Hc2|].
    { by eapply core_meta_kept; [apply Hc2|]. }
    { by rewrite Hcfg. }
    { by apply Ht. }
    intros b s' m'' Hc' Hs' _ Hmv. ksteps. apply kwp_fail_when; [done|]. intros Hb. ksteps.
    eapply Hstep; try done. by destruct b.
Qed.
#[local] Opaque x64_round.

(** *** The loop *)

Lemma kwp_hybrid_round fuel remaining s m :
  ready remaining s m -> kwp live (hybrid_round fuel remaining) (advances remaining (hs_core s)) halted s m.
Proof.
  intros Hrd. unfold hybrid_round. ksteps.
  destruct (exchange_false (hy_async_stop_requested (hs_core s))) as [requested flag]. ksteps.
  match goal with |- kwp _ _ _ _ ?x _ => set (s1 := x) end.
  assert (forall s' x, hs_core s' = set_hy_last_stop (hs_core s1) x ->
    hs_arm s' = hs_arm s1 -> hs_x64 s' = hs_x64 s1 -> hs_context s' = hs_context s1 -> hs_stats s' = hs_stats s1 ->
    ready remaining s' m) as Hrd1.
  { intros s' x E1 E2 E3 E4 E5. destruct Hrd as [[] ? ? ?]. split; [split|..]; rewrite ?E1, ?E2, ?E3, ?E4, ?E5; done. }
  assert (forall A reason (Q : A -> hybrid_state -> mem -> Prop) s', ready remaining s' m ->
    yi_reason (hy_last_stop (hs_core s')) = reason -> reason <> GEM_STOP_ARCH_TRANSITION ->
    kwp live (generic_return (A := A) reason) Q halted s' m) as Hret.
  { intros A reason Q s' [? ? ? (? & ? & ? & ? & ?)] Hr Hne. by apply kwp_return_halted; auto. }
  assert (hs_core s1 = set_hy_last_stop (hs_core s1) (hy_last_stop (hs_core s1))) as Hsame by done.
  apply kwp_when; intros Hreq; ksteps; [apply Hret; try done; by eapply Hrd1|].
  apply kwp_when; intros Hrem; ksteps.
  { apply kwp_when; intros Hlast; ksteps; apply Hret; try done; try by eapply Hrd1.
    by apply negb_false_iff, bool_decide_eq_true in Hlast. }
  apply Z.eqb_neq in Hrem.
  pose proof (Hrd1 s1 _ Hsame eq_refl eq_refl eq_refl eq_refl) as Hrd2.
  assert (advances remaining (hs_core s1) = advances remaining (hs_core s)) as Heq by reflexivity.
  change (gs_stage (hy_generic (hs_core s))) with (gs_stage (hy_generic (hs_core s1))).
  destruct (gs_stage (hy_generic (hs_core s1))) eqn:Hstage; [by apply kwp_invariant, Hrd2|..]; rewrite <- Heq.
  - apply kwp_arm_round; [done| |done]. rewrite Hstage. by left.
  - by apply kwp_x64_round.
  - apply kwp_arm_round; [done| |done]. rewrite Hstage. by right.
Qed.
#[local] Opaque hybrid_round.

Lemma kwp_hybrid_loop rounds fuel remaining s m :
  ready remaining s m -> (measure remaining (hs_core s) < Z.of_nat rounds \/ live) ->
  kwp live (hybrid_loop rounds fuel remaining) halted halted s m.
Proof.
  revert remaining s m. induction rounds as [|rounds IH]; intros remaining s m Hrd Hm; cbn [hybrid_loop].
  - destruct Hm as [Hm|Hm]; [|exact Hm]. exfalso.
    pose proof (measure_bound remaining (hs_core s) ltac:(apply (rd_accounts _ _ _ Hrd)) (lo_shape _ (rd_live _ _ _ Hrd))). lia.
  - apply kwp_bind. eapply kwp_mono; [by apply kwp_hybrid_round| |done].
    intros remaining' s' m' [Hrd' Hlt]. apply IH; [done|]. destruct Hm as [Hm|Hm]; [left; lia|by right].
Qed.
End run.
End logic.
