(* ===== verification/HybridProperties.v ===== *)
(** HybridProperties: what a run of the coordinator guarantees, whatever the two
    engines do: safety and the stack discipline of its frames, termination, and
    the asynchronous stop. *)
From S2P Require Import Prelude Context Conversion MemoryModel Memory MemoryLogic MemoryInv MemoryTotal MemorySpec.
From S2P Require Import Transaction TransactionInv TransactionWorld TransactionCommit.
From S2P Require Import Pe PeInvariant PeProperties Target TargetProperties Control Dynarmic Blink X64Engine X64EngineProperties.
From S2P Require Import Arm64ecEngine Arm64ecEngineLogic Arm64ecEngineProperties Hybrid HybridRecord HybridLogic.

(** ** The contract *)

Section contract.
Context {platform : Platform} {dynarmic : Dynarmic} {blink : Blink}.
Implicit Types (r : gem_hybrid_runtime) (c d : gem_thread_context).

(** The object between two calls. *)
Record hybrid_wf r : Prop := HybridWf {
  hw_meta : core_meta (hr_core r);
  hw_generation : is_u64 (hy_generation (hr_core r));
  hw_sentinel : is_u64 (yc_x64_return_sentinel (hy_config (hr_core r)));
  hw_budget : is_u64 (yc_max_budget (hy_config (hr_core r)));
  hw_running : hy_running (hr_core r) = false;
  hw_arm : arm_fits (hr_core r) (hr_arm r);
  hw_x64 : x64_fits (hr_core r) (hr_x64 r);
  hw_generic : hy_generic (hr_core r) = generic_state_zero \/ live_ok (hy_generic (hr_core r)) }.

(** The native caller a run may return to. *)
Definition caller_of r c : Z :=
  if gs_active (hy_generic (hr_core r)) then gs_native_return_pc (hy_generic (hr_core r))
  else native_caller (hr_core r) c.

(** A run of [c] that was not refused returned [reason]: [r1] and [d]. *)
Record hybrid_ran r c (budget : Z) (reason : gem_stop_reason) r1 d : Prop := HybridRan {
  hn_context : context_wf d;
  hn_stop : c_stop_reason d = stop_value reason;
  hn_retired : let s := hy_stats (hr_core r1) in
    0 <= rs_arm64ec_instructions_retired s /\ 0 <= rs_x64_instructions_retired s /\
    rs_arm64ec_instructions_retired s + rs_x64_instructions_retired s <= budget;
  hn_depth : rs_final_frame_depth (hy_stats (hr_core r1)) = gs_depth (hy_generic (hr_core r1));
  hn_balance : reason <> GEM_STOP_INVARIANT_VIOLATION -> let s := hy_stats (hr_core r1) in
    wrap64 (rs_frame_pushes s - rs_frame_pops s) =
      wrap64 (gs_depth (hy_generic (hr_core r1)) - gs_depth (hy_generic (hr_core r))) /\
    rs_final_frame_depth s <= rs_maximum_frame_depth s <= 2;
  hn_resume : reason <> GEM_STOP_INVARIANT_VIOLATION -> reason <> GEM_STOP_ARCH_TRANSITION ->
    gs_active (hy_generic (hr_core r1)) = true /\ generic_context_valid (hr_core r1) (Some d) = true;
  hn_done : reason = GEM_STOP_ARCH_TRANSITION ->
    hy_generic (hr_core r1) = generic_state_zero /\ c_pc d = caller_of r c /\
    c_isa d = GEM_ISA_ARM64EC /\ c_transition_cookie d = 0 }.

(** A run that its entry checks refuse. *)
Definition hybrid_refused r (c : option gem_thread_context) reason r1 (c' : option gem_thread_context) : Prop :=
  reason = GEM_STOP_INVARIANT_VIOLATION /\ hr_arm r1 = hr_arm r /\ hr_x64 r1 = hr_x64 r /\
  hr_core r1 = record_broker_stop (hr_core r) GEM_STOP_INVARIANT_VIOLATION /\
  c' = (fun c => with_stop_reason c GEM_STOP_INVARIANT_VIOLATION) <$> c.

Lemma refused_wf r (c c' : option gem_thread_context) reason r1 : hybrid_wf r -> hybrid_refused r c reason r1 c' -> hybrid_wf r1.
Proof. intros [] (_ & Ha & Hx & Hc & _). split; rewrite ?Ha, ?Hx, ?Hc; done. Qed.

Lemma zero_shape : shape generic_state_zero.
Proof. by split. Qed.

Lemma wf_shape r : hybrid_wf r -> shape (hy_generic (hr_core r)).
Proof. intros []. destruct hw_generic0 as [-> |[]]; [apply zero_shape|done]. Qed.

(** The state in which the loop of an accepted run begins. *)
Definition hybrid_entered r (h : hybrid_core) c (has_stats : bool) : hybrid_state :=
  HybridState (set_hy_running (set_hy_last_stop
    (set_hy_stats h (set_rs_maximum_frame_depth stats_zero (gs_depth (hy_generic h)))) hybrid_stop_zero) true)
    (hr_arm r) (hr_x64 r) c (if has_stats then Some stats_zero else None).

(** The coordinator [h1] and the context an accepted run begins with. *)
Definition hybrid_accepted r c (budget : Z) (h1 : hybrid_core) (c1 : gem_thread_context) : Prop :=
  budget <> 0 /\ budget <= yc_max_budget (hy_config (hr_core r)) /\ context_wf c1 /\
  (exists g, h1 = set_hy_generic (hr_core r) g) /\ live_ok (hy_generic h1) /\ context_fits (hy_generic h1) c1 /\
  gs_depth (hy_generic h1) = gs_depth (hy_generic (hr_core r)) /\
  gs_native_return_pc (hy_generic h1) = caller_of r c.

Lemma run_entry rounds fuel r c budget has_stats m :
  hybrid_wf r -> context_wf c ->
  let out := gem_hybrid_runtime_run rounds fuel (Some r) (Some c) budget has_stats m in
  out = Ok (hybrid_rejected r (Some c) (if has_stats then Some stats_zero else None), m) \/
  (exists e, out = Err e) \/
  exists h1 c1, hybrid_accepted r c budget h1 c1 /\
    out = (x ← body (hybrid_loop rounds fuel budget) (hybrid_entered r h1 c1 has_stats); mret (hybrid_finished x)) m.
Proof.
  intros Hwf Hc. pose proof Hwf as []. unfold gem_hybrid_runtime_run. rewrite hw_running0. cbn [orb].
  destruct (gem_context_is_valid (Some c)) eqn:Hv; [|by left]. cbn [negb orb].
  destruct (Z.eqb_spec budget 0); [by left|]. cbn [orb].
  destruct (Z.ltb_spec (yc_max_budget (hy_config (hr_core r))) budget); [by left|]. cbn [orb].
  destruct (negb (c_stop_reason c =? _)); [by left|]. unfold hybrid_accepted, caller_of.
  destruct (gs_active (hy_generic (hr_core r))) eqn:Hact.
  - assert (live_ok (hy_generic (hr_core r))) as Hlive by (destruct hw_generic0 as [E|]; [by rewrite E in Hact|done]).
    unfold mbind, M_bind, mret, M_ret. cbn [negb orb].
    destruct (generic_context_valid (hr_core r) (Some c)) eqn:Hfit; [|left; by destruct r].
    right; right. exists (hr_core r), c. apply context_valid_fits in Hfit; [|done].
    split; [|done]. do 3 (split; [done|]). split; [exists (hy_generic (hr_core r)); by destruct (hr_core r)|by split_and!].
  - assert (gs_depth (hy_generic (hr_core r)) = 0) as Hd.
    { destruct hw_generic0 as [->|Hl]; [done|]. destruct Hl. congruence. }
    pose proof (generic_begin_triple (hr_core r) c (fun m' => m' = m) hw_meta0 Hc Hv m eq_refl) as Hbegin.
    unfold mbind, M_bind, mret, M_ret.
    destruct (generic_begin (hr_core r) c m) as [[[[[] h1] c1] m1]|e|]; [..|by right; left; exists e|done].
    + destruct Hbegin as (-> & Hc1 & g & -> & Hl & Hf & Hg & Hn). cbn [negb orb].
      rewrite (proj2 (context_valid_fits (set_hy_generic (hr_core r) g) c1 Hl) Hf). cbn [negb].
      right; right. exists (set_hy_generic (hr_core r) g), c1. split; [|done].
      do 3 (split; [done|]). split; [by exists g|]. split; [done|]. split; [done|]. split; [by rewrite Hd|done].
    + destruct Hbegin as (-> & _ & -> & ->). cbn [negb orb]. left. by destruct r.
Qed.

Lemma entered_ready pins L r c budget has_stats h1 c1 m :
  hybrid_wf r -> is_u64 budget -> st pins L m -> hybrid_accepted r c budget h1 c1 ->
  ready pins L (hs_core (hybrid_entered r h1 c1 has_stats)) budget has_stats budget
    (hybrid_entered r h1 c1 has_stats) m.
Proof.
  intros [] Hb Hm (Hb0 & Hmax & Hc1 & (g & ->) & Hl & Hf & Hd & Hn). unfold is_u64 in Hb.
  pose proof (lo_shape _ Hl) as [_ Hd2]. cbn [hy_generic set_hy_generic] in Hd2.
  split; [split|..]; try done; [apply Hl|by destruct has_stats|cbn; lia|].
  split; [lia|]. split; [cbn; lia|]. split; [done|]. split; [split; [done|exact (proj2 Hd2)]|done].
Qed.

Lemma halted_ran pins L r c budget has_stats h1 c1 reason s m :
  hybrid_wf r -> hybrid_accepted r c budget h1 c1 ->
  halted pins L (hs_core (hybrid_entered r h1 c1 has_stats)) budget has_stats reason s m ->
  let r1 := HybridRuntime (hs_core s) (hs_arm s) (hs_x64 s) in
  hybrid_wf r1 /\ hybrid_ran r c budget reason r1 (hs_context s) /\
  core_kept (hr_core r) (hr_core r1) /\ yi_reason (hy_last_stop (hr_core r1)) = reason /\
  hs_stats s = (if has_stats then Some (hy_stats (hr_core r1)) else None).
Proof.
  intros [] (Hb0 & Hmax & Hc1 & (g & ->) & Hl & Hf & Hd & Hn) [[] Hr Hst Hrun Hstats Hdep Hgen Hacc Hres Hdone] r1.
  assert (core_kept (hr_core r) (hs_core s)) as Hk by exact co_core.
  pose proof Hk as (Hkm & Hkc & _). destruct co_arm as (? & ? & ? & Ha1 & Ha2 & ?).
  destruct co_x64 as (? & ? & Hx1 & Hx2). cbn in Ha1, Ha2, Hx1, Hx2.
  split.
  { split; try done; cbn [r1 hr_core hr_arm hr_x64]; try by rewrite Hkc.
    - by eapply core_meta_kept.
    - split_and!; try done; by rewrite Hkc.
    - split_and!; try done; by rewrite Hkc. }
  split; [|done]. split; cbn [r1 hr_core]; try done.
  - intros Hne. destruct (Hacc Hne) as [Hbal Hdeep]. unfold balance, deep_enough in *. cbn in Hbal, Hd.
    rewrite Hdep. split; [|done]. rewrite <- Hd. revert Hbal. unfold wrap64. Z.to_euclidean_division_equations. lia.
  - intros Hn1 Hn2. destruct (Hres Hn1 Hn2) as [Hl' Hf']. split; [apply Hl'|]. by apply context_valid_fits.
  - intros E. destruct (Hdone E) as (Hz & Hpc & Hik). split; [done|]. split; [|done]. rewrite Hpc. exact Hn.
Qed.

(** Whatever the entry checks decide, on a context that exists. *)
Lemma hybrid_run_inside pins L rounds fuel r c budget has_stats m :
  (forall b, 0 <= pins b) -> st pins L m -> hybrid_wf r -> is_u64 budget -> context_wf c ->
  match gem_hybrid_runtime_run rounds fuel (Some r) (Some c) budget has_stats m with
  | Fault => False
  | Err _ => True
  | Ok (None, _) =>
    yc_boundary_delivery (hy_config (hr_core r)) = GEM_ARM64EC_BOUNDARY_SVC_TRAP \/ Z.of_nat rounds < 4 * budget + 4
  | Ok (Some (reason, r', c', stats), m') =>
    st pins L m' /\ exists r1, r' = Some r1 /\ hybrid_wf r1 /\ core_kept (hr_core r) (hr_core r1) /\
      yi_reason (hy_last_stop (hr_core r1)) = reason /\
      ((hybrid_refused r (Some c) reason r1 c' /\ m' = m /\ stats = if has_stats then Some stats_zero else None) \/
       (exists d, c' = Some d /\ hybrid_ran r c budget reason r1 d /\
          stats = if has_stats then Some (hy_stats (hr_core r1)) else None))
  end.
Proof.
  intros Hp Hst Hwf Hb Hc.
  destruct (run_entry rounds fuel r c budget has_stats m Hwf Hc) as [E|[[e E]|(h1 & c1 & Ha & E)]]; rewrite E; [|done|].
  { assert (hybrid_refused r (Some c) GEM_STOP_INVARIANT_VIOLATION
      (HybridRuntime (record_broker_stop (hr_core r) GEM_STOP_INVARIANT_VIOLATION) (hr_arm r) (hr_x64 r))
      (Some (with_stop_reason c GEM_STOP_INVARIANT_VIOLATION))) as Hr by done.
    split; [done|]. eexists. split; [done|]. split; [by apply (refused_wf _ _ _ _ _ Hwf Hr)|]. split; [done|].
    split; [done|]. by left. }
  set (live := yc_boundary_delivery (hy_config (hr_core r)) = GEM_ARM64EC_BOUNDARY_SVC_TRAP \/ Z.of_nat rounds < 4 * budget + 4).
  pose proof Ha as (_ & Hmax & _ & (g & Hg) & Hl & _).
  assert (hy_config h1 = hy_config (hr_core r)) as Hcfg by by rewrite Hg.
  pose proof (entered_ready pins L r c budget has_stats h1 c1 m Hwf Hb Hst Ha) as Hready.
  set (s0 := hybrid_entered r h1 c1 has_stats) in *.
  pose proof (kwp_hybrid_loop pins L Hp (hs_core s0) budget has_stats) as Hloop.
  specialize (Hloop ltac:(destruct Hwf as [[Hm1 Hm2]]; subst h1; by split)).
  specialize (Hloop ltac:(change (hy_config (hs_core s0)) with (hy_config h1); rewrite Hcfg; apply Hwf) Hb).
  specialize (Hloop ltac:(change (hy_config (hs_core s0)) with (hy_config h1); by rewrite Hcfg) live).
  specialize (Hloop ltac:(change (hy_config (hs_core s0)) with (hy_config h1); rewrite Hcfg; intros; by left)).
  specialize (Hloop rounds fuel budget s0 m Hready).
  assert (measure budget (hs_core s0) < Z.of_nat rounds \/ live) as Hm.
  { pose proof (measure_bound budget (hs_core s0) ltac:(unfold is_u64 in Hb; lia) (lo_shape _ (rd_live _ _ _ _ _ _ _ _ Hready))).
    unfold live. destruct (Z.lt_ge_cases (Z.of_nat rounds) (4 * budget + 4)); [by right; right|left; lia]. }
  specialize (Hloop Hm). apply kwp_body in Hloop. unfold mbind, M_bind.
  destruct (body (hybrid_loop rounds fuel budget) s0 m) as [[[[reason s]|] m']| |]; [|done..].
  destruct (halted_ran _ _ _ _ _ _ _ _ _ _ _ Hwf Ha Hloop) as (Hwf1 & Hran & Hk & Hr & Hs).
  split; [exact (co_memory _ _ _ _ _ _ _ (ha_common _ _ _ _ _ _ _ _ Hloop))|].
  eexists. split; [done|]. split; [exact Hwf1|]. split; [done|]. split; [done|]. right. by eexists.
Qed.

(** C14: whatever the two engines do, a run of the coordinator never reaches
    undefined behaviour, keeps reference counts exact and changes no
    reservation.  A refused run leaves memory, the engines and the transition
    frames alone and only records the refusal.  Otherwise the two engines
    together retire at most [budget] instructions; the frames are pushed and
    popped as a stack of depth two at most, and the statistics account for every
    change of depth; a run that stops for anything but an invariant violation
    or the return to the native caller leaves a coordinator and a context with
    which the next run is accepted; an architecture transition is reported only
    when control has reached the native caller of the first run, and then no
    frame is left.  The reason is the recorded one, and the object is well
    formed again in every case.  With precise delivery the loop ends within
    [4 * budget + 4] rounds. *)
Theorem hybrid_run_contract pins rounds fuel r (c : option gem_thread_context) budget has_stats m :
  (forall b, 0 <= pins b) -> inv pins m -> hybrid_wf r -> is_u64 budget -> (forall d, c = Some d -> context_wf d) ->
  match gem_hybrid_runtime_run rounds fuel (Some r) c budget has_stats m with
  | Fault => False
  | Err _ => True
  | Ok (None, _) =>
    yc_boundary_delivery (hy_config (hr_core r)) = GEM_ARM64EC_BOUNDARY_SVC_TRAP \/ Z.of_nat rounds < 4 * budget + 4
  | Ok (Some (reason, r', c', stats), m') =>
    inv pins m' /\ layout m' = layout m /\
    exists r1, r' = Some r1 /\ hybrid_wf r1 /\ core_kept (hr_core r) (hr_core r1) /\
      yi_reason (hy_last_stop (hr_core r1)) = reason /\
      ((hybrid_refused r c reason r1 c' /\ m' = m /\ stats = if has_stats then Some stats_zero else None) \/
       (exists c0 d, c = Some c0 /\ c' = Some d /\ hybrid_ran r c0 budget reason r1 d /\
          stats = if has_stats then Some (hy_stats (hr_core r1)) else None))
  end.
Proof.
  intros Hp Hinv Hwf Hb Hc. destruct (inv_layout _ _ Hinv) as [Hst HL]. destruct c as [c|].
  - pose proof (hybrid_run_inside pins (layout m) rounds fuel r c budget has_stats m Hp Hst Hwf Hb (Hc c eq_refl)) as H.
    destruct (gem_hybrid_runtime_run _ _ _ _ _ _ m) as [[[[[[reason r'] c'] stats]|] m']| |]; [|done..].
    destruct H as (Hst' & r1 & -> & Hwf1 & Hk & Hr & Hout).
    split; [by exists (layout m)|]. split; [by apply (st_layout pins)|]. exists r1. do 4 (split; [done|]).
    destruct Hout as [Hout|(d & -> & Hran & Hs)]; [by left|]. right. by exists c, d.
  - split; [done|]. split; [done|]. eexists. split; [done|].
    assert (hybrid_refused r None GEM_STOP_INVARIANT_VIOLATION
      (HybridRuntime (record_broker_stop (hr_core r) GEM_STOP_INVARIANT_VIOLATION) (hr_arm r) (hr_x64 r)) None) as Hr by done.
    split; [by apply (refused_wf _ _ _ _ _ Hwf Hr)|]. do 2 (split; [done|]). by left.
Qed.
End contract.

(** ** The object that a creation returns *)

Section create.
Context {platform : Platform} {dynarmic : Dynarmic} {blink : Blink} {allocator : Allocator}.

Lemma map_create_ok mapped im base block :
  image_ok mapped im -> is_u64 base ->
  match gem_arm64ec_target_map_create block (Some im) base true with Ok map => map_ok map | Err _ => True | Fault => False end.
Proof.
  intros Him Hb. unfold gem_arm64ec_target_map_create. rewrite bool_decide_eq_false_2 by done. cbn [orb negb].
  destruct block; [|done].
  cbn [negb orb gem_pe_arm64x_get_summary map_err mbind result_bind]. pose proof (ok_size _ _ Him) as Hs.
  rewrite (proj2 (Z.eqb_neq _ _)) by lia. unfold add_u64, is_u64 in *.
  destruct (Z.ltb_spec (UINT64_MAX - size_of_image (i_summary im)) base); [done|].
  rewrite (clone_correct mapped im Him).
  destruct (_ && _); cbn; [|done]. unfold map_ok, is_u64. cbn. split; [by exists mapped|]. split; [done|]. lia.
Qed.

(** The ARM64EC engine as the creation configures it. *)
Definition arm_created (config : gem_hybrid_runtime_config) (arm : gem_arm64ec_runtime (S := hybrid_core)) : Prop :=
  metadata_ok arm /\ Forall is_u128 (ar_native_upper_simd arm) /\ ar_running arm = false /\
  ac_max_transitions (ar_config arm) = 0 /\ ac_max_budget (ar_config arm) = yc_max_budget config /\
  ac_execution_profile (ar_config arm) = GEM_ARM64EC_PROFILE_STRICT /\
  ac_boundary_delivery (ar_config arm) = yc_boundary_delivery config.

Variables (pins : bid -> Z) (L : gmap Z (Z * Z)).

Lemma arm_create_triple (config : gem_hybrid_runtime_config) :
  triple (st pins L) (gem_arm64ec_runtime_create (S := hybrid_core) true (Some (Arm64ecConfig GEM_HYBRID_INTERNAL_HOST_RETURN
      0xffffffffffffffe0 (yc_max_budget config) 0 GEM_ARM64EC_PROFILE_STRICT (yc_boundary_delivery config))))
    (fun r m => st pins L m /\ forall arm, r = Some arm -> arm_created config arm).
Proof.
  unfold gem_arm64ec_runtime_create. cbn [negb]. eapply triple_bind; [apply alloc_triple|].
  intros [u|]; [|by apply triple_ret]. destruct (arm64ec_configure _) as [c|] eqn:Hc; [|by apply triple_ret].
  unfold arm64ec_configure in Hc. cbn in Hc. destruct (_ || _); [done|]. injection Hc as <-.
  unfold gem_arm64ec_dynarmic_create. eapply (triple_bind _ _ _ (fun x m => st pins L m /\ (x.1 = true -> arm_created config x.2))).
  - eapply triple_bind; [apply alloc_triple|]. intros p. apply triple_ret. intros m Hm. split; [done|].
    destruct p as [u'|]; [|done]. destruct (jit_new _) as [[core cpu]|]; [|done]. intros _.
    split; [by split|]. split; [|by split_and!]. change (Forall is_u128 (replicate 16 u128_zero)).
    apply Forall_replicate. by vm_compute.
  - intros [ok arm]. apply triple_ret. intros m [Hm Ho]. split; [done|]. destruct ok; [|done]. intros arm' [= <-]. by apply Ho.
Qed.

Lemma x64_create_triple config arriving :
  triple (st pins L) (gem_x64_runtime_create true (Some config) arriving) (fun r m => st pins L m /\ forall x64,
    r = Some x64 -> xr_transaction x64 = None /\ xr_running x64 = false /\ xr_backend_failed x64 = false /\
      x64_configure (Some config) = Some (xr_config x64)).
Proof.
  unfold gem_x64_runtime_create. cbn [negb]. eapply triple_bind; [apply alloc_triple|].
  intros [u|]; [|by apply triple_ret]. destruct (x64_configure _) as [c|] eqn:Hc; [|by apply triple_ret].
  destruct (gem_x64_blink_create c); apply triple_ret; intros m Hm; (split; [done|]); [|done]. by intros x64 [= <-].
Qed.

(** Attaching the image and the resolver. *)
Lemma arm_attach mapped im config arm base block :
  image_ok mapped im -> is_u64 base -> arm_created config arm ->
  match gem_arm64ec_runtime_attach_arm64x block (Some arm) (Some im) base with
  | Ok (_, arm') => exists arm1, arm' = Some arm1 /\ arm_created config arm1
  | Err _ => True
  | Fault => False
  end.
Proof.
  intros Him Hb Harm. pose proof Harm as (Hm & Hu & Hr & Ht & Hx & Hprof & Hd).
  unfold gem_arm64ec_runtime_attach_arm64x, is_strict.
  rewrite Hr, Hprof. cbn [orb negb]. rewrite bool_decide_eq_false_2 by done. cbn [orb].
  pose proof (map_create_ok mapped im base block Him Hb) as Hmap.
  destruct (gem_arm64ec_target_map_create _ _ _ _) as [map|e|]; [|cbn; by exists arm|done].
  assert (forall b, arm_created config (set_ar_backend (set_ar_target_map arm (Some map)) b)) as Hset.
  { intros b. destruct Hm as [Hm1 Hm2]. split; [|by split_and!]. split; [|done]. intros map'. cbn. by intros [= <-]. }
  assert (arm_created config (set_ar_target_map arm (Some map))) as Hset0 by exact (Hset (ar_backend arm)).
  unfold gem_arm64ec_dynarmic_invalidate_code. cbn [ar_backend set_ar_target_map].
  cbn [ar_config].
  destruct (ar_backend arm) as [b|]; [|cbn; by eexists].
  destruct (_ =? 0); [cbn; by eexists|]. destruct (jit_new _) as [[core cpu]|]; [|done]. cbn. by eexists.
Qed.

Lemma arm_resolver config arm f opaque :
  arm_created config arm -> resolver_ok f ->
  exists ok arm1, gem_arm64ec_runtime_set_target_resolver (Some arm) (Some f) opaque = (ok, Some arm1) /\ arm_created config arm1.
Proof.
  intros Harm Hf. pose proof Harm as ([Hm _] & Hrest). unfold gem_arm64ec_runtime_set_target_resolver.
  destruct (_ || _); [by eexists _, _|]. eexists _, _. split; [done|]. split; [|done]. split; [done|]. intros f'. cbn. by intros [= <-].
Qed.

Lemma arm_created_fits config arm broker h :
  arm_created config arm -> hy_config h = config -> broker = Some hybrid_boundary ->
  arm_fits h (set_ar_boundary_broker arm broker).
Proof.
  intros (Hm & Hu & Hr & Ht & Hx & Hprof & Hd) <- ->. split; [|split_and!; try done].
  - split; [done|done|]. intros _. unfold is_native. cbn. by rewrite Hprof.
  - unfold is_svc_trap. cbn. by rewrite Hd.
Qed.

(** What a creation returns. *)
Definition hybrid_created (config : gem_hybrid_runtime_config) (has_memory : bool) (r : option gem_hybrid_runtime) (m : mem) : Prop :=
  st pins L m /\ forall r1, r = Some r1 ->
    hybrid_wf r1 /\ hy_config (hr_core r1) = config /\ hybrid_config_ok config = true /\ has_memory = true /\
    gem_hybrid_runtime_coordinator_active (Some r1) = false /\ gem_hybrid_runtime_last_stop_info (Some r1) true = None.

Lemma create_triple mapped im config blocks has_memory arriving arriving_x64 :
  image_ok mapped im -> is_u64 (yc_loaded_base config) -> is_u64 (yc_x64_return_sentinel config) ->
  is_u64 (yc_max_budget config) -> (forall f, yc_target_resolver config = Some f -> resolver_ok f) ->
  triple (st pins L) (gem_hybrid_runtime_create blocks has_memory (Some im) (Some config) arriving arriving_x64)
    (hybrid_created config has_memory).
Proof.
  intros Him Hbase Hsent Hmax Hres.
  unfold gem_hybrid_runtime_create. destruct has_memory; [|by apply triple_ret].
  rewrite bool_decide_eq_false_2 by done. cbn [negb orb].
  destruct (hybrid_config_ok config) eqn:Hok; [|by apply triple_ret]. cbn [negb].
  eapply triple_bind; [apply alloc_triple|]. intros p.
  eapply triple_bind; [apply target_call_triple; destruct p; [|done]; pose proof (map_create_ok mapped im (yc_loaded_base config) blocks.1 Him Hbase); by destruct (gem_arm64ec_target_map_create _ _ _ _)|].
  intros [e|map]; [by apply triple_ret; intros m [Hm _]|]. apply triple_pre. intros m0 [Hm0 Hmap].
  assert (map_ok map) as Hmapok.
  { specialize (Hmap _ eq_refl). destruct p; [|done]. pose proof (map_create_ok mapped im (yc_loaded_base config) blocks.1 Him Hbase) as H.
    by rewrite Hmap in H. }
  eapply triple_bind; [eapply triple_conseq; [apply arm_create_triple|by intros m ->|intros ? ? Hq; exact Hq]|].
  intros [arm|]; [|by apply triple_ret; intros m [Hm _]]. apply triple_pre. intros m1 [Hm1 Harm]. specialize (Harm _ eq_refl).
  pose proof (arm_attach mapped im config arm (yc_loaded_base config) blocks.2 Him Hbase Harm) as Hatt.
  destruct (gem_arm64ec_runtime_attach_arm64x _ _ _ _) as [[[] arm']| |]; [|by apply triple_ret; intros m ->|by intros m _|done].
  destruct Hatt as (arm1 & -> & Harm1).
  assert (exists ok arm2, match yc_target_resolver config with
    | Some f => gem_arm64ec_runtime_set_target_resolver (Some arm1) (Some f) (yc_target_resolver_opaque config)
    | None => (true, Some arm1) end = (ok, Some arm2) /\ arm_created config arm2) as (ok & arm2 & -> & Harm2).
  { destruct (yc_target_resolver config) as [f|]; [|by eexists _, _]. apply arm_resolver; auto. }
  cbn [gem_arm64ec_runtime_set_boundary_broker]. rewrite (proj1 (proj2 (proj2 Harm2))). cbn [negb orb].
  rewrite orb_false_r. destruct ok; [|by apply triple_ret; intros m ->]. cbn [negb].
  eapply triple_bind; [eapply triple_conseq; [apply x64_create_triple|by intros m ->|intros ? ? Hq; exact Hq]|].
  intros [x64|]; [|by apply triple_ret; intros m [Hm _]]. apply triple_ret. intros m [Hm Hx]. split; [done|].
  destruct (Hx _ eq_refl) as (Hx1 & Hx2 & Hx3 & Hx4). intros r1 [= <-]. split; [|by split_and!].
  assert (xc_max_budget (xr_config x64) = yc_max_budget config /\
    xc_host_return_sentinel (xr_config x64) = yc_x64_return_sentinel config) as [Hxm Hxs].
  { unfold x64_configure in Hx4. cbn in Hx4. assert (yc_x64_return_sentinel config <> 0) as Hne.
    { intros E. unfold hybrid_config_ok in Hok. rewrite E in Hok. cbn in Hok. rewrite !orb_true_r in Hok. cbn in Hok.
      by rewrite ?orb_true_r in Hok. }
    apply Z.eqb_neq in Hne. rewrite Hne in Hx4. by injection Hx4 as <-. }
  split; cbn [hr_core hr_arm hr_x64 hy_config hy_generation hy_running hy_generic]; try done; [split; [|done]| |by left].
  - intros map'. cbn. by intros [= <-].
  - by apply (arm_created_fits config).
Qed.

(** C24: what a successful creation returns is well formed, from a parsed image and a
    configuration whose fields fit their C types: the two engines are configured
    as the coordinator needs them, the broker is the coordinator's, no frame
    exists, and the contract of a run applies to it.  The creation itself never
    reaches undefined behaviour and keeps every reference. *)
Theorem hybrid_create_wf mapped im config blocks has_memory arriving arriving_x64 m :
  st pins L m -> image_ok mapped im -> is_u64 (yc_loaded_base config) -> is_u64 (yc_x64_return_sentinel config) ->
  is_u64 (yc_max_budget config) -> (forall f, yc_target_resolver config = Some f -> resolver_ok f) ->
  match gem_hybrid_runtime_create blocks has_memory (Some im) (Some config) arriving arriving_x64 m with
  | Fault => False
  | Err _ => True
  | Ok (r, m') => hybrid_created config has_memory r m'
  end.
Proof.
  intros Hm Him Hbase Hsent Hmax Hres. by apply (create_triple mapped im config).
Qed.
End create.

(** ** Asynchronous stops *)

Section async.
Context {platform : Platform} {dynarmic : Dynarmic} {blink : Blink}.
Implicit Types (r : gem_hybrid_runtime) (c d : gem_thread_context).

Lemma round_async fuel remaining (s : hybrid_state) m :
  af_value (hy_async_stop_requested (hs_core s)) = true ->
  exists s', hybrid_round fuel remaining s m = Ok (Some (inl GEM_STOP_ASYNC_REQUEST, s'), m) /\
    hs_arm s' = hs_arm s /\ hs_x64 s' = hs_x64 s /\ hy_stats (hs_core s') = set_rs_final_frame_depth
      (hy_stats (hs_core s)) (gs_depth (hy_generic (hs_core s))) /\
    hy_generic (hs_core s') = hy_generic (hs_core s) /\
    hs_context s' = with_stop_reason (hs_context s) GEM_STOP_ASYNC_REQUEST /\
    yi_reason (hy_last_stop (hs_core s')) = GEM_STOP_ASYNC_REQUEST /\
    hy_async_stop_requested (hs_core s') = (exchange_false (hy_async_stop_requested (hs_core s))).2.
Proof.
  destruct s as [h arm x64 c st]. destruct h as [? ? ? ? ? ? ? ? ? ? ? ? ? [v l]]. cbn. intros ->.
  eexists (HybridState _ _ _ _ _). split; [reflexivity|]. cbn. split_and!; reflexivity.
Qed.

(** C25: a stop requested at any time before a run is honoured by that run before
    any guest code: it returns at once with the request as its reason, memory and
    both engines are untouched, nothing is retired, the request is consumed, and
    the coordinator and its frames stay for the next run - or the entry checks
    refuse the run and the request stays pending. *)
Theorem hybrid_async_stops rounds fuel r c budget has_stats m :
  hybrid_wf r -> context_wf c ->
  match gem_hybrid_runtime_run (S rounds) fuel (gem_hybrid_runtime_request_async_stop (Some r)) (Some c) budget has_stats m with
  | Fault => False
  | Err _ => True
  | Ok (None, _) => False
  | Ok (Some (reason, r', c', _), m') =>
    m' = m /\ exists r1 d, r' = Some r1 /\ c' = Some d /\ hr_arm r1 = hr_arm r /\ hr_x64 r1 = hr_x64 r /\
      c_stop_reason d = stop_value reason /\ yi_reason (hy_last_stop (hr_core r1)) = reason /\
      ((reason = GEM_STOP_INVARIANT_VIOLATION /\ hy_generic (hr_core r1) = hy_generic (hr_core r) /\
        af_value (hy_async_stop_requested (hr_core r1)) = true) \/
       (reason = GEM_STOP_ASYNC_REQUEST /\ af_value (hy_async_stop_requested (hr_core r1)) = false /\
        gs_active (hy_generic (hr_core r1)) = true /\ gs_depth (hy_generic (hr_core r1)) = gs_depth (hy_generic (hr_core r)) /\
        rs_arm64ec_instructions_retired (hy_stats (hr_core r1)) = 0 /\
        rs_x64_instructions_retired (hy_stats (hr_core r1)) = 0))
  end.
Proof.
  intros Hwf Hc. cbn [gem_hybrid_runtime_request_async_stop fmap option_fmap option_map]. set (r2 := HybridRuntime _ _ _).
  assert (hybrid_wf r2) as Hwf2 by (destruct Hwf; by split).
  destruct (run_entry (S rounds) fuel r2 c budget has_stats m Hwf2 Hc) as [E|[[e E]|(h1 & c1 & Ha & E)]]; rewrite E; [|done|].
  { split; [done|]. eexists _, _. do 6 (split; [done|]). left. done. }
  destruct Ha as (_ & _ & _ & (g & ->) & Hl & _ & Hd & _).
  destruct (round_async fuel budget (hybrid_entered r2 (set_hy_generic (hr_core r2) g) c1 has_stats) m eq_refl)
    as (s' & Es & H1 & H2 & H3 & H4 & H5 & Hr & H6).
  unfold mbind, M_bind, body. cbn [hybrid_loop]. unfold mbind, K_bind, M_bind. unfold mbind. rewrite Es. cbn.
  split; [done|]. eexists _, _. do 2 (split; [done|]). cbn [hr_core hr_arm hr_x64].
  split; [by rewrite H1|]. split; [by rewrite H2|]. rewrite H3, H4, H5, H6. do 2 (split; [done|]). right.
  split; [done|]. split; [done|]. split; [apply Hl|]. split; [exact Hd|done].
Qed.
End async.

(** ** A concrete crossing *)

(** Every x64 instruction is a return to the coordinator's sentinel. *)
Definition return_step (s : blink_gem_state) : blink_run (unit * blink_gem_result * blink_gem_state) :=
  BlinkReturn (tt, BlinkResult BLINK_GEM_RETIRED 1 0 0 0 0,
    BlinkState (<[4%nat := s_gpr s !!! 4%nat + 8]> (s_gpr s)) 0x300000 (s_rflags s) (s_xmm s) (s_mxcsr s) (s_fcw s)
      (s_fsw s) (s_x87 s) (s_gs_base s) (s_fs_base s) (s_ftw s) (s_fip s) (s_fdp s) (s_fcs s) (s_fds s) (s_fop s)
      (s_segments s)).
Definition returning : Blink :=
  {| blink_machine := unit;
     blink_gem_machine_create_with_config _ _ := Some tt;
     blink_gem_machine_step _ := return_step;
     blink_gem_machine_run _ _ := return_step;
     blink_gem_machine_sync g := BlinkReturn g;
     blink_gem_machine_decode_attempt_info _ := Some (DecodeAttempt true BLINK_GEM_HANDLER_OP_RET "OpRet");
     blink_gem_machine_invalidate_code _ _ _ := (true, tt);
     blink_gem_machine_trace_reset g := g |}.

(** x64 code at 0x140001000, ARM64EC code at 0x10000; the call dispatcher comes
    after the first instruction. *)
Definition hop_resolve : target_resolve_fn := fun va =>
  if (0x140001000 <=? va) && (va <? 0x140002000) then Ok (TargetResult va va 0 0 GEM_ARM64EC_TARGET_X64_BOUNDARY 0)
  else if (0x10000 <=? va) && (va <? 0x20000) then Ok (TargetResult va va 0 0 GEM_ARM64EC_TARGET_ARM64EC 0)
  else Err GEM_ARM64EC_TARGET_OUTSIDE_IMAGE.
Definition hop_config : gem_hybrid_runtime_config :=
  HybridConfig 1 GEM_ARM64EC_BOUNDARY_PRECISE 0x100000000 0x18000 0x10004 0 0x18010 0x300000 0x400000 100
    (Some hop_resolve) true.
Definition hop_create : result unit (option (gem_hybrid_runtime (dynarmic := tiny) (blink := returning)) * mem) :=
  gem_hybrid_runtime_create (platform := littered 0) (dynarmic := tiny) (blink := returning) (allocator := generous)
    (true, true) true (Some sample_image) (Some hop_config) [] [] tiny_memory.
Definition hop_context : gem_thread_context :=
  ThreadContext 1 720 (<[0%nat := 0x20000]> (<[8%nat := 77]> (<[9%nat := 0x140001000]>
      (<[18%nat := 0x7000]> (<[30%nat := 0x10008]> (replicate 31 0)))))) 0x20100 0x10000 0 0 0 0
    (replicate 16 u128_zero) 0x246 0x1f80 0x37f 0 (replicate 8 u128_zero) 0x7000 0 0 GEM_ISA_ARM64EC 0.

(** The reason, what the engines retired, pushes and pops, the greatest and the
    final depth, the program counter, x0, and the byte that was incremented. *)
Definition hop_result (out : result unit (option (gem_stop_reason *
      option (gem_hybrid_runtime (dynarmic := tiny) (blink := returning)) * option gem_thread_context *
      option gem_hybrid_roundtrip_stats) * mem)) :=
  match out with
  | Ok (Some (reason, Some r, Some c, Some s), m) =>
      Some (reason, (rs_arm64ec_instructions_retired s, rs_x64_instructions_retired s),
        (rs_frame_pushes s, rs_frame_pops s, rs_maximum_frame_depth s, rs_final_frame_depth s),
        (c_pc c, xreg c 0), view m 0x20000 ≫= head)
  | _ => None
  end.
Definition hop_run (budget : Z) :=
  match hop_create with
  | Ok (Some r, m) => hop_result (gem_hybrid_runtime_run (platform := littered 0) (dynarmic := tiny) (blink := returning)
                                    204 0 (Some r) (Some hop_context) budget true m)
  | _ => None
  end.

Lemma hop_resolver_ok : resolver_ok hop_resolve.
Proof.
  intros va Hva. unfold hop_resolve. destruct (_ && _); [exact Hva|]. destruct (_ && _); [exact Hva|done].
Qed.

Lemma hop_created :
  exists r m, hop_create = Ok (Some r, m) /\ hybrid_wf (platform := littered 0) r /\ inv no_pins m /\
    gem_hybrid_runtime_last_stop_info (Some r) true = None.
Proof.
  destruct (inv_layout _ _ tiny_memory_inv) as [Hst HL].
  pose proof (create_triple (platform := littered 0) (dynarmic := tiny) (blink := returning) (allocator := generous)
    no_pins (layout tiny_memory) false sample_image hop_config (true, true) true [] [] sample_ok
    ltac:(by vm_compute) ltac:(by vm_compute) ltac:(by vm_compute)
    ltac:(intros f [= <-]; apply hop_resolver_ok) tiny_memory Hst) as H.
  change (match hop_create with Ok (r, m) => hybrid_created (platform := littered 0) no_pins (layout tiny_memory) hop_config true r m
    | Err _ => True | Fault => False end) in H.
  assert (match hop_create with Ok (Some _, _) => true | _ => false end = true) as E by (vm_compute; reflexivity).
  destruct hop_create as [[[r|] m]| |]; try discriminate E. exists r, m.
  destruct H as [Hm H]. destruct (H r eq_refl) as (Hwf & _ & _ & _ & _ & Hs).
  split; [done|]. split; [done|]. split; [|done]. by exists (layout tiny_memory).
Qed.

Lemma hybrid_create_wf_witness :
  exists r m, hop_create = Ok (Some r, m) /\ hybrid_created (platform := littered 0) no_pins (layout tiny_memory) hop_config true (Some r) m.
Proof.
  destruct (inv_layout _ _ tiny_memory_inv) as [Hst HL].
  pose proof (hybrid_create_wf (platform := littered 0) (dynarmic := tiny) (blink := returning) (allocator := generous)
    no_pins (layout tiny_memory) false sample_image hop_config (true, true) true [] [] tiny_memory Hst sample_ok
    ltac:(by vm_compute) ltac:(by vm_compute) ltac:(by vm_compute) ltac:(intros f [= <-]; apply hop_resolver_ok)) as H.
  assert (match hop_create with Ok (Some _, _) => true | _ => false end = true) as E by (vm_compute; reflexivity).
  unfold hop_create in *. destruct (gem_hybrid_runtime_create _ _ _ _ _ _ _) as [[[r|] m]| |]; try discriminate E.
  exists r, m. split; [reflexivity|exact H].
Defined.

(** The thread goes from ARM64EC to x64 and back to its native caller. *)
Lemma hybrid_run_contract_witness :
  hop_run 50 = Some (GEM_STOP_ARCH_TRANSITION, (1, 1), (1, 1, 1, 0), (0x10008, 77), Some 1) /\
  hop_run 1 = Some (GEM_STOP_BUDGET_EXPIRED, (1, 0), (0, 0, 0, 0), (0x10004, 0x20000), Some 1) /\
  exists r m r1 d s m1, hop_create = Ok (Some r, m) /\
    gem_hybrid_runtime_run (platform := littered 0) (dynarmic := tiny) (blink := returning) 204 0 (Some r)
      (Some hop_context) 50 true m = Ok (Some (GEM_STOP_ARCH_TRANSITION, Some r1, Some d, Some s), m1) /\
    inv no_pins m1 /\ hybrid_wf (platform := littered 0) r1 /\ hy_generic (hr_core r1) = generic_state_zero.
Proof.
  assert (hop_run 50 = Some (GEM_STOP_ARCH_TRANSITION, (1, 1), (1, 1, 1, 0), (0x10008, 77), Some 1)) as E50
    by (vm_compute; reflexivity).
  split; [exact E50|]. split; [vm_compute; reflexivity|].
  destruct hop_created as (r & m & Hcr & Hwf & Hm & _). exists r, m.
  unfold hop_run in E50. rewrite Hcr in E50.
  pose proof (hybrid_run_contract (platform := littered 0) (dynarmic := tiny) (blink := returning) no_pins 204 0 r
    (Some hop_context) 50 true m no_pins_nonneg Hm Hwf ltac:(clear; by vm_compute)) as H.
  destruct (gem_hybrid_runtime_run _ _ _ _ _ _ m) as [[[[[[reason [r1|]] [d|]] [s|]]|] m1]| |]; try discriminate E50.
  cbn in E50. injection E50 as -> _. exists r1, d, s, m1. split; [exact Hcr|]. split; [reflexivity|].
  destruct H as (Hm1 & _ & r2 & [= <-] & Hwf1 & _ & _ & Hcase).
  - intros d' [= <-]. apply (bool_decide_unpack _). vm_compute. exact I.
  - split; [exact Hm1|]. split; [exact Hwf1|].
    destruct Hcase as [[[[=] _] _]|(c0 & d' & _ & _ & Hran & _)]. by apply (hn_done _ _ _ _ _ _ Hran).
Defined.

Lemma hybrid_async_stops_witness :
  exists r m, hop_create = Ok (Some r, m) /\
    match gem_hybrid_runtime_run (platform := littered 0) (dynarmic := tiny) (blink := returning) 1 0
      (gem_hybrid_runtime_request_async_stop (Some r)) (Some hop_context) 50 true m with
    | Ok (Some (GEM_STOP_ASYNC_REQUEST, Some r1, Some d, _), m1) => m1 = m /\ c_pc d = 0x10000 /\ hr_x64 r1 = hr_x64 r
    | _ => False
    end.
Proof.
  destruct hop_created as (r & m & Hcr & Hwf & Hm & _). exists r, m. split; [exact Hcr|].
  assert (match hop_create with
    | Ok (Some r, m) => hop_result (gem_hybrid_runtime_run (platform := littered 0) (dynarmic := tiny) (blink := returning)
        1 0 (gem_hybrid_runtime_request_async_stop (Some r)) (Some hop_context) 50 true m)
    | _ => None end = Some (GEM_STOP_ASYNC_REQUEST, (0, 0), (0, 0, 0, 0), (0x10000, 0x20000), Some 0)) as E
    by (vm_compute; reflexivity). rewrite Hcr in E.
  pose proof (hybrid_async_stops (platform := littered 0) (dynarmic := tiny) (blink := returning) 0 0 r hop_context 50 true m Hwf
    ltac:(apply (bool_decide_unpack _); vm_compute; exact I)) as H.
  destruct (gem_hybrid_runtime_run _ _ _ _ _ _ m) as [[[[[[reason [r1|]] [d|]] [s|]]|] m1]| |]; try discriminate E.
  cbn in E. injection E as -> _ _ _ _ _ _ Hpc _. destruct H as (-> & r2 & d2 & [= <-] & [= <-] & _ & Hx & _).
  split; [reflexivity|]. split; [exact Hpc|exact Hx].
Defined.
