(* ===== verification/Wine.v ===== *)
(** Wine: the bridge between Wine and GEM (src/gem/wine_bridge.c and
    include/metalsharp/gem/wine_bridge.h): a process with its guest memory, its
    registered ARM64X images and its threads, the calls that change them, and the
    run of a thread, which chooses an engine for each slice of the budget and
    hands the stops that Wine must serve to a boundary callback.

    A call is a body over the process and guest memory.  A pointer to a thread or
    an image is the number of the allocation that made it.  A run is cut where the
    code is outside GEM or holds no lock but the run lock: [wine_round] is what
    happens from one such point to the next, and the callback itself is whatever
    comes between two rounds - calls of the same host thread, nested runs
    included, and calls of others ([wine_step], at the end of the file). *)
From S2P Require Import Prelude Context MemoryModel Memory I386Memory Transaction Pe Target.
From S2P Require Import Blink X64Engine I386Engine Control Dynarmic Arm64ecEngine Hybrid.

(** ** Constants and enums *)

Definition GEM_WINE_BRIDGE_ABI_VERSION : Z := 1.
Definition GEM_WINE_PROCESS_CONFIG_VERSION : Z := 1.
Definition GEM_WINE_THREAD_CONFIG_VERSION : Z := 1.
Definition GEM_WINE_BOUNDARY_ABI_VERSION : Z := 1.
Definition GEM_WINE_RUN_RESULT_VERSION : Z := 1.
Definition GEM_WINE_ARM64X_CONFIG_VERSION : Z := 1.
Definition GEM_WINE_X86_64_CONFIG_VERSION : Z := 1.
Definition GEM_WINE_I386_CONFIG_VERSION : Z := 1.
Definition GEM_WINE_I386_THREAD_CONFIG_VERSION : Z := 1.
Definition GEM_WINE_NATIVE_UNIX_CALL_SVC : Z := 0x5749.
Definition GEM_WINE_ARM64X_FLAG_SVC_BOUNDARIES : Z := 1.
Definition GEM_WINE_ARM64X_FLAG_DEFER_ROUTING : Z := 2.
Definition GEM_WINE_X86_64_FLAG_INTERPRETER_ORACLE : Z := 1.
Definition GEM_WINE_I386_FLAG_INTERPRETER_ORACLE : Z := 1.
Definition GEM_WINE_X86_64_SYSCALL_DISPATCH_ADDRESS : Z := 0x7ffe1000.

(** [sizeof] of the structures with a [struct_size]. *)
Definition SIZEOF_PROCESS_CONFIG : Z := 80.
Definition SIZEOF_ARM64X_CONFIG : Z := 88.
Definition SIZEOF_X86_64_CONFIG : Z := 72.
Definition SIZEOF_I386_CONFIG : Z := 48.
Definition SIZEOF_THREAD_CONFIG : Z := 64.
Definition SIZEOF_BOUNDARY_REQUEST : Z := 776.
Definition SIZEOF_BOUNDARY_RESPONSE : Z := 736.
Definition SIZEOF_I386_BOUNDARY_REQUEST : Z := 504.
Definition SIZEOF_I386_BOUNDARY_RESPONSE : Z := 464.
Definition SIZEOF_RUN_RESULT : Z := 88.

Inductive gem_wine_status : Type :=
  | GEM_WINE_OK
  | GEM_WINE_INVALID_ARGUMENT
  | GEM_WINE_NO_MEMORY
  | GEM_WINE_CONFLICT
  | GEM_WINE_MEMORY_ERROR
  | GEM_WINE_ENGINE_ERROR
  | GEM_WINE_CALLBACK_ERROR
  | GEM_WINE_BUDGET_EXPIRED
  | GEM_WINE_STOPPED
  | GEM_WINE_TERMINATED.
#[export] Instance gem_wine_status_eq_dec : EqDecision gem_wine_status.
Proof. solve_decision. Defined.

(** [gem_wine_status_name], on the enum's integer. *)
Definition wine_status_names : list string :=
  ["ok"; "invalid-argument"; "no-memory"; "conflict"; "memory-error"; "engine-error";
   "callback-error"; "budget-expired"; "stopped"; "terminated"]%string.
Definition gem_wine_status_name (status : Z) : string :=
  if wrap32 status <? 10 then wine_status_names !!! Z.to_nat (wrap32 status) else "invalid"%string.

Definition GEM_WINE_EVENT_SYSCALL : Z := 1.
Definition GEM_WINE_EVENT_UNIX_CALL : Z := 2.
Definition GEM_WINE_EVENT_MEMORY_FAULT : Z := 3.
Definition GEM_WINE_EVENT_WINDOWS_EXCEPTION : Z := 4.
Definition GEM_WINE_EVENT_ARCH_TRANSITION : Z := 5.
Definition GEM_WINE_EVENT_ASYNC_REQUEST : Z := 6.
Definition GEM_WINE_EVENT_UNSUPPORTED_INSTRUCTION : Z := 7.
Definition GEM_WINE_EVENT_INVARIANT_VIOLATION : Z := 8.

Definition GEM_WINE_BOUNDARY_RESUME : Z := 1.
Definition GEM_WINE_BOUNDARY_TERMINATE : Z := 2.
Definition GEM_WINE_BOUNDARY_FAIL : Z := 3.

Definition GEM_WINE_RUN_COMPLETE : Z := 1.
Definition GEM_WINE_RUN_TERMINATED : Z := 2.
Definition GEM_WINE_RUN_BUDGET_EXPIRED : Z := 3.
Definition GEM_WINE_RUN_UNHANDLED_STOP : Z := 4.
Definition GEM_WINE_RUN_FAILED : Z := 5.

(** ** Configurations *)

Record gem_wine_process_config : Type := ProcessConfig {
  pc_version : Z;
  pc_struct_size : Z;
  pc_segment_instruction_budget : Z;
  pc_total_instruction_budget : Z;
  pc_max_boundary_callbacks : Z;
  pc_host_return_sentinel : Z;
  pc_unix_call_dispatcher : Z;
  pc_reserved : list Z }.

Record gem_wine_arm64x_config : Type := Arm64xConfig {
  wa_version : Z;
  wa_struct_size : Z;
  wa_loaded_base : Z;
  wa_image_size : Z;
  wa_checker_helper : Z;
  wa_dispatch_call_helper : Z;
  wa_dispatch_jump_helper : Z;
  wa_dispatch_ret_helper : Z;
  wa_flags : Z;
  wa_reserved : list Z }.
#[export] Instance gem_wine_arm64x_config_eq_dec : EqDecision gem_wine_arm64x_config.
Proof. solve_decision. Defined.

Record gem_wine_x86_64_config : Type := X86_64Config {
  wx_version : Z;
  wx_struct_size : Z;
  wx_loaded_base : Z;
  wx_image_size : Z;
  wx_windows_syscall_boundary : Z;
  wx_unix_call_boundary : Z;
  wx_flags : Z;
  wx_reserved : list Z }.
#[export] Instance gem_wine_x86_64_config_eq_dec : EqDecision gem_wine_x86_64_config.
Proof. solve_decision. Defined.
Definition x86_64_config_zero : gem_wine_x86_64_config := X86_64Config 0 0 0 0 0 0 0 (replicate 3 0).

Record gem_wine_i386_config : Type := WineI386Config {
  wi_version : Z;
  wi_struct_size : Z;
  wi_loaded_base : Z;
  wi_image_size : Z;
  wi_windows_syscall_boundary : Z;
  wi_unix_call_boundary : Z;
  wi_host_return_sentinel : Z;
  wi_flags : Z;
  wi_reserved : list Z }.
#[export] Instance gem_wine_i386_config_eq_dec : EqDecision gem_wine_i386_config.
Proof. solve_decision. Defined.
Definition wine_i386_config_zero : gem_wine_i386_config := WineI386Config 0 0 0 0 0 0 0 0 (replicate 4 0).

(** [tc_boundary] says whether the callback is non-NULL. *)
Record gem_wine_thread_config : Type := ThreadConfig {
  tc_version : Z;
  tc_struct_size : Z;
  tc_teb : Z;
  tc_boundary : bool;
  tc_reserved : list Z }.
Definition thread_config_zero : gem_wine_thread_config := ThreadConfig 0 0 0 false (replicate 4 0).

Record gem_wine_i386_thread_config : Type := I386ThreadConfig {
  ti_version : Z;
  ti_struct_size : Z;
  ti_teb : Z;
  ti_reserved0 : Z;
  ti_boundary : bool;
  ti_reserved : list Z }.
Definition i386_thread_config_zero : gem_wine_i386_thread_config :=
  I386ThreadConfig 0 0 0 0 false (replicate 4 0).

(** ** Stops, results, requests *)

Record gem_wine_stop_info : Type := WineStopInfo {
  ws_reason : Z;
  ws_access : Z;
  ws_memory_error : Z;
  ws_engine_status : Z;
  ws_instructions_retired : Z;
  ws_fault_address : Z }.
Definition wine_stop_zero : gem_wine_stop_info := WineStopInfo 0 0 0 0 0 0.

Record gem_wine_run_result : Type := RunResult {
  rr_version : Z;
  rr_struct_size : Z;
  rr_outcome : Z;
  rr_last_event : Z;
  rr_stop_reason : Z;
  rr_exit_status : Z;
  rr_instructions_retired : Z;
  rr_boundary_callbacks : Z;
  rr_stop : gem_wine_stop_info }.

Definition set_rr_outcome (r : gem_wine_run_result) (v : Z) : gem_wine_run_result :=
  RunResult (rr_version r) (rr_struct_size r) v (rr_last_event r) (rr_stop_reason r) (rr_exit_status r)
    (rr_instructions_retired r) (rr_boundary_callbacks r) (rr_stop r).
Definition set_rr_last_event (r : gem_wine_run_result) (v : Z) : gem_wine_run_result :=
  RunResult (rr_version r) (rr_struct_size r) (rr_outcome r) v (rr_stop_reason r) (rr_exit_status r)
    (rr_instructions_retired r) (rr_boundary_callbacks r) (rr_stop r).
Definition set_rr_stop_reason (r : gem_wine_run_result) (v : Z) : gem_wine_run_result :=
  RunResult (rr_version r) (rr_struct_size r) (rr_outcome r) (rr_last_event r) v (rr_exit_status r)
    (rr_instructions_retired r) (rr_boundary_callbacks r) (rr_stop r).
Definition set_rr_exit_status (r : gem_wine_run_result) (v : Z) : gem_wine_run_result :=
  RunResult (rr_version r) (rr_struct_size r) (rr_outcome r) (rr_last_event r) (rr_stop_reason r) v
    (rr_instructions_retired r) (rr_boundary_callbacks r) (rr_stop r).
Definition set_rr_instructions_retired (r : gem_wine_run_result) (v : Z) : gem_wine_run_result :=
  RunResult (rr_version r) (rr_struct_size r) (rr_outcome r) (rr_last_event r) (rr_stop_reason r)
    (rr_exit_status r) v (rr_boundary_callbacks r) (rr_stop r).
Definition set_rr_boundary_callbacks (r : gem_wine_run_result) (v : Z) : gem_wine_run_result :=
  RunResult (rr_version r) (rr_struct_size r) (rr_outcome r) (rr_last_event r) (rr_stop_reason r)
    (rr_exit_status r) (rr_instructions_retired r) v (rr_stop r).
Definition set_rr_stop (r : gem_wine_run_result) (v : gem_wine_stop_info) : gem_wine_run_result :=
  RunResult (rr_version r) (rr_struct_size r) (rr_outcome r) (rr_last_event r) (rr_stop_reason r)
    (rr_exit_status r) (rr_instructions_retired r) (rr_boundary_callbacks r) v.

Definition initialize_result : gem_wine_run_result :=
  RunResult GEM_WINE_RUN_RESULT_VERSION SIZEOF_RUN_RESULT GEM_WINE_RUN_FAILED 0 0 0 0 0 wine_stop_zero.

(** [struct gem_wine_boundary_request] and [..._response], for a context of type
    [C]: [gem_thread_context] or [gem_i386_context]. *)
Record gem_wine_boundary_request (C : Type) : Type := BoundaryRequest {
  bq_version : Z;
  bq_struct_size : Z;
  bq_event : Z;
  bq_context : C;
  bq_stop : gem_wine_stop_info }.
Record gem_wine_boundary_response (C : Type) : Type := BoundaryResponse {
  bp_version : Z;
  bp_struct_size : Z;
  bp_action : Z;
  bp_exit_status : Z;
  bp_context : C }.
Arguments BoundaryRequest {C}.
Arguments bq_version {C}.
Arguments bq_struct_size {C}.
Arguments bq_event {C}.
Arguments bq_context {C}.
Arguments bq_stop {C}.
Arguments BoundaryResponse {C}.
Arguments bp_version {C}.
Arguments bp_struct_size {C}.
Arguments bp_action {C}.
Arguments bp_exit_status {C}.
Arguments bp_context {C}.

(** [zero_dwords] and [zero_words] *)
Definition zero_words (words : list Z) : bool := forallb (Z.eqb 0) words.

Definition memory_status (error : gem_memory_error) : gem_wine_status :=
  match error with
  | GEM_MEMORY_OK => GEM_WINE_OK
  | GEM_MEMORY_INVALID_ARGUMENT | GEM_MEMORY_OVERFLOW => GEM_WINE_INVALID_ARGUMENT
  | GEM_MEMORY_NO_MEMORY => GEM_WINE_NO_MEMORY
  | GEM_MEMORY_CONFLICT => GEM_WINE_CONFLICT
  | _ => GEM_WINE_MEMORY_ERROR
  end.

Definition copy_stop_info (s : gem_arm64ec_stop_info) : gem_wine_stop_info :=
  WineStopInfo (stop_value (ai_reason s)) (ai_access s) (ai_memory_error s) (ai_engine_status s)
    (ai_instructions_retired s) (ai_fault_address s).
Definition copy_x64_stop_info (s : gem_x64_stop_info) : gem_wine_stop_info :=
  WineStopInfo (stop_value (xs_reason s)) (xs_access s) (xs_memory_error s) (xs_engine_status s)
    (xs_instructions_retired s) (xs_fault_address s).
Definition copy_i386_stop_info (s : gem_i386_stop_info) : gem_wine_stop_info :=
  WineStopInfo (stop_value (is_reason s)) (is_access s) (is_memory_error s) (is_engine_status s)
    (is_instructions_retired s) (is_fault_address s).
Definition copy_hybrid_stop_info (s : gem_hybrid_stop_info) (retired : Z) : gem_wine_stop_info :=
  let reason := stop_value (yi_reason s) in
  match yi_source s with
  | GEM_HYBRID_STOP_SOURCE_ARM64EC =>
      let i := yi_arm64ec s in
      WineStopInfo reason (ai_access i) (ai_memory_error i) (ai_engine_status i) retired (ai_fault_address i)
  | GEM_HYBRID_STOP_SOURCE_X64 =>
      let i := yi_x64 s in
      WineStopInfo reason (xs_access i) (xs_memory_error i) (xs_engine_status i) retired (xs_fault_address i)
  | GEM_HYBRID_STOP_SOURCE_BROKER =>
      let i := yi_arm64ec s in
      WineStopInfo reason 0 0 (ai_engine_status i) retired (ai_fault_address i)
  end.

(** ** Images *)

(** [wm_id] stands for the address of the object. *)
Record gem_wine_arm64x_image : Type := WineImage {
  wm_id : nat;
  wm_metadata : image;
  wm_map : target_map;
  wm_summary : pe_summary;
  wm_config : gem_wine_arm64x_config;
  wm_loaded_end : Z }.

Definition covers (pc : Z) (im : gem_wine_arm64x_image) : bool :=
  (wa_loaded_base (wm_config im) <=? pc) && (pc <? wm_loaded_end im).

(** The walk of [process->images]. *)
Definition find_image_for_pc (images : list gem_wine_arm64x_image) (pc : Z) : option gem_wine_arm64x_image :=
  List.find (covers pc) images.

(** [process_target_resolve], on the images of the process behind [opaque]. *)
Definition process_target_resolve (images : list gem_wine_arm64x_image) : target_resolve_fn := fun requested_va =>
  match find_image_for_pc images requested_va with
  | Some im => gem_arm64ec_target_resolve (Some (wm_map im)) requested_va true
  | None => Err GEM_ARM64EC_TARGET_OUTSIDE_IMAGE
  end.

Section wine.
Context {platform : Platform} {dynarmic : Dynarmic} {blink : Blink} {allocator : Allocator}.

(** The broker of a thread's native runtime; its opaque value is what it reads of
    the process. *)
Definition native_image_boundary : boundary_fn (list gem_wine_arm64x_image) := fun pc c out_kind images =>
  match find_image_for_pc images pc with
  | None => mret (GEM_ARM64EC_BOUNDARY_NOT_HANDLED, out_kind, c, images)
  | Some im =>
      t ← target_call (gem_arm64ec_target_resolve (Some (wm_map im)) pc true);
      mret (match t with
            | inr _ => (GEM_ARM64EC_BOUNDARY_STOP, GEM_ARM64EC_BOUNDARY_DISPATCH_CALL, c, images)
            | inl _ => (GEM_ARM64EC_BOUNDARY_FAIL, GEM_ARM64EC_BOUNDARY_DISPATCH_CALL, c, images)
            end)
  end.

(** ** Threads and the process *)

Notation native_runtime := (gem_arm64ec_runtime (S := list gem_wine_arm64x_image)).

Record gem_wine_hybrid_binding : Type := HybridBinding {
  wb_image : nat;
  wb_runtime : gem_hybrid_runtime }.

(** A binding is named by its image.  [run_lock] is the thread that holds it and
    how often; [runtime_lock] is free whenever a call or a round ends. *)
Record gem_wine_thread : Type := WineThread {
  wt_runtime : option native_runtime;
  wt_x64_runtime : option gem_x64_runtime;
  wt_i386_runtime : option gem_i386_runtime;
  wt_hybrids : list gem_wine_hybrid_binding;
  wt_coordinator_hybrid : option nat;
  wt_active_hybrid : option nat;
  wt_config : gem_wine_thread_config;
  wt_i386_config : gem_wine_i386_thread_config;
  wt_i386_thread : bool;
  wt_run_lock : option (nat * nat) }.

Definition set_wt_runtime (t : gem_wine_thread) (v : option native_runtime) : gem_wine_thread :=
  WineThread v (wt_x64_runtime t) (wt_i386_runtime t) (wt_hybrids t) (wt_coordinator_hybrid t)
    (wt_active_hybrid t) (wt_config t) (wt_i386_config t) (wt_i386_thread t) (wt_run_lock t).
Definition set_wt_x64_runtime (t : gem_wine_thread) (v : option gem_x64_runtime) : gem_wine_thread :=
  WineThread (wt_runtime t) v (wt_i386_runtime t) (wt_hybrids t) (wt_coordinator_hybrid t)
    (wt_active_hybrid t) (wt_config t) (wt_i386_config t) (wt_i386_thread t) (wt_run_lock t).
Definition set_wt_i386_runtime (t : gem_wine_thread) (v : option gem_i386_runtime) : gem_wine_thread :=
  WineThread (wt_runtime t) (wt_x64_runtime t) v (wt_hybrids t) (wt_coordinator_hybrid t)
    (wt_active_hybrid t) (wt_config t) (wt_i386_config t) (wt_i386_thread t) (wt_run_lock t).
Definition set_wt_hybrids (t : gem_wine_thread) (v : list gem_wine_hybrid_binding) : gem_wine_thread :=
  WineThread (wt_runtime t) (wt_x64_runtime t) (wt_i386_runtime t) v (wt_coordinator_hybrid t)
    (wt_active_hybrid t) (wt_config t) (wt_i386_config t) (wt_i386_thread t) (wt_run_lock t).
Definition set_wt_coordinator_hybrid (t : gem_wine_thread) (v : option nat) : gem_wine_thread :=
  WineThread (wt_runtime t) (wt_x64_runtime t) (wt_i386_runtime t) (wt_hybrids t) v
    (wt_active_hybrid t) (wt_config t) (wt_i386_config t) (wt_i386_thread t) (wt_run_lock t).
Definition set_wt_active_hybrid (t : gem_wine_thread) (v : option nat) : gem_wine_thread :=
  WineThread (wt_runtime t) (wt_x64_runtime t) (wt_i386_runtime t) (wt_hybrids t) (wt_coordinator_hybrid t)
    v (wt_config t) (wt_i386_config t) (wt_i386_thread t) (wt_run_lock t).
Definition set_wt_run_lock (t : gem_wine_thread) (v : option (nat * nat)) : gem_wine_thread :=
  WineThread (wt_runtime t) (wt_x64_runtime t) (wt_i386_runtime t) (wt_hybrids t) (wt_coordinator_hybrid t)
    (wt_active_hybrid t) (wt_config t) (wt_i386_config t) (wt_i386_thread t) v.

(** The bindings as a map from images to runtimes. *)
Fixpoint binding_of (image : nat) (l : list gem_wine_hybrid_binding) : option gem_hybrid_runtime :=
  match l with
  | [] => None
  | b :: l => if (wb_image b =? image)%nat then Some (wb_runtime b) else binding_of image l
  end.
Fixpoint bind_runtime (image : nat) (r : gem_hybrid_runtime) (l : list gem_wine_hybrid_binding)
  : list gem_wine_hybrid_binding :=
  match l with
  | [] => []
  | b :: l => if (wb_image b =? image)%nat then HybridBinding image r :: l else b :: bind_runtime image r l
  end.

Record gem_wine_process : Type := WineProcess {
  wp_config : gem_wine_process_config;
  wp_threads : list (nat * gem_wine_thread);
  wp_images : list gem_wine_arm64x_image;
  wp_arm64x_routing_enabled : bool;
  wp_x86_64_routing_enabled : bool;
  wp_i386_routing_enabled : bool;
  wp_x86_64_config : gem_wine_x86_64_config;
  wp_i386_config : gem_wine_i386_config }.

Definition set_wp_threads (p : gem_wine_process) (v : list (nat * gem_wine_thread)) : gem_wine_process :=
  WineProcess (wp_config p) v (wp_images p) (wp_arm64x_routing_enabled p) (wp_x86_64_routing_enabled p)
    (wp_i386_routing_enabled p) (wp_x86_64_config p) (wp_i386_config p).
Definition set_wp_images (p : gem_wine_process) (v : list gem_wine_arm64x_image) : gem_wine_process :=
  WineProcess (wp_config p) (wp_threads p) v (wp_arm64x_routing_enabled p) (wp_x86_64_routing_enabled p)
    (wp_i386_routing_enabled p) (wp_x86_64_config p) (wp_i386_config p).
Definition enable_arm64x (p : gem_wine_process) : gem_wine_process :=
  WineProcess (wp_config p) (wp_threads p) (wp_images p) true (wp_x86_64_routing_enabled p)
    (wp_i386_routing_enabled p) (wp_x86_64_config p) (wp_i386_config p).
Definition enable_x86_64 (p : gem_wine_process) (c : gem_wine_x86_64_config) : gem_wine_process :=
  WineProcess (wp_config p) (wp_threads p) (wp_images p) (wp_arm64x_routing_enabled p) true
    (wp_i386_routing_enabled p) c (wp_i386_config p).
Definition enable_i386 (p : gem_wine_process) (c : gem_wine_i386_config) : gem_wine_process :=
  WineProcess (wp_config p) (wp_threads p) (wp_images p) (wp_arm64x_routing_enabled p)
    (wp_x86_64_routing_enabled p) true (wp_x86_64_config p) c.

Fixpoint thread_at (tid : nat) (l : list (nat * gem_wine_thread)) : option gem_wine_thread :=
  match l with
  | [] => None
  | (i, t) :: l => if (i =? tid)%nat then Some t else thread_at tid l
  end.
Fixpoint put_thread_at (tid : nat) (t : gem_wine_thread) (l : list (nat * gem_wine_thread))
  : list (nat * gem_wine_thread) :=
  match l with
  | [] => []
  | (i, u) :: l => if (i =? tid)%nat then (i, t) :: l else (i, u) :: put_thread_at tid t l
  end.
Definition remove_thread (tid : nat) (l : list (nat * gem_wine_thread)) : list (nat * gem_wine_thread) :=
  List.filter (fun '(i, _) => negb (i =? tid)%nat) l.
Definition put_thread (tid : nat) (t : gem_wine_thread) (p : gem_wine_process) : gem_wine_process :=
  set_wp_threads p (put_thread_at tid t (wp_threads p)).

(** A call on the process; NULL is refused by every one of them. *)
Notation Br := (K gem_wine_process gem_wine_status).
Notation wine_outcome := (option (gem_wine_status * option gem_wine_process)).

Definition on_process (p : option gem_wine_process) (k : Br gem_wine_status) : M wine_outcome :=
  match p with
  | None => mret (Some (GEM_WINE_INVALID_ARGUMENT, None))
  | Some p => out ← body k p; mret (match out with Some (status, p) => Some (status, Some p) | None => None end)
  end.

(** A thread behind a pointer that is not NULL. *)
Definition deref_thread (tid : nat) : Br gem_wine_thread :=
  t ← gets (fun p => thread_at tid (wp_threads p));
  match t with Some t => mret t | None => lift fault end.

(** A call of memory.c whose error becomes the status. *)
Definition memory_call (f : option mem -> result unit (gem_memory_error * option mem)) : Br gem_wine_status :=
  e ← lift (in_memory f); mret (memory_status e).

Definition process_guest_range_valid (p : gem_wine_process) (address size : Z) : bool :=
  if (size =? 0) || (UINT64_MAX - size <? address) then false
  else if negb (wp_i386_routing_enabled p) then true
  else (address <? 0x100000000) && (size <=? 0x100000000 - address).

(** [read_guest]: the bytes, when the read succeeds. *)
Definition read_guest (address n : Z) : M (option (list Z)) :=
  '(e, b) ← in_memory (fun m => gem_memory_read m address (Some (replicate (Z.to_nat n) 0)) n);
  mret (if bool_decide (e = GEM_MEMORY_OK) then b else None).
(** [memcpy(&x, bytes + offset, n)] *)
Definition header_field (bytes : list Z) (offset n : nat) : Z := le_value (take n (drop offset bytes)).

(** ** The headers of ntdll *)

(** The DOS and NT headers of an image, the latter of [n] bytes. *)
Definition read_headers (loaded_base image_size n : Z) : M (option (list Z)) :=
  dos ← read_guest loaded_base 64;
  match dos with
  | None => mret None
  | Some dos =>
    if negb (header_field dos 0 2 =? 0x5a4d) then mret None
    else
      let pe_offset := header_field dos 60 4 in
      if (pe_offset <? 64) || (image_size - n <? pe_offset) then mret None
      else read_guest (loaded_base + pe_offset) n
  end.

(** What both validations ask of the NT headers. *)
Definition nt_headers_ok (nt : list Z) (machine optional_size magic image_size : Z) : bool :=
  (header_field nt 0 4 =? 0x4550) && (header_field nt 4 2 =? machine) && negb (header_field nt 6 2 =? 0) &&
  (optional_size <=? header_field nt 20 2) && (header_field nt 24 2 =? magic) &&
  (header_field nt 80 4 =? image_size) && (64 <=? header_field nt 84 4) &&
  (header_field nt 84 4 <=? header_field nt 80 4).

Definition validate_x86_64_ntdll (c : gem_wine_x86_64_config) : M bool :=
  let base := wx_loaded_base c in
  let size := wx_image_size c in
  if has_bits base (GEM_GUEST_PAGE_SIZE - 1) || (size <? GEM_GUEST_PAGE_SIZE) ||
     has_bits size (GEM_GUEST_PAGE_SIZE - 1) || (UINT64_MAX <? base + size) ||
     (wx_windows_syscall_boundary c <? base) || (base + size <=? wx_windows_syscall_boundary c) ||
     (wx_unix_call_boundary c <? base) || (base + size <=? wx_unix_call_boundary c) ||
     (wx_windows_syscall_boundary c =? wx_unix_call_boundary c)
  then mret false
  else
    nt ← read_headers base size 264;
    mret (match nt with Some nt => nt_headers_ok nt 0x8664 0xf0 0x20b size | None => false end).

Definition validate_i386_ntdll (c : gem_wine_i386_config) : M bool :=
  let base := wi_loaded_base c in
  let size := wi_image_size c in
  if (base =? 0) || has_bits base (GEM_GUEST_PAGE_SIZE - 1) || (size <? GEM_GUEST_PAGE_SIZE) ||
     has_bits size (GEM_GUEST_PAGE_SIZE - 1) || (0x100000000 <? base + size) ||
     (wi_windows_syscall_boundary c =? 0) || (wi_unix_call_boundary c =? 0) ||
     (wi_windows_syscall_boundary c =? wi_unix_call_boundary c) || (wi_host_return_sentinel c =? 0) ||
     (wi_host_return_sentinel c =? wi_windows_syscall_boundary c) ||
     (wi_host_return_sentinel c =? wi_unix_call_boundary c)
  then mret false
  else
    nt ← read_headers base size 248;
    mret (match nt with Some nt => nt_headers_ok nt 0x14c 0xe0 0x10b size | None => false end).

(** [install_x86_64_dispatcher_page]; [old_protection] starts at zero. *)
Definition install_x86_64_dispatcher_page (c : gem_wine_x86_64_config) : M gem_wine_status :=
  let page := GEM_WINE_X86_64_SYSCALL_DISPATCH_ADDRESS in
  '(error, address) ← in_memory (fun m => gem_memory_reserve m (Some page) GEM_GUEST_PAGE_SIZE);
  let address := default 0 address in
  if negb (bool_decide (error = GEM_MEMORY_OK)) || negb (address =? page)
  then mret (if bool_decide (error = GEM_MEMORY_OK) then GEM_WINE_MEMORY_ERROR else memory_status error)
  else
    error ← in_memory (fun m => gem_memory_commit m address GEM_GUEST_PAGE_SIZE GEM_PAGE_READWRITE);
    error ← (if bool_decide (error = GEM_MEMORY_OK) then
               '(error, _) ← in_memory (fun m => gem_memory_write m address
                  (Some (le_bytes 8 (wx_windows_syscall_boundary c))) 8); mret error
             else mret error);
    '(error, old) ← (if bool_decide (error = GEM_MEMORY_OK)
                     then in_memory (fun m => gem_memory_protect m address GEM_GUEST_PAGE_SIZE GEM_PAGE_READONLY (Some 0))
                     else mret (error, Some 0));
    if negb (bool_decide (error = GEM_MEMORY_OK)) || negb (default 0 old =? GEM_PAGE_READWRITE) then
      in_memory (fun m => gem_memory_release m address GEM_GUEST_PAGE_SIZE);;
      mret (if bool_decide (error = GEM_MEMORY_OK) then GEM_WINE_MEMORY_ERROR else memory_status error)
    else mret GEM_WINE_OK.

(** ** Processes *)

Definition process_config_ok (c : gem_wine_process_config) : bool :=
  (pc_version c =? GEM_WINE_PROCESS_CONFIG_VERSION) && (pc_struct_size c =? SIZEOF_PROCESS_CONFIG) &&
  negb (pc_segment_instruction_budget c =? 0) &&
  (pc_segment_instruction_budget c <=? pc_total_instruction_budget c) &&
  negb (pc_max_boundary_callbacks c =? 0) && negb (pc_host_return_sentinel c =? 0) &&
  negb (pc_host_return_sentinel c =? pc_unix_call_dispatcher c) && zero_words (pc_reserved c).

(** [block] says whether [calloc] succeeds, [locks] whether both locks can be
    made, [host] is the memory of the host. *)
Definition gem_wine_process_create (block locks : bool) (host : gmap Z (list Z))
    (config : option gem_wine_process_config) (has_out : bool)
  : result unit (gem_wine_status * option (gem_wine_process * mem)) :=
  match config with
  | None => Ok (GEM_WINE_INVALID_ARGUMENT, None)
  | Some c =>
    if negb has_out || negb (process_config_ok c) then Ok (GEM_WINE_INVALID_ARGUMENT, None)
    else if negb block then Ok (GEM_WINE_NO_MEMORY, None)
    else if negb locks then Ok (GEM_WINE_ENGINE_ERROR, None)
    else
      '(memory, _) ← gem_memory_create host;
      Ok (match memory with
          | None => (GEM_WINE_NO_MEMORY, None)
          | Some m => (GEM_WINE_OK, Some (WineProcess c [] [] false false false x86_64_config_zero wine_i386_config_zero, m))
          end)
  end.

(** The process that is left: none when it is destroyed. *)
Definition gem_wine_process_destroy (p : option (gem_wine_process * mem))
  : result unit (gem_wine_status * option (gem_wine_process * mem)) :=
  match p with
  | None => Ok (GEM_WINE_INVALID_ARGUMENT, None)
  | Some (p, m) =>
    match wp_threads p with
    | _ :: _ => Ok (GEM_WINE_CONFLICT, Some (p, m))
    | [] => gem_memory_destroy (Some m);; Ok (GEM_WINE_OK, None)
    end
  end.

(** The walk over the threads that gives each native runtime the broker; it ends
    at the first that refuses. *)
Fixpoint route_threads (l : list (nat * gem_wine_thread)) : bool * list (nat * gem_wine_thread) :=
  match l with
  | [] => (true, [])
  | (i, t) :: l =>
    let '(accepted, r) := gem_arm64ec_runtime_set_boundary_broker (wt_runtime t) (Some native_image_boundary) in
    let t := set_wt_runtime t r in
    if negb accepted then (false, (i, t) :: l)
    else let '(ok, l) := route_threads l in (ok, (i, t) :: l)
  end.

Definition prepare_arm64ec : Br gem_wine_status :=
  p ← gets id;
  when (wp_x86_64_routing_enabled p || wp_i386_routing_enabled p) (return_ GEM_WINE_CONFLICT);;
  modify enable_arm64x;;
  let '(ok, threads) := route_threads (wp_threads p) in
  modify (fun p => set_wp_threads p threads);;
  mret (if (ok : bool) then GEM_WINE_OK else GEM_WINE_ENGINE_ERROR).
Definition gem_wine_process_prepare_arm64ec (p : option gem_wine_process) : M wine_outcome :=
  on_process p prepare_arm64ec.

Definition x86_64_config_ok (c : gem_wine_x86_64_config) : bool :=
  (wx_version c =? GEM_WINE_X86_64_CONFIG_VERSION) && (wx_struct_size c =? SIZEOF_X86_64_CONFIG) &&
  negb (has_bits (wx_flags c) (Z.lnot GEM_WINE_X86_64_FLAG_INTERPRETER_ORACLE)) && zero_words (wx_reserved c).

Definition prepare_x86_64 (c : gem_wine_x86_64_config) : Br gem_wine_status :=
  when (negb (x86_64_config_ok c)) (return_ GEM_WINE_INVALID_ARGUMENT);;
  valid ← lift (validate_x86_64_ntdll c);
  when (negb valid) (return_ GEM_WINE_INVALID_ARGUMENT);;
  p ← gets id;
  if wp_arm64x_routing_enabled p || wp_i386_routing_enabled p then mret GEM_WINE_CONFLICT
  else if wp_x86_64_routing_enabled p
  then mret (if bool_decide (wp_x86_64_config p = c) then GEM_WINE_OK else GEM_WINE_CONFLICT)
  else
    status ← lift (install_x86_64_dispatcher_page c);
    when (bool_decide (status = GEM_WINE_OK)) (modify (fun p => enable_x86_64 p c));;
    mret status.
Definition gem_wine_process_prepare_x86_64 (p : option gem_wine_process)
    (config : option gem_wine_x86_64_config) : M wine_outcome :=
  on_process p (match config with Some c => prepare_x86_64 c | None => mret GEM_WINE_INVALID_ARGUMENT end).

Definition i386_config_ok (c : gem_wine_i386_config) : bool :=
  (wi_version c =? GEM_WINE_I386_CONFIG_VERSION) && (wi_struct_size c =? SIZEOF_I386_CONFIG) &&
  negb (has_bits (wi_flags c) (Z.lnot GEM_WINE_I386_FLAG_INTERPRETER_ORACLE)) && zero_words (wi_reserved c).

Definition prepare_i386 (c : gem_wine_i386_config) : Br gem_wine_status :=
  when (negb (i386_config_ok c)) (return_ GEM_WINE_INVALID_ARGUMENT);;
  valid ← lift (validate_i386_ntdll c);
  when (negb valid) (return_ GEM_WINE_INVALID_ARGUMENT);;
  p ← gets id;
  if negb (bool_decide (length (wp_threads p) = 0%nat)) || wp_arm64x_routing_enabled p || wp_x86_64_routing_enabled p
  then mret GEM_WINE_CONFLICT
  else if wp_i386_routing_enabled p
  then mret (if bool_decide (wp_i386_config p = c) then GEM_WINE_OK else GEM_WINE_CONFLICT)
  else modify (fun p => enable_i386 p c);; mret GEM_WINE_OK.
Definition gem_wine_process_prepare_i386 (p : option gem_wine_process)
    (config : option gem_wine_i386_config) : M wine_outcome :=
  on_process p (match config with Some c => prepare_i386 c | None => mret GEM_WINE_INVALID_ARGUMENT end).

(** ** Registering an image *)

Definition arm64x_config_ok (c : gem_wine_arm64x_config) : bool :=
  let jump := negb (wa_dispatch_jump_helper c =? 0) in
  let bad :=
    negb (wa_version c =? GEM_WINE_ARM64X_CONFIG_VERSION) || negb (wa_struct_size c =? SIZEOF_ARM64X_CONFIG) ||
    (wa_loaded_base c =? 0) || (wa_image_size c =? 0) || (SIZE_MAX <? wa_image_size c) ||
    (UINT64_MAX - wa_image_size c <? wa_loaded_base c) || (wa_checker_helper c =? 0) ||
    (wa_dispatch_call_helper c =? 0) || (wa_dispatch_ret_helper c =? 0) ||
    (wa_checker_helper c =? wa_dispatch_call_helper c) || (wa_checker_helper c =? wa_dispatch_ret_helper c) ||
    (wa_dispatch_call_helper c =? wa_dispatch_ret_helper c) ||
    (jump && ((wa_dispatch_jump_helper c =? wa_checker_helper c) ||
              (wa_dispatch_jump_helper c =? wa_dispatch_call_helper c) ||
              (wa_dispatch_jump_helper c =? wa_dispatch_ret_helper c))) ||
    has_bits (wa_flags c) (Z.lnot (GEM_WINE_ARM64X_FLAG_SVC_BOUNDARIES .| GEM_WINE_ARM64X_FLAG_DEFER_ROUTING)) ||
    negb (zero_words (wa_reserved c)) in
  negb bad.

(** What the registration keeps of the image at [loaded_base], whose bytes are
    [mapped]; [block] says whether the allocation of the map succeeds.  The error
    is the status that is returned. *)
Definition load_arm64x (block : bool) (mapped : list Z) (c : gem_wine_arm64x_config)
  : result gem_wine_status (image * pe_summary * target_map) :=
  let base := wa_loaded_base c in
  metadata ← map_err (fun e => if bool_decide (e = GEM_PE_ERROR_LIMIT_EXCEEDED) then GEM_WINE_NO_MEMORY
                               else GEM_WINE_INVALID_ARGUMENT)
    (gem_pe_arm64x_parse_mapped (Some mapped) (wa_image_size c) base None true);
  summary ← map_err (fun _ => GEM_WINE_INVALID_ARGUMENT) (gem_pe_arm64x_get_summary (Some metadata) true);
  require (size_of_image summary =? wa_image_size c) GEM_WINE_INVALID_ARGUMENT;;
  map ← map_err (fun _ => GEM_WINE_INVALID_ARGUMENT)
    (gem_arm64ec_target_map_create block (Some metadata) base true);
  Ok (metadata, summary, map).

(** A configuration as it is stored, without the flag of the call. *)
Definition stored_config (c : gem_wine_arm64x_config) : gem_wine_arm64x_config :=
  Arm64xConfig (wa_version c) (wa_struct_size c) (wa_loaded_base c) (wa_image_size c) (wa_checker_helper c)
    (wa_dispatch_call_helper c) (wa_dispatch_jump_helper c) (wa_dispatch_ret_helper c)
    (wa_flags c .&~ GEM_WINE_ARM64X_FLAG_DEFER_ROUTING) (wa_reserved c).

Definition overlaps (im current : gem_wine_arm64x_image) : bool :=
  (wa_loaded_base (wm_config im) <? wm_loaded_end current) &&
  (wa_loaded_base (wm_config current) <? wm_loaded_end im).

(** The end of both successful paths. *)
Definition finish_registration (c : gem_wine_arm64x_config) : Br gem_wine_status :=
  if has_bits (wa_flags c) GEM_WINE_ARM64X_FLAG_DEFER_ROUTING then mret GEM_WINE_OK else prepare_arm64ec.

(** [address] is that of the object, when it can be allocated. *)
Definition register_arm64x_mapped (address : nat) (block : bool) (mapped : list Z) (c : gem_wine_arm64x_config)
  : Br gem_wine_status :=
  when (negb (arm64x_config_ok c)) (return_ GEM_WINE_INVALID_ARGUMENT);;
  object ← lift alloc;
  match object with
  | None => mret GEM_WINE_NO_MEMORY
  | Some _ =>
    match load_arm64x block mapped c with
    | Fault => lift fault
    | Err status => mret status
    | Ok (metadata, summary, map) =>
      let im := WineImage address metadata map summary (stored_config c) (wa_loaded_base c + wa_image_size c) in
      p ← gets id;
      match List.find (overlaps im) (wp_images p) with
      | Some current =>
        if (wa_loaded_base (wm_config current) =? wa_loaded_base c) &&
           (wm_loaded_end current =? wm_loaded_end im) && bool_decide (wm_config current = wm_config im)
        then finish_registration c else mret GEM_WINE_CONFLICT
      | None =>
        modify (fun p => set_wp_images p (im :: wp_images p));;
        finish_registration c
      end
    end
  end.
Definition gem_wine_process_register_arm64x_mapped (address : nat) (block : bool) (mapped : list Z)
    (p : option gem_wine_process) (config : option gem_wine_arm64x_config) : M wine_outcome :=
  on_process p (match config with
                | Some c => register_arm64x_mapped address block mapped c
                | None => mret GEM_WINE_INVALID_ARGUMENT
                end).

(** ** Guest memory *)

(** [if (!process_guest_range_valid(process, address, size)) return INVALID_ARGUMENT;] *)
Definition in_range (address size : Z) (k : Br gem_wine_status) : Br gem_wine_status :=
  p ← gets id;
  if process_guest_range_valid p address size then k else mret GEM_WINE_INVALID_ARGUMENT.

(** A reservation elsewhere is given back. *)
Definition reserve_exactly (address size : Z) : Br gem_wine_status :=
  '(error, reserved) ← lift (in_memory (fun m => gem_memory_reserve m (Some address) size));
  let reserved := default 0 reserved in
  if bool_decide (error = GEM_MEMORY_OK) && negb (reserved =? address) then
    lift (in_memory (fun m => gem_memory_release m reserved size));; mret GEM_WINE_MEMORY_ERROR
  else mret (memory_status error).
Definition gem_wine_process_reserve (p : option gem_wine_process) (address size : Z) : M wine_outcome :=
  on_process p
    (if address =? 0 then mret GEM_WINE_INVALID_ARGUMENT else in_range address size (reserve_exactly address size)).
Definition gem_wine_process_commit_identity (p : option gem_wine_process) (address host size protection : Z) :=
  on_process p (in_range address size
    (memory_call (fun m => gem_memory_commit_identity m address host size protection))).
Definition gem_wine_process_commit_i386_host (p : option gem_wine_process) (address host size protection : Z) :=
  on_process p (memory_call (fun m => gem_i386_memory_commit_host m address host size protection)).
Definition gem_wine_process_decommit (p : option gem_wine_process) (address size : Z) :=
  on_process p (in_range address size (memory_call (fun m => gem_memory_decommit m address size))).
Definition gem_wine_process_release (p : option gem_wine_process) (address size : Z) :=
  on_process p (in_range address size (memory_call (fun m => gem_memory_release m address size))).
Definition gem_wine_process_map_identity (p : option gem_wine_process) (address host size protection : Z) :=
  on_process p (in_range address size
    (memory_call (fun m => gem_memory_map_identity m address host size protection))).
Definition gem_wine_process_unmap (p : option gem_wine_process) (address size : Z) :=
  on_process p (in_range address size (memory_call (fun m => gem_memory_unmap m address size))).
(** [old] is what [*old_protection] holds before, [None] for NULL; its value
    afterwards is [gem_memory_protect]'s. *)
Definition gem_wine_process_protect (p : option gem_wine_process) (address size protection : Z) (old : option Z) :=
  on_process p (in_range address size
    ('(error, _) ← lift (in_memory (fun m => gem_memory_protect m address size protection old));
     mret (memory_status error))).
Definition gem_wine_process_bind_kuser (p : option gem_wine_process) (host_page : Z) :=
  on_process p (memory_call (fun m => gem_memory_bind_kuser m host_page)).

(** ** Code invalidation *)

(** [r->ops]: the table that the creation chose. *)
Definition i386_ops_of (r : gem_i386_runtime) : gem_i386_engine_ops :=
  if ic_engine_mode (ir_config r) =? GEM_I386_ENGINE_INTERPRETER then gem_i386_blink_interpreter_ops
  else gem_i386_blink_jit_ops.

Fixpoint invalidate_hybrids (address size : Z) (l : list gem_wine_hybrid_binding)
  : result unit (list gem_wine_hybrid_binding) :=
  match l with
  | [] => Ok []
  | b :: l =>
    r ← gem_hybrid_runtime_invalidate_code (Some (wb_runtime b)) address size;
    l ← invalidate_hybrids address size l;
    Ok (HybridBinding (wb_image b) (default (wb_runtime b) r) :: l)
  end.

Definition invalidate_thread (address size : Z) (t : gem_wine_thread) : result unit gem_wine_thread :=
  r ← gem_arm64ec_runtime_invalidate_code (wt_runtime t) address size;
  let x64 := gem_x64_runtime_invalidate_code (wt_x64_runtime t) address size in
  let i386 :=
    match wt_i386_runtime t with
    | Some i => if address <=? UINT32_MAX
                then gem_i386_runtime_invalidate_code (i386_ops_of i) (Some i) (wrap32 address) size
                else Some i
    | None => None
    end in
  hybrids ← invalidate_hybrids address size (wt_hybrids t);
  Ok (set_wt_hybrids (set_wt_i386_runtime (set_wt_x64_runtime (set_wt_runtime t r) x64) i386) hybrids).

Fixpoint invalidate_threads (address size : Z) (l : list (nat * gem_wine_thread))
  : result unit (list (nat * gem_wine_thread)) :=
  match l with
  | [] => Ok []
  | (i, t) :: l => t ← invalidate_thread address size t; l ← invalidate_threads address size l; Ok ((i, t) :: l)
  end.

Definition gem_wine_process_invalidate_code (p : option gem_wine_process) (address size : Z) : M wine_outcome :=
  on_process p (in_range address size
    (p ← gets id;
     threads ← lift (fun m => match invalidate_threads address size (wp_threads p) with
                              | Ok threads => Ok (threads, m)
                              | Err e => Err e
                              | Fault => Fault
                              end);
     modify (fun p => set_wp_threads p threads);; mret GEM_WINE_OK)).

(** ** Threads *)

(** An attempt of [host] to lock [run_lock], which for an i386 thread is not
    recursive. *)
Definition run_trylock (host : nat) (t : gem_wine_thread) : option gem_wine_thread :=
  match wt_run_lock t with
  | None => Some (set_wt_run_lock t (Some (host, 1%nat)))
  | Some (owner, n) =>
      if negb (wt_i386_thread t) && (owner =? host)%nat then Some (set_wt_run_lock t (Some (host, S n))) else None
  end.
Definition run_unlock (t : gem_wine_thread) : gem_wine_thread :=
  set_wt_run_lock t (match wt_run_lock t with
                     | Some (owner, S (S n)) => Some (owner, S n)
                     | _ => None
                     end).

(** A call that also stores a pointer: the status and the pointer. *)
Notation Bo := (K gem_wine_process (gem_wine_status * option nat)).
Definition on_process_out (p : option gem_wine_process) (k : Bo (gem_wine_status * option nat))
  : M (option (gem_wine_status * option nat * option gem_wine_process)) :=
  match p with
  | None => mret (Some (GEM_WINE_INVALID_ARGUMENT, None, None))
  | Some p =>
      out ← body k p;
      mret (match out with Some (status, thread, p) => Some (status, thread, Some p) | None => None end)
  end.
(** The statements that give up a creation. *)
Definition refuse (status : gem_wine_status) : Bo (gem_wine_status * option nat) := mret (status, None).
Definition publish_thread (tid : nat) (t : gem_wine_thread) : Bo (gem_wine_status * option nat) :=
  modify (fun p => set_wp_threads p ((tid, t) :: wp_threads p));; mret (GEM_WINE_OK, Some tid).

Definition thread_config_ok (c : gem_wine_thread_config) : bool :=
  (tc_version c =? GEM_WINE_THREAD_CONFIG_VERSION) && (tc_struct_size c =? SIZEOF_THREAD_CONFIG) &&
  negb (tc_teb c =? 0) && zero_words (tc_reserved c).

(** [tid] is the address of the object, when it can be allocated; [locks] says
    whether its locks can be made. *)
Definition thread_create (tid : nat) (locks : bool) (c : gem_wine_thread_config) : Bo (gem_wine_status * option nat) :=
  p ← gets (fun p => p);
  if wp_i386_routing_enabled p || negb (thread_config_ok c) then refuse GEM_WINE_INVALID_ARGUMENT
  else
    object ← lift alloc;
    match object with
    | None => refuse GEM_WINE_NO_MEMORY
    | Some _ =>
      if negb locks then refuse GEM_WINE_ENGINE_ERROR
      else
        r ← lift (gem_arm64ec_runtime_create true (Some (Arm64ecConfig (pc_host_return_sentinel (wp_config p)) 0
                    (pc_segment_instruction_budget (wp_config p)) 0 GEM_ARM64EC_PROFILE_NATIVE_ARM64
                    GEM_ARM64EC_BOUNDARY_PRECISE)));
        match r with
        | None => refuse GEM_WINE_ENGINE_ERROR
        | Some r =>
          let '(accepted, r) :=
            if wp_arm64x_routing_enabled p
            then gem_arm64ec_runtime_set_boundary_broker (Some r) (Some native_image_boundary) else (true, Some r) in
          if negb accepted then refuse GEM_WINE_ENGINE_ERROR
          else publish_thread tid (WineThread r None None [] None None c i386_thread_config_zero false None)
        end
    end.
Definition gem_wine_thread_create (tid : nat) (locks : bool) (p : option gem_wine_process)
    (config : option gem_wine_thread_config) (has_out : bool) :=
  on_process_out p (match config with
                    | Some c => if has_out then thread_create tid locks c else refuse GEM_WINE_INVALID_ARGUMENT
                    | None => refuse GEM_WINE_INVALID_ARGUMENT
                    end).

Definition i386_thread_config_ok (c : gem_wine_i386_thread_config) : bool :=
  (ti_version c =? GEM_WINE_I386_THREAD_CONFIG_VERSION) && (ti_struct_size c =? SIZEOF_THREAD_CONFIG) &&
  negb (ti_teb c =? 0) && (ti_reserved0 c =? 0) && zero_words (ti_reserved c).

(** [arriving] is what other threads will store in the flag of the runtime. *)
Definition i386_thread_create (tid : nat) (locks : bool) (arriving : list bool) (c : gem_wine_i386_thread_config)
  : Bo (gem_wine_status * option nat) :=
  p ← gets (fun p => p);
  if negb (wp_i386_routing_enabled p) || negb (i386_thread_config_ok c) then refuse GEM_WINE_INVALID_ARGUMENT
  else
    object ← lift alloc;
    match object with
    | None => refuse GEM_WINE_NO_MEMORY
    | Some _ =>
      if negb locks then refuse GEM_WINE_ENGINE_ERROR
      else
        let i := wp_i386_config p in
        r ← lift (gem_i386_runtime_create true (Some (I386Config (wi_host_return_sentinel i)
                    (wi_windows_syscall_boundary i) (wi_unix_call_boundary i)
                    (if has_bits (wi_flags i) GEM_WINE_I386_FLAG_INTERPRETER_ORACLE
                     then GEM_I386_ENGINE_INTERPRETER else GEM_I386_ENGINE_JIT)
                    (pc_segment_instruction_budget (wp_config p)) 0 (replicate 4 0))) arriving);
        match r with
        | None => refuse GEM_WINE_ENGINE_ERROR
        | Some r => publish_thread tid (WineThread None None (Some r) [] None None thread_config_zero c true None)
        end
    end.
Definition gem_wine_i386_thread_create (tid : nat) (locks : bool) (arriving : list bool) (p : option gem_wine_process)
    (config : option gem_wine_i386_thread_config) (has_out : bool) :=
  on_process_out p (match config with
                    | Some c => if has_out then i386_thread_create tid locks arriving c else refuse GEM_WINE_INVALID_ARGUMENT
                    | None => refuse GEM_WINE_INVALID_ARGUMENT
                    end).

(** The calls on a thread: the pointer and the process it belongs to.  [host] is
    the host thread that calls. *)
Definition on_thread (thread : option nat) (k : nat -> Br gem_wine_status) (p : gem_wine_process)
  : M (option (gem_wine_status * gem_wine_process)) :=
  match thread with
  | None => mret (Some (GEM_WINE_INVALID_ARGUMENT, p))
  | Some tid => body (k tid) p
  end.

(** [thread->process] is read from the object, which must exist. *)
Definition gem_wine_thread_destroy (host : nat) (thread : option nat) :=
  on_thread thread (fun tid =>
    t ← deref_thread tid;
    match run_trylock host t with
    | None => mret GEM_WINE_CONFLICT
    | Some _ => modify (fun p => set_wp_threads p (remove_thread tid (wp_threads p)));; mret GEM_WINE_OK
    end).

Definition gem_wine_thread_set_native_upper_simd (thread : option nat) (vectors : option (list gem_u128)) :=
  on_thread thread (fun tid =>
    if bool_decide (vectors = None) then mret GEM_WINE_INVALID_ARGUMENT
    else
      t ← deref_thread tid;
      if wt_i386_thread t then mret GEM_WINE_INVALID_ARGUMENT
      else
        let '(accepted, r) := gem_arm64ec_runtime_set_native_upper_simd (wt_runtime t) vectors in
        modify (put_thread tid (set_wt_runtime t r));;
        mret (if (accepted : bool) then GEM_WINE_OK else GEM_WINE_CONFLICT)).

(** The status, and what is stored in [vectors]. *)
Definition gem_wine_thread_get_native_upper_simd (thread : option nat) (has_out : bool) (p : gem_wine_process)
  : M (gem_wine_status * option (list gem_u128)) :=
  match thread with
  | None => mret (GEM_WINE_INVALID_ARGUMENT, None)
  | Some tid =>
    if negb has_out then mret (GEM_WINE_INVALID_ARGUMENT, None)
    else
      match thread_at tid (wp_threads p) with
      | None => fault
      | Some t =>
        if wt_i386_thread t then mret (GEM_WINE_INVALID_ARGUMENT, None)
        else
          let vectors := gem_arm64ec_runtime_get_native_upper_simd (wt_runtime t) true in
          mret (if bool_decide (vectors = None) then GEM_WINE_CONFLICT else GEM_WINE_OK, vectors)
      end
  end.

Definition gem_wine_thread_request_async_stop (thread : option nat) (p : gem_wine_process) : M gem_wine_process :=
  match thread with
  | None => mret p
  | Some tid =>
    match thread_at tid (wp_threads p) with
    | None => fault
    | Some t =>
      let hybrids :=
        match wt_active_hybrid t with
        | Some image =>
            match gem_hybrid_runtime_request_async_stop (binding_of image (wt_hybrids t)) with
            | Some r => bind_runtime image r (wt_hybrids t)
            | None => wt_hybrids t
            end
        | None => wt_hybrids t
        end in
      mret (put_thread tid
        (set_wt_runtime (set_wt_i386_runtime (set_wt_x64_runtime (set_wt_hybrids t hybrids)
           (gem_x64_runtime_request_async_stop (wt_x64_runtime t)))
           (gem_i386_runtime_request_async_stop (wt_i386_runtime t)))
           (gem_arm64ec_runtime_request_async_stop (wt_runtime t))) p)
    end
  end.

(** ** The engines of a thread *)

(** What the platform decides in a round: whether the allocations of two target
    maps succeed, and what other threads will store in the flags of new runtimes.
    [ch_rounds] and [ch_fuel] bound the loops of the engines. *)
Record choices : Type := Choices {
  ch_blocks : bool * bool;
  ch_arriving : list bool;
  ch_arriving_x64 : list bool;
  ch_rounds : nat;
  ch_fuel : nat }.

(** The configuration of a coordinator for the image. *)
Definition hybrid_config_of (p : gem_wine_process) (im : gem_wine_arm64x_image) : gem_hybrid_runtime_config :=
  let c := wm_config im in
  HybridConfig GEM_HYBRID_RUNTIME_CONFIG_VERSION
    (if has_bits (wa_flags c) GEM_WINE_ARM64X_FLAG_SVC_BOUNDARIES
     then GEM_ARM64EC_BOUNDARY_SVC_TRAP else GEM_ARM64EC_BOUNDARY_PRECISE)
    (wa_loaded_base c) (wa_checker_helper c) (wa_dispatch_call_helper c) (wa_dispatch_jump_helper c)
    (wa_dispatch_ret_helper c) (UINT64_MAX - 31) (pc_host_return_sentinel (wp_config p))
    (pc_segment_instruction_budget (wp_config p)) (Some (process_target_resolve (wp_images p))) true.

(** [NULL] when the thread has no binding for the image and none can be made. *)
Definition find_or_create_hybrid (ch : choices) (p : gem_wine_process) (im : gem_wine_arm64x_image)
    (t : gem_wine_thread) : M (option nat * gem_wine_thread) :=
  match binding_of (wm_id im) (wt_hybrids t) with
  | Some _ => mret (Some (wm_id im), t)
  | None =>
    binding ← alloc;
    match binding with
    | None => mret (None, t)
    | Some _ =>
      r ← gem_hybrid_runtime_create (ch_blocks ch) true (Some (wm_metadata im))
        (Some (hybrid_config_of p im))
        (ch_arriving ch) (ch_arriving_x64 ch);
      mret (match r with
            | None => (None, t)
            | Some r => (Some (wm_id im), set_wt_hybrids t (HybridBinding (wm_id im) r :: wt_hybrids t))
            end)
    end
  end.

(** The resolver of a runtime reads the images of the process at the time of the
    call: its opaque pointer is bound to them when a run begins. *)
Definition bind_resolver (images : list gem_wine_arm64x_image) (r : gem_hybrid_runtime) : gem_hybrid_runtime :=
  let f := Some (process_target_resolve images) in
  let h := hr_core r in
  let c := hy_config h in
  HybridRuntime
    (HybridCore (hy_map h)
       (HybridConfig (yc_version c) (yc_boundary_delivery c) (yc_loaded_base c) (yc_checker_helper c)
          (yc_dispatch_call_helper c) (yc_dispatch_jump_helper c) (yc_dispatch_ret_helper c)
          (yc_x64_return_sentinel c) (yc_host_return_sentinel c) (yc_max_budget c) f
          (yc_target_resolver_opaque c))
       (hy_frame h) (hy_nested_frame h) (hy_stats h) (hy_last_stop h) (hy_stage h) (hy_generation h)
       (hy_running h) (hy_return_mode h) (hy_expected_x64_target h) (hy_expected_nested_x64_target h)
       (hy_generic h) (hy_async_stop_requested h))
    (set_ar_target_resolver (hr_arm r) f) (hr_x64 r).

Definition ensure_x86_64_runtime (ch : choices) (p : gem_wine_process) (t : gem_wine_thread)
  : M (bool * gem_wine_thread) :=
  match wt_x64_runtime t with
  | Some _ => mret (true, t)
  | None =>
    if negb (wp_x86_64_routing_enabled p) then mret (false, t)
    else
      let c := wp_x86_64_config p in
      r ← gem_x64_runtime_create true
        (Some (X64Config (pc_host_return_sentinel (wp_config p)) (pc_segment_instruction_budget (wp_config p))
           (wx_windows_syscall_boundary c) (wx_unix_call_boundary c)
           (if has_bits (wx_flags c) GEM_WINE_X86_64_FLAG_INTERPRETER_ORACLE
            then GEM_X86_64_ENGINE_INTERPRETER else GEM_X86_64_ENGINE_JIT) 0)) (ch_arriving_x64 ch);
      mret (bool_decide (is_Some r), set_wt_x64_runtime t r)
  end.

Definition context_valid_for_thread (t : gem_wine_thread) (c : option gem_thread_context) : bool :=
  match c with
  | None => false
  | Some c =>
      gem_context_is_valid (Some c) && (c_reserved0 c =? 0) &&
      (c_stop_reason c <=? stop_value GEM_STOP_INVARIANT_VIOLATION) &&
      ((c_isa c =? GEM_ISA_ARM64EC) || (c_isa c =? GEM_ISA_X64)) &&
      (c_teb c =? tc_teb (wt_config t)) && (xreg c 18 =? tc_teb (wt_config t))
  end.

Definition classify_event (p : gem_wine_process) (reason : gem_stop_reason) (c : gem_thread_context)
    (stop : gem_wine_stop_info) : Z :=
  match reason with
  | GEM_STOP_SYSCALL =>
      if (ws_engine_status stop =? GEM_WINE_NATIVE_UNIX_CALL_SVC) ||
         (ws_engine_status stop =? GEM_X64_BOUNDARY_UNIX_CALL)
      then GEM_WINE_EVENT_UNIX_CALL else GEM_WINE_EVENT_SYSCALL
  | GEM_STOP_MEMORY_FAULT =>
      let dispatcher := pc_unix_call_dispatcher (wp_config p) in
      if negb (dispatcher =? 0) && (c_pc c =? dispatcher) && (ws_fault_address stop =? dispatcher) &&
         (ws_access stop =? GEM_ARM64EC_ACCESS_FETCH)
      then GEM_WINE_EVENT_UNIX_CALL else GEM_WINE_EVENT_MEMORY_FAULT
  | GEM_STOP_WINDOWS_EXCEPTION => GEM_WINE_EVENT_WINDOWS_EXCEPTION
  | GEM_STOP_ARCH_TRANSITION => GEM_WINE_EVENT_ARCH_TRANSITION
  | GEM_STOP_ASYNC_REQUEST => GEM_WINE_EVENT_ASYNC_REQUEST
  | GEM_STOP_UNSUPPORTED_INSTRUCTION => GEM_WINE_EVENT_UNSUPPORTED_INSTRUCTION
  | _ => GEM_WINE_EVENT_INVARIANT_VIOLATION
  end.

Definition classify_i386_event (reason : gem_stop_reason) (stop : gem_wine_stop_info) : Z :=
  match reason with
  | GEM_STOP_SYSCALL =>
      if ws_engine_status stop =? GEM_I386_BOUNDARY_UNIX_CALL then GEM_WINE_EVENT_UNIX_CALL
      else GEM_WINE_EVENT_SYSCALL
  | GEM_STOP_MEMORY_FAULT => GEM_WINE_EVENT_MEMORY_FAULT
  | GEM_STOP_WINDOWS_EXCEPTION => GEM_WINE_EVENT_WINDOWS_EXCEPTION
  | GEM_STOP_ASYNC_REQUEST => GEM_WINE_EVENT_ASYNC_REQUEST
  | GEM_STOP_UNSUPPORTED_INSTRUCTION => GEM_WINE_EVENT_UNSUPPORTED_INSTRUCTION
  | _ => GEM_WINE_EVENT_INVARIANT_VIOLATION
  end.

(** ** Runs *)

(** The variables of a run, for a context of type [C], with the process. *)
Record wine_run (C : Type) : Type := WineRun {
  ru_process : gem_wine_process;
  ru_context : C;
  ru_result : gem_wine_run_result }.
Arguments WineRun {C}.
Arguments ru_process {C}.
Arguments ru_context {C}.
Arguments ru_result {C}.

Section run_steps.
Context {C : Type}.
Notation Wi := (K (wine_run C) gem_wine_status).

Definition the_process : Wi gem_wine_process := gets ru_process.
Definition the_result : Wi gem_wine_run_result := gets ru_result.
Definition run_context : Wi C := gets ru_context.
Definition put_process (p : gem_wine_process) : Wi unit :=
  modify (fun s => WineRun p (ru_context s) (ru_result s)).
Definition put_run_context (c : C) : Wi unit := modify (fun s => WineRun (ru_process s) c (ru_result s)).
Definition mod_result (f : gem_wine_run_result -> gem_wine_run_result) : Wi unit :=
  modify (fun s => WineRun (ru_process s) (ru_context s) (f (ru_result s))).
Definition the_thread (tid : nat) : Wi gem_wine_thread :=
  p ← the_process;
  match thread_at tid (wp_threads p) with Some t => mret t | None => lift fault end.
Definition write_thread (tid : nat) (t : gem_wine_thread) : Wi unit :=
  modify (fun s => WineRun (put_thread tid t (ru_process s)) (ru_context s) (ru_result s)).

(** [status = s; break;], with [outcome] where it is assigned. *)
Definition break {A} (s : gem_wine_status) : Wi A := return_ s.
Definition break_with {A} (outcome : Z) (s : gem_wine_status) : Wi A :=
  mod_result (fun r => set_rr_outcome r outcome);; break s.

(** The budget of the next slice. *)
Definition next_budget : Wi Z :=
  p ← the_process;
  r ← the_result;
  let total := pc_total_instruction_budget (wp_config p) in
  let segment := pc_segment_instruction_budget (wp_config p) in
  when (total <=? rr_instructions_retired r)
    (mod_result (fun r => set_rr_stop_reason (set_rr_outcome r GEM_WINE_RUN_BUDGET_EXPIRED)
                            (stop_value GEM_STOP_BUDGET_EXPIRED));;
     break GEM_WINE_BUDGET_EXPIRED);;
  let remaining := total - rr_instructions_retired r in
  mret (if remaining <? segment then remaining else segment).

(** A boundary callback is due, with what the run needs when it comes back. *)
Definition count_callback : Wi unit :=
  mod_result (fun r => set_rr_boundary_callbacks r (wrap64 (rr_boundary_callbacks r + 1))).
Definition callback_limit : Wi unit :=
  p ← the_process;
  r ← the_result;
  when (pc_max_boundary_callbacks (wp_config p) <=? rr_boundary_callbacks r)
    (break_with GEM_WINE_RUN_BUDGET_EXPIRED GEM_WINE_BUDGET_EXPIRED).

Definition make_request (struct_size event : Z) (c : C) (stop : gem_wine_stop_info) : gem_wine_boundary_request C :=
  BoundaryRequest GEM_WINE_BOUNDARY_ABI_VERSION struct_size event c stop.

(** [status != OK || response.version != ... || response.struct_size != ...] *)
Definition response_malformed (status : gem_wine_status) (size : Z) (r : gem_wine_boundary_response C) : bool :=
  negb (bool_decide (status = GEM_WINE_OK)) || negb (bp_version r =? GEM_WINE_BOUNDARY_ABI_VERSION) ||
  negb (bp_struct_size r =? size).
(** A system call or Unix call must move the program counter. *)
Definition unmoved (request : gem_wine_boundary_request C) (pc : C -> Z) (r : gem_wine_boundary_response C) : bool :=
  ((bq_event request =? GEM_WINE_EVENT_SYSCALL) || (bq_event request =? GEM_WINE_EVENT_UNIX_CALL)) &&
  (pc (bp_context r) =? pc (bq_context request)).
Definition set_response_context (r : gem_wine_boundary_response C) (c : C) : gem_wine_boundary_response C :=
  BoundaryResponse (bp_version r) (bp_struct_size r) (bp_action r) (bp_exit_status r) c.
Definition terminate {A} (r : gem_wine_boundary_response C) : Wi A :=
  mod_result (fun x => set_rr_exit_status (set_rr_outcome x GEM_WINE_RUN_TERMINATED) (bp_exit_status r));;
  break GEM_WINE_TERMINATED.
End run_steps.

(** ** ARM64EC, ARM64 and x64 threads *)

Notation Wi := (K (wine_run gem_thread_context) gem_wine_status).

(** The coordinator of the thread, made when the program counter is in a
    registered image. *)
Definition choose_hybrid (ch : choices) (tid : nat) : Wi (option nat) :=
  p ← the_process; c ← run_context; t ← the_thread tid;
  let im := if wp_arm64x_routing_enabled p then find_image_for_pc (wp_images p) (c_pc c) else None in
  match wt_coordinator_hybrid t, im with
  | Some image, _ => mret (Some image)
  | None, None => mret None
  | None, Some im =>
      '(binding, t) ← lift (find_or_create_hybrid ch p im t);
      write_thread tid (set_wt_coordinator_hybrid t binding);;
      mret binding
  end.

(** A slice in one of the three engines: the reason and the stop. *)
Definition run_hybrid (ch : choices) (tid image : nat) (budget : Z) : Wi (gem_stop_reason * gem_wine_stop_info) :=
  p ← the_process; c ← run_context; t ← the_thread tid;
  match binding_of image (wt_hybrids t) with
  | None => lift fault
  | Some r =>
    let r := bind_resolver (wp_images p) r in
    write_thread tid (set_wt_active_hybrid t (Some image));;
    out ← lift (gem_hybrid_runtime_run (ch_rounds ch) (ch_fuel ch) (Some r) (Some c) budget true);
    match out with
    | None => stuck
    | Some (reason, Some r, Some c, Some stats) =>
      let t := set_wt_active_hybrid (set_wt_hybrids t (bind_runtime image r (wt_hybrids t))) None in
      write_thread tid t;; put_run_context c;;
      let retired := wrap64 (rs_arm64ec_instructions_retired stats + rs_x64_instructions_retired stats) in
      match gem_hybrid_runtime_last_stop_info (Some r) true with
      | None => break GEM_WINE_ENGINE_ERROR
      | Some stop =>
        when (negb (gem_hybrid_runtime_coordinator_active (Some r)))
          (write_thread tid (set_wt_coordinator_hybrid t None));;
        mret (reason, copy_hybrid_stop_info stop retired)
      end
    | Some _ => lift fault
    end
  end.

Definition run_pure_x64 (ch : choices) (tid : nat) (budget : Z) : Wi (gem_stop_reason * gem_wine_stop_info) :=
  p ← the_process; c ← run_context; t ← the_thread tid;
  '(ready, t) ← lift (ensure_x86_64_runtime ch p t);
  write_thread tid t;;
  when (negb ready) (break GEM_WINE_ENGINE_ERROR);;
  '(reason, r, c) ← lift (gem_x64_runtime_run (wt_x64_runtime t) (Some c) budget);
  match c with
  | None => lift fault
  | Some c =>
    write_thread tid (set_wt_x64_runtime t r);; put_run_context c;;
    match gem_x64_runtime_last_stop_info r true with
    | None => break GEM_WINE_ENGINE_ERROR
    | Some stop => mret (reason, copy_x64_stop_info stop)
    end
  end.

Definition run_native (ch : choices) (tid : nat) (budget : Z) : Wi (gem_stop_reason * gem_wine_stop_info) :=
  p ← the_process; c ← run_context; t ← the_thread tid;
  when (negb (c_isa c =? GEM_ISA_ARM64EC)) (break GEM_WINE_ENGINE_ERROR);;
  out ← lift (gem_arm64ec_runtime_run (ch_fuel ch) (wt_runtime t) (Some c) (wp_images p) budget);
  match out with
  | None => stuck
  | Some (reason, r, Some c, _) =>
    write_thread tid (set_wt_runtime t r);; put_run_context c;;
    match gem_arm64ec_runtime_last_stop_info r true with
    | None => break GEM_WINE_ENGINE_ERROR
    | Some stop => mret (reason, copy_stop_info stop)
    end
  | Some _ => lift fault
  end.

Definition run_slice (ch : choices) (tid : nat) (hybrid : option nat) (budget : Z)
  : Wi (gem_stop_reason * gem_wine_stop_info) :=
  p ← the_process; c ← run_context;
  match hybrid with
  | Some image => run_hybrid ch tid image budget
  | None =>
    if (c_isa c =? GEM_ISA_X64) && wp_x86_64_routing_enabled p then run_pure_x64 ch tid budget
    else run_native ch tid budget
  end.

(** Whether an architecture transition goes on with another engine. *)
Definition transition_continues (p : gem_wine_process) (hybrid : option nat) (c : gem_thread_context) : bool :=
  bool_decide (is_Some hybrid) ||
  (wp_arm64x_routing_enabled p && bool_decide (is_Some (find_image_for_pc (wp_images p) (c_pc c)))).

(** The boundary callback that is due: the request, and the vectors saved for an
    ARM64EC context. *)
Definition pending : Type := gem_wine_boundary_request gem_thread_context * option (list gem_u128).

(** What follows a stop that the bridge does not serve itself. *)
Definition boundary_due (tid : nat) (reason : gem_stop_reason) (stop : gem_wine_stop_info) : Wi pending :=
  p ← the_process; c ← run_context; t ← the_thread tid;
  let event := classify_event p reason c stop in
  mod_result (fun r => set_rr_last_event r event);;
  when (event =? GEM_WINE_EVENT_INVARIANT_VIOLATION) (break_with GEM_WINE_RUN_FAILED GEM_WINE_ENGINE_ERROR);;
  when (negb (tc_boundary (wt_config t)) ||
        (negb (c_isa c =? GEM_ISA_ARM64EC) && negb ((c_isa c =? GEM_ISA_X64) && wp_x86_64_routing_enabled p)))
    (break_with GEM_WINE_RUN_UNHANDLED_STOP GEM_WINE_STOPPED);;
  callback_limit;;
  let request := make_request SIZEOF_BOUNDARY_REQUEST event c stop in
  if c_isa c =? GEM_ISA_ARM64EC then
    match gem_arm64ec_runtime_get_native_upper_simd (wt_runtime t) true with
    | None => break_with GEM_WINE_RUN_FAILED GEM_WINE_ENGINE_ERROR
    | Some vectors => count_callback;; mret (request, Some vectors)
    end
  else count_callback;; mret (request, None).

(** One iteration of [for (;;)] up to the callback: [None] for [continue]. *)
Definition wine_round (ch : choices) (tid : nat) : Wi (option pending) :=
  budget ← next_budget;
  hybrid ← choose_hybrid ch tid;
  '(reason, stop) ← run_slice ch tid hybrid budget;
  mod_result (fun r => set_rr_stop_reason (set_rr_stop r stop) (stop_value reason));;
  r ← the_result;
  when (UINT64_MAX - rr_instructions_retired r <? ws_instructions_retired stop) (break GEM_WINE_ENGINE_ERROR);;
  mod_result (fun r => set_rr_instructions_retired r (rr_instructions_retired r + ws_instructions_retired stop));;
  p ← the_process; c ← run_context; t ← the_thread tid;
  when (negb (context_valid_for_thread t (Some c))) (break GEM_WINE_ENGINE_ERROR);;
  if bool_decide (reason = GEM_STOP_ARCH_TRANSITION) && transition_continues p hybrid c
  then put_run_context (with_stop_reason c GEM_STOP_NONE);; mret None
  else if bool_decide (reason = GEM_STOP_HOST_RETURN) then break_with GEM_WINE_RUN_COMPLETE GEM_WINE_OK
  else if bool_decide (reason = GEM_STOP_BUDGET_EXPIRED) then
    when (ws_instructions_retired stop =? 0) (break_with GEM_WINE_RUN_BUDGET_EXPIRED GEM_WINE_BUDGET_EXPIRED);;
    put_run_context (with_stop_reason c GEM_STOP_NONE);; mret None
  else request ← boundary_due tid reason stop; mret (Some request).

(** [gem_arm64ec_runtime_set_native_upper_simd(thread->runtime, upper_simd_before)] *)
Definition restore_upper (tid : nat) (vectors : option (list gem_u128)) : Wi unit :=
  match vectors with
  | None => mret tt
  | Some vectors =>
      t ← the_thread tid;
      write_thread tid (set_wt_runtime t (gem_arm64ec_runtime_set_native_upper_simd (wt_runtime t) (Some vectors)).2)
  end.

(** What follows the callback, which returned [status] and stored [response]. *)
Definition wine_respond (tid : nat) (due : pending) (status : gem_wine_status)
    (response : gem_wine_boundary_response gem_thread_context) : Wi unit :=
  let '(request, vectors) := due in
  when (response_malformed status SIZEOF_BOUNDARY_RESPONSE response)
    (restore_upper tid vectors;; break_with GEM_WINE_RUN_FAILED GEM_WINE_CALLBACK_ERROR);;
  let c := with_original_x64_sp (with_transition_cookie (bp_context response)
             (c_transition_cookie (bq_context request))) (c_original_x64_sp (bq_context request)) in
  let response := set_response_context response c in
  when (bp_action response =? GEM_WINE_BOUNDARY_TERMINATE) (terminate response);;
  t ← the_thread tid;
  when (negb (bp_action response =? GEM_WINE_BOUNDARY_RESUME) || negb (context_valid_for_thread t (Some c)) ||
        negb (c_stop_reason c =? stop_value GEM_STOP_NONE) || unmoved request c_pc response)
    (restore_upper tid vectors;; break_with GEM_WINE_RUN_FAILED GEM_WINE_CALLBACK_ERROR);;
  put_run_context c.

(** ** i386 threads *)

Notation Wj := (K (wine_run gem_i386_context) gem_wine_status).

Definition i386_context_valid_for_thread (t : gem_wine_thread) (c : gem_i386_context) : bool :=
  gem_i386_context_is_valid (Some c) && (i_teb c =? ti_teb (wt_i386_config t)).

Definition run_i386 (ch : choices) (tid : nat) (budget : Z) : Wj (gem_stop_reason * gem_wine_stop_info) :=
  c ← run_context; t ← the_thread tid;
  match wt_i386_runtime t with
  | None => break GEM_WINE_ENGINE_ERROR
  | Some r =>
    out ← lift (gem_i386_runtime_run (i386_ops_of r) (ch_fuel ch) (Some r) (Some c) budget);
    match out with
    | None => stuck
    | Some (reason, r, Some c) =>
      write_thread tid (set_wt_i386_runtime t r);; put_run_context c;;
      match gem_i386_runtime_last_stop_info r true with
      | None => break GEM_WINE_ENGINE_ERROR
      | Some stop => mret (reason, copy_i386_stop_info stop)
      end
    | Some _ => lift fault
    end
  end.

Definition i386_boundary_due (tid : nat) (reason : gem_stop_reason) (stop : gem_wine_stop_info)
  : Wj (gem_wine_boundary_request gem_i386_context) :=
  c ← run_context; t ← the_thread tid;
  let event := classify_i386_event reason stop in
  mod_result (fun r => set_rr_last_event r event);;
  when (event =? GEM_WINE_EVENT_INVARIANT_VIOLATION) (break_with GEM_WINE_RUN_FAILED GEM_WINE_ENGINE_ERROR);;
  when (negb (ti_boundary (wt_i386_config t))) (break_with GEM_WINE_RUN_UNHANDLED_STOP GEM_WINE_STOPPED);;
  callback_limit;;
  count_callback;;
  mret (make_request SIZEOF_I386_BOUNDARY_REQUEST event c stop).

Definition wine_i386_round (ch : choices) (tid : nat) : Wj (option (gem_wine_boundary_request gem_i386_context)) :=
  budget ← next_budget;
  '(reason, stop) ← run_i386 ch tid budget;
  mod_result (fun r => set_rr_stop_reason (set_rr_stop r stop) (stop_value reason));;
  mod_result (fun r => set_rr_instructions_retired r
                         (wrap64 (rr_instructions_retired r + ws_instructions_retired stop)));;
  c ← run_context; t ← the_thread tid;
  when (negb (i386_context_valid_for_thread t c)) (break GEM_WINE_ENGINE_ERROR);;
  if bool_decide (reason = GEM_STOP_HOST_RETURN) then break_with GEM_WINE_RUN_COMPLETE GEM_WINE_OK
  else if bool_decide (reason = GEM_STOP_BUDGET_EXPIRED) then
    when (ws_instructions_retired stop =? 0) (break_with GEM_WINE_RUN_BUDGET_EXPIRED GEM_WINE_BUDGET_EXPIRED);;
    put_run_context (i386_with_stop_reason c GEM_STOP_NONE);; mret None
  else request ← i386_boundary_due tid reason stop; mret (Some request).

Definition i386_with_cookie (c : gem_i386_context) (cookie : Z) : gem_i386_context :=
  I386Context (i_layout_version c) (i_context_size c) (i_gpr c) (i_eip c) (i_eflags c) (i_segment c)
    (i_segment_base c) (i_segment_limit c) (i_segment_attributes c) (i_xmm c) (i_x87 c) (i_mxcsr c) (i_fcw c)
    (i_fsw c) (i_ftw c) (i_fop c) (i_teb c) (i_reserved0 c) cookie (i_stop_reason c) (i_union c).

Definition wine_i386_respond (tid : nat) (request : gem_wine_boundary_request gem_i386_context)
    (status : gem_wine_status) (response : gem_wine_boundary_response gem_i386_context) : Wj unit :=
  when (response_malformed status SIZEOF_I386_BOUNDARY_RESPONSE response)
    (break_with GEM_WINE_RUN_FAILED GEM_WINE_CALLBACK_ERROR);;
  let c := i386_with_cookie (bp_context response) (i_transition_cookie (bq_context request)) in
  let response := set_response_context response c in
  when (bp_action response =? GEM_WINE_BOUNDARY_TERMINATE) (terminate response);;
  t ← the_thread tid;
  when (negb (bp_action response =? GEM_WINE_BOUNDARY_RESUME) || negb (i386_context_valid_for_thread t c) ||
        negb (i_stop_reason c =? stop_value GEM_STOP_NONE) || unmoved request i_eip response)
    (break_with GEM_WINE_RUN_FAILED GEM_WINE_CALLBACK_ERROR);;
  put_run_context c.

(** ** Entering and leaving a run *)

(** A run on the stack of a host thread: the thread, the variables of the run,
    and the callback it waits for. *)
Inductive wine_frame : Type :=
  | FrameRun (tid : nat) (c : gem_thread_context) (r : gem_wine_run_result) (due : option pending)
  | FrameI386 (tid : nat) (c : gem_i386_context) (r : gem_wine_run_result)
      (due : option (gem_wine_boundary_request gem_i386_context)).

Definition frame_thread (f : wine_frame) : nat :=
  match f with FrameRun tid _ _ _ | FrameI386 tid _ _ _ => tid end.
(** Whether a callback is in progress. *)
Definition waits (f : wine_frame) : bool :=
  match f with FrameRun _ _ _ due => bool_decide (is_Some due) | FrameI386 _ _ _ due => bool_decide (is_Some due) end.

(** The entry of [gem_wine_thread_run]: the status it returns at once, or the
    process and the frame with which the loop begins.  [outs] says whether both
    output pointers are non-NULL. *)
Definition thread_run_enter (host : nat) (thread : option nat) (input : option gem_thread_context) (outs : bool)
    (p : gem_wine_process) : M (gem_wine_status + gem_wine_process * wine_frame) :=
  match thread with
  | None => mret (inl GEM_WINE_INVALID_ARGUMENT)
  | Some tid =>
    match thread_at tid (wp_threads p) with
    | None => fault
    | Some t =>
      match input with
      | None => mret (inl GEM_WINE_INVALID_ARGUMENT)
      | Some c =>
        if wt_i386_thread t || negb outs || negb (context_valid_for_thread t (Some c)) ||
           negb (c_stop_reason c =? stop_value GEM_STOP_NONE)
        then mret (inl GEM_WINE_INVALID_ARGUMENT)
        else
          mret (match run_trylock host t with
                | None => inl GEM_WINE_CONFLICT
                | Some t => inr (put_thread tid t p, FrameRun tid c initialize_result None)
                end)
      end
    end
  end.

Definition i386_thread_run_enter (host : nat) (thread : option nat) (input : option gem_i386_context) (outs : bool)
    (p : gem_wine_process) : M (gem_wine_status + gem_wine_process * wine_frame) :=
  match thread with
  | None => mret (inl GEM_WINE_INVALID_ARGUMENT)
  | Some tid =>
    match thread_at tid (wp_threads p) with
    | None => fault
    | Some t =>
      match input with
      | None => mret (inl GEM_WINE_INVALID_ARGUMENT)
      | Some c =>
        if negb (wt_i386_thread t) || negb outs || negb (i386_context_valid_for_thread t c) ||
           negb (i_stop_reason c =? stop_value GEM_STOP_NONE)
        then mret (inl GEM_WINE_INVALID_ARGUMENT)
        else
          mret (match run_trylock host t with
                | None => inl GEM_WINE_CONFLICT
                | Some t => inr (put_thread tid t p, FrameI386 tid c initialize_result None)
                end)
      end
    end
  end.

(** [unlock_run_lock(thread)], at the end of a run. *)
Definition unlock_run_lock (tid : nat) (p : gem_wine_process) : M gem_wine_process :=
  match thread_at tid (wp_threads p) with
  | None => fault
  | Some t => mret (put_thread tid (run_unlock t) p)
  end.

(** ** The process and its host threads *)

(** The runs that each host thread is in, the innermost first. *)
Record wine_world : Type := WineWorld {
  ww_process : gem_wine_process;
  ww_frames : gmap nat (list wine_frame) }.
Definition frames_of (host : nat) (w : wine_world) : list wine_frame := default [] (ww_frames w !! host).
Definition set_frames (w : wine_world) (p : gem_wine_process) (host : nat) (fs : list wine_frame) : wine_world :=
  WineWorld p (<[host := fs]> (ww_frames w)).

(** A call of the interface other than a run, with what the platform decides: the
    addresses of new objects, the allocations inside an image, and what other
    threads will store in a new flag. *)
Inductive wine_call : Type :=
  | WinePrepareArm64ec
  | WineRegister (address : nat) (block : bool) (mapped : list Z) (config : option gem_wine_arm64x_config)
  | WinePrepareX86_64 (config : option gem_wine_x86_64_config)
  | WinePrepareI386 (config : option gem_wine_i386_config)
  | WineReserve (address size : Z)
  | WineCommitIdentity (address host size protection : Z)
  | WineCommitI386Host (address host size protection : Z)
  | WineDecommit (address size : Z)
  | WineRelease (address size : Z)
  | WineMapIdentity (address host size protection : Z)
  | WineUnmap (address size : Z)
  | WineProtect (address size protection : Z) (old : option Z)
  | WineBindKuser (host_page : Z)
  | WineInvalidateCode (address size : Z)
  | WineThreadCreate (tid : nat) (locks : bool) (config : option gem_wine_thread_config) (has_out : bool)
  | WineI386ThreadCreate (tid : nat) (locks : bool) (arriving : list bool) (config : option gem_wine_i386_thread_config)
      (has_out : bool)
  | WineThreadDestroy (thread : option nat)
  | WineSetUpperSimd (thread : option nat) (vectors : option (list gem_u128))
  | WineGetUpperSimd (thread : option nat) (has_out : bool)
  | WineAsyncStop (thread : option nat).

Definition keep_process (p : gem_wine_process) (out : wine_outcome) : option (gem_wine_status * gem_wine_process) :=
  match out with Some (status, q) => Some (status, default p q) | None => None end.

Definition perform (host : nat) (call : wine_call) (p : gem_wine_process)
  : M (option (gem_wine_status * gem_wine_process)) :=
  let on (k : option gem_wine_process -> M wine_outcome) := out ← k (Some p); mret (keep_process p out) in
  match call with
  | WinePrepareArm64ec => on gem_wine_process_prepare_arm64ec
  | WineRegister address block mapped config =>
      on (fun p => gem_wine_process_register_arm64x_mapped address block mapped p config)
  | WinePrepareX86_64 config => on (fun p => gem_wine_process_prepare_x86_64 p config)
  | WinePrepareI386 config => on (fun p => gem_wine_process_prepare_i386 p config)
  | WineReserve a n => on (fun p => gem_wine_process_reserve p a n)
  | WineCommitIdentity a h n prot => on (fun p => gem_wine_process_commit_identity p a h n prot)
  | WineCommitI386Host a h n prot => on (fun p => gem_wine_process_commit_i386_host p a h n prot)
  | WineDecommit a n => on (fun p => gem_wine_process_decommit p a n)
  | WineRelease a n => on (fun p => gem_wine_process_release p a n)
  | WineMapIdentity a h n prot => on (fun p => gem_wine_process_map_identity p a h n prot)
  | WineUnmap a n => on (fun p => gem_wine_process_unmap p a n)
  | WineProtect a n prot old => on (fun p => gem_wine_process_protect p a n prot old)
  | WineBindKuser h => on (fun p => gem_wine_process_bind_kuser p h)
  | WineInvalidateCode a n => on (fun p => gem_wine_process_invalidate_code p a n)
  | WineThreadCreate tid locks config has_out =>
      out ← gem_wine_thread_create tid locks (Some p) config has_out;
      mret (match out with Some (status, _, q) => Some (status, default p q) | None => None end)
  | WineI386ThreadCreate tid locks arriving config has_out =>
      out ← gem_wine_i386_thread_create tid locks arriving (Some p) config has_out;
      mret (match out with Some (status, _, q) => Some (status, default p q) | None => None end)
  | WineThreadDestroy thread => gem_wine_thread_destroy host thread p
  | WineSetUpperSimd thread vectors => gem_wine_thread_set_native_upper_simd thread vectors p
  | WineGetUpperSimd thread has_out =>
      '(status, _) ← gem_wine_thread_get_native_upper_simd thread has_out p; mret (Some (status, p))
  | WineAsyncStop thread => p ← gem_wine_thread_request_async_stop thread p; mret (Some (GEM_WINE_OK, p))
  end.

(** What a host thread does next: a call, the entry of a run, a round of its
    innermost run, or the return of the callback that run waits for. *)
Inductive wine_event : Type :=
  | WineCall (call : wine_call)
  | WineEnter (thread : option nat) (input : option gem_thread_context) (outs : bool)
  | WineEnterI386 (thread : option nat) (input : option gem_i386_context) (outs : bool)
  | WineRound (ch : choices)
  | WineRespond (status : gem_wine_status) (response : gem_wine_boundary_response gem_thread_context)
  | WineRespondI386 (status : gem_wine_status) (response : gem_wine_boundary_response gem_i386_context).

(** What it sees: the status of a call, a round or a callback after which the run
    goes on, a callback that begins, and the end of a run, with what is published
    in [*out_context] and [*result]. *)
Inductive wine_answer : Type :=
  | Returns (status : gem_wine_status)
  | GoesOn
  | CallsBack (request : gem_wine_boundary_request gem_thread_context)
  | CallsBackI386 (request : gem_wine_boundary_request gem_i386_context)
  | RunReturns (status : gem_wine_status) (c : gem_thread_context) (r : gem_wine_run_result)
  | RunReturnsI386 (status : gem_wine_status) (c : gem_i386_context) (r : gem_wine_run_result).

Section steps.
Context (host : nat) (w : wine_world).

Definition after_enter (fs : list wine_frame) (out : gem_wine_status + gem_wine_process * wine_frame)
  : wine_world * wine_answer :=
  match out with
  | inl status => (w, Returns status)
  | inr (p, f) => (set_frames w p host (f :: fs), GoesOn)
  end.

(** The statements of a run that lead to [break] or to its next point of rest. *)
Definition drive {C A} (tid : nat) (fs : list wine_frame) (k : K (wine_run C) gem_wine_status A) (c : C)
    (r : gem_wine_run_result) (continue_ : A -> C -> gem_wine_run_result -> wine_frame * wine_answer)
    (ends : gem_wine_status -> C -> gem_wine_run_result -> wine_answer) : M (option (wine_world * wine_answer)) :=
  out ← k (WineRun (ww_process w) c r);
  match out with
  | None => mret None
  | Some (inr a, s) =>
      let '(f, answer) := continue_ a (ru_context s) (ru_result s) in
      mret (Some (set_frames w (ru_process s) host (f :: fs), answer))
  | Some (inl status, s) =>
      p ← unlock_run_lock tid (ru_process s);
      mret (Some (set_frames w p host fs, ends status (ru_context s) (ru_result s)))
  end.

(** [Fault] for an event that the host thread cannot be at. *)
Definition wine_step (e : wine_event) : M (option (wine_world * wine_answer)) :=
  let fs := frames_of host w in
  let at_rest := match fs with [] => true | f :: _ => waits f end in
  match e, fs with
  | WineCall call, _ =>
      if negb at_rest then fault
      else
        out ← perform host call (ww_process w);
        mret (match out with
              | Some (status, p) => Some (WineWorld p (ww_frames w), Returns status)
              | None => None
              end)
  | WineEnter thread input outs, _ =>
      if negb at_rest then fault
      else out ← thread_run_enter host thread input outs (ww_process w); mret (Some (after_enter fs out))
  | WineEnterI386 thread input outs, _ =>
      if negb at_rest then fault
      else out ← i386_thread_run_enter host thread input outs (ww_process w); mret (Some (after_enter fs out))
  | WineRound ch, FrameRun tid c r None :: fs =>
      drive tid fs (wine_round ch tid) c r
        (fun due c r => (FrameRun tid c r due, match due with Some (request, _) => CallsBack request | None => GoesOn end))
        RunReturns
  | WineRound ch, FrameI386 tid c r None :: fs =>
      drive tid fs (wine_i386_round ch tid) c r
        (fun due c r => (FrameI386 tid c r due, match due with Some request => CallsBackI386 request | None => GoesOn end))
        RunReturnsI386
  | WineRespond status response, FrameRun tid c r (Some due) :: fs =>
      drive tid fs (wine_respond tid due status response) c r (fun _ c r => (FrameRun tid c r None, GoesOn)) RunReturns
  | WineRespondI386 status response, FrameI386 tid c r (Some due) :: fs =>
      drive tid fs (wine_i386_respond tid due status response) c r
        (fun _ c r => (FrameI386 tid c r None, GoesOn)) RunReturnsI386
  | _, _ => fault
  end.
End steps.
End wine.

Arguments WineRun {_ _ _}.
Arguments ru_process {_ _ _}.
Arguments ru_context {_ _ _}.
Arguments ru_result {_ _ _}.
