(* ===== verification/WineLogic.v ===== *)
(** WineLogic: what the bridge keeps true of its images, its threads and their
    engines, and a rule for each part of a run. *)
From S2P Require Import Prelude Context Conversion MemoryModel Memory I386Memory MemoryLogic MemoryInv MemoryTotal MemorySpec.
From S2P Require Import Transaction TransactionInv TransactionWorld TransactionCommit.
From S2P Require Import Pe PeInvariant PeProperties Target TargetProperties Control Dynarmic Blink X64Engine X64EngineProperties.
From S2P Require Import I386Engine I386EngineProperties Arm64ecEngine Arm64ecEngineLogic Arm64ecEngineProperties.
From S2P Require Import Hybrid HybridRecord HybridLogic HybridProperties Wine.

(** Runs a body up to the next call, test or match. *)
Ltac kgo :=
  repeat (lazymatch goal with
  | |- kwp _ (_ ≫= _) _ _ _ _ => apply kwp_bind
  | |- kwp _ (mret _) _ _ _ _ => apply kwp_ret
  | |- kwp _ (return_ _) _ _ _ _ => apply kwp_return
  | |- kwp _ (break _) _ _ _ _ => apply kwp_return
  | |- kwp _ (gets _) _ _ _ _ => apply kwp_gets
  | |- kwp _ the_process _ _ _ _ => apply kwp_gets
  | |- kwp _ the_result _ _ _ _ => apply kwp_gets
  | |- kwp _ run_context _ _ _ _ => apply kwp_gets
  | |- kwp _ (modify _) _ _ _ _ => apply kwp_modify
  | |- kwp _ (mod_result _) _ _ _ _ => apply kwp_modify
  | |- kwp _ (break_with _ _) _ _ _ _ => unfold break_with
  end; cbv beta).

(** Guest memory between two calls: every reference is a page's. *)
Notation sound := (inv no_pins).

(** ** Images *)

(** A registered image: its metadata are those of a parsed image, and the map
    covers the range of the image. *)
Record image_wf (im : gem_wine_arm64x_image) : Prop := ImageWf {
  im_metadata : exists mapped, image_ok mapped (wm_metadata im);
  im_map : map_ok (wm_map im);
  im_base : tm_loaded_base (wm_map im) = wa_loaded_base (wm_config im);
  im_end : wm_loaded_end im = wa_loaded_base (wm_config im) + wa_image_size (wm_config im);
  im_range : 0 < wa_loaded_base (wm_config im) /\ 0 < wa_image_size (wm_config im) /\
             wm_loaded_end im <= UINT64_MAX;
  im_config : is_u64 (wa_checker_helper (wm_config im)) /\ is_u64 (wa_dispatch_call_helper (wm_config im)) /\
              is_u64 (wa_dispatch_jump_helper (wm_config im)) /\ is_u64 (wa_dispatch_ret_helper (wm_config im)) }.

Lemma find_image_wf images pc im :
  Forall image_wf images -> find_image_for_pc images pc = Some im -> image_wf im /\ im ∈ images.
Proof.
  intros Him Hf. apply List.find_some in Hf as [Hin _]. apply list_elem_of_In in Hin.
  rewrite Forall_forall in Him. auto.
Qed.

Lemma images_resolver_ok images : Forall image_wf images -> resolver_ok (process_target_resolve images).
Proof.
  intros Him va Hva. unfold process_target_resolve.
  destruct (find_image_for_pc images va) as [im|] eqn:E; [|done].
  destruct (find_image_wf images va im Him E) as [Hwf _]. apply (resolve_is_u64 (wm_map im)); [apply Hwf|done].
Qed.

Section logic.
Context {platform : Platform} {dynarmic : Dynarmic} {blink : Blink} {allocator : Allocator}.
Implicit Types (p : gem_wine_process) (t : gem_wine_thread).

(** The broker of a native runtime only reads the images. *)
Lemma native_boundary_ok L images :
  Forall image_wf images ->
  broker_ok no_pins L (eq images) (eq images) native_image_boundary.
Proof.
  intros Him pc c o <- Hc Hv Hpc. unfold native_image_boundary.
  destruct (find_image_for_pc images pc) as [im|] eqn:E.
  2:{ apply triple_ret. intros m Hm. split; [done|]. split; [apply arm_frame_po|done]. }
  destruct (find_image_wf images pc im Him E) as [Hwf _].
  assert (is_u64 pc) as Hpcu by (rewrite <- Hpc; apply Hc).
  pose proof (resolve_is_u64 _ (im_map _ Hwf) pc Hpcu) as Hr. cbv beta in Hr.
  eapply triple_bind.
  - apply (target_call_triple _ (st no_pins L)). by destruct (gem_arm64ec_target_resolve _ _ _).
  - intros [e|r]; apply triple_ret; intros m [Hm _]; (split; [done|]); (split; [apply arm_frame_po|]); done.
Qed.

(** A configuration that [gem_wine_process_create] accepts. *)
Record config_wf (c : gem_wine_process_config) : Prop := ConfigWf {
  cw_ok : process_config_ok c = true;
  cw_segment : is_u64 (pc_segment_instruction_budget c);
  cw_total : is_u64 (pc_total_instruction_budget c);
  cw_callbacks : is_u64 (pc_max_boundary_callbacks c);
  cw_sentinel : is_u64 (pc_host_return_sentinel c);
  cw_dispatcher : is_u64 (pc_unix_call_dispatcher c) }.

Lemma config_budgets c : config_wf c ->
  0 < pc_segment_instruction_budget c <= pc_total_instruction_budget c /\ 0 < pc_max_boundary_callbacks c.
Proof.
  intros [Hok Hs Ht Hc _ _]. unfold process_config_ok in Hok. unfold is_u64 in *. bool_to_Z. lia.
Qed.

(** ** Engines between two rounds *)

Definition native_idle (r : gem_arm64ec_runtime (S := list gem_wine_arm64x_image)) : Prop :=
  arm64ec_wf r /\ ar_running r = false /\ is_native (ar_config r) = true /\ is_svc_trap (ar_config r) = false /\
  (ar_boundary_broker r = None \/ ar_boundary_broker r = Some native_image_boundary).
Definition x64_idle (r : gem_x64_runtime) : Prop := xr_transaction r = None /\ xr_running r = false.
Definition i386_idle (r : gem_i386_runtime) : Prop := i386_ready r /\ ir_running r = false.
Definition bound (image : nat) (l : list gem_wine_hybrid_binding) : Prop :=
  exists r, binding_of image l = Some r.

Record thread_wf t : Prop := ThreadWf {
  th_active : wt_active_hybrid t = None;
  th_engines :
    if wt_i386_thread t then
      wt_runtime t = None /\ wt_x64_runtime t = None /\ wt_hybrids t = [] /\ wt_coordinator_hybrid t = None /\
      (exists r, wt_i386_runtime t = Some r /\ i386_idle r)
    else
      (exists r, wt_runtime t = Some r /\ native_idle r) /\ (forall r, wt_x64_runtime t = Some r -> x64_idle r) /\
      Forall (fun b => hybrid_wf (wb_runtime b)) (wt_hybrids t) /\
      (forall image, wt_coordinator_hybrid t = Some image -> bound image (wt_hybrids t)) /\
      wt_i386_runtime t = None }.

(** What every operation on a thread leaves. *)
Definition kept_thread t t' : Prop :=
  wt_config t' = wt_config t /\ wt_i386_config t' = wt_i386_config t /\ wt_i386_thread t' = wt_i386_thread t /\
  wt_run_lock t' = wt_run_lock t.

(** What a round leaves besides. *)
Definition native_broker t : option (boundary_fn (list gem_wine_arm64x_image)) := wt_runtime t ≫= ar_boundary_broker.
Definition same_thread t t' : Prop := kept_thread t t' /\ native_broker t' = native_broker t.

#[export] Instance kept_thread_po : PreOrder kept_thread.
Proof. split; [by intros t|]. intros a b c (? & ? & ? & ?) (? & ? & ? & ?). split_and!; by etrans. Qed.
#[export] Instance same_thread_po : PreOrder same_thread.
Proof. split; [by intros t|]. intros a b c [H1 E1] [H2 E2]. split; by etrans. Qed.

(** ** Threads in the list of a process *)

Lemma thread_at_put tid u t l :
  thread_at u (put_thread_at tid t l) =
    if (u =? tid)%nat then (if thread_at tid l then Some t else None) else thread_at u l.
Proof.
  induction l as [|[i v] l IH]; cbn; [by destruct (u =? tid)%nat|].
  destruct (Nat.eqb_spec i tid) as [->|Hi]; cbn.
  - destruct (Nat.eqb_spec tid u) as [->|]; [by rewrite Nat.eqb_refl|].
    destruct (Nat.eqb_spec u tid); [lia|done].
  - destruct (Nat.eqb_spec i u) as [->|]; [|done]. by destruct (Nat.eqb_spec u tid).
Qed.

Lemma put_put_thread tid t t' l : put_thread_at tid t (put_thread_at tid t' l) = put_thread_at tid t l.
Proof.
  induction l as [|[i u] l IH]; [done|]. cbn. destruct (Nat.eqb_spec i tid) as [->|Hi]; cbn.
  - by rewrite Nat.eqb_refl.
  - rewrite (proj2 (Nat.eqb_neq i tid) Hi). by rewrite IH.
Qed.

Lemma put_same_thread tid t l : thread_at tid l = Some t -> put_thread_at tid t l = l.
Proof.
  induction l as [|[i u] l IH]; [done|]. cbn. destruct (Nat.eqb_spec i tid) as [->|]; [by intros [= ->]|].
  intros H. by rewrite IH.
Qed.

Lemma thread_at_remove tid u l :
  thread_at u (remove_thread tid l) = if (u =? tid)%nat then None else thread_at u l.
Proof.
  unfold remove_thread. induction l as [|[i v] l IH]; cbn; [by destruct (u =? tid)%nat|].
  destruct (Nat.eqb_spec i tid) as [->|Hi]; cbn.
  - rewrite IH. destruct (Nat.eqb_spec u tid) as [->|]; [done|]. by destruct (Nat.eqb_spec tid u).
  - destruct (Nat.eqb_spec i u) as [->|]; [|done]. by destruct (Nat.eqb_spec u tid).
Qed.

(** The bindings. *)
Lemma bind_runtime_wf image r l :
  hybrid_wf r -> Forall (fun b => hybrid_wf (wb_runtime b)) l ->
  Forall (fun b => hybrid_wf (wb_runtime b)) (bind_runtime image r l).
Proof. intros Hr. induction 1 as [|b l Hb Hl IH]; cbn; [done|]. destruct (_ =? _)%nat; by constructor. Qed.

Lemma binding_of_wf image r l :
  Forall (fun b => hybrid_wf (wb_runtime b)) l -> binding_of image l = Some r -> hybrid_wf r.
Proof.
  induction 1 as [|b l Hb Hl IH]; cbn; [done|]. destruct (_ =? _)%nat; [by intros [= <-]|done].
Qed.

Lemma bound_bind image i r l : bound i l -> bound i (bind_runtime image r l).
Proof.
  unfold bound. induction l as [|b l IH]; cbn; [done|]. intros Hb.
  destruct (Nat.eqb_spec (wb_image b) image) as [Hi|Hi]; cbn.
  - rewrite <- Hi. destruct (wb_image b =? i)%nat; [by eexists|done].
  - destruct (wb_image b =? i)%nat; [done|auto].
Qed.

(** Binding the resolver keeps a coordinator well formed. *)
Lemma bind_resolver_wf images r : Forall image_wf images -> hybrid_wf r -> hybrid_wf (bind_resolver images r).
Proof.
  intros Him [[Hmap Hres] Hgen Hsent Hmax Hrun Harm Hx64 Hst].
  assert (forall f, Some (process_target_resolve images) = Some f -> resolver_ok f) as Hf.
  { intros f [= <-]. by apply images_resolver_ok. }
  destruct Harm as ([[Hm _] Hu Hprof] & Hb & Ht & Hbud & Hsvc & Hr).
  split; try done.
Qed.

(** ** Rules *)

(** A rule for any layout is one for sound memory. *)
Lemma sound_triple {A} (f : M A) (P : A -> Prop) :
  (forall L, triple (st no_pins L) f (fun a m => st no_pins L m /\ P a)) ->
  triple sound f (fun a m => sound m /\ P a).
Proof.
  intros H m (L & Hm & HL). specialize (H L m Hm). destruct (f m) as [[a m']| |]; [|done|done].
  destruct H as [H HP]. split; [by exists L|done].
Qed.

Lemma sound_alloc : triple sound alloc (fun _ => sound).
Proof. apply inv_triple. intros L. apply alloc_triple. Qed.

(** ** The state of a run *)

Section runs.
Variables (p0 : gem_wine_process) (tid : nat) (t0 : gem_wine_thread).
Hypothesis Himages : Forall image_wf (wp_images p0).
Hypothesis Hconfig : config_wf (wp_config p0).
Hypothesis Hthread : thread_at tid (wp_threads p0) = Some t0.

(** The process is the one the round began with, except for the engines of the
    thread, which is now [t]. *)
Record running {C} t (s : wine_run C) (m : mem) : Prop := Running {
  rn_process : ru_process s = put_thread tid t p0;
  rn_same : same_thread t0 t;
  rn_thread : thread_wf t;
  rn_memory : sound m }.

Lemma thread_now {C} t (s : wine_run C) m : running t s m -> thread_at tid (wp_threads (ru_process s)) = Some t.
Proof. intros [-> _ _ _]. cbn. by rewrite thread_at_put, Nat.eqb_refl, Hthread. Qed.

Lemma process_now {C} t (s : wine_run C) m : running t s m ->
  wp_config (ru_process s) = wp_config p0 /\ wp_images (ru_process s) = wp_images p0 /\
  wp_arm64x_routing_enabled (ru_process s) = wp_arm64x_routing_enabled p0 /\
  wp_x86_64_routing_enabled (ru_process s) = wp_x86_64_routing_enabled p0.
Proof. by intros [-> _ _ _]. Qed.

Section state.
Context {C : Type}.
Implicit Types (s : wine_run C).

Lemma kwp_the_thread t (Q : gem_wine_thread -> wine_run C -> mem -> Prop) E s m :
  running t s m -> Q t s m -> kwp True (the_thread tid) Q E s m.
Proof.
  intros Hr HQ. unfold the_thread, the_process. kstep. kstep. by rewrite (thread_now _ _ _ Hr).
Qed.

(** An assignment to the thread, whatever it held. *)
Lemma kwp_rewrite_thread t u (Q : unit -> wine_run C -> mem -> Prop) E s m :
  ru_process s = put_thread tid u p0 -> same_thread t0 t -> thread_wf t -> sound m ->
  (forall s', running t s' m -> ru_context s' = ru_context s -> ru_result s' = ru_result s -> Q tt s' m) ->
  kwp True (write_thread tid t) Q E s m.
Proof.
  intros Hp Hs Ht Hm HQ. unfold write_thread. kstep. apply HQ; [|done..]. split; [|done..].
  cbn. unfold put_thread. rewrite Hp. unfold put_thread. cbn. by rewrite put_put_thread.
Qed.

Lemma kwp_write_thread t t' (Q : unit -> wine_run C -> mem -> Prop) E s m :
  running t s m -> same_thread t t' -> thread_wf t' ->
  (forall s', running t' s' m -> ru_context s' = ru_context s -> ru_result s' = ru_result s -> Q tt s' m) ->
  kwp True (write_thread tid t') Q E s m.
Proof. intros [Hp Hs Ht Hm] Hs' Ht' HQ. eapply kwp_rewrite_thread; [exact Hp|by etrans|done..]. Qed.

Lemma kwp_put_run_context c (Q : unit -> wine_run C -> mem -> Prop) E t s m :
  running t s m ->
  (forall s', running t s' m -> ru_context s' = c -> ru_result s' = ru_result s -> Q tt s' m) ->
  kwp True (put_run_context c) Q E s m.
Proof. intros [] HQ. unfold put_run_context. kstep. by apply HQ. Qed.

Lemma kwp_result f (Q : unit -> wine_run C -> mem -> Prop) E t s m :
  running t s m ->
  (forall s', running t s' m -> ru_context s' = ru_context s -> ru_result s' = f (ru_result s) -> Q tt s' m) ->
  kwp True (mod_result f) Q E s m.
Proof. intros [] HQ. unfold mod_result. kstep. by apply HQ. Qed.

(** A call that leaves the process alone. *)
Lemma kwp_sound {A} (f : M A) (P : A -> Prop) (Q : A -> wine_run C -> mem -> Prop) (E : gem_wine_status -> wine_run C -> mem -> Prop) t s m :
  running t s m -> triple sound f (fun a m => sound m /\ P a) ->
  (forall a m', running t s m' -> P a -> Q a s m') ->
  kwp True (lift f) Q E s m.
Proof.
  intros [Hp Hs Ht Hm] Hf HQ. eapply kwp_lift; [exact Hf|exact Hm|]. intros a m' [Hm' HP]. by apply HQ.
Qed.
End state.

(** ** A slice *)

(** What a slice of at most [budget] instructions leaves. *)
Record sliced {C} (wf : C -> Prop) (budget : Z) (reason : gem_stop_reason) (stop : gem_wine_stop_info)
    (s s' : wine_run C) : Prop := Sliced {
  sl_context : wf (ru_context s');
  sl_result : ru_result s' = ru_result s;
  sl_reason : ws_reason stop = stop_value reason;
  sl_retired : 0 <= ws_instructions_retired stop <= budget }.

Definition slice_ok {C} (wf : C -> Prop) budget s (x : gem_stop_reason * gem_wine_stop_info) (s' : wine_run C) m : Prop :=
  exists t, running t s' m /\ sliced wf budget x.1 x.2 s s'.
Definition slice_failed {C} (wf : C -> Prop) (s : wine_run C) (status : gem_wine_status) (s' : wine_run C) m : Prop :=
  status = GEM_WINE_ENGINE_ERROR /\ wf (ru_context s') /\ ru_result s' = ru_result s /\ exists t, running t s' m.

Definition live_thread t : Prop := wt_i386_thread t = false.

(** The native engine. *)
Lemma native_triple r c images fuel budget L :
  native_idle r -> Forall image_wf images -> context_wf c -> is_u64 budget ->
  triple (st no_pins L) (gem_arm64ec_runtime_run fuel (Some r) (Some c) images budget) (fun out m => st no_pins L m /\
    match out with
    | None => True
    | Some (reason, r', c', _) => exists r1 d, r' = Some r1 /\ c' = Some d /\
        (native_idle r1 /\ ar_boundary_broker r1 = ar_boundary_broker r) /\ context_wf d /\
        ai_reason (ar_last_stop r1) = reason /\ 0 <= ai_instructions_retired (ar_last_stop r1) <= budget
    end).
Proof.
  intros (Hwf & Hrun & Hnat & Hsvc & Hbr) Him Hc Hb m Hm. destruct (decide (arm64ec_accepts r c budget)) as [Ha|Ha].
  - pose proof (arm64ec_run_inside no_pins L (eq images) (eq images) fuel r c images budget m no_pins_nonneg Hm Hwf) as H.
    specialize (H ltac:(intros broker E; destruct Hbr as [Hn|Hn]; rewrite Hn in E; [done|injection E as <-]; by apply native_boundary_ok)).
    specialize (H Hb Hc eq_refl Ha).
    destruct (gem_arm64ec_runtime_run _ _ _ _ _ m) as [[[[[[reason r'] c'] o']|] m']| |]; [|congruence|done..].
    destruct H as (Hm' & r1 & d & -> & -> & Hl & Hr & Hret & _ & Hd & _). split; [done|]. exists r1, d.
    do 2 (split; [done|]). split; [|done]. pose proof Hl as (Hcfg & _ & _ & Hbr1 & _ & Hrun1 & _).
    split; [|done]. split; [by apply (arm64ec_left_wf r)|]. rewrite Hcfg, Hbr1, Hrun1. done.
  - rewrite arm64ec_run_rejected by (by intros d [= <-]). split; [done|]. eexists _, c. do 2 (split; [done|]).
    split; [split; [split; [destruct Hwf; by split|done]|done]|]. split; [done|]. split; [done|]. unfold is_u64 in Hb. cbn. lia.
Qed.

Lemma live_engines t : thread_wf t -> live_thread t ->
  (exists r, wt_runtime t = Some r /\ native_idle r) /\ (forall r, wt_x64_runtime t = Some r -> x64_idle r) /\
  Forall (fun b => hybrid_wf (wb_runtime b)) (wt_hybrids t) /\
  (forall image, wt_coordinator_hybrid t = Some image -> bound image (wt_hybrids t)) /\ wt_i386_runtime t = None.
Proof. intros [_ H] Hl. by rewrite Hl in H. Qed.

Lemma live_wf t : live_thread t -> wt_active_hybrid t = None ->
  (exists r, wt_runtime t = Some r /\ native_idle r) -> (forall r, wt_x64_runtime t = Some r -> x64_idle r) ->
  Forall (fun b => hybrid_wf (wb_runtime b)) (wt_hybrids t) ->
  (forall image, wt_coordinator_hybrid t = Some image -> bound image (wt_hybrids t)) -> wt_i386_runtime t = None ->
  thread_wf t.
Proof. intros Hl ? ? ? ? ? ?. split; [done|]. by rewrite Hl. Qed.

Lemma kwp_run_native ch budget t s m :
  live_thread t -> running t s m -> context_wf (ru_context s) -> is_u64 budget ->
  kwp True (run_native ch tid budget) (slice_ok context_wf budget s) (slice_failed context_wf s) s m.
Proof.
  intros Hlive Hr Hc Hb. unfold run_native, the_process, run_context. do 4 kstep. kstep.
  eapply kwp_the_thread; [done|]. kstep.
  destruct (negb _); cbn [when]; [unfold break; kstep; by split_and!; eauto|]. kstep.
  destruct (live_engines t (rn_thread _ _ _ Hr) Hlive) as ((r & Ert & Hn) & Hx & Hh & Hco & Hi).
  rewrite Ert. destruct (process_now _ _ _ Hr) as (_ & -> & _).
  eapply kwp_sound; [exact Hr|apply sound_triple; intros L; by apply native_triple|].
  intros [[[[reason r'] c'] o]|] m' Hr' Hout; [|done].
  destruct Hout as (r1 & d & -> & -> & [Hn1 Hbr1] & Hd & Hreason & Hret).
  assert (same_thread t (set_wt_runtime t (Some r1))) as Hsame.
  { split; [done|]. unfold native_broker. cbn. by rewrite Ert. }
  assert (thread_wf (set_wt_runtime t (Some r1))) as Hwf.
  { apply live_wf; try done; [apply (rn_thread _ _ _ Hr)|by exists r1]. }
  kstep. eapply kwp_write_thread; [exact Hr'|exact Hsame|exact Hwf|]. intros s1 Hr1 Hc1 Hres1.
  kstep. eapply kwp_put_run_context; [exact Hr1|]. intros s2 Hr2 Hc2 Hres2. cbn [gem_arm64ec_runtime_last_stop_info].
  kstep. exists (set_wt_runtime t (Some r1)). split; [exact Hr2|]. cbn [fst snd].
  split; [by rewrite Hc2|by rewrite Hres2|cbn; by rewrite Hreason|done].
Qed.

(** The x64 engine. *)
Lemma x64_triple r c budget L :
  x64_idle r -> context_wf c -> 0 <= budget ->
  triple (st no_pins L) (gem_x64_runtime_run (Some r) (Some c) budget) (fun out m => st no_pins L m /\
    let '(reason, r', c') := out in exists r1 d, r' = Some r1 /\ c' = Some d /\ x64_idle r1 /\ context_wf d /\
      xs_reason (xr_last_stop r1) = reason /\ 0 <= xs_instructions_retired (xr_last_stop r1) <= budget).
Proof.
  intros [Ht Hrun] Hc Hb m Hm. destruct (decide (x64_accepts r c budget)) as [Ha|Ha].
  - pose proof (x64_run_inside no_pins L r c budget m no_pins_nonneg Hb Ht Hm ltac:(apply Hc) Ha) as H.
    destruct (gem_x64_runtime_run _ _ _ m) as [[[[reason r'] c'] m']| |]; [|done..].
    destruct H as (Hm' & r1 & d & -> & -> & (Ht1 & Hrun1 & _) & Hr & Hret & _ & _ & _ & _ & Hd & _).
    split; [done|]. exists r1, d. split_and!; auto; [by split; [|rewrite Hrun1]|lia..].
  - rewrite run_rejected by (by intros d [= <-]). split; [done|]. by eexists _, c.
Qed.

Lemma ensure_triple ch p t :
  live_thread t -> thread_wf t ->
  triple sound (ensure_x86_64_runtime ch p t) (fun '(ready, t') m => sound m /\ same_thread t t' /\ thread_wf t' /\
    live_thread t' /\ (ready = true -> exists r, wt_x64_runtime t' = Some r /\ x64_idle r)).
Proof.
  intros Hl Ht. destruct (live_engines t Ht Hl) as (Hn & Hx & Hh & Hco & Hi). unfold ensure_x86_64_runtime.
  destruct (wt_x64_runtime t) as [r|] eqn:E; [apply triple_ret; intros m Hm; split_and!; eauto; done|].
  destruct (negb _); [by apply triple_ret|].
  eapply triple_bind; [apply sound_triple; intros L; apply (x64_create_triple no_pins L)|].
  intros r. apply triple_ret. intros m [Hm Hr]. split; [done|]. split; [done|].
  assert (forall x, r = Some x -> x64_idle x) as Hidle by (intros x Ex; destruct (Hr x Ex) as (? & ? & _); done).
  split; [|split; [done|]].
  - apply live_wf; try done. apply Ht.
  - destruct r as [r|]; [|done]. intros _. eauto.
Qed.

Lemma kwp_run_pure_x64 ch budget t s m :
  live_thread t -> running t s m -> context_wf (ru_context s) -> is_u64 budget ->
  kwp True (run_pure_x64 ch tid budget) (slice_ok context_wf budget s) (slice_failed context_wf s) s m.
Proof.
  intros Hlive Hr Hc Hb. unfold run_pure_x64, the_process, run_context. do 5 kstep.
  eapply kwp_the_thread; [done|]. kstep.
  eapply (kwp_lift _ _ sound); [apply ensure_triple; [done|apply Hr]|apply Hr|].
  intros [ready t1] m1 (Hm1 & Hs1 & Ht1 & Hl1 & Hready).
  assert (running t s m1) as Hr1 by (destruct Hr; by split).
  kstep. eapply kwp_write_thread; [exact Hr1|done|done|]. intros s2 Hr2 Hc2 Hres2. kstep.
  destruct ready; cbn [negb when]; [|unfold break; kstep; split_and!; [done|by rewrite Hc2|done|by exists t1]].
  destruct (Hready eq_refl) as (r & Ex & Hidle). rewrite Ex. kstep.
  eapply kwp_sound; [exact Hr2|apply sound_triple; intros L; apply x64_triple; [done|exact Hc|unfold is_u64 in Hb; lia]|].
  intros [[reason r'] c'] m2 Hr3 (r1 & d & -> & -> & Hi1 & Hd & Hreason & Hret).
  destruct (live_engines t1 Ht1 Hl1) as (Hn & _ & Hh & Hco & Hi).
  kstep. eapply kwp_write_thread; [exact Hr3|done| |].
  { apply live_wf; try done; [apply Ht1|]. by intros x [= <-]. }
  intros s3 Hr4 Hc4 Hres4. kstep. eapply kwp_put_run_context; [exact Hr4|]. intros s4 Hr5 Hc5 Hres5.
  cbn [gem_x64_runtime_last_stop_info]. kstep. eexists. split; [exact Hr5|].
  split; [by rewrite Hc5|by rewrite Hres5, Hres4, Hres2|cbn; by rewrite Hreason|done].
Qed.

(** The coordinator. *)
Lemma hybrid_triple rounds fuel r c budget L :
  hybrid_wf r -> context_wf c -> is_u64 budget ->
  triple (st no_pins L) (gem_hybrid_runtime_run rounds fuel (Some r) (Some c) budget true) (fun out m =>
    match out with
    | None => True
    | Some (reason, r', c', stats) => st no_pins L m /\ exists r1 d x, r' = Some r1 /\ c' = Some d /\ stats = Some x /\
        hybrid_wf r1 /\ context_wf d /\ yi_reason (hy_last_stop (hr_core r1)) = reason /\
        0 <= wrap64 (rs_arm64ec_instructions_retired x + rs_x64_instructions_retired x) <= budget
    end).
Proof.
  intros Hr Hc Hb m Hm. pose proof (hybrid_run_inside no_pins L rounds fuel r c budget true m no_pins_nonneg Hm Hr Hb Hc) as H.
  destruct (gem_hybrid_runtime_run _ _ _ _ _ _ m) as [[[[[[reason r'] c'] stats]|] m']| |]; [|done..].
  destruct H as (Hm' & r1 & -> & Hwf & _ & Hreason & [(Hout & _ & ->)|(d & -> & Hran & ->)]); (split; [done|]).
  - destruct Hout as (_ & _ & _ & _ & ->). eexists r1, _, _. do 3 (split; [done|]). split; [done|].
    split; [by apply with_stop_reason_wf|]. split; [done|]. change (wrap64 _) with 0. unfold is_u64 in Hb. lia.
  - exists r1, d, (hy_stats (hr_core r1)). do 3 (split; [done|]). split; [done|]. split; [apply Hran|]. split; [done|].
    destruct (hn_retired _ _ _ _ _ _ Hran) as (H1 & H2 & H3). unfold wrap64, is_u64 in *. rewrite Z.mod_small; lia.
Qed.

Lemma create_hybrid_triple ch im :
  image_wf im ->
  triple sound (gem_hybrid_runtime_create (ch_blocks ch) true (Some (wm_metadata im))
      (Some (hybrid_config_of p0 im)) (ch_arriving ch) (ch_arriving_x64 ch))
    (fun r m => sound m /\ forall r1, r = Some r1 -> hybrid_wf r1).
Proof.
  intros Him. apply sound_triple. intros L. destruct (im_metadata _ Him) as [mapped Hmeta].
  assert (is_u64 (wa_loaded_base (wm_config im))) as Hbase.
  { pose proof (im_range _ Him). pose proof (im_end _ Him). unfold is_u64, UINT64_MAX in *. lia. }
  eapply triple_conseq; [apply (create_triple no_pins L mapped _ (hybrid_config_of p0 im) _ _ _ _ Hmeta Hbase)| |].
  - done.
  - apply Hconfig.
  - intros f [= <-]. by apply images_resolver_ok.
  - done.
  - intros r m [Hm Hr]. split; [done|]. intros r1 E. by apply Hr.
Qed.

Lemma find_or_create_triple ch p im t :
  wp_config p = wp_config p0 -> wp_images p = wp_images p0 -> image_wf im -> live_thread t -> thread_wf t ->
  triple sound (find_or_create_hybrid ch p im t) (fun x m => sound m /\ same_thread t x.2 /\ thread_wf x.2 /\
    live_thread x.2 /\ forall image, x.1 = Some image -> bound image (wt_hybrids x.2)).
Proof.
  intros Ecfg Eim Him Hl Ht. unfold find_or_create_hybrid.
  destruct (binding_of (wm_id im) (wt_hybrids t)) as [r|] eqn:Eb.
  { apply triple_ret. intros m Hm. do 4 (split; [done|]). intros image [= <-]. by exists r. }
  eapply triple_bind; [apply sound_alloc|]. intros [u|]; [|by apply triple_ret].
  replace (hybrid_config_of p im) with (hybrid_config_of p0 im) by (unfold hybrid_config_of; by rewrite Ecfg, Eim).
  eapply triple_bind; [by apply create_hybrid_triple|]. intros r. apply triple_ret. intros m [Hm Hr].
  destruct r as [r|]; [|by split_and!]. cbn [fst snd]. do 2 (split; [done|]).
  destruct (live_engines t Ht Hl) as (Hn & Hx & Hh & Hco & Hi). split; [|split; [done|]].
  - apply live_wf; try done; [apply Ht| |].
    + constructor; [by apply Hr|done].
    + intros image E. destruct (Hco image E) as [r' Er']. unfold bound. cbn. destruct (_ =? _)%nat; eauto.
  - intros image [= <-]. unfold bound. cbn. rewrite Nat.eqb_refl. by eexists.
Qed.

(** Which coordinator a round uses. *)
Definition chosen s (hybrid : option nat) (s' : wine_run gem_thread_context) m : Prop :=
  exists t, running t s' m /\ live_thread t /\ ru_context s' = ru_context s /\ ru_result s' = ru_result s /\
    forall image, hybrid = Some image -> bound image (wt_hybrids t).

Lemma kwp_choose_hybrid ch t s m :
  live_thread t -> running t s m ->
  kwp True (choose_hybrid ch tid) (chosen s) (fun _ _ _ => False) s m.
Proof.
  intros Hlive Hr. unfold choose_hybrid, the_process, run_context. do 5 kstep. eapply kwp_the_thread; [done|].
  destruct (live_engines t (rn_thread _ _ _ Hr) Hlive) as (Hn & Hx & Hh & Hco & Hi).
  destruct (wt_coordinator_hybrid t) as [image|] eqn:Eco.
  { kstep. exists t. by split_and!. }
  destruct (process_now _ _ _ Hr) as (Ecfg & Eim & Erout & _). rewrite Erout, Eim.
  destruct (wp_arm64x_routing_enabled p0); cbv zeta; [|kstep; by exists t].
  destruct (find_image_for_pc (wp_images p0) (c_pc (ru_context s))) as [im|] eqn:Ef; [|kstep; by exists t].
  destruct (find_image_wf _ _ _ Himages Ef) as [Him _].
  kstep. eapply (kwp_lift _ _ sound); [apply find_or_create_triple; try done; apply Hr|apply Hr|].
  intros [b t1] m1 (Hm1 & Hs1 & Ht1 & Hl1 & Hb). cbn [fst snd] in *.
  assert (running t s m1) as Hr1 by (destruct Hr; by split).
  destruct (live_engines t1 Ht1 Hl1) as (Hn1 & Hx1 & Hh1 & Hco1 & Hi1).
  kstep. eapply kwp_write_thread; [exact Hr1|done| |].
  { apply live_wf; try done. apply Ht1. }
  intros s2 Hr2 Hc2 Hres2. kstep. eexists. split; [exact Hr2|]. by split_and!.
Qed.

Lemma kwp_run_hybrid ch image budget t s m :
  live_thread t -> running t s m -> bound image (wt_hybrids t) -> context_wf (ru_context s) -> is_u64 budget ->
  kwp True (run_hybrid ch tid image budget) (slice_ok context_wf budget s) (slice_failed context_wf s) s m.
Proof.
  intros Hlive Hr [r Eb] Hc Hb. unfold run_hybrid, the_process, run_context. do 5 kstep. eapply kwp_the_thread; [done|].
  rewrite Eb. destruct (process_now _ _ _ Hr) as (_ & -> & _).
  destruct (live_engines t (rn_thread _ _ _ Hr) Hlive) as (Hn & Hx & Hh & Hco & Hi).
  kstep. unfold write_thread at 1. kstep.
  eapply (kwp_lift _ _ sound).
  { intros m0 (L & Hm0 & HL). pose proof (hybrid_triple (ch_rounds ch) (ch_fuel ch) (bind_resolver (wp_images p0) r)
      (ru_context s) budget L) as H. specialize (H ltac:(apply bind_resolver_wf; [done|by eapply binding_of_wf]) Hc Hb m0 Hm0).
    instantiate (1 := fun out m => match out with None => True | Some (reason, r', c', stats) => sound m /\
      exists r1 d x, r' = Some r1 /\ c' = Some d /\ stats = Some x /\ hybrid_wf r1 /\ context_wf d /\
        yi_reason (hy_last_stop (hr_core r1)) = reason /\
        0 <= wrap64 (rs_arm64ec_instructions_retired x + rs_x64_instructions_retired x) <= budget end).
    destruct (gem_hybrid_runtime_run _ _ _ _ _ _ m0) as [[[[[[reason r'] c'] stats]|] m']| |]; [|done..].
    destruct H as [Hm' H]. split; [by exists L|done]. }
  { apply Hr. }
  intros [[[[reason r'] c'] stats]|] m1 Hout; [|done].
  destruct Hout as (Hm1 & r1 & d & x & -> & -> & -> & Hwf1 & Hd & Hreason & Hret).
  set (t1 := set_wt_active_hybrid (set_wt_hybrids t _) None).
  assert (running t s m1) as Hr1 by (destruct Hr; by split).
  assert (thread_wf t1) as Ht1.
  { apply live_wf; try done; [by apply bind_runtime_wf|]. intros i E. by apply bound_bind, Hco. }
  kstep. eapply kwp_rewrite_thread; [cbn; rewrite (rn_process _ _ _ Hr); unfold put_thread; cbn; by rewrite put_put_thread
    |etrans; [apply (rn_same _ _ _ Hr)|done]|exact Ht1|exact Hm1|].
  intros s2 Hr2 Hc2 Hres2. kstep. eapply kwp_put_run_context; [exact Hr2|]. intros s3 Hr3 Hc3 Hres3.
  cbn in Hres2. destruct (gem_hybrid_runtime_last_stop_info (Some r1) true) as [stop|] eqn:Estop.
  2:{ unfold break. kstep. split_and!; [done|by rewrite Hc3|by rewrite Hres3, Hres2|by eexists]. }
  assert (stop = hy_last_stop (hr_core r1)) as -> by (revert Estop; cbn; case_bool_decide; [done|by intros [= <-]]).
  assert (forall s4, ru_context s4 = d -> ru_result s4 = ru_result s ->
    sliced context_wf budget reason (copy_hybrid_stop_info (hy_last_stop (hr_core r1))
      (wrap64 (rs_arm64ec_instructions_retired x + rs_x64_instructions_retired x))) s s4) as Hslice.
  { intros s4 E1 E2. split; [by rewrite E1|done| |]; unfold copy_hybrid_stop_info; destruct (yi_source _); cbn; by rewrite ?Hreason. }
  kstep. kstep.
  - eapply kwp_write_thread; [exact Hr3|done| |].
    { apply live_wf; try done. by apply bind_runtime_wf. }
    intros s4 Hr4 Hc4 Hres4. kstep. eexists. split; [exact Hr4|]. apply Hslice; congruence.
  - kstep. eexists. split; [exact Hr3|]. apply Hslice; congruence.
Qed.

(** The 32-bit engine. *)
Context `{!BlinkRunOk}.

Lemma i386_triple r c fuel budget L :
  i386_idle r -> is_u64 budget ->
  triple (st no_pins L) (gem_i386_runtime_run (i386_ops_of r) fuel (Some r) (Some c) budget) (fun out m => st no_pins L m /\
    match out with
    | None => True
    | Some (reason, r', c') => exists r1 d, r' = Some r1 /\ c' = Some d /\ i386_idle r1 /\
        is_reason (ir_last_stop r1) = reason /\ 0 <= is_instructions_retired (ir_last_stop r1) <= budget
    end).
Proof.
  intros [Hr Hrun] Hb m Hm.
  assert (is_blink_ops (i386_ops_of r)) as Hops by (unfold i386_ops_of; destruct (_ =? _); [by right|by left]).
  pose proof (i386_run_inside no_pins L (i386_ops_of r) fuel r c budget m Hops no_pins_nonneg Hm Hr Hb) as H1.
  destruct (gem_i386_runtime_run _ _ _ _ _ m) as [[[[[reason r'] c']|] m']| |]; [|done..].
  destruct H1 as (Hm' & r1 & -> & Hr1 & _ & Hrun1 & _ & Hreason & Hout). split; [done|].
  case_bool_decide.
  - destruct Hout as (d & n & -> & Hn & Hle & _). exists r1, d. split_and!; try done.
    + by split; [|rewrite Hrun1].
    + rewrite Hn. apply Z.mod_pos_bound. lia.
    + rewrite Hn. unfold wrap32. pose proof (Z.mod_le n (2 ^ 32)). lia.
  - destruct Hout as (-> & -> & -> & ->). eexists _, c. split_and!; try done. unfold is_u64 in Hb. cbn. lia.
Qed.

Definition any_context : gem_i386_context -> Prop := fun _ => True.

Lemma kwp_run_i386 ch budget t s m :
  wt_i386_thread t = true -> running t s m -> is_u64 budget ->
  kwp True (run_i386 ch tid budget) (slice_ok any_context budget s) (slice_failed any_context s) s m.
Proof.
  intros H32 Hr Hb. unfold run_i386, run_context. do 3 kstep. eapply kwp_the_thread; [done|].
  pose proof (th_engines _ (rn_thread _ _ _ Hr)) as He. rewrite H32 in He.
  destruct He as (Hn & Hx & Hh & Hco & r & Ei & Hidle). rewrite Ei. kstep.
  eapply kwp_sound; [exact Hr|apply sound_triple; intros L; by apply i386_triple|].
  intros [[[reason r'] c']|] m1 Hr1 Hout; [|done]. destruct Hout as (r1 & d & -> & -> & Hi1 & Hreason & Hret).
  kstep. eapply kwp_write_thread; [exact Hr1|done| |].
  { split; [apply (rn_thread _ _ _ Hr)|]. cbn. rewrite H32. split_and!; eauto. }
  intros s1 Hr2 Hc1 Hres1. kstep. eapply kwp_put_run_context; [exact Hr2|]. intros s2 Hr3 Hc2 Hres2.
  cbn [gem_i386_runtime_last_stop_info]. kstep. eexists. split; [exact Hr3|].
  split; [done|by rewrite Hres2|cbn; by rewrite Hreason|done].
Qed.

(** ** Rounds *)

(** The state of the engines does not depend on the variables of the run. *)
Lemma running_vars {C} t p (c c' : C) r r' m : running t (WineRun p c r) m -> running t (WineRun p c' r') m.
Proof. by intros []. Qed.

(** What a run counts stays within the limits of the process. *)
Record within_limits (r : gem_wine_run_result) : Prop := WithinLimits {
  wl_retired : 0 <= rr_instructions_retired r <= pc_total_instruction_budget (wp_config p0);
  wl_callbacks : 0 <= rr_boundary_callbacks r <= pc_max_boundary_callbacks (wp_config p0) }.

(** A run between two rounds, or in a callback. *)
Record resting {C} (valid : C -> Prop) (s : wine_run C) : Prop := Resting {
  re_context : valid (ru_context s);
  re_limits : within_limits (ru_result s);
  re_outcome : rr_outcome (ru_result s) = GEM_WINE_RUN_FAILED }.

(** The outcome and the reason that go with a status. *)
Definition outcome_of (status : gem_wine_status) (r : gem_wine_run_result) : Prop :=
  match status with
  | GEM_WINE_OK => rr_outcome r = GEM_WINE_RUN_COMPLETE /\ rr_stop_reason r = stop_value GEM_STOP_HOST_RETURN
  | GEM_WINE_BUDGET_EXPIRED => rr_outcome r = GEM_WINE_RUN_BUDGET_EXPIRED
  | GEM_WINE_STOPPED => rr_outcome r = GEM_WINE_RUN_UNHANDLED_STOP
  | GEM_WINE_TERMINATED => rr_outcome r = GEM_WINE_RUN_TERMINATED
  | GEM_WINE_ENGINE_ERROR | GEM_WINE_CALLBACK_ERROR => rr_outcome r = GEM_WINE_RUN_FAILED
  | _ => False
  end.

(** A run that [break]s with [status]. *)
Record ended {C} (valid : C -> Prop) (status : gem_wine_status) (s : wine_run C) : Prop := Ended {
  en_limits : within_limits (ru_result s);
  en_outcome : outcome_of status (ru_result s);
  en_context : status <> GEM_WINE_ENGINE_ERROR -> valid (ru_context s) }.

Definition engine_running {C} (s : wine_run C) m : Prop := exists t, running t s m.

(** How a round goes on: it uses up budget or a callback, or it changes engines. *)
Definition progress {C D} (valid : C -> Prop) (due_ok : D -> wine_run C -> Prop) (s : wine_run C)
    (due : option D) (s' : wine_run C) m : Prop :=
  let r := ru_result s in
  let r' := ru_result s' in
  engine_running s' m /\ resting valid s' /\ rr_instructions_retired r <= rr_instructions_retired r' /\
  match due with
  | None => rr_boundary_callbacks r' = rr_boundary_callbacks r /\
      (rr_instructions_retired r < rr_instructions_retired r' \/
       rr_stop_reason r' = stop_value GEM_STOP_ARCH_TRANSITION)
  | Some d => rr_boundary_callbacks r' = rr_boundary_callbacks r + 1 /\ due_ok d s'
  end.
Definition stops {C} (valid : C -> Prop) (status : gem_wine_status) (s : wine_run C) m : Prop :=
  engine_running s m /\ ended valid status s.

Lemma config_limits : let c := wp_config p0 in
  0 < pc_segment_instruction_budget c <= pc_total_instruction_budget c /\ 0 < pc_max_boundary_callbacks c /\
  pc_total_instruction_budget c < 2 ^ 64 /\ pc_max_boundary_callbacks c < 2 ^ 64.
Proof.
  pose proof (config_budgets _ Hconfig). pose proof (cw_total _ Hconfig). pose proof (cw_callbacks _ Hconfig).
  unfold is_u64 in *. cbv zeta. lia.
Qed.

Section rounds.
Context {C : Type} (valid : C -> Prop).
Implicit Types (s : wine_run C).

Lemma kwp_next_budget (Q : Z -> wine_run C -> mem -> Prop) t s m :
  running t s m -> resting valid s ->
  (forall b, 0 < b -> is_u64 b -> rr_instructions_retired (ru_result s) + b <= pc_total_instruction_budget (wp_config p0) ->
     Q b s m) ->
  kwp True next_budget Q (stops valid) s m.
Proof.
  intros Hr [Hv [Hret Hcb] Ho] HQ. destruct config_limits as (Hseg & _ & Htot & _).
  destruct (process_now _ _ _ Hr) as (Ecfg & _). unfold next_budget, the_process, the_result. do 4 kstep. rewrite Ecfg.
  kstep. kstep.
  - split; [exists t; by destruct Hr|]. split; [by split|done|done].
  - bool_to_Z. match goal with Hlt : _ < pc_total_instruction_budget _ |- _ => rewrite Ecfg in Hlt end.
    kstep. rewrite !Ecfg. apply HQ; unfold is_u64; case_match; bool_to_Z; lia.
Qed.
End rounds.

(** ** A round of a run of ARM64EC or x64 code *)

Section arm.
Hypothesis Hlive0 : live_thread t0.

(** A context that the run of [t0] may work on. *)
Definition valid_for (c : gem_thread_context) : Prop :=
  context_wf c /\ context_valid_for_thread t0 (Some c) = true.

Lemma live_now {C} t (s : wine_run C) m : running t s m -> live_thread t.
Proof. intros [_ ((_ & _ & Hl & _) & _) _ _]. unfold live_thread in *. by rewrite Hl. Qed.

Lemma valid_same t c : same_thread t0 t -> context_valid_for_thread t (Some c) = context_valid_for_thread t0 (Some c).
Proof. intros [(Hc & _) _]. unfold context_valid_for_thread. by rewrite Hc. Qed.

Lemma valid_restart c : valid_for c -> valid_for (with_stop_reason c GEM_STOP_NONE).
Proof.
  intros [Hwf Hv]. split; [by apply with_stop_reason_wf|]. revert Hv. unfold context_valid_for_thread.
  change (gem_context_is_valid (Some (with_stop_reason c GEM_STOP_NONE))) with (gem_context_is_valid (Some c)).
  change (xreg (with_stop_reason c GEM_STOP_NONE) 18) with (xreg c 18).
  cbn [with_stop_reason c_reserved0 c_stop_reason c_isa c_teb]. rewrite !andb_true_iff. tauto.
Qed.

Lemma kwp_run_slice ch hybrid budget s0 s m :
  chosen s0 hybrid s m -> context_wf (ru_context s0) -> is_u64 budget ->
  kwp True (run_slice ch tid hybrid budget) (slice_ok context_wf budget s) (slice_failed context_wf s) s m.
Proof.
  intros (t & Hr & Hl & Hc & Hres & Hb) Hwf Hbud. rewrite <- Hc in Hwf.
  unfold run_slice. kgo.
  destruct hybrid as [image|]; [by apply (kwp_run_hybrid _ _ _ t); auto|].
  destruct (_ && _); [by apply (kwp_run_pure_x64 _ _ t)|by apply (kwp_run_native _ _ t)].
Qed.

(** What a callback that is due was asked to serve. *)
Definition due_ok (due : pending) (s : wine_run gem_thread_context) : Prop :=
  bq_context due.1 = ru_context s /\ bq_event due.1 = rr_last_event (ru_result s) /\
  bq_stop due.1 = rr_stop (ru_result s) /\ bq_event due.1 <> GEM_WINE_EVENT_INVARIANT_VIOLATION /\
  (c_isa (ru_context s) = GEM_ISA_ARM64EC -> is_Some due.2) /\ (forall v, due.2 = Some v -> Forall is_u128 v).

Lemma kwp_boundary_due reason stop t s m :
  running t s m -> resting valid_for s -> rr_stop (ru_result s) = stop ->
  kwp True (boundary_due tid reason stop) (fun due s' m' =>
      progress valid_for due_ok s (Some due) s' m' /\
      rr_instructions_retired (ru_result s') = rr_instructions_retired (ru_result s)) (stops valid_for) s m.
Proof.
  intros Hr [Hv [Hret Hcb] Ho] Hstop. destruct config_limits as (_ & Hmax & _ & Hcb64).
  destruct (process_now _ _ _ Hr) as (Ecfg & _ & _ & _). pose proof (live_now _ _ _ Hr) as Hl.
  destruct (live_engines t (rn_thread _ _ _ Hr) Hl) as ((r & Er & Hidle) & _).
  unfold boundary_due. kgo. eapply kwp_the_thread; [done|]. cbv zeta.
  set (event := classify_event _ _ _ _).
  destruct s as [p c res]; cbn [ru_process ru_context ru_result] in *. kgo. cbn [ru_process ru_context ru_result].
  assert (forall c' r', engine_running (WineRun p c' r') m) as Heng by (intros; eexists; by eapply running_vars).
  assert (within_limits (set_rr_last_event res event)) as Hlim by done.
  apply kwp_when; intros Hev; [kgo; split; [apply Heng|split; [done|done|done]]|].
  kgo. apply kwp_when; intros Hbd; [kgo; split; [apply Heng|split; [done|done|by intros _]]|].
  unfold callback_limit. kgo. cbn [ru_process ru_context ru_result]. rewrite Ecfg.
  apply kwp_when; intros Hmore; [kgo; split; [apply Heng|split; [done|done|by intros _]]|].
  bool_to_Z. cbn [rr_boundary_callbacks set_rr_last_event] in Hmore.
  assert (forall v, (c_isa c = GEM_ISA_ARM64EC -> is_Some v) -> (forall w, v = Some w -> Forall is_u128 w) ->
    kwp True (count_callback;; mret (make_request SIZEOF_BOUNDARY_REQUEST event c stop, v)) (fun due s' m' =>
      progress valid_for due_ok (WineRun p c res) (Some due) s' m' /\
      rr_instructions_retired (ru_result s') = rr_instructions_retired res) (stops valid_for)
      (WineRun p c (set_rr_last_event res event)) m) as Hgo.
  { intros v Hvec Hu. unfold count_callback. kgo. cbn. unfold wrap64. rewrite Z.mod_small by lia.
    split; [|done]. split; [apply Heng|]. split; [split; [done| |done]; split; cbn; lia|]. split; [done|].
    split; [done|]. by split_and!. }
  destruct (Z.eqb_spec (c_isa c) GEM_ISA_ARM64EC) as [Hisa|Hisa]; [|by apply Hgo].
  destruct Hidle as (Hwf & Hrun & Hnat & _). rewrite Er. cbn [gem_arm64ec_runtime_get_native_upper_simd].
  rewrite Hrun, Hnat. cbn [negb orb]. apply Hgo; [by eexists|]. intros w [= <-]. apply Hwf.
Qed.

(** What a slice retired is added up without overflow. *)
Lemma retired_fits {C} (s0 s : wine_run C) b stop :
  within_limits (ru_result s0) -> rr_instructions_retired (ru_result s0) + b <= pc_total_instruction_budget (wp_config p0) ->
  ru_result s = ru_result s0 -> 0 <= ws_instructions_retired stop <= b ->
  rr_instructions_retired (ru_result s) + ws_instructions_retired stop <= pc_total_instruction_budget (wp_config p0) /\
  rr_instructions_retired (ru_result s) + ws_instructions_retired stop < 2 ^ 64.
Proof. destruct config_limits as (_ & _ & Htot & _). intros _ Hb ->. lia. Qed.

Lemma kwp_wine_round ch t s m :
  running t s m -> resting valid_for s ->
  kwp True (wine_round ch tid) (progress valid_for due_ok s) (stops valid_for) s m.
Proof.
  intros Hr Hrest. unfold wine_round. kgo. eapply kwp_next_budget; [done..|]. intros b Hb Hbu Htotal.
  kgo. eapply kwp_mono; [by eapply kwp_choose_hybrid; [eapply live_now|]| |done].
  intros hybrid s1 m1 Hchosen. cbv beta. kgo.
  pose proof Hchosen as (t1 & Hr1 & _ & _ & Hres1 & _). destruct Hrest as [[Hwf Hv] [Hret Hcb] Ho].
  assert (forall s2 m2, ru_result s2 = ru_result s1 -> engine_running s2 m2 ->
    stops valid_for GEM_WINE_ENGINE_ERROR s2 m2) as Hfail.
  { intros s2 m2 E Hrun. split; [done|]. split; [split|..]; rewrite ?E, ?Hres1; [done|done|done|by intros []]. }
  eapply kwp_mono; [by apply (kwp_run_slice _ _ _ s)| |].
  2:{ intros status s2 m2 (-> & _ & E & Hrun). by apply Hfail. }
  intros [reason stop] s2 m2 (t2 & Hr2 & [Hc2 Hres2 Hreason Hret2]). cbn [fst snd] in *.
  destruct (retired_fits s s2 b stop ltac:(done) Htotal ltac:(by rewrite Hres2) Hret2) as [Hfit Hno].
  destruct s2 as [p c res]; cbn [ru_process ru_context ru_result] in *. rewrite Hres1 in Hres2. subst res.
  assert (forall c' r', running t2 (WineRun p c' r') m2) as Hrun by (intros; by eapply running_vars).
  kgo. cbn [ru_process ru_context ru_result]. apply kwp_when; intros Hover.
  { cbn in Hover. bool_to_Z. unfold UINT64_MAX in Hover. lia. }
  kgo. cbn [ru_process ru_context ru_result]. eapply kwp_the_thread; [apply Hrun|]. kgo.
  set (res := set_rr_instructions_retired _ _).
  rewrite (valid_same t2 c) by apply Hr2. apply kwp_when; intros Hvalid.
  { kgo. split; [by exists t2|]. split; [split; cbn; lia|done|by intros []]. }
  bool_to_Z. assert (within_limits res) as Hlim by (split; cbn; lia).
  assert (valid_for c) as Hvc by done.
  assert (forall c' r', engine_running (WineRun p c' r') m2) as Heng by (intros; by exists t2).
  assert (forall r', rr_instructions_retired r' = rr_instructions_retired res ->
    rr_boundary_callbacks r' = rr_boundary_callbacks res -> within_limits r') as Hsame.
  { intros r1 E1 E2. destruct Hlim. split; by rewrite ?E1, ?E2. }
  assert (forall due c' r', valid_for c' -> rr_instructions_retired r' = rr_instructions_retired res ->
    rr_boundary_callbacks r' = rr_boundary_callbacks res -> rr_outcome r' = rr_outcome res ->
    rr_stop_reason r' = rr_stop_reason res ->
    rr_instructions_retired (ru_result s) < rr_instructions_retired res \/ reason = GEM_STOP_ARCH_TRANSITION ->
    due = None -> progress valid_for due_ok s due (WineRun p c' r') m2) as Hgo.
  { intros due c' r' Hc' E1 E2 E3 E4 Hwhy ->. split; [apply Heng|]. split; [split; [done|by apply Hsame|cbn; by rewrite E3]|].
    cbn. rewrite E1, E2, E4. cbn in Hwhy |- *. split; [lia|]. split; [done|]. destruct Hwhy as [? | ->]; auto. }
  case_bool_decide as Harch; [destruct (transition_continues _ _ _)|]; cbn [andb].
  { unfold put_run_context. kgo. apply Hgo; try done; [by apply valid_restart|by right]. }
  all: case_bool_decide as Hhost;
    [kgo; split; [apply Heng|split; [by apply Hsame|split; [done|cbn; by rewrite Hhost]|by intros _]]|].
  all: case_bool_decide as Hexp;
    [kgo; apply kwp_when; intros Hz; kgo;
      [split; [apply Heng|split; [by apply Hsame|done|by intros _]]|];
     unfold put_run_context; kgo; bool_to_Z; apply Hgo; try done; [by apply valid_restart|left; cbn; lia]|].
  all: kgo; eapply kwp_mono; [by eapply (kwp_boundary_due _ _ t2)| |done].
  all: intros due s3 m3 [(H1 & H2 & H3 & H4) H5]; kgo; split; [done|]; split; [done|]; cbn in H3, H4, H5 |- *; split; [lia|done].
Qed.

(** The callback's answer. *)
Definition typed_response (r : gem_wine_boundary_response gem_thread_context) : Prop := context_wf (bp_context r).

Definition answered (s : wine_run gem_thread_context) (s' : wine_run gem_thread_context) m : Prop :=
  engine_running s' m /\ resting valid_for s' /\ ru_result s' = ru_result s.

Lemma kwp_restore_upper v (Q : unit -> wine_run gem_thread_context -> mem -> Prop) E t s m :
  running t s m -> (forall w, v = Some w -> Forall is_u128 w) ->
  (forall t' s', running t' s' m -> ru_context s' = ru_context s -> ru_result s' = ru_result s -> Q tt s' m) ->
  kwp True (restore_upper tid v) Q E s m.
Proof.
  intros Hr Hv HQ. unfold restore_upper. destruct v as [w|]; [|kgo; by eapply HQ].
  kgo. eapply kwp_the_thread; [done|]. pose proof (live_now _ _ _ Hr) as Hl.
  destruct (live_engines t (rn_thread _ _ _ Hr) Hl) as ((r & Er & Hidle) & Hx & Hh & Hco & Hi). rewrite Er.
  pose proof Hidle as (Hwf & Hrun & Hnat & Hrest).
  eapply kwp_write_thread; [exact Hr| | |intros s1 Hr1 Hc1 Hres1; exact (HQ _ s1 Hr1 Hc1 Hres1)].
  { split; [done|]. unfold native_broker. cbn. by rewrite Er, Hrun, Hnat. }
  apply live_wf; try done; [apply (rn_thread _ _ _ Hr)|].
  cbn. rewrite Hrun, Hnat. cbn. eexists. split; [done|].
  destruct Hwf as [Hm Hu Hprof]. split; [split; [done| |done]|done].
  change (Forall is_u128 (array 16 w)). apply Forall_array; [by vm_compute|]. by apply Hv.
Qed.

Lemma kwp_wine_respond due status response t s m :
  running t s m -> resting valid_for s -> typed_response response ->
  context_wf (bq_context due.1) -> (forall w, due.2 = Some w -> Forall is_u128 w) ->
  kwp True (wine_respond tid due status response) (fun _ => answered s) (stops valid_for) s m.
Proof.
  intros Hr Hrest Ht Hq Hvec. destruct due as [request vectors]. cbn [fst snd] in *. unfold wine_respond.
  assert (forall Q : unit -> wine_run gem_thread_context -> mem -> Prop, kwp True
    (restore_upper tid vectors;; break_with GEM_WINE_RUN_FAILED GEM_WINE_CALLBACK_ERROR) Q (stops valid_for) s m) as Hfail.
  { intros Q. kgo. eapply kwp_restore_upper; [done..|]. intros t1 s1 Hr1 Hc1 Hres1. kgo. destruct Hrest as [Hv [H1 H2] Ho].
    split; [exists t1; by destruct Hr1|]. split; [split; cbn; by rewrite Hres1|done|intros _; cbn; by rewrite Hc1]. }
  kgo. apply kwp_when; intros Hbad; [apply Hfail|]. cbv zeta.
  set (c := with_original_x64_sp _ _).
  kgo. apply kwp_when; intros Hterm.
  { unfold terminate. kgo. destruct Hrest as [Hv [H1 H2] Ho]. split; [exists t; by destruct Hr|]. by split. }
  kgo. eapply kwp_the_thread; [done|]. rewrite (valid_same t) by apply Hr.
  kgo. apply kwp_when; intros Hrefused; [apply Hfail|].
  unfold put_run_context. kgo. split; [exists t; by destruct Hr|]. split; [|done].
  destruct Hrest as [Hv Hlim Ho]. bool_to_Z. split; [|done|done]. split; [|done]. cbn. subst c.
  apply with_original_x64_sp_wf; [apply Hq|]. apply with_transition_cookie_wf; [apply Hq|exact Ht].
Qed.
End arm.

(** ** A round of an i386 run *)

Section i386.
Hypothesis H32 : wt_i386_thread t0 = true.

Definition i386_valid_for (c : gem_i386_context) : Prop := i386_context_valid_for_thread t0 c = true.

Lemma i386_now {C} t (s : wine_run C) m : running t s m -> wt_i386_thread t = true.
Proof. intros [_ ((_ & _ & Hl & _) & _) _ _]. by rewrite Hl. Qed.

Lemma i386_valid_same t c : same_thread t0 t -> i386_context_valid_for_thread t c = i386_context_valid_for_thread t0 c.
Proof. intros [(_ & Hc & _) _]. unfold i386_context_valid_for_thread. by rewrite Hc. Qed.

Lemma i386_valid_restart c : i386_valid_for c -> i386_valid_for (i386_with_stop_reason c GEM_STOP_NONE).
Proof.
  unfold i386_valid_for, i386_context_valid_for_thread. rewrite !andb_true_iff. intros [Hv Ht]. split; [|done].
  destruct (i386_stop_frame c GEM_STOP_NONE Hv) as (_ & _ & _ & _ & _ & E). by rewrite E.
Qed.

Definition i386_due_ok (due : gem_wine_boundary_request gem_i386_context) (s : wine_run gem_i386_context) : Prop :=
  bq_context due = ru_context s /\ bq_event due = rr_last_event (ru_result s) /\
  bq_stop due = rr_stop (ru_result s) /\ bq_event due <> GEM_WINE_EVENT_INVARIANT_VIOLATION.

(** A 32-bit run has no architecture transitions: every round that goes on makes
    progress. *)
Definition i386_progress s (due : option (gem_wine_boundary_request gem_i386_context)) s' m : Prop :=
  progress i386_valid_for i386_due_ok s due s' m /\
  (due = None -> rr_instructions_retired (ru_result s) < rr_instructions_retired (ru_result s')).

Lemma kwp_wine_i386_round ch t s m :
  running t s m -> resting i386_valid_for s ->
  kwp True (wine_i386_round ch tid) (i386_progress s) (stops i386_valid_for) s m.
Proof.
  intros Hr Hrest. unfold wine_i386_round. kgo. eapply kwp_next_budget; [done..|]. intros b Hb Hbu Htotal.
  kgo. pose proof Hrest as [Hv Hlim Ho].
  eapply kwp_mono; [eapply kwp_run_i386; [by eapply i386_now|done|done]| |].
  2:{ intros status s2 m2 (-> & _ & E & Hrun). split; [done|]. split; rewrite ?E; [done|done|by intros []]. }
  intros [reason stop] s2 m2 (t2 & Hr2 & [Hc2 Hres2 Hreason Hret2]). cbn [fst snd] in *.
  destruct (retired_fits s s2 b stop Hlim Htotal Hres2 Hret2) as [Hfit Hno].
  destruct s2 as [p c res]; cbn [ru_process ru_context ru_result] in *. subst res. destruct Hlim as [Hret Hcb].
  assert (forall c' r', running t2 (WineRun p c' r') m2) as Hrun by (intros; by eapply running_vars).
  kgo. cbn [ru_process ru_context ru_result]. eapply kwp_the_thread; [apply Hrun|]. kgo.
  rewrite (i386_valid_same t2 c) by apply Hr2.
  set (res := set_rr_instructions_retired _ _).
  assert (rr_instructions_retired res = rr_instructions_retired (ru_result s) + ws_instructions_retired stop) as Eret.
  { cbn. unfold wrap64. apply Z.mod_small. lia. }
  assert (forall r', rr_instructions_retired r' = rr_instructions_retired res ->
    rr_boundary_callbacks r' = rr_boundary_callbacks (ru_result s) -> within_limits r') as Hsame.
  { intros r1 E1 E2. split; rewrite ?E1, ?E2, ?Eret; lia. }
  assert (forall c' r', engine_running (WineRun p c' r') m2) as Heng by (intros; by exists t2).
  apply kwp_when; intros Hvalid; [kgo; split; [apply Heng|split; [by apply Hsame|done|by intros []]]|].
  bool_to_Z. assert (i386_valid_for c) as Hvc by done.
  case_bool_decide as Hhost; [kgo; split; [apply Heng|split; [by apply Hsame|split; [done|cbn; by rewrite Hhost]|by intros _]]|].
  case_bool_decide as Hexp.
  { kgo. apply kwp_when; intros Hz; kgo; [split; [apply Heng|split; [by apply Hsame|done|by intros _]]|].
    unfold put_run_context. kgo. bool_to_Z.
    assert (rr_instructions_retired (ru_result s) < rr_instructions_retired res) as Hlt by lia.
    split; [|done]. split; [apply Heng|]. split; [split; [by apply i386_valid_restart|by apply Hsame|done]|].
    cbn [ru_result]. split; [lia|]. split; [done|]. by left. }
  unfold i386_boundary_due. kgo. cbn [ru_context]. eapply kwp_the_thread; [apply Hrun|]. cbv zeta. kgo.
  cbn [ru_process ru_context ru_result]. set (event := classify_i386_event reason stop).
  apply kwp_when; intros Hev; [kgo; split; [apply Heng|split; [by apply Hsame|done|done]]|].
  kgo. apply kwp_when; intros Hbd; [kgo; split; [apply Heng|split; [by apply Hsame|done|by intros _]]|].
  destruct (process_now _ _ _ Hr2) as (Ecfg & _). cbn in Ecfg. destruct config_limits as (_ & Hmax & _ & Hcb64).
  unfold callback_limit. kgo. cbn [ru_process ru_context ru_result]. rewrite Ecfg.
  apply kwp_when; intros Hmore; [kgo; split; [apply Heng|split; [by apply Hsame|done|by intros _]]|].
  bool_to_Z. cbn [rr_boundary_callbacks set_rr_last_event res set_rr_instructions_retired set_rr_stop_reason set_rr_stop] in Hmore.
  unfold count_callback. kgo.
  set (res2 := set_rr_boundary_callbacks _ _).
  assert (rr_boundary_callbacks res2 = rr_boundary_callbacks (ru_result s) + 1) as Ecb.
  { cbn. unfold wrap64. apply Z.mod_small. lia. }
  split; [|done]. split; [apply Heng|]. split; [split; [done| |done]|].
  - split; cbn [ru_result]; [change (rr_instructions_retired res2) with (rr_instructions_retired res); lia|lia].
  - cbn [ru_result]. change (rr_instructions_retired res2) with (rr_instructions_retired res). split; [lia|]. by split_and!.
Qed.

Lemma kwp_wine_i386_respond request status response t s m :
  running t s m -> resting i386_valid_for s ->
  kwp True (wine_i386_respond tid request status response) (fun _ s' m' =>
    engine_running s' m' /\ resting i386_valid_for s' /\ ru_result s' = ru_result s) (stops i386_valid_for) s m.
Proof.
  intros Hr [Hv [H1 H2] Ho]. unfold wine_i386_respond.
  assert (engine_running s m) as Heng by by exists t.
  assert (forall (c : gem_i386_context) r, engine_running (WineRun (ru_process s) c r) m) as Hvars.
  { intros c r. exists t. destruct s. by eapply running_vars. }
  kgo. apply kwp_when; intros Hbad; [kgo; split; [apply Hvars|by split]|]. cbv zeta.
  set (c := i386_with_cookie _ _).
  kgo. apply kwp_when; intros Hterm; [unfold terminate; kgo; split; [apply Hvars|by split]|].
  kgo. eapply kwp_the_thread; [done|]. rewrite (i386_valid_same t) by apply Hr.
  kgo. apply kwp_when; intros Hrefused; [kgo; split; [apply Hvars|by split]|].
  unfold put_run_context. kgo. split; [apply Hvars|]. split; [|done].
  bool_to_Z. by split.
Qed.
End i386.
End runs.
End logic.
