(* ===== verification/WineCalls.v ===== *)
(** WineCalls: what the calls of the bridge other than runs do to a well-formed
    process: a rule for each, and what all of them keep. *)
From S2P Require Import Prelude Context Conversion MemoryModel Memory I386Memory MemoryLogic MemoryInv MemoryTotal MemorySpec MemoryAtomic.
From S2P Require Import Transaction TransactionInv TransactionWorld TransactionCommit.
From S2P Require Import Pe PeInvariant PeProperties Target TargetProperties Control Dynarmic Blink X64Engine X64EngineProperties.
From S2P Require Import I386Engine I386EngineProperties Arm64ecEngine Arm64ecEngineLogic Arm64ecEngineProperties.
From S2P Require Import Hybrid HybridRecord HybridLogic HybridProperties Wine WineLogic.

Section calls.
Context {platform : Platform} {dynarmic : Dynarmic} {blink : Blink} {allocator : Allocator}.
Implicit Types (p q : gem_wine_process) (t : gem_wine_thread).

(** ** A well-formed process *)

Definition apart (a b : gem_wine_arm64x_image) : Prop :=
  wm_loaded_end a <= wa_loaded_base (wm_config b) \/ wm_loaded_end b <= wa_loaded_base (wm_config a).

(** At most one kind of foreign code is routed. *)
Definition one_routing p : Prop :=
  ~ (wp_arm64x_routing_enabled p = true /\ wp_x86_64_routing_enabled p = true) /\
  ~ (wp_arm64x_routing_enabled p = true /\ wp_i386_routing_enabled p = true) /\
  ~ (wp_x86_64_routing_enabled p = true /\ wp_i386_routing_enabled p = true).

(** A thread as the process expects it: of the process's kind, and with the broker
    once ARM64X images are routed. *)
Record thread_fits p t : Prop := ThreadFits {
  tf_wf : thread_wf t;
  tf_kind : wt_i386_thread t = wp_i386_routing_enabled p;
  tf_routed : wp_arm64x_routing_enabled p = true ->
    native_broker t = Some native_image_boundary }.

Record process_wf p : Prop := ProcessWf {
  pw_config : config_wf (wp_config p);
  pw_images : Forall image_wf (wp_images p);
  pw_apart : ForallOrdPairs apart (wp_images p);
  pw_ids : NoDup (wm_id <$> wp_images p);
  pw_routing : one_routing p;
  pw_threads : Forall (fun x => thread_fits p x.2) (wp_threads p);
  pw_names : NoDup (wp_threads p).*1 }.

(** ** The list of threads *)

Lemma thread_at_elem tid t (l : list (nat * gem_wine_thread)) : thread_at tid l = Some t -> (tid, t) ∈ l.
Proof.
  induction l as [|[i u] l IH]; cbn; [done|]. destruct (Nat.eqb_spec i tid) as [->|]; [intros [= ->]; left|].
  intros H. right. by apply IH.
Qed.

Lemma thread_at_None tid (l : list (nat * gem_wine_thread)) : thread_at tid l = None <-> tid ∉ l.*1.
Proof.
  induction l as [|[i u] l IH]; cbn; [set_solver|]. destruct (Nat.eqb_spec i tid) as [->|]; [set_solver|].
  rewrite IH. set_solver.
Qed.

Lemma thread_fits_at p tid t : process_wf p -> thread_at tid (wp_threads p) = Some t -> thread_fits p t.
Proof.
  intros Hp Ht. pose proof (pw_threads _ Hp) as H. rewrite Forall_forall in H. by apply (H (tid, t)), thread_at_elem.
Qed.

Lemma put_thread_keys tid t (l : list (nat * gem_wine_thread)) : (put_thread_at tid t l).*1 = l.*1.
Proof.
  induction l as [|[i u] l IH]; cbn; [done|]. destruct (Nat.eqb_spec i tid) as [->|]; cbn; [done|by rewrite IH].
Qed.

Lemma put_thread_Forall (P : gem_wine_thread -> Prop) tid t (l : list (nat * gem_wine_thread)) :
  P t -> Forall (fun x => P x.2) l -> Forall (fun x => P x.2) (put_thread_at tid t l).
Proof. intros Ht. induction 1 as [|[i u] l Hu Hl IH]; cbn; [done|]. destruct (_ =? _)%nat; by constructor. Qed.

(** Two lists with the same threads, up to their engines. *)
Definition same_threads (l l' : list (nat * gem_wine_thread)) : Prop :=
  Forall2 (fun x y => x.1 = y.1 /\ kept_thread x.2 y.2) l l'.

Lemma same_threads_at tid l l' : same_threads l l' ->
  match thread_at tid l with
  | Some t => exists t', thread_at tid l' = Some t' /\ kept_thread t t'
  | None => thread_at tid l' = None
  end.
Proof.
  induction 1 as [|[i t] [j t'] l l' [Hij Ht] Hl IH]; cbn in *; [done|]. subst j.
  destruct (Nat.eqb_spec i tid); [by exists t'|done].
Qed.

Lemma same_threads_keys l l' : same_threads l l' -> l'.*1 = l.*1.
Proof. induction 1 as [|[i t] [j t'] l l' [Hij Ht] Hl IH]; cbn in *; [done|]. by rewrite IH, Hij. Qed.

#[export] Instance same_threads_refl : Reflexive same_threads.
Proof. intros l. induction l as [|[i t] l IH]; by constructor. Qed.

(** ** What a call leaves *)

(** [keeps p q]: the same configuration and the same threads, up to their engines;
    new ones are not locked. *)
Record call_keeps_process p q : Prop := CallKeeps {
  ck_config : wp_config q = wp_config p;
  ck_threads : forall tid,
    match thread_at tid (wp_threads p) with
    | Some t => exists t', thread_at tid (wp_threads q) = Some t' /\ kept_thread t t'
    | None => forall t', thread_at tid (wp_threads q) = Some t' -> wt_run_lock t' = None
    end }.

Lemma keeps_same_threads p q :
  wp_config q = wp_config p -> same_threads (wp_threads p) (wp_threads q) -> call_keeps_process p q.
Proof.
  intros Hc Hs. split; [done|]. intros tid. pose proof (same_threads_at tid _ _ Hs) as H.
  destruct (thread_at tid (wp_threads p)); [done|]. by rewrite H.
Qed.

#[export] Instance call_keeps_refl : Reflexive call_keeps_process.
Proof. intros p. by apply keeps_same_threads. Qed.

Definition call_post p q (m : mem) : Prop := sound m /\ process_wf q /\ call_keeps_process p q.

(** A body whose every exit keeps the process. *)
Definition keeps_call {R} (k : K gem_wine_process R R) : Prop := forall p m,
  sound m -> process_wf p -> kwp False k (fun _ q m' => call_post p q m') (fun _ q m' => call_post p q m') p m.

Lemma call_post_refl p m : sound m -> process_wf p -> call_post p p m.
Proof. intros. by split. Qed.

(** ** Guest memory *)

Lemma memory_sound {A} c (f : option mem -> result unit (A * option mem)) :
  call_ok c -> (forall m, run_call c (Some m) = effect (f (Some m))) -> triple sound (in_memory f) (fun _ => sound).
Proof.
  intros Hc Hf m Hm. destruct (run_call_safe c m Hc Hm) as (r & Hr & Hne & Hk). rewrite Hf in Hr.
  unfold in_memory, effect in *. destruct (f (Some m)) as [[a [m'|]]| |]; subst r; by try done.
Qed.

Lemma memory_call_keeps c f :
  call_ok c -> (forall m, run_call c (Some m) = effect (f (Some m))) -> keeps_call (memory_call f).
Proof.
  intros Hc Hf p m Hm Hp. unfold memory_call. kgo.
  eapply kwp_lift; [by eapply memory_sound|exact Hm|]. intros e m' Hm'. kgo. by apply call_post_refl.
Qed.

Lemma in_range_keeps a n k : keeps_call k -> keeps_call (in_range a n k).
Proof.
  intros Hk p m Hm Hp. unfold in_range. kgo. cbv beta. destruct (process_guest_range_valid _ _ _); [by apply Hk|].
  kgo. by apply call_post_refl.
Qed.

Lemma read_guest_sound a n : is_u64 a -> is_u64 n -> triple sound (read_guest a n) (fun _ => sound).
Proof.
  intros Ha Hn. unfold read_guest.
  eapply triple_bind; [by eapply (memory_sound (CallRead a (Some (replicate (Z.to_nat n) 0)) n))|].
  intros [e b]. by apply triple_ret.
Qed.

Lemma read_headers_sound base size n :
  is_u64 base -> 0 <= n < 2 ^ 32 -> base + size <= UINT64_MAX ->
  triple sound (read_headers base size n) (fun _ => sound).
Proof.
  intros Hb Hn Hsize. unfold read_headers. eapply triple_bind; [apply read_guest_sound; [done|by vm_compute]|].
  intros [dos|]; [|by apply triple_ret]. destruct (negb _); [by apply triple_ret|]. cbv zeta.
  destruct (_ || _) eqn:E; [by apply triple_ret|]. apply orb_false_iff in E as [E1 E2]. bool_to_Z.
  apply read_guest_sound; unfold is_u64, UINT64_MAX in *; lia.
Qed.

Lemma validate_x86_64_sound c : is_u64 (wx_loaded_base c) -> triple sound (validate_x86_64_ntdll c) (fun _ => sound).
Proof.
  intros Hb. unfold validate_x86_64_ntdll. cbv zeta. destruct (_ || _) eqn:E; [by apply triple_ret|].
  eapply triple_bind; [apply read_headers_sound; [done|lia|]|intros nt; by apply triple_ret].
  repeat (apply orb_false_iff in E as [E ?]). bool_to_Z. lia.
Qed.

Lemma validate_i386_sound c : is_u64 (wi_loaded_base c) -> triple sound (validate_i386_ntdll c) (fun _ => sound).
Proof.
  intros Hb. unfold validate_i386_ntdll. cbv zeta. destruct (_ || _) eqn:E; [by apply triple_ret|].
  eapply triple_bind; [apply read_headers_sound; [done|lia|]|intros nt; by apply triple_ret].
  repeat (apply orb_false_iff in E as [E ?]). bool_to_Z. unfold UINT64_MAX. lia.
Qed.

Lemma install_sound c : triple sound (install_x86_64_dispatcher_page c) (fun _ => sound).
Proof.
  unfold install_x86_64_dispatcher_page. set (page := GEM_WINE_X86_64_SYSCALL_DISPATCH_ADDRESS).
  eapply triple_bind; [by eapply (memory_sound (CallReserve (Some page) GEM_GUEST_PAGE_SIZE))|].
  intros [e a]. cbv zeta. destruct (Z.eqb_spec (default 0 a) page) as [->|]; [|rewrite orb_true_r; by apply triple_ret].
  destruct (negb (bool_decide (e = GEM_MEMORY_OK))); cbn [orb negb]; [by apply triple_ret|].
  eapply triple_bind; [by eapply (memory_sound (CallCommit page GEM_GUEST_PAGE_SIZE GEM_PAGE_READWRITE))|]. intros e1.
  eapply (triple_bind _ _ _ (fun _ => sound)).
  { case_bool_decide; [|by apply triple_ret].
    eapply triple_bind; [by eapply (memory_sound (CallWrite page (Some (le_bytes 8 (wx_windows_syscall_boundary c))) 8))|].
    intros [? ?]. by apply triple_ret. }
  intros e2. eapply (triple_bind _ _ _ (fun _ => sound)).
  { case_bool_decide; [|by apply triple_ret].
    by eapply (memory_sound (CallProtect page GEM_GUEST_PAGE_SIZE GEM_PAGE_READONLY (Some 0))). }
  intros [e3 old]. destruct (_ || _); [|by apply triple_ret].
  eapply triple_bind; [by eapply (memory_sound (CallRelease page GEM_GUEST_PAGE_SIZE))|]. intros e4. by apply triple_ret.
Qed.

(** ** Threads that only get other engines *)

(** What a thread is expected to be depends on what is routed only. *)
Lemma thread_fits_flags p q t :
  wp_i386_routing_enabled q = wp_i386_routing_enabled p ->
  wp_arm64x_routing_enabled q = wp_arm64x_routing_enabled p -> thread_fits p t -> thread_fits q t.
Proof. intros E1 E2 [H1 H2 H3]. split; [done|by rewrite E1|by rewrite E2]. Qed.

Lemma threads_fit_flags p q (l : list (nat * gem_wine_thread)) :
  wp_i386_routing_enabled q = wp_i386_routing_enabled p ->
  wp_arm64x_routing_enabled q = wp_arm64x_routing_enabled p ->
  Forall (fun x => thread_fits p x.2) l -> Forall (fun x => thread_fits q x.2) l.
Proof. intros E1 E2 H. eapply Forall_impl; [exact H|]. intros x. by apply thread_fits_flags. Qed.

(** A change of the engines of one thread. *)
Lemma process_put_thread p tid t t' :
  process_wf p -> thread_at tid (wp_threads p) = Some t -> kept_thread t t' -> thread_fits p t' ->
  process_wf (put_thread tid t' p) /\ call_keeps_process p (put_thread tid t' p).
Proof.
  intros [Hc Hi Ha Hids Hr Ht Hn] Hat Hs Hf. split.
  - split; try done; cbn; [|by rewrite put_thread_keys].
    apply (put_thread_Forall (thread_fits _)); [by eapply (thread_fits_flags p)|by eapply (threads_fit_flags p)].
  - split; [done|]. intros u. cbn. rewrite thread_at_put. destruct (Nat.eqb_spec u tid) as [->|Hu].
    + rewrite Hat. by eexists.
    + destruct (thread_at u (wp_threads p)) as [v|]; [by exists v|done].
Qed.

(** A change of the engines of all of them. *)
Lemma process_set_threads p l :
  process_wf p -> same_threads (wp_threads p) l -> Forall (fun x => thread_fits p x.2) l ->
  process_wf (set_wp_threads p l) /\ call_keeps_process p (set_wp_threads p l).
Proof.
  intros [Hc Hi Ha Hids Hr Ht Hn] Hs Hf. split; [|by apply keeps_same_threads].
  split; try done; cbn; [by eapply (threads_fit_flags p)|by rewrite (same_threads_keys _ _ Hs)].
Qed.

(** Thread of an ARM64EC or x64 process: its native runtime. *)
Lemma native_of t : thread_wf t -> wt_i386_thread t = false -> exists r, wt_runtime t = Some r /\ native_idle r.
Proof. intros [_ He] H. rewrite H in He. apply He. Qed.

Lemma set_native_wf t r :
  thread_wf t -> wt_i386_thread t = false -> native_idle r -> thread_wf (set_wt_runtime t (Some r)).
Proof. intros [Ha He] H Hr. split; [done|]. cbn. rewrite H in He |- *. destruct He as (_ & He). split; [by exists r|done]. Qed.

(** The walk always ends: between two rounds no runtime runs. *)
Lemma route_threads_ok p l :
  Forall (fun x => thread_fits p x.2) l -> wp_i386_routing_enabled p = false ->
  exists l', route_threads l = (true, l') /\ same_threads l l' /\ Forall (fun x => thread_fits (enable_arm64x p) x.2) l'.
Proof.
  intros Hl Hp. induction Hl as [|[i t] l [Hwf Hk Hro] Hl IH]; [by eexists|]. cbn [snd] in *. rewrite Hp in Hk.
  destruct (native_of t Hwf Hk) as (r & Er & Hidle). destruct IH as (l' & El & Hs & Hf).
  pose proof Hidle as (Haw & Hrun & Hnat & Hsvc & _). cbn [route_threads]. rewrite Er.
  cbn [gem_arm64ec_runtime_set_boundary_broker]. rewrite Hrun. cbn [negb]. rewrite El.
  eexists. split; [done|]. split; constructor; try done. cbn [snd].
  split; [|by cbn; rewrite Hp|by intros _].
  apply set_native_wf; [done..|]. split; [destruct Haw as [Hm Hu Hpr]; by split|].
  do 3 (split; [done|]). by right.
Qed.

Lemma one_routing_arm64x p :
  wp_x86_64_routing_enabled p || wp_i386_routing_enabled p = false -> one_routing (enable_arm64x p).
Proof. intros E. apply orb_false_iff in E as [E1 E2]. unfold one_routing. cbn. rewrite E1, E2. split_and!; by intros [??]. Qed.

Lemma prepare_arm64ec_keeps : keeps_call prepare_arm64ec.
Proof.
  intros p m Hm Hp. unfold prepare_arm64ec. kgo. apply kwp_when; intros E; [kgo; by apply call_post_refl|].
  kgo. pose proof E as E'. apply orb_false_iff in E' as [_ E2].
  destruct (route_threads_ok p _ (pw_threads _ Hp) E2) as (l' & El & Hs & Hf).
  change (wp_threads (id p)) with (wp_threads p). rewrite El. kgo. split; [done|].
  destruct Hp as [Hc Hi Ha Hids Hr Ht Hn]. split; [|by apply keeps_same_threads].
  split; try done; cbn; [exact (one_routing_arm64x p E)|by eapply (threads_fit_flags (enable_arm64x p))|by rewrite (same_threads_keys _ _ Hs)].
Qed.

(** ** Enabling x64 and 32-bit code *)

Lemma prepare_x86_64_keeps c : is_u64 (wx_loaded_base c) -> keeps_call (prepare_x86_64 c).
Proof.
  intros Hb p m Hm Hp. unfold prepare_x86_64. kgo. apply kwp_when; intros _; [kgo; by apply call_post_refl|].
  kgo. eapply kwp_lift; [by apply validate_x86_64_sound|exact Hm|]. intros valid m1 Hm1.
  kgo. apply kwp_when; intros _; [kgo; by apply call_post_refl|]. kgo. change (id p) with p.
  destruct (wp_arm64x_routing_enabled p) eqn:E1; cbn [orb]; [kgo; by apply call_post_refl|].
  destruct (wp_i386_routing_enabled p) eqn:E2; [kgo; by apply call_post_refl|].
  destruct (wp_x86_64_routing_enabled p) eqn:E3; [kgo; by apply call_post_refl|].
  kgo. eapply kwp_lift; [apply install_sound|exact Hm1|]. intros status m2 Hm2.
  kgo. apply kwp_when; intros _; kgo; [|by apply call_post_refl].
  split; [done|]. split; [|by apply keeps_same_threads]. destruct Hp as [Hc Hi Ha Hids Hr Ht Hn]. split; try done.
  - unfold one_routing. cbn. rewrite E1, E2. split_and!; by intros [??].
  - by eapply (threads_fit_flags p).
Qed.

Lemma prepare_i386_keeps c : is_u64 (wi_loaded_base c) -> keeps_call (prepare_i386 c).
Proof.
  intros Hb p m Hm Hp. unfold prepare_i386. kgo. apply kwp_when; intros _; [kgo; by apply call_post_refl|].
  kgo. eapply kwp_lift; [by apply validate_i386_sound|exact Hm|]. intros valid m1 Hm1.
  kgo. apply kwp_when; intros _; [kgo; by apply call_post_refl|]. kgo. change (id p) with p.
  case_bool_decide as E0; cbn [orb negb]; [|kgo; by apply call_post_refl].
  destruct (wp_arm64x_routing_enabled p) eqn:E1; cbn [orb]; [kgo; by apply call_post_refl|].
  destruct (wp_x86_64_routing_enabled p) eqn:E2; [kgo; by apply call_post_refl|].
  destruct (wp_i386_routing_enabled p) eqn:E3; [kgo; by apply call_post_refl|].
  kgo. split; [done|]. split; [|by apply keeps_same_threads]. destruct Hp as [Hc Hi Ha Hids Hr Ht Hn]. split; try done.
  - unfold one_routing. cbn. rewrite E1, E2. split_and!; by intros [??].
  - cbn. apply nil_length_inv in E0. rewrite E0. done.
Qed.

(** A reservation at an address gets that address: the bridge never has to give
    one back. *)
Lemma reserve_sound a n : is_u64 a -> a <> 0 -> is_u64 n ->
  triple sound (in_memory (fun m => gem_memory_reserve m (Some a) n))
    (fun x m => sound m /\ (x.1 = GEM_MEMORY_OK -> x.2 = Some a)).
Proof.
  intros Ha Hne Hn m Hm.
  pose proof (memory_sound (CallReserve (Some a) n) (fun m => gem_memory_reserve m (Some a) n) (conj Ha Hn)
    (fun _ => eq_refl) m Hm) as Hs. cbv beta in Hs.
  unfold in_memory in *. destruct (gem_memory_reserve (Some m) (Some a) n) as [[[e r] [m'|]]| |] eqn:E; [|done..].
  split; [done|]. cbn [fst snd]. intros ->.
  unfold gem_memory_reserve in E. apply locked_run in E.
  destruct (triple_run _ _ _ _ _ _ (reserve_locked_triple no_pins a n (m_pages m) no_pins_nonneg
    ltac:(apply Ha) ltac:(apply Hn)) (conj Hm eq_refl) E) as [_ [(H & _) | (b & head & Er & _ & Hb & _)]]; [done|].
  cbn in Er. injection Er as ->. by rewrite Hb.
Qed.

Lemma reserve_keeps a n : is_u64 a -> a <> 0 -> is_u64 n -> keeps_call (reserve_exactly a n).
Proof.
  intros Ha Hne Hn p m Hm Hp. unfold reserve_exactly. kgo.
  eapply kwp_lift; [by apply reserve_sound|exact Hm|]. intros [e r] m1 [Hm1 Hr]. cbv zeta. cbn [fst snd] in Hr.
  destruct (_ && _) eqn:E; kgo; [|by apply call_post_refl]. apply andb_true_iff in E as [E1%bool_decide_eq_true_1 E2].
  rewrite (Hr E1) in E2. cbn in E2. by rewrite Z.eqb_refl in E2.
Qed.

Lemma protect_keeps a n prot old : is_u64 a -> is_u64 n -> keeps_call
  ('(error, _) ← lift (in_memory (fun m => gem_memory_protect m a n prot old)); mret (memory_status error)).
Proof.
  intros Ha Hn p m Hm Hp. kgo.
  eapply kwp_lift; [by eapply (memory_sound (CallProtect a n prot old))|exact Hm|]. intros [e o] m1 Hm1.
  kgo. by apply call_post_refl.
Qed.

Lemma commit_i386_host_keeps a h n prot : is_u64 a -> is_u64 n ->
  keeps_call (memory_call (fun m => gem_i386_memory_commit_host m a h n prot)).
Proof.
  intros Ha Hn p m Hm Hp. unfold memory_call. kgo.
  eapply (kwp_lift _ _ sound (fun _ => sound)); [|exact Hm|intros e m' Hm'; kgo; by apply call_post_refl].
  unfold gem_i386_memory_commit_host, ranged.
  pose proof (memory_sound (CallCommitExternal a h n prot) (fun m => gem_memory_commit_external m a h n prot)
    (conj Ha Hn) (fun _ => eq_refl)) as Hc.
  destruct (range_error a n); first [exact Hc|by intros m1 Hm1].
Qed.

(** ** Code invalidation *)

Lemma invalidate_native r address size :
  native_idle r ->
  match gem_arm64ec_runtime_invalidate_code (Some r) address size with
  | Ok (Some r') => native_idle r' /\ ar_boundary_broker r' = ar_boundary_broker r
  | Ok None | Fault => False
  | Err _ => True
  end.
Proof.
  intros Hr. cbn [gem_arm64ec_runtime_invalidate_code]. destruct (size =? 0) eqn:Ez; [done|].
  unfold gem_arm64ec_dynarmic_invalidate_code. rewrite Ez. destruct (ar_backend r); [|done].
  destruct (jit_new _) as [[core cpu]|]; [|done]. cbn. split; [|done].
  destruct Hr as ([Hm Hu Hp] & Hrest). by split.
Qed.

Lemma invalidate_x64 r address size :
  x64_idle r -> forall r', gem_x64_runtime_invalidate_code (Some r) address size = Some r' -> x64_idle r'.
Proof.
  intros [Ht Hr] r'. cbn. rewrite Hr. unfold gem_x64_blink_invalidate_code.
  destruct (blink_gem_machine_invalidate_code _ _ _) as [[] g]; cbn; by intros [= <-].
Qed.

Lemma invalidate_i386 r address size :
  i386_idle r -> exists r', gem_i386_runtime_invalidate_code (i386_ops_of r) (Some r) address size = Some r' /\ i386_idle r'.
Proof.
  intros Hr. pose proof Hr as [(Ht & [g Hg] & Hq & Hp) Hrun]. cbn. rewrite Hrun.
  assert (op_invalidate_code (i386_ops_of r) = gem_i386_blink_invalidate_code) as ->
    by (unfold i386_ops_of; by destruct (_ =? _)).
  unfold gem_i386_blink_invalidate_code. destruct (negb _); [by eexists|]. rewrite Hg.
  destruct (blink_gem_machine_invalidate_code _ _ _) as [[] g']; cbn; eexists; (split; [done|]); split; try done;
    split; try done; split; try done; by eexists.
Qed.

Lemma invalidate_x64_fits h r address size :
  x64_fits h r -> exists r', gem_x64_runtime_invalidate_code (Some r) address size = Some r' /\ x64_fits h r'.
Proof.
  intros Hf. pose proof Hf as (Ht & Hr & Hrest). cbn. rewrite Hr. unfold gem_x64_blink_invalidate_code.
  destruct (blink_gem_machine_invalidate_code _ _ _) as [[] g]; cbn; by eexists.
Qed.

Lemma invalidate_hybrid r address size :
  hybrid_wf r ->
  match gem_hybrid_runtime_invalidate_code (Some r) address size with
  | Ok (Some r') => hybrid_wf r'
  | Ok None | Fault => False
  | Err _ => True
  end.
Proof.
  intros Hr. cbn [gem_hybrid_runtime_invalidate_code]. destruct (size =? 0) eqn:Ez; [done|].
  cbn [gem_arm64ec_runtime_invalidate_code]. rewrite Ez. unfold gem_arm64ec_dynarmic_invalidate_code. rewrite Ez.
  destruct Hr as [Hmeta Hgen Hsent Hbud Hrun Harm Hx64 Hst].
  destruct (invalidate_x64_fits _ _ address size Hx64) as (x & -> & Hx).
  destruct (ar_backend (hr_arm r)); [|by split].
  destruct (jit_new _) as [[core cpu]|]; [|done]. cbn. split; try done.
  destruct Harm as ([Hm Hu Hp] & Hrest). by split.
Qed.

Lemma invalidate_hybrids_ok address size l :
  Forall (fun b => hybrid_wf (wb_runtime b)) l ->
  match invalidate_hybrids address size l with
  | Ok l' => Forall (fun b => hybrid_wf (wb_runtime b)) l' /\ wb_image <$> l' = wb_image <$> l
  | Err _ => True
  | Fault => False
  end.
Proof.
  induction 1 as [|b l Hb Hl IH]; [done|]. cbn [invalidate_hybrids].
  pose proof (invalidate_hybrid _ address size Hb) as H.
  destruct (gem_hybrid_runtime_invalidate_code _ _ _) as [[r|]| |]; [|done..]. cbn [mbind result_bind].
  destruct (invalidate_hybrids address size l) as [l'| |]; [|done..]. cbn. destruct IH as [IH1 IH2].
  split; [by constructor|]. by rewrite IH2.
Qed.

Lemma bound_images image l l' : wb_image <$> l' = wb_image <$> l -> bound image l -> bound image l'.
Proof.
  unfold bound. revert l'. induction l as [|b l IH]; intros [|b' l'] E; [by intros [??]..|]. cbn in E |- *.
  injection E as E1 E2. rewrite E1. destruct (_ =? _)%nat; [by eexists|]. by apply IH.
Qed.

Lemma invalidate_thread_ok p address size t :
  thread_fits p t ->
  match invalidate_thread address size t with
  | Ok t' => thread_fits p t' /\ kept_thread t t'
  | Err _ => True
  | Fault => False
  end.
Proof.
  intros [[Ha He] Hk Hro]. unfold invalidate_thread. destruct (wt_i386_thread t) eqn:E32.
  - destruct He as (En & -> & Eh & Eco & r & -> & Hidle). rewrite Eh, En. cbn [gem_arm64ec_runtime_invalidate_code].
    cbn [mbind result_bind invalidate_hybrids gem_x64_runtime_invalidate_code].
    assert (exists r', (if address <=? UINT32_MAX
      then gem_i386_runtime_invalidate_code (i386_ops_of r) (Some r) (wrap32 address) size else Some r) = Some r' /\
      i386_idle r') as (r' & -> & Hr'); [destruct (_ <=? _); [by apply invalidate_i386|by eexists]|].
    split; [|done]. split; [split; [done|]; cbn; rewrite E32; split_and!; eauto|cbn; congruence|].
    intros Hr. specialize (Hro Hr). unfold native_broker in Hro. by rewrite En in Hro.
  - destruct He as ((r & Er & Hidle) & Hx & Hh & Hco & ->). rewrite Er.
    pose proof (invalidate_native r address size Hidle) as Hn.
    destruct (gem_arm64ec_runtime_invalidate_code _ _ _) as [[r'|]| |]; [|done..]. destruct Hn as [Hn Hb].
    cbn [mbind result_bind]. pose proof (invalidate_hybrids_ok address size _ Hh) as Hh'.
    destruct (invalidate_hybrids _ _ _) as [l'| |]; [|done..]. destruct Hh' as [Hh1 Hh2]. cbn [mbind result_bind].
    split; [|done]. split; [|cbn; congruence|].
    + split; [done|]. cbn. rewrite E32. split; [by exists r'|]. split.
      { intros x Ex. destruct (wt_x64_runtime t) as [y|]; [|done]. by eapply invalidate_x64; [apply Hx|]. }
      split; [done|]. split; [|done]. intros image Hi. by eapply bound_images, Hco.
    + intros Hr. specialize (Hro Hr). unfold native_broker in *. rewrite Er in Hro. cbn in *. by rewrite Hb.
Qed.

Lemma invalidate_threads_ok p address size l :
  Forall (fun x => thread_fits p x.2) l ->
  match invalidate_threads address size l with
  | Ok l' => Forall (fun x => thread_fits p x.2) l' /\ same_threads l l'
  | Err _ => True
  | Fault => False
  end.
Proof.
  induction 1 as [|[i t] l Ht Hl IH]; [done|]. cbn [invalidate_threads].
  pose proof (invalidate_thread_ok p address size t Ht) as H1.
  destruct (invalidate_thread _ _ _) as [t'| |]; [|done..]. cbn [mbind result_bind].
  destruct (invalidate_threads _ _ _) as [l'| |]; [|done..]. cbn. destruct H1 as [H1 H2], IH as [IH1 IH2].
  split; constructor; auto.
Qed.

Lemma invalidate_code_keeps address size : keeps_call
  (p ← gets id;
   threads ← lift (fun m => match invalidate_threads address size (wp_threads p) with
                            | Ok threads => Ok (threads, m) | Err e => Err e | Fault => Fault end);
   modify (fun p => set_wp_threads p threads);; mret GEM_WINE_OK).
Proof.
  intros p m Hm Hp. kgo. pose proof (invalidate_threads_ok p address size _ (pw_threads _ Hp)) as H.
  change (id p) with p.
  eapply (kwp_lift _ _ sound (fun l m' => sound m' /\ Forall (fun x => thread_fits p x.2) l /\
    same_threads (wp_threads p) l)); [|exact Hm|].
  - intros m0 Hm0. by destruct (invalidate_threads _ _ _).
  - intros l m1 (Hm1 & Hf & Hs). kgo. destruct (process_set_threads p l Hp Hs Hf). by split.
Qed.

(** ** Registering an image *)

Definition arm64x_typed (c : gem_wine_arm64x_config) : Prop :=
  is_u64 (wa_loaded_base c) /\ is_u64 (wa_image_size c) /\ is_u64 (wa_checker_helper c) /\
  is_u64 (wa_dispatch_call_helper c) /\ is_u64 (wa_dispatch_jump_helper c) /\ is_u64 (wa_dispatch_ret_helper c).
#[export] Instance arm64x_typed_dec c : Decision (arm64x_typed c).
Proof. unfold arm64x_typed; apply _. Defined.

Lemma arm64x_range c : arm64x_config_ok c = true -> arm64x_typed c ->
  0 < wa_loaded_base c /\ 0 < wa_image_size c /\ wa_loaded_base c + wa_image_size c <= UINT64_MAX.
Proof.
  unfold arm64x_config_ok, arm64x_typed, is_u64, UINT64_MAX. rewrite negb_true_iff. cbv zeta.
  intros H Hc. repeat (apply orb_false_iff in H as [H ?]). bool_to_Z. lia.
Qed.

Lemma load_arm64x_ok block mapped c :
  Forall is_u8 mapped -> arm64x_typed c -> wa_image_size c <= Z.of_nat (length mapped) ->
  match load_arm64x block mapped c with
  | Ok (metadata, _, map) => (exists b, image_ok b metadata) /\ map_ok map /\ tm_loaded_base map = wa_loaded_base c
  | Err _ => True
  | Fault => False
  end.
Proof.
  intros Hm (Hb & Hs & _) Hlen. unfold load_arm64x, gem_pe_arm64x_parse_mapped.
  pose proof (parse_image_safe mapped (wa_image_size c) (wa_loaded_base c) true None true Hm
    ltac:(unfold is_u64 in Hs; lia)) as Hp.
  destruct (parse_image _ _ _ _ _ _) as [im| |]; [|done..]. destruct Hp as [Him _].
  cbn [map_err mbind result_bind gem_pe_arm64x_get_summary]. unfold require. destruct (_ =? _); [|done].
  cbn [mbind result_bind].
  destruct block.
  - pose proof (target_map_create_spec true im (wa_loaded_base c) Him Hb) as Ht.
    destruct (gem_arm64ec_target_map_create _ _ _ _) as [map| |]; [|done..]. cbn. destruct Ht as (H1 & _ & H2).
    split; [by eexists|done].
  - unfold gem_arm64ec_target_map_create. rewrite bool_decide_eq_false_2 by done. done.
Qed.

Lemma overlaps_apart im current : overlaps im current = false -> apart im current.
Proof. unfold overlaps, apart. intros H. apply andb_false_iff in H as [H|H]; bool_to_Z; lia. Qed.

Lemma find_none_apart im images : List.find (overlaps im) images = None -> Forall (apart im) images.
Proof.
  induction images as [|x l IH]; [by constructor|]. cbn. destruct (overlaps im x) eqn:E; [done|].
  intros H. constructor; [by apply overlaps_apart|auto].
Qed.

(** [keeps_call] for a process with more images. *)
Lemma finish_registration_keeps c p q m :
  sound m -> process_wf q -> wp_config q = wp_config p -> wp_threads q = wp_threads p ->
  kwp False (finish_registration c) (fun _ q m' => call_post p q m') (fun _ q m' => call_post p q m') q m.
Proof.
  intros Hm Hq Ec Et. unfold finish_registration. destruct (has_bits _ _).
  - kgo. split; [done|]. split; [done|]. apply keeps_same_threads; [done|by rewrite Et].
  - eapply kwp_mono; [by apply prepare_arm64ec_keeps| |]; cbv beta; intros _ q' m' (H1 & H2 & [H3 H4]);
      (split; [done|]); (split; [done|]); (split; [by rewrite H3|]); by rewrite Et in H4.
Qed.

Lemma image_added p im :
  process_wf p -> image_wf im -> wm_id im ∉ (wm_id <$> wp_images p) -> List.find (overlaps im) (wp_images p) = None ->
  process_wf (set_wp_images p (im :: wp_images p)).
Proof.
  intros [Hcfg Hi Ha Hids Hr Ht Hn] Him Hnew Hf. split; try done; cbn.
  - by constructor.
  - constructor; [by apply find_none_apart|done].
  - by constructor.
  - by eapply (threads_fit_flags p).
Qed.

(** The image that a registration builds. *)
Lemma built_wf address metadata summary map c :
  arm64x_config_ok c = true -> arm64x_typed c -> (exists b, image_ok b metadata) -> map_ok map ->
  tm_loaded_base map = wa_loaded_base c ->
  image_wf (WineImage address metadata map summary (stored_config c) (wa_loaded_base c + wa_image_size c)).
Proof.
  intros Hok Hc Him Hmap Hbase. destruct (arm64x_range c Hok Hc) as (H1 & H2 & H3). split; try done. cbn. apply Hc.
Qed.

Lemma register_keeps address block mapped c p m :
  sound m -> process_wf p -> arm64x_typed c -> Forall is_u8 mapped -> wa_image_size c <= Z.of_nat (length mapped) ->
  address ∉ (wm_id <$> wp_images p) ->
  kwp False (register_arm64x_mapped address block mapped c)
    (fun _ q m' => call_post p q m') (fun _ q m' => call_post p q m') p m.
Proof.
  intros Hm Hp Hc Hb Hlen Hnew. unfold register_arm64x_mapped. kgo. apply kwp_when; intros Hok; [kgo; by apply call_post_refl|].
  apply negb_false_iff in Hok. kgo. eapply kwp_lift; [apply sound_alloc|exact Hm|]. intros object m1 Hm1.
  destruct object as [u|]; [|kgo; by apply call_post_refl].
  pose proof (load_arm64x_ok block mapped c Hb Hc Hlen) as Hl.
  destruct (load_arm64x block mapped c) as [[[metadata summary] map]| |]; [|kgo; by apply call_post_refl|done].
  destruct Hl as ((b & Him) & Hmap & Hbase). cbv zeta. set (im := WineImage _ _ _ _ _ _). kgo. change (id p) with p.
  destruct (List.find (overlaps im) (wp_images p)) as [current|] eqn:Ef.
  - destruct (_ && _); [by apply finish_registration_keeps|kgo; by apply call_post_refl].
  - kgo. apply finish_registration_keeps; [done| |done..]. apply image_added; try done.
    apply built_wf; try done. by exists b.
Qed.

(** ** Threads *)

(** The native runtime that a thread is created with. *)
Lemma native_create_triple config :
  triple sound (gem_arm64ec_runtime_create true (Some (Arm64ecConfig (pc_host_return_sentinel config) 0
      (pc_segment_instruction_budget config) 0 GEM_ARM64EC_PROFILE_NATIVE_ARM64 GEM_ARM64EC_BOUNDARY_PRECISE)))
    (fun r m => sound m /\ forall r1, r = Some r1 -> native_idle r1 /\ ar_boundary_broker r1 = None).
Proof.
  apply sound_triple. intros L. unfold gem_arm64ec_runtime_create. cbn [negb].
  eapply triple_bind; [apply alloc_triple|]. intros [u|]; [|by apply triple_ret].
  destruct (arm64ec_configure _) as [c|] eqn:Hc; [|by apply triple_ret].
  unfold arm64ec_configure in Hc. cbn in Hc. injection Hc as <-. unfold gem_arm64ec_dynarmic_create.
  set (c := Arm64ecConfig _ _ _ _ _ _).
  eapply (triple_bind _ _ _ (fun x m => st no_pins L m /\ (x.1 = true -> native_idle x.2 /\ ar_boundary_broker x.2 = None))).
  - eapply triple_bind; [apply alloc_triple|]. intros q. apply triple_ret. intros m Hm. split; [done|].
    destruct q as [u'|]; [|done]. destruct (jit_new _) as [[core cpu]|]; [|done]. intros _.
    split; [|done]. split; [|do 3 (split; [done|]); by left].
    split; [by split| |done]. change (Forall is_u128 (replicate 16 u128_zero)). apply Forall_replicate. by vm_compute.
  - intros [ok r]. apply triple_ret. intros m [Hm Ho]. split; [done|]. destruct ok; [|done]. intros r1 [= <-]. by apply Ho.
Qed.

Lemma publish_keeps tid t p m :
  sound m -> process_wf p -> thread_at tid (wp_threads p) = None -> thread_fits p t -> wt_run_lock t = None ->
  kwp False (publish_thread tid t) (fun _ q m' => call_post p q m') (fun _ q m' => call_post p q m') p m.
Proof.
  intros Hm [Hc Hi Ha Hids Hr Ht Hn] Hnew Hf Hlock. unfold publish_thread. kgo. split; [done|]. split.
  - split; try done; cbn.
    + constructor; [by eapply (thread_fits_flags p)|by eapply (threads_fit_flags p)].
    + constructor; [by apply thread_at_None|done].
  - split; [done|]. intros u. cbn. destruct (Nat.eqb_spec tid u) as [->|Hu].
    + rewrite Hnew. by intros t' [= <-].
    + destruct (thread_at u (wp_threads p)) as [v|]; [by exists v|done].
Qed.

Lemma thread_create_keeps tid locks c p m :
  sound m -> process_wf p -> thread_at tid (wp_threads p) = None ->
  kwp False (thread_create tid locks c) (fun _ q m' => call_post p q m') (fun _ q m' => call_post p q m') p m.
Proof.
  intros Hm Hp Hnew. unfold thread_create, refuse. kgo.
  destruct (wp_i386_routing_enabled p) eqn:E32; cbn [orb]; [kgo; by apply call_post_refl|].
  destruct (negb _); [kgo; by apply call_post_refl|]. kgo.
  eapply kwp_lift; [apply sound_alloc|exact Hm|]. intros [u|] m1 Hm1; [|kgo; by apply call_post_refl].
  destruct (negb locks); [kgo; by apply call_post_refl|]. kgo.
  eapply kwp_lift; [apply native_create_triple|exact Hm1|]. intros [r|] m2 [Hm2 Hr]; [|kgo; by apply call_post_refl].
  destruct (Hr r eq_refl) as [Hidle Hb]. pose proof Hidle as (Haw & Hrun & Hnat & Hsvc & _).
  assert (forall t r1, native_idle r1 -> (wp_arm64x_routing_enabled p = true -> ar_boundary_broker r1 = Some native_image_boundary) ->
    t = WineThread (Some r1) None None [] None None c i386_thread_config_zero false None -> thread_fits p t) as Hfit.
  { intros t r1 H1 H2 ->. split; [|by cbn; rewrite E32|intros E; by apply H2]. split; [done|]. cbn.
    split; [by exists r1|]. split_and!; try done; by constructor. }
  destruct (wp_arm64x_routing_enabled p) eqn:Er; cbn [gem_arm64ec_runtime_set_boundary_broker].
  - rewrite Hrun. cbn [negb]. apply publish_keeps; try done. eapply Hfit; [| |done]; [|done].
    split; [destruct Haw as [? ? ?]; by split|]. do 3 (split; [done|]). by right.
  - cbn [negb]. apply publish_keeps; try done. by eapply Hfit.
Qed.

Lemma i386_create_triple config arriving :
  triple sound (gem_i386_runtime_create true (Some config) arriving)
    (fun r m => sound m /\ forall r1, r = Some r1 -> i386_idle r1).
Proof.
  unfold gem_i386_runtime_create, gem_i386_runtime_create_with_ops. cbv zeta.
  set (ops := if _ =? _ then _ else _). assert (op_create ops = gem_i386_blink_create) as Eops by (subst ops; by destruct (_ =? _)).
  destruct (_ || _); [by apply triple_ret|]. eapply triple_bind; [apply sound_alloc|]. intros [u|]; [|by apply triple_ret].
  destruct (i386_configure _ _) as [c|]; [|by apply triple_ret]. rewrite Eops. unfold gem_i386_blink_create.
  destruct (blink_gem_machine_create_with_config _ _) as [g|]; apply triple_ret; intros m Hm; (split; [done|]); [|done].
  intros r1 [= <-]. split; [|done]. split; [done|]. split; [by eexists|]. by split.
Qed.

Lemma i386_thread_create_keeps tid locks arriving c p m :
  sound m -> process_wf p -> thread_at tid (wp_threads p) = None ->
  kwp False (i386_thread_create tid locks arriving c)
    (fun _ q m' => call_post p q m') (fun _ q m' => call_post p q m') p m.
Proof.
  intros Hm Hp Hnew. unfold i386_thread_create, refuse. kgo.
  destruct (wp_i386_routing_enabled p) eqn:E32; cbn [negb orb]; [|kgo; by apply call_post_refl].
  destruct (negb _); [kgo; by apply call_post_refl|]. kgo.
  eapply kwp_lift; [apply sound_alloc|exact Hm|]. intros [u|] m1 Hm1; [|kgo; by apply call_post_refl].
  destruct (negb locks); [kgo; by apply call_post_refl|]. cbv zeta. kgo.
  eapply kwp_lift; [apply i386_create_triple|exact Hm1|]. intros [r|] m2 [Hm2 Hr]; [|kgo; by apply call_post_refl].
  apply publish_keeps; try done. split; [|by cbn; rewrite E32|].
  - split; [done|]. cbn. split_and!; try done. exists r. auto.
  - intros E. destruct (pw_routing _ Hp) as (_ & H & _). by destruct H.
Qed.

Lemma set_native_fits p t r r' :
  thread_fits p t -> wt_runtime t = Some r -> native_idle r' -> ar_boundary_broker r' = ar_boundary_broker r ->
  wt_i386_thread t = false -> thread_fits p (set_wt_runtime t (Some r')).
Proof.
  intros [Hwf Hk Hro] Er Hr' Hb H32. split; [by apply set_native_wf|by cbn|].
  intros E. specialize (Hro E). unfold native_broker in *. rewrite Er in Hro. cbn in *. by rewrite Hb.
Qed.

Lemma set_upper_keeps tid vectors p m :
  sound m -> process_wf p -> is_Some (thread_at tid (wp_threads p)) ->
  from_option (Forall is_u128) True vectors ->
  match gem_wine_thread_set_native_upper_simd (Some tid) vectors p m with
  | Ok (Some (_, q), m') => call_post p q m'
  | Err _ => True
  | _ => False
  end.
Proof.
  intros Hm Hp [t Ht] Hv. unfold gem_wine_thread_set_native_upper_simd, on_thread.
  apply kwp_body. case_bool_decide as Evec; [kgo; by apply call_post_refl|]. destruct vectors as [v|]; [|done].
  unfold deref_thread. kgo. rewrite Ht. kgo.
  destruct (wt_i386_thread t) eqn:E32; [kgo; by apply call_post_refl|].
  pose proof (thread_fits_at p tid t Hp Ht) as Hf. destruct (native_of t (tf_wf _ _ Hf) E32) as (r & Er & Hidle).
  rewrite Er. pose proof Hidle as (Haw & Hrun & Hnat & Hrest). cbn [gem_arm64ec_runtime_set_native_upper_simd].
  rewrite Hrun, Hnat. cbn [orb negb]. kgo. split; [done|]. eapply process_put_thread; try done.
  eapply set_native_fits; try done. split; [|done]. destruct Haw as [Hmt Hu Hpr]. split; [done| |done].
  change (Forall is_u128 (array 16 v)). apply Forall_array; [by vm_compute|done].
Qed.

Lemma async_stop_keeps tid p m :
  sound m -> process_wf p -> is_Some (thread_at tid (wp_threads p)) ->
  match gem_wine_thread_request_async_stop (Some tid) p m with
  | Ok (q, m') => call_post p q m'
  | _ => False
  end.
Proof.
  intros Hm Hp [t Ht]. unfold gem_wine_thread_request_async_stop. rewrite Ht.
  pose proof (thread_fits_at p tid t Hp Ht) as Hf. pose proof Hf as [[Ha He] Hk Hro]. rewrite Ha. cbn.
  split; [done|]. eapply process_put_thread; try done. split; [split; [done|]|done|].
  - cbn. destruct (wt_i386_thread t).
    + destruct He as (-> & -> & Eh & Eco & r & -> & (H1 & H2)). split_and!; try done. eexists. split; [done|]. by split.
    + destruct He as ((r & -> & Hidle) & Hx & Hh & Hco & ->). split.
      { eexists. split; [done|]. cbn. unfold gem_arm64ec_dynarmic_request_async_stop.
        destruct (ar_backend r); [|done]. destruct Hidle as ([? ? ?] & Hrest). by split. }
      split; [|done]. intros x. destruct (wt_x64_runtime t) as [y|]; [|done]. intros [= <-].
      destruct (Hx y eq_refl). by split.
  - intros E. specialize (Hro E). unfold native_broker in *. cbn. destruct (wt_runtime t) as [r|]; [|done].
    cbn in *. unfold gem_arm64ec_dynarmic_request_async_stop. by destruct (ar_backend r).
Qed.

(** ** Every call *)

(** The arguments fit their C types, pointers are to live objects and new objects
    are at new addresses. *)
Definition call_legal p (call : wine_call) : Prop :=
  let live thread := from_option (fun tid => is_Some (thread_at tid (wp_threads p))) True thread in
  match call with
  | WinePrepareArm64ec => True
  | WineRegister address _ mapped config =>
      address ∉ (wm_id <$> wp_images p) /\
      from_option (fun c => arm64x_typed c /\ Forall is_u8 mapped /\ wa_image_size c <= Z.of_nat (length mapped)) True config
  | WinePrepareX86_64 config => from_option (fun c => is_u64 (wx_loaded_base c)) True config
  | WinePrepareI386 config => from_option (fun c => is_u64 (wi_loaded_base c)) True config
  | WineReserve a n | WineCommitIdentity a _ n _ | WineCommitI386Host a _ n _ | WineDecommit a n | WineRelease a n
  | WineMapIdentity a _ n _ | WineUnmap a n | WineProtect a n _ _ | WineInvalidateCode a n => is_u64 a /\ is_u64 n
  | WineBindKuser h => is_u64 h
  | WineThreadCreate tid _ _ _ | WineI386ThreadCreate tid _ _ _ _ => thread_at tid (wp_threads p) = None
  | WineThreadDestroy thread | WineGetUpperSimd thread _ | WineAsyncStop thread => live thread
  | WineSetUpperSimd thread vectors => live thread /\ from_option (Forall is_u128) True vectors
  end.
#[export] Instance call_legal_dec p call : Decision (call_legal p call).
Proof.
  assert (forall thread : option nat, Decision (from_option (fun tid => is_Some (thread_at tid (wp_threads p))) True thread)).
  { intros [tid|]; cbn; apply _. }
  assert (forall tid, Decision (thread_at tid (wp_threads p) = None)).
  { intros tid. destruct (thread_at tid (wp_threads p)); [by right|by left]. }
  destruct call as [|? ? ? [c|]|[c|]|[c|]| | | | | | | | | | | | | |thread [v|]| |]; cbn; apply _.
Defined.

Definition performed (host : nat) (call : wine_call) p q (m : mem) : Prop :=
  sound m /\ process_wf q /\
  (call_keeps_process p q \/
   exists tid t, call = WineThreadDestroy (Some tid) /\ thread_at tid (wp_threads p) = Some t /\
     is_Some (run_trylock host t) /\ q = set_wp_threads p (remove_thread tid (wp_threads p))).

Lemma performed_post host call p q m : call_post p q m -> performed host call p q m.
Proof. intros (H1 & H2 & H3). split; [done|]. split; [done|]. by left. Qed.

(** The post-condition of a call as the process sees it. *)
Definition returned (host : nat) (call : wine_call) p (r : result unit (option (gem_wine_status * gem_wine_process) * mem)) : Prop :=
  match r with
  | Ok (Some (_, q), m') => performed host call p q m'
  | Err _ => True
  | Ok (None, _) | Fault => False
  end.

Lemma on_process_returned host call k p m :
  kwp False k (fun _ q m' => call_post p q m') (fun _ q m' => call_post p q m') p m ->
  returned host call p ((out ← on_process (Some p) k; mret (keep_process p out)) m).
Proof.
  intros Hk. apply kwp_body in Hk. unfold returned, on_process, mbind, M_bind.
  destruct (body k p m) as [[[[status q]|] m']| |]; [|done..]. cbn. by apply performed_post.
Qed.

Lemma on_process_out_returned host call k p m :
  kwp False k (fun _ q m' => call_post p q m') (fun _ q m' => call_post p q m') p m ->
  returned host call p ((out ← on_process_out (Some p) k;
    mret (match out with Some (status, _, q) => Some (status, default p q) | None => None end)) m).
Proof.
  intros Hk. apply kwp_body in Hk. unfold returned, on_process_out, mbind, M_bind.
  destruct (body k p m) as [[[[[status thread] q]|] m']| |]; [|done..]. cbn. by apply performed_post.
Qed.

Lemma remove_thread_keys tid (l : list (nat * gem_wine_thread)) : NoDup l.*1 -> NoDup (remove_thread tid l).*1.
Proof.
  unfold remove_thread. induction l as [|[i t] l IH]; cbn; [done|]. intros [Hi Hl]%NoDup_cons.
  destruct (Nat.eqb_spec i tid) as [->|Hn]; cbn; [auto|]. constructor; [|auto].
  intros Hin. apply Hi. apply list_elem_of_fmap in Hin as ([j u] & -> & Hin). cbn in *.
  apply list_elem_of_In, filter_In in Hin as [Hin _]. apply list_elem_of_In in Hin.
  apply list_elem_of_fmap. by exists (j, u).
Qed.

Lemma remove_thread_Forall (P : nat * gem_wine_thread -> Prop) tid (l : list (nat * gem_wine_thread)) :
  Forall P l -> Forall P (remove_thread tid l).
Proof.
  rewrite !Forall_forall. intros H x Hx. apply list_elem_of_In, filter_In in Hx as [Hx _].
  by apply H, list_elem_of_In.
Qed.

Lemma destroy_returned host thread p m :
  sound m -> process_wf p -> call_legal p (WineThreadDestroy thread) ->
  returned host (WineThreadDestroy thread) p (gem_wine_thread_destroy host thread p m).
Proof.
  intros Hm Hp Hl. destruct thread as [tid|]; [|by apply performed_post, call_post_refl]. destruct Hl as [t Ht].
  unfold gem_wine_thread_destroy, on_thread, returned.
  apply (kwp_body False _ (fun _ q m' => performed host (WineThreadDestroy (Some tid)) p q m')).
  unfold deref_thread. kgo. rewrite Ht. kgo.
  destruct (run_trylock host t) as [t'|] eqn:Elock; [|kgo; by apply performed_post, call_post_refl].
  kgo. split; [done|]. split; [|right; exists tid, t; split_and!; eauto].
  destruct Hp as [Hcfg Hi Ha Hids Hr Hth Hn]. split; try done; cbn; [|by apply remove_thread_keys].
  apply remove_thread_Forall. by eapply (threads_fit_flags p).
Qed.

Lemma perform_returned host call p m :
  sound m -> process_wf p -> call_legal p call -> returned host call p (perform host call p m).
Proof.
  intros Hm Hp Hl. pose proof (call_post_refl p m Hm Hp) as Hsame.
  destruct call as [|address block mapped [c|]|[c|]|[c|]|a n|a h n prot|a h n prot|a n|a n|a h n prot|a n|a n prot old
    |h|a n|tid locks [c|] []|tid locks arriving [c|] []|thread|[tid|] vectors|[tid|] has|[tid|]];
    cbn [call_legal from_option] in Hl; cbn [perform];
    unfold gem_wine_process_prepare_arm64ec, gem_wine_process_register_arm64x_mapped, gem_wine_process_prepare_x86_64,
      gem_wine_process_prepare_i386, gem_wine_process_reserve, gem_wine_process_commit_identity,
      gem_wine_process_commit_i386_host, gem_wine_process_decommit, gem_wine_process_release,
      gem_wine_process_map_identity, gem_wine_process_unmap, gem_wine_process_protect, gem_wine_process_bind_kuser,
      gem_wine_process_invalidate_code, gem_wine_thread_create, gem_wine_i386_thread_create;
    try (apply on_process_returned); try (apply on_process_out_returned); try (by kgo);
    try (apply in_range_keeps; [|done..]).
  - by apply prepare_arm64ec_keeps.
  - by apply register_keeps; tauto.
  - by apply prepare_x86_64_keeps.
  - by apply prepare_i386_keeps.
  - destruct (Z.eqb_spec a 0); [by kgo|]. apply in_range_keeps; [|done..]. by apply reserve_keeps; tauto.
  - by eapply (memory_call_keeps (CallCommitIdentity a h n prot)).
  - by apply commit_i386_host_keeps; tauto.
  - by eapply (memory_call_keeps (CallDecommit a n)).
  - by eapply (memory_call_keeps (CallRelease a n)).
  - by eapply (memory_call_keeps (CallMapIdentity a h n prot)).
  - by eapply (memory_call_keeps (CallUnmap a n)).
  - by apply protect_keeps; tauto.
  - by eapply (memory_call_keeps (CallBindKuser h)).
  - apply invalidate_code_keeps.
  - by apply thread_create_keeps.
  - by apply i386_thread_create_keeps.
  - by apply destroy_returned.
  - destruct Hl as [Hl Hv]. pose proof (set_upper_keeps tid vectors p m Hm Hp Hl Hv) as H. unfold returned.
    destruct (gem_wine_thread_set_native_upper_simd _ _ _ _) as [[[[status q]|] m']| |]; [|done..]. by apply performed_post.
  - by apply performed_post.
  - destruct Hl as [t Ht]. unfold gem_wine_thread_get_native_upper_simd. destruct has; [|by apply performed_post].
    cbn [negb]. rewrite Ht. destruct (wt_i386_thread t); by apply performed_post.
  - by apply performed_post.
  - pose proof (async_stop_keeps tid p m Hm Hp Hl) as H. unfold mbind, M_bind.
    destruct (gem_wine_thread_request_async_stop _ _ _) as [[q m']| |]; [|done..]. by apply performed_post.
  - by apply performed_post.
Qed.
End calls.
