(* ===== verification/WineWorld.v ===== *)
(** WineWorld: the invariant of a process with its host threads, its guest memory
    and the runs they are in, and that every legal event keeps it. *)
From S2P Require Import Prelude Context Conversion MemoryModel Memory I386Memory MemoryLogic MemoryInv MemoryTotal MemorySpec MemoryAtomic.
From S2P Require Import Transaction TransactionInv TransactionWorld TransactionCommit.
From S2P Require Import Pe PeInvariant PeProperties Target TargetProperties Control Dynarmic Blink X64Engine X64EngineProperties.
From S2P Require Import I386Engine I386EngineProperties Arm64ecEngine Arm64ecEngineLogic Arm64ecEngineProperties.
From S2P Require Import Hybrid HybridRecord HybridLogic HybridProperties Wine WineLogic WineCalls.

Section world.
Context {platform : Platform} {dynarmic : Dynarmic} {blink : Blink} {allocator : Allocator} {blink_run_ok : BlinkRunOk}.
Implicit Types (p q : gem_wine_process) (t : gem_wine_thread) (w : wine_world) (f : wine_frame) (host : nat).

(** ** The run lock of a thread *)

(** How often [host] holds it. *)
Definition held host t : nat :=
  match wt_run_lock t with
  | Some (owner, n) => if (owner =? host)%nat then n else 0
  | None => 0
  end.
(** A lock that is held is held at least once, and that of an i386 thread once. *)
Definition lock_ok t : Prop :=
  forall owner n, wt_run_lock t = Some (owner, n) -> (0 < n)%nat /\ (wt_i386_thread t = true -> n = 1%nat).

(** The runs of a thread on a stack. *)
Definition on (tid : nat) f : bool := (frame_thread f =? tid)%nat.
Definition runs_of (tid : nat) (fs : list wine_frame) : nat := length (List.filter (on tid) fs).

Lemma runs_of_zero tid fs f : runs_of tid fs = 0%nat -> f ∈ fs -> frame_thread f <> tid.
Proof.
  unfold runs_of. intros H Hin E. apply nil_length_inv in H.
  assert (In f (List.filter (on tid) fs)) as Hf; [|by rewrite H in Hf].
  apply filter_In. split; [by apply list_elem_of_In|]. by apply Nat.eqb_eq.
Qed.

Lemma runs_of_cons tid f fs :
  runs_of tid (f :: fs) = ((if (frame_thread f =? tid)%nat then 1 else 0) + runs_of tid fs)%nat.
Proof. unfold runs_of, on. cbn. by destruct (_ =? _)%nat. Qed.

Lemma held_lock host t t' : wt_run_lock t' = wt_run_lock t -> held host t' = held host t.
Proof. unfold held. by intros ->. Qed.

Lemma trylock_held host t t' : lock_ok t -> run_trylock host t = Some t' ->
  (forall h, held h t' = if (h =? host)%nat then S (held host t) else held h t) /\ lock_ok t' /\
  (forall h, h <> host -> held h t = 0%nat) /\
  exists l, t' = set_wt_run_lock t l.
Proof.
  unfold run_trylock, held, lock_ok. intros Hok H. destruct (wt_run_lock t) as [[o n]|] eqn:E.
  - destruct (wt_i386_thread t) eqn:E32; [done|]. cbn in H. destruct (Nat.eqb_spec o host) as [->|]; [|done].
    injection H as <-. cbn. destruct (Hok host n eq_refl) as [Hn _]. split_and!; eauto.
    + intros h. destruct (Nat.eqb_spec h host) as [->|Hh]; [by rewrite ?Nat.eqb_refl|]. by destruct (Nat.eqb_spec host h).
    + intros o' n' [= <- <-]. rewrite E32. split; [lia|done].
    + intros h Hh. by destruct (Nat.eqb_spec host h).
  - injection H as <-. cbn. split_and!; eauto.
    + intros h. destruct (Nat.eqb_spec h host) as [->|Hh]; [by rewrite ?Nat.eqb_refl|]. by destruct (Nat.eqb_spec host h).
    + intros o' n' [= <- <-]. split; [lia|done].
Qed.

Lemma unlock_held host t : lock_ok t -> (0 < held host t)%nat ->
  (forall h, held h (run_unlock t) = if (h =? host)%nat then Nat.pred (held host t) else held h t) /\ lock_ok (run_unlock t).
Proof.
  unfold run_unlock, held, lock_ok. intros Hok H. destruct (wt_run_lock t) as [[o n]|] eqn:E; [|lia].
  destruct (Nat.eqb_spec o host) as [->|]; [|lia]. destruct (Hok host n eq_refl) as [Hn H32].
  destruct n as [|[|n]]; [lia|..]; cbn; split.
  - intros h. destruct (Nat.eqb_spec h host) as [->|]; [done|]. by destruct (Nat.eqb_spec host h).
  - done.
  - intros h. destruct (Nat.eqb_spec h host) as [->|]; [by rewrite Nat.eqb_refl|]. by destruct (Nat.eqb_spec host h).
  - intros o' n' [= <- <-]. split; [lia|]. intros E32. specialize (H32 E32). lia.
Qed.

(** ** Frames *)

(** A run at rest: of a live thread of its kind, with a valid context and accounts
    within the limits; a callback that is due has seen that context. *)
Definition frame_ok p f : Prop :=
  exists t, thread_at (frame_thread f) (wp_threads p) = Some t /\
  match f with
  | FrameRun tid c r due =>
      live_thread t /\ resting p (valid_for t) (WineRun p c r) /\
      forall d, due = Some d -> due_ok d (WineRun p c r)
  | FrameI386 tid c r due =>
      wt_i386_thread t = true /\ resting p (i386_valid_for t) (WineRun p c r) /\
      forall d, due = Some d -> i386_due_ok d (WineRun p c r)
  end.

Lemma resting_process {C} (valid valid' : C -> Prop) p q c r :
  wp_config q = wp_config p -> (valid c -> valid' c) ->
  resting p valid (WineRun p c r) -> resting q valid' (WineRun q c r).
Proof. intros Ec Hv [H1 [H2 H3] H4]. split; [by apply Hv|split; by rewrite Ec|done]. Qed.

(** Whatever changes in a thread, its configuration and kind do not. *)
Definition same_kind t t' : Prop :=
  wt_config t' = wt_config t /\ wt_i386_config t' = wt_i386_config t /\ wt_i386_thread t' = wt_i386_thread t.

Lemma frame_ok_kept p q f t t' :
  wp_config q = wp_config p -> thread_at (frame_thread f) (wp_threads p) = Some t ->
  thread_at (frame_thread f) (wp_threads q) = Some t' -> same_kind t t' -> frame_ok p f -> frame_ok q f.
Proof.
  intros Ec Ht Ht' (E1 & E2 & E3) (u & Hu & Hf). rewrite Ht in Hu. injection Hu as <-. exists t'. split; [done|].
  destruct f; destruct Hf as (Hk & Hr & Hd); (split; [unfold live_thread in *; by rewrite E3|]); (split; [|done]).
  - eapply resting_process; [done| |exact Hr]. unfold valid_for, context_valid_for_thread. by rewrite E1.
  - eapply resting_process; [done| |exact Hr]. unfold i386_valid_for, i386_context_valid_for_thread. by rewrite E2.
Qed.

(** ** The invariant *)

Record world_wf w : Prop := WorldWf {
  ww_wf : process_wf (ww_process w);
  ww_locks : forall tid t, thread_at tid (wp_threads (ww_process w)) = Some t ->
    lock_ok t /\ forall host, runs_of tid (frames_of host w) = held host t;
  ww_frames_ok : forall host, Forall (frame_ok (ww_process w)) (frames_of host w);
  ww_outer : forall host f fs, frames_of host w = f :: fs -> Forall (fun g => waits g = true) fs }.

Lemma frames_of_set host w p h fs :
  frames_of h (set_frames w p host fs) = if (h =? host)%nat then fs else frames_of h w.
Proof.
  unfold frames_of, set_frames. cbn. destruct (Nat.eqb_spec h host) as [->|Hn].
  - by rewrite lookup_insert, decide_True.
  - by rewrite lookup_insert_ne.
Qed.

(** A frame keeps its thread alive, and its lock taken. *)
Lemma frame_holds w host f :
  world_wf w -> f ∈ frames_of host w -> exists t, thread_at (frame_thread f) (wp_threads (ww_process w)) = Some t /\
    (0 < held host t)%nat.
Proof.
  intros [Hp Hl Hf Ho] Hin. specialize (Hf host). rewrite Forall_forall in Hf. destruct (Hf f Hin) as (t & Ht & _).
  exists t. split; [done|]. destruct (Hl _ _ Ht) as [_ <-].
  destruct (runs_of (frame_thread f) (frames_of host w)) eqn:E; [|lia].
  by destruct (runs_of_zero _ _ f E Hin).
Qed.

(** ** Legal events *)

Definition resting_host (fs : list wine_frame) : Prop := match fs with [] => True | f :: _ => waits f = true end.
Definition live_pointer p (thread : option nat) : Prop :=
  from_option (fun tid => is_Some (thread_at tid (wp_threads p))) True thread.

(** The host thread is where the event happens; the arguments fit their types;
    pointers are to live objects; a thread is not destroyed by a callback of its
    own run, which the recursive lock lets through. *)
Definition event_legal w host (e : wine_event) : Prop :=
  let p := ww_process w in
  let fs := frames_of host w in
  match e with
  | WineCall call =>
      resting_host fs /\ call_legal p call /\
      match call with WineThreadDestroy (Some tid) => runs_of tid fs = 0%nat | _ => True end
  | WineEnter thread input _ => resting_host fs /\ live_pointer p thread /\ from_option context_wf True input
  | WineEnterI386 thread _ _ => resting_host fs /\ live_pointer p thread
  | WineRound _ => match fs with [] => False | f :: _ => waits f = false end
  | WineRespond _ response =>
      typed_response response /\ match fs with FrameRun _ _ _ (Some _) :: _ => True | _ => False end
  | WineRespondI386 _ _ => match fs with FrameI386 _ _ _ (Some _) :: _ => True | _ => False end
  end.

(** ** What an event does *)

(** A run goes on: a round uses up budget or a callback, or changes engines; a
    callback's answer leaves the accounts alone. *)
Definition counts_on (r r' : gem_wine_run_result) (due : bool) (transitions : Prop) : Prop :=
  rr_instructions_retired r <= rr_instructions_retired r' /\
  if due then rr_boundary_callbacks r' = rr_boundary_callbacks r + 1
  else rr_boundary_callbacks r' = rr_boundary_callbacks r /\
       (rr_instructions_retired r < rr_instructions_retired r' \/ transitions).
Definition goes_on f f' : Prop :=
  match f, f' with
  | FrameRun tid c r None, FrameRun tid' _ r' due =>
      tid' = tid /\ counts_on r r' (bool_decide (is_Some due)) (rr_stop_reason r' = stop_value GEM_STOP_ARCH_TRANSITION)
  | FrameI386 tid c r None, FrameI386 tid' _ r' due =>
      tid' = tid /\ counts_on r r' (bool_decide (is_Some due)) False
  | FrameRun tid c r (Some _), FrameRun tid' _ r' None | FrameI386 tid c r (Some _), FrameI386 tid' _ r' None =>
      tid' = tid /\ r' = r
  | _, _ => False
  end.
(** What the host thread sees when it rests at [f]. *)
Definition sees f : wine_answer :=
  match f with
  | FrameRun _ _ _ (Some (request, _)) => CallsBack request
  | FrameI386 _ _ _ (Some request) => CallsBackI386 request
  | _ => GoesOn
  end.
Definition fresh_frame f : Prop :=
  match f with
  | FrameRun _ _ r due => r = initialize_result /\ due = None
  | FrameI386 _ _ r due => r = initialize_result /\ due = None
  end.

Definition returned_run p f (a : wine_answer) : Prop :=
  exists t, thread_at (frame_thread f) (wp_threads p) = Some t /\
  match f, a with
  | FrameRun _ _ _ _, RunReturns status c r => ended p (valid_for t) status (WineRun p c r)
  | FrameI386 _ _ _ _, RunReturnsI386 status c r => ended p (i386_valid_for t) status (WineRun p c r)
  | _, _ => False
  end.

Definition is_round (e : wine_event) : bool := match e with WineRound _ => true | _ => false end.
Definition event_does w host (e : wine_event) w' (a : wine_answer) : Prop :=
  (forall h, h <> host -> frames_of h w' = frames_of h w) /\
  wp_config (ww_process w') = wp_config (ww_process w) /\
  ((exists status, is_round e = false /\ a = Returns status /\ frames_of host w' = frames_of host w) \/
   (exists f, is_round e = false /\ a = GoesOn /\ fresh_frame f /\ frames_of host w' = f :: frames_of host w) \/
   (exists f f' fs, a = sees f' /\ goes_on f f' /\ frames_of host w = f :: fs /\ frames_of host w' = f' :: fs) \/
   (exists f fs, returned_run (ww_process w) f a /\ frames_of host w = f :: fs /\ frames_of host w' = fs)).

Definition step_ok w host (e : wine_event) (x : result unit (option (wine_world * wine_answer) * mem)) : Prop :=
  match x with
  | Fault => False
  | Err _ | Ok (None, _) => True
  | Ok (Some (w', a), m') => sound m' /\ world_wf w' /\ event_does w host e w' a
  end.

(** ** Calls *)

Lemma call_step host call w m :
  world_wf w -> sound m -> event_legal w host (WineCall call) -> step_ok w host (WineCall call) (wine_step host w (WineCall call) m).
Proof.
  intros Hw Hm (Hrest & Hl & Hd). pose proof Hw as [Hp Hlocks Hfr Hout]. unfold wine_step. cbv zeta.
  assert ((match frames_of host w with [] => true | f :: _ => waits f end) = true) as -> by (by destruct (frames_of host w)).
  cbn [negb]. pose proof (perform_returned host call _ m Hm Hp Hl) as H. unfold mbind, M_bind.
  destruct (perform host call (ww_process w) m) as [[[[status q]|] m']| |]; [|done..]. cbn.
  destruct H as (Hm' & Hq & Hk). split; [done|].
  assert (wp_config q = wp_config (ww_process w)) as Ec by (by destruct Hk as [[? _]|(? & ? & _ & _ & _ & ->)]).
  split; [|split; [done|]; split; [done|]; left; by exists status].
  assert (forall tid t', thread_at tid (wp_threads q) = Some t' ->
    match thread_at tid (wp_threads (ww_process w)) with
    | Some t => kept_thread t t' | None => wt_run_lock t' = None end) as Hold.
  { intros tid t' Ht'. destruct Hk as [[_ Hk]|(u & t & _ & _ & _ & ->)].
    - specialize (Hk tid). destruct (thread_at tid (wp_threads (ww_process w))) as [t|]; [|by apply Hk].
      destruct Hk as (t1 & E & ?). rewrite Ht' in E. by injection E as <-.
    - cbn in Ht'. rewrite thread_at_remove in Ht'. destruct (_ =? _)%nat; [done|]. by rewrite Ht'. }
  assert (forall h f, f ∈ frames_of h w -> exists t', thread_at (frame_thread f) (wp_threads q) = Some t') as Hlive.
  { intros h f Hin. destruct (frame_holds w h f Hw Hin) as (t & Ht & Hheld).
    destruct Hk as [[_ Hk]|(u & t1 & -> & Hu & [t2 Hlock] & ->)].
    - specialize (Hk (frame_thread f)). rewrite Ht in Hk. destruct Hk as (t' & ? & _). by exists t'.
    - cbn. rewrite thread_at_remove. destruct (Nat.eqb_spec (frame_thread f) u) as [<-|]; [|by exists t].
      rewrite Ht in Hu. injection Hu as <-. destruct (Hlocks _ _ Ht) as [Hok Hruns].
      destruct (trylock_held host t t2 Hok Hlock) as (_ & _ & Hother & _).
      destruct (decide (h = host)) as [->|Hne]; [|rewrite Hother in Hheld by done; lia].
      rewrite <- Hruns, Hd in Hheld. lia. }
  split; cbn; [done| | |done].
  - intros tid t' Ht'. specialize (Hold tid t' Ht'). destruct (thread_at tid (wp_threads (ww_process w))) as [t|] eqn:Ht.
    + destruct (Hlocks tid t Ht) as [Hok Hruns]. destruct Hold as (_ & _ & E32 & El). split.
      * unfold lock_ok in *. by rewrite E32, El.
      * intros h. change (frames_of h _) with (frames_of h w). rewrite Hruns. symmetry. by apply held_lock.
    + split; [unfold lock_ok; by rewrite Hold|]. intros h. change (frames_of h _) with (frames_of h w).
      unfold held. rewrite Hold. destruct (runs_of tid (frames_of h w)) as [|n] eqn:En; [done|]. exfalso.
      unfold runs_of in En. destruct (List.filter (on tid) (frames_of h w)) as [|f l] eqn:Ef; [done|].
      assert (In f (List.filter (on tid) (frames_of h w))) as Hin by (rewrite Ef; by left).
      apply filter_In in Hin as [Hin E]. apply Nat.eqb_eq in E. apply list_elem_of_In in Hin.
      destruct (frame_holds w h f Hw Hin) as (t & E1 & _). by rewrite E, Ht in E1.
  - intros h. change (frames_of h _) with (frames_of h w). rewrite Forall_forall. intros f Hin.
    destruct (Hlive h f Hin) as [t' Ht']. destruct (frame_holds w h f Hw Hin) as (t & Ht & _).
    specialize (Hold _ _ Ht'). rewrite Ht in Hold. destruct Hold as (E1 & E2 & E3 & _).
    eapply frame_ok_kept; [exact Ec|exact Ht|exact Ht'|done|].
    specialize (Hfr h). rewrite Forall_forall in Hfr. by apply Hfr.
Qed.

(** ** Runs *)

(** A step of [host] that changes the thread [tid] and the runs of the host. *)
Lemma set_frames_wf host w tid t t' fs' :
  let q := put_thread tid t' (ww_process w) in
  world_wf w -> thread_at tid (wp_threads (ww_process w)) = Some t -> process_wf q -> same_kind t t' -> lock_ok t' ->
  (forall h, held h t' = if (h =? host)%nat then runs_of tid fs' else held h t) ->
  (forall u, u <> tid -> runs_of u fs' = runs_of u (frames_of host w)) ->
  (forall f, f ∈ fs' -> frame_ok q f \/ f ∈ frames_of host w) ->
  (forall f fs, fs' = f :: fs -> Forall (fun g => waits g = true) fs) ->
  world_wf (set_frames w q host fs').
Proof.
  intros q Hw Ht Hq Hkind Hok Hheld Hruns Hnew Hwait. pose proof Hw as [Hp Hlocks Hfr Hout].
  assert (forall f, frame_ok (ww_process w) f -> frame_ok q f) as Hkeep.
  { intros f Hf. pose proof Hf as (u & Hu & _). destruct (decide (frame_thread f = tid)) as [E|E].
    - rewrite E, Ht in Hu. injection Hu as <-. apply (frame_ok_kept (ww_process w) q f t t'); try done; [by rewrite E|].
      cbn. by rewrite thread_at_put, E, Nat.eqb_refl, Ht.
    - apply (frame_ok_kept (ww_process w) q f u u); try done.
      cbn. rewrite thread_at_put. by destruct (Nat.eqb_spec (frame_thread f) tid). }
  split; cbn [ww_process set_frames]; [done| | |].
  - intros u v Hv. cbn in Hv. rewrite thread_at_put in Hv. destruct (Nat.eqb_spec u tid) as [->|Hu].
    + rewrite Ht in Hv. injection Hv as <-. split; [done|]. intros h. rewrite frames_of_set, Hheld.
      destruct (_ =? _)%nat; [done|]. by apply Hlocks.
    + destruct (Hlocks u v Hv) as [H1 H2]. split; [done|]. intros h. rewrite frames_of_set.
      destruct (Nat.eqb_spec h host) as [->|]; [by rewrite Hruns|done].
  - intros h. rewrite frames_of_set, Forall_forall. intros f Hin. specialize (Hfr h). rewrite Forall_forall in Hfr.
    destruct (Nat.eqb_spec h host) as [->|]; [|by apply Hkeep, Hfr].
    destruct (Hnew f Hin) as [|H]; [done|]. by apply Hkeep, Hfr.
  - intros h f fs. rewrite frames_of_set. destruct (_ =? _)%nat; [apply Hwait|apply Hout].
Qed.

(** The entry of a run. *)
Lemma entered_wf host w e tid t t' f m :
  is_round e = false ->
  world_wf w -> sound m -> thread_at tid (wp_threads (ww_process w)) = Some t -> resting_host (frames_of host w) ->
  run_trylock host t = Some t' -> frame_thread f = tid -> fresh_frame f -> frame_ok (put_thread tid t' (ww_process w)) f ->
  let w' := set_frames w (put_thread tid t' (ww_process w)) host (f :: frames_of host w) in
  sound m /\ world_wf w' /\ event_does w host e w' GoesOn.
Proof.
  intros Hround Hw Hm Ht Hrest Hlock Ef Hfresh Hf w'. pose proof Hw as [Hp Hlocks Hfr Hout]. split; [done|].
  destruct (Hlocks tid t Ht) as [Hok Hruns]. destruct (trylock_held host t t' Hok Hlock) as (Hheld & Hok' & _ & l & ->).
  split.
  - eapply set_frames_wf; try done.
    + pose proof (thread_fits_at _ _ _ Hp Ht) as [Hwf Hk Hro].
      destruct Hp as [Hc Hi Ha Hids Hr Hth Hn]. split; try done; cbn; [|by rewrite put_thread_keys].
      apply (put_thread_Forall (thread_fits _)); [|by eapply (threads_fit_flags (ww_process w))].
      split; [|done..]. destruct Hwf as [Hac He]. by split.
    + intros h. rewrite Hheld. destruct (Nat.eqb_spec h host) as [->|]; [|done].
      by rewrite runs_of_cons, Ef, Nat.eqb_refl, Hruns.
    + intros u Hu. rewrite runs_of_cons, Ef. by destruct (Nat.eqb_spec tid u).
    + intros g [->|Hg]%elem_of_cons; [by left|by right].
    + intros g fs [= <- <-]. destruct (frames_of host w) as [|h fs] eqn:E; [done|]. constructor; [done|by eapply Hout].
  - split; [|split; [done|]].
    + intros h Hh. unfold w'. rewrite frames_of_set. by destruct (Nat.eqb_spec h host).
    + right. left. exists f. split_and!; try done. unfold w'. by rewrite frames_of_set, Nat.eqb_refl.
Qed.

Lemma initially_resting {C} (valid : C -> Prop) p c :
  config_wf (wp_config p) -> valid c -> resting p valid (WineRun p c initialize_result).
Proof.
  intros Hc Hv. destruct (config_limits p Hc) as (H1 & H2 & _).
  split; [done|split; cbn; lia|done].
Qed.

Lemma returns_ok host w e status m :
  is_round e = false ->  world_wf w -> sound m -> sound m /\ world_wf w /\ event_does w host e w (Returns status).
Proof. intros. split; [done|]. split; [done|]. split; [done|]. split; [done|]. left. by exists status. Qed.

Lemma enter_step host w thread input outs m :
  world_wf w -> sound m -> event_legal w host (WineEnter thread input outs) ->
  step_ok w host (WineEnter thread input outs) (wine_step host w (WineEnter thread input outs) m).
Proof.
  intros Hw Hm (Hrest & Hl & Hin). unfold wine_step. cbv zeta.
  assert ((match frames_of host w with [] => true | f :: _ => waits f end) = true) as -> by (by destruct (frames_of host w)).
  cbn [negb]. unfold thread_run_enter. destruct thread as [tid|]; [|by apply returns_ok].
  destruct Hl as [t Ht]. rewrite Ht. destruct input as [c|]; [|by apply returns_ok].
  destruct (_ || _) eqn:E; [by apply returns_ok|]. repeat (apply orb_false_iff in E as [E ?]).
  apply negb_false_iff in H0. unfold mbind, M_bind, mret, M_ret. cbn.
  destruct (run_trylock host t) as [t'|] eqn:El; [|by apply returns_ok].
  pose proof (ww_wf _ Hw) as Hp. eapply entered_wf; try done. exists t'. cbn. rewrite thread_at_put, Nat.eqb_refl, Ht.
  split; [done|]. destruct (ww_locks _ Hw _ _ Ht) as [Hok _].
  destruct (trylock_held host t t' Hok El) as (_ & _ & _ & l & ->). split; [done|]. split; [|done].
  apply initially_resting; [apply Hp|]. by split.
Qed.

Lemma enter_i386_step host w thread input outs m :
  world_wf w -> sound m -> event_legal w host (WineEnterI386 thread input outs) ->
  step_ok w host (WineEnterI386 thread input outs) (wine_step host w (WineEnterI386 thread input outs) m).
Proof.
  intros Hw Hm (Hrest & Hl). unfold wine_step. cbv zeta.
  assert ((match frames_of host w with [] => true | f :: _ => waits f end) = true) as -> by (by destruct (frames_of host w)).
  cbn [negb]. unfold i386_thread_run_enter. destruct thread as [tid|]; [|by apply returns_ok].
  destruct Hl as [t Ht]. rewrite Ht. destruct input as [c|]; [|by apply returns_ok].
  destruct (_ || _) eqn:E; [by apply returns_ok|]. repeat (apply orb_false_iff in E as [E ?]).
  apply negb_false_iff in H0, E. unfold mbind, M_bind, mret, M_ret. cbn.
  destruct (run_trylock host t) as [t'|] eqn:El; [|by apply returns_ok].
  pose proof (ww_wf _ Hw) as Hp. eapply entered_wf; try done. exists t'. cbn. rewrite thread_at_put, Nat.eqb_refl, Ht.
  split; [done|]. destruct (ww_locks _ Hw _ _ Ht) as [Hok _].
  destruct (trylock_held host t t' Hok El) as (_ & _ & _ & l & ->). split; [done|]. split; [|done].
  apply initially_resting; [apply Hp|]. done.
Qed.

(** What a round leaves of a thread fits the process. *)
Lemma engines_put p tid t t' :
  process_wf p -> thread_at tid (wp_threads p) = Some t -> thread_wf t' -> same_thread t t' ->
  process_wf (put_thread tid t' p) /\ same_kind t t' /\ wt_run_lock t' = wt_run_lock t /\ thread_fits p t'.
Proof.
  intros Hp Ht Hwf' [Hkept Hb]. pose proof (thread_fits_at _ _ _ Hp Ht) as [Hwf Hkd Hro].
  assert (thread_fits p t') as Hf.
  { destruct Hkept as (_ & _ & E & _). split; [done|by rewrite E|intros E'; rewrite Hb; auto]. }
  split; [by eapply process_put_thread|]. destruct Hkept as (? & ? & ? & ?). by split_and!.
Qed.

(** The lock does not matter to the process. *)
Lemma put_lock_wf p tid t l :
  process_wf p -> thread_fits p t ->
  process_wf (put_thread tid (set_wt_run_lock t l) p).
Proof.
  intros [Hc Hi Ha Hids Hr Hth Hn] [Hwf Hkd Hro]. split; try done; cbn; [|by rewrite put_thread_keys].
  apply (put_thread_Forall (thread_fits _)); [|by eapply (threads_fit_flags p)].
  destruct Hwf as [Hac He]. split; [by split|done..].
Qed.

Section drive.
Variables (host : nat) (w : wine_world) (t : gem_wine_thread) (f : wine_frame) (fs : list wine_frame).
Let p := ww_process w.
Let tid := frame_thread f.
Hypothesis Hw : world_wf w.
Hypothesis Hfs : frames_of host w = f :: fs.
Hypothesis Ht : thread_at tid (wp_threads p) = Some t.

Lemma drive_held : lock_ok t /\ (forall h, runs_of tid (frames_of h w) = held h t) /\ held host t = S (runs_of tid fs).
Proof.
  destruct (ww_locks _ Hw _ _ Ht) as [Hok Hruns]. split; [done|]. split; [done|].
  rewrite <- Hruns, Hfs, runs_of_cons. unfold tid. by rewrite Nat.eqb_refl.
Qed.

(** The run ends: its lock is released once. *)
Lemma run_ended t' :
  thread_wf t' -> same_thread t t' ->
  world_wf (set_frames w (put_thread tid (run_unlock t') p) host fs).
Proof.
  intros Hwf' Hs. destruct (engines_put p tid t t' (ww_wf _ Hw) Ht Hwf' Hs) as (Hq & Hkind & El & Hf).
  destruct drive_held as (Hok & Hruns & Hheld).
  assert (lock_ok t') as Hok' by (destruct Hkind as (_ & _ & E32); unfold lock_ok in *; by rewrite El, E32).
  destruct (unlock_held host t' Hok' ltac:(rewrite (held_lock _ _ _ El); lia)) as [Hheld' Hok2].
  apply (set_frames_wf host w tid t); try done.
  - by apply put_lock_wf; [apply Hw|].
  - intros h. rewrite Hheld', !(held_lock _ _ _ El), Hheld. done.
  - intros u Hu. rewrite Hfs, runs_of_cons. fold tid. by destruct (Nat.eqb_spec tid u).
  - intros g Hg. right. rewrite Hfs. by right.
  - intros g gs ->. pose proof (ww_outer _ Hw host _ _ Hfs) as Ho. by apply Forall_cons in Ho as [_ ?].
Qed.

(** The run rests at [f']. *)
Lemma run_rests t' f' :
  thread_wf t' -> same_thread t t' -> frame_thread f' = tid -> frame_ok (put_thread tid t' p) f' ->
  world_wf (set_frames w (put_thread tid t' p) host (f' :: fs)).
Proof.
  intros Hwf' Hs Ef' Hf'. destruct (engines_put p tid t t' (ww_wf _ Hw) Ht Hwf' Hs) as (Hq & Hkind & El & Hf).
  destruct drive_held as (Hok & Hruns & Hheld). apply (set_frames_wf host w tid t); try done.
  - destruct Hkind as (_ & _ & E32). unfold lock_ok in *. by rewrite El, E32.
  - intros h. rewrite (held_lock _ _ _ El). destruct (Nat.eqb_spec h host) as [->|]; [|done].
    by rewrite Hheld, runs_of_cons, Ef', Nat.eqb_refl.
  - intros u Hu. rewrite Hfs, !runs_of_cons. by rewrite Ef'.
  - intros g [->|Hin]%elem_of_cons; [by left|right; rewrite Hfs; by right].
  - intros g gs [= <- <-]. by eapply (ww_outer _ Hw).
Qed.

(** The statements of a run, with the rule [Hk] for them. *)
Lemma drive_ok {C A} e (k : K (wine_run C) gem_wine_status A) c r continue_ ends
    (Q : A -> wine_run C -> mem -> Prop) (valid : C -> Prop) m :
  kwp True k Q (stops p tid t valid) (WineRun p c r) m ->
  (forall a s' m', Q a s' m' -> engine_running p tid t s' m' /\ exists f',
     continue_ a (ru_context s') (ru_result s') = (f', sees f') /\ frame_thread f' = tid /\ goes_on f f' /\
     forall q t', wp_config q = wp_config p -> thread_at tid (wp_threads q) = Some t' -> same_kind t t' -> frame_ok q f') ->
  (forall status s', ended p valid status s' -> returned_run p f (ends status (ru_context s') (ru_result s'))) ->
  step_ok w host e (drive host w tid fs k c r continue_ ends m).
Proof.
  intros Hk Hgo Hend. unfold drive. unfold kwp in Hk. fold p. unfold mbind, M_bind.
  destruct (k (WineRun p c r) m) as [[[[[status|a] s']|] m']| |]; [| |done..].
  - destruct Hk as [(t' & [Ep Hs Hwf' Hm']) Hended]. unfold unlock_run_lock. rewrite Ep.
    cbn [put_thread set_wp_threads wp_threads]. rewrite thread_at_put, Nat.eqb_refl. fold p. rewrite Ht.
    assert (put_thread tid (run_unlock t') (put_thread tid t' p) = put_thread tid (run_unlock t') p) as Eput
      by (unfold put_thread; cbn; by rewrite put_put_thread).
    unfold mret, M_ret. rewrite Eput. split; [done|]. split; [by apply run_ended|].
    split; [intros h Hh; rewrite frames_of_set; by destruct (Nat.eqb_spec h host)|]. split; [done|].
    right. right. right. exists f, fs. split; [by apply Hend|]. split; [done|]. by rewrite frames_of_set, Nat.eqb_refl.
  - destruct (Hgo a s' m' Hk) as ((t' & [Ep Hs Hwf' Hm']) & f' & -> & Ef' & Hg & Hf').
    destruct (engines_put p tid t t' (ww_wf _ Hw) Ht Hwf' Hs) as (Hq & Hkind & El & Hf).
    rewrite Ep. unfold mret, M_ret. split; [done|]. split.
    + apply run_rests; try done. apply (Hf' _ t'); [done| |done]. cbn. by rewrite thread_at_put, Nat.eqb_refl, Ht.
    + split; [intros h Hh; rewrite frames_of_set; by destruct (Nat.eqb_spec h host)|]. split; [done|].
      right. right. left. exists f, f', fs. split_and!; try done. by rewrite frames_of_set, Nat.eqb_refl.
Qed.
End drive.

(** A frame at rest is where a round or a response begins. *)
Lemma running_start {C} w tid t (c : C) r m :
  world_wf w -> sound m -> thread_at tid (wp_threads (ww_process w)) = Some t ->
  running (ww_process w) tid t t (WineRun (ww_process w) c r) m.
Proof.
  intros Hw Hm Ht. split; cbn; [|done| |done].
  - unfold put_thread. rewrite put_same_thread by done. by destruct (ww_process w).
  - apply (thread_fits_at _ _ _ (ww_wf _ Hw) Ht).
Qed.

Lemma top_frame w host f fs :
  world_wf w -> frames_of host w = f :: fs -> frame_ok (ww_process w) f.
Proof. intros Hw Hfs. pose proof (ww_frames_ok _ Hw host) as H. rewrite Hfs in H. by apply Forall_cons in H as [? _]. Qed.

(** A state of a run is at rest in another process with the same configuration. *)
Lemma frame_rests p q tid t t' (s : wine_run gem_thread_context) due :
  wp_config q = wp_config p -> thread_at tid (wp_threads q) = Some t' -> same_kind t t' -> live_thread t ->
  resting p (valid_for t) s -> (forall d, due = Some d -> due_ok d s) ->
  frame_ok q (FrameRun tid (ru_context s) (ru_result s) due).
Proof.
  intros Ec Ht' (E1 & E2 & E3) Hl Hr Hd. exists t'. split; [done|]. split; [unfold live_thread in *; by rewrite E3|].
  split; [|done]. eapply (resting_process _ _ p); [done| |].
  2:{ destruct Hr as [Hv Hlim Ho]. by split. }
  unfold valid_for, context_valid_for_thread. by rewrite E1.
Qed.
Lemma frame_i386_rests p q tid t t' (s : wine_run gem_i386_context) due :
  wp_config q = wp_config p -> thread_at tid (wp_threads q) = Some t' -> same_kind t t' -> wt_i386_thread t = true ->
  resting p (i386_valid_for t) s -> (forall d, due = Some d -> i386_due_ok d s) ->
  frame_ok q (FrameI386 tid (ru_context s) (ru_result s) due).
Proof.
  intros Ec Ht' (E1 & E2 & E3) Hl Hr Hd. exists t'. split; [done|]. split; [by rewrite E3|].
  split; [|done]. eapply (resting_process _ _ p); [done| |].
  2:{ destruct Hr as [Hv Hlim Ho]. by split. }
  unfold i386_valid_for, i386_context_valid_for_thread. by rewrite E2.
Qed.

Lemma round_step host w ch m :
  world_wf w -> sound m -> event_legal w host (WineRound ch) -> step_ok w host (WineRound ch) (wine_step host w (WineRound ch) m).
Proof.
  intros Hw Hm Hl. unfold event_legal in Hl. cbv zeta in Hl. unfold wine_step. cbv zeta.
  destruct (frames_of host w) as [|f fs] eqn:Hfs; [done|]. destruct (top_frame w host f fs Hw Hfs) as (t & Ht & Hf).
  pose proof (ww_wf _ Hw) as Hp.
  destruct f as [tid c r [due|]|tid c r [due|]]; cbn [frame_thread] in Ht; try done; destruct Hf as (Hk & Hr & _).
  - eapply (drive_ok host w t (FrameRun tid c r None) fs Hw Hfs Ht _ _ _ _ _ _
      (progress (ww_process w) tid t (valid_for t) due_ok (WineRun (ww_process w) c r)) (valid_for t)).
    + eapply kwp_wine_round; try done; [apply Hp|apply Hp|by apply running_start].
    + intros due s' m' (Heng & Hrest & Hret & Hdue). split; [done|].
      exists (FrameRun tid (ru_context s') (ru_result s') due). split; [by destruct due as [[request v]|]|]. split; [done|].
      split; [|intros q t' Ec Ht' Hkind; eapply frame_rests; try done; by intros d ->; destruct Hdue].
      split; [done|]. destruct due as [d|]; (split; [done|]); [apply Hdue|done].
    + intros status s' [He1 He2 He3]. exists t. split; [done|]. by split.
  - eapply (drive_ok host w t (FrameI386 tid c r None) fs Hw Hfs Ht _ _ _ _ _ _
      (i386_progress (ww_process w) tid t (WineRun (ww_process w) c r)) (i386_valid_for t)).
    + eapply kwp_wine_i386_round; try done; [apply Hp|by apply running_start].
    + intros due s' m' ((Heng & Hrest & Hret & Hdue) & Hstrict). split; [done|].
      exists (FrameI386 tid (ru_context s') (ru_result s') due). split; [by destruct due|]. split; [done|].
      split; [|intros q t' Ec Ht' Hkind; eapply frame_i386_rests; try done; by intros d ->; destruct Hdue].
      split; [done|]. destruct due as [d|]; (split; [done|]); [apply Hdue|]. destruct Hdue. split; [done|]. left. by apply Hstrict.
    + intros status s' [He1 He2 He3]. exists t. split; [done|]. by split.
Qed.

Lemma respond_step host w status response m :
  world_wf w -> sound m -> event_legal w host (WineRespond status response) ->
  step_ok w host (WineRespond status response) (wine_step host w (WineRespond status response) m).
Proof.
  intros Hw Hm [Htyped Hl]. unfold wine_step. cbv zeta.
  destruct (frames_of host w) as [|f fs] eqn:Hfs; [done|]. destruct (top_frame w host f fs Hw Hfs) as (t & Ht & Hf).
  destruct f as [tid c r [due|]|]; try done. cbn [frame_thread] in Ht. destruct Hf as (Hk & Hr & Hd).
  destruct (Hd due eq_refl) as (Hc & _ & _ & _ & _ & Hv). cbn in Hc.
  eapply (drive_ok host w t (FrameRun tid c r (Some due)) fs Hw Hfs Ht _ _ _ _ _ _
    (fun _ => answered (ww_process w) tid t (WineRun (ww_process w) c r)) (valid_for t)).
  - eapply kwp_wine_respond; try done; [by apply running_start|]. rewrite Hc. apply Hr.
  - intros _ s' m' (Heng & Hrest & Eres). split; [done|].
    exists (FrameRun tid (ru_context s') (ru_result s') None). split; [done|]. split; [done|]. split; [done|].
    intros q t' Ec Ht' Hkind. by eapply frame_rests.
  - intros st s' [He1 He2 He3]. exists t. split; [done|]. by split.
Qed.

Lemma respond_i386_step host w status response m :
  world_wf w -> sound m -> event_legal w host (WineRespondI386 status response) ->
  step_ok w host (WineRespondI386 status response) (wine_step host w (WineRespondI386 status response) m).
Proof.
  intros Hw Hm Hl. unfold event_legal in Hl. cbv zeta in Hl. unfold wine_step. cbv zeta.
  destruct (frames_of host w) as [|f fs] eqn:Hfs; [done|]. destruct (top_frame w host f fs Hw Hfs) as (t & Ht & Hf).
  destruct f as [|tid c r [due|]]; try done. cbn [frame_thread] in Ht. destruct Hf as (Hk & Hr & Hd).
  eapply (drive_ok host w t (FrameI386 tid c r (Some due)) fs Hw Hfs Ht _ _ _ _ _ _
    (fun _ s' m' => engine_running (ww_process w) tid t s' m' /\ resting (ww_process w) (i386_valid_for t) s' /\
       ru_result s' = r) (i386_valid_for t)).
  - eapply kwp_wine_i386_respond; try done. by apply running_start.
  - intros _ s' m' (Heng & Hrest & Eres). split; [done|].
    exists (FrameI386 tid (ru_context s') (ru_result s') None). split; [done|]. split; [done|]. split; [done|].
    intros q t' Ec Ht' Hkind. by eapply frame_i386_rests.
  - intros st s' [He1 He2 He3]. exists t. split; [done|]. by split.
Qed.

(** Every legal event. *)
Lemma event_step host w e m :
  world_wf w -> sound m -> event_legal w host e -> step_ok w host e (wine_step host w e m).
Proof.
  destruct e; [apply call_step|apply enter_step|apply enter_i386_step|apply round_step|apply respond_step
    |apply respond_i386_step].
Qed.

(** ** Histories *)

(** The events of several host threads, one after another; it ends where the
    emulator of the host's C++ code gives up, or a loop's fuel does. *)
Inductive wine_history (w0 : wine_world) (m0 : mem) : wine_world -> mem -> Prop :=
  | history_start : wine_history w0 m0 w0 m0
  | history_event w m host e w' m' a :
      wine_history w0 m0 w m -> event_legal w host e -> wine_step host w e m = Ok (Some (w', a), m') ->
      wine_history w0 m0 w' m'.

Lemma history_wf w0 m0 w m :
  world_wf w0 -> sound m0 -> wine_history w0 m0 w m -> world_wf w /\ sound m.
Proof.
  intros Hw Hm. induction 1 as [|w m host e w' m' a _ [IHw IHm] Hl He]; [done|].
  pose proof (event_step host w e m IHw IHm Hl) as H. rewrite He in H. destruct H as (? & ? & _). done.
Qed.

(** The run of [host] that [depth] others were there before. *)
Definition run_at (depth : nat) (fs : list wine_frame) : option wine_frame := rev fs !! depth.

Lemma run_at_cons depth f fs :
  run_at depth (f :: fs) = if decide (depth = length fs) then Some f else run_at depth fs.
Proof.
  unfold run_at. cbn. case_decide as E.
  - subst. rewrite lookup_app_r by (rewrite length_rev; lia). by rewrite length_rev, Nat.sub_diag.
  - destruct (decide (depth < length fs)%nat).
    + by rewrite lookup_app_l by (rewrite length_rev; lia).
    + rewrite !lookup_ge_None_2; [done|rewrite length_rev; lia|rewrite length_app, length_rev; cbn; lia].
Qed.

Lemma run_at_elem depth fs f : run_at depth fs = Some f -> f ∈ fs.
Proof. intros H. apply list_elem_of_lookup_2 in H. apply list_elem_of_In. apply in_rev. by apply list_elem_of_In. Qed.

(** The instructions and callbacks of a run so far. *)
Definition spent f : Z :=
  match f with FrameRun _ _ r _ | FrameI386 _ _ r _ => rr_instructions_retired r + rr_boundary_callbacks r end.
(** A round that does not end in a change of engines. *)
Definition productive f : bool :=
  match f with
  | FrameRun _ _ r None => negb (rr_stop_reason r =? stop_value GEM_STOP_ARCH_TRANSITION)
  | _ => true
  end.

Lemma goes_on_spent f f' : goes_on f f' ->
  spent f <= spent f' /\ (waits f = false -> productive f' = true -> spent f + 1 <= spent f').
Proof.
  unfold goes_on, counts_on. destruct f as [tid c r [d|]|tid c r [d|]], f' as [tid' c' r' [d'|]|tid' c' r' [d'|]]; cbn; try done.
  - intros [_ ->]. split; [lia|done].
  - intros (_ & H & ->). lia.
  - intros (_ & H & -> & [Hlt| ->]); [lia|]. rewrite Z.eqb_refl. split; [lia|done].
  - intros [_ ->]. split; [lia|done].
  - intros (_ & H & ->). lia.
  - intros (_ & H & -> & [Hlt|[]]). lia.
Qed.

Lemma spent_limits p f : frame_ok p f ->
  0 <= spent f <= pc_total_instruction_budget (wp_config p) + pc_max_boundary_callbacks (wp_config p).
Proof.
  intros (t & _ & Hf). destruct f; destruct Hf as (_ & [_ [H1 H2] _] & _); cbn in *; lia.
Qed.

(** The productive rounds of the run of [host] at [depth], while it lasts. *)
Inductive run_rounds (host depth : nat) (w0 : wine_world) (m0 : mem) : nat -> wine_world -> mem -> Prop :=
  | rounds_start : run_rounds host depth w0 m0 0 w0 m0
  | rounds_event n w m h e w' m' a f' :
      run_rounds host depth w0 m0 n w m -> event_legal w h e -> wine_step h w e m = Ok (Some (w', a), m') ->
      run_at depth (frames_of host w') = Some f' ->
      run_rounds host depth w0 m0
        (n + if (h =? host)%nat && is_round e && (length (frames_of host w) =? S depth)%nat && productive f' then 1 else 0)
        w' m'.

Lemma rounds_wf host depth w0 m0 n w m :
  world_wf w0 -> sound m0 -> run_rounds host depth w0 m0 n w m -> world_wf w /\ sound m.
Proof.
  intros Hw Hm. induction 1 as [|n w m h e w' m' a f' _ [IHw IHm] Hl He _]; [done|].
  pose proof (event_step h w e m IHw IHm Hl) as H. rewrite He in H. by destruct H as (? & ? & _).
Qed.

Lemma rounds_spent host depth w0 m0 n w m f0 :
  world_wf w0 -> sound m0 -> run_at depth (frames_of host w0) = Some f0 -> run_rounds host depth w0 m0 n w m ->
  exists f, run_at depth (frames_of host w) = Some f /\ spent f0 + Z.of_nat n <= spent f.
Proof.
  intros Hw Hm Hf0. induction 1 as [|n w m h e w' m' a f' Hrun (f & Hf & Hsp) Hl He Hf'].
  { exists f0. split; [done|]. cbn. lia. }
  destruct (rounds_wf _ _ _ _ _ _ _ Hw Hm Hrun) as [Hw1 Hm1].
  pose proof (event_step h w e m Hw1 Hm1 Hl) as H. rewrite He in H. destruct H as (_ & _ & Hother & _ & Hcases).
  exists f'. split; [done|]. destruct (Nat.eqb_spec h host) as [->|Hne]; cbn [andb].
  2:{ rewrite Hother, Hf in Hf' by done. injection Hf' as <-. lia. }
  destruct Hcases as [(st & Hr & _ & E)|[(g & Hr & _ & _ & E)|[(g & g' & fs & _ & Hgo & E & E')|(g & fs & _ & E & E')]]].
  - rewrite E, Hf in Hf'. injection Hf' as <-. rewrite Hr. cbn. lia.
  - rewrite E, run_at_cons in Hf'. rewrite Hr. cbn. case_decide as Ed; [|rewrite Hf in Hf'; injection Hf' as <-; lia].
    exfalso. unfold run_at in Hf. rewrite lookup_ge_None_2 in Hf; [done|]. rewrite length_rev. lia.
  - rewrite E' in Hf'. rewrite E in Hf |- *. rewrite run_at_cons in Hf, Hf'. cbn [length].
    case_decide as Ed.
    + injection Hf as ->. injection Hf' as ->. destruct (goes_on_spent f f' Hgo) as [H1 H2].
      destruct (is_round e) eqn:Er; cbn [andb]; [|lia].
      rewrite (proj2 (Nat.eqb_eq (S (length fs)) (S depth))) by lia. destruct (productive f') eqn:Ep; cbn [andb]; [|lia].
      assert (waits f = false) as Hwait.
      { destruct e; try done. unfold event_legal in Hl. cbv zeta in Hl. by rewrite E in Hl. }
      specialize (H2 Hwait eq_refl). lia.
    + rewrite Hf in Hf'. injection Hf' as <-. rewrite (proj2 (Nat.eqb_neq (S (length fs)) (S depth))) by lia.
      rewrite andb_false_r. cbn. lia.
  - rewrite E' in Hf'. rewrite E, run_at_cons in Hf. case_decide as Ed.
    + exfalso. unfold run_at in Hf'. rewrite lookup_ge_None_2 in Hf'; [done|]. rewrite length_rev. lia.
    + rewrite Hf in Hf'. injection Hf' as <-. rewrite E. cbn [length].
      rewrite (proj2 (Nat.eqb_neq (S (length fs)) (S depth))) by lia. rewrite andb_false_r. cbn. lia.
Qed.
End world.
