(* ===== verification/WineProperties.v ===== *)
(** WineProperties: the promises of the bridge - safety of every history of
    calls and runs, exclusive runs, the account of a run and its end, the images
    of a process - and what a callback must not do. *)
From S2P Require Import Prelude Context Conversion MemoryModel Memory I386Memory MemoryLogic MemoryInv MemoryTotal MemorySpec MemoryAtomic.
From S2P Require Import Transaction TransactionInv TransactionWorld TransactionCommit.
From S2P Require Import Pe PeInvariant PeProperties Target TargetProperties Control Dynarmic Blink X64Engine X64EngineProperties.
From S2P Require Import I386Engine I386EngineProperties Arm64ecEngine Arm64ecEngineLogic Arm64ecEngineProperties.
From S2P Require Import Hybrid HybridRecord HybridLogic HybridProperties Wine WineLogic WineCalls WineWorld.


Section properties.
Context {platform : Platform} {dynarmic : Dynarmic} {blink : Blink} {allocator : Allocator} {blink_run_ok : BlinkRunOk}.
Implicit Types (p q : gem_wine_process) (t : gem_wine_thread) (w : wine_world) (host : nat).

(** ** Every history *)

Definition config_typed (c : gem_wine_process_config) : Prop :=
  is_u64 (pc_segment_instruction_budget c) /\ is_u64 (pc_total_instruction_budget c) /\
  is_u64 (pc_max_boundary_callbacks c) /\ is_u64 (pc_host_return_sentinel c) /\ is_u64 (pc_unix_call_dispatcher c).

(** The world of a new process: no host thread is in a run. *)
Definition new_world p : wine_world := WineWorld p ∅.

Lemma new_world_frames p host : frames_of host (new_world p) = [].
Proof. unfold frames_of, new_world. cbn. by rewrite lookup_empty. Qed.

Lemma new_world_wf p :
  process_wf p -> (forall tid t, thread_at tid (wp_threads p) = Some t -> wt_run_lock t = None) -> world_wf (new_world p).
Proof.
  intros Hp Hl. split; [done| | |].
  - intros tid t Ht. specialize (Hl tid t Ht). split; [unfold lock_ok; by rewrite Hl|].
    intros host. rewrite new_world_frames. unfold held. by rewrite Hl.
  - intros host. by rewrite new_world_frames.
  - intros host f fs. by rewrite new_world_frames.
Qed.

Lemma created_wf blocks locks host_memory config has_out p m :
  gem_wine_process_create blocks locks host_memory config has_out = Ok (GEM_WINE_OK, Some (p, m)) ->
  (forall c, config = Some c -> config_typed c) ->
  (forall h l, host_memory !! h = Some l -> length l = PAGE) ->
  process_wf p /\ wp_threads p = [] /\ sound m.
Proof.
  intros H Hc Hh. unfold gem_wine_process_create in H. destruct config as [c|]; [|done].
  destruct has_out; [|done]. cbn [negb orb] in H. destruct (process_config_ok c) eqn:Hok; [|done]. cbn [negb] in H.
  destruct blocks; [|done]. destruct locks; [|done]. cbn [negb] in H.
  pose proof (gem_memory_create_safe host_memory Hh) as Hs.
  destruct (gem_memory_create host_memory) as [[[m1|] m2]| |]; try done. cbn in H. injection H as <- <-.
  destruct (Hc c eq_refl) as (H1 & H2 & H3 & H4 & H5). split; [|done]. split; cbn; [by split|constructor..| |constructor|constructor].
  unfold one_routing. cbn. split_and!; by intros [??].
Qed.


(** ** Runs exclude each other *)

(** The status of an attempt that only looks. *)
Definition refused_by (host : nat) w (e : wine_event) (m : mem) (P : gem_wine_status -> Prop) : Prop :=
  exists status, wine_step host w e m = Ok (Some (w, Returns status), m) /\ P status.

Lemma held_elsewhere h host t : lock_ok t -> (0 < held h t)%nat -> host <> h -> run_trylock host t = None /\ held host t = 0%nat.
Proof.
  unfold held, run_trylock. intros Hok Hheld Hne. destruct (wt_run_lock t) as [[o n]|]; [|lia].
  destruct (Nat.eqb_spec o h) as [->|]; [|lia]. destruct (Nat.eqb_spec h host); [done|]. by rewrite andb_false_r.
Qed.

Lemma destroy_refused host tid t p m :
  thread_at tid (wp_threads p) = Some t -> run_trylock host t = None ->
  gem_wine_thread_destroy host (Some tid) p m = Ok (Some (GEM_WINE_CONFLICT, p), m).
Proof.
  intros Ht Htry. cbv beta iota delta [gem_wine_thread_destroy on_thread body deref_thread gets modify mbind K_bind M_bind mret M_ret K_ret].
  rewrite Ht. cbv beta iota. by rewrite Htry.
Qed.

Lemma destroy_accepted host tid t t' p m :
  thread_at tid (wp_threads p) = Some t -> run_trylock host t = Some t' ->
  gem_wine_thread_destroy host (Some tid) p m =
    Ok (Some (GEM_WINE_OK, set_wp_threads p (remove_thread tid (wp_threads p))), m).
Proof.
  intros Ht Htry. cbv beta iota delta [gem_wine_thread_destroy on_thread body deref_thread gets modify mbind K_bind M_bind mret M_ret K_ret].
  rewrite Ht. cbv beta iota. by rewrite Htry.
Qed.


(** ** What a run reports *)

Definition limits_ok p (r : gem_wine_run_result) : Prop :=
  0 <= rr_instructions_retired r <= pc_total_instruction_budget (wp_config p) /\
  0 <= rr_boundary_callbacks r <= pc_max_boundary_callbacks (wp_config p).


(** ** A run ends *)

Lemma rounds_config host depth w0 m0 n w m :
  world_wf w0 -> sound m0 -> run_rounds host depth w0 m0 n w m -> wp_config (ww_process w) = wp_config (ww_process w0).
Proof.
  intros Hw Hm. induction 1 as [|n w m h e w' m' a f' Hrun IH Hl He _]; [done|].
  destruct (rounds_wf _ _ _ _ _ _ _ Hw Hm Hrun) as [Hw1 Hm1].
  pose proof (event_step h w e m Hw1 Hm1 Hl) as H. rewrite He in H. destruct H as (_ & _ & _ & Ec & _). by rewrite Ec.
Qed.


(** ** Images *)

(** The images of a process do not overlap: an address has at most one. *)
Lemma find_covers images im pc :
  ForallOrdPairs apart images -> im ∈ images -> covers pc im = true -> find_image_for_pc images pc = Some im.
Proof.
  intros Ha Hin Hc. induction Ha as [|x l Hx Ha IH]; [by apply elem_of_nil in Hin|]. cbn.
  apply elem_of_cons in Hin as [->|Hin]; [by rewrite Hc|].
  destruct (covers pc x) eqn:E; [exfalso|by apply IH]. rewrite Forall_forall in Hx. specialize (Hx im Hin).
  unfold covers, apart in *. bool_to_Z. lia.
Qed.

(** The end of a registration neither adds nor removes images. *)
Lemma finish_registration_images c q m :
  process_wf q ->
  kwp False (finish_registration c)
    (fun status q' _ => wp_images q' = wp_images q /\
       (status = GEM_WINE_OK \/
        status = GEM_WINE_CONFLICT /\ wp_x86_64_routing_enabled q || wp_i386_routing_enabled q = true))
    (fun status q' _ => wp_images q' = wp_images q /\
       (status = GEM_WINE_OK \/
        status = GEM_WINE_CONFLICT /\ wp_x86_64_routing_enabled q || wp_i386_routing_enabled q = true)) q m.
Proof.
  intros Hq. unfold finish_registration. destruct (has_bits _ _); [kgo; split; [done|by left]|].
  unfold prepare_arm64ec. kgo. apply kwp_when; intros E; [kgo; split; [done|by right]|]. kgo.
  pose proof E as E'. apply orb_false_iff in E' as [_ E2].
  destruct (route_threads_ok q _ (pw_threads _ Hq) E2) as (l' & El & _).
  change (wp_threads (id q)) with (wp_threads q). rewrite El. kgo. split; [done|by left].
Qed.

(** What a registration of [c] makes of the images. *)
Definition registered c p (status : gem_wine_status) q : Prop :=
  let inside pc := wa_loaded_base c <= pc < wa_loaded_base c + wa_image_size c in
  (forall pc, ~ inside pc -> find_image_for_pc (wp_images q) pc = find_image_for_pc (wp_images p) pc) /\
  (status = GEM_WINE_OK -> forall pc, inside pc -> exists im, find_image_for_pc (wp_images q) pc = Some im /\
     wm_config im = stored_config c /\ image_wf im) /\
  (wp_images q = wp_images p \/
   exists im, wp_images q = im :: wp_images p /\ wm_config im = stored_config c /\
     (status = GEM_WINE_OK \/
      status = GEM_WINE_CONFLICT /\ wp_x86_64_routing_enabled p || wp_i386_routing_enabled p = true)).

Lemma unregistered c p status : status <> GEM_WINE_OK -> registered c p status p.
Proof. intros H. split; [done|]. split; [done|by left]. Qed.

Lemma load_not_ok block mapped c : load_arm64x block mapped c <> Err GEM_WINE_OK.
Proof.
  unfold load_arm64x. destruct (gem_pe_arm64x_parse_mapped _ _ _ _ _) as [im|e|];
    cbn [map_err mbind result_bind gem_pe_arm64x_get_summary]; [|by case_bool_decide|done].
  unfold require. destruct (_ =? _); [|done]. cbn [mbind result_bind]. by destruct (gem_arm64ec_target_map_create _ _ _ _).
Qed.

(** The two ways a registration succeeds. *)
Lemma registered_before c p current status q :
  process_wf p -> current ∈ wp_images p -> wm_config current = stored_config c ->
  wm_loaded_end current = wa_loaded_base c + wa_image_size c -> wp_images q = wp_images p -> registered c p status q.
Proof.
  intros Hp Hin Ec Eend Eq. split; [by rewrite Eq|]. split; [|by left]. intros _ pc Hpc. exists current. rewrite Eq.
  split; [|split; [done|]].
  - apply find_covers; [apply Hp|done|]. unfold covers. rewrite Ec. cbn. bool_to_Z. lia.
  - pose proof (pw_images _ Hp) as H. rewrite Forall_forall in H. by apply H.
Qed.

Lemma registered_now c p im status q :
  image_wf im -> wm_config im = stored_config c -> wm_loaded_end im = wa_loaded_base c + wa_image_size c ->
  wp_images q = im :: wp_images p ->
  status = GEM_WINE_OK \/ status = GEM_WINE_CONFLICT /\ wp_x86_64_routing_enabled p || wp_i386_routing_enabled p = true ->
  registered c p status q.
Proof.
  intros Hwf Ec Eend Eq Hst.
  assert (forall pc, covers pc im = true <-> wa_loaded_base c <= pc < wa_loaded_base c + wa_image_size c) as Hcov.
  { intros pc. unfold covers. rewrite Ec, Eend. cbn. rewrite andb_true_iff. lia. }
  split; [|split].
  - intros pc Hpc. rewrite Eq. cbn. destruct (covers pc im) eqn:E; [|done]. by apply Hcov in E.
  - intros _ pc Hpc. exists im. rewrite Eq. cbn. apply Hcov in Hpc. by rewrite Hpc.
  - right. by exists im.
Qed.

Lemma register_post address block mapped c p m :
  sound m -> process_wf p -> arm64x_typed c -> Forall is_u8 mapped -> wa_image_size c <= Z.of_nat (length mapped) ->
  address ∉ (wm_id <$> wp_images p) ->
  kwp False (register_arm64x_mapped address block mapped c)
    (fun status q _ => registered c p status q) (fun status q _ => registered c p status q) p m.
Proof.
  intros Hm Hp Hc Hb Hlen Hnew. unfold register_arm64x_mapped. kgo. apply kwp_when; intros Hok; [kgo; by apply unregistered|].
  apply negb_false_iff in Hok. kgo. eapply kwp_lift; [apply sound_alloc|exact Hm|]. intros object m1 Hm1.
  destruct object as [u|]; [|kgo; by apply unregistered].
  pose proof (load_arm64x_ok block mapped c Hb Hc Hlen) as Hl.
  destruct (load_arm64x block mapped c) as [[[metadata summary] map]|e|] eqn:El; [|kgo|done].
  2:{ apply unregistered. intros ->. by apply load_not_ok in El. }
  destruct Hl as ((b & Him) & Hmap & Hbase). cbv zeta. set (im := WineImage _ _ _ _ _ _). kgo. change (id p) with p.
  assert (image_wf im) as Hwf by (apply built_wf; try done; by exists b).
  destruct (List.find (overlaps im) (wp_images p)) as [current|] eqn:Ef.
  - destruct (_ && _) eqn:E; [|kgo; by apply unregistered].
    apply andb_true_iff in E as [E Ec]. apply bool_decide_eq_true in Ec. apply andb_true_iff in E as [_ Eend].
    apply Z.eqb_eq in Eend. apply List.find_some in Ef as [Hin _]. apply list_elem_of_In in Hin.
    eapply kwp_mono; [by apply finish_registration_images| |]; intros status q m2 [Eq _]; by eapply registered_before.
  - kgo. eapply kwp_mono; [by apply finish_registration_images, image_added| |];
      intros status q m2 [Eq Hst]; by eapply registered_now.
Qed.

(** C19: registration, as a caller sees it.  When it succeeds, every address of the
    image's range belongs to a well-formed image with exactly this configuration;
    the images of all other addresses are what they were, whatever the outcome.
    When it fails no image is added, with one exception: a process that runs x64
    or 32-bit code reports a conflict and keeps the image. *)
Theorem wine_register_spec address block mapped c p m :
  process_wf p -> inv no_pins m -> call_legal p (WineRegister address block mapped (Some c)) ->
  match gem_wine_process_register_arm64x_mapped address block mapped (Some p) (Some c) m with
  | Ok (Some (status, Some q), _) =>
      let inside pc := wa_loaded_base c <= pc < wa_loaded_base c + wa_image_size c in
      (forall pc, ~ inside pc -> find_image_for_pc (wp_images q) pc = find_image_for_pc (wp_images p) pc) /\
      (status = GEM_WINE_OK -> forall pc, inside pc -> exists im, find_image_for_pc (wp_images q) pc = Some im /\
         wm_config im = stored_config c /\ image_wf im) /\
      (wp_images q = wp_images p \/
       exists im, wp_images q = im :: wp_images p /\ wm_config im = stored_config c /\
         (status = GEM_WINE_OK \/
          status = GEM_WINE_CONFLICT /\ wp_x86_64_routing_enabled p || wp_i386_routing_enabled p = true))
  | Err _ => True
  | _ => False
  end.
Proof.
  intros Hp Hm (Hnew & Hc & Hb & Hlen). unfold gem_wine_process_register_arm64x_mapped, on_process, mbind, M_bind.
  pose proof (kwp_body _ _ _ _ _ (register_post address block mapped c p m Hm Hp Hc Hb Hlen Hnew)) as H.
  by destruct (body _ p m) as [[[[status q]|] m']| |].
Qed.

(** ** What a callback must not do *)

Lemma respond_gone tid due response p c r m :
  thread_at tid (wp_threads p) = None -> bp_version response = GEM_WINE_BOUNDARY_ABI_VERSION ->
  bp_struct_size response = SIZEOF_BOUNDARY_RESPONSE -> bp_action response = GEM_WINE_BOUNDARY_RESUME ->
  wine_respond tid due GEM_WINE_OK response (WineRun p c r) m = Fault.
Proof.
  intros Ht Hv Hs Ha. destruct due as [request vectors]. unfold wine_respond, response_malformed. rewrite Hv, Hs.
  cbn [bp_action set_response_context]. rewrite Ha.
  cbv beta iota delta [when mbind K_bind M_bind mret M_ret K_ret the_thread the_process gets].
  rewrite (bool_decide_eq_true_2 (GEM_WINE_OK = GEM_WINE_OK)) by done. cbn. by rewrite Ht.
Qed.

(** C37: why a legal callback leaves its own thread alone: the run lock of an
    ARM64EC or x64 thread is recursive, so a callback that destroys the thread it
    runs for is let through, and the thread is gone; when it then lets the run go
    on, the run reads the freed object. *)
Theorem wine_destroy_in_callback host w tid c r due fs m response :
  world_wf w -> frames_of host w = FrameRun tid c r (Some due) :: fs ->
  bp_version response = GEM_WINE_BOUNDARY_ABI_VERSION -> bp_struct_size response = SIZEOF_BOUNDARY_RESPONSE ->
  bp_action response = GEM_WINE_BOUNDARY_RESUME ->
  exists w', wine_step host w (WineCall (WineThreadDestroy (Some tid))) m = Ok (Some (w', Returns GEM_WINE_OK), m) /\
    thread_at tid (wp_threads (ww_process w')) = None /\ frames_of host w' = frames_of host w /\
    wine_step host w' (WineRespond GEM_WINE_OK response) m = Fault.
Proof.
  intros Hw Hfs Hv Hs Ha. destruct (top_frame w host _ _ Hw Hfs) as (t & Ht & Hl & _). cbn [frame_thread] in Ht.
  destruct (ww_locks _ Hw _ _ Ht) as [Hok Hruns]. specialize (Hruns host). rewrite Hfs, runs_of_cons in Hruns.
  cbn in Hruns. rewrite Nat.eqb_refl in Hruns.
  assert (exists t', run_trylock host t = Some t') as [t' Htry].
  { unfold run_trylock, held in *. destruct (wt_run_lock t) as [[o n]|]; [|by eexists].
    rewrite Hl. destruct (o =? host)%nat; [by eexists|lia]. }
  exists (WineWorld (set_wp_threads (ww_process w) (remove_thread tid (wp_threads (ww_process w)))) (ww_frames w)).
  split; [|split; [|split; [done|]]].
  - unfold wine_step. cbv zeta. rewrite Hfs. cbn [waits]. rewrite bool_decide_eq_true_2 by done. cbn [negb perform].
    unfold mbind at 1, M_bind. by erewrite destroy_accepted.
  - cbn. by rewrite thread_at_remove, Nat.eqb_refl.
  - unfold wine_step. cbv zeta. change (frames_of host (WineWorld _ (ww_frames w))) with (frames_of host w). rewrite Hfs.
    unfold drive, mbind at 1, M_bind. rewrite respond_gone; [done| |done..]. cbn. by rewrite thread_at_remove, Nat.eqb_refl.
Qed.

(** A stop that is requested between two rounds never reaches the coordinator of
    the thread: it goes to the other engines only, although the next round may be
    the coordinator's. *)
Theorem wine_async_between_rounds w tid t m :
  world_wf w -> thread_at tid (wp_threads (ww_process w)) = Some t ->
  exists t', gem_wine_thread_request_async_stop (Some tid) (ww_process w) m = Ok (put_thread tid t' (ww_process w), m) /\
    wt_hybrids t' = wt_hybrids t /\ wt_coordinator_hybrid t' = wt_coordinator_hybrid t /\
    wt_runtime t' = gem_arm64ec_runtime_request_async_stop (wt_runtime t) /\
    wt_x64_runtime t' = gem_x64_runtime_request_async_stop (wt_x64_runtime t).
Proof.
  intros Hw Ht. unfold gem_wine_thread_request_async_stop. rewrite Ht.
  rewrite (th_active t) by apply (thread_fits_at _ _ _ (ww_wf _ Hw) Ht). by eexists.
Qed.
End properties.

(** ** A concrete bridge *)

Section play.
Context {platform : Platform} {dynarmic : Dynarmic} {blink : Blink} {allocator : Allocator}.

#[export] Instance event_legal_dec w host e : Decision (event_legal w host e).
Proof.
  destruct e as [call|[tid|] [c|] outs|[tid|] [c|] outs|ch|status response|status response]; unfold event_legal; cbv zeta;
    cbn [live_pointer from_option]; unfold resting_host, typed_response;
    (destruct (frames_of host w) as [|[? ? ? [?|]|? ? ? [?|]] ?]); try apply _;
    (destruct call; try apply _; destruct thread; apply _).
Defined.

(** The state after some events, when all of them are legal and return. *)
Fixpoint play (script : list (nat * wine_event)) (w : wine_world) (m : mem) : option (list wine_answer * wine_world * mem) :=
  match script with
  | [] => Some ([], w, m)
  | (host, e) :: script =>
    if decide (event_legal w host e) then
      match wine_step host w e m with
      | Ok (Some (w', a), m') =>
          '(answers, w, m) ← play script w' m'; Some (a :: answers, w, m)
      | _ => None
      end
    else None
  end.

Lemma play_history script w0 m0 w m answers w1 m1 :
  wine_history w0 m0 w m -> play script w m = Some (answers, w1, m1) -> wine_history w0 m0 w1 m1.
Proof.
  revert w m answers. induction script as [|[host e] script IH]; intros w m answers Hh; cbn; [by intros [= _ <- <-]|].
  case_decide as Hl; [|done]. destruct (wine_step host w e m) as [[[[w' a]|] m']| |] eqn:E; [|done..].
  destruct (play script w' m') as [[[l w2] m2]|] eqn:Ep; [|done]. cbn. intros [= _ <- <-].
  eapply IH; [|done]. by eapply history_event.
Qed.
End play.


(** The answers without the contexts: what is returned, the event of a callback
    with what its stop retired, the outcome of a run with what it retired. *)
Inductive seen : Type :=
  | Status (s : gem_wine_status)
  | On
  | Callback (event retired : Z)
  | End (s : gem_wine_status) (outcome retired : Z).
Definition see (a : wine_answer) : seen :=
  match a with
  | Returns s => Status s
  | GoesOn => On
  | CallsBack r => Callback (bq_event r) (ws_instructions_retired (bq_stop r))
  | CallsBackI386 r => Callback (bq_event r) (ws_instructions_retired (bq_stop r))
  | RunReturns s _ r => End s (rr_outcome r) (rr_instructions_retired r)
  | RunReturnsI386 s _ r => End s (rr_outcome r) (rr_instructions_retired r)
  end.

(** The bridge over the concrete platform and engines of the other files. *)
#[local] Instance sample_platform : Platform := littered 0.
#[local] Instance sample_dynarmic : Dynarmic := tiny.
#[local] Instance sample_blink : Blink := counting32.
#[local] Instance sample_allocator : Allocator := generous.
#[local] Instance sample_run_ok : BlinkRunOk := counting32_ok.
Definition sample_config : gem_wine_process_config := ProcessConfig 1 80 100 300 5 0x7fff0000 0 (replicate 4 0).
Definition sample_thread : wine_event :=
  WineCall (WineThreadCreate 7 true (Some (ThreadConfig 1 64 0x7000 true (replicate 4 0))) true).
Definition sample_enter (pc : Z) : wine_event := WineEnter (Some 7%nat) (Some (with_pc (tiny_context 0x20000) pc)) true.
Definition sample_round : wine_event := WineRound (Choices (true, true) [] [] 404 16).
Definition sample_respond (pc action : Z) : wine_event :=
  WineRespond GEM_WINE_OK (BoundaryResponse 1 SIZEOF_BOUNDARY_RESPONSE action 42 (with_pc (tiny_context 0x20000) pc)).

Definition sample_process : gem_wine_process :=
  WineProcess sample_config [] [] false false false x86_64_config_zero
    wine_i386_config_zero.
Definition sample_play (script : list (nat * wine_event)) : option (list wine_answer * wine_world * mem) :=
  play script
    (new_world sample_process) tiny_memory.
Definition sample_seen (script : list (nat * wine_event)) : option (list seen) :=
  match sample_play script with Some (answers, _, _) => Some (see <$> answers) | None => None end.

(** Three instructions, then the boundary trap, twice; the callback reserves
    memory, another host thread finds the thread taken, and the second callback
    ends the run. *)
Definition sample_script : list (nat * wine_event) :=
  [(1%nat, sample_thread); (1%nat, sample_enter 0x10000); (1%nat, sample_round)].
Definition sample_rest : list (nat * wine_event) :=
  [(1%nat, WineCall (WineReserve 0x40000 4096)); (2%nat, sample_enter 0x10000);
   (1%nat, sample_respond 0x10004 GEM_WINE_BOUNDARY_RESUME); (1%nat, sample_round);
   (1%nat, sample_respond 0x10004 GEM_WINE_BOUNDARY_TERMINATE);
   (2%nat, WineCall (WineThreadDestroy (Some 7%nat)))].

Example sample_runs : sample_seen (sample_script ++ sample_rest) =
  Some [Status GEM_WINE_OK; On; Callback GEM_WINE_EVENT_SYSCALL 3;
        Status GEM_WINE_OK; Status GEM_WINE_CONFLICT; On; Callback GEM_WINE_EVENT_SYSCALL 2;
        End GEM_WINE_TERMINATED GEM_WINE_RUN_TERMINATED 5; Status GEM_WINE_OK].
Proof. vm_compute. reflexivity. Qed.

(** The sample image as a loader maps it. *)
Definition sample_mapped : list Z :=
  take 0x200 sample_pe ++ replicate 0xe00 0 ++ take 0x200 (drop 0x200 sample_pe) ++ replicate 0xe00 0 ++
  take 0x200 (drop 0x400 sample_pe) ++ replicate 0xe00 0.
Definition sample_arm64x (checker : Z) : gem_wine_arm64x_config :=
  Arm64xConfig 1 88 0x180000000 0x3000 checker 0x18000 0 0x18010 0 (replicate 4 0).
Definition sample_register (checker : Z) : wine_event :=
  WineCall (WineRegister 3 true sample_mapped (Some (sample_arm64x checker))).

(** A registration accepts a checker helper that no coordinator does: the return
    sentinel of the process.  A run that reaches the image then makes no progress,
    and neither ends nor calls back: each round fails to make a coordinator, falls
    back to the native engine, is stopped at once by its broker, and goes on. *)
Definition spin_script : list (nat * wine_event) :=
  [(1%nat, sample_thread); (1%nat, sample_register 0x7fff0000); (1%nat, sample_enter 0x180001000)] ++
  replicate 40 (1%nat, sample_round).
Theorem wine_failed_coordinator_spins :
  sample_seen spin_script = Some ([Status GEM_WINE_OK; Status GEM_WINE_OK; On] ++ replicate 40 On) /\
  match sample_play spin_script with
  | Some (_, w, _) => spent <$> frames_of 1 w = [0]
  | None => False
  end.
Proof. split; vm_compute; reflexivity. Qed.

(** ** Witnesses *)

(** The variables of a run's result. *)
Definition result_fields (r : gem_wine_run_result) : list Z :=
  let s := rr_stop r in
  [rr_version r; rr_struct_size r; rr_outcome r; rr_last_event r; rr_stop_reason r; rr_exit_status r;
   rr_instructions_retired r; rr_boundary_callbacks r; ws_reason s; ws_access s; ws_memory_error s;
   ws_engine_status s; ws_instructions_retired s; ws_fault_address s].
Lemma result_fields_inj r r' : result_fields r = result_fields r' -> r = r'.
Proof. destruct r as [? ? ? ? ? ? ? ? []], r' as [? ? ? ? ? ? ? ? []]. cbn. intros E. by simplify_eq. Qed.

Lemma sample_process_wf : process_wf sample_process.
Proof.
  split; cbn; [|constructor..| |constructor|constructor].
  - split; (by vm_compute) || done.
  - unfold one_routing. cbn. split_and!; by intros [??].
Qed.

Lemma sample_typed : config_typed sample_config.
Proof. by vm_compute. Qed.

Lemma sample_reached script answers w m :
  sample_play script = Some (answers, w, m) ->
  wine_history (new_world sample_process) tiny_memory w m /\
  world_wf w /\ inv no_pins m.
Proof.
  intros H.
  assert (wine_history (new_world sample_process) tiny_memory w m) as Hh
    by (eapply play_history; [apply history_start|exact H]).
  split; [exact Hh|]. eapply (history_wf).
  - apply new_world_wf; [apply sample_process_wf|done].
  - apply tiny_memory_inv.
  - exact Hh.
Qed.





(** The sample image, registered in a new process, and the address after it. *)
Lemma wine_register_spec_witness :
  exists q m im, gem_wine_process_register_arm64x_mapped 3 true sample_mapped (Some sample_process)
      (Some (sample_arm64x 0x18020)) tiny_memory = Ok (Some (GEM_WINE_OK, Some q), m) /\
    find_image_for_pc (wp_images q) 0x180001000 = Some im /\ wm_config im = sample_arm64x 0x18020 /\
    find_image_for_pc (wp_images q) 0x180003000 = None.
Proof.
  assert (match gem_wine_process_register_arm64x_mapped 3 true sample_mapped (Some sample_process)
      (Some (sample_arm64x 0x18020)) tiny_memory with
    | Ok (Some (GEM_WINE_OK, Some _), _) => true | _ => false end = true) as E by (vm_compute; reflexivity).
  pose proof (wine_register_spec 3 true sample_mapped (sample_arm64x 0x18020) sample_process tiny_memory sample_process_wf
    tiny_memory_inv ltac:(apply (bool_decide_unpack _); vm_compute; exact I)) as H.
  destruct (gem_wine_process_register_arm64x_mapped _ _ _ _ _ _) as [[[[[] [q|]]|] m]| |]; try discriminate E.
  destruct H as (H1 & H2 & _). destruct (H2 eq_refl 0x180001000 ltac:(vm_compute; split; congruence)) as (im & Hf & Hc & _).
  exists q, m, im. split; [reflexivity|]. split; [exact Hf|]. split; [exact Hc|].
  rewrite H1; [reflexivity|]. vm_compute. intros [_ Hlt]. discriminate Hlt.
Defined.

(** The callback of the script destroys the thread it runs for, and goes on. *)
Lemma wine_destroy_in_callback_witness :
  exists w m w', wine_step 1 w (WineCall (WineThreadDestroy (Some 7%nat))) m = Ok (Some (w', Returns GEM_WINE_OK), m) /\
    wine_step 1 w' (sample_respond 0x10004 GEM_WINE_BOUNDARY_RESUME) m = Fault.
Proof.
  assert (match sample_play sample_script with
    | Some (_, w, _) => match frames_of 1 w with [FrameRun tid _ _ (Some _)] => tid | _ => 0%nat end
    | None => 0%nat end = 7%nat) as E by (vm_compute; reflexivity).
  destruct (sample_play sample_script) as [[[answers w] m]|] eqn:Ep; [|discriminate E].
  destruct (sample_reached _ _ _ _ Ep) as (_ & Hw & Hm).
  destruct (frames_of 1 w) as [|[tid c r [due|]|? ? ? ?] [|? ?]] eqn:Ef; try discriminate E. subst tid.
  destruct (wine_destroy_in_callback 1 w 7 c r due [] m
    (BoundaryResponse 1 SIZEOF_BOUNDARY_RESPONSE GEM_WINE_BOUNDARY_RESUME 42 (with_pc (tiny_context 0x20000) 0x10004))
    Hw Ef eq_refl eq_refl eq_refl) as (w' & H1 & _ & _ & H2).
  exists w, m, w'. split; [exact H1|exact H2].
Defined.
